(* ===== verification/_CoqProject ===== *)
-Q . S2P
Prelude.v
FileIO.v
HdbCommon.v
Index.v
Hdb.v
HdbHeap.v
Dll.v
FreeList.v
HdbNode.v
HdbInv.v
HdbTree.v
HdbAlloc.v
HdbAdd.v
HdbSubtree.v
HdbRemove.v
HdbUpdate.v
HdbRelocate.v
HdbSpec.v
HdbContract.v
HdbHold.v
HdbForest.v
HdbMain.v
Blocxx.v
CimSerial.v
CimData.v
CimDateTime.v
CimTypeNames.v
CimIO.v
CimTotal.v
CimObjects.v
CimOps.v
CimSync.v
ClassOps.v
CimRef.v
BinProtocol.v
BinFacts.v
BinMain.v
Repo.v
CimStore.v
CimMain.v
RepoFacts.v
RepoOps.v
Cache.v
Meta.v
MetaOps.v
MetaEnum.v
MetaClass.v
MetaClassFacts.v
InstRepo.v
CimRepoOps.v
CimRepo.v
RepoMain.v
InstMain.v
ClassMain.v
CimRepoMain.v
Wql.v
WqlCompile.v
WqlExpr.v
WqlNot.v
WqlHeap.v
WqlFactor.v
WqlGather.v
WqlEval.v
WqlCorrect.v
WqlGen.v
WqlDirect.v
WqlMain.v
XmlText.v
XmlParser.v
XmlDom.v
XmlPrint.v
XmlSax.v
XmlRoundtrip.v
XmlPull.v
XmlTokens.v
XmlMain.v
HttpBase64.v
HttpUrl.v
HttpStreams.v
HttpMain.v
