(* ===== verification/Prelude.v ===== *)
(** * OpenWBEM: a verification development

   OpenWBEM is a WBEM management server in C++.  A client sends CIM-XML or a
   binary form over HTTP; the request handlers turn it into calls of the CIM object manager,
   which answers from providers or from its repository: a set of databases in
   a file format of its own (HDB) with a B-tree index each.  Queries are
   written in WQL, parsed into a select statement and evaluated against CIM
   instances, directly or after compilation.

   Paths below are relative to src/src.  C<n> are the numbers of the theorems
   that carry a claim; they are collected in the files [...Main].

   ** Style

   Code that may throw, crash or not end returns an [outcome] ([Ok], [Throw],
   [Crash], [Diverge]); code with state is a [Prog S A], a state monad over
   outcomes that keeps the state after an exception.  [wp m Q s] says that [m]
   returns from [s] and establishes [Q] (so it excludes crashes and
   divergence), [throws m x Q s] that it throws [x].  Undefined behaviour of the
   source (a null reference, an index outside of an array, a dangling iterator,
   a read behind a buffer) is [Crash].  Machine integers are [Z] with their wrap
   written out ([s32], [u32], ...), bytes are [Z] in [0, 256), [bytes] are lists
   of them.

   ** The parts

   - _Files and blocks_: [FileIO] (the interface of [blocxx::File] and an
     in-memory file that satisfies it), [HdbCommon]
     (repositories/hdb/OW_HDBCommon.hpp: the layout of blocks in the file and
     their checksum).
   - _Index_: [Index] (OW_Index.hpp, OW_IndexImpl.cpp).  The class [IndexOps]
     with [IndexLaws] is what the engine is proved against; [IndexImpl] over a
     B-tree ([BTreeOps], [BTreeLaws]) discharges it.
   - _Engine_: [Hdb] (OW_HDB.cpp: class HDB) and [HdbNode] (OW_HDBNode.cpp and
     class HDBHandle).  Proofs go through three views: the block heap of a file
     ([HdbHeap], [Dll], [FreeList]), the abstract database with offsets
     ([HdbInv], and a file per operation from [HdbTree] to [HdbRelocate]), and
     the forest of keys a client sees ([HdbSpec], [HdbContract], [HdbHold],
     [HdbForest]).  [HdbMain] has C1 to C8: each operation of a handle refines
     the operation of the same name on the forest, removal and moves included;
     the free list is sorted and gives the best fit; corrupted blocks are
     detected; the index is a finite map.
   - _WQL_: [Wql] (common/OW_WQLOperand, OW_WQLSelectStatement), [WqlCompile]
     (common/OW_WQLCompile.cpp), [WqlGen] (wql/OW_WQLSelectStatementGen.cpp over
     wql/OW_WQLAst.hpp), the passes of the compiler in [WqlNot], [WqlHeap],
     [WqlFactor], [WqlGather], the evaluators in [WqlEval], [WqlDirect].
     [WqlMain] has C9 to C13: a compiled clause has the value of the clause,
     the passes end in the normal forms they are named after, what the direct
     evaluator computes, and when the two agree.
   - _Repositories_: [Repo] (OW_GenericHDBRepository.cpp, the class nodes of
     OW_InstanceRepository.cpp), [Cache] (common/OW_Cache.hpp), [Meta]
     (qualifier types of OW_MetaRepository.cpp and the namespace operations of
     OW_CIMRepository.cpp), with their facts in [RepoFacts], [RepoOps],
     [MetaOps], [MetaEnum], [CimRepo].  They call the engine and
     are proved from its contract only.  [RepoMain] has C14 to C19: every
     reachable database is a forest; namespaces, classes, objects and qualifier
     types on every branch; handles go back to their pool; the cache is a bounded
     least-recently-used list and is transparent.  [CimStore] makes the CIM
     objects storable; [InstRepo] has the rest of OW_InstanceRepository.cpp, and
     [InstMain] C20 and C21: an instance that was created is found under its path
     with its values, listed, changed and deleted, and nothing else changes.
     [MetaClass] has the class operations of OW_MetaRepository.cpp over what a
     class inherits ([ClassOps]).  [MetaClassFacts] defines the completed class of
     a node ([resolves]) and shows that it is what is read, from the cache or from
     the database; [ClassMain] shows that a class that was created is found,
     completed by its super classes, until it is deleted, that what is refused is
     not stored, and with C22 what a class inherits.  [CimRepoOps] puts the stores
     together: the operations of OW_CIMRepository.cpp on qualifier types, classes,
     instances and properties, over an interface of the association indexes
     ([AssocIndex]).  [CimRepoMain] has C23 to C26: the life of a class and of an
     instance through all stores, what is refused, and the enumerations, which walk
     over the forest of classes ([listing]) and visit each sub-class once.
   - _XML_: [XmlText] (xml/OW_XMLEscape.cpp, OW_XMLUnescape.cpp), [XmlParser]
     (OW_XMLParserCore.cpp), [XmlDom] (OW_XMLParserSAX.cpp, OW_XMLParserDOM.cpp,
     OW_XMLNode.cpp), [XmlPull] (OW_XMLPullParser.cpp, OW_CIMXMLParser.cpp).
     [XmlMain] has C27 to C31: escaping and documents survive a round trip,
     the parsers end on every input and tags nest; the table of elements is searched
     correctly.
   - _HTTP_: [HttpBase64], [HttpUrl] (http/common/OW_HTTPUtils.cpp),
     [HttpStreams] (OW_HTTPChunkedIStream.cpp, OW_HTTPChunkedOStream.cpp,
     OW_HTTPLenLimitIStream.cpp).  [HttpMain] has C32 to C34: base64 and URL
     escaping are inverted by their decoders within their buffers, and bodies
     are delivered exactly, however they are cut into pieces.
   - _CIM objects_: [CimSerial] (common/OW_BinarySerialization.cpp, the
     signatures of cim/OW_CIMBase.cpp), [CimData] (the data of the classes in
     cim/, URLs), [CimIO] ([readObject] and [writeObject] of all of them),
     [CimDateTime], [CimTypeNames] (the scanner of OW_CIMDataType.cpp),
     [CimObjects] (whole objects and enumerations), [CimOps] (the operations of
     OW_CIMProperty.cpp and OW_CIMInstance.cpp), [CimSync] ([syncWithClass],
     [clone], [createModifiedInstance], paths of instances), [ClassOps]
     (OW_CIMQualifier.cpp, OW_CIMMethod.cpp, OW_CIMClass.cpp, inheritance), with facts
     in [CimTotal].  [CimMain] has C35 to C38: objects and
     enumerations survive serialisation, reading any bytes ends, date-times are
     formatted, read and ordered, and the key list of an instance follows its
     properties; the scanner knows the type names.
   - _Binary protocol_: [BinProtocol] (client/OW_BinaryCIMOMHandle.cpp and
     requesthandlers/binary/OW_BinaryRequestHandler.cpp): the operations of the
     CIMOM handle as a type [Op], the client's methods and the request handler's
     functions over it.  [BinFacts] says what a call over the protocol amounts to
     ([remote]) and what becomes of arbitrary bytes; [BinMain] has C39
     (every method of the client is the server's call) and C40 (every request is
     refused, or served by one call).

   ** Parameters

   Code outside of the repository is a class with laws, and each has an instance
   used by the witnesses: the file ([FileOps]/[FileLaws], instance [MemFile]),
   the B-tree ([BTreeOps]/[BTreeLaws]), serialised CIM objects of the repositories
   ([CIMBase]/[CIMBaseLaws]: reading back what was written, which C35 shows of the
   objects themselves), case folding ([StringOps]/[StringLaws]: idempotent), string
   searching ([StringSearch]/[StringSearchLaws]), the stream form of strings,
   booleans, characters and real numbers ([Blocxx]/[BlocxxLaws], instance
   [RefBlocxx]), trimming, numbers in text and comparison of names
   ([StringConv]/[NameLaws]), what a stream iterator reads at the end ([StreamEnd]),
   floating point numbers and string order of WQL ([WqlLib]/[WqlLaws]) and the
   conversions of its scanner ([ScanLib]).  Whether [BLOCXX_ASSERT] is compiled in
   is an argument ([asserts]).  So are the parts of the server at which a model
   ends: the cast of a value to another type in [CimOps], the text and the
   comparison of values and the order of properties in [InstRepo] and [ClassOps],
   the association indexes in [CimRepoOps] ([AssocIndex]), and in [BinProtocol] the
   server's own handle, its host name, the text of an exception and the features
   that the client's protocol handler reports.

   ** Fuel

   Loops over blocks have [file_fuel], the size of the file in bytes: the blocks
   of a list are distinct and none is empty.  The walk over super classes and the
   one over sub-classes have it as well: their nodes are distinct.  The factoring and gathering loops
   of WQL have fuel computed from the heap, proved sufficient in [WqlFactor]
   and [WqlGather].  A scanner or parser loop has one more than the characters
   left ([XmlParser]: one token uses up at least one; [pull_fuel] adds one for
   the current token); the SAX loop twice the characters, since an empty element
   is two tokens; [printNode] any number above the size of the tree; a chunk loop
   one more than the bytes asked for; reading a CIM value one more than the bytes
   left, since nothing nests deeper.  All theorems say that the result is
   reached: exhausted fuel is [Diverge], which neither [wp] nor [throws] accepts.

   ** Not modelled

   blocxx (strings, files, threads, sockets) is used through the classes above.
   Mutexes and concurrent callers: every modelled operation runs under one lock
   in the source and is sequential here; the files that the handles of a
   database open are one file.  Of the repositories, the association database
   (OW_AssocDb.cpp), the traversal of associations and the optional check of
   referential integrity are left out; of the CIM objects, conversions between
   value types, printing and most accessors; of the binary protocol, logging,
   cancelled threads and chunked replies.  The remaining components (the object
   manager and its providers, the indication server, the CIM-XML request handler
   and client, HTTP headers, digests and sockets, authenticators and authorizers,
   the MOF compiler, the provider interfaces and the tools) are generated parsers,
   accessors or input and output around the parts above. *)

From stdpp Require Export base tactics list numbers option gmap strings.
From Stdlib Require Export ZArith Lia.

#[global] Open Scope Z_scope.

(** ** Automation *)

Create HintDb owdb.
Create Rewrite HintDb owlen.

(** Case analysis on the first [match]/[if] scrutinee of the goal. *)
Ltac destr :=
  match goal with
  | |- context [match ?x with _ => _ end] => destruct x eqn:?
  end.

(** Turn boolean tests on [Z] into arithmetic facts. *)
Ltac zbool :=
  repeat match goal with
  | H : (_ =? _)%Z = true |- _ => apply Z.eqb_eq in H
  | H : (_ =? _)%Z = false |- _ => apply Z.eqb_neq in H
  | H : (_ <? _)%Z = true |- _ => apply Z.ltb_lt in H
  | H : (_ <? _)%Z = false |- _ => apply Z.ltb_ge in H
  | H : (_ <=? _)%Z = true |- _ => apply Z.leb_le in H
  | H : (_ <=? _)%Z = false |- _ => apply Z.leb_gt in H
  | H : (_ && _)%bool = true |- _ => apply andb_true_iff in H as [? ?]
  | H : (_ || _)%bool = false |- _ => apply orb_false_iff in H as [? ?]
  | H : negb _ = true |- _ => apply negb_true_iff in H
  | H : negb _ = false |- _ => apply negb_false_iff in H
  end.

(** Arithmetic after rewriting list lengths. *)
Ltac len := autorewrite with owlen in *; simpl in *; lia.

(** Decide a [Z] test in the goal from the context. *)
Ltac ztest :=
  repeat match goal with
  | |- context [(?a =? ?b)%Z] =>
      first [ replace (a =? b)%Z with true by (symmetry; apply Z.eqb_eq; lia)
            | replace (a =? b)%Z with false by (symmetry; apply Z.eqb_neq; lia) ]
  | |- context [(?a <? ?b)%Z] =>
      first [ replace (a <? b)%Z with true by (symmetry; apply Z.ltb_lt; lia)
            | replace (a <? b)%Z with false by (symmetry; apply Z.ltb_ge; lia) ]
  | |- context [(?a <=? ?b)%Z] =>
      first [ replace (a <=? b)%Z with true by (symmetry; apply Z.leb_le; lia)
            | replace (a <=? b)%Z with false by (symmetry; apply Z.leb_gt; lia) ]
  end.

(** ** Machine integers *)

(** Unsigned and two's complement reading of the low [w] bits. *)
Definition uwrap (w z : Z) : Z := z mod 2 ^ w.
Definition swrap (w z : Z) : Z := (z + 2 ^ (w - 1)) mod 2 ^ w - 2 ^ (w - 1).

Abbreviation u8 := (uwrap 8).
Abbreviation u32 := (uwrap 32).
Abbreviation s32 := (swrap 32).

Lemma uwrap_id w z : 0 <= z < 2 ^ w -> uwrap w z = z.
Proof. intros H. unfold uwrap. by apply Z.mod_small. Qed.

Lemma uwrap_range w z : 0 <= w -> 0 <= uwrap w z < 2 ^ w.
Proof. intros Hw. unfold uwrap. apply Z.mod_pos_bound. lia. Qed.

Lemma swrap_id w z : - 2 ^ (w - 1) <= z < 2 ^ w - 2 ^ (w - 1) -> swrap w z = z.
Proof. intros H. unfold swrap. rewrite Z.mod_small; lia. Qed.

Lemma swrap_uwrap w z : 0 <= w -> swrap w (uwrap w z) = swrap w z.
Proof.
  intros Hw. unfold swrap, uwrap. by rewrite Zplus_mod_idemp_l.
Qed.

Lemma s32_id z : - 2147483648 <= z < 2147483648 -> s32 z = z.
Proof. intros H. apply swrap_id. simpl. lia. Qed.

Lemma u32_id z : 0 <= z < 4294967296 -> u32 z = z.
Proof. intros H. apply uwrap_id. simpl. lia. Qed.

(** ** Little-endian byte strings *)

Abbreviation bytes := (list Z).

(** [n] bytes of [z], least significant first. *)
Fixpoint le_enc (n : nat) (z : Z) : bytes :=
  match n with
  | O => []
  | S n => u8 z :: le_enc n (z / 256)
  end.

Fixpoint le_dec (l : bytes) : Z :=
  match l with
  | [] => 0
  | b :: l => b + 256 * le_dec l
  end.

(** The bytes of a text constant. *)
Definition txt (s : string) : bytes := (fun a => Z.of_N (Ascii.N_of_ascii a)) <$> String.list_ascii_of_string s.

(** A byte value. *)
Definition is_byte (b : Z) : Prop := 0 <= b < 256.

Lemma length_le_enc n z : length (le_enc n z) = n.
Proof. revert z; induction n; intros; simpl; auto. Qed.

Lemma le_enc_bytes n z : Forall is_byte (le_enc n z).
Proof.
  revert z; induction n as [|n IH]; intros z; simpl; constructor; auto.
  apply (uwrap_range 8). lia.
Qed.

Lemma le_dec_enc n z : le_dec (le_enc n z) = uwrap (8 * Z.of_nat n) z.
Proof.
  revert z; induction n as [|n IH]; intros z; simpl le_enc; simpl le_dec.
  { unfold uwrap. simpl. by rewrite Z.mod_1_r. }
  rewrite IH. unfold uwrap.
  replace (8 * Z.of_nat (S n)) with (8 + 8 * Z.of_nat n) by lia.
  rewrite Z.pow_add_r by lia. change (2 ^ 8) with 256.
  rewrite Z.rem_mul_r by lia. lia.
Qed.

Lemma le_dec_bound l : Forall is_byte l -> 0 <= le_dec l < 2 ^ (8 * Z.of_nat (length l)).
Proof.
  induction 1 as [|b l Hb _ IH]; [simpl; lia|].
  cbn [le_dec length]. replace (8 * Z.of_nat (S (length l))) with (8 + 8 * Z.of_nat (length l)) by lia.
  rewrite Z.pow_add_r by lia. unfold is_byte in Hb. lia.
Qed.
#[export] Hint Rewrite length_le_enc : owlen.

(** ** Slices of lists at [Z] offsets *)

Definition zlen {A} (l : list A) : Z := Z.of_nat (length l).

(** The [n] elements from offset [o] on (fewer at the end of the list). *)
Definition sub {A} (l : list A) (o n : Z) : list A :=
  take (Z.to_nat n) (drop (Z.to_nat o) l).

(** [l] with the elements from offset [o] on overwritten by [xs]. *)
Definition splice {A} (l : list A) (o : Z) (xs : list A) : list A :=
  take (Z.to_nat o) l ++ xs ++ drop (Z.to_nat o + length xs) l.

(** Behind a separator. *)
Lemma drop_past {A} (a : list A) c b : drop (length a + 1) (a ++ c :: b) = b.
Proof.
  replace (length a + 1)%nat with (length (a ++ [c])) by (rewrite length_app; simpl; lia).
  replace (a ++ c :: b) with ((a ++ [c]) ++ b) by (by rewrite <- app_assoc). by rewrite drop_app_length.
Qed.

Section Slices.
Context {A : Type}.
Implicit Types l xs : list A.

Lemma zlen_nonneg l : 0 <= zlen l.
Proof. unfold zlen. lia. Qed.

Lemma zlen_app l xs : zlen (l ++ xs) = zlen l + zlen xs.
Proof. unfold zlen. rewrite length_app. lia. Qed.

Lemma zlen_cons x l : zlen (x :: l) = 1 + zlen l.
Proof. unfold zlen. simpl length. lia. Qed.

Lemma zlen_sub l o n : 0 <= o -> 0 <= n -> o + n <= zlen l -> zlen (sub l o n) = n.
Proof. unfold zlen, sub. intros. rewrite length_take, length_drop. lia. Qed.

Lemma zlen_sub_le l o n : 0 <= n -> zlen (sub l o n) <= n.
Proof. unfold zlen, sub. intros. rewrite length_take. lia. Qed.

Lemma zlen_splice l o xs :
  0 <= o -> o <= zlen l -> zlen (splice l o xs) = Z.max (zlen l) (o + zlen xs).
Proof.
  unfold zlen, splice. intros. rewrite !length_app, length_take, length_drop. lia.
Qed.

Lemma sub_ext l1 l2 o n :
  0 <= o -> 0 <= n ->
  (forall i, o <= i < o + n -> l1 !! Z.to_nat i = l2 !! Z.to_nat i) ->
  sub l1 o n = sub l2 o n.
Proof.
  intros Ho Hn H. unfold sub. apply list_eq. intros i.
  destruct (decide (i < Z.to_nat n)%nat) as [Hi|Hi].
  - rewrite !lookup_take_lt by lia. rewrite !lookup_drop.
    specialize (H (o + Z.of_nat i)). rewrite Z2Nat.inj_add, Nat2Z.id in H by lia.
    apply H. lia.
  - rewrite !lookup_take_ge by lia. done.
Qed.

Lemma lookup_splice l o xs i :
  0 <= o -> o <= zlen l ->
  splice l o xs !! i =
    if decide (Z.to_nat o <= i < Z.to_nat o + length xs)%nat
    then xs !! (i - Z.to_nat o)%nat else l !! i.
Proof.
  unfold zlen, splice. intros Ho Hl.
  assert (length (take (Z.to_nat o) l) = Z.to_nat o) as HL by (rewrite length_take; lia).
  destruct (decide (i < Z.to_nat o)%nat) as [H1|H1].
  - rewrite lookup_app_l, lookup_take_lt by lia.
    rewrite decide_False by lia. done.
  - rewrite lookup_app_r, HL by lia.
    destruct (decide (i < Z.to_nat o + length xs)%nat) as [H2|H2].
    + rewrite decide_True by lia. by rewrite lookup_app_l by lia.
    + rewrite decide_False by lia. rewrite lookup_app_r, lookup_drop by lia.
      f_equal. lia.
Qed.

Lemma sub_splice_eq l o xs :
  0 <= o -> o <= zlen l -> sub (splice l o xs) o (zlen xs) = xs.
Proof.
  intros Ho Hl. unfold sub, zlen. rewrite Nat2Z.id. apply list_eq. intros i.
  destruct (decide (i < length xs)%nat) as [Hi|Hi].
  - rewrite lookup_take_lt, lookup_drop, lookup_splice by (unfold zlen in *; lia).
    rewrite decide_True by lia. f_equal. lia.
  - rewrite lookup_take_ge by lia. symmetry. apply lookup_ge_None. lia.
Qed.

(** A slice disjoint from the overwritten range is unchanged. *)
Lemma sub_splice_ne l o xs o' n :
  0 <= o -> o <= zlen l -> 0 <= o' -> 0 <= n ->
  o' + n <= o \/ o + zlen xs <= o' ->
  sub (splice l o xs) o' n = sub l o' n.
Proof.
  intros Ho Hl Ho' Hn Hd. apply sub_ext; [done..|]. intros i Hi.
  rewrite lookup_splice by done. rewrite decide_False; [done|]. unfold zlen in Hd. lia.
Qed.

Lemma sub_app_split l o n m :
  0 <= o -> 0 <= n -> 0 <= m -> sub l o (n + m) = sub l o n ++ sub l (o + n) m.
Proof.
  intros. unfold sub. rewrite Z2Nat.inj_add by lia.
  rewrite (Z2Nat.inj_add o n) by lia. rewrite <- drop_drop.
  rewrite <- (take_drop (Z.to_nat n) (drop (Z.to_nat o) l)) at 1.
  rewrite take_app. rewrite length_take, length_drop.
  f_equal.
  - rewrite take_take. f_equal. lia.
  - destruct (decide (Z.to_nat n <= length l - Z.to_nat o)%nat).
    + f_equal. lia.
    + rewrite !(drop_ge (drop _ _)) by (rewrite length_drop; lia). by rewrite !take_nil.
Qed.

Lemma sub_all l : sub l 0 (zlen l) = l.
Proof. unfold sub, zlen. simpl. rewrite Nat2Z.id. by rewrite take_ge. Qed.

Lemma splice_end l xs : splice l (zlen l) xs = l ++ xs.
Proof.
  unfold splice, zlen. rewrite Nat2Z.id, firstn_all, drop_ge by lia. by rewrite app_nil_r.
Qed.

Lemma sub_sub l o n o' n' :
  0 <= o -> 0 <= o' -> 0 <= n' -> o' + n' <= n -> sub (sub l o n) o' n' = sub l (o + o') n'.
Proof.
  intros. unfold sub. rewrite (Z2Nat.inj_add o o') by lia.
  rewrite skipn_firstn_comm, take_take, drop_drop. f_equal. lia.
Qed.
End Slices.

Lemma zlen_nil : zlen (@nil Z) = 0.
Proof. done. Qed.

#[export] Hint Rewrite @zlen_app @zlen_cons zlen_nil : owlen.

(** ** Programs that throw

   C++ code that throws keeps the state changes made before the throw: a
   program maps a state to an outcome and the state left behind. *)

Inductive outcome (A : Type) : Type :=
| Ok (a : A)
| Throw (msg : string)   (* a C++ exception with its message *)
| Crash                  (* undefined behaviour: a null or out-of-range access *)
| Diverge.               (* the loop bound chosen by the model ran out *)
Arguments Ok {A} _.
Arguments Throw {A} _.
Arguments Crash {A}.
Arguments Diverge {A}.

#[export] Instance outcome_ret : MRet outcome := fun A a => Ok a.
#[export] Instance outcome_bind : MBind outcome := fun A B k m =>
  match m with
  | Ok a => k a
  | Throw e => Throw e
  | Crash => Crash
  | Diverge => Diverge
  end.
#[export] Instance outcome_fmap : FMap outcome := fun A B f m =>
  match m with
  | Ok a => Ok (f a)
  | Throw e => Throw e
  | Crash => Crash
  | Diverge => Diverge
  end.

(** A value that must be there: an access outside an array is undefined. *)
Definition present {A} (o : option A) : outcome A :=
  match o with
  | Some a => Ok a
  | None => Crash
  end.

Definition Prog (S A : Type) : Type := S -> outcome A * S.

#[export] Instance Prog_ret {S} : MRet (Prog S) := fun A a s => (Ok a, s).
#[export] Instance Prog_bind {S} : MBind (Prog S) := fun A B k m s =>
  match m s with
  | (Ok a, s') => k a s'
  | (Throw e, s') => (Throw e, s')
  | (Crash, s') => (Crash, s')
  | (Diverge, s') => (Diverge, s')
  end.

Definition throw {S A} (msg : string) : Prog S A := fun s => (Throw msg, s).
(** The outcome of a computation that does not touch the state. *)
Definition of_outcome {S A} (o : outcome A) : Prog S A := fun s => (o, s).
Definition crash {S A} : Prog S A := fun s => (Crash, s).
Definition diverge {S A} : Prog S A := fun s => (Diverge, s).
Definition get {S} : Prog S S := fun s => (Ok s, s).
Definition put {S} (s : S) : Prog S () := fun _ => (Ok (), s).
Definition when {S} (b : bool) (m : Prog S ()) : Prog S () :=
  if b then m else mret ().

(** [try m h]: a C++ [try]/[catch] of the exception type [m] throws. *)
Definition try_catch {S A} (m : Prog S A) (h : string -> Prog S A) : Prog S A := fun s =>
  match m s with
  | (Throw e, s') => h e s'
  | r => r
  end.

(** Total correctness: [m] returns normally from [s], in a result and a
   state that satisfy [Q]. *)
Definition wp {S A} (m : Prog S A) (Q : A -> S -> Prop) (s : S) : Prop :=
  match m s with
  | (Ok a, s') => Q a s'
  | _ => False
  end.

Section WP.
Context {S : Type}.

Lemma wp_ret {A} (a : A) (Q : A -> S -> Prop) s : Q a s -> wp (mret a) Q s.
Proof. done. Qed.

Lemma wp_bind {A B} (m : Prog S A) (k : A -> Prog S B) Q s :
  wp m (fun a s' => wp (k a) Q s') s -> wp (m ≫= k) Q s.
Proof.
  unfold wp, mbind, Prog_bind. destruct (m s) as [[] s']; done.
Qed.

Lemma wp_bind_inv {A B} (m : Prog S A) (k : A -> Prog S B) Q s :
  wp (m ≫= k) Q s -> wp m (fun a s' => wp (k a) Q s') s.
Proof.
  unfold wp, mbind, Prog_bind. destruct (m s) as [[] s']; done.
Qed.

Lemma wp_mono {A} (m : Prog S A) (Q Q' : A -> S -> Prop) s :
  wp m Q s -> (forall a s', Q a s' -> Q' a s') -> wp m Q' s.
Proof. unfold wp. destruct (m s) as [[] s']; naive_solver. Qed.

Lemma wp_get (Q : S -> S -> Prop) s : Q s s -> wp get Q s.
Proof. done. Qed.

Lemma wp_put s' (Q : () -> S -> Prop) s : Q () s' -> wp (put s') Q s.
Proof. done. Qed.

Lemma wp_when b m (Q : () -> S -> Prop) s :
  (b = true -> wp m Q s) -> (b = false -> Q () s) -> wp (when b m) Q s.
Proof. destruct b; unfold when; intros H1 H2; [by apply H1|by apply H2]. Qed.

Lemma wp_try {A} (m : Prog S A) h Q s : wp m Q s -> wp (try_catch m h) Q s.
Proof. unfold wp, try_catch. destruct (m s) as [[] s']; naive_solver. Qed.

Lemma wp_run {A} (m : Prog S A) Q s :
  wp m Q s <-> exists a s', m s = (Ok a, s') /\ Q a s'.
Proof.
  unfold wp. split.
  - destruct (m s) as [[a| | |] s'] eqn:E; [eauto|done..].
  - intros (a & s' & E & HQ). by rewrite E.
Qed.
End WP.

Lemma outcome_bind_ok {A B} (o : outcome A) (k : A -> outcome B) b : o ≫= k = Ok b -> exists a, o = Ok a /\ k a = Ok b.
Proof. destruct o; try done. eauto. Qed.

Lemma wp_outcome {S A} (o : outcome A) a (Q : A -> S -> Prop) (x : S) : o = Ok a -> Q a x -> wp (of_outcome o) Q x.
Proof. intros -> HQ. done. Qed.

(** One step of symbolic execution. *)
Ltac wstep :=
  match goal with
  | |- wp (mbind _ _) _ _ => apply wp_bind
  | |- wp (mret _) _ _ => apply wp_ret
  | |- wp get _ _ => apply wp_get
  | |- wp (put _) _ _ => apply wp_put
  end.

(** ** More on little-endian encodings *)

Lemma uwrap_small_eq w z : 0 <= z < 2 ^ w -> z = uwrap w z.
Proof. intros H. by rewrite uwrap_id. Qed.

Lemma le_enc_dec l : Forall is_byte l -> le_enc (length l) (le_dec l) = l.
Proof.
  induction 1 as [|b l Hb _ IH]; [done|]. cbn [le_dec length le_enc].
  unfold is_byte in Hb.
  assert ((b + 256 * le_dec l) / 256 = le_dec l) as ->.
  { rewrite (Z.mul_comm 256), Z_div_plus by lia. rewrite Z.div_small by lia. lia. }
  rewrite IH. f_equal. unfold uwrap. change (2 ^ 8) with 256.
  rewrite (Z.mul_comm 256), Z_mod_plus_full. by apply Z.mod_small.
Qed.

Lemma le_enc_uwrap n z : le_enc n (uwrap (8 * Z.of_nat n) z) = le_enc n z.
Proof.
  rewrite <- le_dec_enc. pose proof (le_enc_dec (le_enc n z) (le_enc_bytes n z)) as H.
  by rewrite length_le_enc in H.
Qed.

Lemma uwrap_swrap w z : 0 < w -> uwrap w (swrap w z) = uwrap w z.
Proof.
  intros Hw. unfold uwrap, swrap. rewrite Zminus_mod_idemp_l. f_equal. lia.
Qed.

Lemma le_enc_s32 z : le_enc 4 (s32 z) = le_enc 4 z.
Proof.
  rewrite <- (le_enc_uwrap 4 (s32 z)), <- (le_enc_uwrap 4 z).
  change (8 * Z.of_nat 4) with 32. by rewrite uwrap_swrap.
Qed.

Lemma sub_bytes l o n : Forall is_byte l -> Forall is_byte (sub l o n).
Proof. intros H. unfold sub. by apply Forall_take, Forall_drop. Qed.

Lemma sub_app_l {A} (l1 l2 : list A) o n :
  0 <= o -> o + n <= zlen l1 -> sub (l1 ++ l2) o n = sub l1 o n.
Proof.
  unfold sub, zlen. intros. rewrite drop_app, take_app.
  rewrite length_drop.
  replace (Z.to_nat n - (length l1 - Z.to_nat o))%nat with 0%nat by lia.
  by rewrite take_0, app_nil_r.
Qed.

Lemma sub_app_r {A} (l1 l2 : list A) o n :
  zlen l1 <= o -> sub (l1 ++ l2) o n = sub l2 (o - zlen l1) n.
Proof.
  unfold sub, zlen. intros. rewrite drop_app.
  rewrite (drop_ge l1) by lia. simpl. do 2 f_equal. lia.
Qed.

Lemma sub_le_enc z n k : k = Z.of_nat n -> sub (le_enc n z) 0 k = le_enc n z.
Proof. intros ->. unfold sub. rewrite Nat2Z.id. apply take_ge. simpl. rewrite length_le_enc. lia. Qed.

#[global] Arguments le_enc : simpl never.
#[global] Arguments le_dec : simpl never.
#[global] Arguments sub : simpl never.
#[global] Arguments splice : simpl never.
#[global] Arguments zlen : simpl never.
