(* ===== verification/FileIO.v ===== *)
(** * The file interface the HDB storage engine relies on

   [blocxx::File] is a class of a library outside the repository.  The HDB
   code uses five of its operations: [read] and [write] at an offset or at the
   current position (offset -1), [seek(0, SEEK_END)], [tell] and [flush].
   [FileOps] is their signature, [FileLaws] the documented behaviour of a file
   on a healthy device, stated over a ghost view (contents and position).
   [MemFile] is a concrete file that satisfies the laws. *)

From S2P Require Import Prelude.

Class FileOps (F : Type) : Type := {
  f_read : Z -> Z -> F -> bytes * F;      (* length, offset *)
  f_write : bytes -> Z -> F -> Z * F;     (* data, offset; bytes written *)
  f_seek_end : F -> Z * F;
  f_tell : F -> Z;
  f_flush : F -> F
}.

Class FileLaws (F : Type) {ops : FileOps F} : Type := {
  f_content : F -> bytes;
  f_pos : F -> Z;
  f_at (o : Z) (f : F) : Z := if o =? -1 then f_pos f else o;
  f_read_law : forall n o f bs f',
    0 <= n -> 0 <= f_at o f ->
    f_read n o f = (bs, f') ->
    bs = sub (f_content f) (f_at o f) n /\
    f_content f' = f_content f /\ f_pos f' = f_at o f + zlen bs;
  f_write_law : forall bs o f n f',
    0 <= f_at o f <= zlen (f_content f) ->
    f_write bs o f = (n, f') ->
    n = zlen bs /\
    f_content f' = splice (f_content f) (f_at o f) bs /\ f_pos f' = f_at o f + zlen bs;
  f_seek_law : forall f r f',
    f_seek_end f = (r, f') ->
    r = zlen (f_content f) /\ f_content f' = f_content f /\ f_pos f' = zlen (f_content f);
  f_tell_law : forall f, f_tell f = f_pos f;
  f_flush_law : forall f, f_content (f_flush f) = f_content f
}.

(** ** An in-memory file *)

Module MemFile.
Record t := mk { data : bytes; pos : Z }.

Definition at_ (o : Z) (f : t) : Z := if o =? -1 then pos f else o.

Definition read (n o : Z) (f : t) : bytes * t :=
  let bs := sub (data f) (at_ o f) n in
  (bs, mk (data f) (at_ o f + zlen bs)).

Definition write (bs : bytes) (o : Z) (f : t) : Z * t :=
  (zlen bs, mk (splice (data f) (at_ o f) bs) (at_ o f + zlen bs)).

Definition seek_end (f : t) : Z * t := (zlen (data f), mk (data f) (zlen (data f))).

#[global] Instance ops : FileOps t := {
  f_read := read;
  f_write := write;
  f_seek_end := seek_end;
  f_tell := pos;
  f_flush := fun f => f
}.

#[global] Instance laws : FileLaws t.
Proof.
  refine {| f_content := data; f_pos := pos |}.
  all: unfold f_read, f_write, f_seek_end, f_tell, f_flush, ops, read, write, seek_end, at_;
    intros; simplify_eq/=; auto.
Defined.

Definition empty : t := mk [] 0.
End MemFile.
