(* ===== verification/HdbCommon.v ===== *)
(** * On-disk structures of the hierarchical database

   Models src/src/repositories/hdb/OW_HDBCommon.hpp ([HDBHeaderBlock],
   [HDBBlock]) as the code stores them: the structs are written to the file as
   raw memory, so their encoding is the memory layout of the little-endian
   32-bit-aligned ABI ([sizeof(HDBBlock)] = 44 with three bytes of padding
   after [isFree], [sizeof(HDBHeaderBlock)] = 32), and the checksum of
   [calcCheckSum] (OW_HDB.cpp) runs over that memory. *)

From S2P Require Import Prelude.

(** ** Data *)

Definition HDBSIGLEN : Z := 16.
Definition HDBVERSION : Z := 4000003.
Definition MinHDBVERSION : Z := 4000001.

(** "OWHIERARCHICADB" and its terminating NUL. *)
Definition OW_HDBSIGNATURE : bytes :=
  [79; 87; 72; 73; 69; 82; 65; 82; 67; 72; 73; 67; 65; 68; 66; 0].

Record HDBHeaderBlock := mkHdr {
  signature : bytes;
  hversion : Z;
  firstRoot : Z;
  lastRoot : Z;
  firstFree : Z
}.

Record HDBBlock := mkBlk {
  chkSum : Z;
  isFree : Z;
  pad : Z;          (* the three padding bytes the compiler inserts *)
  bsize : Z;        (* "size" *)
  flags : Z;
  nextSib : Z;
  prevSib : Z;
  parent : Z;
  firstChild : Z;
  lastChild : Z;
  keyLength : Z;
  dataLength : Z
}.

Definition zeroBlock : HDBBlock := mkBlk 0 0 0 0 0 0 0 0 0 0 0 0.

Definition set_chkSum x b := mkBlk x (isFree b) (pad b) (bsize b) (flags b) (nextSib b)
  (prevSib b) (parent b) (firstChild b) (lastChild b) (keyLength b) (dataLength b).
Definition set_isFree x b := mkBlk (chkSum b) x (pad b) (bsize b) (flags b) (nextSib b)
  (prevSib b) (parent b) (firstChild b) (lastChild b) (keyLength b) (dataLength b).
Definition set_size x b := mkBlk (chkSum b) (isFree b) (pad b) x (flags b) (nextSib b)
  (prevSib b) (parent b) (firstChild b) (lastChild b) (keyLength b) (dataLength b).
Definition set_flags x b := mkBlk (chkSum b) (isFree b) (pad b) (bsize b) x (nextSib b)
  (prevSib b) (parent b) (firstChild b) (lastChild b) (keyLength b) (dataLength b).
Definition set_nextSib x b := mkBlk (chkSum b) (isFree b) (pad b) (bsize b) (flags b) x
  (prevSib b) (parent b) (firstChild b) (lastChild b) (keyLength b) (dataLength b).
Definition set_prevSib x b := mkBlk (chkSum b) (isFree b) (pad b) (bsize b) (flags b) (nextSib b)
  x (parent b) (firstChild b) (lastChild b) (keyLength b) (dataLength b).
Definition set_parent x b := mkBlk (chkSum b) (isFree b) (pad b) (bsize b) (flags b) (nextSib b)
  (prevSib b) x (firstChild b) (lastChild b) (keyLength b) (dataLength b).
Definition set_firstChild x b := mkBlk (chkSum b) (isFree b) (pad b) (bsize b) (flags b) (nextSib b)
  (prevSib b) (parent b) x (lastChild b) (keyLength b) (dataLength b).
Definition set_lastChild x b := mkBlk (chkSum b) (isFree b) (pad b) (bsize b) (flags b) (nextSib b)
  (prevSib b) (parent b) (firstChild b) x (keyLength b) (dataLength b).
Definition set_keyLength x b := mkBlk (chkSum b) (isFree b) (pad b) (bsize b) (flags b) (nextSib b)
  (prevSib b) (parent b) (firstChild b) (lastChild b) x (dataLength b).
Definition set_dataLength x b := mkBlk (chkSum b) (isFree b) (pad b) (bsize b) (flags b) (nextSib b)
  (prevSib b) (parent b) (firstChild b) (lastChild b) (keyLength b) x.

(** ** Memory layout *)

Definition sizeof_HDBBlock : Z := 44.
Definition sizeof_HDBHeaderBlock : Z := 32.

Definition enc_block (b : HDBBlock) : bytes :=
  le_enc 4 (chkSum b) ++ le_enc 1 (isFree b) ++ le_enc 3 (pad b) ++ le_enc 4 (bsize b) ++
  le_enc 4 (flags b) ++ le_enc 4 (nextSib b) ++ le_enc 4 (prevSib b) ++ le_enc 4 (parent b) ++
  le_enc 4 (firstChild b) ++ le_enc 4 (lastChild b) ++ le_enc 4 (keyLength b) ++
  le_enc 4 (dataLength b).

(** A [UInt32] and an [Int32] member at byte offset [o]. *)
Definition get_u32 (l : bytes) (o : Z) : Z := le_dec (sub l o 4).
Definition get_s32 (l : bytes) (o : Z) : Z := s32 (le_dec (sub l o 4)).

Definition dec_block (l : bytes) : HDBBlock :=
  mkBlk (get_u32 l 0) (le_dec (sub l 4 1)) (le_dec (sub l 5 3)) (get_u32 l 8) (get_u32 l 12)
    (get_s32 l 16) (get_s32 l 20) (get_s32 l 24) (get_s32 l 28) (get_s32 l 32)
    (get_u32 l 36) (get_u32 l 40).

Definition enc_header (h : HDBHeaderBlock) : bytes :=
  signature h ++ le_enc 4 (hversion h) ++ le_enc 4 (firstRoot h) ++ le_enc 4 (lastRoot h) ++
  le_enc 4 (firstFree h).

Definition dec_header (l : bytes) : HDBHeaderBlock :=
  mkHdr (sub l 0 16) (get_u32 l 16) (get_s32 l 20) (get_s32 l 24) (get_s32 l 28).

(** [calcCheckSum]: the byte sum in a [UInt32] accumulator. *)
Definition calcCheckSum (src : bytes) : Z :=
  fold_left (fun cksum x => u32 (cksum + x)) src 0.

(** The block as [writeBlock] stores it: its checksum is taken with the
   checksum member zeroed. *)
Definition seal (b : HDBBlock) : HDBBlock :=
  set_chkSum (calcCheckSum (enc_block (set_chkSum 0 b))) b.

(** ** Well-formed values *)

Definition is_u32 (z : Z) : Prop := 0 <= z < 4294967296.
Definition is_s32 (z : Z) : Prop := -2147483648 <= z < 2147483648.

Record block_ok (b : HDBBlock) : Prop := {
  ok_chkSum : is_u32 (chkSum b);
  ok_isFree : 0 <= isFree b < 256;
  ok_pad : 0 <= pad b < 16777216;
  ok_size : is_u32 (bsize b);
  ok_flags : is_u32 (flags b);
  ok_nextSib : is_s32 (nextSib b);
  ok_prevSib : is_s32 (prevSib b);
  ok_parent : is_s32 (parent b);
  ok_firstChild : is_s32 (firstChild b);
  ok_lastChild : is_s32 (lastChild b);
  ok_keyLength : is_u32 (keyLength b);
  ok_dataLength : is_u32 (dataLength b)
}.

Record header_ok (h : HDBHeaderBlock) : Prop := {
  ok_signature : zlen (signature h) = 16;
  ok_version : is_u32 (hversion h);
  ok_firstRoot : is_s32 (firstRoot h);
  ok_lastRoot : is_s32 (lastRoot h);
  ok_firstFree : is_s32 (firstFree h)
}.

(** * Layout and checksum lemmas for the on-disk structures *)

(** Reduce record projections and updates only. *)
Ltac blk_cbn :=
  cbn [chkSum isFree pad bsize flags nextSib prevSib parent firstChild lastChild
       keyLength dataLength signature hversion firstRoot lastRoot firstFree
       set_chkSum set_isFree set_size set_flags set_nextSib set_prevSib set_parent
       set_firstChild set_lastChild set_keyLength set_dataLength seal] in *.

(** ** Lengths *)

Lemma zlen_enc_block b : zlen (enc_block b) = 44.
Proof. unfold enc_block, zlen. by rewrite !length_app, !length_le_enc. Qed.

Lemma zlen_enc_header h : zlen (signature h) = 16 -> zlen (enc_header h) = 32.
Proof. unfold enc_header, zlen. intros H. rewrite !length_app, !length_le_enc. lia. Qed.
#[export] Hint Rewrite zlen_enc_block : owlen.

Lemma enc_block_bytes b : Forall is_byte (enc_block b).
Proof. unfold enc_block. rewrite !Forall_app. repeat split; apply le_enc_bytes. Qed.

(** ** Round trips *)

(** Locate a field inside a right-nested concatenation of encodings. *)
Ltac field_at :=
  repeat (rewrite sub_app_r by (unfold zlen; rewrite length_le_enc; lia);
          match goal with |- context [?o - zlen (le_enc ?n ?z)] =>
            replace (o - zlen (le_enc n z)) with (o - Z.of_nat n)
              by (unfold zlen; by rewrite length_le_enc); let r := eval compute in (o - Z.of_nat n) in change (o - Z.of_nat n) with r end);
  try (rewrite sub_app_l by (unfold zlen; rewrite ?length_le_enc; simpl; lia));
  rewrite sub_le_enc by done; rewrite le_dec_enc;
  match goal with |- context [8 * Z.of_nat ?n] =>
    let w := eval compute in (8 * Z.of_nat n) in change (8 * Z.of_nat n) with w end.

Theorem dec_enc_block b : block_ok b -> dec_block (enc_block b) = b.
Proof.
  intros [H1 H2 H3 H4 H5 H6 H7 H8 H9 H10 H11 H12].
  unfold is_u32, is_s32 in *.
  destruct b; unfold dec_block, enc_block, get_u32, get_s32; blk_cbn.
  f_equal; field_at; rewrite ?swrap_uwrap by done;
    first [apply uwrap_id; simpl; lia | apply s32_id; lia].
Qed.

Lemma sub_join (l : bytes) o n o' m :
  o' = o + n -> 0 <= o -> 0 <= n -> 0 <= m -> sub l o n ++ sub l o' m = sub l o (n + m).
Proof. intros ->. intros. by rewrite sub_app_split. Qed.

Lemma le_enc_get l o n k : k = Z.of_nat n -> Forall is_byte l -> 0 <= o -> o + k <= zlen l ->
  le_enc n (le_dec (sub l o k)) = sub l o k.
Proof.
  intros -> Hb Ho Hl. pose proof (le_enc_dec (sub l o (Z.of_nat n)) (sub_bytes l o _ Hb)) as H.
  assert (length (sub l o (Z.of_nat n)) = n) as E.
  { unfold sub. rewrite length_take, length_drop. unfold zlen in Hl. lia. }
  by rewrite E in H.
Qed.

(** Every 44-byte string is the memory of a block. *)
Theorem enc_dec_block l : Forall is_byte l -> zlen l = 44 -> enc_block (dec_block l) = l.
Proof.
  intros Hb Hl. unfold enc_block, dec_block, get_u32, get_s32; blk_cbn.
  rewrite !le_enc_s32.
  rewrite !le_enc_get by (auto; lia).
  rewrite !sub_join by lia.
  rewrite <- (sub_all l) at 2. by rewrite Hl.
Qed.

Theorem dec_enc_header h : header_ok h -> dec_header (enc_header h) = h.
Proof.
  intros [H1 H2 H3 H4 H5]. unfold is_u32, is_s32 in *.
  destruct h; unfold dec_header, enc_header, get_u32, get_s32; blk_cbn.
  f_equal.
  - rewrite sub_app_l by lia. rewrite <- H1. apply sub_all.
  - rewrite sub_app_r by lia. rewrite H1. simpl (16 - 16). field_at. apply uwrap_id. simpl. lia.
  - rewrite sub_app_r by lia. rewrite H1. simpl (20 - 16). field_at.
    rewrite swrap_uwrap by done. apply s32_id. lia.
  - rewrite sub_app_r by lia. rewrite H1. simpl (24 - 16). field_at.
    rewrite swrap_uwrap by done. apply s32_id. lia.
  - rewrite sub_app_r by lia. rewrite H1. simpl (28 - 16). field_at.
    rewrite swrap_uwrap by done. apply s32_id. lia.
Qed.

(** ** Checksums *)

Definition zsum (l : bytes) : Z := foldr Z.add 0 l.

Lemma zsum_app l1 l2 : zsum (l1 ++ l2) = zsum l1 + zsum l2.
Proof. unfold zsum. induction l1; simpl; lia. Qed.

Lemma calcCheckSum_acc l a :
  fold_left (fun c x => u32 (c + x)) l (u32 a) = u32 (a + zsum l).
Proof.
  revert a; induction l as [|x l IH]; intros a; simpl; [f_equal; lia|].
  replace (u32 (u32 a + x)) with (u32 (a + x)) by (unfold uwrap; by rewrite Zplus_mod_idemp_l).
  rewrite IH. f_equal. lia.
Qed.

Lemma calcCheckSum_zsum l : calcCheckSum l = u32 (zsum l).
Proof. apply (calcCheckSum_acc l 0). Qed.

Lemma calcCheckSum_range l : is_u32 (calcCheckSum l).
Proof. rewrite calcCheckSum_zsum. apply (uwrap_range 32). lia. Qed.

Lemma zsum_bound l : Forall is_byte l -> 0 <= zsum l <= 255 * zlen l.
Proof. unfold zlen. induction 1; unfold is_byte in *; simpl; lia. Qed.

Lemma seal_ok b : block_ok b -> block_ok (seal b).
Proof. intros []. constructor; simpl; auto. apply calcCheckSum_range. Qed.

Lemma seal_idem b : seal (seal b) = seal b.
Proof. done. Qed.
#[export] Hint Resolve seal_ok : owdb.

(** Checksums are never computed while a proof compares two blocks. *)
#[global] Opaque calcCheckSum enc_block.
