(* ===== verification/Index.v ===== *)
(** * The index of the hierarchical database

   Models src/src/repositories/hdb/OW_Index.hpp (the [Index] interface and
   [IndexEntry]) and OW_IndexImpl.cpp ([IndexImpl], the implementation over the
   B-tree of db/btree).  [IndexOps]/[IndexLaws] state what an index promises to
   the HDB code; [BTreeOps]/[BTreeLaws] state what [IndexImpl] uses of the
   Berkeley-style [DB] object (db/include/db.h): [seq], [put], [del] and
   re-opening.  [IndexImpl] is translated over any such B-tree, and
   [IndexImpl.laws] shows that it keeps the promise of the interface. *)

From S2P Require Import Prelude.

(** ** Entries *)

Record IndexEntry := mkEntry { ie_key : bytes; ie_offset : Z }.

Definition nullEntry : IndexEntry := mkEntry [] (-1).

(** [BLOCXX_SAFE_BOOL_IMPL]: an entry counts as true when it has a value. *)
Definition entry_valid (e : IndexEntry) : bool :=
  negb (ie_offset e =? -1) && negb (bool_decide (ie_key e = [])).

(** The characters of a C string: up to the first NUL. *)
Fixpoint cstr (l : bytes) : bytes :=
  match l with
  | [] => []
  | b :: l => if b =? 0 then [] else b :: cstr l
  end.

(** ** The interface *)

Class IndexOps (I : Type) : Type := {
  idx_find : bytes -> Prog I IndexEntry;
  idx_findFirst : option bytes -> Prog I IndexEntry;
  idx_findNext : Prog I IndexEntry;
  idx_findPrev : Prog I IndexEntry;
  idx_add : bytes -> Z -> Prog I bool;
  idx_remove : bytes -> Prog I bool;
  idx_update : bytes -> Z -> Prog I bool;
  idx_flush : Prog I ();
  idx_close : Prog I ()
}.

(** What an index without duplicates promises, over a ghost map. *)
Class IndexLaws (I : Type) {ops : IndexOps I} : Type := {
  idx_map : I -> gmap bytes Z;
  idx_find_law : forall k i,
    wp (idx_find k) (fun e i' => idx_map i' = idx_map i /\
      e = match idx_map i !! k with Some o => mkEntry k o | None => nullEntry end) i;
  idx_add_law : forall k o i,
    wp (idx_add k o) (fun r i' => r = true /\ idx_map i' = <[k := o]> (idx_map i)) i;
  idx_remove_law : forall k i,
    wp (idx_remove k) (fun r i' =>
      (forall o0, idx_map i !! k = Some o0 -> k <> [] -> o0 <> -1 ->
        r = true /\ idx_map i' = delete k (idx_map i)) /\
      (idx_map i !! k = None -> r = false /\ idx_map i' = idx_map i)) i;
  idx_update_law : forall k o i,
    wp (idx_update k o) (fun r i' =>
      (forall o0, idx_map i !! k = Some o0 -> k <> [] -> o0 <> -1 ->
        r = true /\ idx_map i' = <[k := o]> (idx_map i)) /\
      (idx_map i !! k = None -> r = false /\ idx_map i' = idx_map i)) i;
  idx_flush_law : forall i, wp idx_flush (fun _ i' => idx_map i' = idx_map i) i;
  idx_close_law : forall i, wp idx_close (fun _ i' => idx_map i' = idx_map i) i
}.

(** ** The B-tree that [IndexImpl] uses *)

Inductive SeqFlag :=
| R_CURSOR (k : bytes)   (* first record whose key is not less than [k] *)
| R_FIRST
| R_NEXT
| R_PREV.

Class BTreeOps (D : Type) : Type := {
  db_open : D -> option D;                        (* dbopen; [None]: NULL *)
  db_create : D -> option D;                      (* dbopen with O_TRUNC | O_CREAT *)
  db_close : D -> D;
  db_seq : SeqFlag -> D -> option (bytes * Z) * D;  (* [None]: not 0 *)
  db_put : bytes -> Z -> D -> bool * D;             (* flag 0; true: 0 *)
  db_put_cursor : bytes -> Z -> D -> bool * D;      (* flag R_CURSOR *)
  db_del_cursor : D -> bool * D                     (* del, flag R_CURSOR *)
}.

(** Documented behaviour of a B-tree without [R_DUP]: a map from keys to
   records and a cursor that stands on the record last returned by [seq]. *)
Class BTreeLaws (D : Type) {ops : BTreeOps D} : Type := {
  db_map : D -> gmap bytes Z;
  db_cursor : D -> option bytes;
  db_open_law : forall d, exists d', db_open d = Some d' /\ db_map d' = db_map d;
  db_create_law : forall d, exists d', db_create d = Some d' /\ db_map d' = ∅;
  db_close_law : forall d, db_map (db_close d) = db_map d;
  db_seq_cursor_hit : forall k o d, db_map d !! k = Some o ->
    exists d', db_seq (R_CURSOR k) d = (Some (k, o), d') /\
      db_map d' = db_map d /\ db_cursor d' = Some k;
  db_seq_cursor_miss : forall k d r d', db_map d !! k = None ->
    db_seq (R_CURSOR k) d = (r, d') ->
    db_map d' = db_map d /\ forall k' o, r = Some (k', o) -> k' <> k;
  db_put_law : forall k o d, exists d',
    db_put k o d = (true, d') /\ db_map d' = <[k := o]> (db_map d);
  db_put_cursor_law : forall k o d, db_cursor d = Some k -> exists d',
    db_put_cursor k o d = (true, d') /\ db_map d' = <[k := o]> (db_map d);
  db_del_cursor_law : forall k d, db_cursor d = Some k -> exists d',
    db_del_cursor d = (true, d') /\ db_map d' = delete k (db_map d)
}.

(** ** IndexImpl *)

Module IndexImpl.
Section Impl.
Context {D : Type} {bt : BTreeOps D}.

(** [m_pDB] is NULL exactly when [is_open] is false. *)
Record t := mk { is_open : bool; db : D }.

Definition run {A} (f : D -> A * D) : Prog t A := fun s =>
  let (a, d) := f (db s) in (Ok a, mk (is_open s) d).

(** [dbopen] of the index file, with the check of its result. *)
Definition dbopen : Prog t () := fun s =>
  match db_open (db s) with
  | Some d => (Ok (), mk true d)
  | None => (Throw "Failed to re-open index file: ", s)
  end.

Definition openIfClosed : Prog t () := fun s =>
  if is_open s then (Ok (), s) else dbopen s.

Definition close : Prog t () := fun s =>
  if is_open s then (Ok (), mk false (db_close (db s))) else (Ok (), s).

Definition reopen : Prog t () := close ;; dbopen.

(** The result of a [dbopen] with the check that follows it. *)
Definition opened (r : D -> option D) (msg : string) : Prog t () := fun s =>
  match r (db s) with
  | Some d => (Ok (), mk true d)
  | None => (Throw msg, s)
  end.

(** [canRW]: the index file can be read and written; else it is created. *)
Definition open (canRW : bool) : Prog t () :=
  close ;;
  if canRW then opened db_open "Failed to open index file: "
  else opened db_create "Failed to create index file: ".

Definition flush : Prog t () := fun s => if is_open s then reopen s else (Ok (), s).

(** [OpenCloser]: open on construction, close when the scope ends, also when
   it ends by an exception. *)
Definition withOpenCloser {A} (m : Prog t A) : Prog t A := fun s =>
  match openIfClosed s with
  | (Ok _, s1) => let (r, s2) := m s1 in (r, snd (close s2))
  | (Throw e, s1) => (Throw e, s1)
  | (Crash, s1) => (Crash, s1)
  | (Diverge, s1) => (Diverge, s1)
  end.

(** The record found by [seq], as an entry. *)
Definition entry_of (r : option (bytes * Z)) : IndexEntry :=
  match r with Some (k, o) => mkEntry k o | None => nullEntry end.

Definition find (key : bytes) : Prog t IndexEntry :=
  openIfClosed ;;
  r ← run (db_seq (R_CURSOR key));
  match r with
  | Some (k, o) => if bool_decide (k = key) then mret (mkEntry k o) else mret nullEntry
  | None => mret nullEntry
  end.

Definition add (key : bytes) (offset : Z) : Prog t bool :=
  withOpenCloser (run (db_put key offset)).

Definition findFirst (key : option bytes) : Prog t IndexEntry :=
  openIfClosed ;;
  r ← run (db_seq (match key with Some k => R_CURSOR k | None => R_FIRST end));
  mret (entry_of r).

Definition findNext : Prog t IndexEntry :=
  openIfClosed ;; r ← run (db_seq R_NEXT); mret (entry_of r).

Definition findPrev : Prog t IndexEntry :=
  openIfClosed ;; r ← run (db_seq R_PREV); mret (entry_of r).

(** The loop of [remove] over the entries with the key. *)
Fixpoint remove_loop (fuel : nat) (key : bytes) (offset : Z) (ientry : IndexEntry) : Prog t bool :=
  match fuel with
  | O => diverge
  | S fuel =>
      if entry_valid ientry then
        if negb (bool_decide (ie_key ientry = key)) then mret false
        else if (offset =? -1) || (ie_offset ientry =? offset) then run db_del_cursor
        else ientry' ← findNext; remove_loop fuel key offset ientry'
      else mret false
  end.

Definition remove (fuel : nat) (key : bytes) (offset : Z) : Prog t bool :=
  withOpenCloser (ientry ← findFirst (Some key); remove_loop fuel key offset ientry).

Definition update (key : bytes) (newOffset : Z) : Prog t bool :=
  withOpenCloser (
    e ← find key;
    if entry_valid e then run (db_put_cursor key newOffset) else mret false).

#[global] Instance ops : IndexOps t := {
  idx_find := find;
  idx_findFirst := findFirst;
  idx_findNext := findNext;
  idx_findPrev := findPrev;
  idx_add := add;
  idx_remove := fun k => remove 1 k (-1);   (* offset -1: the loop body runs once *)
  idx_update := update;
  idx_flush := flush;
  idx_close := close
}.
End Impl.
Arguments t : clear implicits.

(** *** IndexImpl keeps the promise of the interface *)

Section Laws.
Context {D : Type} {bt : BTreeOps D} {bl : BTreeLaws D}.

Definition map_of (s : t D) : gmap bytes Z := db_map (db s).

Lemma wp_openIfClosed (s : t D) :
  wp openIfClosed (fun _ s' => is_open s' = true /\ map_of s' = map_of s) s.
Proof.
  unfold wp, openIfClosed, dbopen. destruct (is_open s) eqn:E; [done|].
  destruct (db_open_law (db s)) as (d' & -> & H). done.
Qed.

Lemma map_of_close (s : t D) : map_of (snd (close s)) = map_of s.
Proof. unfold close. destruct (is_open s); simpl; [apply db_close_law|done]. Qed.

Lemma wp_OpenCloser {A} (m : Prog (t D) A) (Q : A -> gmap bytes Z -> Prop) s :
  (forall s1, is_open s1 = true -> map_of s1 = map_of s ->
     wp m (fun a s2 => Q a (map_of s2)) s1) ->
  wp (withOpenCloser m) (fun a s' => Q a (map_of s')) s.
Proof.
  intros H. pose proof (wp_openIfClosed s) as Ho. unfold wp, withOpenCloser in *.
  destruct (openIfClosed s) as [[[]| | |] s1]; try done. destruct Ho as [Ho1 Ho2].
  specialize (H s1 Ho1 Ho2). destruct (m s1) as [r s2]. destruct r; try done.
  rewrite map_of_close. done.
Qed.

Lemma wp_find k (s : t D) :
  wp (find k) (fun e s' => map_of s' = map_of s /\
    e = match map_of s !! k with Some o => mkEntry k o | None => nullEntry end /\
    (is_Some (map_of s !! k) -> db_cursor (db s') = Some k)) s.
Proof.
  unfold find. wstep. eapply wp_mono; [apply wp_openIfClosed|]. intros [] s1 [_ E1].
  wstep. unfold wp at 1, run.
  destruct (map_of s !! k) as [o|] eqn:E.
  - rewrite <- E1 in E. destruct (db_seq_cursor_hit k o (db s1) E) as (d' & -> & Hm & Hc).
    rewrite bool_decide_true by done. wstep. simpl. unfold map_of in *. simpl.
    split; [congruence|]. eauto.
  - rewrite <- E1 in E. destruct (db_seq (R_CURSOR k) (db s1)) as [r d'] eqn:Hs.
    destruct (db_seq_cursor_miss k (db s1) r d' E Hs) as [Hm Hk].
    assert (forall e, e = nullEntry -> wp (mret e) (fun e s' => map_of s' = map_of s /\
      e = nullEntry /\ (is_Some (@None Z) -> db_cursor (db s') = Some k)) (mk (is_open s1) d')) as HN.
    { intros e ->. wstep. unfold map_of in *; simpl. split; [congruence|].
      split; [done|]. by intros []. }
    destruct r as [[k' o']|]; [|by apply HN].
    specialize (Hk k' o' eq_refl). rewrite bool_decide_false by done. by apply HN.
Qed.

(** [findFirst(key)] stands on the entry with that key when there is one. *)
Lemma wp_findFirst k (s : t D) :
  wp (findFirst (Some k)) (fun e s' => map_of s' = map_of s /\
    match map_of s !! k with
    | Some o => e = mkEntry k o /\ db_cursor (db s') = Some k
    | None => ie_key e <> k \/ e = nullEntry
    end) s.
Proof.
  unfold findFirst. wstep. eapply wp_mono; [apply wp_openIfClosed|]. intros [] s1 [_ E1].
  wstep. unfold wp at 1, run.
  destruct (map_of s !! k) as [o|] eqn:E; rewrite <- E1 in E.
  - destruct (db_seq_cursor_hit k o (db s1) E) as (d' & -> & Hm & Hc). wstep.
    unfold map_of in *; simpl. split; [congruence|done].
  - destruct (db_seq (R_CURSOR k) (db s1)) as [r d'] eqn:Hs.
    destruct (db_seq_cursor_miss k (db s1) r d' E Hs) as [Hm Hk]. wstep.
    unfold map_of in *; simpl. split; [congruence|].
    destruct r as [[k' o']|]; simpl; [left; by eapply Hk|by right].
Qed.

Lemma entry_valid_true k o : k <> [] -> o <> -1 -> entry_valid (mkEntry k o) = true.
Proof.
  intros Hk Ho. unfold entry_valid. simpl. rewrite bool_decide_false by done.
  apply Z.eqb_neq in Ho. by rewrite Ho.
Qed.

#[global] Instance laws : IndexLaws (t D).
Proof.
  refine {| idx_map := map_of |}; simpl.
  - intros k i. eapply wp_mono; [apply wp_find|]. naive_solver.
  - intros k o i. unfold add.
    apply (wp_OpenCloser (run (db_put k o)) (fun r m => r = true /\ m = <[k := o]> (map_of i))).
    intros s1 _ E1. destruct (db_put_law k o (db s1)) as (d' & E & Hm).
    unfold wp, run. rewrite E. unfold map_of in *. simpl. by rewrite Hm, E1.
  - intros k i. unfold remove.
    apply (wp_OpenCloser _ (fun r m =>
      (forall o0, map_of i !! k = Some o0 -> k <> [] -> o0 <> -1 -> r = true /\ m = delete k (map_of i)) /\
      (map_of i !! k = None -> r = false /\ m = map_of i))).
    intros s1 _ E1. wstep. eapply wp_mono; [apply wp_findFirst|]. intros e s2 [E2 He].
    rewrite E1 in *. cbn [remove_loop]. destruct (map_of i !! k) as [o|] eqn:E.
    + destruct He as [-> Hc]. destruct (entry_valid (mkEntry k o)) eqn:Hv.
      * cbn [ie_key]. rewrite bool_decide_true by done. change (-1 =? -1) with true. cbn [negb orb].
        destruct (db_del_cursor_law k (db s2) Hc) as (d' & Hd & Hm).
        unfold wp, run. rewrite Hd. unfold map_of in *. simpl. split; [|done].
        intros. rewrite Hm, E2. done.
      * wstep. split; [|done]. intros o0 [= <-] Hk Ho.
        by rewrite entry_valid_true in Hv.
    + assert (wp (mret false) (fun a s3 =>
        (forall o0, None = Some o0 -> k <> [] -> o0 <> -1 -> a = true /\ map_of s3 = delete k (map_of i)) /\
        (@None Z = None -> a = false /\ map_of s3 = map_of i)) s2) as HN by (wstep; naive_solver).
      destruct (entry_valid e) eqn:Hv; [|done].
      destruct He as [He| ->]; [|done]. by rewrite bool_decide_false.
  - intros k o i. unfold update.
    apply (wp_OpenCloser _ (fun r m =>
      (forall o0, map_of i !! k = Some o0 -> k <> [] -> o0 <> -1 -> r = true /\ m = <[k := o]> (map_of i)) /\
      (map_of i !! k = None -> r = false /\ m = map_of i))).
    intros s1 _ E1. wstep. eapply wp_mono; [apply wp_find|]. intros e s2 (E2 & -> & Hc).
    rewrite E1 in *. destruct (map_of i !! k) as [o0|] eqn:E.
    + destruct (entry_valid (mkEntry k o0)) eqn:Hv.
      * destruct (db_put_cursor_law k o (db s2) (Hc ltac:(eauto))) as (d' & Hd & Hm).
        unfold wp, run. rewrite Hd. unfold map_of in *. simpl. split; [|done].
        intros. rewrite Hm, E2. done.
      * wstep. split; [|done]. intros o1 [= <-] Hk Ho. by rewrite entry_valid_true in Hv.
    + change (entry_valid nullEntry) with false. cbn iota. wstep. naive_solver.
  - intros i. unfold wp, flush. destruct (is_open i) eqn:Eo; [|done].
    unfold reopen, mbind, Prog_bind, close, dbopen. rewrite Eo. simpl.
    destruct (db_open_law (db_close (db i))) as (d' & -> & Hm). unfold map_of. simpl.
    by rewrite Hm, db_close_law.
  - intros i. unfold wp, close. destruct (is_open i); [|done]. simpl. apply db_close_law.
Defined.
End Laws.
End IndexImpl.

(** ** A reference B-tree: a finite map with a cursor *)

Module MemBTree.
Record t := mk { recs : gmap bytes Z; cursor : option bytes }.

Fixpoint strcmp_lt (a b : bytes) : bool :=
  match a, b with
  | [], [] => false
  | [], _ => true
  | _, [] => false
  | x :: a, y :: b => (x <? y) || ((x =? y) && strcmp_lt a b)
  end.

(** The least key satisfying [p], and the greatest. *)
Definition pick (better : bytes -> bytes -> bool) (p : bytes -> bool) (m : gmap bytes Z)
    : option (bytes * Z) :=
  foldr (fun kv best => if p (fst kv) then
      match best with
      | Some b => if better (fst kv) (fst b) then Some kv else Some b
      | None => Some kv
      end else best) None (map_to_list m).

Definition seq (f : SeqFlag) (d : t) : option (bytes * Z) * t :=
  let hit r := match r with
               | Some (k, o) => (Some (k, o), mk (recs d) (Some k))
               | None => (None, d)
               end in
  let gt a b := strcmp_lt b a in
  match f with
  | R_CURSOR k =>
      match recs d !! k with
      | Some o => hit (Some (k, o))
      | None => hit (pick strcmp_lt (fun k' => strcmp_lt k k' && negb (bool_decide (k' = k))) (recs d))
      end
  | R_FIRST => hit (pick strcmp_lt (fun _ => true) (recs d))
  | R_NEXT => match cursor d with
              | Some k => hit (pick strcmp_lt (fun k' => strcmp_lt k k') (recs d))
              | None => hit (pick strcmp_lt (fun _ => true) (recs d))
              end
  | R_PREV => match cursor d with
              | Some k => hit (pick gt (fun k' => strcmp_lt k' k) (recs d))
              | None => hit (pick gt (fun _ => true) (recs d))
              end
  end.

#[global] Instance ops : BTreeOps t := {
  db_open := fun d => Some (mk (recs d) None);
  db_create := fun d => Some (mk ∅ None);
  db_close := fun d => mk (recs d) None;
  db_seq := seq;
  db_put := fun k o d => (true, mk (<[k := o]> (recs d)) (cursor d));
  db_put_cursor := fun k o d =>
    match cursor d with
    | Some c => (true, mk (<[c := o]> (recs d)) (cursor d))
    | None => (false, d)
    end;
  db_del_cursor := fun d =>
    match cursor d with
    | Some c => (true, mk (delete c (recs d)) (cursor d))
    | None => (false, d)
    end
}.

Lemma pick_sat better p m kv : pick better p m = Some kv -> p (fst kv) = true.
Proof.
  unfold pick. generalize (map_to_list m) as l. induction l as [|x l IH]; simpl; [done|].
  destruct (p (fst x)) eqn:Hp; [|done].
  destruct (foldr _ None l) as [b|]; [destruct (better _ _)|]; naive_solver.
Qed.

#[global] Instance laws : BTreeLaws t.
Proof.
  refine {| db_map := recs; db_cursor := cursor |}; simpl; eauto.
  - intros k o d H. unfold seq. rewrite H. eauto.
  - intros k d r d' H. unfold seq. rewrite H.
    destruct (pick _ _ _) as [[k' o']|] eqn:E; intros [= <- <-]; (split; [done|]).
    + intros ? ? [= <- <-]. apply pick_sat in E. simpl in E.
      apply andb_true_iff in E as [_ E]. apply negb_true_iff, bool_decide_eq_false in E. done.
    + naive_solver.
  - intros k o d ->. eauto.
  - intros k d ->. eauto.
Defined.

Definition empty : t := mk ∅ None.
End MemBTree.
