(* ===== verification/Hdb.v ===== *)
(** * The HDB class: blocks, header and free list

   Models src/src/repositories/hdb/OW_HDB.cpp, class [HDB]: opening and
   checking a database file, [readBlock]/[writeBlock] with the checksum, the
   offsets in the file header, and the free list (a list of deleted blocks,
   doubly linked through [nextSib]/[prevSib] and ordered by size).

   The state [St] is that of one [HDBHandle] on an open [HDB]: the fields of
   [HDB], the handle's file and its [m_writeDone] flag.  The mutexes are held
   for the whole of each operation and are not modelled.  Loops over block
   lists run on fuel equal to the length of the file in bytes: a list of
   distinct blocks of the file is never longer. *)

From S2P Require Import Prelude FileIO HdbCommon Index.

Section HDB.
Context {F : Type} {fo : FileOps F} {I : Type} {io : IndexOps I}.

(** ** State *)

Record HDB := mkHDB {
  m_hdrBlock : HDBHeaderBlock;
  m_version : Z;
  m_hdlCount : Z;
  m_opened : bool;
  m_pindex : I
}.

Record St := mkSt {
  m_pdb : HDB;
  m_file : F;
  m_writeDone : bool
}.

Definition set_hdr h (d : HDB) := mkHDB h (m_version d) (m_hdlCount d) (m_opened d) (m_pindex d).
Definition set_version v (d : HDB) := mkHDB (m_hdrBlock d) v (m_hdlCount d) (m_opened d) (m_pindex d).
Definition set_hdlCount n (d : HDB) := mkHDB (m_hdrBlock d) (m_version d) n (m_opened d) (m_pindex d).
Definition set_opened b (d : HDB) := mkHDB (m_hdrBlock d) (m_version d) (m_hdlCount d) b (m_pindex d).
Definition set_index i (d : HDB) := mkHDB (m_hdrBlock d) (m_version d) (m_hdlCount d) (m_opened d) i.
Definition set_pdb d (s : St) := mkSt d (m_file s) (m_writeDone s).
Definition set_file f (s : St) := mkSt (m_pdb s) f (m_writeDone s).
Definition set_writeDone b (s : St) := mkSt (m_pdb s) (m_file s) b.

(** The header block the HDB keeps in memory. *)
Definition hdr (s : St) : HDBHeaderBlock := m_hdrBlock (m_pdb s).

(** ** Opening a database *)

(** State during [open]: the header in memory and the ".dat" file on disk. *)
Record OpenSt := mkOpen { os_hdr : HDBHeaderBlock; os_dat : option F }.

Definition initialHeader : HDBHeaderBlock :=
  mkHdr OW_HDBSIGNATURE HDBVERSION (-1) (-1) (-1).

(** [newFile]: what FileSystem::createFile gives when no file is there. *)
Definition createFile (newFile : option F) : Prog OpenSt bool := fun s =>
  let s := mkOpen initialHeader (os_dat s) in
  match os_dat s, newFile with
  | Some _, _ => (Ok false, s)
  | None, None => (Ok false, s)
  | None, Some f =>
      let (n, f') := f_write (enc_header initialHeader) 0 f in
      let s := mkOpen initialHeader (Some f') in
      if n =? sizeof_HDBHeaderBlock then (Ok true, s)
      else (Throw "Failed to write header of HDB", s)
  end.

(** [strncmp(a, b, n) == 0] on buffers of at least [n] bytes. *)
Fixpoint strncmp_eq (n : nat) (a b : bytes) : bool :=
  match n, a, b with
  | O, _, _ => true
  | S n, x :: a, y :: b => (x =? y) && ((x =? 0) || strncmp_eq n a b)
  | _, _, _ => false
  end.

Definition checkFile : Prog OpenSt () := fun s =>
  match os_dat s with
  | None => (Throw "Failed to open file: ", s)
  | Some f =>
      let (bs, f') := f_read sizeof_HDBHeaderBlock 0 f in
      if negb (zlen bs =? sizeof_HDBHeaderBlock) then
        (Throw "Failed to read HDB header from file: ", mkOpen (os_hdr s) (Some f'))
      else
        let h := dec_header bs in
        let s := mkOpen h (Some f') in
        if negb (strncmp_eq (Z.to_nat HDBSIGLEN) (signature h) OW_HDBSIGNATURE) then
          (Throw "Invalid Format for HDB file: ", s)
        else if (hversion h <? MinHDBVERSION) || (HDBVERSION <? hversion h) then
          (Throw "Invalid version", s)
        else (Ok (), s)
  end.

(** [HDB::open]: nothing on an open HDB; else the lock file, then create and
   check.  [lockFile] and [locked] tell whether the lock file could be opened
   and locked. *)
Definition open (isOpen lockFile locked : bool) (newFile : option F) : Prog OpenSt () :=
  if isOpen then mret ()
  else if negb lockFile then throw "Unable to open or create lock: "
  else if negb locked then throw "Unable to lock HDB, verify it's not in use: "
  else createFile newFile ;; checkFile.

(** The HDB and first handle state after a successful [open] and [getHandle]:
   [m_hdlCount] and [m_version] start at 0, [getHandle] counts the handle. *)
Definition opened (s : OpenSt) (f : F) (ix : I) : St :=
  mkSt (mkHDB (os_hdr s) 0 1 true ix) f false.

(** ** Primitive operations on the handle's file *)

Definition file_read (n o : Z) : Prog St bytes := fun s =>
  let (bs, f) := f_read n o (m_file s) in (Ok bs, set_file f s).

Definition file_write (bs : bytes) (o : Z) : Prog St Z := fun s =>
  let (n, f) := f_write bs o (m_file s) in (Ok n, set_file f s).

Definition file_seek_end : Prog St Z := fun s =>
  let (r, f) := f_seek_end (m_file s) in (Ok r, set_file f s).

Definition file_tell : Prog St Z := fun s => (Ok (f_tell (m_file s)), s).

(** Loop bound: the length of the file. *)
Definition file_fuel (s : St) : nat := Z.to_nat (fst (f_seek_end (m_file s))).

(** ** Handle count and version *)

Definition incVersion : Prog St Z := fun s =>
  let v := s32 (m_version (m_pdb s) + 1) in
  (Ok v, set_pdb (set_version v (m_pdb s)) s).

(** [fileOk]: the ".dat" file could be opened; else the handle is null. *)
Definition getHandle (fileOk : bool) : Prog St bool := fun s =>
  if negb (m_opened (m_pdb s)) then (Throw "Can't get handle from closed HDB", s)
  else if negb fileOk then (Ok false, s)
  else (Ok true, set_pdb (set_hdlCount (m_hdlCount (m_pdb s) + 1) (m_pdb s)) s).

Definition decHandleCount : Prog St () := fun s =>
  (Ok (), set_pdb (set_hdlCount (m_hdlCount (m_pdb s) - 1) (m_pdb s)) s).

Definition registerWrite : Prog St Z := fun s =>
  incVersion (set_writeDone true s).

(** ** Header offsets *)

Definition setOffsets (firstRootOffset lastRootOffset firstFreeOffset : Z) : Prog St () :=
  s ← get;
  let h := mkHdr (signature (hdr s)) (hversion (hdr s))
             firstRootOffset lastRootOffset firstFreeOffset in
  put (set_pdb (set_hdr h (m_pdb s)) s) ;;
  n ← file_write (enc_header h) 0;
  if n =? sizeof_HDBHeaderBlock then mret () else throw "Failed to update offset on HDB".

Definition setFirstRootOffSet (offset : Z) : Prog St () :=
  s ← get; setOffsets offset (lastRoot (hdr s)) (firstFree (hdr s)).

Definition setLastRootOffset (offset : Z) : Prog St () :=
  s ← get; setOffsets (firstRoot (hdr s)) offset (firstFree (hdr s)).

Definition setFirstFreeOffSet (offset : Z) : Prog St () :=
  s ← get; setOffsets (firstRoot (hdr s)) (lastRoot (hdr s)) offset.

(** ** Blocks *)

(** Returns the block as left in memory, with its checksum filled in. *)
Definition writeBlock (fblk : HDBBlock) (offset : Z) : Prog St HDBBlock :=
  let fblk := seal fblk in
  cc ← file_write (enc_block fblk) offset;
  if cc =? sizeof_HDBBlock then mret fblk else throw "Failed to write block".

Definition readBlock (offset : Z) : Prog St HDBBlock :=
  bs ← file_read sizeof_HDBBlock offset;
  if negb (zlen bs =? sizeof_HDBBlock) then throw "Failed to read block"
  else
    let fblk := dec_block bs in
    if chkSum fblk =? chkSum (seal fblk) then mret (seal fblk)
    else throw "CORRUPT DATA? Invalid check sum in node".

(** ** The free list *)

Fixpoint checkFreeList_loop (fuel : nat) (coffset : Z) : Prog St bool :=
  if coffset =? -1 then mret true
  else match fuel with
  | O => diverge
  | S fuel =>
      fblk ← readBlock coffset;
      if nextSib fblk =? coffset then mret false
      else checkFreeList_loop fuel (nextSib fblk)
  end.

Definition checkFreeList : Prog St bool :=
  s ← get; checkFreeList_loop (file_fuel s) (firstFree (hdr s)).

(** The search of [findBlock]: first block of the list that is large enough. *)
Fixpoint findBlock_loop (fuel : nat) (coffset sz : Z) : Prog St (option (Z * HDBBlock)) :=
  match fuel with
  | O => diverge
  | S fuel =>
      fblk ← readBlock coffset;
      if u32 sz <=? bsize fblk then mret (Some (coffset, fblk))
      else if nextSib fblk =? -1 then mret None
      else findBlock_loop fuel (nextSib fblk) sz
  end.

Definition removeBlockFromFreeList (fblk : HDBBlock) : Prog St () :=
  when (negb (nextSib fblk =? -1)) (
    cblk ← readBlock (nextSib fblk);
    _ ← writeBlock (set_prevSib (prevSib fblk) cblk) (nextSib fblk);
    mret ()) ;;
  if negb (prevSib fblk =? -1) then
    cblk ← readBlock (prevSib fblk);
    _ ← writeBlock (set_nextSib (nextSib fblk) cblk) (prevSib fblk);
    mret ()
  else
    s ← get;
    when (negb (firstFree (hdr s) =? -1)) (setFirstFreeOffSet (nextSib fblk)).

Definition findBlock (sz : Z) : Prog St Z :=
  s ← get;
  found ← (if negb (firstFree (hdr s) =? -1)
           then findBlock_loop (file_fuel s) (firstFree (hdr s)) sz
           else mret None);
  match found with
  | Some (offset, fblk) =>
      removeBlockFromFreeList fblk ;;
      mret offset
  | None =>
      r ← file_seek_end;
      if r =? -1 then throw "Failed to seek to end of file"
      else
        offset ← file_tell;
        if offset =? -1 then throw "Failed to get offset in file" else mret offset
  end.

(** The search of [addBlockToFreeList] for the insertion point; returns
   [coffset], [loffset] and the last block read. *)
Fixpoint insertPoint_loop (fuel : nat) (sz coffset loffset : Z) (cblk : HDBBlock)
    : Prog St (Z * Z * HDBBlock) :=
  if coffset =? -1 then mret (coffset, loffset, cblk)
  else match fuel with
  | O => diverge
  | S fuel =>
      cblk ← readBlock coffset;
      if sz <=? bsize cblk then mret (coffset, coffset, cblk)
      else insertPoint_loop fuel sz (nextSib cblk) coffset cblk
  end.

Definition addBlockToFreeList (parmblk : HDBBlock) (offset : Z) : Prog St () :=
  let fblk := set_isFree 1 parmblk in
  s ← get;
  if firstFree (hdr s) =? -1 then
    _ ← writeBlock (set_prevSib (-1) (set_nextSib (-1) fblk)) offset;
    setFirstFreeOffSet offset
  else
    '(coffset, loffset, cblk) ←
       insertPoint_loop (file_fuel s) (bsize fblk) (firstFree (hdr s)) 0 (set_size 0 zeroBlock);
    if coffset =? -1 then
      _ ← writeBlock (set_nextSib offset cblk) loffset;
      _ ← writeBlock (set_nextSib (-1) (set_prevSib loffset fblk)) offset;
      mret ()
    else
      (if prevSib cblk =? -1 then setFirstFreeOffSet offset
       else
         tblk ← readBlock (prevSib cblk);
         _ ← writeBlock (set_nextSib offset tblk) (prevSib cblk);
         mret ()) ;;
      _ ← writeBlock (set_prevSib (prevSib cblk) (set_nextSib coffset fblk)) offset;
      _ ← writeBlock (set_prevSib offset cblk) coffset;
      mret ().

(** ** Root nodes *)

(** Returns the block as left in memory. *)
Definition addRootNode (fblk : HDBBlock) (offset : Z) : Prog St HDBBlock :=
  let fblk := set_nextSib (-1) (set_parent (-1) fblk) in
  s ← get;
  if firstRoot (hdr s) =? -1 then
    setOffsets offset offset (firstFree (hdr s)) ;;
    writeBlock (set_prevSib (-1) fblk) offset
  else
    let fblk := set_prevSib (lastRoot (hdr s)) fblk in
    cblk ← readBlock (lastRoot (hdr s));
    _ ← writeBlock (set_nextSib offset cblk) (lastRoot (hdr s));
    setLastRootOffset offset ;;
    writeBlock fblk offset.

(** ** The index, guarded by [m_opened] *)

Definition with_index {A} (m : Prog I A) : Prog St A := fun s =>
  if m_opened (m_pdb s) then
    let (r, ix) := m (m_pindex (m_pdb s)) in (r, set_pdb (set_index ix (m_pdb s)) s)
  else (Throw "HDB is not opened", s).

Definition findIndexEntry (key : bytes) : Prog St IndexEntry := with_index (idx_find key).
Definition findFirstIndexEntry (key : option bytes) : Prog St IndexEntry :=
  with_index (idx_findFirst key).
Definition findNextIndexEntry : Prog St IndexEntry := with_index idx_findNext.
Definition findPrevIndexEntry : Prog St IndexEntry := with_index idx_findPrev.
Definition addIndexEntry (key : bytes) (offset : Z) : Prog St bool :=
  with_index (idx_add key offset).
Definition removeIndexEntry (key : bytes) : Prog St bool := with_index (idx_remove key).
Definition updateIndexEntry (key : bytes) (newOffset : Z) : Prog St bool :=
  with_index (idx_update key newOffset).

Definition flushIndex : Prog St () := fun s =>
  if m_opened (m_pdb s) then with_index idx_flush s else (Ok (), s).

(** [HDBHandle::flush] *)
Definition flush : Prog St () :=
  s ← get;
  when (m_writeDone s) (
    flushIndex ;;
    s ← get;
    put (set_writeDone false (set_file (f_flush (m_file s)) s))).

(** [HDB::close] closes the index (the lock file is not part of the state). *)
Definition close : Prog St () :=
  s ← get;
  when (m_opened (m_pdb s)) (
    with_index idx_close ;;
    s ← get;
    put (set_pdb (set_opened false (m_pdb s)) s)).
End HDB.

Arguments HDB : clear implicits.
Arguments St : clear implicits.
Arguments OpenSt : clear implicits.
