(* ===== verification/HdbHeap.v ===== *)
(** * The block heap of a database file

   The contents of a database file seen as a header and a finite map from
   offsets to cells (a sealed block header and the bytes behind it), pairwise
   disjoint; specifications of the primitive operations of [Hdb] over that
   view.  The file and the index are used through their laws only. *)

From S2P Require Import Prelude FileIO HdbCommon Index Hdb.

(** ** Cells and heaps *)

Record Cell := mkCell { c_blk : HDBBlock; c_pay : bytes }.

(** First offset behind the cell at [o]. *)
Definition c_end (o : Z) (c : Cell) : Z := o + 44 + zlen (c_pay c).

Record heap (cont : bytes) (h : HDBHeaderBlock) (M : gmap Z Cell) : Prop := {
  heap_hdr : sub cont 0 32 = enc_header h;
  heap_hdr_ok : header_ok h;
  heap_len : 32 <= zlen cont < 2147483648;
  heap_lo : forall o c, M !! o = Some c -> 32 <= o;
  heap_hi : forall o c, M !! o = Some c -> c_end o c <= zlen cont;
  heap_blk : forall o c, M !! o = Some c -> sub cont o 44 = enc_block (c_blk c);
  heap_pay : forall o c, M !! o = Some c -> sub cont (o + 44) (zlen (c_pay c)) = c_pay c;
  heap_ok : forall o c, M !! o = Some c -> block_ok (c_blk c);
  heap_seal : forall o c, M !! o = Some c -> seal (c_blk c) = c_blk c;
  heap_disj : forall o1 c1 o2 c2, M !! o1 = Some c1 -> M !! o2 = Some c2 -> o1 <> o2 ->
    c_end o1 c1 <= o2 \/ c_end o2 c2 <= o1
}.

(** ** Views: what the proofs see of a state *)

Record View := mkView {
  v_hdr : HDBHeaderBlock;
  v_heap : gmap Z Cell;
  v_idx : gmap bytes Z;
  v_eof : Z;
  v_version : Z
}.

Definition vput (o : Z) (c : Cell) (v : View) : View :=
  mkView (v_hdr v) (<[o := c]> (v_heap v)) (v_idx v) (v_eof v) (v_version v).
Definition vhdr (h : HDBHeaderBlock) (v : View) : View :=
  mkView h (v_heap v) (v_idx v) (v_eof v) (v_version v).
Definition vidx (ix : gmap bytes Z) (v : View) : View :=
  mkView (v_hdr v) (v_heap v) ix (v_eof v) (v_version v).
Definition veof (n : Z) (v : View) : View :=
  mkView (v_hdr v) (v_heap v) (v_idx v) n (v_version v).
Definition vversion (n : Z) (v : View) : View :=
  mkView (v_hdr v) (v_heap v) (v_idx v) (v_eof v) n.

(** The block of a cell replaced. *)
Definition with_blk (b : HDBBlock) (c : Cell) : Cell := mkCell b (c_pay c).

Lemma cell_ge0 cont h M o c : heap cont h M -> M !! o = Some c -> 0 <= o /\ o + 44 <= zlen cont.
Proof.
  intros H Hc. pose proof (heap_lo _ _ _ H o c Hc). pose proof (heap_hi _ _ _ H o c Hc).
  unfold c_end in *. pose proof (zlen_nonneg (c_pay c)). lia.
Qed.

(** Overwriting one block header keeps the heap. *)
Lemma heap_write_block cont h M o c b :
  heap cont h M -> M !! o = Some c -> block_ok b ->
  heap (splice cont o (enc_block (seal b))) h (<[o := with_blk (seal b) c]> M).
Proof.
  intros H Hc Hb. destruct (cell_ge0 _ _ _ _ _ H Hc) as [Ho0 Ho1].
  pose proof (heap_lo _ _ _ H o c Hc) as Hlo. pose proof (heap_hi _ _ _ H o c Hc) as Hhi.
  assert (zlen (splice cont o (enc_block (seal b))) = zlen cont) as Hlen.
  { rewrite zlen_splice by lia. rewrite zlen_enc_block. lia. }
  assert (forall o' n, 0 <= o' -> 0 <= n -> o' + n <= o \/ o + 44 <= o' ->
    sub (splice cont o (enc_block (seal b))) o' n = sub cont o' n) as Hfar.
  { intros. apply sub_splice_ne; try lia. rewrite zlen_enc_block. lia. }
  pose proof (heap_disj _ _ _ H) as Hdj.
  constructor; try apply H; rewrite ?Hlen; try apply H.
  - rewrite Hfar by lia. apply H.
  - intros o' c' [[<- <-]|[Hne Hc']]%lookup_insert_Some; [done|by eapply heap_lo].
  - intros o' c' [[<- <-]|[Hne Hc']]%lookup_insert_Some; [done|by eapply heap_hi].
  - intros o' c' [[<- <-]|[Hne Hc']]%lookup_insert_Some.
    + simpl. rewrite <- (zlen_enc_block (seal b)). by apply sub_splice_eq; lia.
    + destruct (cell_ge0 _ _ _ _ _ H Hc'). pose proof (zlen_nonneg (c_pay c)).
      pose proof (zlen_nonneg (c_pay c')).
      destruct (Hdj o c o' c' Hc Hc' Hne); unfold c_end in *;
        (rewrite Hfar by lia; by eapply heap_blk).
  - intros o' c' [[<- <-]|[Hne Hc']]%lookup_insert_Some.
    + simpl. rewrite Hfar by (pose proof (zlen_nonneg (c_pay c)); lia). by eapply heap_pay.
    + destruct (cell_ge0 _ _ _ _ _ H Hc'). pose proof (zlen_nonneg (c_pay c)).
      pose proof (zlen_nonneg (c_pay c')).
      destruct (Hdj o c o' c' Hc Hc' Hne); unfold c_end in *;
        (rewrite Hfar by lia; by eapply heap_pay).
  - intros o' c' [[<- <-]|[Hne Hc']]%lookup_insert_Some; [by apply seal_ok|by eapply heap_ok].
  - intros o' c' [[<- <-]|[Hne Hc']]%lookup_insert_Some; [done|by eapply heap_seal].
  - intros o1 c1 o2 c2 [[<- <-]|[Hne1 Hc1]]%lookup_insert_Some
      [[<- <-]|[Hne2 Hc2]]%lookup_insert_Some Hne; try done.
    + by apply (Hdj o c o2 c2).
    + by apply (Hdj o1 c1 o c).
    + by apply (Hdj o1 c1 o2 c2).
Qed.

(** Overwriting the file header keeps the heap. *)
Lemma heap_write_header cont h h' M :
  heap cont h M -> header_ok h' -> heap (splice cont 0 (enc_header h')) h' M.
Proof.
  intros H Hh. pose proof (zlen_enc_header h' (ok_signature _ Hh)) as Hn.
  pose proof (heap_len _ _ _ H) as Hl.
  assert (zlen (splice cont 0 (enc_header h')) = zlen cont) as Hlen.
  { rewrite zlen_splice by lia. lia. }
  constructor; try apply H; rewrite ?Hlen; try apply H; try done.
  - rewrite <- Hn. apply sub_splice_eq; lia.
  - intros o c Hc. pose proof (heap_lo _ _ _ H o c Hc).
    rewrite sub_splice_ne by lia. by eapply heap_blk.
  - intros o c Hc. pose proof (heap_lo _ _ _ H o c Hc). pose proof (zlen_nonneg (c_pay c)).
    rewrite sub_splice_ne by lia. by eapply heap_pay.
Qed.

(** A cell may be given up. *)
Lemma heap_delete cont h M o : heap cont h M -> heap cont h (delete o M).
Proof.
  intros H. constructor; try apply H;
    try (intros o' c' [_ Hc']%lookup_delete_Some; by eapply H).
  intros o1 c1 o2 c2 [_ H1]%lookup_delete_Some [_ H2]%lookup_delete_Some. by eapply H.
Qed.

(** ** Representation *)

Section Rep.
Context {F : Type} {fo : FileOps F} {fl : FileLaws F}.
Context {I : Type} {io : IndexOps I} {il : IndexLaws I}.
Abbreviation St := (St F I).

Definition content (s : St) : bytes := f_content (m_file s).
Definition pos (s : St) : Z := f_pos (m_file s).

Record Rep (s : St) (v : View) : Prop := {
  rep_heap : heap (content s) (v_hdr v) (v_heap v);
  rep_hdr : hdr s = v_hdr v;
  rep_eof : zlen (content s) = v_eof v;
  rep_idx : idx_map (m_pindex (m_pdb s)) = v_idx v;
  rep_version : m_version (m_pdb s) = v_version v;
  rep_opened : m_opened (m_pdb s) = true
}.

Lemma f_at_ge0 o f : 0 <= o -> f_at o f = o.
Proof. intros. unfold f_at. destruct (Z.eqb_spec o (-1)); lia. Qed.

Lemma Rep_eof s v : Rep s v -> 32 <= v_eof v < 2147483648.
Proof. intros H. rewrite <- (rep_eof _ _ H). eapply heap_len, H. Qed.

Lemma wp_readBlock s v o c Q :
  Rep s v -> v_heap v !! o = Some c ->
  (forall s', Rep s' v -> pos s' = o + 44 -> Q (c_blk c) s') ->
  wp (readBlock o) Q s.
Proof.
  intros H Hc HQ. pose proof (rep_heap _ _ H) as Hh.
  destruct (cell_ge0 _ _ _ _ _ Hh Hc) as [Ho0 Ho1].
  unfold readBlock. wstep. unfold wp at 1, file_read.
  destruct (f_read sizeof_HDBBlock o (m_file s)) as [bs f'] eqn:E.
  apply f_read_law in E as (-> & Ec & Ep); [|done|rewrite f_at_ge0; lia].
  rewrite f_at_ge0 in * by lia. change sizeof_HDBBlock with 44 in *.
  fold (content s) in *. rewrite (heap_blk _ _ _ Hh o c Hc) in *.
  rewrite zlen_enc_block in *. change (negb (44 =? 44)) with false. cbv iota zeta.
  rewrite dec_enc_block by (by eapply heap_ok).
  rewrite (heap_seal _ _ _ Hh o c Hc), Z.eqb_refl. wstep. apply HQ; [|done].
  destruct H. constructor; unfold content, hdr in *; simpl; rewrite ?Ec; auto.
Qed.

Lemma wp_writeBlock s v o c b Q :
  Rep s v -> v_heap v !! o = Some c -> block_ok b ->
  (forall s', Rep s' (vput o (with_blk (seal b) c) v) -> pos s' = o + 44 -> Q (seal b) s') ->
  wp (writeBlock b o) Q s.
Proof.
  intros H Hc Hb HQ. pose proof (rep_heap _ _ H) as Hh.
  destruct (cell_ge0 _ _ _ _ _ Hh Hc) as [Ho0 Ho1].
  unfold writeBlock. wstep. unfold wp at 1, file_write.
  destruct (f_write (enc_block (seal b)) o (m_file s)) as [n f'] eqn:E.
  apply f_write_law in E as (-> & Ec & Ep); [|rewrite f_at_ge0; unfold content in *; lia].
  rewrite f_at_ge0 in * by lia. rewrite zlen_enc_block in *. simpl. wstep.
  apply HQ; [|done]. pose proof (heap_write_block _ _ _ _ _ b Hh Hc Hb) as Hh'.
  destruct H. constructor; unfold content, hdr in *; simpl; rewrite ?Ec; auto.
  rewrite zlen_splice by lia. rewrite zlen_enc_block. lia.
Qed.

Definition mk_offsets (v : View) (fr lr ff : Z) : HDBHeaderBlock :=
  mkHdr (signature (v_hdr v)) (hversion (v_hdr v)) fr lr ff.

Lemma wp_setOffsets s v fr lr ff Q :
  Rep s v -> is_s32 fr -> is_s32 lr -> is_s32 ff ->
  (forall s', Rep s' (vhdr (mk_offsets v fr lr ff) v) -> Q () s') ->
  wp (setOffsets fr lr ff) Q s.
Proof.
  intros H H1 H2 H3 HQ. pose proof (rep_heap _ _ H) as Hh.
  unfold setOffsets. wstep. wstep. wstep. wstep. wstep. unfold wp at 1, file_write.
  rewrite (rep_hdr _ _ H). fold (mk_offsets v fr lr ff).
  set (h' := mk_offsets v fr lr ff).
  assert (header_ok h') as Hh'.
  { destruct (heap_hdr_ok _ _ _ Hh). constructor; auto. }
  cbn [m_file set_pdb].
  destruct (f_write (enc_header h') 0 (m_file s)) as [n f'] eqn:E.
  apply f_write_law in E as (-> & Ec & Ep);
    [|rewrite f_at_ge0 by lia; pose proof (heap_len _ _ _ Hh); unfold content in *; lia].
  rewrite f_at_ge0 in * by lia. rewrite (zlen_enc_header h' (ok_signature _ Hh')). simpl. wstep.
  apply HQ. pose proof (heap_write_header _ _ h' _ Hh Hh') as Hh2. pose proof (heap_len _ _ _ Hh).
  destruct H. constructor; unfold content, hdr in *; simpl; rewrite ?Ec; auto.
  rewrite zlen_splice by lia. rewrite (zlen_enc_header h' (ok_signature _ Hh')). lia.
Qed.

Lemma Rep_hdr_ok s v : Rep s v -> header_ok (v_hdr v).
Proof. intros H. eapply heap_hdr_ok, H. Qed.

Lemma wp_setFirstFree s v ff Q :
  Rep s v -> is_s32 ff ->
  (forall s', Rep s' (vhdr (mk_offsets v (firstRoot (v_hdr v)) (lastRoot (v_hdr v)) ff) v) -> Q () s') ->
  wp (setFirstFreeOffSet ff) Q s.
Proof.
  intros H Hff HQ. unfold setFirstFreeOffSet. wstep. wstep. rewrite (rep_hdr _ _ H).
  destruct (Rep_hdr_ok _ _ H). by eapply wp_setOffsets.
Qed.

Lemma wp_setFirstRoot s v fr Q :
  Rep s v -> is_s32 fr ->
  (forall s', Rep s' (vhdr (mk_offsets v fr (lastRoot (v_hdr v)) (firstFree (v_hdr v))) v) -> Q () s') ->
  wp (setFirstRootOffSet fr) Q s.
Proof.
  intros H Hfr HQ. unfold setFirstRootOffSet. wstep. wstep. rewrite (rep_hdr _ _ H).
  destruct (Rep_hdr_ok _ _ H). by eapply wp_setOffsets.
Qed.

Lemma wp_setLastRoot s v lr Q :
  Rep s v -> is_s32 lr ->
  (forall s', Rep s' (vhdr (mk_offsets v (firstRoot (v_hdr v)) lr (firstFree (v_hdr v))) v) -> Q () s') ->
  wp (setLastRootOffset lr) Q s.
Proof.
  intros H Hlr HQ. unfold setLastRootOffset. wstep. wstep. rewrite (rep_hdr _ _ H).
  destruct (Rep_hdr_ok _ _ H). by eapply wp_setOffsets.
Qed.

(** The end of the file, as [findBlock] asks for it. *)
Lemma file_fuel_eof s v : Rep s v -> file_fuel s = Z.to_nat (v_eof v).
Proof.
  intros H. unfold file_fuel. destruct (f_seek_end (m_file s)) as [r f'] eqn:E.
  apply f_seek_law in E as (-> & _ & _). simpl. by rewrite <- (rep_eof _ _ H).
Qed.

Lemma wp_eof s v Q :
  Rep s v ->
  (forall s', Rep s' v -> pos s' = v_eof v -> Q (v_eof v) s') ->
  wp (r ← file_seek_end;
      if r =? -1 then throw "Failed to seek to end of file"
      else offset ← file_tell;
           if offset =? -1 then throw "Failed to get offset in file" else mret offset) Q s.
Proof.
  intros H HQ. wstep. unfold wp at 1, file_seek_end.
  destruct (f_seek_end (m_file s)) as [r f'] eqn:E.
  apply f_seek_law in E as (-> & Ec & Ep). pose proof (Rep_eof _ _ H).
  fold (content s) in *. rewrite (rep_eof _ _ H) in *. ztest. wstep.
  unfold wp at 1, file_tell. rewrite f_tell_law. simpl. rewrite Ep. ztest. wstep.
  apply HQ; [|done]. destruct H. constructor; unfold content, hdr in *; simpl; rewrite ?Ec; auto.
Qed.

(** ** Index operations *)

Lemma wp_with_index {A} (m : Prog I A) s v Q :
  Rep s v ->
  wp m (fun a ix => forall s', Rep s' (vidx (idx_map ix) v) -> pos s' = pos s -> Q a s')
     (m_pindex (m_pdb s)) ->
  wp (with_index m) Q s.
Proof.
  intros H Hm. unfold wp, with_index in *. rewrite (rep_opened _ _ H).
  destruct (m (m_pindex (m_pdb s))) as [[a| | |] ix]; try done. apply Hm; [|done].
  destruct H. constructor; unfold content, hdr in *; simpl; auto.
Qed.

Lemma vidx_id v : vidx (v_idx v) v = v.
Proof. by destruct v. Qed.

Lemma wp_findIndexEntry s v k Q :
  Rep s v ->
  (forall s', Rep s' v -> pos s' = pos s ->
     Q (match v_idx v !! k with Some o => mkEntry k o | None => nullEntry end) s') ->
  wp (findIndexEntry k) Q s.
Proof.
  intros H HQ. unfold findIndexEntry. eapply wp_with_index; [done|].
  eapply wp_mono; [apply idx_find_law|]. intros e ix [Hm ->] s' Hs' Hp.
  rewrite (rep_idx _ _ H) in *. rewrite Hm, vidx_id in Hs'. by apply HQ.
Qed.

Lemma wp_addIndexEntry s v k o Q :
  Rep s v ->
  (forall s', Rep s' (vidx (<[k := o]> (v_idx v)) v) -> pos s' = pos s -> Q true s') ->
  wp (addIndexEntry k o) Q s.
Proof.
  intros H HQ. unfold addIndexEntry. eapply wp_with_index; [done|].
  eapply wp_mono; [apply idx_add_law|]. intros r ix [-> Hm] s' Hs' Hp.
  rewrite (rep_idx _ _ H) in *. rewrite Hm in Hs'. by apply HQ.
Qed.

Lemma wp_removeIndexEntry s v k o Q :
  Rep s v -> v_idx v !! k = Some o -> k <> [] -> o <> -1 ->
  (forall s', Rep s' (vidx (delete k (v_idx v)) v) -> pos s' = pos s -> Q true s') ->
  wp (removeIndexEntry k) Q s.
Proof.
  intros H Hk Hk0 Ho HQ. unfold removeIndexEntry. eapply wp_with_index; [done|].
  eapply wp_mono; [apply idx_remove_law|]. intros r ix [Hm _] s' Hs' Hp.
  rewrite (rep_idx _ _ H) in *. destruct (Hm o Hk Hk0 Ho) as [-> Hm']. rewrite Hm' in Hs'.
  by apply HQ.
Qed.

Lemma wp_updateIndexEntry s v k o o' Q :
  Rep s v -> v_idx v !! k = Some o -> k <> [] -> o <> -1 ->
  (forall s', Rep s' (vidx (<[k := o']> (v_idx v)) v) -> pos s' = pos s -> Q true s') ->
  wp (updateIndexEntry k o') Q s.
Proof.
  intros H Hk Hk0 Ho HQ. unfold updateIndexEntry. eapply wp_with_index; [done|].
  eapply wp_mono; [apply idx_update_law|]. intros r ix [Hm _] s' Hs' Hp.
  rewrite (rep_idx _ _ H) in *. destruct (Hm o Hk Hk0 Ho) as [-> Hm']. rewrite Hm' in Hs'.
  by apply HQ.
Qed.

Lemma wp_registerWrite s v Q :
  Rep s v ->
  (forall s', Rep s' (vversion (s32 (v_version v + 1)) v) -> Q (s32 (v_version v + 1)) s') ->
  wp registerWrite Q s.
Proof.
  intros H HQ. unfold wp, registerWrite, incVersion. simpl.
  rewrite (rep_version _ _ H). apply HQ. destruct H.
  constructor; unfold content, hdr in *; simpl; auto.
Qed.
End Rep.
