(* ===== verification/Dll.v ===== *)
(** * Doubly linked lists of blocks

   The free list, the list of root nodes and the children of a node are all
   lists of blocks linked through [nextSib] and [prevSib], with -1 at the ends.
   [dseg M p l n] says that the blocks at the offsets [l] are linked in the heap
   [M] between the neighbours [p] and [n]. *)

From S2P Require Import Prelude HdbCommon HdbHeap.

(** First offset of a list, or [n]; last offset, or [p]. *)
Definition hd_off (l : list Z) (n : Z) : Z := match l with [] => n | o :: _ => o end.
Fixpoint last_off (p : Z) (l : list Z) : Z := match l with [] => p | o :: l => last_off o l end.

Fixpoint dseg (M : gmap Z Cell) (p : Z) (l : list Z) (n : Z) : Prop :=
  match l with
  | [] => True
  | o :: l' => exists c, M !! o = Some c /\ prevSib (c_blk c) = p /\
                 nextSib (c_blk c) = hd_off l' n /\ dseg M o l' n
  end.

(** Rewriting the block of a cell through [writeBlock]. *)
Definition mod_blk (f : HDBBlock -> HDBBlock) (c : Cell) : Cell := with_blk (seal (f (c_blk c))) c.
Definition setnext (o n : Z) (M : gmap Z Cell) : gmap Z Cell := alter (mod_blk (set_nextSib n)) o M.
Definition setprev (o p : Z) (M : gmap Z Cell) : gmap Z Cell := alter (mod_blk (set_prevSib p)) o M.

Lemma hd_off_app l1 l2 n : hd_off (l1 ++ l2) n = hd_off l1 (hd_off l2 n).
Proof. by destruct l1. Qed.

Lemma last_off_app p l1 l2 : last_off p (l1 ++ l2) = last_off (last_off p l1) l2.
Proof. revert p; induction l1; simpl; auto. Qed.

Lemma last_off_elem p l : l <> [] -> last_off p l ∈ l.
Proof.
  revert p; induction l as [|o l IH]; intros p Hl; [done|]. simpl.
  destruct l; [set_solver|]. right. by apply IH.
Qed.

Lemma hd_off_elem l n : l <> [] -> hd_off l n ∈ l.
Proof. destruct l; [done|]. set_solver. Qed.

Lemma last_off_default p q l : l <> [] -> last_off p l = last_off q l.
Proof. by destruct l. Qed.

Section Dseg.
Implicit Types M : gmap Z Cell.

Lemma dseg_app M p l1 l2 n :
  dseg M p (l1 ++ l2) n <-> dseg M p l1 (hd_off l2 n) /\ dseg M (last_off p l1) l2 n.
Proof.
  revert p; induction l1 as [|o l1 IH]; intros p; simpl; [tauto|].
  setoid_rewrite IH. rewrite hd_off_app. naive_solver.
Qed.

Lemma dseg_ext M M' p l n :
  (forall o, o ∈ l -> M' !! o = M !! o) -> dseg M p l n -> dseg M' p l n.
Proof.
  revert p; induction l as [|o l IH]; intros p H; simpl; [done|].
  intros (c & Hc & Hp & Hn & Hs). exists c. rewrite H by set_solver.
  repeat split; auto. apply IH; [|done]. set_solver.
Qed.

Lemma dseg_lookup M p l n o : dseg M p l n -> o ∈ l -> exists c, M !! o = Some c.
Proof.
  revert p; induction l as [|x l IH]; intros p; simpl; [set_solver|].
  intros (c & Hc & _ & _ & Hs) [->|Hin]%elem_of_cons; eauto.
Qed.

Lemma alter_out (f : Cell -> Cell) o M (l : list Z) :
  o ∉ l -> forall x, x ∈ l -> alter f o M !! x = M !! x.
Proof. intros Ho x Hx. apply lookup_alter_ne. set_solver. Qed.

Lemma dseg_alter_out f M o p l n : o ∉ l -> dseg M p l n -> dseg (alter f o M) p l n.
Proof. intros Ho. apply dseg_ext. by apply alter_out. Qed.

Lemma dseg_insert_out c M o p l n : o ∉ l -> dseg M p l n -> dseg (<[o := c]> M) p l n.
Proof. intros Ho. apply dseg_ext. intros x Hx. apply lookup_insert_ne. set_solver. Qed.

(** A change that keeps both links of a block keeps the list. *)
Lemma dseg_alter_links f M o p l n :
  (forall c, prevSib (c_blk (f c)) = prevSib (c_blk c)) ->
  (forall c, nextSib (c_blk (f c)) = nextSib (c_blk c)) ->
  dseg M p l n -> dseg (alter f o M) p l n.
Proof.
  intros Hp Hn. revert p; induction l as [|x l IH]; intros p; simpl; [done|].
  intros (c & Hc & Hcp & Hcn & Hs). destruct (decide (x = o)) as [->|Hne].
  - exists (f c). rewrite lookup_alter_eq, Hc. rewrite Hp, Hn. auto.
  - exists c. rewrite lookup_alter_ne by done. auto.
Qed.

Lemma dseg_setprev_hd M p p' l n :
  NoDup l -> dseg M p l n -> dseg (setprev (hd_off l (-1)) p' M) p' l n.
Proof.
  destruct l as [|o l]; simpl; [done|]. intros [Ho Hnd]%NoDup_cons (c & Hc & _ & Hn & Hs).
  exists (mod_blk (set_prevSib p') c). unfold setprev. rewrite lookup_alter_eq, Hc.
  repeat split; auto. by apply dseg_alter_out.
Qed.

Lemma dseg_setnext_last M p l n n' :
  NoDup l -> dseg M p l n -> dseg (setnext (last_off (-1) l) n' M) p l n'.
Proof.
  destruct (decide (l = [])) as [->|Hl]; [done|]. intros Hnd Hs.
  destruct l as [|x l0 _] using rev_ind; [done|]. rename l0 into l1.
  apply NoDup_app in Hnd as (Hnd1 & Hdis & _).
  rewrite last_off_app. simpl. apply dseg_app in Hs as [Hs1 Hs2]. apply dseg_app.
  simpl in *. split.
  - apply dseg_alter_out; [|done]. intros Hx. apply (Hdis x Hx). set_solver.
  - destruct Hs2 as (c & Hc & Hp & _ & _). exists (mod_blk (set_nextSib n') c).
    unfold setnext. rewrite lookup_alter_eq, Hc. auto.
Qed.

Lemma alter_absent (f : Cell -> Cell) o M : M !! o = None -> alter f o M = M.
Proof.
  intros H. apply map_eq. intros i. rewrite lookup_alter. case_decide; [|done].
  subst. by rewrite H.
Qed.

(** Changing the head (last) block of a disjoint list, or nothing at -1. *)
Lemma dseg_alter_hd f M (l l' : list Z) p n :
  M !! (-1) = None -> (forall x, x ∈ l -> x ∉ l') ->
  dseg M p l n -> dseg (alter f (hd_off l' (-1)) M) p l n.
Proof.
  intros HM Hd Hs. destruct (decide (l' = [])) as [->|Hl'].
  - simpl. by rewrite alter_absent.
  - apply dseg_alter_out; [|done]. pose proof (hd_off_elem l' (-1) Hl'). set_solver.
Qed.

Lemma dseg_alter_last f M (l l' : list Z) p n :
  M !! (-1) = None -> (forall x, x ∈ l -> x ∉ l') ->
  dseg M p l n -> dseg (alter f (last_off (-1) l') M) p l n.
Proof.
  intros HM Hd Hs. destruct (decide (l' = [])) as [->|Hl'].
  - simpl. by rewrite alter_absent.
  - apply dseg_alter_out; [|done]. pose proof (last_off_elem (-1) l' Hl'). set_solver.
Qed.

Lemma alter_still_absent (f : Cell -> Cell) o M : M !! (-1) = None -> alter f o M !! (-1) = None.
Proof. intros H. rewrite lookup_alter. case_decide; [subst|done]. by rewrite H. Qed.

(** Removing one element: its neighbours are linked to each other. *)
Lemma dseg_unlink M l1 o l2 :
  M !! (-1) = None -> NoDup (l1 ++ o :: l2) -> dseg M (-1) (l1 ++ o :: l2) (-1) ->
  dseg (setnext (last_off (-1) l1) (hd_off l2 (-1))
         (setprev (hd_off l2 (-1)) (last_off (-1) l1) M)) (-1) (l1 ++ l2) (-1).
Proof.
  intros HM (Hnd1 & Hdis & [Ho Hnd2]%NoDup_cons)%NoDup_app [Hs1 Hs2]%dseg_app.
  simpl in Hs1. destruct Hs2 as (c & Hc & Hp & Hn & Hs2). apply dseg_app. split.
  - apply dseg_setnext_last with o; [done|].
    apply dseg_alter_hd; [done| |done]. set_solver.
  - apply dseg_alter_last; [by apply alter_still_absent|set_solver|].
    by apply dseg_setprev_hd with o.
Qed.

(** A block whose own links are already set, between two lists. *)
Lemma dseg_join M l1 o l2 c n1 p2 :
  M !! (-1) = None -> o <> -1 -> NoDup (l1 ++ o :: l2) -> dseg M (-1) l1 n1 -> dseg M p2 l2 (-1) ->
  prevSib (c_blk c) = last_off (-1) l1 -> nextSib (c_blk c) = hd_off l2 (-1) ->
  dseg (setnext (last_off (-1) l1) o (setprev (hd_off l2 (-1)) o (<[o := c]> M)))
    (-1) (l1 ++ o :: l2) (-1).
Proof.
  intros HM Ho (Hnd1 & Hdis & [Ho2 Hnd2]%NoDup_cons)%NoDup_app Hs1 Hs2 Hp Hn.
  assert (o ∉ l1) as Ho1 by set_solver.
  assert (<[o := c]> M !! (-1) = None) as HM1 by (by rewrite lookup_insert_ne).
  assert (setprev (hd_off l2 (-1)) o (<[o := c]> M) !! (-1) = None) as HM2
    by by apply alter_still_absent.
  apply dseg_app. split; [|simpl].
  - simpl. apply dseg_setnext_last with n1; [done|].
    apply dseg_alter_hd; [done|set_solver|]. by apply dseg_insert_out.
  - exists c. split_and!; [|done|done|].
    + unfold setnext, setprev. rewrite !lookup_alter_ne, lookup_insert_eq; [done|..].
      * destruct (decide (l2 = [])) as [->|Hl]; [done|]. pose proof (hd_off_elem l2 (-1) Hl). set_solver.
      * destruct (decide (l1 = [])) as [->|Hl]; [done|]. pose proof (last_off_elem (-1) l1 Hl). set_solver.
    + apply dseg_alter_last; [done|set_solver|].
      apply dseg_setprev_hd with p2; [done|]. by apply dseg_insert_out.
Qed.

(** Inserting it into a list. *)
Lemma dseg_link M l1 o l2 c :
  M !! (-1) = None -> o <> -1 -> NoDup (l1 ++ o :: l2) -> dseg M (-1) (l1 ++ l2) (-1) ->
  prevSib (c_blk c) = last_off (-1) l1 -> nextSib (c_blk c) = hd_off l2 (-1) ->
  dseg (setnext (last_off (-1) l1) o (setprev (hd_off l2 (-1)) o (<[o := c]> M)))
    (-1) (l1 ++ o :: l2) (-1).
Proof. intros HM Ho Hnd [Hs1 Hs2]%dseg_app Hp Hn. by eapply dseg_join. Qed.

(** The neighbours of an element, as stored in its block. *)
Lemma dseg_at M p l1 o l2 n c :
  dseg M p (l1 ++ o :: l2) n -> M !! o = Some c ->
  prevSib (c_blk c) = last_off p l1 /\ nextSib (c_blk c) = hd_off l2 n.
Proof.
  intros [_ (c' & Hc' & Hp & Hn & _)]%dseg_app Hc. simplify_eq. done.
Qed.

Lemma lookup_setnext M o n x c :
  M !! x = Some c ->
  setnext o n M !! x = Some (if decide (x = o) then mod_blk (set_nextSib n) c else c).
Proof.
  intros H. unfold setnext. rewrite lookup_alter. repeat case_decide; subst; try done; by rewrite H.
Qed.

Lemma lookup_setprev M o n x c :
  M !! x = Some c ->
  setprev o n M !! x = Some (if decide (x = o) then mod_blk (set_prevSib n) c else c).
Proof.
  intros H. unfold setprev. rewrite lookup_alter. repeat case_decide; subst; try done; by rewrite H.
Qed.
End Dseg.
