(* ===== verification/FreeList.v ===== *)
(** * The free list of the HDB

   The invariant of the free list ([flist]): linked from [firstFree], ordered
   by block size, every block marked free.  [findBlock] takes the smallest
   block that is large enough (or the end of the file), [addBlockToFreeList]
   inserts in order; both leave every other block of the file alone. *)

From stdpp Require Import sorting.
From S2P Require Import Prelude FileIO HdbCommon Index Hdb HdbHeap Dll.

(** ** The invariant *)

Definition size_of (M : gmap Z Cell) (o : Z) : Z :=
  match M !! o with Some c => bsize (c_blk c) | None => 0 end.

Record flist (v : View) (l : list Z) : Prop := {
  fl_head : firstFree (v_hdr v) = hd_off l (-1);
  fl_seg : dseg (v_heap v) (-1) l (-1);
  fl_nodup : NoDup l;
  fl_free : forall o c, o ∈ l -> v_heap v !! o = Some c -> isFree (c_blk c) <> 0;
  fl_sorted : StronglySorted Z.le (size_of (v_heap v) <$> l)
}.

(** A block up to its links and checksum. *)
Definition core (b : HDBBlock) : HDBBlock := set_chkSum 0 (set_nextSib 0 (set_prevSib 0 b)).

(** [lframe L v v']: at most the links of blocks in [L] and the head of the
   free list changed. *)
Record lframe (L : list Z) (v v' : View) : Prop := {
  lf_out : forall o, o ∉ L -> v_heap v' !! o = v_heap v !! o;
  lf_in : forall o c, v_heap v !! o = Some c ->
    exists c', v_heap v' !! o = Some c' /\ c_pay c' = c_pay c /\ core (c_blk c') = core (c_blk c);
  lf_none : forall o, v_heap v !! o = None -> v_heap v' !! o = None;
  lf_idx : v_idx v' = v_idx v;
  lf_eof : v_eof v' = v_eof v;
  lf_version : v_version v' = v_version v;
  lf_firstRoot : firstRoot (v_hdr v') = firstRoot (v_hdr v);
  lf_lastRoot : lastRoot (v_hdr v') = lastRoot (v_hdr v)
}.

Lemma lframe_refl L v : lframe L v v.
Proof. constructor; eauto. Qed.

Lemma lframe_trans L v1 v2 v3 : lframe L v1 v2 -> lframe L v2 v3 -> lframe L v1 v3.
Proof.
  intros [] []. constructor; try congruence.
  - intros o Ho. rewrite lf_out1 by done. by apply lf_out0.
  - intros o c Hc. destruct (lf_in0 o c Hc) as (c2 & Hc2 & Hp2 & Hk2).
    destruct (lf_in1 o c2 Hc2) as (c3 & Hc3 & Hp3 & Hk3). exists c3. split_and!; congruence.
  - eauto.
Qed.

Lemma lframe_mono (L L' : list Z) v v' : (forall x, x ∈ L -> x ∈ L') -> lframe L v v' -> lframe L' v v'.
Proof. intros HL []. constructor; auto. Qed.

(** The heap of a view replaced. *)
Definition vheap (M : gmap Z Cell) (v : View) : View :=
  mkView (v_hdr v) M (v_idx v) (v_eof v) (v_version v).

Lemma core_seal b : core (seal b) = core b.
Proof. done. Qed.
Lemma core_next n b : core (seal (set_nextSib n b)) = core b.
Proof. done. Qed.
Lemma core_prev n b : core (seal (set_prevSib n b)) = core b.
Proof. done. Qed.

Lemma lframe_alter L f o v :
  (o ∈ L \/ v_heap v !! o = None) -> (forall c, core (c_blk (f c)) = core (c_blk c)) ->
  (forall c, c_pay (f c) = c_pay c) ->
  lframe L v (vheap (alter f o (v_heap v)) v).
Proof.
  intros Ho Hc Hp. constructor; simpl; auto.
  - intros x Hx. rewrite lookup_alter. case_decide; [subst|done].
    destruct Ho as [Ho|Ho]; [done|]. by rewrite Ho.
  - intros x c Hx. rewrite lookup_alter. case_decide; [subst x|]; rewrite Hx; simpl; eexists; split_and!; eauto.
  - intros x Hx. rewrite lookup_alter. case_decide; [subst x|]; by rewrite Hx.
Qed.

Lemma lframe_head L v ff :
  lframe L v (vhdr (mk_offsets v (firstRoot (v_hdr v)) (lastRoot (v_hdr v)) ff) v).
Proof. constructor; simpl; eauto. Qed.

Lemma lframe_size L v v' o : lframe L v v' -> size_of (v_heap v') o = size_of (v_heap v) o.
Proof.
  intros H. unfold size_of. destruct (v_heap v !! o) as [c|] eqn:E.
  - destruct (lf_in _ _ _ H o c E) as (c' & -> & _ & Hk). by apply (f_equal bsize) in Hk.
  - by rewrite (lf_none _ _ _ H o E).
Qed.

Lemma lframe_isFree L v v' o c' :
  lframe L v v' -> v_heap v' !! o = Some c' ->
  exists c, v_heap v !! o = Some c /\ isFree (c_blk c') = isFree (c_blk c).
Proof.
  intros H Hc'. destruct (v_heap v !! o) as [c|] eqn:E.
  - destruct (lf_in _ _ _ H o c E) as (c2 & Hc2 & _ & Hk). rewrite Hc' in Hc2.
    injection Hc2 as <-. exists c. split; [done|]. by apply (f_equal isFree) in Hk.
  - by rewrite (lf_none _ _ _ H o E) in Hc'.
Qed.

(** ** Blocks of a representable view *)

Section Specs.
Context {F : Type} {fo : FileOps F} {fl : FileLaws F}.
Context {I : Type} {io : IndexOps I} {il : IndexLaws I}.
Implicit Types (s : St F I) (v : View).

Lemma Rep_off s v o c : Rep s v -> v_heap v !! o = Some c -> 32 <= o < 2147483648 /\ block_ok (c_blk c).
Proof.
  intros H Hc. pose proof (rep_heap _ _ H) as Hh. pose proof (cell_ge0 _ _ _ _ _ Hh Hc).
  pose proof (heap_len _ _ _ Hh). pose proof (heap_lo _ _ _ Hh o c Hc).
  split; [lia|]. by eapply heap_ok.
Qed.

Lemma Rep_ok s v o c : Rep s v -> v_heap v !! o = Some c -> block_ok (c_blk c).
Proof. intros H Hc. by eapply (Rep_off s v o). Qed.

Lemma Rep_neg s v : Rep s v -> v_heap v !! (-1) = None.
Proof.
  intros H. destruct (v_heap v !! (-1)) eqn:E; [|done].
  destruct (Rep_off _ _ _ _ H E). lia.
Qed.

Lemma dseg_hd_s32 s v p l n : Rep s v -> dseg (v_heap v) p l n -> is_s32 (hd_off l (-1)).
Proof.
  intros H Hs. destruct l as [|o l]; unfold is_s32; simpl; [lia|].
  destruct Hs as (c & Hc & _). destruct (Rep_off _ _ _ _ H Hc). lia.
Qed.

Lemma dseg_last_s32 s v p l n : Rep s v -> dseg (v_heap v) p l n -> is_s32 (last_off (-1) l).
Proof.
  intros H Hs. destruct (decide (l = [])) as [->|Hl]; unfold is_s32; [simpl; lia|].
  destruct (dseg_lookup _ _ _ _ _ Hs (last_off_elem (-1) l Hl)) as [c Hc].
  destruct (Rep_off _ _ _ _ H Hc). lia.
Qed.

(** The end marker is the only offset of a list that is not positive. *)
Lemma dseg_hd_neg s v p l n : Rep s v -> dseg (v_heap v) p l n ->
  (hd_off l (-1) =? -1) = bool_decide (l = []).
Proof.
  intros H Hs. destruct l as [|o l]; [done|]. rewrite bool_decide_false by done. simpl.
  destruct Hs as (c & Hc & _). destruct (Rep_off _ _ _ _ H Hc). apply Z.eqb_neq. lia.
Qed.

Lemma dseg_last_neg s v p l n : Rep s v -> dseg (v_heap v) p l n ->
  (last_off (-1) l =? -1) = bool_decide (l = []).
Proof.
  intros H Hs. destruct (decide (l = [])) as [->|Hl]; [done|]. rewrite bool_decide_false by done.
  destruct (dseg_lookup _ _ _ _ _ Hs (last_off_elem (-1) l Hl)) as [c Hc].
  destruct (Rep_off _ _ _ _ H Hc). apply Z.eqb_neq. lia.
Qed.

(** A list of distinct blocks is no longer than the file. *)
Lemma cells_fuel s v l :
  Rep s v -> (forall x, x ∈ l -> is_Some (v_heap v !! x)) -> NoDup l -> (length l <= file_fuel s)%nat.
Proof.
  intros H Hs Hnd. rewrite (file_fuel_eof s v H).
  assert (l ⊆+ seqZ 0 (v_eof v)) as Hsub.
  { apply NoDup_submseteq; [done|]. intros x Hx. destruct (Hs x Hx) as [c Hc].
    pose proof (cell_ge0 _ _ _ _ _ (rep_heap _ _ H) Hc). rewrite (rep_eof _ _ H) in *.
    apply elem_of_seqZ. lia. }
  apply submseteq_length in Hsub. by rewrite length_seqZ in Hsub.
Qed.

Lemma dseg_fuel s v p l n :
  Rep s v -> dseg (v_heap v) p l n -> NoDup l -> (length l <= file_fuel s)%nat.
Proof.
  intros H Hs. eapply cells_fuel; [done|]. intros x Hx. destruct (dseg_lookup _ _ _ _ _ Hs Hx); eauto.
Qed.

(** Write back a changed block. *)
Lemma wp_writeBlock_alter s v o c f Q :
  Rep s v -> v_heap v !! o = Some c -> block_ok (f (c_blk c)) ->
  (forall s', Rep s' (vheap (alter (mod_blk f) o (v_heap v)) v) -> pos s' = o + 44 ->
     Q (seal (f (c_blk c))) s') ->
  wp (writeBlock (f (c_blk c)) o) Q s.
Proof.
  intros H Hc Hok HQ. eapply wp_writeBlock; [done..|]. intros s2 H2 Hp. apply HQ; [|done].
  by rewrite (alter_alt_Some _ _ _ _ Hc).
Qed.

(** Read a block, change it, write it back. *)
Lemma wp_modBlock s v o c f Q :
  Rep s v -> v_heap v !! o = Some c -> block_ok (f (c_blk c)) ->
  (forall s', Rep s' (vheap (alter (mod_blk f) o (v_heap v)) v) -> Q () s') ->
  wp (b ← readBlock o; _ ← writeBlock (f b) o; mret ()) Q s.
Proof.
  intros H Hc Hok HQ. wstep. eapply wp_readBlock; [done..|]. intros s1 H1 _.
  wstep. eapply wp_writeBlock_alter; [done..|]. intros s2 H2 _. wstep. by apply HQ.
Qed.

Lemma block_ok_next n b : is_s32 n -> block_ok b -> block_ok (set_nextSib n b).
Proof. intros Hn []. constructor; auto. Qed.
Lemma block_ok_prev n b : is_s32 n -> block_ok b -> block_ok (set_prevSib n b).
Proof. intros Hn []. constructor; auto. Qed.

(** ** Searching the list *)

Lemma wp_findBlock_loop l : forall fuel s v p sz,
  Rep s v -> dseg (v_heap v) p l (-1) -> l <> [] -> (length l <= fuel)%nat ->
  0 <= sz < 4294967296 ->
  wp (findBlock_loop fuel (hd_off l (-1)) sz) (fun r s' => Rep s' v /\
    match r with
    | Some (o, b) => exists l1 l2 c, l = l1 ++ o :: l2 /\ v_heap v !! o = Some c /\ b = c_blk c /\
        (forall x, x ∈ l1 -> size_of (v_heap v) x < sz) /\ sz <= bsize b
    | None => forall x, x ∈ l -> size_of (v_heap v) x < sz
    end) s.
Proof.
  induction l as [|o l IH]; intros fuel s v p sz H Hs Hne Hf Hsz; [done|].
  destruct fuel as [|fuel]; [simpl in Hf; lia|]. simpl in Hs.
  destruct Hs as (c & Hc & Hp & Hn & Hs). cbn [findBlock_loop hd_off].
  wstep. eapply wp_readBlock; [done..|]. intros s1 H1 _. rewrite u32_id by done.
  destruct (sz <=? bsize (c_blk c)) eqn:Ez; zbool.
  - wstep. split; [done|]. exists [], l, c. split_and!; try done. set_solver.
  - rewrite Hn, (dseg_hd_neg s1 v o l (-1) H1 Hs).
    assert (size_of (v_heap v) o < sz) as Hlt by (unfold size_of; by rewrite Hc).
    destruct (decide (l = [])) as [->|Hl].
    + rewrite bool_decide_true by done. wstep. split; [done|].
      intros x [->|?%not_elem_of_nil]%elem_of_cons; done.
    + rewrite bool_decide_false by done. simpl in Hf.
      eapply wp_mono; [eapply (IH fuel s1 v o sz); auto; lia|].
      intros [[o' b]|] s' [H' Hr]; (split; [done|]).
      * destruct Hr as (l1 & l2 & c' & -> & Hc' & -> & Hlo & Hge).
        exists (o :: l1), l2, c'. split_and!; try done. set_solver.
      * intros x [->|Hx]%elem_of_cons; auto.
Qed.

(** ** Unlinking a free block *)

Lemma flist_unlink_view s v v' l1 o l2 M :
  Rep s v -> flist v (l1 ++ o :: l2) -> lframe (l1 ++ l2) v v' ->
  M = v_heap v' ->
  M = setnext (last_off (-1) l1) (hd_off l2 (-1)) (setprev (hd_off l2 (-1)) (last_off (-1) l1) (v_heap v)) ->
  firstFree (v_hdr v') = hd_off (l1 ++ l2) (-1) ->
  flist v' (l1 ++ l2).
Proof.
  intros H Hfl Hfr EM EM' Eh. pose proof (fl_nodup _ _ Hfl) as Hnd. constructor; auto.
  - rewrite <- EM, EM'. apply (dseg_unlink _ l1 o l2); [by eapply Rep_neg|done|apply Hfl].
  - apply NoDup_app in Hnd as (? & Hd & [? ?]%NoDup_cons). apply NoDup_app. split_and!; auto. set_solver.
  - intros x c' Hx Hc'. destruct (lframe_isFree _ _ _ _ _ Hfr Hc') as (c & Hc & ->).
    eapply (fl_free _ _ Hfl); [|done]. set_solver.
  - rewrite (list_fmap_ext _ (size_of (v_heap v))) by (intros; by eapply lframe_size).
    pose proof (fl_sorted _ _ Hfl) as Hso. rewrite fmap_app in *. simpl in Hso.
    apply StronglySorted_app in Hso as (Hle & Hs1 & [_ Hs2]%StronglySorted_cons).
    apply StronglySorted_app_2; auto. intros x y Hx Hy. apply Hle; [done|]. by right.
Qed.

Lemma wp_removeBlockFromFreeList s v l1 o l2 c :
  Rep s v -> flist v (l1 ++ o :: l2) -> v_heap v !! o = Some c ->
  wp (removeBlockFromFreeList (c_blk c)) (fun _ s' => exists v', Rep s' v' /\
    flist v' (l1 ++ l2) /\ lframe (l1 ++ l2) v v') s.
Proof.
  intros H Hfl Hc. pose proof (fl_seg _ _ Hfl) as Hseg.
  destruct (dseg_at _ _ _ _ _ _ _ Hseg Hc) as [Hp Hn].
  pose proof (proj1 (dseg_app _ _ _ _ _) Hseg) as [Hs1 (c0 & _ & _ & _ & Hs2)].
  unfold removeBlockFromFreeList. rewrite Hp, Hn.
  rewrite (dseg_hd_neg s v _ l2 _ H Hs2), (dseg_last_neg s v _ l1 _ H Hs1).
  pose proof (dseg_hd_s32 s v _ l2 _ H Hs2) as Hi2.
  pose proof (dseg_last_s32 s v _ l1 _ H Hs1) as Hi1.
  set (M1 := setprev (hd_off l2 (-1)) (last_off (-1) l1) (v_heap v)).
  wstep. apply wp_mono with (Q := fun _ s1 => Rep s1 (vheap M1 v)).
  { apply wp_when; intros E.
    - apply negb_true_iff, bool_decide_eq_false in E.
      destruct (dseg_lookup _ _ _ _ _ Hs2 (hd_off_elem l2 (-1) E)) as [c2 Hc2].
      apply (wp_modBlock s v _ c2 (set_prevSib (last_off (-1) l1))); auto.
      apply block_ok_prev; [done|]. by eapply (Rep_ok s v).
    - apply negb_false_iff, bool_decide_eq_true in E. subst l2.
      unfold M1, setprev. rewrite alter_absent by by eapply Rep_neg.
      unfold vheap. by destruct v. }
  intros [] s1 H1.
  assert (lframe (l1 ++ l2) v (vheap M1 v)) as Hf1.
  { apply lframe_alter; [|done..]. destruct (decide (l2 = [])) as [->|Hl2].
    - right. by eapply Rep_neg.
    - left. pose proof (hd_off_elem l2 (-1) Hl2). set_solver. }
  destruct (decide (l1 = [])) as [->|Hl1].
  - rewrite bool_decide_true by done. cbn [negb]. wstep. wstep.
    rewrite (rep_hdr _ _ H1). cbn [vheap v_hdr].
    rewrite (fl_head _ _ Hfl), (dseg_hd_neg s v _ _ _ H Hseg), bool_decide_false by (by destruct l2).
    cbn [negb when]. eapply wp_setFirstFree; [done|done|]. intros s2 H2.
    eexists. split; [exact H2|].
    match goal with |- flist ?v2 _ /\ _ => set (v2' := v2) in * end.
    assert (lframe ([] ++ l2) v v2') as Hf2 by (eapply lframe_trans; [done|apply lframe_head]).
    split; [|done]. eapply (flist_unlink_view s v v2' [] o l2 M1); auto.
    unfold setnext. rewrite alter_absent; [done|]. apply alter_still_absent. by eapply Rep_neg.
  - rewrite bool_decide_false by done. cbn [negb].
    destruct (dseg_lookup _ _ _ _ _ Hs1 (last_off_elem (-1) l1 Hl1)) as [cx Hcx].
    assert (exists cx', v_heap (vheap M1 v) !! last_off (-1) l1 = Some cx' /\ block_ok (c_blk cx')) as (cx' & Hcx' & Hokx).
    { destruct (lf_in _ _ _ Hf1 _ _ Hcx) as (cx' & Hcx' & _). exists cx'. split; [done|].
      by eapply (Rep_ok s1). }
    apply (wp_modBlock s1 (vheap M1 v) _ cx' (set_nextSib (hd_off l2 (-1)))); auto.
    { by apply block_ok_next. }
    intros s2 H2. eexists. split; [exact H2|].
    match goal with |- flist ?v2 _ /\ _ => set (v2' := v2) in * end.
    assert (lframe (l1 ++ l2) v v2') as Hf2.
    { eapply lframe_trans; [exact Hf1|]. apply lframe_alter; [|done..].
      left. pose proof (last_off_elem (-1) l1 Hl1). set_solver. }
    split; [|done]. eapply (flist_unlink_view s v v2' l1 o l2 (v_heap v2')); auto.
    simpl. rewrite (fl_head _ _ Hfl). by destruct l1.
Qed.

(** ** Allocation *)

(** [findBlock] takes the smallest free block that is large enough, else the
   end of the file. *)
Lemma wp_findBlock s v l sz :
  Rep s v -> flist v l -> 0 <= sz < 4294967296 ->
  wp (findBlock sz) (fun off s' =>
    (exists v' l1 l2, l = l1 ++ off :: l2 /\ Rep s' v' /\ flist v' (l1 ++ l2) /\
       lframe (l1 ++ l2) v v' /\ sz <= size_of (v_heap v) off /\
       forall x, x ∈ l -> sz <= size_of (v_heap v) x -> size_of (v_heap v) off <= size_of (v_heap v) x) \/
    (off = v_eof v /\ Rep s' v /\ forall x, x ∈ l -> size_of (v_heap v) x < sz)) s.
Proof.
  intros H Hfl Hsz. unfold findBlock. wstep. wstep. rewrite (rep_hdr _ _ H).
  pose proof (fl_seg _ _ Hfl) as Hseg.
  rewrite (fl_head _ _ Hfl), (dseg_hd_neg s v _ _ _ H Hseg). wstep.
  apply wp_mono with (Q := fun r s' => Rep s' v /\ match r with
    | Some (o, b) => exists l1 l2 c, l = l1 ++ o :: l2 /\ v_heap v !! o = Some c /\ b = c_blk c /\
        (forall x, x ∈ l1 -> size_of (v_heap v) x < sz) /\ sz <= bsize b
    | None => forall x, x ∈ l -> size_of (v_heap v) x < sz end).
  { destruct (decide (l = [])) as [->|Hl].
    - rewrite bool_decide_true by done. cbn [negb]. wstep. split; [done|]. set_solver.
    - rewrite bool_decide_false by done. cbn [negb].
      eapply wp_findBlock_loop; eauto. eapply dseg_fuel; eauto. apply Hfl. }
  intros [[o b]|] s1 [H1 Hr].
  - destruct Hr as (l1 & l2 & c & -> & Hc & -> & Hlo & Hge). wstep.
    eapply wp_mono; [eapply wp_removeBlockFromFreeList; eauto|].
    intros [] s2 (v' & H2 & Hfl2 & Hfr). wstep. left. exists v', l1, l2.
    assert (size_of (v_heap v) o = bsize (c_blk c)) as Eo by (unfold size_of; by rewrite Hc).
    rewrite Eo. split_and!; auto. intros x [Hx|[->|Hx]%elem_of_cons]%elem_of_app Hsx.
    + specialize (Hlo x Hx). lia.
    + lia.
    + pose proof (fl_sorted _ _ Hfl) as Hso. rewrite fmap_app in Hso.
      apply StronglySorted_app_1_r in Hso. apply StronglySorted_cons in Hso as [Hle _].
      rewrite Forall_forall in Hle. rewrite <- Eo. apply Hle. by apply list_elem_of_fmap_2.
  - eapply wp_eof; [done|]. intros s2 H2 _. by right.
Qed.

(** ** Freeing *)

Lemma wp_insertPoint_loop l : forall fuel s v p sz lo cb,
  Rep s v -> dseg (v_heap v) p l (-1) -> (length l <= fuel)%nat ->
  wp (insertPoint_loop fuel sz (hd_off l (-1)) lo cb) (fun r s' => Rep s' v /\
    exists l1 l2, l = l1 ++ l2 /\ (forall x, x ∈ l1 -> size_of (v_heap v) x < sz) /\
      r.1.1 = hd_off l2 (-1) /\
      match l2 with
      | [] => r.1.2 = last_off lo l1 /\ (l1 = [] -> r.2 = cb) /\
              (l1 <> [] -> exists c, v_heap v !! last_off lo l1 = Some c /\ r.2 = c_blk c)
      | y :: _ => exists c, v_heap v !! y = Some c /\ r.2 = c_blk c /\ sz <= bsize (c_blk c)
      end) s.
Proof.
  induction l as [|o l IH]; intros fuel s v p sz lo cb H Hs Hf.
  { destruct fuel; cbn [insertPoint_loop hd_off]; change (-1 =? -1) with true; cbv iota; wstep;
      (split; [done|]); exists [], []; split_and!; try done; set_solver. }
  destruct fuel as [|fuel]; [simpl in Hf; lia|]. simpl in Hs, Hf.
  destruct Hs as (c & Hc & Hp & Hn & Hs). cbn [insertPoint_loop hd_off].
  destruct (Rep_off _ _ _ _ H Hc) as [Ho Hok]. ztest.
  wstep. eapply wp_readBlock; [done..|]. intros s1 H1 _.
  destruct (sz <=? bsize (c_blk c)) eqn:Ez; zbool.
  - wstep. split; [done|]. exists [], (o :: l). split_and!; try done; [set_solver|].
    exists c. split_and!; done.
  - rewrite Hn. eapply wp_mono; [eapply (IH fuel s1 v o sz o); auto; lia|].
    intros [[co lo'] cb'] s' [H' (l1 & l2 & -> & Hlt & Hco & Hm)]. split; [done|].
    exists (o :: l1), l2. simpl in *. split_and!; auto.
    + intros x [->|Hx]%elem_of_cons; [|by apply Hlt]. unfold size_of. by rewrite Hc.
    + destruct l2; [|done]. destruct Hm as (-> & Hm1 & Hm2). split_and!; [done..|].
      intros _. destruct l1; [|by apply Hm2]. simpl. exists c. by rewrite Hm1.
Qed.

Lemma alter_comm (f g : Cell -> Cell) i j (M : gmap Z Cell) :
  i <> j -> alter f i (alter g j M) = alter g j (alter f i M).
Proof.
  intros Hij. apply map_eq. intros x. rewrite !lookup_alter.
  repeat case_decide; subst; try done.
Qed.

(** The block as it goes to the free list. *)
Definition freed (b : HDBBlock) (c : Cell) : Cell := mkCell (seal (set_isFree 1 b)) (c_pay c).

Lemma flist_link_view s v v' l1 o l2 c b :
  Rep s v -> flist v (l1 ++ l2) -> o ∉ l1 ++ l2 -> o <> -1 ->
  v_heap v !! o = Some c ->
  (forall x, x ∈ l1 -> size_of (v_heap v) x < bsize b) ->
  (forall y l2', l2 = y :: l2' -> bsize b <= size_of (v_heap v) y) ->
  lframe (o :: l1 ++ l2) (vput o (freed b c) v) v' ->
  v_heap v' = setnext (last_off (-1) l1) o (setprev (hd_off l2 (-1)) o
     (<[o := mkCell (seal (set_prevSib (last_off (-1) l1) (set_nextSib (hd_off l2 (-1))
        (set_isFree 1 b)))) (c_pay c)]> (v_heap v))) ->
  firstFree (v_hdr v') = hd_off (l1 ++ o :: l2) (-1) ->
  flist v' (l1 ++ o :: l2).
Proof.
  intros H Hfl Ho Hon Hc Hlo Hhi Hfr EM Eh. pose proof (fl_nodup _ _ Hfl) as Hnd.
  assert (NoDup (l1 ++ o :: l2)) as Hnd'.
  { apply NoDup_app in Hnd as (? & ? & ?). apply NoDup_app. split_and!; [done|set_solver|].
    apply NoDup_cons. set_solver. }
  assert (size_of (<[o := freed b c]> (v_heap v)) o = bsize b) as Eso.
  { unfold size_of. by rewrite lookup_insert_eq. }
  assert (forall x, x ∈ l1 ++ l2 ->
    size_of (<[o := freed b c]> (v_heap v)) x = size_of (v_heap v) x) as Esx.
  { intros x Hx. unfold size_of. rewrite lookup_insert_ne; [done|]. set_solver. }
  constructor; auto.
  - rewrite EM. apply dseg_link; auto; [by eapply Rep_neg|apply Hfl].
  - intros x c' Hx Hc'. destruct (lframe_isFree _ _ _ _ _ Hfr Hc') as (c2 & Hc2 & ->).
    simpl in Hc2. apply lookup_insert_Some in Hc2 as [[<- <-]|[Hne Hc2]]; [done|].
    eapply (fl_free _ _ Hfl); [|done]. set_solver.
  - rewrite (list_fmap_ext _ (size_of (<[o := freed b c]> (v_heap v))))
      by (intros; by apply (lframe_size _ _ _ _ Hfr)).
    rewrite fmap_app, fmap_cons, Eso.
    rewrite (list_fmap_ext _ (size_of (v_heap v)) l1), (list_fmap_ext _ (size_of (v_heap v)) l2)
      by (intros i x Hx; apply Esx; apply list_elem_of_lookup_2 in Hx; set_solver).
    pose proof (fl_sorted _ _ Hfl) as Hso. rewrite fmap_app in Hso.
    apply StronglySorted_app in Hso as (Hle & Hs1 & Hs2).
    assert (forall z, z ∈ size_of (v_heap v) <$> l2 -> bsize b <= z) as Hge.
    { intros z Hz. destruct l2 as [|y l2']; [set_solver|]. specialize (Hhi y l2' eq_refl).
      simpl in Hs2. apply StronglySorted_cons in Hs2 as [Hy _]. rewrite Forall_forall in Hy.
      apply elem_of_cons in Hz as [->|Hz]; [done|]. specialize (Hy z Hz). lia. }
    apply StronglySorted_app_2; [|done|].
    + intros x y (x0 & -> & Hx)%list_elem_of_fmap Hy. specialize (Hlo x0 Hx).
      apply elem_of_cons in Hy as [->|Hy]; [lia|]. specialize (Hge y Hy). lia.
    + apply StronglySorted_cons. split; [|done]. apply Forall_forall. auto.
Qed.

(** The three ways to write a list of distinct offsets into the heap agree. *)
Lemma link_order M l1 o l2 c1 (Ho : o ∉ l1 ++ l2) :
  M !! (-1) = None -> o <> -1 -> NoDup (l1 ++ l2) ->
  setprev (hd_off l2 (-1)) o (<[o := c1]> (setnext (last_off (-1) l1) o M)) =
  setnext (last_off (-1) l1) o (setprev (hd_off l2 (-1)) o (<[o := c1]> M)).
Proof.
  intros HM Hon Hnd. unfold setnext, setprev.
  assert (last_off (-1) l1 <> o) as Hx.
  { destruct (decide (l1 = [])) as [->|Hl]; [done|]. pose proof (last_off_elem (-1) l1 Hl). set_solver. }
  rewrite <- alter_insert_ne by done.
  destruct (decide (l2 = [])) as [->|Hl2].
  { simpl. rewrite !(alter_absent _ (-1)); [done|..];
      repeat apply alter_still_absent; by rewrite lookup_insert_ne. }
  destruct (decide (l1 = [])) as [->|Hl1].
  { simpl. rewrite !(alter_absent _ (-1)); [done|..];
      repeat apply alter_still_absent; by rewrite lookup_insert_ne. }
  apply alter_comm. apply NoDup_app in Hnd as (_ & Hd & _).
  intros E. apply (Hd (last_off (-1) l1)); [by apply last_off_elem|].
  rewrite <- E. by apply hd_off_elem.
Qed.

Lemma lframe_eq L v w w' :
  lframe L v w -> v_heap w' = v_heap w -> v_idx w' = v_idx w -> v_eof w' = v_eof w ->
  v_version w' = v_version w -> firstRoot (v_hdr w') = firstRoot (v_hdr w) ->
  lastRoot (v_hdr w') = lastRoot (v_hdr w) -> lframe L v w'.
Proof. intros [] E1 E2 E3 E4 E5 E6. constructor; rewrite ?E1, ?E2, ?E3, ?E4, ?E5, ?E6; auto. Qed.

Lemma lframe_put L o c1 c2 v :
  o ∈ L -> c_pay c2 = c_pay c1 -> core (c_blk c2) = core (c_blk c1) ->
  lframe L (vput o c1 v) (vput o c2 v).
Proof.
  intros Ho Hp Hk. constructor; simpl; auto.
  - intros x Hx. rewrite !lookup_insert_ne; [done|set_solver..].
  - intros x c. rewrite !lookup_insert. case_decide; [|eauto]. intros [= <-]. eauto.
  - intros x. rewrite !lookup_insert. by case_decide.
Qed.

(** The heap after inserting [o] between [l1] and [l2]. *)
Definition linked_heap (b : HDBBlock) (c : Cell) (l1 : list Z) (o : Z) (l2 : list Z)
    (M : gmap Z Cell) : gmap Z Cell :=
  setnext (last_off (-1) l1) o (setprev (hd_off l2 (-1)) o
     (<[o := mkCell (seal (set_prevSib (last_off (-1) l1) (set_nextSib (hd_off l2 (-1))
        (set_isFree 1 b)))) (c_pay c)]> M)).

Lemma lframe_linked s v v' b c l1 o l2 :
  Rep s v -> o <> -1 -> v_heap v' = linked_heap b c l1 o l2 (v_heap v) ->
  v_idx v' = v_idx v -> v_eof v' = v_eof v -> v_version v' = v_version v ->
  firstRoot (v_hdr v') = firstRoot (v_hdr v) -> lastRoot (v_hdr v') = lastRoot (v_hdr v) ->
  lframe (o :: l1 ++ l2) (vput o (freed b c) v) v'.
Proof.
  intros H Hon EM E1 E2 E3 E4 E5. pose proof (Rep_neg _ _ H) as HN.
  pose (c2 := mkCell (seal (set_prevSib (last_off (-1) l1)
    (set_nextSib (hd_off l2 (-1)) (set_isFree 1 b)))) (c_pay c)).
  assert (core (c_blk c2) = core (c_blk (freed b c))) as Ek
    by (unfold c2, freed; cbn [c_blk]; rewrite !core_seal; reflexivity).
  apply (lframe_trans _ _ (vput o c2 v));
    [apply lframe_put; [by left|reflexivity|exact Ek]|].
  match goal with |- lframe _ ?w _ => set (w1 := w) end.
  assert (v_heap w1 !! (-1) = None) as HN1 by (simpl; by rewrite lookup_insert_ne).
  eapply lframe_trans;
    [apply (lframe_alter _ (mod_blk (set_prevSib o)) (hd_off l2 (-1))); [|done..]|].
  { destruct (decide (l2 = [])) as [->|Hl]; [by right|left].
    right. apply elem_of_app. right. by apply hd_off_elem. }
  match goal with |- lframe _ ?w _ => set (w2 := w) end.
  eapply lframe_eq;
    [apply (lframe_alter _ (mod_blk (set_nextSib o)) (last_off (-1) l1)); [|done..]|done..].
  destruct (decide (l1 = [])) as [->|Hl]; [right; by apply alter_still_absent|left].
  right. apply elem_of_app. left. by apply last_off_elem.
Qed.

(** Inserting block [b] at [o]. *)
Section Insert.
Context (v : View) (l : list Z) (o : Z) (c : Cell) (b : HDBBlock).
Context (Hfl : flist v l) (Ho : o ∉ l) (Hc : v_heap v !! o = Some c) (Hb : block_ok b).

Definition inserted s' : Prop := exists v' l1 l2, l = l1 ++ l2 /\
  Rep s' v' /\ flist v' (l1 ++ o :: l2) /\ lframe (o :: l) (vput o (freed b c) v) v'.

Lemma insert_off s : Rep s v -> 0 < o /\ is_s32 o /\ is_s32 (-1) /\ block_ok (set_isFree 1 b).
Proof.
  intros H. destruct (Rep_off _ _ _ _ H Hc) as [Hoff _]. split_and!; [lia|unfold is_s32; lia..|].
  destruct Hb; constructor; simpl; auto; lia.
Qed.

(** What remains once the final view is known. *)
Lemma insert_done s s' v' l1 l2 :
  Rep s v -> l = l1 ++ l2 -> Rep s' v' -> v_heap v' = linked_heap b c l1 o l2 (v_heap v) ->
  v_idx v' = v_idx v -> v_eof v' = v_eof v -> v_version v' = v_version v ->
  firstRoot (v_hdr v') = firstRoot (v_hdr v) -> lastRoot (v_hdr v') = lastRoot (v_hdr v) ->
  (forall x, x ∈ l1 -> size_of (v_heap v) x < bsize b) ->
  (forall y l2', l2 = y :: l2' -> bsize b <= size_of (v_heap v) y) ->
  firstFree (v_hdr v') = hd_off (l1 ++ o :: l2) (-1) -> inserted s'.
Proof.
  intros H El H' EM E1 E2 E3 E4 E5 Hlo Hhi Eh. destruct (insert_off s H) as (Hoff & _). exists v', l1, l2.
  rewrite El in *. assert (lframe (o :: l1 ++ l2) (vput o (freed b c) v) v')
    by (eapply (lframe_linked s); eauto; lia).
  split_and!; auto. eapply (flist_link_view s v v' l1 o l2 c b); auto; lia.
Qed.

Lemma insert_append s cx :
  Rep s v -> l <> [] -> dseg (v_heap v) (-1) l (-1) -> v_heap v !! last_off (-1) l = Some cx ->
  (forall x, x ∈ l -> size_of (v_heap v) x < bsize b) ->
  wp (_ ← writeBlock (set_nextSib o (c_blk cx)) (last_off (-1) l);
      _ ← writeBlock (set_nextSib (-1) (set_prevSib (last_off (-1) l) (set_isFree 1 b))) o;
      mret ()) (fun _ => inserted) s.
Proof.
  intros H Hl Hs Hcx Hlo. destruct (insert_off s H) as (Hoff & Ho32 & Hm1 & Hb1).
  wstep. eapply (wp_writeBlock_alter s v _ cx (set_nextSib o)); auto.
  { apply block_ok_next; [done|]. by eapply (Rep_ok s). }
  intros s2 H2 _. wstep.
  assert (last_off (-1) l <> o) as Hxo by (pose proof (last_off_elem (-1) l Hl); set_solver).
  eapply wp_writeBlock; [done|simpl; by rewrite lookup_alter_ne| |].
  { apply block_ok_next, block_ok_prev; try done. by eapply (dseg_last_s32 s). }
  intros s3 H3 _. wstep. eapply (insert_done s s3 _ l []); try done; [by rewrite app_nil_r|..].
  - unfold linked_heap. rewrite <- link_order; [|by rewrite app_nil_r|by eapply Rep_neg|lia|rewrite app_nil_r; apply Hfl]. simpl.
    unfold setprev. rewrite (alter_absent _ (-1)); [reflexivity|]. rewrite lookup_insert_ne by lia.
    apply alter_still_absent. by eapply Rep_neg.
  - simpl. rewrite (fl_head _ _ Hfl). by destruct l.
Qed.

(** The block before the new one, or the head of the list. *)
Definition relinked (l1 l2 : list Z) : View :=
  vheap (setnext (last_off (-1) l1) o (v_heap v))
    (vhdr (mk_offsets v (firstRoot (v_hdr v)) (lastRoot (v_hdr v)) (hd_off (l1 ++ o :: l2) (-1))) v).

Lemma insert_relink s l1 l2 :
  Rep s v -> l = l1 ++ l2 -> dseg (v_heap v) (-1) l1 (hd_off l2 (-1)) ->
  wp (if bool_decide (l1 = []) then setFirstFreeOffSet o
      else tblk ← readBlock (last_off (-1) l1); _ ← writeBlock (set_nextSib o tblk) (last_off (-1) l1); mret ())
    (fun _ s2 => Rep s2 (relinked l1 l2)) s.
Proof.
  intros H El Hs1. destruct (insert_off s H) as (Hoff & Ho32 & Hm1 & Hb1). destruct (decide (l1 = [])) as [->|Hl1].
  - rewrite bool_decide_true by done. eapply wp_setFirstFree; [done|done|]. intros s2 H2.
    unfold relinked, setnext. simpl. rewrite alter_absent by (by eapply Rep_neg). done.
  - rewrite bool_decide_false by done.
    destruct (dseg_lookup _ _ _ _ _ Hs1 (last_off_elem (-1) l1 Hl1)) as [cx Hcx].
    apply (wp_modBlock s v _ cx (set_nextSib o)); auto.
    { apply block_ok_next; [done|]. by eapply (Rep_ok s). }
    intros s2 H2. unfold relinked. replace (hd_off (l1 ++ o :: l2) (-1)) with (firstFree (v_hdr v));
      [|rewrite (fl_head _ _ Hfl), El; by destruct l1].
    by destruct v as [[] ? ? ? ?].
Qed.

Lemma relinked_other s l1 l2 x cx :
  Rep s v -> v_heap v !! x = Some cx -> x ∉ l1 -> v_heap (relinked l1 l2) !! x = Some cx.
Proof.
  intros H Hx Hn. simpl. unfold setnext. rewrite lookup_alter_ne; [done|]. destruct (Rep_off _ _ _ _ H Hx) as [Hoff _].
  destruct (decide (l1 = [])) as [->|Hl1]; [simpl; lia|]. intros <-. apply Hn. by apply last_off_elem.
Qed.

Lemma insert_before s l1 y l2 cy :
  Rep s v -> l = l1 ++ y :: l2 -> dseg (v_heap v) (-1) l1 y -> dseg (v_heap v) (last_off (-1) l1) (y :: l2) (-1) ->
  v_heap v !! y = Some cy -> (forall x, x ∈ l1 -> size_of (v_heap v) x < bsize b) -> bsize b <= bsize (c_blk cy) ->
  wp ((if bool_decide (l1 = []) then setFirstFreeOffSet o
       else tblk ← readBlock (last_off (-1) l1); _ ← writeBlock (set_nextSib o tblk) (last_off (-1) l1); mret ()) ;;
      _ ← writeBlock (set_prevSib (last_off (-1) l1) (set_nextSib y (set_isFree 1 b))) o;
      _ ← writeBlock (set_prevSib o (c_blk cy)) y;
      mret ()) (fun _ => inserted) s.
Proof.
  intros H El Hs1 Hs2 Hcy Hlo Hle. destruct (insert_off s H) as (Hoff & Ho32 & Hm1 & Hb1).
  pose proof (fl_nodup _ _ Hfl) as Hnd. pose proof Ho as Ho'. rewrite El in Hnd, Ho'. wstep. eapply wp_mono; [by apply (insert_relink s l1 (y :: l2))|]. intros [] s2 H2.
  assert (v_heap (relinked l1 (y :: l2)) !! o = Some c) as Hc1 by (eapply relinked_other; [done..|set_solver]).
  assert (v_heap (relinked l1 (y :: l2)) !! y = Some cy) as Hcy1.
  { eapply relinked_other; [done..|]. apply NoDup_app in Hnd as (_ & Hd & _). intros Hy. apply (Hd y Hy). left. }
  wstep. eapply wp_writeBlock; [done|done| |].
  { apply block_ok_prev, block_ok_next; try done; [by eapply (dseg_last_s32 s)|].
    by eapply (dseg_hd_s32 s v _ (y :: l2)). }
  intros s3 H3 _. wstep.
  eapply (wp_writeBlock_alter s3 _ _ cy (set_prevSib o)); [done| | |].
  { simpl. rewrite lookup_insert_ne; [done|]. set_solver. }
  { apply block_ok_prev; [done|]. by eapply (Rep_ok s). }
  intros s4 H4 _. wstep. eapply (insert_done s s4 _ l1 (y :: l2)); try done.
  - unfold linked_heap. rewrite <- link_order; [done|done|by eapply Rep_neg|lia|done].
  - intros y' l2' [= <- <-]. unfold size_of. by rewrite Hcy.
Qed.
End Insert.

(** [addBlockToFreeList] inserts the block before the first block that is not
   smaller; no other part of the file changes but the links of free blocks. *)
Lemma wp_addBlockToFreeList s v l o c b :
  Rep s v -> flist v l -> o ∉ l -> v_heap v !! o = Some c -> block_ok b ->
  wp (addBlockToFreeList b o) (fun _ s' => exists v' l1 l2, l = l1 ++ l2 /\
    Rep s' v' /\ flist v' (l1 ++ o :: l2) /\
    lframe (o :: l) (vput o (freed b c) v) v') s.
Proof.
  intros H Hfl Ho Hc Hb. change (wp (addBlockToFreeList b o) (fun _ => inserted v l o c b) s). pose proof (fl_seg _ _ Hfl) as Hseg.
  destruct (insert_off v o c b Hc Hb s H) as (Hoff & Ho32 & Hm1 & Hb1).
  unfold addBlockToFreeList. wstep. wstep. rewrite (rep_hdr _ _ H), (fl_head _ _ Hfl).
  rewrite (dseg_hd_neg s v _ _ _ H Hseg). destruct (decide (l = [])) as [->|Hl].
  - rewrite bool_decide_true by done. wstep. eapply wp_writeBlock; [done..| |].
    { by apply block_ok_prev, block_ok_next. }
    intros s1 H1 _. eapply wp_setFirstFree; [done|done|]. intros s2 H2.
    eapply (insert_done v [] o c b Hfl Ho Hc Hb s s2 _ [] []); try done; [|set_solver].
    unfold linked_heap, setnext, setprev. simpl.
    rewrite !(alter_absent _ (-1)); [done|..]; repeat apply alter_still_absent;
      (rewrite lookup_insert_ne; [by eapply Rep_neg|lia]).
  - rewrite bool_decide_false by done. wstep.
    eapply wp_mono; [eapply wp_insertPoint_loop; eauto; eapply dseg_fuel; eauto; apply Hfl|].
    intros [[co lo] cb] s1 [H1 (l1 & l2 & El & Hlo & Hco & Hm)]. cbn [fst snd] in *. subst co.
    pose proof Hseg as Hseg'. rewrite El in Hseg'. apply dseg_app in Hseg' as [Hs1 Hs2].
    rewrite (dseg_hd_neg s1 v _ _ _ H1 Hs2). destruct l2 as [|y l2].
    + rewrite bool_decide_true by done. destruct Hm as (-> & _ & Hm). rewrite app_nil_r in El. subst l1.
      destruct (Hm Hl) as (cx & Hcx & ->). rewrite (last_off_default 0 (-1)) in * by done. by apply insert_append.
    + rewrite bool_decide_false by done. destruct Hm as (cy & Hcy & -> & Hle).
      rewrite El in Hseg. destruct (dseg_at _ _ _ _ _ _ _ Hseg Hcy) as [Hpy _].
      rewrite Hpy, (dseg_last_neg s1 v _ _ _ H1 Hs1). by apply (insert_before v l o c b Hfl Ho Hc Hb s1 l1 y l2 cy).
Qed.
End Specs.
