(* ===== verification/HdbNode.v ===== *)
(** * HDBNode and HDBHandle: the tree of nodes

   Models src/src/repositories/hdb/OW_HDBNode.cpp and the [HDBHandle] class of
   OW_HDB.cpp.  An [HDBNode] is a reference to node data or NULL; methods that
   change [m_pdata] return the node as they leave it. *)

From S2P Require Import Prelude FileIO HdbCommon Index Hdb.

(** [m_bfr] is [None] when NULL; [m_bfrLen] is kept beside it as in the code. *)
Record HDBNodeData := mkNode {
  m_blk : HDBBlock;
  m_key : bytes;
  m_bfrLen : Z;
  m_bfr : option bytes;
  m_offset : Z;
  m_nversion : Z      (* "m_version" *)
}.

Abbreviation HDBNode := (option HDBNodeData).

Definition set_blk b n := mkNode b (m_key n) (m_bfrLen n) (m_bfr n) (m_offset n) (m_nversion n).
Definition set_bfr l d n := mkNode (m_blk n) (m_key n) l d (m_offset n) (m_nversion n).
Definition set_offset o n := mkNode (m_blk n) (m_key n) (m_bfrLen n) (m_bfr n) o (m_nversion n).
Definition set_nversion v n := mkNode (m_blk n) (m_key n) (m_bfrLen n) (m_bfr n) (m_offset n) v.

(** [HDBNode(const String& key, int dataLen, const unsigned char* data)]:
   [HDBNodeData()] zeroes the block first. *)
Definition newNode (key : bytes) (dataLen : Z) (data : option bytes) : HDBNode :=
  if bool_decide (key = []) then None
  else
    let '(dataLen, bfr) :=
      match data with
      | Some d => if dataLen =? 0 then (0, None) else (dataLen, Some (take (Z.to_nat dataLen) d))
      | None => (0, None)
      end in
    let klen := zlen key + 1 in
    Some (mkNode
      (mkBlk 0 0 0 0 0 (-1) (-1) (-1) (-1) (-1) (u32 klen) (u32 (klen + dataLen)))
      key dataLen bfr (-1) 0).

(** Member tests of OW_HDBNode.hpp on a non-null node. *)
Definition areAllFlagsOn (n : HDBNodeData) (f : Z) : bool := Z.land (flags (m_blk n)) f =? f.
Definition areSomeFlagsOn (n : HDBNodeData) (f : Z) : bool := negb (Z.land (flags (m_blk n)) f =? 0).
Definition hasParent (n : HDBNodeData) : bool := negb (parent (m_blk n) =? -1).
Definition hasNextSibling (n : HDBNodeData) : bool := negb (nextSib (m_blk n) =? -1).
Definition hasPreviousSibling (n : HDBNodeData) : bool := negb (prevSib (m_blk n) =? -1).
Definition hasChildren (n : HDBNodeData) : bool := negb (firstChild (m_blk n) =? -1).
Definition isRoot (n : HDBNodeData) : bool := negb (hasParent n).
Definition isSibling (n : HDBNodeData) : bool := hasNextSibling n || hasPreviousSibling n.

Section HDBNode.
Context {F : Type} {fo : FileOps F} {I : Type} {io : IndexOps I}.
Abbreviation Prog := (Prog (St F I)).

Definition getVersion : Prog Z := s ← get; mret (m_version (m_pdb s)).

(** ** Reading *)

Definition read (offset : Z) : Prog HDBNode :=
  if offset <=? 0 then throw "Invalid offset to read node from, db is most likely corrupt."
  else
    fblk ← readBlock offset;
    if negb (isFree fblk =? 0) then mret None
    else
      kbfr ← file_read (keyLength fblk) (-1);
      if negb (zlen kbfr =? keyLength fblk) then throw "Failed to read key for node"
      else
        let key := take (Z.to_nat (keyLength fblk - 1)) kbfr in
        let dataLen := s32 (u32 (dataLength fblk - keyLength fblk)) in
        bfr ← (if 0 <? dataLen then
                 bs ← file_read dataLen (-1);
                 if negb (zlen bs =? dataLen) then throw "Failed to data for node"
                 else mret (Some bs)
               else mret None);
        v ← getVersion;
        mret (Some (mkNode fblk key dataLen bfr offset v)).

(** [HDBNode(const char* key, HDBHandle& hdl)] *)
Definition nodeByKey (key : bytes) : Prog HDBNode :=
  ientry ← findIndexEntry key;
  if entry_valid ientry then read (ie_offset ientry) else mret None.

(** [HDBNode(Int32 offset, HDBHandle& hdl)] *)
Definition nodeByOffset (offset : Z) : Prog HDBNode :=
  if offset <=? 0 then mret None else read offset.

(** Bring the node up to date with the file; false when it is gone. *)
Definition reload (node : HDBNode) : Prog (bool * HDBNode) :=
  match node with
  | None => mret (false, None)
  | Some n =>
      if m_offset n <=? 0 then mret (true, Some n)
      else
        v ← getVersion;
        if v =? m_nversion n then mret (true, Some n)
        else
          r ← try_catch (b ← readBlock (m_offset n); mret (Some b)) (fun _ => mret None);
          match r with
          | None => mret (false, None)
          | Some fblk =>
              if negb (isFree fblk =? 0) then mret (false, None)
              else
                kbfr ← file_read (keyLength fblk) (-1);
                if negb (zlen kbfr =? keyLength fblk) then mret (false, Some n)
                else if negb (bool_decide (m_key n = cstr kbfr)) then mret (false, None)
                else
                  let dataLen := s32 (u32 (dataLength fblk - keyLength fblk)) in
                  let bfr0 := if dataLength fblk =? dataLength (m_blk n) then m_bfr n else None in
                  rd ← (if 0 <? dataLen then
                          bs ← file_read dataLen (-1);
                          mret (if zlen bs =? dataLen then Some (Some bs) else None)
                        else mret (Some bfr0));
                  match rd with
                  | None => mret (false, None)
                  | Some bfr =>
                      v ← getVersion;
                      mret (true, Some (mkNode fblk (m_key n) dataLen bfr (m_offset n) v))
                  end
          end
  end.

(** ** Moving a node to another block *)

(** Give every child of the list from [coffset] on the parent [offset]. *)
Fixpoint reparent_loop (fuel : nat) (coffset offset : Z) : Prog () :=
  if coffset <=? 0 then mret ()
  else match fuel with
  | O => diverge
  | S fuel =>
      fblk ← readBlock coffset;
      fblk ← writeBlock (set_parent offset fblk) coffset;
      reparent_loop fuel (nextSib fblk) offset
  end.

Definition updateOffsets (n : HDBNodeData) (offset : Z) : Prog HDBNodeData :=
  if offset <=? 0 then mret n
  else
    when (0 <? prevSib (m_blk n)) (
      fblk ← readBlock (prevSib (m_blk n));
      _ ← writeBlock (set_nextSib offset fblk) (prevSib (m_blk n));
      mret ()) ;;
    when (0 <? nextSib (m_blk n)) (
      fblk ← readBlock (nextSib (m_blk n));
      _ ← writeBlock (set_prevSib offset fblk) (nextSib (m_blk n));
      mret ()) ;;
    (if 0 <? parent (m_blk n) then
       fblk ← readBlock (parent (m_blk n));
       let first := firstChild fblk =? m_offset n in
       let fblk1 := if first then set_firstChild offset fblk else fblk in
       let last := lastChild fblk1 =? m_offset n in
       let fblk2 := if last then set_lastChild offset fblk1 else fblk1 in
       when (first || last) (_ ← writeBlock fblk2 (parent (m_blk n)); mret ())
     else
       s ← get;
       when (firstRoot (hdr s) =? m_offset n) (setFirstRootOffSet offset) ;;
       s ← get;
       when (lastRoot (hdr s) =? m_offset n) (setLastRootOffset offset)) ;;
    s ← get;
    reparent_loop (file_fuel s) (firstChild (m_blk n)) offset ;;
    _ ← updateIndexEntry (cstr (m_key n)) offset;
    mret (set_offset offset n).

(** ** Writing *)

Inductive EWriteHeaderFlag := E_WRITE_ALL | E_WRITE_ONLY_HEADER.

(** Returns the node as written; its offset is [m_offset]. *)
Definition write (node : HDBNode) (onlyHeader : EWriteHeaderFlag) : Prog HDBNodeData :=
  match node with
  | None => throw "Internal error: Cannot write null node"
  | Some n =>
      let klen := zlen (m_key n) + 1 in
      let blk := set_isFree 0 (set_dataLength (u32 (m_bfrLen n + klen))
                   (set_keyLength (u32 klen) (m_blk n))) in
      let totalSize := s32 (dataLength blk + sizeof_HDBBlock) in
      let n := set_blk blk n in
      '(newRecord, n) ←
        (if m_offset n <=? 0 then
           let n := set_blk (set_size (u32 totalSize) (m_blk n)) n in
           offset ← findBlock totalSize;
           let n := set_offset offset n in
           b ← (if parent (m_blk n) <=? 0 then addRootNode (m_blk n) offset
                else writeBlock (m_blk n) offset);
           let n := set_blk b n in
           ok ← addIndexEntry (cstr (m_key n)) (m_offset n);
           if negb ok then throw "Failed to write index entry" else mret (true, n)
         else
           n ← (if s32 (bsize (m_blk n)) <? totalSize then
                  addBlockToFreeList (m_blk n) (m_offset n) ;;
                  let n := set_blk (set_size (u32 totalSize) (m_blk n)) n in
                  offset ← findBlock totalSize;
                  updateOffsets n offset
                else mret n);
           b ← writeBlock (m_blk n) (m_offset n);
           mret (false, set_blk b n));
      (if (match onlyHeader with E_WRITE_ALL => true | E_WRITE_ONLY_HEADER => newRecord end) then
         c ← file_write (m_key n ++ [0]) (-1);
         if negb (c =? klen) then throw "Failed to write node key"
         else
           c ← file_write (take (Z.to_nat (m_bfrLen n)) (default [] (m_bfr n))) (-1);
           if negb (c =? m_bfrLen n) then throw "Failed to write node data" else mret ()
       else mret ()) ;;
      v ← registerWrite;
      mret (set_nversion v n)
  end.

Definition turnFlagsOn (node : HDBNode) (fl : Z) : Prog (bool * HDBNode) :=
  match node with
  | None => mret (false, None)
  | Some n =>
      let fl := Z.lor fl (flags (m_blk n)) in
      if fl =? flags (m_blk n) then mret (false, Some n)
      else
        let n := set_blk (set_flags fl (m_blk n)) n in
        n ← (if 0 <? m_offset n then write (Some n) E_WRITE_ALL else mret n);
        mret (true, Some n)
  end.

Definition turnFlagsOff (node : HDBNode) (fl : Z) : Prog (bool * HDBNode) :=
  match node with
  | None => mret (false, None)
  | Some n =>
      let fl := Z.land (flags (m_blk n)) (u32 (Z.lnot fl)) in
      if fl =? flags (m_blk n) then mret (false, Some n)
      else
        let n := set_blk (set_flags fl (m_blk n)) n in
        n ← (if 0 <? m_offset n then write (Some n) E_WRITE_ALL else mret n);
        mret (true, Some n)
  end.

(** ** Changing the parent *)

(** Take the node out of its list of siblings and its parent's (or the
   header's) ends of that list; common to [remove] and [detachFromParent]. *)
Definition unlinkSiblings (n : HDBNodeData) : Prog () :=
  when (0 <? nextSib (m_blk n)) (
    fblk ← readBlock (nextSib (m_blk n));
    _ ← writeBlock (set_prevSib (prevSib (m_blk n)) fblk) (nextSib (m_blk n));
    mret ()) ;;
  when (0 <? prevSib (m_blk n)) (
    fblk ← readBlock (prevSib (m_blk n));
    _ ← writeBlock (set_nextSib (nextSib (m_blk n)) fblk) (prevSib (m_blk n));
    mret ()) ;;
  if 0 <? parent (m_blk n) then
    fblk ← readBlock (parent (m_blk n));
    let first := firstChild fblk =? m_offset n in
    let fblk1 := if first then set_firstChild (nextSib (m_blk n)) fblk else fblk in
    let last := lastChild fblk1 =? m_offset n in
    let fblk2 := if last then set_lastChild (prevSib (m_blk n)) fblk1 else fblk1 in
    when (first || last) (_ ← writeBlock fblk2 (parent (m_blk n)); mret ())
  else
    s ← get;
    when (firstRoot (hdr s) =? m_offset n) (setFirstRootOffSet (nextSib (m_blk n))) ;;
    s ← get;
    when (lastRoot (hdr s) =? m_offset n) (setLastRootOffset (prevSib (m_blk n))).

Definition detachFromParent (n : HDBNodeData) : Prog HDBNodeData :=
  unlinkSiblings n ;;
  mret (set_blk (set_parent (-1) (set_nextSib (-1) (set_prevSib (-1) (m_blk n)))) n).

(** Returns the node and the new parent. *)
Definition addToNewParent (n p : HDBNodeData) : Prog (HDBNodeData * HDBNodeData) :=
  let n := set_blk (set_parent (m_offset p) (set_nextSib (-1)
             (set_prevSib (lastChild (m_blk p)) (m_blk n)))) n in
  when (0 <? lastChild (m_blk p)) (
    node ← readBlock (lastChild (m_blk p));
    _ ← writeBlock (set_nextSib (m_offset n) node) (lastChild (m_blk p));
    mret ()) ;;
  let p := set_blk (set_lastChild (m_offset n) (m_blk p)) p in
  let p := if firstChild (m_blk p) <=? 0
           then set_blk (set_firstChild (lastChild (m_blk p)) (m_blk p)) p else p in
  b ← writeBlock (m_blk n) (m_offset n);
  pb ← writeBlock (m_blk p) (m_offset p);
  mret (set_blk b n, set_blk pb p).

(** [mutableParentNode] shares its data with [parentNode]: the changed parent
   is returned.  The result of [reload] is not looked at, so a parent that has
   gone makes [addToNewParent] use a null pointer. *)
Definition updateParent (n p : HDBNodeData) : Prog (HDBNodeData * HDBNodeData) :=
  if parent (m_blk n) =? m_offset p then mret (n, p)
  else
    n ← detachFromParent n;
    '(_, p') ← reload (Some p);
    match p' with
    | None => crash
    | Some p => addToNewParent n p
    end.

Definition updateData (node parentNode : HDBNode) (dataLen : Z) (data : option bytes)
    : Prog (bool * HDBNode * HDBNode) :=
  match node with
  | None => mret (false, None, parentNode)
  | Some n =>
      '(ok, node) ← (if 0 <? m_offset n then reload (Some n) else mret (true, Some n));
      if negb ok then mret (false, node, parentNode)
      else match node with
      | None => crash
      | Some n =>
          let n := if dataLen =? m_bfrLen n then n else set_bfr 0 None n in
          let n := match data with
                   | Some d => if 0 <? dataLen
                               then set_bfr dataLen (Some (take (Z.to_nat dataLen) d)) n else n
                   | None => n
                   end in
          if 0 <? m_offset n then
            n ← write (Some n) E_WRITE_ALL;
            match parentNode with
            | None => mret (true, Some n, None)
            | Some p => '(n, p) ← updateParent n p; mret (true, Some n, Some p)
            end
          else mret (true, Some n, parentNode)
      end
  end.

(** ** Children *)

(** [HDBNode::addChild]; returns the parent and the child. *)
Definition node_addChild (p : HDBNodeData) (child : HDBNode) : Prog (HDBNodeData * HDBNode) :=
  match child with
  | None => mret (p, None)
  | Some c =>
      p ← (if m_offset p <=? 0 then write (Some p) E_WRITE_ALL else mret p);
      if 0 <? m_offset c then
        if parent (m_blk c) =? m_offset p then
          c ← write (Some c) E_WRITE_ALL; mret (p, Some c)
        else throw "Child node already has a parent. db may be corrupt"
      else
        let c := set_blk (set_parent (m_offset p) (set_nextSib (-1)
                   (set_prevSib (lastChild (m_blk p)) (m_blk c)))) c in
        c ← write (Some c) E_WRITE_ALL;
        let newNodeOffset := m_offset c in
        when (0 <? lastChild (m_blk p)) (
          node ← readBlock (lastChild (m_blk p));
          _ ← writeBlock (set_nextSib newNodeOffset node) (lastChild (m_blk p));
          mret ()) ;;
        let p := set_blk (set_lastChild (m_offset c) (m_blk p)) p in
        let p := if firstChild (m_blk p) <=? 0
                 then set_blk (set_firstChild (lastChild (m_blk p)) (m_blk p)) p else p in
        p ← write (Some p) E_WRITE_ALL;
        mret (p, Some c)
  end.

(** ** Removal *)

(** Apply [rb] to the blocks from [coffset] back along [prevSib]. *)
Fixpoint children_loop (rb : HDBBlock -> Z -> Prog ()) (fuel : nat) (coffset : Z) : Prog () :=
  if coffset <=? 0 then mret ()
  else match fuel with
  | O => diverge
  | S fuel =>
      fblk ← readBlock coffset;
      rb fblk coffset ;;
      children_loop rb fuel (prevSib fblk)
  end.

(** Free a block and, first, all blocks below it. *)
Fixpoint removeBlock (fuel : nat) (fblk : HDBBlock) (offset : Z) : Prog () :=
  match fuel with
  | O => diverge
  | S fuel =>
      children_loop (removeBlock fuel) fuel (lastChild fblk) ;;
      kbfr ← file_read (keyLength fblk) (offset + sizeof_HDBBlock);
      if negb (zlen kbfr =? keyLength fblk) then throw "Failed to read node's key for removal"
      else
        _ ← removeIndexEntry (cstr kbfr);
        addBlockToFreeList fblk offset
  end.

(** [HDBNode::remove] *)
Definition remove (n : HDBNodeData) : Prog (bool * HDBNodeData) :=
  if m_offset n <=? 0 then mret (false, n)
  else
    s ← get;
    children_loop (removeBlock (file_fuel s)) (file_fuel s) (lastChild (m_blk n)) ;;
    unlinkSiblings n ;;
    addBlockToFreeList (m_blk n) (m_offset n) ;;
    _ ← removeIndexEntry (cstr (m_key n));
    let blk := set_size 0 (set_nextSib (-1) (set_prevSib (-1) (set_lastChild (-1)
                 (set_firstChild (-1) (set_parent (-1) (set_isFree 1 (m_blk n))))))) in
    _ ← registerWrite;
    mret (true, set_blk blk (set_offset (-1) n)).

(** ** HDBHandle *)

Definition getFirstRoot : Prog HDBNode :=
  s ← get;
  if 0 <? firstRoot (hdr s) then nodeByOffset (firstRoot (hdr s)) else mret None.

Definition getNode (key : bytes) : Prog HDBNode :=
  if bool_decide (key = []) then mret None else nodeByKey (cstr key).

(** [getParent], [getFirstChild], ...: reload the node and follow one of its
   offsets.  Returns the neighbour and the reloaded node. *)
Definition follow (field : HDBBlock -> Z) (node : HDBNode) : Prog (HDBNode * HDBNode) :=
  match node with
  | None => mret (None, None)
  | Some _ =>
      '(ok, node) ← reload node;
      match ok, node with
      | true, Some n =>
          if 0 <? field (m_blk n) then
            r ← nodeByOffset (field (m_blk n)); mret (r, node)
          else mret (None, node)
      | _, _ => mret (None, node)
      end
  end.

Definition getParent : HDBNode -> Prog (HDBNode * HDBNode) := follow parent.
Definition getFirstChild : HDBNode -> Prog (HDBNode * HDBNode) := follow firstChild.
Definition getLastChild : HDBNode -> Prog (HDBNode * HDBNode) := follow lastChild.
Definition getNextSibling : HDBNode -> Prog (HDBNode * HDBNode) := follow nextSib.
Definition getPrevSibling : HDBNode -> Prog (HDBNode * HDBNode) := follow prevSib.

(** [HDBHandle::addRootNode] *)
Definition handle_addRootNode (node : HDBNode) : Prog (bool * HDBNode) :=
  match node with
  | None => mret (false, None)
  | Some n =>
      if 0 <? m_offset n then throw "node is already on file"
      else
        e ← findIndexEntry (cstr (m_key n));
        if entry_valid e then throw "key for node is already in index"
        else n ← write (Some n) E_WRITE_ALL; mret (true, Some n)
  end.

(** [HDBHandle::addChild(HDBNode&, HDBNode&)] *)
Definition handle_addChild (parentNode childNode : HDBNode) : Prog (bool * HDBNode * HDBNode) :=
  match parentNode, childNode with
  | Some p, Some c =>
      if 0 <? m_offset c then throw "child node already has a parent"
      else if m_offset p <=? 0 then throw "parent node is not on file"
      else
        e ← findIndexEntry (cstr (m_key c));
        if entry_valid e then throw "key for node is already in index"
        else
          '(ok, p') ← reload (Some p);
          match ok, p' with
          | true, Some p => '(p, c) ← node_addChild p (Some c); mret (true, Some p, c)
          | _, _ => mret (false, p', Some c)
          end
  | _, _ => mret (false, parentNode, childNode)
  end.

(** [HDBHandle::addChild(const String&, HDBNode&)] *)
Definition handle_addChildKey (parentKey : bytes) (childNode : HDBNode) : Prog (bool * HDBNode) :=
  if bool_decide (parentKey = []) then mret (false, childNode)
  else
    pnode ← nodeByKey (cstr parentKey);
    match pnode with
    | Some _ => '(r, _, c) ← handle_addChild pnode childNode; mret (r, c)
    | None => mret (false, childNode)
    end.

(** [HDBHandle::removeNode(HDBNode&)] *)
Definition removeNode (node : HDBNode) : Prog (bool * HDBNode) :=
  match node with
  | None => mret (false, None)
  | Some n =>
      if 0 <? m_offset n then
        '(ok, node) ← reload node;
        match ok, node with
        | true, Some n => '(_, n) ← remove n; mret (true, Some n)
        | _, _ => mret (false, node)
        end
      else mret (false, node)
  end.

(** [HDBHandle::removeNode(const String&)] *)
Definition removeNodeKey (key : bytes) : Prog bool :=
  if bool_decide (key = []) then mret false
  else
    node ← nodeByKey (cstr key);
    match node with
    | Some n => _ ← remove n; mret true
    | None => mret true
    end.

(** [HDBHandle::updateNode] *)
Definition updateNode (node parentNode : HDBNode) (dataLen : Z) (data : option bytes)
    : Prog (bool * HDBNode * HDBNode) :=
  match node with
  | None => mret (false, None, parentNode)
  | Some n =>
      if 0 <? m_offset n then
        '(ok, node) ← reload node;
        if ok : bool then updateData node parentNode dataLen data
        else mret (false, node, parentNode)
      else updateData node parentNode dataLen data
  end.

(** [HDBHandle::turnFlagsOn] and [turnFlagsOff], given the node's method. *)
Definition handle_turnFlags (op : HDBNode -> Z -> Prog (bool * HDBNode)) (node : HDBNode) (fl : Z)
    : Prog HDBNode :=
  match node with
  | None => mret None
  | Some n =>
      if 0 <? m_offset n then
        '(ok, node) ← reload node;
        if ok : bool then '(_, node) ← op node fl; mret node else mret node
      else '(_, node) ← op node fl; mret node
  end.

Definition handle_turnFlagsOn : HDBNode -> Z -> Prog HDBNode := handle_turnFlags turnFlagsOn.
Definition handle_turnFlagsOff : HDBNode -> Z -> Prog HDBNode := handle_turnFlags turnFlagsOff.
End HDBNode.
