(* ===== verification/HdbInv.v ===== *)
(** * The abstract database and its representation invariant

   The database promised to its users is a forest of keyed nodes.  [Abs] is
   that forest (nodes by offset, the ordered children of every node, the roots
   as the children of -1) with the free blocks; [Inv] relates it to the blocks
   of the file.  [Node_read] is what an up-to-date [HDBNode] holds. *)

From S2P Require Import Prelude FileIO HdbCommon Index Hdb HdbHeap Dll FreeList HdbNode.

(** ** The abstract database *)

Record ANode := mkANode { a_key : bytes; a_data : bytes; a_parent : Z; a_flags : Z }.

Record Abs := mkAbs {
  nodes : gmap Z ANode;
  lists : gmap Z (list Z);   (* children of a node; of -1: the root nodes *)
  frees : list Z
}.

(** A key as the code stores it: a non-empty C string. *)
Definition key_ok (k : bytes) : Prop := k <> [] /\ Forall (fun b => b <> 0) k.

(** ** Representation of one node *)

(** The bytes behind the block: key, NUL, data. *)
Definition pay_ok (k d : bytes) (pay : bytes) : Prop := exists rest, pay = k ++ [0] ++ d ++ rest.

Record cell_ok (a : ANode) (l : list Z) (c : Cell) : Prop := {
  ck_free : isFree (c_blk c) = 0;
  ck_parent : parent (c_blk c) = a_parent a;
  ck_flags : flags (c_blk c) = a_flags a;
  ck_first : firstChild (c_blk c) = hd_off l (-1);
  ck_last : lastChild (c_blk c) = last_off (-1) l;
  ck_keyLength : keyLength (c_blk c) = zlen (a_key a) + 1;
  ck_dataLength : dataLength (c_blk c) = zlen (a_key a) + 1 + zlen (a_data a);
  ck_size : 44 + dataLength (c_blk c) <= bsize (c_blk c) <= 44 + zlen (c_pay c);
  ck_pay : pay_ok (a_key a) (a_data a) (c_pay c);
  ck_key : key_ok (a_key a)
}.

Record Inv (v : View) (A : Abs) : Prop := {
  inv_free : flist v (frees A);
  inv_freecell : forall o c, o ∈ frees A -> v_heap v !! o = Some c ->
    bsize (c_blk c) <= 44 + zlen (c_pay c);
  inv_disj : forall o a, nodes A !! o = Some a -> o ∉ frees A;
  inv_node : forall o a, nodes A !! o = Some a ->
    exists l c, lists A !! o = Some l /\ v_heap v !! o = Some c /\ cell_ok a l c;
  inv_list : forall p l, lists A !! p = Some l ->
    (p = -1 \/ is_Some (nodes A !! p)) /\ NoDup l /\ dseg (v_heap v) (-1) l (-1) /\
    forall k, k ∈ l -> exists a, nodes A !! k = Some a /\ a_parent a = p;
  inv_up : forall o a, nodes A !! o = Some a ->
    exists l, lists A !! a_parent a = Some l /\ o ∈ l;
  inv_roots : exists l, lists A !! (-1) = Some l /\
    firstRoot (v_hdr v) = hd_off l (-1) /\ lastRoot (v_hdr v) = last_off (-1) l;
  inv_idx : forall k o, v_idx v !! k = Some o <-> exists a, nodes A !! o = Some a /\ a_key a = k;
  inv_acyc : exists rank : Z -> nat, forall o a, nodes A !! o = Some a -> a_parent a <> -1 ->
    (rank o < rank (a_parent a))%nat
}.

(** ** What an up-to-date node object holds *)

Definition bfr_of (d : bytes) : option bytes := if bool_decide (d = []) then None else Some d.

Record Node_read (v : View) (o : Z) (a : ANode) (c : Cell) (n : HDBNodeData) : Prop := {
  nr_blk : m_blk n = c_blk c;
  nr_key : m_key n = a_key a;
  nr_len : m_bfrLen n = zlen (a_data a);
  nr_bfr : m_bfr n = bfr_of (a_data a);
  nr_offset : m_offset n = o;
  nr_version : m_nversion n = v_version v
}.

(** ** Small facts *)

Lemma cstr_key k rest : Forall (fun b => b <> 0) k -> cstr (k ++ 0 :: rest) = k.
Proof.
  induction 1 as [|b k Hb _ IH]; [done|]. simpl. destruct (Z.eqb_spec b 0); [done|]. by rewrite IH.
Qed.

Lemma cstr_id k : Forall (fun b => b <> 0) k -> cstr k = k.
Proof.
  induction 1 as [|b k Hb _ IH]; [done|]. simpl. destruct (Z.eqb_spec b 0); [done|]. by rewrite IH.
Qed.

Lemma take_key (k : bytes) x : take (Z.to_nat (zlen k + 1 - 1)) (k ++ [x]) = k.
Proof. replace (Z.to_nat (zlen k + 1 - 1)) with (length k) by (unfold zlen; lia). apply take_app_length. Qed.

Lemma bfr_of_default d : default [] (bfr_of d) = d.
Proof. unfold bfr_of. by case_bool_decide; subst. Qed.

Section Facts.
Context {F : Type} {fo : FileOps F} {fl : FileLaws F}.
Context {I : Type} {io : IndexOps I} {il : IndexLaws I}.
Implicit Types (s : St F I) (v : View) (A : Abs).

Lemma Inv_node s v A o a : Rep s v -> Inv v A -> nodes A !! o = Some a ->
  exists l c, lists A !! o = Some l /\ v_heap v !! o = Some c /\ cell_ok a l c /\
    32 <= o < 2147483648 /\ block_ok (c_blk c).
Proof.
  intros H HI Ha. destruct (inv_node _ _ HI o a Ha) as (l & c & Hl & Hc & Hck).
  exists l, c. destruct (Rep_off _ _ _ _ H Hc). auto.
Qed.

(** The members of a list of children, as nodes. *)
Lemma Inv_in_list v A p l k : Inv v A -> lists A !! p = Some l -> k ∈ l ->
  exists a, nodes A !! k = Some a /\ a_parent a = p.
Proof. intros HI Hl Hk. destruct (inv_list _ _ HI p l Hl) as (_ & _ & _ & H). auto. Qed.

Lemma Inv_lists_disj v A p q lp lq k : Inv v A -> lists A !! p = Some lp -> lists A !! q = Some lq ->
  k ∈ lp -> k ∈ lq -> p = q.
Proof.
  intros HI Hp Hq H1 H2. destruct (Inv_in_list _ _ _ _ _ HI Hp H1) as (a & Ha & <-).
  destruct (Inv_in_list _ _ _ _ _ HI Hq H2) as (a' & Ha' & <-). congruence.
Qed.

(** ** File access behind a block *)

Lemma wp_file_read s v n o Q :
  Rep s v -> 0 <= n -> 0 <= (if o =? -1 then pos s else o) ->
  (forall s', Rep s' v -> pos s' = (if o =? -1 then pos s else o) +
      zlen (sub (content s) (if o =? -1 then pos s else o) n) ->
      content s' = content s ->
      Q (sub (content s) (if o =? -1 then pos s else o) n) s') ->
  wp (file_read n o) Q s.
Proof.
  intros H Hn Ho HQ. unfold wp, file_read. destruct (f_read n o (m_file s)) as [bs f'] eqn:E.
  apply f_read_law in E as (-> & Ec & Ep); [|done|done].
  apply HQ; [|done|done]. destruct H. constructor; unfold content, hdr in *; simpl; rewrite ?Ec; auto.
Qed.

Lemma heap_sub_pay cont h M o c k n :
  heap cont h M -> M !! o = Some c -> 0 <= k -> 0 <= n -> k + n <= zlen (c_pay c) ->
  sub cont (o + 44 + k) n = sub (c_pay c) k n.
Proof.
  intros H Hc Hk Hn Hkn. rewrite <- (heap_pay _ _ _ H o c Hc) at 1.
  pose proof (heap_lo _ _ _ H o c Hc). by rewrite sub_sub by lia.
Qed.

Lemma pay_key k d pay : pay_ok k d pay -> sub pay 0 (zlen k + 1) = k ++ [0].
Proof.
  intros [rest ->]. rewrite app_assoc. rewrite sub_app_l by (rewrite ?zlen_app, ?zlen_cons, ?zlen_nil; lia).
  replace (zlen k + 1) with (zlen (k ++ [0])) by (rewrite zlen_app, zlen_cons, zlen_nil; lia).
  apply sub_all.
Qed.

Lemma pay_data k d pay : pay_ok k d pay -> sub pay (zlen k + 1) (zlen d) = d.
Proof.
  intros [rest ->]. rewrite app_assoc. rewrite sub_app_r by (rewrite zlen_app, zlen_cons, zlen_nil; lia).
  replace (zlen k + 1 - zlen (k ++ [0])) with 0 by (rewrite zlen_app, zlen_cons, zlen_nil; lia).
  rewrite sub_app_l by lia. apply sub_all.
Qed.

Lemma pay_len k d pay : pay_ok k d pay -> zlen k + 1 + zlen d <= zlen pay.
Proof.
  intros [rest ->]. rewrite !zlen_app, zlen_cons, zlen_nil. pose proof (zlen_nonneg rest). lia.
Qed.

(** The data length as the code computes it from the two stored lengths. *)
Lemma dataLen_eq a l c : block_ok (c_blk c) -> cell_ok a l c -> zlen (c_pay c) < 2147483648 ->
  s32 (u32 (dataLength (c_blk c) - keyLength (c_blk c))) = zlen (a_data a).
Proof.
  intros Hok Hck Hp. rewrite (ck_dataLength _ _ _ Hck), (ck_keyLength _ _ _ Hck).
  pose proof (pay_len _ _ _ (ck_pay _ _ _ Hck)). pose proof (zlen_nonneg (a_data a)).
  pose proof (zlen_nonneg (a_key a)). rewrite u32_id, s32_id by lia. lia.
Qed.

Lemma Rep_pay_small s v o c : Rep s v -> v_heap v !! o = Some c -> zlen (c_pay c) < 2147483648.
Proof.
  intros H Hc. pose proof (heap_hi _ _ _ (rep_heap _ _ H) o c Hc).
  pose proof (heap_lo _ _ _ (rep_heap _ _ H) o c Hc).
  pose proof (heap_len _ _ _ (rep_heap _ _ H)). unfold c_end in *. lia.
Qed.

Lemma wp_getVersion s v Q : Rep s v -> Q (v_version v) s -> wp getVersion Q s.
Proof. intros H HQ. unfold getVersion. wstep. wstep. wstep. by rewrite (rep_version _ _ H). Qed.

(** ** Reading a node *)

Lemma wp_read_key s v o a l c Q :
  Rep s v -> v_heap v !! o = Some c -> cell_ok a l c -> pos s = o + 44 ->
  (forall s', Rep s' v -> pos s' = o + 44 + (zlen (a_key a) + 1) -> Q (a_key a ++ [0]) s') ->
  wp (file_read (keyLength (c_blk c)) (-1)) Q s.
Proof.
  intros H Hc Hck Hp HQ. pose proof (heap_lo _ _ _ (rep_heap _ _ H) o c Hc).
  pose proof (ck_keyLength _ _ _ Hck) as Hkl. pose proof (ck_pay _ _ _ Hck) as Hpay.
  pose proof (pay_len _ _ _ Hpay). pose proof (zlen_nonneg (a_key a)). pose proof (zlen_nonneg (a_data a)).
  assert (sub (content s) (o + 44) (keyLength (c_blk c)) = a_key a ++ [0]) as Ek.
  { replace (o + 44) with (o + 44 + 0) by lia.
    rewrite (heap_sub_pay _ _ _ _ _ 0 _ (rep_heap _ _ H) Hc) by lia.
    rewrite Hkl. by eapply pay_key. }
  eapply wp_file_read; [done|lia|simpl; lia|]. change (-1 =? -1) with true. cbv iota.
  rewrite Hp, Ek. intros s1 Hs1 Hp1 _. apply HQ; [done|]. rewrite Hp1. len.
Qed.

Lemma wp_read_data s v o a l c Q :
  Rep s v -> v_heap v !! o = Some c -> cell_ok a l c ->
  pos s = o + 44 + (zlen (a_key a) + 1) ->
  (forall s', Rep s' v -> Q (a_data a) s') ->
  wp (file_read (zlen (a_data a)) (-1)) Q s.
Proof.
  intros H Hc Hck Hp HQ. pose proof (heap_lo _ _ _ (rep_heap _ _ H) o c Hc).
  pose proof (ck_pay _ _ _ Hck) as Hpay. pose proof (pay_len _ _ _ Hpay).
  pose proof (zlen_nonneg (a_key a)). pose proof (zlen_nonneg (a_data a)).
  eapply wp_file_read; [done|lia|simpl; lia|]. change (-1 =? -1) with true. cbv iota.
  rewrite Hp, (heap_sub_pay _ _ _ _ _ (zlen (a_key a) + 1) _ (rep_heap _ _ H) Hc) by lia.
  rewrite (pay_data _ _ _ Hpay). intros s1 Hs1 _ _. by apply HQ.
Qed.

Lemma zlen_pos_bfr (d : bytes) : (0 <? zlen d) = negb (bool_decide (d = [])).
Proof.
  destruct d as [|x d]; [done|]. rewrite bool_decide_false, zlen_cons by done.
  pose proof (zlen_nonneg d). simpl. apply Z.ltb_lt. lia.
Qed.

Lemma wp_read s v A o a c Q :
  Rep s v -> Inv v A -> nodes A !! o = Some a -> v_heap v !! o = Some c ->
  (forall s' n, Rep s' v -> Node_read v o a c n -> Q (Some n) s') ->
  wp (read o) Q s.
Proof.
  intros H HI Ha Hc HQ. destruct (Inv_node _ _ _ _ _ H HI Ha) as (l & c' & Hl & Hc' & Hck & Ho & Hok).
  simplify_eq. unfold read. ztest. wstep. eapply wp_readBlock; [done..|]. intros s1 H1 Hp1.
  rewrite (ck_free _ _ _ Hck). change (negb (0 =? 0)) with false. cbv iota.
  wstep. eapply wp_read_key; [done..|]. intros s2 H2 Hp2.
  rewrite (ck_keyLength _ _ _ Hck) at 1.
  replace (zlen (a_key a ++ [0])) with (zlen (a_key a) + 1) by len. rewrite Z.eqb_refl. cbn [negb].
  rewrite (dataLen_eq a l c Hok Hck (Rep_pay_small _ _ _ _ H Hc)).
  rewrite (ck_keyLength _ _ _ Hck), take_key. rewrite zlen_pos_bfr.
  assert (forall s', Rep s' v -> wp (v0 ← getVersion;
    mret (Some (mkNode (c_blk c) (a_key a) (zlen (a_data a)) (bfr_of (a_data a)) o v0))) Q s') as Hend.
  { intros s' H'. wstep. eapply wp_getVersion; [done|]. wstep. by apply HQ. }
  unfold bfr_of in Hend. destruct (decide (a_data a = [])) as [E|E].
  - rewrite bool_decide_true in * by done. cbn [negb]. wstep. wstep. by apply Hend.
  - rewrite bool_decide_false in * by done. cbn [negb]. wstep. wstep.
    eapply wp_read_data; [done..|]. intros s3 H3. rewrite Z.eqb_refl. cbn [negb]. wstep. by apply Hend.
Qed.

(** A node object is consistent when it was up to date at some point for the
   node that is still at its offset: same key, known offset. *)
Record Node_old (o : Z) (a : ANode) (n : HDBNodeData) : Prop := {
  no_key : m_key n = a_key a;
  no_offset : m_offset n = o;
  no_bfr : dataLength (m_blk n) = zlen (a_key a) + 1 -> m_bfr n = None
}.

Lemma Node_read_old v A o a l c n : Inv v A -> cell_ok a l c -> Node_read v o a c n -> Node_old o a n.
Proof.
  intros HI Hck []. constructor; auto. rewrite nr_blk0, (ck_dataLength _ _ _ Hck). intros E.
  rewrite nr_bfr0. unfold bfr_of. rewrite bool_decide_true; [done|].
  destruct (a_data a) as [|x d] eqn:Ed; [done|]. rewrite zlen_cons in E. pose proof (zlen_nonneg d). lia.
Qed.

(** [reload] brings a node object up to date, whatever it held before: either
   its version says that nothing was written since, and it is up to date, or
   everything is read again. *)
Lemma wp_reload s v A o a c n Q :
  Rep s v -> Inv v A -> nodes A !! o = Some a -> v_heap v !! o = Some c ->
  Node_old o a n -> (m_nversion n = v_version v -> Node_read v o a c n) ->
  (forall s' n', Rep s' v -> Node_read v o a c n' -> Q (true, Some n') s') ->
  wp (reload (Some n)) Q s.
Proof.
  intros H HI Ha Hc Hold Hver HQ.
  destruct (Inv_node _ _ _ _ _ H HI Ha) as (l & c' & Hl & Hc' & Hck & Ho & Hok). simplify_eq.
  unfold reload. rewrite (no_offset _ _ _ Hold). ztest. wstep. eapply wp_getVersion; [done|].
  destruct (v_version v =? m_nversion n) eqn:Ev; zbool.
  { wstep. apply HQ; auto. }
  wstep. apply wp_try. wstep. eapply wp_readBlock; [done..|]. intros s1 H1 Hp1. wstep. cbv beta.
  rewrite (ck_free _ _ _ Hck). change (negb (0 =? 0)) with false. cbv iota.
  wstep. eapply wp_read_key; [done..|]. intros s2 H2 Hp2.
  rewrite (ck_keyLength _ _ _ Hck) at 1.
  replace (zlen (a_key a ++ [0])) with (zlen (a_key a) + 1) by len. rewrite Z.eqb_refl. cbn [negb].
  rewrite (no_key _ _ _ Hold), cstr_key by apply (ck_key _ _ _ Hck).
  rewrite bool_decide_true by done. cbn [negb].
  rewrite (dataLen_eq a l c Hok Hck (Rep_pay_small _ _ _ _ H Hc)), zlen_pos_bfr.
  assert (forall s', Rep s' v -> wp (v0 ← getVersion;
    mret (true, Some (mkNode (c_blk c) (a_key a) (zlen (a_data a)) (bfr_of (a_data a)) o v0))) Q s') as Hend.
  { intros s' H'. wstep. eapply wp_getVersion; [done|]. wstep. by apply HQ. }
  unfold bfr_of in Hend. destruct (decide (a_data a = [])) as [E|E].
  - rewrite bool_decide_true in * by done. cbn [negb]. wstep. wstep. cbv beta iota.
    replace (if dataLength (c_blk c) =? dataLength (m_blk n) then m_bfr n else None) with (@None bytes);
      [by apply Hend|].
    destruct (dataLength (c_blk c) =? dataLength (m_blk n)) eqn:Ed; [|done]. zbool.
    symmetry. apply (no_bfr _ _ _ Hold). rewrite <- Ed, (ck_dataLength _ _ _ Hck), E, zlen_nil. lia.
  - rewrite bool_decide_false in * by done. cbn [negb]. wstep. wstep.
    eapply wp_read_data; [done..|]. intros s3 H3. rewrite Z.eqb_refl. wstep. cbv beta iota. by apply Hend.
Qed.
End Facts.
