(* ===== verification/HdbTree.v ===== *)
(** * Writing nodes: slots, payloads and new cells *)

From S2P Require Import Prelude FileIO HdbCommon Index Hdb HdbHeap Dll FreeList HdbNode HdbInv.

(** ** Slices again *)

Lemma lookup_sub {A} (l : list A) o n i :
  sub l o n !! i = if decide (i < Z.to_nat n)%nat then l !! (Z.to_nat o + i)%nat else None.
Proof.
  unfold sub. case_decide; [by rewrite lookup_take_lt, lookup_drop|by rewrite lookup_take_ge by lia].
Qed.

(** Overwriting inside a slice, or over its end. *)
Lemma sub_splice_in {A} (l xs p : list A) a k m :
  0 <= a -> 0 <= k <= zlen p -> a + zlen p <= zlen l -> sub l a (zlen p) = p ->
  m = Z.max (zlen p) (k + zlen xs) ->
  (k + zlen xs <= zlen p \/ a + zlen p = zlen l) ->
  sub (splice l (a + k) xs) a m = splice p k xs.
Proof.
  intros Ha Hk Hl Hp -> Hfit. apply list_eq. intros i. rewrite lookup_sub.
  rewrite !lookup_splice by lia.
  assert (forall j, (j < length p)%nat -> l !! (Z.to_nat a + j)%nat = p !! j) as Hin.
  { intros j Hj. rewrite <- Hp at 1. rewrite lookup_sub.
    rewrite decide_True by (unfold zlen; lia). done. }
  unfold zlen in *. repeat case_decide; try lia.
  - f_equal. lia.
  - apply Hin. lia.
  - symmetry. apply lookup_ge_None. lia.
Qed.

(** ** Heap updates behind a block *)

Lemma heap_write_payload cont h M o c k bs :
  heap cont h M -> M !! o = Some c -> 0 <= k <= zlen (c_pay c) ->
  (k + zlen bs <= zlen (c_pay c) \/ c_end o c = zlen cont) ->
  o + 44 + k + zlen bs < 2147483648 ->
  heap (splice cont (o + 44 + k) bs) h (<[o := mkCell (c_blk c) (splice (c_pay c) k bs)]> M).
Proof.
  intros H Hc Hk Hfit Hsm. pose proof (heap_lo _ _ _ H o c Hc) as Hlo.
  pose proof (heap_hi _ _ _ H o c Hc) as Hhi. pose proof (heap_len _ _ _ H) as Hlen.
  pose proof (zlen_nonneg bs). unfold c_end in *.
  assert (zlen (splice (c_pay c) k bs) = Z.max (zlen (c_pay c)) (k + zlen bs)) as Hpl
    by (rewrite zlen_splice; lia).
  assert (zlen (splice cont (o + 44 + k) bs) = Z.max (zlen cont) (o + 44 + k + zlen bs)) as Hcl
    by (rewrite zlen_splice; lia).
  assert (forall o' n, 0 <= o' -> 0 <= n -> o' + n <= o + 44 + k \/ o + 44 + k + zlen bs <= o' ->
    sub (splice cont (o + 44 + k) bs) o' n = sub cont o' n) as Hfar.
  { intros. apply sub_splice_ne; lia. }
  assert (forall o' c', M !! o' = Some c' -> o <> o' ->
    (o' + 44 + zlen (c_pay c') <= o \/ o + 44 + k + zlen bs <= o') /\
    (c_end o' c' <= o \/ o + 44 + zlen (splice (c_pay c) k bs) <= o')) as Hdj.
  { intros o' c' Hc' Hne. pose proof (heap_disj _ _ _ H o c o' c' Hc Hc' Hne) as Hd.
    pose proof (heap_hi _ _ _ H o' c' Hc'). unfold c_end in *. pose proof (zlen_nonneg (c_pay c')).
    rewrite Hpl. lia. }
  constructor; try apply H; rewrite ?Hcl; try lia.
  - rewrite Hfar by lia. apply H.
  - intros o' c' [[<- <-]|[Hne Hc']]%lookup_insert_Some; [done|by eapply heap_lo].
  - intros o' c' [[<- <-]|[Hne Hc']]%lookup_insert_Some; unfold c_end; simpl; [lia|].
    pose proof (heap_hi _ _ _ H o' c' Hc'). unfold c_end in *. lia.
  - intros o' c' [[<- <-]|[Hne Hc']]%lookup_insert_Some; simpl.
    + rewrite Hfar by lia. by eapply heap_blk.
    + destruct (Hdj o' c' Hc' Hne) as [Hd _]. destruct (cell_ge0 _ _ _ _ _ H Hc').
      pose proof (zlen_nonneg (c_pay c')). rewrite Hfar by lia. by eapply heap_blk.
  - intros o' c' [[<- <-]|[Hne Hc']]%lookup_insert_Some; simpl.
    + apply sub_splice_in; try lia. by eapply heap_pay.
    + destruct (Hdj o' c' Hc' Hne) as [Hd _]. destruct (cell_ge0 _ _ _ _ _ H Hc').
      pose proof (zlen_nonneg (c_pay c')). rewrite Hfar by lia. by eapply heap_pay.
  - intros o' c' [[<- <-]|[Hne Hc']]%lookup_insert_Some; simpl; by eapply heap_ok.
  - intros o' c' [[<- <-]|[Hne Hc']]%lookup_insert_Some; simpl; by eapply heap_seal.
  - intros o1 c1 o2 c2 [[<- <-]|[Hne1 Hc1]]%lookup_insert_Some
      [[<- <-]|[Hne2 Hc2]]%lookup_insert_Some Hne; try done.
    + destruct (Hdj o2 c2 Hc2 Hne). unfold c_end in *; simpl. lia.
    + destruct (Hdj o1 c1 Hc1 Hne1). unfold c_end in *; simpl. lia.
    + by apply (heap_disj _ _ _ H).
Qed.

(** A block header written at the end of the file is a new cell. *)
Lemma heap_alloc_eof cont h M b :
  heap cont h M -> block_ok b -> zlen cont + 44 < 2147483648 ->
  heap (splice cont (zlen cont) (enc_block (seal b))) h (<[zlen cont := mkCell (seal b) []]> M).
Proof.
  intros H Hb Hsm. pose proof (heap_len _ _ _ H) as Hlen.
  rewrite splice_end.
  assert (zlen (cont ++ enc_block (seal b)) = zlen cont + 44) as Hcl by (rewrite zlen_app, zlen_enc_block; lia).
  assert (forall o n, 0 <= o -> o + n <= zlen cont ->
    sub (cont ++ enc_block (seal b)) o n = sub cont o n) as Hfar by (intros; by apply sub_app_l).
  constructor; try apply H; rewrite ?Hcl; try lia.
  - rewrite Hfar by lia. apply H.
  - intros o' c' [[<- <-]|[Hne Hc']]%lookup_insert_Some; [lia|by eapply heap_lo].
  - intros o' c' [[<- <-]|[Hne Hc']]%lookup_insert_Some; unfold c_end; simpl; [rewrite zlen_nil; lia|].
    pose proof (heap_hi _ _ _ H o' c' Hc'). unfold c_end in *. lia.
  - intros o' c' [[<- <-]|[Hne Hc']]%lookup_insert_Some; simpl.
    + rewrite sub_app_r by lia. rewrite Z.sub_diag. rewrite <- (zlen_enc_block (seal b)). apply sub_all.
    + destruct (cell_ge0 _ _ _ _ _ H Hc'). rewrite Hfar by lia. by eapply heap_blk.
  - intros o' c' [[<- <-]|[Hne Hc']]%lookup_insert_Some; simpl.
    + rewrite zlen_nil. unfold sub. by rewrite take_0.
    + destruct (cell_ge0 _ _ _ _ _ H Hc'). pose proof (heap_hi _ _ _ H o' c' Hc').
      unfold c_end in *. rewrite Hfar by lia. by eapply heap_pay.
  - intros o' c' [[<- <-]|[Hne Hc']]%lookup_insert_Some; simpl; [by apply seal_ok|by eapply heap_ok].
  - intros o' c' [[<- <-]|[Hne Hc']]%lookup_insert_Some; simpl; [done|by eapply heap_seal].
  - intros o1 c1 o2 c2 [[<- <-]|[Hne1 Hc1]]%lookup_insert_Some
      [[<- <-]|[Hne2 Hc2]]%lookup_insert_Some Hne; try done.
    + right. by eapply heap_hi.
    + left. by eapply heap_hi.
    + by apply (heap_disj _ _ _ H).
Qed.

(** ** Slots *)

(** Where [findBlock] lets a node go: a cell of its own with room for [sz]
   bytes, or the end of the file.  [pay] is what is behind the block there. *)
Definition slot (v : View) (o sz : Z) (pay : bytes) : Prop :=
  (exists c, v_heap v !! o = Some c /\ pay = c_pay c /\ sz <= 44 + zlen pay) \/
  (o = v_eof v /\ pay = [] /\ v_heap v !! o = None).

Section Write.
Context {F : Type} {fo : FileOps F} {fl : FileLaws F}.
Context {I : Type} {io : IndexOps I} {il : IndexLaws I}.
Implicit Types (s : St F I) (v : View) (A : Abs).

Lemma wp_writeBlock_slot s v o sz pay b Q :
  Rep s v -> slot v o sz pay -> block_ok b -> v_eof v + 44 < 2147483648 ->
  (forall s', Rep s' (vput o (mkCell (seal b) pay) (veof (Z.max (v_eof v) (o + 44)) v)) ->
     pos s' = o + 44 -> Q (seal b) s') ->
  wp (writeBlock b o) Q s.
Proof.
  intros H [(c & Hc & -> & _)|(-> & -> & Hn)] Hb Hsm HQ.
  - eapply wp_writeBlock; [done..|]. intros s' H' Hp. apply HQ; [|done].
    destruct (cell_ge0 _ _ _ _ _ (rep_heap _ _ H) Hc). rewrite (rep_eof _ _ H) in *.
    rewrite Z.max_l by lia. by destruct v.
  - unfold writeBlock. wstep. unfold wp at 1, file_write.
    destruct (f_write (enc_block (seal b)) (v_eof v) (m_file s)) as [n f'] eqn:E.
    pose proof (Rep_eof _ _ H). pose proof (rep_eof _ _ H) as Ee. unfold content in Ee.
    apply f_write_law in E as (-> & Ec & Ep); [|rewrite f_at_ge0; lia].
    rewrite f_at_ge0 in * by lia. rewrite zlen_enc_block in *. simpl. wstep. apply HQ; [|done].
    pose proof (heap_alloc_eof _ _ _ b (rep_heap _ _ H) Hb) as Hh. unfold content in Hh.
    rewrite Ee in Hh. specialize (Hh Hsm).
    destruct H. constructor; unfold content, hdr in *; simpl; rewrite ?Ec; auto.
    rewrite zlen_splice by lia. rewrite zlen_enc_block. lia.
Qed.

(** Writing at the current position inside (or over the end of) a cell. *)
Lemma wp_write_payload s v o c k bs Q :
  Rep s v -> v_heap v !! o = Some c -> pos s = o + 44 + k -> 0 <= k <= zlen (c_pay c) ->
  (k + zlen bs <= zlen (c_pay c) \/ c_end o c = v_eof v) ->
  o + 44 + k + zlen bs < 2147483648 ->
  (forall s', Rep s' (vput o (mkCell (c_blk c) (splice (c_pay c) k bs))
                        (veof (Z.max (v_eof v) (o + 44 + k + zlen bs)) v)) ->
     pos s' = o + 44 + k + zlen bs -> Q (zlen bs) s') ->
  wp (file_write bs (-1)) Q s.
Proof.
  intros H Hc Hp Hk Hfit Hsm HQ. unfold wp, file_write.
  destruct (f_write bs (-1) (m_file s)) as [n f'] eqn:E.
  pose proof (rep_heap _ _ H) as Hh. pose proof (heap_lo _ _ _ Hh o c Hc).
  pose proof (heap_hi _ _ _ Hh o c Hc). unfold c_end in *. pose proof (rep_eof _ _ H) as Ee.
  assert (f_at (-1) (m_file s) = o + 44 + k) as Eat by exact Hp.
  apply f_write_law in E as (-> & Ec & Ep); [|rewrite Eat; unfold content in *; lia].
  rewrite Eat in *. apply HQ; [|done].
  assert (heap (splice (content s) (o + 44 + k) bs) (v_hdr v)
    (<[o := mkCell (c_blk c) (splice (c_pay c) k bs)]> (v_heap v))) as Hh'
    by (apply heap_write_payload; auto; unfold c_end; lia).
  destruct H. constructor; unfold content, hdr in *; simpl; rewrite ?Ec; auto.
  rewrite zlen_splice by lia. lia.
Qed.

Lemma splice_nil (p bs : bytes) : splice p (zlen p) bs = p ++ bs.
Proof. apply splice_end. Qed.

(** Key and data written behind the block of a cell that has room for them. *)
Lemma wp_write_tail s v o c (key d : bytes) len Q :
  Rep s v -> v_heap v !! o = Some c -> pos s = o + 44 -> len = zlen key + 1 ->
  (zlen key + 1 + zlen d <= zlen (c_pay c) \/ (c_pay c = [] /\ o + 44 = v_eof v)) ->
  o + 44 + (zlen key + 1) + zlen d < 2147483648 ->
  (forall s' pay', Rep s' (vput o (mkCell (c_blk c) pay')
        (veof (Z.max (v_eof v) (o + 44 + (zlen key + 1) + zlen d)) v)) ->
     pay_ok key d pay' -> zlen pay' = Z.max (zlen (c_pay c)) (zlen key + 1 + zlen d) ->
     (pay_ok key d (c_pay c) -> pay' = c_pay c) -> Q () s') ->
  wp (n ← file_write (key ++ [0]) (-1);
      if negb (n =? len) then throw "Failed to write node key"
      else m ← file_write d (-1);
           if negb (m =? zlen d) then throw "Failed to write node data" else mret ()) Q s.
Proof.
  intros H Hc Hp -> Hfit Hsm HQ. pose proof (zlen_nonneg key) as Hnk. pose proof (zlen_nonneg d) as Hnd.
  assert (zlen (key ++ [0]) = zlen key + 1) as Ekl by len.
  wstep. eapply (wp_write_payload s v o c 0); [done..|lia|pose proof (zlen_nonneg (c_pay c)); lia| |lia|].
  { rewrite Ekl. destruct Hfit as [|[E1 E2]]; [lia|]. right. unfold c_end. rewrite E1, zlen_nil. lia. }
  intros s1 H1 Hp1. rewrite Ekl in *. rewrite Z.eqb_refl. cbn [negb].
  set (pay1 := splice (c_pay c) 0 (key ++ [0])) in *.
  assert (zlen pay1 = Z.max (zlen (c_pay c)) (zlen key + 1)) as Hl1.
  { unfold pay1. rewrite zlen_splice, Ekl by (pose proof (zlen_nonneg (c_pay c)); lia). lia. }
  wstep. eapply (wp_write_payload s1 _ o (mkCell (c_blk c) pay1) (zlen key + 1)); [done| | | | | |].
  { simpl. apply lookup_insert_eq. }
  { lia. }
  { simpl. lia. }
  { unfold c_end. simpl. destruct Hfit as [|[E1 E2]]; [lia|]. right. rewrite Hl1, E1, zlen_nil. lia. }
  { lia. }
  simpl. intros s2 H2 _. rewrite Z.eqb_refl. cbn [negb]. wstep.
  set (pay2 := splice pay1 (zlen key + 1) d) in *.
  assert (zlen pay2 = Z.max (zlen (c_pay c)) (zlen key + 1 + zlen d)) as Hl2.
  { unfold pay2. rewrite zlen_splice by lia. lia. }
  assert (forall i, (i < length key + 1 + length d)%nat ->
    pay2 !! i = (key ++ [0] ++ d) !! i) as Hpre.
  { intros i Hi. replace (key ++ [0] ++ d) with ((key ++ [0]) ++ d) by (by rewrite <- app_assoc).
    assert (length (key ++ [0%Z]) = length key + 1)%nat as Ek by (rewrite length_app; done).
    unfold pay2. rewrite lookup_splice by lia. unfold zlen in *. case_decide as D.
    - rewrite lookup_app_r by lia. f_equal. lia.
    - unfold pay1. rewrite lookup_splice by (unfold zlen; lia).
      rewrite decide_True by lia. rewrite (lookup_app_l (key ++ [0])) by lia. f_equal. lia. }
  apply (HQ s2 pay2); auto.
  - unfold vput, veof in *. simpl in *. rewrite insert_insert_eq in H2.
    replace (Z.max (v_eof v) (o + 44 + (zlen key + 1) + zlen d)) with
      (Z.max (Z.max (v_eof v) (o + 44 + 0 + (zlen key + 1))) (o + 44 + (zlen key + 1) + zlen d)) by lia.
    done.
  - exists (drop (length key + 1 + length d) pay2).
    rewrite <- (take_drop (length key + 1 + length d) pay2) at 1.
    replace (key ++ [0] ++ d ++ drop (length key + 1 + length d) pay2)
      with ((key ++ [0] ++ d) ++ drop (length key + 1 + length d) pay2) by (by rewrite <- !app_assoc).
    f_equal. apply list_eq. intros i. destruct (decide (i < length key + 1 + length d)%nat).
    + rewrite lookup_take_lt by lia. by apply Hpre.
    + rewrite lookup_take_ge by lia. symmetry. apply lookup_ge_None. rewrite !length_app. simpl. lia.
  - intros [rest E]. apply list_eq. intros i.
    destruct (decide (i < length key + 1 + length d)%nat) as [Hi|Hi].
    + rewrite Hpre by lia. rewrite E.
      replace (key ++ [0] ++ d ++ rest) with ((key ++ [0] ++ d) ++ rest) by (by rewrite <- !app_assoc).
      rewrite (lookup_app_l (key ++ [0] ++ d)); [done|]. rewrite !length_app. simpl. lia.
    + unfold pay2. rewrite lookup_splice by lia. rewrite decide_False by (unfold zlen; lia).
      unfold pay1. rewrite lookup_splice by (pose proof (zlen_nonneg (c_pay c)); lia).
      rewrite decide_False; [done|]. rewrite length_app. simpl. lia.
Qed.
End Write.

(** * Preservation of the database invariant by tree updates

   Pure lemmas: what a change of blocks does to the abstract forest. *)

(** The first and last child of the block at [p] set to the ends of [l]; at
   [p] = -1 (the roots) there is no block and nothing changes. *)
Definition ends_of (l : list Z) (b : HDBBlock) : HDBBlock :=
  set_lastChild (last_off (-1) l) (set_firstChild (hd_off l (-1)) b).
Definition setends (p : Z) (l : list Z) (M : gmap Z Cell) : gmap Z Cell :=
  alter (mod_blk (ends_of l)) p M.

(** Header fields that the list of children of [p] determines. *)
Definition roots_ok (v v' : View) (p : Z) (l : list Z) : Prop :=
  if decide (p = -1)
  then firstRoot (v_hdr v') = hd_off l (-1) /\ lastRoot (v_hdr v') = last_off (-1) l
  else firstRoot (v_hdr v') = firstRoot (v_hdr v) /\ lastRoot (v_hdr v') = lastRoot (v_hdr v).

Lemma cell_ok_next a l c n : cell_ok a l c -> cell_ok a l (mod_blk (set_nextSib n) c).
Proof. intros []. constructor; auto. Qed.
Lemma cell_ok_prev a l c n : cell_ok a l c -> cell_ok a l (mod_blk (set_prevSib n) c).
Proof. intros []. constructor; auto. Qed.
Lemma cell_ok_ends a l l' c : cell_ok a l c -> cell_ok a l' (mod_blk (ends_of l') c).
Proof. intros []. constructor; auto. Qed.
#[export] Hint Resolve cell_ok_next cell_ok_prev cell_ok_ends : owdb.

(** The free list only depends on its own blocks. *)
Lemma flist_ext v v' l :
  flist v l -> firstFree (v_hdr v') = firstFree (v_hdr v) ->
  (forall o, o ∈ l -> v_heap v' !! o = v_heap v !! o) -> flist v' l.
Proof.
  intros [] Eh E. constructor; auto; try congruence.
  - by eapply dseg_ext.
  - intros o c Ho Hc. rewrite E in Hc by done. eauto.
  - assert ((size_of (v_heap v') <$> l) = (size_of (v_heap v) <$> l)) as ->; [|done].
    apply list_fmap_ext. intros i x Hx. unfold size_of. rewrite E; [done|].
    by eapply list_elem_of_lookup_2.
Qed.

(** Changes outside the nodes: allocation and freeing of blocks. *)
Lemma Inv_frame v v' A fr' :
  Inv v A -> flist v' fr' ->
  (forall o c, o ∈ fr' -> v_heap v' !! o = Some c -> bsize (c_blk c) <= 44 + zlen (c_pay c)) ->
  (forall o a, nodes A !! o = Some a -> o ∉ fr' /\ v_heap v' !! o = v_heap v !! o) ->
  v_idx v' = v_idx v -> firstRoot (v_hdr v') = firstRoot (v_hdr v) ->
  lastRoot (v_hdr v') = lastRoot (v_hdr v) ->
  Inv v' (mkAbs (nodes A) (lists A) fr').
Proof.
  intros HI Hfl Hsz Hn Ei Er El. constructor; simpl; auto.
  - intros o a Ha. by eapply Hn.
  - intros o a Ha. destruct (inv_node _ _ HI o a Ha) as (l & c & ? & ? & ?).
    exists l, c. destruct (Hn o a Ha) as [_ ->]. auto.
  - intros p l Hl. destruct (inv_list _ _ HI p l Hl) as (? & ? & Hs & Hm). split_and!; auto.
    eapply dseg_ext; [|done]. intros o Ho. destruct (Hm o Ho) as (a & Ha & _). by eapply Hn.
  - apply (inv_up _ _ HI).
  - destruct (inv_roots _ _ HI) as (l & ? & ? & ?). exists l. rewrite Er, El. auto.
  - intros k o. rewrite Ei. apply (inv_idx _ _ HI).
  - apply (inv_acyc _ _ HI).
Qed.

Lemma Inv_list_none v A o : Inv v A -> nodes A !! o = None -> o <> -1 -> lists A !! o = None.
Proof.
  intros HI Hn Ho. destruct (lists A !! o) as [l|] eqn:E; [|done].
  destruct (inv_list _ _ HI o l E) as ([?|[? ?]] & _); congruence.
Qed.

(** The neighbour at the end of a list of children is a node or -1. *)
Lemma last_node v A p l x : Inv v A -> lists A !! p = Some l -> x = last_off (-1) l ->
  (x = -1 /\ l = []) \/ (x ∈ l /\ exists a, nodes A !! x = Some a /\ a_parent a = p).
Proof.
  intros HI Hl ->. destruct (decide (l = [])) as [->|Hne]; [by left|right].
  pose proof (last_off_elem (-1) l Hne). split; [done|]. by eapply Inv_in_list.
Qed.

Lemma hd_node v A p l x : Inv v A -> lists A !! p = Some l -> x = hd_off l (-1) ->
  (x = -1 /\ l = []) \/ (x ∈ l /\ exists a, nodes A !! x = Some a /\ a_parent a = p).
Proof.
  intros HI Hl ->. destruct (decide (l = [])) as [->|Hne]; [by left|right].
  pose proof (hd_off_elem l (-1) Hne). split; [done|]. by eapply Inv_in_list.
Qed.

(** No node is its own parent. *)
Lemma Inv_not_self v A o a : Inv v A -> nodes A !! o = Some a -> a_parent a <> -1 -> a_parent a <> o.
Proof.
  intros HI Ha Hp E. destruct (inv_acyc _ _ HI) as [rank Hr]. specialize (Hr o a Ha Hp).
  rewrite E in Hr. lia.
Qed.

(** ** Attaching a new leaf at the end of a list of children *)

Section Attach.
Context (v v' : View) (A : Abs) (o p : Z) (a : ANode) (l : list Z) (co : Cell).
Hypothesis HI : Inv v A.
Hypothesis HM : v_heap v !! (-1) = None.
Hypothesis Ho1 : o <> -1.
Hypothesis Hon : nodes A !! o = None.
Hypothesis Hof : o ∉ frees A.
Hypothesis Hl : lists A !! p = Some l.
Hypothesis Hap : a_parent a = p.
Hypothesis Hk : v_idx v !! a_key a = None.
Hypothesis Hco : cell_ok a [] co.
Hypothesis Hcp : prevSib (c_blk co) = last_off (-1) l.
Hypothesis Hcn : nextSib (c_blk co) = -1.
Hypothesis EM : v_heap v' =
  setends p (l ++ [o]) (setnext (last_off (-1) l) o (<[o := co]> (v_heap v))).
Hypothesis Ei : v_idx v' = <[a_key a := o]> (v_idx v).
Hypothesis Ef : firstFree (v_hdr v') = firstFree (v_hdr v).
Hypothesis Er : roots_ok v v' p (l ++ [o]).

Definition attached : Abs :=
  mkAbs (<[o := a]> (nodes A)) (<[o := []]> (<[p := l ++ [o]]> (lists A))) (frees A).

Let x := last_off (-1) l.

Lemma att_po : p <> o.
Proof. intros E. destruct (inv_list _ _ HI p l Hl) as ([?|[? ?]] & _); congruence. Qed.

Lemma att_x : x = -1 \/ (x ∈ l /\ x <> o /\ exists ax, nodes A !! x = Some ax /\ a_parent ax = p).
Proof.
  destruct (last_node v A p l x HI Hl eq_refl) as [[? _]|(? & ax & ? & ?)]; [by left|right].
  split_and!; eauto. congruence.
Qed.

Lemma att_px : p <> -1 -> p <> x.
Proof.
  intros Hp E. destruct att_x as [?|(_ & _ & ax & Hax & Hpx)]; [congruence|].
  apply (Inv_not_self _ _ _ _ HI Hax); congruence.
Qed.

(** The heap after the change, at another block. *)
Lemma att_lookup y c : v_heap v !! y = Some c -> y <> o ->
  exists c', v_heap v' !! y = Some c' /\
    ((y <> p /\ c' = c) \/ (y = x /\ y <> p /\ c' = mod_blk (set_nextSib o) c) \/
     (y = p /\ c' = mod_blk (ends_of (l ++ [o])) c)).
Proof.
  intros Hy Hyo. rewrite EM. unfold setends, setnext. fold x.
  assert (<[o := co]> (v_heap v) !! y = Some c) as Hy1 by (by rewrite lookup_insert_ne).
  destruct (decide (y = p)) as [->|Hyp].
  - rewrite lookup_alter_eq, lookup_alter_ne, Hy1; [simpl; eauto 6|].
    apply not_eq_sym, att_px. intros ->. congruence.
  - rewrite lookup_alter_ne by done. destruct (decide (y = x)) as [E|Hyx].
    + rewrite E in *. rewrite lookup_alter_eq, Hy1. simpl. eauto 8.
    + rewrite lookup_alter_ne, Hy1 by done. eauto 6.
Qed.

Lemma att_self : v_heap v' !! o = Some co.
Proof.
  rewrite EM. unfold setends, setnext. fold x. rewrite !lookup_alter_ne.
  - apply lookup_insert_eq.
  - destruct att_x as [->|(_ & ? & _)]; congruence.
  - apply att_po.
Qed.

Lemma att_dseg q lq : lists A !! q = Some lq -> q <> p -> dseg (v_heap v') (-1) lq (-1).
Proof.
  intros Hq Hqp. destruct (inv_list _ _ HI q lq Hq) as (_ & _ & Hs & Hm). rewrite EM.
  apply dseg_alter_links; [done..|].
  assert (dseg (<[o := co]> (v_heap v)) (-1) lq (-1)) as Hs1.
  { apply dseg_insert_out; [|done]. intros Hin. destruct (Hm o Hin) as (? & ? & _). congruence. }
  unfold setnext. fold x. destruct att_x as [E|(Hx & _)].
  - rewrite E, alter_absent; [done|]. by rewrite lookup_insert_ne.
  - apply dseg_alter_out; [|done]. intros Hin. apply Hqp.
    by apply (Inv_lists_disj _ _ _ _ _ _ x HI Hq Hl).
Qed.

Lemma att_dseg_p : dseg (v_heap v') (-1) (l ++ [o]) (-1).
Proof.
  destruct (inv_list _ _ HI p l Hl) as (_ & Hnd & Hs & Hm). rewrite EM.
  apply dseg_alter_links; [done..|].
  assert (o ∉ l) as Hol. { intros Hin. destruct (Hm o Hin) as (? & ? & _). congruence. }
  pose proof (dseg_link (v_heap v) l o [] co HM Ho1) as HL. simpl in HL.
  unfold setprev in HL. rewrite (alter_absent _ (-1)) in HL by (by rewrite lookup_insert_ne).
  apply HL; auto; [|by rewrite app_nil_r].
  apply NoDup_app. split_and!; [done|set_solver|apply NoDup_singleton].
Qed.

Lemma att_free : flist v' (frees A).
Proof.
  pose proof att_po as Hpo.
  eapply flist_ext; [apply HI|done|]. intros y Hy.
  assert (forall ay, nodes A !! y <> Some ay) as Hyn by (intros ay E; by apply (inv_disj _ _ HI y ay E)).
  rewrite EM. unfold setends, setnext. fold x. rewrite !lookup_alter_ne, lookup_insert_ne; [done|..].
  + intros ->. done.
  + destruct att_x as [->|(_ & _ & ax & Hax & _)]; [|intros ->; by eapply Hyn].
    intros <-. destruct (dseg_lookup _ _ _ _ _ (fl_seg _ _ (inv_free _ _ HI)) Hy); congruence.
  + intros <-. destruct (inv_list _ _ HI p l Hl) as ([E|[? ?]] & _); [|by eapply Hyn].
    rewrite E in Hy. destruct (dseg_lookup _ _ _ _ _ (fl_seg _ _ (inv_free _ _ HI)) Hy); congruence.
Qed.

Lemma att_freecell : forall y c, y ∈ frees A -> v_heap v' !! y = Some c -> bsize (c_blk c) <= 44 + zlen (c_pay c).
Proof.
  pose proof att_po as Hpo.
  intros y c Hy Hc.
  destruct (v_heap v !! y) as [c0|] eqn:E0.
  2:{ destruct (dseg_lookup _ _ _ _ _ (fl_seg _ _ (inv_free _ _ HI)) Hy); congruence. }
  destruct (att_lookup y c0 E0) as (c' & Hc' & Hcase); [by intros ->|].
  pose proof (inv_freecell _ _ HI y c0 Hy E0). simplify_eq.
  destruct Hcase as [(_ & ->)|[(_ & _ & ->)|(_ & ->)]]; done.
Qed.

Lemma att_node : forall y ay, <[o := a]> (nodes A) !! y = Some ay ->
  exists ly c, <[o := []]> (<[p := l ++ [o]]> (lists A)) !! y = Some ly /\ v_heap v' !! y = Some c /\ cell_ok ay ly c.
Proof.
  pose proof att_po as Hpo.
  intros y ay [[<- <-]|[Hne Hay]]%lookup_insert_Some.
  + exists [], co. rewrite lookup_insert_eq. split_and!; auto. apply att_self.
  + destruct (inv_node _ _ HI y ay Hay) as (ly & cy & Hly & Hcy & Hck).
    destruct (att_lookup y cy Hcy) as (c' & Hc' & Hcase); [done|].
    rewrite (lookup_insert_ne _ o y) by done. destruct (decide (y = p)) as [E|Hyp].
    * exists (l ++ [o]), c'. rewrite E, lookup_insert_eq, <- E. split_and!; auto.
      destruct Hcase as [(? & _)|[(_ & ? & _)|(_ & ->)]]; [done|done|eauto with owdb].
    * exists ly, c'. rewrite lookup_insert_ne by done. split_and!; auto.
      destruct Hcase as [(_ & ->)|[(_ & _ & ->)|(? & _)]]; [done|eauto with owdb|done].
Qed.

Lemma att_list : forall q lq, <[o := []]> (<[p := l ++ [o]]> (lists A)) !! q = Some lq ->
  (q = -1 \/ is_Some (<[o := a]> (nodes A) !! q)) /\ NoDup lq /\ dseg (v_heap v') (-1) lq (-1) /\
  forall k, k ∈ lq -> exists ak, <[o := a]> (nodes A) !! k = Some ak /\ a_parent ak = q.
Proof.
  pose proof att_po as Hpo.
  intros q lq [[<- <-]|[Hqo Hlq]]%lookup_insert_Some.
  { split_and!; [right; rewrite lookup_insert_eq; eauto|constructor|done|set_solver]. }
  apply lookup_insert_Some in Hlq as [[<- <-]|[Hqp Hlq]].
  + destruct (inv_list _ _ HI p l Hl) as (Hp & Hnd & _ & Hm).
    assert (o ∉ l) as Hol. { intros Hin. destruct (Hm o Hin) as (? & ? & _). congruence. }
    split_and!.
    * rewrite lookup_insert_ne by done. done.
    * apply NoDup_app. split_and!; [done|set_solver|apply NoDup_singleton].
    * apply att_dseg_p.
    * intros k [Hin|Hin]%elem_of_app.
      -- destruct (Hm k Hin) as (ak & ? & ?). exists ak. rewrite lookup_insert_ne; [done|congruence].
      -- apply list_elem_of_singleton in Hin as ->. exists a. by rewrite lookup_insert_eq.
  + destruct (inv_list _ _ HI q lq Hlq) as (Hq & Hnd & _ & Hm). split_and!; auto.
    * rewrite lookup_insert_ne by done. done.
    * by eapply att_dseg.
    * intros k Hin. destruct (Hm k Hin) as (ak & ? & ?). exists ak.
      rewrite lookup_insert_ne; [done|congruence].
Qed.

Lemma att_up : forall y ay, <[o := a]> (nodes A) !! y = Some ay ->
  exists ly, <[o := []]> (<[p := l ++ [o]]> (lists A)) !! a_parent ay = Some ly /\ y ∈ ly.
Proof.
  pose proof att_po as Hpo.
  intros y ay [[<- <-]|[Hne Hay]]%lookup_insert_Some.
  + exists (l ++ [o]). rewrite Hap, lookup_insert_ne, lookup_insert_eq by done. set_solver.
  + destruct (inv_up _ _ HI y ay Hay) as (ly & Hly & Hin).
    assert (a_parent ay <> o) as Hpo'.
    { intros E. rewrite E in Hly. by rewrite (Inv_list_none _ _ _ HI Hon Ho1) in Hly. }
    rewrite lookup_insert_ne by done. rewrite lookup_insert. case_decide as D; [|eauto].
    rewrite <- D in Hly. exists (l ++ [o]). split; [done|]. set_solver.
Qed.

Lemma att_idx : forall k y, v_idx v' !! k = Some y <-> exists ay, <[o := a]> (nodes A) !! y = Some ay /\ a_key ay = k.
Proof.
  pose proof att_po as Hpo.
  intros k y. rewrite Ei, lookup_insert. case_decide as D.
  + subst k. split.
    * intros [= <-]. exists a. by rewrite lookup_insert_eq.
    * intros (ay & [[<- <-]|[Hne Hay]]%lookup_insert_Some & Ek); [done|].
      assert (v_idx v !! a_key a = Some y) by (apply (inv_idx _ _ HI); eauto). congruence.
  + rewrite (inv_idx _ _ HI). split; intros (ay & Hay & Ek); exists ay.
    * rewrite lookup_insert_ne; [done|congruence].
    * apply lookup_insert_Some in Hay as [[<- <-]|[Hne Hay]]; [congruence|done].
Qed.

Lemma att_acyc : exists rank : Z -> nat, forall y ay, <[o := a]> (nodes A) !! y = Some ay -> a_parent ay <> -1 ->
  (rank y < rank (a_parent ay))%nat.
Proof.
  pose proof att_po as Hpo.
  destruct (inv_acyc _ _ HI) as [rank Hr].
  exists (fun y => if decide (y = o) then O else S (rank y)).
  intros y ay [[<- <-]|[Hne Hay]]%lookup_insert_Some Hp.
  + rewrite Hap, decide_True, decide_False by done. lia.
  + rewrite (decide_False (P := y = o)) by done. specialize (Hr y ay Hay Hp).
    rewrite decide_False; [lia|]. intros E. rewrite E in *.
    destruct (inv_up _ _ HI y ay Hay) as (ly & Hly & _). rewrite E in Hly.
    by rewrite (Inv_list_none _ _ _ HI Hon Ho1) in Hly.
Qed.

Lemma Inv_attach : Inv v' attached.
Proof.
  pose proof att_po as Hpo. constructor; simpl.
  - apply att_free.
  - apply att_freecell.
  - intros y ay [[<- <-]|[Hne Hay]]%lookup_insert_Some; [done|]. by eapply inv_disj.
  - apply att_node.
  - apply att_list.
  - apply att_up.
  - unfold roots_ok in Er. destruct (decide (p = -1)) as [->|Hp].
    + exists (l ++ [o]). rewrite lookup_insert_ne, lookup_insert_eq by done. done.
    + destruct (inv_roots _ _ HI) as (lr & Hlr & ? & ?). exists lr. destruct Er as [-> ->].
      rewrite !lookup_insert_ne by done. done.
  - apply att_idx.
  - apply att_acyc.
Qed.
End Attach.
