(* ===== verification/HdbAlloc.v ===== *)
(** * Allocation of blocks and the branches of [write]

   [findBlock] seen from the database invariant, then the specification of
   [HDBNode::write] on each of its branches: rewriting a node in its block, a
   new child, a new root node. *)

From S2P Require Import Prelude FileIO HdbCommon Index Hdb HdbHeap Dll FreeList HdbNode HdbInv HdbTree.

(** The abstract database with another free list. *)
Definition with_frees (fr : list Z) (A : Abs) : Abs := mkAbs (nodes A) (lists A) fr.

(** [v'] differs from [v] outside the nodes of [A] only. *)
Record outside (A : Abs) (v v' : View) : Prop := {
  out_heap : forall o a, nodes A !! o = Some a -> v_heap v' !! o = v_heap v !! o;
  out_idx : v_idx v' = v_idx v;
  out_eof : v_eof v' = v_eof v;
  out_version : v_version v' = v_version v;
  out_firstRoot : firstRoot (v_hdr v') = firstRoot (v_hdr v);
  out_lastRoot : lastRoot (v_hdr v') = lastRoot (v_hdr v)
}.

Lemma outside_refl A v : outside A v v.
Proof. by constructor. Qed.

Section Alloc.
Context {F : Type} {fo : FileOps F} {fl : FileLaws F}.
Context {I : Type} {io : IndexOps I} {il : IndexLaws I}.
Implicit Types (s : St F I) (v : View) (A : Abs).

(** What [findBlock] did: [off] left the free list, or is the end of the file. *)
Record allocated (v v' : View) (fr fr' : list Z) (off sz : Z) (pay : bytes) : Prop := {
  al_flist : flist v' fr';
  al_cells : forall x c, x ∈ fr' -> v_heap v' !! x = Some c -> bsize (c_blk c) <= 44 + zlen (c_pay c);
  al_slot : slot v' off sz pay;
  al_lo : 32 <= off;
  al_out : off ∉ fr';
  al_from : (off ∈ fr /\ sz <= size_of (v_heap v) off) \/ v_heap v !! off = None;
  al_sub : forall x, x ∈ fr' -> x ∈ fr;
  al_heap : forall x, x ∉ fr -> v_heap v' !! x = v_heap v !! x;
  al_idx : v_idx v' = v_idx v;
  al_eof : v_eof v' = v_eof v;
  al_version : v_version v' = v_version v;
  al_firstRoot : firstRoot (v_hdr v') = firstRoot (v_hdr v);
  al_lastRoot : lastRoot (v_hdr v') = lastRoot (v_hdr v)
}.

Lemma eof_free s v : Rep s v -> v_heap v !! v_eof v = None.
Proof.
  intros H. destruct (v_heap v !! v_eof v) as [c|] eqn:E; [|done].
  pose proof (heap_hi _ _ _ (rep_heap _ _ H) _ _ E) as Hhi. rewrite (rep_eof _ _ H) in Hhi.
  unfold c_end in Hhi. pose proof (zlen_nonneg (c_pay c)). lia.
Qed.

Lemma wp_allocate s v fr sz :
  Rep s v -> flist v fr ->
  (forall x c, x ∈ fr -> v_heap v !! x = Some c -> bsize (c_blk c) <= 44 + zlen (c_pay c)) ->
  0 <= sz < 4294967296 ->
  wp (findBlock sz) (fun off s' => exists v' fr' pay, Rep s' v' /\ allocated v v' fr fr' off sz pay) s.
Proof.
  intros H Hf Hcells Hsz. eapply wp_mono; [by apply (wp_findBlock s v fr sz H Hf)|].
  intros off s' [(v' & l1 & l2 & El & H' & Hfl & Hfr & Hge & _)|(-> & H' & _)]; simpl.
  - rewrite El in Hf. assert (off ∈ fr) as Hin by (rewrite El; set_solver).
    assert (forall x, x ∈ l1 ++ l2 -> x ∈ fr) as Hsub by (intros x; rewrite El; set_solver).
    destruct (dseg_lookup _ _ _ _ off (fl_seg _ _ Hf)) as [c Hc]; [set_solver|].
    destruct (lf_in _ _ _ Hfr off c Hc) as (c' & Hc' & Hp & Hk).
    exists v', (l1 ++ l2), (c_pay c'). split; [done|]. constructor; try apply Hfr; auto.
    + intros o c2 Ho Hc2. destruct (v_heap v !! o) as [c1|] eqn:E.
      2:{ by rewrite (lf_none _ _ _ Hfr o E) in Hc2. }
      destruct (lf_in _ _ _ Hfr o c1 E) as (c3 & Hc3 & Hp3 & Hk3). rewrite Hc2 in Hc3. injection Hc3 as <-.
      apply (f_equal bsize) in Hk3. simpl in Hk3. rewrite Hp3, Hk3. by apply (Hcells o); [apply Hsub|].
    + left. exists c'. split_and!; auto. rewrite Hp. unfold size_of in Hge. rewrite Hc in Hge.
      pose proof (Hcells off c Hin Hc). lia.
    + destruct (Rep_off _ _ _ _ H Hc). lia.
    + pose proof (fl_nodup _ _ Hf) as Hnd. rewrite <- Permutation_middle in Hnd. by apply NoDup_cons in Hnd as [? _].
    + intros x Hx. apply (lf_out _ _ _ Hfr). auto.
  - pose proof (Rep_eof _ _ H). pose proof (eof_free _ _ H) as Hn.
    exists v, fr, []. split; [done|]. constructor; auto; try lia.
    + right. auto.
    + intros Ho. destruct (dseg_lookup _ _ _ _ _ (fl_seg _ _ Hf) Ho). congruence.
Qed.

(** A free block, or the end of the file, with room for [sz] bytes; all nodes
   stay as they are. *)
Lemma wp_alloc s v A sz :
  Rep s v -> Inv v A -> 0 <= sz < 4294967296 ->
  wp (findBlock sz) (fun off s' => exists v' fr pay,
    Rep s' v' /\ Inv v' (with_frees fr A) /\ outside A v v' /\ slot v' off sz pay /\
    (off ∉ fr) /\ nodes A !! off = None /\ 32 <= off) s.
Proof.
  intros H HI Hsz.
  eapply wp_mono; [by apply (wp_allocate s v (frees A) sz H (inv_free _ _ HI) (inv_freecell _ _ HI))|].
  intros off s' (v' & fr & pay & H' & [Hfl Hcells Hslot Hlo Hout Hfrom Hsub Hheap Ei Ee Ev Ef El]).
  assert (forall o a, nodes A !! o = Some a -> o ∉ frees A) as Hno by (by apply inv_disj with v).
  exists v', fr, pay. split_and!; auto.
  - apply Inv_frame with v; auto. intros o a Ha. split; [|by eapply Hheap, Hno]. intros Ho. by eapply (Hno o a); auto.
  - constructor; auto. intros o a Ha. by eapply Hheap, Hno.
  - destruct (nodes A !! off) as [a|] eqn:E; [|done]. destruct Hfrom as [[Hin _]|Hn]; [by destruct (Hno off a E)|].
    destruct (inv_node _ _ HI _ _ E) as (? & ? & _ & ? & _). congruence.
Qed.

(** ** Branches of [write] *)

(** The block as [write] stores it for the key and the data of the node. *)
Definition stored (k d : bytes) (b : HDBBlock) : HDBBlock :=
  set_isFree 0 (set_dataLength (zlen k + 1 + zlen d) (set_keyLength (zlen k + 1) b)).

(** A node object that holds the key [k] and the data [d]. *)
Record holds (k d : bytes) (n : HDBNodeData) : Prop := {
  h_key : m_key n = k;
  h_len : m_bfrLen n = zlen d;
  h_bfr : default [] (m_bfr n) = d
}.

Lemma block_ok_stored k d b :
  block_ok b -> zlen k + 1 + zlen d < 2147483648 -> block_ok (stored k d b).
Proof.
  intros [] Hs. pose proof (zlen_nonneg k). pose proof (zlen_nonneg d).
  constructor; simpl; unfold is_u32; auto; lia.
Qed.

Lemma stored_eq k d n : holds k d n -> zlen k + 1 + zlen d < 2147483648 ->
  set_isFree 0 (set_dataLength (u32 (m_bfrLen n + (zlen (m_key n) + 1)))
    (set_keyLength (u32 (zlen (m_key n) + 1)) (m_blk n))) = stored k d (m_blk n).
Proof.
  intros [-> -> _] Hs. pose proof (zlen_nonneg k). pose proof (zlen_nonneg d). unfold stored.
  rewrite !u32_id by lia. do 2 f_equal. lia.
Qed.

Lemma take_all_zlen (d : bytes) : take (Z.to_nat (zlen d)) d = d.
Proof. apply take_ge. unfold zlen. lia. Qed.

(** The bytes behind the block, as [write] leaves them. *)
Record payload (k d : bytes) (pay pay' : bytes) : Prop := {
  pl_ok : pay_ok k d pay';
  pl_len : zlen pay' = Z.max (zlen pay) (zlen k + 1 + zlen d);
  pl_same : pay_ok k d pay -> pay' = pay
}.

(** What [write] does after the block is on file. *)
Lemma wp_write_rest s v o c k d n kl Q :
  Rep s v -> v_heap v !! o = Some c -> pos s = o + 44 -> holds k d n -> kl = zlen k + 1 ->
  (zlen k + 1 + zlen d <= zlen (c_pay c) \/ (c_pay c = [] /\ o + 44 = v_eof v)) ->
  o + 44 + (zlen k + 1) + zlen d < 2147483648 ->
  (forall s' pay', Rep s' (vversion (s32 (v_version v + 1)) (vput o (mkCell (c_blk c) pay')
        (veof (Z.max (v_eof v) (o + 44 + (zlen k + 1) + zlen d)) v))) ->
     payload k d (c_pay c) pay' -> Q (set_nversion (s32 (v_version v + 1)) n) s') ->
  wp ((cc ← file_write (m_key n ++ [0]) (-1);
       if negb (cc =? kl) then throw "Failed to write node key"
       else cc ← file_write (take (Z.to_nat (m_bfrLen n)) (default [] (m_bfr n))) (-1);
            if negb (cc =? m_bfrLen n) then throw "Failed to write node data" else mret ()) ;;
      vv ← registerWrite; mret (set_nversion vv n)) Q s.
Proof.
  intros H Hc Hp [Ek El Ed] -> Hfit Hsm HQ. rewrite Ek, El, Ed, take_all_zlen.
  wstep. eapply wp_write_tail; [done..|]. intros s1 pay' H1 Hpay Hlen Hsame.
  wstep. eapply wp_registerWrite; [done|]. intros s2 H2. wstep. apply (HQ s2 pay'); [|by constructor].
  exact H2.
Qed.

(** The node is on file and still fits into its block. *)
Lemma wp_write_inplace s v o c k d n Q :
  Rep s v -> v_heap v !! o = Some c -> m_offset n = o -> holds k d n -> block_ok (m_blk n) ->
  44 + (zlen k + 1 + zlen d) <= bsize (m_blk n) <= 44 + zlen (c_pay c) ->
  (forall s' pay', Rep s' (vversion (s32 (v_version v + 1))
        (vput o (mkCell (seal (stored k d (m_blk n))) pay') v)) ->
     payload k d (c_pay c) pay' ->
     Q (set_nversion (s32 (v_version v + 1)) (set_blk (seal (stored k d (m_blk n))) n)) s') ->
  wp (write (Some n) E_WRITE_ALL) Q s.
Proof.
  intros H Hc Ho Hh Hok Hsz HQ. pose proof (zlen_nonneg k). pose proof (zlen_nonneg d).
  pose proof (Rep_pay_small _ _ _ _ H Hc). destruct (Rep_off _ _ _ _ H Hc) as [Hoff _].
  pose proof (heap_hi _ _ _ (rep_heap _ _ H) o c Hc) as Hhi. rewrite (rep_eof _ _ H) in Hhi.
  pose proof (Rep_eof _ _ H). unfold c_end in Hhi.
  unfold write. rewrite (stored_eq k d n Hh) by lia. cbn [m_offset set_blk].
  rewrite Ho. ztest. wstep. cbn [m_blk bsize stored set_isFree set_dataLength set_keyLength dataLength].
  change (bsize (m_blk (set_blk _ n))) with (bsize (m_blk n)).
  unfold sizeof_HDBBlock. rewrite !s32_id by lia. ztest. wstep. wstep. wstep. cbn [m_blk m_offset set_blk]. rewrite Ho.
  eapply wp_writeBlock; [done..|by apply block_ok_stored; [|lia]|]. intros s1 Hs1 Hp1. wstep. cbv beta iota.
  eapply (wp_write_rest s1 _ o _ k d); [done|simpl; apply lookup_insert_eq|done|by destruct Hh|by destruct Hh; simplify_eq|simpl; lia|lia|].
  intros s2 pay' Hs2 Hpl. apply (HQ s2 pay'); [|done].
  simpl in Hs2. unfold vput, veof, vversion in *. simpl in *. rewrite insert_insert_eq in Hs2.
  rewrite Z.max_l in Hs2 by lia. done.
Qed.

(** *** New nodes *)

(** What is known of the block [findBlock] gave for a new node. *)
Record fresh (v v1 : View) (A : Abs) (fr : list Z) (o sz : Z) (pay : bytes) : Prop := {
  fr_inv : Inv v1 (with_frees fr A);
  fr_out : outside A v v1;
  fr_slot : slot v1 o sz pay;
  fr_free : o ∉ fr;
  fr_node : nodes A !! o = None;
  fr_off : 32 <= o
}.

Lemma slot_fit s v o sz pay n e :
  Rep s v -> slot v o sz pay -> n = sz - 44 -> e = Z.max (v_eof v) (o + 44) ->
  n <= zlen pay \/ (pay = [] /\ o + 44 = e).
Proof. intros H [(c & Hc & -> & Hsz)|(-> & -> & _)] -> ->; [left; lia|right; split; [done|lia]]. Qed.

Lemma slot_le s v o sz pay : Rep s v -> slot v o sz pay -> o <= v_eof v.
Proof.
  intros H [(c & Hc & -> & Hsz)|(-> & -> & _)]; [|lia].
  destruct (cell_ge0 _ _ _ _ _ (rep_heap _ _ H) Hc). rewrite (rep_eof _ _ H) in *. lia.
Qed.

(** A new node: whatever puts its block ([addRootNode] or [writeBlock]) into
   the block found for it, the index entry, the key and the data follow. *)
Lemma wp_write_new s v A k d n Q :
  Rep s v -> Inv v A -> m_offset n <= 0 -> holds k d n -> Forall (fun b => b <> 0) k ->
  v_eof v + 44 + (zlen k + 1 + zlen d) < 2147483648 ->
  (forall s1 v1 fr o pay, Rep s1 v1 -> fresh v v1 A fr o (44 + (zlen k + 1 + zlen d)) pay ->
     let b := set_size (44 + (zlen k + 1 + zlen d)) (stored k d (m_blk n)) in
     wp (if parent (m_blk n) <=? 0 then addRootNode b o else writeBlock b o) (fun b' s2 => exists v2,
       Rep s2 v2 /\ v_heap v2 !! o = Some (mkCell b' pay) /\ pos s2 = o + 44 /\
       v_eof v2 = Z.max (v_eof v) (o + 44) /\ v_version v2 = v_version v /\
       forall s3 pay' e, Rep s3 (vversion (s32 (v_version v + 1)) (vput o (mkCell b' pay')
            (veof e (vidx (<[k := o]> (v_idx v2)) v2)))) ->
         pay_ok k d pay' -> zlen k + 1 + zlen d <= zlen pay' ->
         Q (set_nversion (s32 (v_version v + 1)) (set_blk b' (set_offset o n))) s3) s1) ->
  wp (write (Some n) E_WRITE_ALL) Q s.
Proof.
  intros H HI Ho Hh Hk Hsm HQ. pose proof (zlen_nonneg k). pose proof (zlen_nonneg d).
  pose proof (Rep_eof _ _ H). unfold write. rewrite (stored_eq k d n Hh) by lia.
  cbn [m_offset set_blk]. ztest. wstep. cbn [dataLength stored set_isFree set_dataLength set_keyLength].
  unfold sizeof_HDBBlock. rewrite s32_id, u32_id by lia.
  replace (zlen k + 1 + zlen d + 44) with (44 + (zlen k + 1 + zlen d)) by lia.
  set (sz := 44 + (zlen k + 1 + zlen d)) in *. wstep. eapply wp_mono; [by apply wp_alloc; [..|lia]|].
  intros o s1 (v1 & fr & pay & Hs1 & HI1 & Hout & Hslot & Hfr & Hno & Ho1).
  wstep. cbn [m_blk set_offset set_blk].
  eapply wp_mono; [by apply (HQ s1 v1 fr o pay); [|constructor]|].
  intros b' s2 (v2 & Hs2 & Hc2 & Hp2 & He2 & Hv2 & HQ2). wstep. cbn [m_key m_offset set_blk set_offset].
  rewrite (h_key _ _ _ Hh), cstr_id by done.
  eapply wp_addIndexEntry; [done|]. intros s3 Hs3 Hp3. cbn [negb]. wstep. cbv beta iota.
  pose proof (slot_le _ _ _ _ _ Hs1 Hslot) as Hle. rewrite (out_eof _ _ _ Hout) in Hle.
  eapply (wp_write_rest s3 _ o (mkCell b' pay) k d); [done|done|congruence|by destruct Hh| | | |].
  { by destruct Hh. }
  { simpl. rewrite He2. eapply slot_fit; [exact Hs1|done|unfold sz; lia|]. by rewrite (out_eof _ _ _ Hout). }
  { lia. }
  intros s4 pay' Hs4 Hpl. change (v_version (vidx _ v2)) with (v_version v2) in *. rewrite Hv2 in *.
  eapply (HQ2 s4 pay'); [exact Hs4|apply Hpl|]. apply pay_len, Hpl.
Qed.

Lemma block_ok_size z b : is_u32 z -> block_ok b -> block_ok (set_size z b).
Proof. intros Hz []. constructor; auto. Qed.
Lemma block_ok_parent z b : is_s32 z -> block_ok b -> block_ok (set_parent z b).
Proof. intros Hz []. constructor; auto. Qed.

(** *** A block at the end of the list of root nodes *)

Lemma wp_addRootNode s v A o sz pay b l :
  Rep s v -> Inv v A -> slot v o sz pay -> nodes A !! o = None -> lists A !! (-1) = Some l ->
  32 <= o -> block_ok b -> v_eof v + 44 < 2147483648 ->
  wp (addRootNode b o) (fun b' s' =>
    b' = seal (set_prevSib (last_off (-1) l) (set_nextSib (-1) (set_parent (-1) b))) /\ pos s' = o + 44 /\
    exists v', Rep s' v' /\
      v_heap v' = setnext (last_off (-1) l) o (<[o := mkCell b' pay]> (v_heap v)) /\
      v_idx v' = v_idx v /\ v_version v' = v_version v /\ v_eof v' = Z.max (v_eof v) (o + 44) /\
      firstRoot (v_hdr v') = hd_off (l ++ [o]) (-1) /\ lastRoot (v_hdr v') = last_off (-1) (l ++ [o]) /\
      firstFree (v_hdr v') = firstFree (v_hdr v)) s.
Proof.
  intros H HI Hslot Hno Hl Ho Hok Hsm. destruct (inv_roots _ _ HI) as (l' & Hl' & Hfr & Hlr). simplify_eq.
  destruct (inv_list _ _ HI (-1) l Hl) as (_ & Hnd & Hseg & Hm).
  pose proof (slot_le _ _ _ _ _ H Hslot) as Hle. pose proof (Rep_eof _ _ H).
  assert (is_s32 o) as Hos by (unfold is_s32; lia). pose proof (Rep_hdr_ok _ _ H) as [].
  assert (forall p, is_s32 p -> block_ok (set_prevSib p (set_nextSib (-1) (set_parent (-1) b)))) as Hbo.
  { intros p Hp. apply block_ok_prev, block_ok_next, block_ok_parent; auto; unfold is_s32; lia. }
  unfold addRootNode. wstep. wstep. rewrite (rep_hdr _ _ H), Hfr, (dseg_hd_neg _ _ _ _ _ H Hseg), Hlr.
  rewrite last_off_app. simpl. destruct (decide (l = [])) as [->|Hne].
  - rewrite bool_decide_true by done. wstep. eapply wp_setOffsets; [done..|]. intros s1 Hs1.
    eapply (wp_writeBlock_slot s1 _ o sz pay); [done|exact Hslot|apply Hbo; unfold is_s32; lia|done|].
    intros s2 Hs2 Hp2. split_and!; [done|done|]. eexists. split; [exact Hs2|]. simpl. split_and!; auto.
    unfold setnext. rewrite (alter_absent _ (-1)); [done|]. rewrite lookup_insert_ne by lia. by eapply Rep_neg.
  - rewrite bool_decide_false by done. pose proof (last_off_elem (-1) l Hne) as Hin.
    destruct (Hm _ Hin) as (ax & Hax & _). destruct (Inv_node _ _ _ _ _ H HI Hax) as (lx & cx & _ & Hcx & _ & Hx & Hokx).
    assert (last_off (-1) l <> o) as Hxo by (intros E; congruence).
    wstep. eapply wp_readBlock; [done..|]. intros s1 Hs1 _. wstep.
    eapply wp_writeBlock_alter; [done..|by apply block_ok_next|]. intros s2 Hs2 _. wstep.
    eapply wp_setLastRoot; [done|done|]. intros s3 Hs3.
    eapply (wp_writeBlock_slot s3 _ o sz pay); [done| |exact (Hbo _ (dseg_last_s32 _ _ _ _ _ H Hseg))|done|].
    { destruct Hslot as [(c & Hc & ? & ?)|(? & ? & Hn)]; [left; exists c|right]; simpl;
        rewrite lookup_alter_ne by done; auto. }
    intros s4 Hs4 Hp4. split_and!; [done|done|]. eexists. split; [exact Hs4|]. simpl. split_and!; auto.
    + unfold setnext. apply map_eq. intros i. destruct (decide (i = o)) as [->|Hio].
      * rewrite lookup_insert_eq, lookup_alter_ne, lookup_insert_eq by done. done.
      * rewrite lookup_insert_ne by done. destruct (decide (i = last_off (-1) l)) as [->|].
        -- rewrite !lookup_alter_eq, lookup_insert_ne by done. done.
        -- rewrite !lookup_alter_ne, lookup_insert_ne by done. done.
    + rewrite hd_off_app. by destruct l.
Qed.
End Alloc.
