(* ===== verification/HdbAdd.v ===== *)
(** * Adding nodes

   [HDBHandle::addRootNode] and [HDBHandle::addChild] append a node to a list
   of the forest and leave everything else in place; what they refuse leaves
   the database unchanged. *)

From S2P Require Import Prelude FileIO HdbCommon Index Hdb HdbHeap Dll FreeList HdbNode HdbInv HdbTree HdbAlloc.

(** A node object that is not on file yet. *)
Record newborn (k d : bytes) (n : HDBNodeData) : Prop := {
  nb_key : key_ok k;
  nb_keyeq : m_key n = k;
  nb_len : m_bfrLen n = zlen d;
  nb_bfr : m_bfr n = bfr_of d;
  nb_offset : m_offset n <= 0;
  nb_blk : block_ok (m_blk n);
  nb_parent : parent (m_blk n) <= 0;
  nb_first : firstChild (m_blk n) = -1;
  nb_last : lastChild (m_blk n) = -1
}.

Lemma newborn_holds k d n : newborn k d n -> holds k d n.
Proof. intros []. constructor; auto. rewrite nb_bfr0. apply bfr_of_default. Qed.

(** What the constructor [HDBNode(key, dataLen, data)] makes. *)
Lemma newNode_newborn k d : key_ok k -> zlen k + 1 + zlen d < 4294967296 ->
  exists n, newNode k (zlen d) (Some d) = Some n /\ newborn k d n /\ flags (m_blk n) = 0.
Proof.
  intros [Hk0 Hk] Hs. unfold newNode. rewrite bool_decide_false by done.
  pose proof (zlen_nonneg k). pose proof (zlen_nonneg d). unfold bfr_of.
  assert ((zlen d =? 0) = bool_decide (d = [])) as ->.
  { destruct d as [|x d']; [done|]. rewrite zlen_cons, bool_decide_false by done.
    pose proof (zlen_nonneg d'). apply Z.eqb_neq. lia. }
  assert (forall m, 0 <= m < 4294967296 -> block_ok
    (mkBlk 0 0 0 0 0 (-1) (-1) (-1) (-1) (-1) (u32 (zlen k + 1)) (u32 m))) as Hok.
  { intros m Hm. constructor; simpl; unfold is_u32, is_s32; try lia; rewrite u32_id by lia; lia. }
  case_bool_decide as Ed; eexists; (split; [reflexivity|split; [|done]]);
    (constructor; simpl; [by split|done|..|apply Hok; lia|lia|done|done]); try lia.
  - by subst d.
  - unfold bfr_of. by rewrite bool_decide_true.
  - rewrite take_all_zlen. unfold bfr_of. by rewrite bool_decide_false.
Qed.

(** Nothing of the forest [A'] but the free list differs from [A] with a leaf
   [a] at [o] added behind the children [l] of [p]. *)
Definition grown (A A' : Abs) (o p : Z) (a : ANode) (l : list Z) : Prop :=
  nodes A !! o = None /\ lists A !! p = Some l /\
  nodes A' = <[o := a]> (nodes A) /\ lists A' = <[o := []]> (<[p := l ++ [o]]> (lists A)).

Lemma insert_setnext_comm M x o (c c' : Cell) n : x <> o ->
  <[o := c']> (setnext x n (<[o := c]> M)) = setnext x n (<[o := c']> M).
Proof.
  intros Hx. unfold setnext. apply map_eq. intros i. destruct (decide (i = o)) as [->|Hio].
  - by rewrite lookup_insert_eq, lookup_alter_ne, lookup_insert_eq.
  - rewrite lookup_insert_ne by done. destruct (decide (i = x)) as [->|].
    + by rewrite !lookup_alter_eq, !lookup_insert_ne.
    + by rewrite !lookup_alter_ne, !lookup_insert_ne.
Qed.

(** The cell of a new node. *)
Lemma cell_ok_new a l k d b pay' :
  key_ok k -> a_key a = k -> a_data a = d -> l = [] -> parent b = a_parent a ->
  flags b = a_flags a -> firstChild b = -1 ->
  lastChild b = -1 -> pay_ok k d pay' -> zlen k + 1 + zlen d <= zlen pay' ->
  bsize b = 44 + (zlen k + 1 + zlen d) ->
  cell_ok a l (mkCell (seal (stored k d b)) pay').
Proof.
  intros Hk <- <- -> Hp Hfl Hf Hl Hpay Hlen Hs. constructor; simpl; auto; lia.
Qed.

(** The parent's block with the new child. *)
Lemma ends_of_new a l c o : cell_ok a l c -> (forall x, x ∈ l -> 0 < x) ->
  (let b := set_lastChild o (c_blk c) in if firstChild b <=? 0 then set_firstChild (lastChild b) b else b)
  = ends_of (l ++ [o]) (c_blk c).
Proof.
  intros Hck Hpos. unfold ends_of. rewrite last_off_app, hd_off_app. cbn [firstChild lastChild set_lastChild last_off].
  pose proof (ck_first _ _ _ Hck) as Hf. rewrite Hf. destruct l as [|x l]; simpl; [done|].
  assert (0 < x) by (apply Hpos; set_solver). ztest. simpl in Hf. rewrite <- Hf. by destruct (c_blk c).
Qed.

Lemma stored_same a l c l' : cell_ok a l c ->
  stored (a_key a) (a_data a) (ends_of l' (c_blk c)) = ends_of l' (c_blk c).
Proof.
  intros []. unfold stored, ends_of. destruct (c_blk c). simpl in *. by subst.
Qed.

Lemma ends_of_node a l c o p : cell_ok a l c -> (forall x, x ∈ l -> 0 < x) ->
  (let b := set_lastChild o (c_blk c) in
   if firstChild b <=? 0 then set_blk (set_firstChild (lastChild b) b) (set_blk b p) else set_blk b p)
  = set_blk (ends_of (l ++ [o]) (c_blk c)) p.
Proof. intros Hck Hpos. rewrite <- (ends_of_new a l c o) by done. simpl. by destr. Qed.

Lemma bfr_of_nil (d : bytes) : zlen d = 0 -> bfr_of d = None.
Proof. destruct d; [done|]. rewrite zlen_cons. pose proof (zlen_nonneg d). lia. Qed.

(** A node object of the node [a] at [o]: up to date whenever its version is
   the version of the database. *)
Definition current (v : View) (o : Z) (a : ANode) (c : Cell) (n : HDBNodeData) : Prop :=
  Node_old o a n /\ (m_nversion n = v_version v -> Node_read v o a c n).

Lemma next_version_ne z : s32 (s32 (z + 1) + 1) <> s32 (z + 1).
Proof.
  unfold swrap. intros E. change (2 ^ 32) with 4294967296 in E. change (2 ^ (32 - 1)) with 2147483648 in E.
  pose proof (Z.mod_pos_bound (z + 1 + 2147483648) 4294967296 ltac:(lia)).
  set (m := (z + 1 + 2147483648) mod 4294967296) in *.
  replace (m - 2147483648 + 1 + 2147483648) with (m + 1) in E by lia.
  destruct (decide (m = 4294967295)) as [->|]; [done|]. rewrite Z.mod_small in E by lia. lia.
Qed.

Section Add.
Context {F : Type} {fo : FileOps F} {fl : FileLaws F}.
Context {I : Type} {io : IndexOps I} {il : IndexLaws I}.
Implicit Types (s : St F I) (v : View) (A : Abs).

(** A key that is not in the database. *)
Lemma wp_key_free {B} s v k (m : Prog (St F I) B) m' Q :
  Rep s v -> key_ok k -> v_idx v !! k = None ->
  (forall s', Rep s' v -> wp m Q s') ->
  wp (e ← findIndexEntry (cstr k); if entry_valid e then m' else m) Q s.
Proof.
  intros H [_ Hk] Hn HQ. rewrite cstr_id by done. wstep. eapply wp_findIndexEntry; [done|].
  intros s' Hs' _. rewrite Hn. by apply HQ.
Qed.

Lemma wp_handle_addRootNode s v A k d n l :
  Rep s v -> Inv v A -> newborn k d n -> v_idx v !! k = None -> lists A !! (-1) = Some l ->
  v_eof v + 44 + (zlen k + 1 + zlen d) < 2147483648 ->
  wp (handle_addRootNode (Some n)) (fun r s' => exists v' A' o n' c,
    r = (true, Some n') /\ Rep s' v' /\ Inv v' A' /\ grown A A' o (-1) (mkANode k d (-1) (flags (m_blk n))) l /\
    v_heap v' !! o = Some c /\ Node_read v' o (mkANode k d (-1) (flags (m_blk n))) c n') s.
Proof.
  intros H HI Hnb Hk Hl Hsm. pose proof (newborn_holds _ _ _ Hnb) as Hh. destruct Hnb.
  unfold handle_addRootNode. ztest. rewrite nb_keyeq0. eapply wp_key_free; [done..|]. intros s0 Hs0.
  wstep. pose proof (zlen_nonneg k). pose proof (zlen_nonneg d).
  eapply wp_write_new; [done|done|done|done|apply nb_key0|done|].
  intros s1 v1 fr o pay Hs1 [HI1 Hout Hslot Hfree Hno Ho]. ztest. cbv beta iota zeta.
  pose proof (Rep_eof _ _ Hs1). rewrite <- (out_eof _ _ _ Hout) in Hsm.
  eapply wp_mono.
  { apply (wp_addRootNode s1 v1 (with_frees fr A) o _ pay _ l Hs1 HI1 Hslot Hno Hl Ho); [|lia].
    apply block_ok_size; [unfold is_u32; lia|]. apply block_ok_stored; [done|lia]. }
  intros b' s2 (Eb & Hp2 & v2 & Hs2 & EM & Ei & Ev & Ee & Er & Elr & Ef).
  assert (last_off (-1) l <> o) as Hxo.
  { destruct (last_node _ _ _ _ _ HI1 Hl eq_refl) as [[-> _]|(_ & ax & Hax & _)]; [lia|].
    intros E. simpl in Hax. congruence. }
  exists v2. split_and!; [done| |done| |by rewrite Ev, (out_version _ _ _ Hout)|].
  { rewrite EM. unfold setnext. by rewrite lookup_alter_ne, lookup_insert_eq. }
  { by rewrite Ee, (out_eof _ _ _ Hout). }
  intros s3 pay' e Hs3 Hpay Hlen. wstep.
  set (a := mkANode k d (-1) (flags (m_blk n))). eexists _, (attached (with_frees fr A) o (-1) a l), o, _, (mkCell b' pay').
  split_and!; [reflexivity|exact Hs3| | | |].
  - apply (Inv_attach v1 _ (with_frees fr A) o (-1) a l (mkCell b' pay')); simpl; auto; try lia.
    + by eapply Rep_neg.
    + by rewrite (out_idx _ _ _ Hout).
    + subst b'. apply (cell_ok_new a [] k d
        (set_prevSib (last_off (-1) l) (set_nextSib (-1) (set_parent (-1)
          (set_size (44 + (zlen k + 1 + zlen d)) (m_blk n)))))); auto.
    + by subst b'.
    + by subst b'.
    + unfold setends. rewrite (alter_absent _ (-1)).
      * rewrite EM. by apply insert_setnext_comm.
      * unfold setnext. apply alter_still_absent. rewrite lookup_insert_ne by lia. by eapply Rep_neg.
    + by rewrite Ei.
    + unfold roots_ok. by rewrite decide_True.
  - by split_and!.
  - simpl. by rewrite lookup_insert_eq.
  - constructor; simpl; auto.
Qed.

Lemma block_ok_ends v s A p l b : Rep s v -> Inv v A -> lists A !! p = Some l ->
  forall o, is_s32 o -> block_ok b -> block_ok (ends_of (l ++ [o]) b).
Proof.
  intros H HI Hl o Ho []. destruct (inv_list _ _ HI p l Hl) as (_ & _ & Hseg & _).
  constructor; simpl; auto; [|by rewrite last_off_app].
  rewrite hd_off_app. pose proof (dseg_hd_s32 _ _ _ _ _ H Hseg). by destruct l.
Qed.

(** Make the last child point to its new sibling. *)
Lemma wp_link_last s v l o Q :
  Rep s v -> is_s32 o -> (l <> [] -> exists c, v_heap v !! last_off (-1) l = Some c) ->
  (forall s', Rep s' (vheap (setnext (last_off (-1) l) o (v_heap v)) v) -> Q () s') ->
  wp (when (0 <? last_off (-1) l) (
        node ← readBlock (last_off (-1) l);
        _ ← writeBlock (set_nextSib o node) (last_off (-1) l); mret ())) Q s.
Proof.
  intros H Ho Hx HQ. destruct (decide (l = [])) as [->|Hne].
  - simpl. apply HQ. unfold setnext. rewrite (alter_absent _ (-1)); [by destruct v|by eapply Rep_neg].
  - destruct (Hx Hne) as [c Hc]. destruct (Rep_off _ _ _ _ H Hc) as [? Hok]. ztest.
    eapply wp_modBlock; [done..|by apply block_ok_next|done].
Qed.

(** The new child goes to its block; the lists are not changed yet. *)
Lemma wp_write_child s v A k d n Q :
  Rep s v -> Inv v A -> m_offset n <= 0 -> holds k d n -> key_ok k -> block_ok (m_blk n) ->
  0 < parent (m_blk n) -> v_eof v + 44 + (zlen k + 1 + zlen d) < 2147483648 ->
  (forall s' v1 fr o pay' e, Inv v1 (with_frees fr A) -> outside A v v1 -> o ∉ fr ->
     nodes A !! o = None -> 32 <= o < 2147483648 -> v_heap v1 !! (-1) = None ->
     pay_ok k d pay' -> zlen k + 1 + zlen d <= zlen pay' ->
     let b := seal (stored k d (set_size (44 + (zlen k + 1 + zlen d)) (m_blk n))) in
     Rep s' (vversion (s32 (v_version v + 1)) (vput o (mkCell b pay')
       (veof e (vidx (<[k := o]> (v_idx v)) v1)))) ->
     Q (set_nversion (s32 (v_version v + 1)) (set_blk b (set_offset o n))) s') ->
  wp (write (Some n) E_WRITE_ALL) Q s.
Proof.
  intros H HI Ho Hh [Hk0 Hk] Hok Hp Hsm HQ. pose proof (zlen_nonneg k). pose proof (zlen_nonneg d).
  eapply wp_write_new; [done..|]. intros s1 v1 fr o pay Hs1 [HI1 Hout Hslot Hfree Hno Ho1].
  ztest. cbv beta iota zeta. pose proof (Rep_eof _ _ Hs1).
  pose proof (slot_le _ _ _ _ _ Hs1 Hslot) as Hle. rewrite <- (out_eof _ _ _ Hout) in Hsm.
  eapply wp_writeBlock_slot; [done..| |lia|].
  { apply block_ok_size; [unfold is_u32; lia|]. apply block_ok_stored; [done|lia]. }
  intros s2 Hs2 Hp2. eexists. split; [exact Hs2|]. simpl.
  rewrite (out_eof _ _ _ Hout), (out_version _ _ _ Hout). split_and!; auto; [apply lookup_insert_eq|].
  intros s3 pay' e Hs3 Hpay Hlen. apply (HQ s3 v1 fr o pay' e); auto; [lia|by eapply Rep_neg|].
  unfold vput, veof, vidx, vversion in *. simpl in *. rewrite insert_insert_eq, (out_idx _ _ _ Hout) in Hs3. done.
Qed.

(** The heap and the abstract forest after a child has been added. *)
Lemma wp_node_addChild s v A k d n po pa pc p l :
  Rep s v -> Inv v A -> newborn k d n -> v_idx v !! k = None ->
  nodes A !! po = Some pa -> v_heap v !! po = Some pc -> Node_read v po pa pc p ->
  lists A !! po = Some l -> v_eof v + 44 + (zlen k + 1 + zlen d) < 2147483648 ->
  wp (node_addChild p (Some n)) (fun r s' => exists v' A' o p' n' c pc', r = (p', Some n') /\
    Rep s' v' /\ Inv v' A' /\ grown A A' o po (mkANode k d po (flags (m_blk n))) l /\
    v_heap v' !! o = Some c /\ current v' o (mkANode k d po (flags (m_blk n))) c n' /\
    v_heap v' !! po = Some pc' /\ Node_read v' po pa pc' p') s.
Proof.
  intros H HI Hnb Hk Hpa Hpc Hp Hl Hsm. pose proof (newborn_holds _ _ _ Hnb) as Hh.
  destruct (Inv_node _ _ _ _ _ H HI Hpa) as (l' & pc' & Hl' & Hpc' & Hck & Hpo & Hpok). simplify_eq.
  destruct (inv_list _ _ HI po l Hl) as (_ & _ & Hseg & Hm).
  assert (forall x, x ∈ l -> 0 < x) as Hpos.
  { intros x Hx. destruct (dseg_lookup _ _ _ _ _ Hseg Hx) as [cx Hcx]. destruct (Rep_off _ _ _ _ H Hcx). lia. }
  destruct Hnb. unfold node_addChild. rewrite (nr_offset _ _ _ _ _ Hp). ztest.
  wstep. wstep. rewrite (nr_offset _ _ _ _ _ Hp), (nr_blk _ _ _ _ _ Hp), (ck_last _ _ _ Hck). ztest.
  set (n1 := set_blk _ n). wstep.
  eapply (wp_write_child s v A k d n1); [done|done|done|by destruct Hh|done| |simpl; lia|done|].
  { apply block_ok_parent, block_ok_next, block_ok_prev; auto; try (unfold is_s32; lia). by eapply dseg_last_s32. }
  intros s1 v1 fr o pay' e HI1 Hout Hfree Hno Ho Hneg Hpay Hlen. cbv beta zeta. intros Hs1.
  set (b := seal _) in *. set (v2 := vversion _ _) in *. cbn [m_offset set_nversion set_blk set_offset].
  assert (Hin2 : forall x a, nodes A !! x = Some a -> v_heap v2 !! x = v_heap v !! x).
  { intros x ax Hx. subst v2. simpl. rewrite lookup_insert_ne by congruence. by apply (out_heap _ _ _ Hout x ax). }
  wstep. eapply wp_link_last; [exact Hs1|unfold is_s32; lia| |].
  { intros Hne. destruct (Hm _ (last_off_elem (-1) l Hne)) as (ax & Hax & _).
    destruct (inv_node _ _ HI _ _ Hax) as (? & cx & _ & Hcx & _). exists cx. by rewrite (Hin2 _ _ Hax). }
  intros s2 Hs2. cbn [m_blk m_offset set_blk].
  assert (po <> last_off (-1) l) as Hpx.
  { destruct (last_node _ _ _ _ _ HI Hl eq_refl) as [[-> _]|(_ & ax & Hax & Ex)]; [lia|].
    intros E. rewrite <- E in Hax. apply (Inv_not_self _ _ _ _ HI Hax); [lia|congruence]. }
  wstep. pose proof (ends_of_node pa l pc o p Hck Hpos) as Ee. cbv zeta in Ee. rewrite Ee. clear Ee.
  assert (zlen (a_key pa) + 1 + zlen (a_data pa) = dataLength (c_blk pc)) as Edl by (by rewrite (ck_dataLength _ _ _ Hck)).
  eapply (wp_write_inplace s2 _ po pc (a_key pa) (a_data pa)); [exact Hs2| | | | | |].
  { change (setnext (last_off (-1) l) o (v_heap v2) !! po = Some pc). unfold setnext.
    rewrite lookup_alter_ne by done. by rewrite (Hin2 _ _ Hpa). }
  { apply Hp. }
  { destruct Hp as [? Ek El Eb ? ?]. constructor; auto. simpl. rewrite Eb. apply bfr_of_default. }
  { apply (block_ok_ends v s A po l); auto. unfold is_s32; lia. }
  { rewrite Edl. apply Hck. }
  intros s3 pay3 Hs3 Hpl. rewrite (pl_same _ _ _ _ Hpl (ck_pay _ _ _ Hck)) in Hs3. cbn [m_blk set_blk] in *.
  rewrite (stored_same pa l pc) in * by done. wstep.
  set (b3 := ends_of _ _) in *. set (v3 := vversion _ (vput po _ _)) in Hs3.
  assert (v_heap v3 !! po = Some (mkCell (seal b3) (c_pay pc))) as Hpo3 by (apply lookup_insert_eq).
  assert (o <> last_off (-1) l) as Hox.
  { destruct (last_node _ _ _ _ _ HI Hl eq_refl) as [[-> _]|(_ & ax & Hax & _)]; [lia|congruence]. }
  assert (v_heap v3 !! o = Some (mkCell b pay')) as Ho3.
  { subst v3 v2. simpl. unfold setnext. by rewrite lookup_insert_ne, lookup_alter_ne, lookup_insert_eq by congruence. }
  eexists v3, (attached (with_frees fr A) o po (mkANode k d po (flags (m_blk n))) l), o, _, _, (mkCell b pay'), _.
  split_and!; [reflexivity|exact Hs3| |by split_and!|exact Ho3| |exact Hpo3|].
  - apply (Inv_attach v1 v3 (with_frees fr A) o po (mkANode k d po (flags (m_blk n))) l (mkCell b pay')); auto; try lia.
    + by rewrite (out_idx _ _ _ Hout).
    + subst b. by eapply cell_ok_new.
    + subst v3 v2. simpl. unfold setends. symmetry.
      rewrite (alter_alt_Some _ _ _ pc); [done|]. unfold setnext. rewrite lookup_alter_ne, lookup_insert_ne by congruence.
      by rewrite (out_heap _ _ _ Hout po pa).
    + by rewrite (out_idx _ _ _ Hout).
    + unfold roots_ok. rewrite decide_False by lia. done.
  - split; [|intros E; exfalso; symmetry in E; revert E; apply next_version_ne].
    constructor; simpl; auto. intros Ed. rewrite nb_bfr0. apply bfr_of_nil. lia.
  - destruct Hp. constructor; auto.
Qed.

Lemma wp_handle_addChild s v A k d n po pa pc p l :
  Rep s v -> Inv v A -> newborn k d n -> v_idx v !! k = None ->
  nodes A !! po = Some pa -> v_heap v !! po = Some pc -> current v po pa pc p ->
  lists A !! po = Some l -> v_eof v + 44 + (zlen k + 1 + zlen d) < 2147483648 ->
  wp (handle_addChild (Some p) (Some n)) (fun r s' => exists v' A' o p' n' c pc',
    r = (true, Some p', Some n') /\
    Rep s' v' /\ Inv v' A' /\ grown A A' o po (mkANode k d po (flags (m_blk n))) l /\
    v_heap v' !! o = Some c /\ current v' o (mkANode k d po (flags (m_blk n))) c n' /\
    v_heap v' !! po = Some pc' /\ Node_read v' po pa pc' p') s.
Proof.
  intros H HI Hnb Hk Hpa Hpc [Hold Hver] Hl Hsm.
  destruct (Inv_node _ _ _ _ _ H HI Hpa) as (? & ? & _ & _ & _ & Hpo & _).
  unfold handle_addChild. rewrite (no_offset _ _ _ Hold), (nb_keyeq _ _ _ Hnb).
  pose proof (nb_offset _ _ _ Hnb). ztest.
  eapply wp_key_free; [done|apply Hnb|done|]. intros s1 Hs1. wstep.
  eapply wp_reload; [done..|]. intros s2 p' Hs2 Hp'. wstep.
  eapply wp_mono; [by apply (wp_node_addChild s2 v A k d n po pa pc p' l)|].
  intros r s3 (v' & A' & o & p2 & n' & c & pc' & -> & Hrest). wstep. by eexists v', A', o, p2, n', c, pc'.
Qed.
End Add.
