(* ===== verification/HdbSubtree.v ===== *)
(** * Subtrees of the forest and what removing one leaves

   The nodes that [HDBNode::remove] frees, computed from the abstract
   database, and the invariant of the database without them. *)

From S2P Require Import Prelude FileIO HdbCommon Index Hdb HdbHeap Dll FreeList HdbNode HdbInv HdbTree.

Definition children (A : Abs) (o : Z) : list Z := default [] (lists A !! o).

(** A node and all nodes below it, down to depth [n]. *)
Fixpoint subtree (n : nat) (A : Abs) (o : Z) : list Z :=
  match n with
  | O => []
  | S n => o :: concat (subtree n A <$> children A o)
  end.

Lemma elem_of_subtrees n A (ks : list Z) x :
  x ∈ concat (subtree n A <$> ks) <-> exists k, k ∈ ks /\ x ∈ subtree n A k.
Proof.
  induction ks as [|k ks IH]; simpl; [set_solver|]. rewrite elem_of_app, IH. set_solver.
Qed.

Section Sizes.
Context (rank : Z -> nat).

Lemma subtree_top n A k : (rank k < n)%nat -> k ∈ subtree n A k.
Proof. intros Hn. destruct n; [lia|]. simpl. set_solver. Qed.

Lemma length_subtrees n A (ks : list Z) : (forall k, k ∈ ks -> (rank k < n)%nat) ->
  (length ks <= length (concat (subtree n A <$> ks)))%nat.
Proof.
  induction ks as [|k ks IH]; intros Hk; [simpl; lia|]. rewrite fmap_cons. cbn [concat length]. rewrite length_app.
  assert (k ∈ subtree n A k) as Hin by (apply subtree_top, Hk; set_solver).
  destruct (subtree n A k); [set_solver|]. cbn [length]. specialize (IH ltac:(set_solver)). lia.
Qed.

Lemma length_subtree_kid n A (ks : list Z) k : k ∈ ks ->
  (length (subtree n A k) <= length (concat (subtree n A <$> ks)))%nat.
Proof.
  induction ks as [|k' ks IH]; intros Hk; [set_solver|]. rewrite fmap_cons. cbn [concat length]. rewrite length_app.
  apply elem_of_cons in Hk as [->|Hk]; [lia|]. specialize (IH Hk). lia.
Qed.
End Sizes.

Section Subtree.
Context (v : View) (A : Abs) (HI : Inv v A) (Hneg : v_heap v !! (-1) = None).
Context (rank : Z -> nat).
Hypothesis Hrank : forall o a, nodes A !! o = Some a -> a_parent a <> -1 -> (rank o < rank (a_parent a))%nat.

Lemma node_neg : nodes A !! (-1) = None.
Proof.
  destruct (nodes A !! (-1)) as [a|] eqn:E; [|done].
  destruct (inv_node _ _ HI _ _ E) as (? & ? & _ & ? & _). congruence.
Qed.

Lemma children_node o k : k ∈ children A o -> exists a, nodes A !! k = Some a /\ a_parent a = o.
Proof using HI.
  unfold children. destruct (lists A !! o) as [l|] eqn:El; simpl; [|by intros ?%elem_of_nil].
  intros Hk. by eapply Inv_in_list.
Qed.

Lemma children_rank o k : o <> -1 -> k ∈ children A o -> (rank k < rank o)%nat.
Proof using HI Hrank. intros Ho Hk. destruct (children_node _ _ Hk) as (a & Ha & <-). by apply Hrank. Qed.

Lemma in_children k a : nodes A !! k = Some a -> k ∈ children A (a_parent a).
Proof using HI. intros Ha. destruct (inv_up _ _ HI k a Ha) as (l & Hl & Hk). unfold children. by rewrite Hl. Qed.

Lemma node_ne o a : nodes A !! o = Some a -> o <> -1.
Proof. intros Ha ->. by rewrite node_neg in Ha. Qed.

(** Members are nodes, below the top. *)
Lemma subtree_node n : forall o x, is_Some (nodes A !! o) -> x ∈ subtree n A o ->
  is_Some (nodes A !! x) /\ (x = o \/ (rank x < rank o)%nat).
Proof.
  induction n as [|n IH]; intros o x [a Ha] Hx; [set_solver|]. simpl in Hx.
  apply elem_of_cons in Hx as [->|(k & Hk & Hx)%(proj1 (elem_of_subtrees _ _ _ _))]; [eauto|].
  destruct (children_node _ _ Hk) as (ak & Hak & _).
  pose proof (children_rank _ _ (node_ne _ _ Ha) Hk).
  destruct (IH k x) as [Hxn [->|?]]; eauto; split; auto; right; lia.
Qed.

Lemma subtree_down n : forall o x y a, is_Some (nodes A !! o) -> (rank o < n)%nat ->
  x ∈ subtree n A o -> nodes A !! y = Some a -> a_parent a = x -> y ∈ subtree n A o.
Proof.
  induction n as [|n IH]; intros o x y a [ao Hao] Hn Hx Ha Hp; [set_solver|]. simpl in *.
  right. apply elem_of_subtrees.
  apply elem_of_cons in Hx as [->|(k & Hk & Hx)%(proj1 (elem_of_subtrees _ _ _ _))].
  - exists y. pose proof (in_children _ _ Ha) as Hy. rewrite Hp in Hy. split; [done|].
    pose proof (children_rank _ _ (node_ne _ _ Hao) Hy). destruct n as [|n]; [lia|]. simpl. set_solver.
  - exists k. split; [done|]. destruct (children_node _ _ Hk) as (ak & Hak & _).
    pose proof (children_rank _ _ (node_ne _ _ Hao) Hk). eapply IH; eauto; lia.
Qed.

Lemma subtree_up n : forall o x, is_Some (nodes A !! o) -> x ∈ subtree n A o ->
  x = o \/ exists a, nodes A !! x = Some a /\ a_parent a ∈ subtree n A o.
Proof.
  induction n as [|n IH]; intros o x Ho Hx; [set_solver|]. simpl in *.
  apply elem_of_cons in Hx as [->|(k & Hk & Hx)%(proj1 (elem_of_subtrees _ _ _ _))]; [by left|right].
  destruct (children_node _ _ Hk) as (ak & Hak & Hpk).
  destruct (IH k x) as [->|(a & Ha & Hp)]; eauto.
  - exists ak. split; [done|]. rewrite Hpk. set_solver.
  - exists a. split; [done|]. right. apply elem_of_subtrees. eauto.
Qed.

(** Subtrees of siblings have no node in common. *)
Lemma subtree_disj n m o k1 k2 x : o <> -1 -> k1 ∈ children A o -> k2 ∈ children A o -> k1 <> k2 ->
  x ∈ subtree n A k1 -> x ∈ subtree m A k2 -> False.
Proof.
  intros Ho Hk1 Hk2 Hne. remember (rank k1 - rank x)%nat as g eqn:Hg. revert x Hg.
  induction (lt_wf g) as [g _ IH]. intros x Hg Hx1 Hx2.
  destruct (children_node _ _ Hk1) as (a1 & Ha1 & Hp1). destruct (children_node _ _ Hk2) as (a2 & Ha2 & Hp2).
  pose proof (children_rank _ _ Ho Hk1) as Hr1. pose proof (children_rank _ _ Ho Hk2) as Hr2.
  destruct (subtree_up n k1 x ltac:(eauto) Hx1) as [E1|(a & Ha & Hpa)];
    destruct (subtree_up m k2 x ltac:(eauto) Hx2) as [E2|(a' & Ha' & Hpa')]; [congruence|..].
  - assert (a_parent a' = o) as Ep by congruence. rewrite Ep in Hpa'.
    destruct (subtree_node m k2 o) as [_ [E|?]]; eauto; [rewrite E in *|]; lia.
  - assert (a_parent a = o) as Ep by congruence. rewrite Ep in Hpa.
    destruct (subtree_node n k1 o) as [_ [E|?]]; eauto; [rewrite E in *|]; lia.
  - replace a' with a in Hpa' by congruence.
    destruct (subtree_node n k1 (a_parent a)) as [[ap Hap] Hr]; eauto.
    pose proof (Hrank x a Ha (node_ne _ _ Hap)) as Hx.
    apply (IH (rank k1 - rank (a_parent a))%nat) with (x := a_parent a); auto.
    destruct Hr as [E|?]; [rewrite E in *|]; lia.
Qed.

Lemma subtree_NoDup n : forall o, is_Some (nodes A !! o) -> NoDup (subtree n A o).
Proof.
  induction n as [|n IH]; intros o [a Ha]; simpl; [constructor|].
  pose proof (node_ne _ _ Ha) as Ho. apply NoDup_cons. split.
  - intros (k & Hk & Hx)%elem_of_subtrees. destruct (children_node _ _ Hk) as (ak & Hak & _).
    pose proof (children_rank _ _ Ho Hk). destruct (subtree_node n k o) as [_ [->|?]]; eauto; lia.
  - assert (NoDup (children A o)) as Hnd.
    { unfold children. destruct (lists A !! o) as [l|] eqn:El; simpl; [|constructor].
      by destruct (inv_list _ _ HI o l El) as (_ & ? & _). }
    assert (forall k, k ∈ children A o -> k ∈ children A o) as Hsub by done.
    revert Hnd Hsub. generalize (children A o) at 1 2 4 as ks.
    induction ks as [|k ks IHk]; intros Hnd Hsub; simpl; [constructor|].
    apply NoDup_cons in Hnd as [Hk Hnd]. apply NoDup_app. split_and!.
    + destruct (children_node o k) as (ak & Hak & _); [set_solver|]. eauto.
    + intros x Hx (k2 & Hk2 & Hx2)%elem_of_subtrees.
      apply (subtree_disj n n o k k2 x); auto; [set_solver..|]. by intros ->.
    + apply IHk; [done|set_solver].
Qed.
End Subtree.

(** ** The database without a subtree *)

(** The sibling links around [o] closed and the ends of the list of [p] set. *)
Definition unlinked (p : Z) (l1 l2 : list Z) (M : gmap Z Cell) : gmap Z Cell :=
  setends p (l1 ++ l2) (setnext (last_off (-1) l1) (hd_off l2 (-1))
    (setprev (hd_off l2 (-1)) (last_off (-1) l1) M)).

Lemma unlinked_cell p l1 l2 M x c a l :
  M !! x = Some c -> cell_ok a l c ->
  exists c', unlinked p l1 l2 M !! x = Some c' /\ cell_ok a (if decide (x = p) then l1 ++ l2 else l) c'.
Proof.
  intros Hc Hck. unfold unlinked.
  pose proof (lookup_setprev M (hd_off l2 (-1)) (last_off (-1) l1) x c Hc) as E1.
  set (c1 := if decide _ then _ else _) in E1.
  pose proof (lookup_setnext _ (last_off (-1) l1) (hd_off l2 (-1)) x c1 E1) as E2.
  set (c2 := if decide _ then _ else _) in E2.
  assert (cell_ok a l c2) as Hck2.
  { unfold c2, c1. repeat case_decide; eauto with owdb. }
  unfold setends. case_decide as D.
  - subst x. rewrite lookup_alter_eq, E2. eexists. split; [done|]. by eapply cell_ok_ends.
  - rewrite lookup_alter_ne by done. eauto.
Qed.

Lemma unlinked_out p l1 l2 M y : y <> p -> y ∉ l1 ++ l2 -> M !! (-1) = None ->
  unlinked p l1 l2 M !! y = M !! y.
Proof.
  intros Hyp Hy HM. unfold unlinked, setends, setnext, setprev. rewrite lookup_alter_ne by done.
  destruct (decide (y = -1)) as [->|Hy1].
  { by rewrite HM, !alter_still_absent by (try apply alter_still_absent; done). }
  rewrite !lookup_alter_ne; [done|..].
  - intros E. destruct l2 as [|x l2]; simpl in E; [done|]. apply Hy. subst x. set_solver.
  - intros E. destruct (decide (l1 = [])) as [->|Hne]; simpl in E; [done|].
    apply Hy, elem_of_app. left. rewrite <- E. by apply last_off_elem.
Qed.

Lemma alter_pointwise (f : Cell -> Cell) i (M M' : gmap Z Cell) x : M !! x = M' !! x -> alter f i M !! x = alter f i M' !! x.
Proof.
  intros E. destruct (decide (i = x)) as [->|]; [by rewrite !lookup_alter_eq, E|by rewrite !lookup_alter_ne].
Qed.

Lemma unlinked_ext p l1 l2 M M' x : M !! x = M' !! x -> unlinked p l1 l2 M !! x = unlinked p l1 l2 M' !! x.
Proof. intros E. by do 3 apply alter_pointwise. Qed.

(** ** Descendants *)

Inductive below (A : Abs) (o : Z) : Z -> Prop :=
| below_top : below A o o
| below_child x a : nodes A !! x = Some a -> below A o (a_parent a) -> below A o x.

Lemma subtree_below v A n : Inv v A -> forall o x, x ∈ subtree n A o -> below A o x.
Proof.
  intros HI. induction n as [|n IH]; intros o x Hx; [set_solver|]. simpl in Hx.
  apply elem_of_cons in Hx as [->|(k & Hk & Hx)%(proj1 (elem_of_subtrees _ _ _ _))]; [constructor|].
  destruct (children_node v A HI o k Hk) as (a & Ha & Hp). specialize (IH k x Hx).
  clear Hx. induction IH as [|x ax Hax _ IHx]; [|by econstructor].
  econstructor; [done|]. rewrite Hp. constructor.
Qed.

Lemma below_subtree v A rank o a n : Inv v A -> v_heap v !! (-1) = None ->
  (forall o a, nodes A !! o = Some a -> a_parent a <> -1 -> (rank o < rank (a_parent a))%nat) ->
  nodes A !! o = Some a -> (rank o < n)%nat -> forall x, below A o x -> x ∈ subtree n A o.
Proof.
  intros HI HM Hr Ha Hn x. induction 1 as [|x ax Hax _ IH]; [by destruct n; [lia|left]|].
  by eapply subtree_down; eauto.
Qed.

(** The nodes strictly below a node that is to be removed. *)
Record doomed (A : Abs) (o : Z) (a : ANode) (R : gset Z) : Prop := {
  dm_below : forall x, x ∈ R ∪ {[o]} <-> below A o x;
  dm_node : forall x, x ∈ R ∪ {[o]} -> is_Some (nodes A !! x);
  dm_parent : a_parent a ∉ R ∪ {[o]};
  dm_self : o ∉ R;
  dm_up : forall x ax, x ∈ R ∪ {[o]} -> nodes A !! x = Some ax -> x = o \/ a_parent ax ∈ R ∪ {[o]};
  dm_down : forall x ax, nodes A !! x = Some ax -> a_parent ax ∈ R ∪ {[o]} -> x ∈ R ∪ {[o]}
}.

Lemma doomed_subtree v A (HI : Inv v A) (HM : v_heap v !! (-1) = None) rank
  (Hrank : forall o a, nodes A !! o = Some a -> a_parent a <> -1 -> (rank o < rank (a_parent a))%nat) o a :
  nodes A !! o = Some a ->
  doomed A o a (list_to_set (concat (subtree (rank o) A <$> children A o))).
Proof.
  intros Ha. set (R := list_to_set _ : gset Z).
  assert (forall x, x ∈ R ∪ {[o]} <-> x ∈ subtree (S (rank o)) A o) as HD.
  { intros x. cbn [subtree]. unfold R. clear. set_solver. }
  assert (forall x, x ∈ R ∪ {[o]} -> is_Some (nodes A !! x) /\ (x = o \/ (rank x < rank o)%nat)) as Hn.
  { intros x Hx. apply HD in Hx. eapply subtree_node; eauto. }
  pose proof (subtree_NoDup v A HI HM rank Hrank (S (rank o)) o ltac:(eauto)) as Hnd.
  constructor.
  - intros x. rewrite HD. split; [by eapply subtree_below|]. intros Hb. eapply below_subtree; eauto; lia.
  - intros x Hx. by apply Hn.
  - intros Hp. destruct (Hn _ Hp) as [[ap Hap] Hr]. pose proof (Hrank o a Ha (node_ne v A HI HM _ _ Hap)).
    destruct Hr as [E|]; [rewrite E in *|]; lia.
  - unfold R. rewrite elem_of_list_to_set. cbn [subtree] in Hnd. by apply NoDup_cons in Hnd as [? _].
  - intros x ax Hx Hax. apply HD in Hx.
    destruct (subtree_up v A HI HM rank Hrank (S (rank o)) o x) as [?|(a' & Ha' & Hp)]; eauto.
    right. apply HD. by simplify_eq.
  - intros x ax Hax Hp. apply HD. apply HD in Hp. eapply subtree_down; eauto; lia.
Qed.

Section Prune.
Context (v v' : View) (A : Abs) (o p : Z) (a : ANode) (l1 l2 : list Z) (D : gset Z) (fr' : list Z).
Hypothesis HI : Inv v A.
Hypothesis HM : v_heap v !! (-1) = None.
Hypothesis Ha : nodes A !! o = Some a.
Hypothesis Hap : a_parent a = p.
Hypothesis Hl : lists A !! p = Some (l1 ++ o :: l2).
Hypothesis HoD : o ∈ D.
Hypothesis HpD : p ∉ D.
Hypothesis HnD : -1 ∉ D.
Hypothesis Hup : forall x ax, x ∈ D -> nodes A !! x = Some ax -> x = o \/ a_parent ax ∈ D.
Hypothesis Hdown : forall x ax, nodes A !! x = Some ax -> a_parent ax ∈ D -> x ∈ D.
Hypothesis Hfl : flist v' fr'.
Hypothesis Hfc : forall x c, x ∈ fr' -> v_heap v' !! x = Some c -> bsize (c_blk c) <= 44 + zlen (c_pay c).
Hypothesis Hfr : forall x, x ∈ fr' <-> x ∈ frees A \/ x ∈ D.
Hypothesis EM : forall x ax, nodes A !! x = Some ax -> x ∉ D ->
  v_heap v' !! x = unlinked p l1 l2 (v_heap v) !! x.
Hypothesis Ei : forall k y, v_idx v' !! k = Some y <-> v_idx v !! k = Some y /\ y ∉ D.
Hypothesis Er : roots_ok v v' p (l1 ++ l2).

Definition pruned : Abs :=
  mkAbs (filter (fun kv => kv.1 ∉ D) (nodes A))
        (filter (fun kv => kv.1 ∉ D) (<[p := l1 ++ l2]> (lists A))) fr'.

Lemma pr_nodes x ax : nodes pruned !! x = Some ax <-> nodes A !! x = Some ax /\ x ∉ D.
Proof using. apply map_lookup_filter_Some. Qed.

Lemma pr_lists q lq : lists pruned !! q = Some lq <->
  (q = p /\ lq = l1 ++ l2) \/ (q <> p /\ lists A !! q = Some lq /\ q ∉ D).
Proof using HpD.
  unfold pruned; simpl. rewrite map_lookup_filter_Some, lookup_insert_Some. simpl. clear -HpD. naive_solver.
Qed.

Lemma pr_mem x : x ∈ l1 ++ l2 -> x ∈ l1 ++ o :: l2 /\ x <> o.
Proof.
  destruct (inv_list _ _ HI p _ Hl) as (_ & Hnd & _ & _). intros Hx. split; [set_solver|]. intros ->.
  apply NoDup_app in Hnd as (_ & Hd & Hnd). apply NoDup_cons in Hnd as [? _].
  apply elem_of_app in Hx as [Hx|Hx]; [|done]. apply (Hd o Hx). set_solver.
Qed.

Lemma pr_kid q lq x : lists A !! q = Some lq -> q ∉ D -> x ∈ lq -> x <> o ->
  exists ax, nodes A !! x = Some ax /\ a_parent ax = q /\ x ∉ D.
Proof.
  intros Hq HqD Hx Hxo. destruct (Inv_in_list _ _ _ _ _ HI Hq Hx) as (ax & Hax & Hp).
  exists ax. split_and!; auto. intros HxD. destruct (Hup x ax HxD Hax); congruence.
Qed.

Lemma pr_dseg q lq : lists A !! q = Some lq -> q <> p -> q ∉ D -> dseg (v_heap v') (-1) lq (-1).
Proof.
  intros Hq Hqp HqD. destruct (inv_list _ _ HI q lq Hq) as (_ & _ & Hs & _).
  assert (forall x, x ∈ lq -> x ∉ l1 ++ o :: l2) as Hdj.
  { intros x Hx Hx'. apply Hqp. by eapply (Inv_lists_disj _ _ _ _ _ _ x HI Hq Hl). }
  apply dseg_ext with (unlinked p l1 l2 (v_heap v)).
  - intros x Hx. destruct (pr_kid q lq x) as (ax & Hax & _ & HxD); auto.
    + intros ->. apply (Hdj o Hx). set_solver.
    + by eapply EM.
  - unfold unlinked. apply dseg_alter_links; [done..|]. apply dseg_alter_last.
    + by apply alter_still_absent.
    + intros x Hx Hx'. apply (Hdj x Hx). set_solver.
    + apply dseg_alter_hd; auto. intros x Hx Hx'. apply (Hdj x Hx). set_solver.
Qed.

Lemma pr_dseg_p : dseg (v_heap v') (-1) (l1 ++ l2) (-1).
Proof.
  destruct (inv_list _ _ HI p _ Hl) as (_ & Hnd & Hs & _).
  apply dseg_ext with (unlinked p l1 l2 (v_heap v)).
  - intros x Hx. destruct (pr_mem x Hx) as [Hx' Hxo].
    destruct (pr_kid p _ x Hl) as (ax & Hax & _ & HxD); auto. by eapply EM.
  - unfold unlinked. apply dseg_alter_links; [done..|]. by eapply dseg_unlink.
Qed.

Lemma pr_node x ax : nodes A !! x = Some ax -> x ∉ D ->
  exists l c, lists pruned !! x = Some l /\ v_heap v' !! x = Some c /\ cell_ok ax l c.
Proof.
  intros Hax HxD. destruct (inv_node _ _ HI x ax Hax) as (l & c & Hlx & Hc & Hck).
  destruct (unlinked_cell p l1 l2 (v_heap v) x c ax l Hc Hck) as (c' & Hc' & Hck').
  exists (if decide (x = p) then l1 ++ l2 else l), c'. rewrite (EM x ax) by done. split_and!; auto.
  apply pr_lists. case_decide; auto.
Qed.

Lemma Inv_prune : Inv v' pruned.
Proof.
  constructor; auto.
  - intros x ax [Hax HxD]%pr_nodes Hx. apply Hfr in Hx as [Hx|Hx]; [|done]. by eapply inv_disj.
  - intros x ax [Hax HxD]%pr_nodes. by apply pr_node.
  - intros q lq [[-> ->]|(Hqp & Hq & HqD)]%pr_lists.
    + destruct (inv_list _ _ HI p _ Hl) as ([Hp|[ap Hap']] & Hnd & _ & _); (split_and!;
        [ first [by left|right; exists ap; by apply pr_nodes]
        | by apply NoDup_app in Hnd as (? & Hd & [_ ?]%NoDup_cons); apply NoDup_app; split_and!; auto; set_solver
        | apply pr_dseg_p
        | intros k Hk; destruct (pr_mem k Hk) as [Hk' Hko];
          destruct (pr_kid p _ k Hl) as (ak & ? & ? & ?); auto; exists ak; by rewrite pr_nodes ]).
    + destruct (inv_list _ _ HI q lq Hq) as (Hn & Hnd & _ & Hm). split_and!; auto.
      * destruct Hn as [?|[aq Haq]]; [by left|right]. exists aq. by apply pr_nodes.
      * by eapply pr_dseg.
      * intros k Hk. destruct (pr_kid q lq k Hq) as (ak & ? & ? & ?); auto.
        -- intros ->. destruct (Hm _ Hk) as (? & ? & ?). congruence.
        -- exists ak. by rewrite pr_nodes.
  - intros x ax [Hax HxD]%pr_nodes. destruct (inv_up _ _ HI x ax Hax) as (lx & Hlx & Hx).
    assert (a_parent ax ∉ D) as HpxD by (intros ?; by eapply HxD, Hdown).
    destruct (decide (a_parent ax = p)) as [E|Hne].
    + exists (l1 ++ l2). split; [by apply pr_lists; left|]. rewrite E, Hl in Hlx. injection Hlx as <-.
      assert (x <> o) by congruence. set_solver.
    + exists lx. split; [by apply pr_lists; right|done].
  - pose proof Er as Er'. unfold roots_ok in Er'. destruct (decide (p = -1)) as [Ep|Hp].
    + exists (l1 ++ l2). split; [apply pr_lists; by left|done].
    + destruct (inv_roots _ _ HI) as (lr & Hlr & ? & ?). exists lr. destruct Er' as [-> ->].
      split; [|done]. apply pr_lists. right. auto.
  - intros k y. rewrite Ei, (inv_idx _ _ HI). split.
    + intros [(ay & Hay & Hk) HyD]. exists ay. by rewrite pr_nodes.
    + intros (ay & [Hay HyD]%pr_nodes & Hk). eauto.
  - destruct (inv_acyc _ _ HI) as [rank Hr]. exists rank. intros x ax [Hax _]%pr_nodes. by apply Hr.
Qed.
End Prune.
