(* ===== verification/HdbRemove.v ===== *)
(** * Taking a node out of its list of siblings *)

From S2P Require Import Prelude FileIO HdbCommon Index Hdb HdbHeap Dll FreeList HdbNode HdbInv HdbTree HdbAlloc HdbAdd HdbSubtree.

Lemma hd_unlink (l1 l2 : list Z) o : NoDup (l1 ++ o :: l2) ->
  (if hd_off (l1 ++ o :: l2) (-1) =? o then hd_off l2 (-1) else hd_off (l1 ++ o :: l2) (-1)) =
  hd_off (l1 ++ l2) (-1).
Proof.
  intros Hnd. destruct l1 as [|x l1]; simpl; [by rewrite Z.eqb_refl|].
  destruct (Z.eqb_spec x o) as [->|]; [|done]. apply NoDup_cons in Hnd as [Hn _]. set_solver.
Qed.

Lemma last_unlink (l1 l2 : list Z) o : NoDup (l1 ++ o :: l2) ->
  (if last_off (-1) (l1 ++ o :: l2) =? o then last_off (-1) l1 else last_off (-1) (l1 ++ o :: l2)) =
  last_off (-1) (l1 ++ l2).
Proof.
  intros Hnd. rewrite !last_off_app. simpl. destruct l2 as [|x l2]; simpl; [by rewrite Z.eqb_refl|].
  destruct (Z.eqb_spec (last_off x l2) o) as [E|]; [|done].
  apply NoDup_app in Hnd as (_ & _ & [Hn _]%NoDup_cons). destruct Hn. rewrite <- E.
  by apply (last_off_elem (-1) (x :: l2)).
Qed.

(** The ends of a list [l] after the member [o] went away or was renamed:
   [x1] replaces it as the first and [x2] as the last element of [l']. *)
Record new_ends (l l' : list Z) (o x1 x2 : Z) : Prop := {
  ne_hd : (if hd_off l (-1) =? o then x1 else hd_off l (-1)) = hd_off l' (-1);
  ne_last : (if last_off (-1) l =? o then x2 else last_off (-1) l) = last_off (-1) l'
}.

Lemma ends_unlink l1 l2 o : NoDup (l1 ++ o :: l2) ->
  new_ends (l1 ++ o :: l2) (l1 ++ l2) o (hd_off l2 (-1)) (last_off (-1) l1).
Proof. constructor; [by apply hd_unlink|by apply last_unlink]. Qed.

(** The parent's block as [unlinkSiblings] and [updateOffsets] compute it. *)
Lemma ends_replace l l' o x1 x2 b :
  new_ends l l' o x1 x2 -> firstChild b = hd_off l (-1) -> lastChild b = last_off (-1) l ->
  (let first := firstChild b =? o in
   let b1 := if first then set_firstChild x1 b else b in
   let last := lastChild b1 =? o in
   (if last then set_lastChild x2 b1 else b1) = ends_of l' b /\
   (first || last = false -> ends_of l' b = b)).
Proof.
  intros [Hh Hl'] Hf Hl. cbv zeta. unfold ends_of. rewrite <- Hh, <- Hl', <- Hf, <- Hl. clear.
  destruct b as [? ? ? ? ? ? ? ? fc lc ? ?]; simpl in *.
  destruct (fc =? o); simpl; destruct (lc =? o); simpl; by split.
Qed.

Section Unlink.
Context {F : Type} {fo : FileOps F} {fl : FileLaws F}.
Context {I : Type} {io : IndexOps I} {il : IndexLaws I}.
Implicit Types (s : St F I) (v : View).

Lemma alter_seal_id s v p c f :
  Rep s v -> v_heap v !! p = Some c -> f (c_blk c) = c_blk c -> alter (mod_blk f) p (v_heap v) = v_heap v.
Proof.
  intros H Hc E. rewrite (alter_alt_Some _ _ _ _ Hc). apply insert_id. rewrite Hc. f_equal.
  unfold mod_blk, with_blk. rewrite E, (heap_seal _ _ _ (rep_heap _ _ H) p c Hc). by destruct c.
Qed.

(** What is left of a view when only its header's roots and its blocks change. *)
Record steady (v v' : View) : Prop := {
  st_idx : v_idx v' = v_idx v;
  st_eof : v_eof v' = v_eof v;
  st_version : v_version v' = v_version v;
  st_free : firstFree (v_hdr v') = firstFree (v_hdr v)
}.

Lemma wp_ends_parent s v p c l l' o x1 x2 Q :
  Rep s v -> v_heap v !! p = Some c -> new_ends l l' o x1 x2 ->
  firstChild (c_blk c) = hd_off l (-1) -> lastChild (c_blk c) = last_off (-1) l ->
  is_s32 x1 -> is_s32 x2 ->
  (forall s', Rep s' (vheap (setends p l' (v_heap v)) v) -> Q () s') ->
  wp (fblk ← readBlock p;
      let first := firstChild fblk =? o in
      let fblk1 := if first then set_firstChild x1 fblk else fblk in
      let last := lastChild fblk1 =? o in
      let fblk2 := if last then set_lastChild x2 fblk1 else fblk1 in
      when (first || last) (_ ← writeBlock fblk2 p; mret ())) Q s.
Proof.
  intros H Hc Hne Hf Hl Hs1 Hs2 HQ. wstep. eapply wp_readBlock; [done..|]. intros s1 H1 _.
  destruct (ends_replace l l' o x1 x2 (c_blk c) Hne Hf Hl) as [Eb Hid].
  assert (block_ok (ends_of l' (c_blk c))) as Hbok.
  { destruct (Rep_ok _ _ _ _ H Hc). unfold ends_of. destruct Hne as [<- <-]. rewrite <- Hf, <- Hl.
    constructor; simpl; auto; by destr. }
  cbv zeta. rewrite Eb. apply wp_when; intros Et.
  - wstep. eapply wp_writeBlock_alter; [done..|]. intros s2 H2 _. wstep. by apply HQ.
  - apply HQ. unfold setends. rewrite (alter_seal_id s v p c _ H Hc (Hid Et)). by destruct v.
Qed.

Lemma wp_ends_roots s v l l' o x1 x2 Q :
  Rep s v -> new_ends l l' o x1 x2 -> firstRoot (v_hdr v) = hd_off l (-1) ->
  lastRoot (v_hdr v) = last_off (-1) l -> is_s32 x1 -> is_s32 x2 ->
  (forall s' v', Rep s' v' -> v_heap v' = v_heap v -> steady v v' -> roots_ok v v' (-1) l' -> Q () s') ->
  wp (s ← get;
      when (firstRoot (hdr s) =? o) (setFirstRootOffSet x1) ;;
      s ← get;
      when (lastRoot (hdr s) =? o) (setLastRootOffset x2)) Q s.
Proof.
  intros H [Hhu Hlu] Hf Hl Hs1 Hs2 HQ. wstep. wstep. rewrite (rep_hdr _ _ H). wstep. rewrite <- Hf in Hhu. rewrite <- Hl in Hlu.
  assert (forall s1 v1, Rep s1 v1 -> v_heap v1 = v_heap v -> steady v v1 ->
    firstRoot (v_hdr v1) = hd_off l' (-1) -> lastRoot (v_hdr v1) = lastRoot (v_hdr v) ->
    wp (s ← get; when (lastRoot (hdr s) =? o) (setLastRootOffset x2)) Q s1) as Hlast.
  { intros s1 v1 Hs1' Eh [] Ef El. wstep. wstep. rewrite (rep_hdr _ _ Hs1'), El.
    apply wp_when; intros Et; rewrite Et in Hlu.
    - eapply wp_setLastRoot; [done..|]. intros s2 Hs2'. eapply HQ; [exact Hs2'|done|done|].
      unfold roots_ok. by rewrite decide_True.
    - eapply HQ; [done..|]. unfold roots_ok. rewrite decide_True by done. split; [done|congruence]. }
  apply wp_when; intros Et; rewrite Et in Hhu.
  - eapply wp_setFirstRoot; [done..|]. intros s1 Hs1'. by eapply Hlast.
  - by eapply Hlast.
Qed.

Lemma wp_modBlock_if s v x f Q :
  Rep s v -> (x = -1 \/ exists c, v_heap v !! x = Some c /\ block_ok (f (c_blk c))) ->
  (forall s', Rep s' (vheap (alter (mod_blk f) x (v_heap v)) v) -> Q () s') ->
  wp (when (0 <? x) (b ← readBlock x; _ ← writeBlock (f b) x; mret ())) Q s.
Proof.
  intros H [->|(c & Hc & Hok)] HQ.
  - simpl. apply HQ. rewrite (alter_absent _ (-1)); [by destruct v|by eapply Rep_neg].
  - destruct (Rep_off _ _ _ _ H Hc). ztest. by eapply wp_modBlock.
Qed.

Record unlinkable (v : View) (n : HDBNodeData) (o p : Z) (l1 l2 : list Z) : Prop := {
  ul_offset : m_offset n = o;
  ul_next : nextSib (m_blk n) = hd_off l2 (-1);
  ul_prev : prevSib (m_blk n) = last_off (-1) l1;
  ul_parent : parent (m_blk n) = p;
  ul_nodup : NoDup (l1 ++ o :: l2);
  ul_cells : forall x, x ∈ l1 ++ l2 -> is_Some (v_heap v !! x);
  ul_root : p = -1 -> firstRoot (v_hdr v) = hd_off (l1 ++ o :: l2) (-1) /\
    lastRoot (v_hdr v) = last_off (-1) (l1 ++ o :: l2);
  ul_child : p <> -1 -> (p ∉ l1 ++ l2) /\ exists c, v_heap v !! p = Some c /\
    firstChild (c_blk c) = hd_off (l1 ++ o :: l2) (-1) /\
    lastChild (c_blk c) = last_off (-1) (l1 ++ o :: l2)
}.

Lemma end_cell s v l x : Rep s v -> (forall y, y ∈ l -> is_Some (v_heap v !! y)) ->
  (l <> [] -> x ∈ l) -> (l = [] -> x = -1) -> is_s32 x /\ (x = -1 \/ exists c, v_heap v !! x = Some c).
Proof.
  intros H Hl Hx Hn. destruct (decide (l = [])) as [E|E].
  - rewrite (Hn E). split; [unfold is_s32; lia|by left].
  - destruct (Hl x (Hx E)) as [c Hc]. destruct (Rep_off _ _ _ _ H Hc). split; [unfold is_s32; lia|eauto].
Qed.

Lemma wp_unlinkSiblings s v n o p l1 l2 Q :
  Rep s v -> unlinkable v n o p l1 l2 ->
  (forall s' v', Rep s' v' -> v_heap v' = unlinked p l1 l2 (v_heap v) -> steady v v' ->
     roots_ok v v' p (l1 ++ l2) -> Q () s') ->
  wp (unlinkSiblings n) Q s.
Proof.
  intros H [Eo En Ep Epa Hnd Hcells Hroot Hchild] HQ.
  destruct (end_cell s v l2 (hd_off l2 (-1)) H) as [Hs2 Hc2].
  { intros y Hy. apply Hcells. set_solver. }
  { apply hd_off_elem. } { by intros ->. }
  destruct (end_cell s v l1 (last_off (-1) l1) H) as [Hs1 Hc1].
  { intros y Hy. apply Hcells. set_solver. }
  { apply last_off_elem. } { by intros ->. }
  unfold unlinkSiblings. rewrite En, Ep, Epa, Eo. wstep. eapply wp_modBlock_if; [done| |].
  { destruct Hc2 as [->|[c Hc]]; [by left|right]. exists c. split; [done|]. apply block_ok_prev; [done|].
    by eapply Rep_ok. }
  intros s1 Hs1'. set (M1 := alter _ _ _) in *. wstep. eapply wp_modBlock_if; [done| |].
  { destruct Hc1 as [->|[c Hc]]; [by left|right].
    pose proof (lookup_setprev (v_heap v) (hd_off l2 (-1)) (last_off (-1) l1) _ c Hc) as Hc'.
    eexists. split; [exact Hc'|]. apply block_ok_next; [done|]. by eapply (Rep_ok s1); [done|exact Hc']. }
  intros s2 Hs2'. set (M2 := alter _ (last_off (-1) l1) _) in Hs2'. destruct (decide (p = -1)) as [->|Hp].
  - change (0 <? -1) with false. cbv iota. destruct (Hroot eq_refl).
    eapply wp_ends_roots; [exact Hs2'|by apply ends_unlink|done..|]. intros s3 v3 Hs3 Eh [] Hr. apply (HQ s3 v3); auto; [|by constructor].
    rewrite Eh. simpl. unfold unlinked, setends. rewrite (alter_absent _ (-1)); [done|].
    apply alter_still_absent, alter_still_absent. by eapply Rep_neg.
  - destruct (Hchild Hp) as (Hpl & c & Hc & Hf & Hl). destruct (Rep_off _ _ _ _ H Hc). ztest.
    assert (M2 !! p = Some c) as Hcp.
    { assert (hd_off l2 (-1) <> p) as N1.
      { destruct l2 as [|y l2']; simpl; [lia|]. intros ->. apply Hpl, elem_of_app. right. by apply list_elem_of_here. }
      assert (last_off (-1) l1 <> p) as N2.
      { destruct (decide (l1 = [])) as [->|Hne]; simpl; [lia|]. intros E.
        apply Hpl, elem_of_app. left. rewrite <- E. by apply last_off_elem. }
      unfold M2. rewrite lookup_alter_ne by done. change (M1 !! p = Some c). unfold M1. by rewrite lookup_alter_ne. }
    eapply (wp_ends_parent s2 (vheap M2 v)); [exact Hs2'|exact Hcp|by apply ends_unlink|done..|]. intros s3 Hs3. eapply HQ; [exact Hs3|done|done|].
    unfold roots_ok. by rewrite decide_False.
Qed.
End Unlink.

(** * Removing a node and everything below it *)

(** During a removal: the blocks of [R] went from the nodes of [A] to the free
   list [l], their keys left the index; nothing else of [v0] changed. *)
Record Rem (v0 : View) (A : Abs) (v : View) (R : gset Z) (l : list Z) : Prop := {
  rm_free : flist v l;
  rm_cell : forall x c, x ∈ l -> v_heap v !! x = Some c -> bsize (c_blk c) <= 44 + zlen (c_pay c);
  rm_mem : forall x, x ∈ l <-> x ∈ frees A \/ x ∈ R;
  rm_heap : forall x, x ∉ l -> v_heap v !! x = v_heap v0 !! x;
  rm_idx : forall k y, v_idx v !! k = Some y <-> v_idx v0 !! k = Some y /\ y ∉ R;
  rm_eof : v_eof v = v_eof v0;
  rm_version : v_version v = v_version v0;
  rm_firstRoot : firstRoot (v_hdr v) = firstRoot (v_hdr v0);
  rm_lastRoot : lastRoot (v_hdr v) = lastRoot (v_hdr v0)
}.

Lemma Rem_start v A : Inv v A -> Rem v A v ∅ (frees A).
Proof. intros []. constructor; auto; set_solver. Qed.

(** Free blocks keep their sizes when a block joins them. *)
Lemma freed_cells v v' (l l1 l2 : list Z) o b c :
  lframe (o :: l) (vput o (freed b c) v) v' -> l = l1 ++ l2 ->
  (forall x cx, x ∈ l -> v_heap v !! x = Some cx -> bsize (c_blk cx) <= 44 + zlen (c_pay cx)) ->
  bsize b <= 44 + zlen (c_pay c) ->
  forall x cx, x ∈ l1 ++ o :: l2 -> v_heap v' !! x = Some cx -> bsize (c_blk cx) <= 44 + zlen (c_pay cx).
Proof.
  intros Hfr -> Hl Hc x cx Hx Hcx. destruct (decide (x = o)) as [->|Hxo].
  - destruct (lf_in _ _ _ Hfr o (freed b c)) as (c3 & Hc3 & Hp3 & Hk3); [apply lookup_insert_eq|].
    rewrite Hcx in Hc3. injection Hc3 as <-. rewrite Hp3. apply (f_equal bsize) in Hk3. simpl in *. lia.
  - destruct (v_heap v !! x) as [c1|] eqn:E.
    2:{ rewrite (lf_none _ _ _ Hfr) in Hcx; [done|]. simpl. by rewrite lookup_insert_ne. }
    destruct (lf_in _ _ _ Hfr x c1) as (c3 & Hc3 & Hp3 & Hk3); [simpl; by rewrite lookup_insert_ne|].
    rewrite Hcx in Hc3. injection Hc3 as <-. apply (f_equal bsize) in Hk3. simpl in *. rewrite Hp3, Hk3.
    apply (Hl x); [|done]. set_solver.
Qed.

Section Remove.
Context {F : Type} {fo : FileOps F} {fl : FileLaws F}.
Context {I : Type} {io : IndexOps I} {il : IndexLaws I}.
Implicit Types (s : St F I).

Section Loop.
Context (v0 : View) (A : Abs) (HI : Inv v0 A) (Hneg : v_heap v0 !! (-1) = None).
Context (rank : Z -> nat).
Hypothesis Hrank : forall o a, nodes A !! o = Some a -> a_parent a <> -1 -> (rank o < rank (a_parent a))%nat.

(** A node that is still in place. *)
Lemma Rem_cell s v R l o a : Rep s v -> Rem v0 A v R l -> nodes A !! o = Some a -> o ∉ R ->
  (o ∉ l) /\ exists lo c, lists A !! o = Some lo /\ v_heap v !! o = Some c /\
    v_heap v0 !! o = Some c /\ cell_ok a lo c /\ 32 <= o < 2147483648.
Proof.
  intros H HR Ha HoR. assert (o ∉ l) as Hol.
  { intros Ho. apply (rm_mem _ _ _ _ _ HR) in Ho as [Ho|Ho]; [|done]. by apply (inv_disj _ _ HI o a). }
  split; [done|]. destruct (inv_node _ _ HI o a Ha) as (lo & c & Hlo & Hc & Hck).
  exists lo, c. rewrite (rm_heap _ _ _ _ _ HR o Hol). split_and!; auto;
    (destruct (Rep_off s v o c H); [by rewrite (rm_heap _ _ _ _ _ HR o Hol)|lia]).
Qed.

(** One block of the removal: its key leaves the index, the block is freed. *)
Lemma wp_free_one s v R l o a c :
  Rep s v -> Rem v0 A v R l -> nodes A !! o = Some a -> o ∉ R -> v_heap v0 !! o = Some c ->
  wp (kbfr ← file_read (keyLength (c_blk c)) (o + sizeof_HDBBlock);
      if negb (zlen kbfr =? keyLength (c_blk c)) then throw "Failed to read node's key for removal"
      else _ ← removeIndexEntry (cstr kbfr); addBlockToFreeList (c_blk c) o)
     (fun _ s' => exists v' l', Rep s' v' /\ Rem v0 A v' (R ∪ {[o]}) l') s.
Proof.
  intros H HR Ha HoR Hc0. destruct (Rem_cell s v R l o a H HR Ha HoR) as (Hol & lo & c' & Hlo & Hc & Hc' & Hck & Ho).
  simplify_eq. pose proof (ck_pay _ _ _ Hck) as Hpay. pose proof (pay_len _ _ _ Hpay).
  pose proof (zlen_nonneg (a_key a)). pose proof (zlen_nonneg (a_data a)).
  pose proof (ck_keyLength _ _ _ Hck) as Hkl. unfold sizeof_HDBBlock.
  wstep. eapply wp_file_read; [done|lia|ztest; lia|]. ztest.
  replace (o + 44) with (o + 44 + 0) by lia.
  rewrite (heap_sub_pay _ _ _ _ _ 0 _ (rep_heap _ _ H) Hc) by lia.
  rewrite Hkl, (pay_key _ _ _ Hpay). intros s1 Hs1 _ _.
  replace (zlen (a_key a ++ [0])) with (zlen (a_key a) + 1) by len. rewrite Z.eqb_refl. cbn [negb].
  destruct (ck_key _ _ _ Hck) as [Hk0 Hk]. rewrite cstr_key by done.
  assert (v_idx v0 !! a_key a = Some o) as Hi0 by (apply (inv_idx _ _ HI); eauto).
  wstep. eapply (wp_removeIndexEntry _ _ _ o); [done| |done|lia|].
  { by apply (rm_idx _ _ _ _ _ HR). }
  intros s2 Hs2 _.
  eapply wp_mono; [apply (wp_addBlockToFreeList s2 _ l o c (c_blk c) Hs2); simpl; auto|].
  { eapply flist_ext; [apply HR|done|done]. }
  { by eapply Rep_ok. }
  intros _ s3 (v' & l1 & l2 & El & Hs3 & Hfl & Hfr). exists v', (l1 ++ o :: l2). split; [done|].
  assert (forall x, x ∈ l1 ++ o :: l2 <-> x = o \/ x ∈ l) as Hmem by (intros x; rewrite El; set_solver).
  constructor; auto.
  - eapply freed_cells; [exact Hfr|done|apply HR|apply Hck].
  - intros x. rewrite Hmem, (rm_mem _ _ _ _ _ HR). set_solver.
  - intros x Hx. rewrite (lf_out _ _ _ Hfr) by (rewrite Hmem in Hx; set_solver). simpl.
    rewrite Hmem in Hx. rewrite lookup_insert_ne by naive_solver. apply HR. naive_solver.
  - intros k y. rewrite (lf_idx _ _ _ Hfr). simpl. rewrite lookup_delete_Some, (rm_idx _ _ _ _ _ HR).
    split; [intros (Hne & Hy & HyR)|intros (Hy & HyR)].
    + split; [done|]. apply not_elem_of_union. split; [done|]. intros ->%elem_of_singleton.
      apply (inv_idx _ _ HI) in Hy as (a2 & Ha2 & Hk2). congruence.
    + apply not_elem_of_union in HyR as [HyR Hyo]. split_and!; auto.
      intros E. rewrite <- E in Hy. apply Hyo, elem_of_singleton. congruence.
  - rewrite (lf_eof _ _ _ Hfr). apply HR.
  - rewrite (lf_version _ _ _ Hfr). apply HR.
  - rewrite (lf_firstRoot _ _ _ Hfr). apply HR.
  - rewrite (lf_lastRoot _ _ _ Hfr). apply HR.
Qed.

Lemma Rem_eq v R R' l : (forall x, x ∈ R <-> x ∈ R') -> Rem v0 A v R l -> Rem v0 A v R' l.
Proof. intros E. by replace R' with R by (apply set_eq, E). Qed.

Lemma wp_children_loop n (rb : HDBBlock -> Z -> Prog (St F I) ()) o :
  o <> -1 -> (forall k, k ∈ children A o -> (rank k < n)%nat) ->
  (forall k a c s v R l, k ∈ children A o -> nodes A !! k = Some a -> v_heap v0 !! k = Some c ->
     Rep s v -> Rem v0 A v R l -> (forall x, x ∈ subtree n A k -> x ∉ R) ->
     wp (rb (c_blk c) k) (fun _ s' => exists v' l', Rep s' v' /\
       Rem v0 A v' (R ∪ list_to_set (subtree n A k)) l') s) ->
  forall ks rest fuel s v R l, children A o = ks ++ rest -> (length ks <= fuel)%nat ->
    Rep s v -> Rem v0 A v R l -> (forall x, x ∈ concat (subtree n A <$> ks) -> x ∉ R) ->
    wp (children_loop rb fuel (last_off (-1) ks)) (fun _ s' => exists v' l', Rep s' v' /\
       Rem v0 A v' (R ∪ list_to_set (concat (subtree n A <$> ks))) l') s.
Proof.
  intros Ho Hr Hrb ks. induction ks as [|k ks IH] using rev_ind; intros rest fuel s v R l Hl Hf H HR Hd.
  { simpl. destruct fuel; simpl; wstep; exists v, l; (split; [done|]); (eapply Rem_eq; [|done]); set_solver. }
  rewrite last_off_app. rewrite length_app in Hf. simpl in Hf. destruct fuel as [|fuel]; [lia|].
  unfold children in Hl. destruct (lists A !! o) as [lo|] eqn:Elo; simpl in Hl; [|by destruct ks].
  rewrite <- app_assoc in Hl. simpl in Hl.
  assert (children A o = ks ++ k :: rest) as Hch by (unfold children; by rewrite Elo).
  destruct (inv_list _ _ HI o lo Elo) as (_ & Hnd & Hseg & _). rewrite Hl in Hnd, Hseg.
  assert (k ∈ children A o) as Hk by (rewrite Hch; set_solver).
  destruct (children_node v0 A HI o k Hk) as (a & Ha & _).
  assert (forall x, x ∈ subtree n A k -> x ∉ R) as Hdk.
  { intros x Hx. apply Hd. rewrite elem_of_subtrees. set_solver. }
  destruct (Rem_cell s v R l k a H HR Ha) as (_ & lk & c & _ & Hc & Hc0 & Hck & Hko).
  { apply Hdk, (subtree_top rank); auto. }
  simpl. ztest. wstep. eapply wp_readBlock; [done..|]. intros s1 Hs1 _. wstep.
  eapply wp_mono; [by apply (Hrb k a c s1 v R l)|]. intros _ s2 (v' & l' & Hs2 & HR').
  destruct (dseg_at _ _ _ _ _ _ _ Hseg Hc0) as [-> _].
  eapply wp_mono; [apply (IH (k :: rest) fuel s2 v' (R ∪ list_to_set (subtree n A k)) l'); auto; [lia|]|].
  - intros x (k2 & Hk2 & Hx)%elem_of_subtrees. apply not_elem_of_union. split.
    + apply Hd. rewrite elem_of_subtrees. set_solver.
    + rewrite elem_of_list_to_set. intros Hx'.
      apply (subtree_disj v0 A HI Hneg rank Hrank n n o k k2 x); auto; [rewrite Hch; set_solver|].
      intros ->. apply NoDup_app in Hnd as (_ & Hdj & _). apply (Hdj k2); set_solver.
  - intros _ s3 (v'' & l'' & Hs3 & HR''). exists v'', l''. split; [done|].
    eapply Rem_eq; [|exact HR'']. intros x. rewrite fmap_app, concat_app. simpl. rewrite app_nil_r. set_solver.
Qed.

Lemma wp_removeBlock n : forall o a c fuel s v R l, (rank o < n)%nat ->
  nodes A !! o = Some a -> v_heap v0 !! o = Some c -> (length (subtree n A o) <= fuel)%nat ->
  Rep s v -> Rem v0 A v R l -> (forall x, x ∈ subtree n A o -> x ∉ R) ->
  wp (removeBlock fuel (c_blk c) o) (fun _ s' => exists v' l', Rep s' v' /\
     Rem v0 A v' (R ∪ list_to_set (subtree n A o)) l') s.
Proof.
  induction n as [|n IH]; intros o a c fuel s v R l Hn Ha Hc Hf H HR Hd; [lia|].
  simpl in Hf, Hd. destruct fuel as [|fuel]; [lia|]. pose proof (node_ne v0 A HI Hneg o a Ha) as Hone.
  destruct (inv_node _ _ HI o a Ha) as (lo & c' & Hlo & Hc' & Hck). simplify_eq.
  assert (children A o = lo) as Hch by (unfold children; by rewrite Hlo). rewrite Hch in *.
  assert (forall k, k ∈ children A o -> (rank k < n)%nat) as Hkr.
  { intros k Hk. pose proof (children_rank v0 A HI rank Hrank o k Hone Hk). lia. }
  pose proof (length_subtrees rank n A (children A o) Hkr) as Hlen. rewrite Hch in Hlen.
  cbn [removeBlock]. rewrite (ck_last _ _ _ Hck). wstep.
  eapply wp_mono; [apply (wp_children_loop n (removeBlock fuel) o Hone Hkr) with (rest := []) (R := R) (v := v) (l := l); auto|].
  - intros k ak ck s1 v1 R1 l1 Hk Hak Hck1 H1 HR1 Hd1. eapply IH; eauto.
    rewrite Hch in Hk. pose proof (length_subtree_kid n A lo k Hk). lia.
  - rewrite app_nil_r. done.
  - lia.
  - intros x Hx. apply Hd. set_solver.
  - intros _ s1 (v1 & l1 & Hs1 & HR1).
    eapply wp_mono; [eapply (wp_free_one s1 v1 _ l1 o a c Hs1 HR1 Ha); [|done]|].
    + apply not_elem_of_union. split; [apply Hd; set_solver|]. rewrite elem_of_list_to_set.
      rewrite <- Hch. intros Hx. pose proof (subtree_NoDup v0 A HI Hneg rank Hrank (S n) o ltac:(eauto)) as Hnd.
      simpl in Hnd. by apply NoDup_cons in Hnd as [? _].
    + intros _ s2 (v2 & l2 & Hs2 & HR2). exists v2, l2. split; [done|].
      eapply Rem_eq; [|exact HR2]. intros x. simpl. rewrite Hch. set_solver.
Qed.
End Loop.

(** ** The node itself *)

Lemma Rem_cells v A v1 R l x a : Inv v A -> Rem v A v1 R l -> nodes A !! x = Some a -> x ∉ R ->
  (x ∉ l) /\ v_heap v1 !! x = v_heap v !! x.
Proof.
  intros HI HR Ha HxR. assert (x ∉ l) as Hxl; [|split; [done|by apply HR]].
  intros Hx. apply (rm_mem _ _ _ _ _ HR) in Hx as [Hx|Hx]; [|done]. by apply (inv_disj _ _ HI x a).
Qed.

Lemma Rem_unlinkable s v A v1 R l o a c n l1 l2 :
  Rep s v1 -> Inv v A -> Rem v A v1 R l -> nodes A !! o = Some a -> v_heap v !! o = Some c ->
  Node_read v o a c n -> lists A !! a_parent a = Some (l1 ++ o :: l2) ->
  (forall x, x ∈ l1 ++ l2 -> x ∉ R) -> a_parent a ∉ R ->
  unlinkable v1 n o (a_parent a) l1 l2.
Proof.
  intros H HI HR Ha Hc Hn Hl Hsib HpR.
  destruct (inv_list _ _ HI _ _ Hl) as (Hpn & Hnd & Hseg & Hm).
  destruct (dseg_at _ _ _ _ _ _ _ Hseg Hc) as [Hprev Hnext].
  destruct (inv_node _ _ HI o a Ha) as (lo & c' & _ & Hc' & Hck). simplify_eq.
  assert (forall x, x ∈ l1 ++ l2 -> exists ax, nodes A !! x = Some ax /\ a_parent ax = a_parent a) as Hsn.
  { intros x Hx. apply Hm. set_solver. }
  constructor; rewrite ?(nr_blk _ _ _ _ _ Hn); auto.
  - apply Hn.
  - apply Hck.
  - intros x Hx. destruct (Hsn x Hx) as (ax & Hax & _).
    destruct (Rem_cells _ _ _ _ _ _ _ HI HR Hax (Hsib x Hx)) as [_ ->].
    destruct (inv_node _ _ HI x ax Hax) as (? & cx & _ & Hcx & _). eauto.
  - intros Hp. rewrite (rm_firstRoot _ _ _ _ _ HR), (rm_lastRoot _ _ _ _ _ HR).
    destruct (inv_roots _ _ HI) as (lr & Hlr & ? & ?). rewrite Hp, Hlr in Hl. by simplify_eq.
  - intros Hp. split.
    + intros Hx. destruct (Hsn _ Hx) as (ax & Hax & Ep). by apply (Inv_not_self _ _ _ _ HI Hax); [congruence|].
    + destruct Hpn as [?|[ap Hap]]; [done|].
      destruct (inv_node _ _ HI _ _ Hap) as (lp & cp & Hlp & Hcp & Hckp). exists cp.
      destruct (Rem_cells _ _ _ _ _ _ _ HI HR Hap HpR) as [_ ->].
      rewrite Hl in Hlp. injection Hlp as <-. split_and!; [done|apply Hckp..].
Qed.

Lemma wp_remove_self {B} s v A v1 R l o a c n l1 l2 (r : B) (Q : B -> St F I -> Prop) :
  Rep s v1 -> Inv v A -> v_heap v !! (-1) = None -> Rem v A v1 R l ->
  nodes A !! o = Some a -> v_heap v !! o = Some c -> Node_read v o a c n ->
  lists A !! a_parent a = Some (l1 ++ o :: l2) ->
  doomed A o a R ->
  (forall s' v' fr, Rep s' v' -> Inv v' (pruned A (a_parent a) l1 l2 (R ∪ {[o]}) fr) ->
     (forall x, x ∈ fr <-> x ∈ frees A \/ x ∈ R ∪ {[o]}) -> Q r s') ->
  wp (unlinkSiblings n ;; addBlockToFreeList (m_blk n) (m_offset n) ;;
      _ ← removeIndexEntry (cstr (m_key n)); _ ← registerWrite; mret r) Q s.
Proof.
  intros H HI HM HR Ha Hc Hn Hl [_ Hnodes HpD HoR Hup Hdown] HQ.
  apply not_elem_of_union in HpD as HpR. destruct HpR as [HpR Hpo].
  destruct (inv_list _ _ HI _ _ Hl) as (Hpn & Hnd & _ & Hm).
  assert (o ∉ l1 ++ l2) as Hol by (rewrite <- Permutation_middle in Hnd; by apply NoDup_cons in Hnd as [? _]).
  assert (forall x, x ∈ l1 ++ l2 -> x ∉ R) as Hsib.
  { intros x Hx HxR. destruct (Hm x) as (ax & Hax & Ex); [set_solver|].
    destruct (Hup x ax) as [->|?]; [set_solver..|done|]. by rewrite Ex in *. }
  pose proof (Rem_unlinkable _ _ _ _ _ _ _ _ _ _ _ _ H HI HR Ha Hc Hn Hl Hsib HpR) as Hul.
  destruct (Rem_cells _ _ _ _ _ _ _ HI HR Ha HoR) as [Hofl Eo1].
  destruct (inv_node _ _ HI o a Ha) as (lo & c' & _ & Hc' & Hck). simplify_eq.
  pose proof (Rep_neg _ _ H) as HM1.
  wstep. eapply wp_unlinkSiblings; [done..|]. intros s2 v2 Hs2 EM [] Hroots.
  assert (forall y, y <> a_parent a -> y ∉ l1 ++ l2 -> v_heap v2 !! y = v_heap v1 !! y) as Hout.
  { intros y Hy1 Hy2. rewrite EM. by apply unlinked_out. }
  assert (v_heap v2 !! o = Some c) as Hc2 by (rewrite Hout, Eo1 by set_solver; done).
  assert (forall y, y ∈ l -> y <> a_parent a /\ y ∉ l1 ++ l2) as Hfreeout.
  { intros y Hy. split.
    - intros ->. destruct Hpn as [E|[ap Hap]].
      + rewrite E in Hy. destruct (dseg_lookup _ _ _ _ _ (fl_seg _ _ (rm_free _ _ _ _ _ HR)) Hy). congruence.
      + by destruct (Rem_cells _ _ _ _ _ _ _ HI HR Hap HpR).
    - intros Hy'. destruct (Hm y) as (ay & Hay & _); [set_solver|].
      by destruct (Rem_cells _ _ _ _ _ _ _ HI HR Hay (Hsib y Hy')). }
  wstep. rewrite (nr_offset _ _ _ _ _ Hn), (nr_blk _ _ _ _ _ Hn), (nr_key _ _ _ _ _ Hn).
  eapply wp_mono; [apply (wp_addBlockToFreeList s2 v2 l o c (c_blk c) Hs2); auto|].
  { eapply flist_ext; [apply HR|done|]. intros y Hy. destruct (Hfreeout y Hy). auto. }
  { by eapply Rep_ok. }
  intros _ s3 (v3 & f1 & f2 & El & Hs3 & Hfl & Hfr). wstep.
  destruct (ck_key _ _ _ Hck) as [Hk0 Hk]. rewrite cstr_id by done.
  assert (v_idx v3 = v_idx v1) as Ei3 by (rewrite (lf_idx _ _ _ Hfr); done).
  assert (v_idx v !! a_key a = Some o) as Hi0 by (apply (inv_idx _ _ HI); eauto).
  destruct (Rep_off _ _ _ _ Hs2 Hc2) as [Ho _].
  eapply (wp_removeIndexEntry _ _ _ o); [done|by rewrite Ei3, (rm_idx _ _ _ _ _ HR)|done|lia|].
  intros s4 Hs4 _. wstep. eapply wp_registerWrite; [done|]. intros s5 Hs5. wstep.
  assert (forall x, x ∈ f1 ++ o :: f2 <-> x ∈ frees A \/ x ∈ R ∪ {[o]}) as Hmem.
  { intros x. pose proof (rm_mem _ _ _ _ _ HR x) as Hx. rewrite El in Hx. clear -Hx. set_solver. }
  apply (HQ s5 _ (f1 ++ o :: f2) Hs5); [|done].
  apply Inv_prune with (v := v) (o := o) (a := a); auto; simpl.
  - clear. set_solver.
  - intros E. destruct (Hnodes _ E) as [ax Hax]. by rewrite (node_neg v A HI HM) in Hax.
  - destruct Hfl. by constructor.
  - eapply freed_cells; [exact Hfr|done| |apply Hck]. intros x cx Hx Hcx.
    destruct (Hfreeout x Hx). rewrite Hout in Hcx by done. by eapply (rm_cell _ _ _ _ _ HR x).
  - intros x ax Hax [HxR Hxo]%not_elem_of_union.
    destruct (Rem_cells _ _ _ _ _ _ _ HI HR Hax HxR) as [Hxl Ex].
    rewrite (lf_out _ _ _ Hfr) by set_solver. simpl. rewrite lookup_insert_ne by set_solver.
    rewrite EM. by apply unlinked_ext.
  - intros k y. rewrite lookup_delete_Some, Ei3, (rm_idx _ _ _ _ _ HR).
    rewrite not_elem_of_union, not_elem_of_singleton. split.
    + intros (Hne & Hy & HyR). split_and!; auto. intros ->.
      apply (inv_idx _ _ HI) in Hy as (a2 & Ha2 & Hk2). congruence.
    + intros (Hy & HyR & Hyo). split_and!; auto. intros <-. congruence.
  - unfold roots_ok in *. simpl. rewrite (lf_firstRoot _ _ _ Hfr), (lf_lastRoot _ _ _ Hfr). simpl.
    case_decide; [done|]. by rewrite <- (rm_firstRoot _ _ _ _ _ HR), <- (rm_lastRoot _ _ _ _ _ HR).
Qed.

(** [A'] is [A] without [o] and the nodes below it. *)
Record removed (A A' : Abs) (o p : Z) (l1 l2 : list Z) : Prop := {
  rd_nodes : forall x ax, nodes A' !! x = Some ax <-> nodes A !! x = Some ax /\ ~ below A o x;
  rd_lists : forall q lq, lists A' !! q = Some lq <->
    (q = p /\ lq = l1 ++ l2) \/ (q <> p /\ lists A !! q = Some lq /\ ~ below A o q);
  rd_frees : forall x, x ∈ frees A' <-> x ∈ frees A \/ below A o x
}.

Lemma wp_remove s v A o a c n l1 l2 :
  Rep s v -> Inv v A -> nodes A !! o = Some a -> v_heap v !! o = Some c -> Node_read v o a c n ->
  lists A !! a_parent a = Some (l1 ++ o :: l2) ->
  wp (remove n) (fun r s' => exists v' A' n', r = (true, n') /\ m_offset n' = -1 /\
    Rep s' v' /\ Inv v' A' /\ removed A A' o (a_parent a) l1 l2) s.
Proof.
  intros H HI Ha Hc Hn Hl. destruct (inv_acyc _ _ HI) as [rank Hrank]. pose proof (Rep_neg _ _ H) as HM.
  destruct (Inv_node _ _ _ _ _ H HI Ha) as (lo & c' & Hlo & Hc' & Hck & Ho & _). simplify_eq.
  assert (Hch : children A o = lo) by (unfold children; by rewrite Hlo).
  assert (Hone : o <> -1) by lia.
  pose proof (doomed_subtree v A HI HM rank Hrank o a Ha) as HD.
  set (R := list_to_set (concat (subtree (rank o) A <$> children A o)) : gset Z) in *.
  pose proof (subtree_NoDup v A HI HM rank Hrank (S (rank o)) o ltac:(eauto)) as Hnd.
  assert (length (subtree (S (rank o)) A o) <= file_fuel s)%nat as Hfuel.
  { eapply cells_fuel; [done| |done]. intros x Hx.
    destruct (subtree_node v A HI HM rank Hrank (S (rank o)) o x) as [[ax Hax] _]; eauto.
    destruct (inv_node _ _ HI x ax Hax) as (? & cx & _ & Hcx & _). eauto. }
  assert (Hkr : forall k, k ∈ children A o -> (rank k < rank o)%nat) by (by intros; eapply children_rank).
  pose proof (length_subtrees rank (rank o) A (children A o) Hkr) as Hlen. cbn [subtree length] in Hfuel.
  unfold remove. rewrite (nr_offset _ _ _ _ _ Hn) at 1. ztest. wstep. wstep. wstep.
  rewrite (nr_blk _ _ _ _ _ Hn) at 1. rewrite (ck_last _ _ _ Hck), <- Hch.
  eapply wp_mono; [apply (wp_children_loop v A HI HM rank Hrank (rank o) (removeBlock (file_fuel s)) o Hone Hkr)
    with (rest := []) (R := ∅) (v := v) (l := frees A); auto using Rem_start|].
  { intros k ak ck s1 v1 R1 l1' Hk Hak Hck1 H1 HR1 Hd1. eapply wp_removeBlock; eauto.
    pose proof (length_subtree_kid (rank o) A _ k Hk). lia. }
  { by rewrite app_nil_r. }
  { lia. }
  { intros x _. apply not_elem_of_empty. }
  intros _ s1 (v1 & fr1 & Hs1 & HR1). fold R in HR1. rewrite union_empty_l_L in HR1.
  eapply wp_remove_self; [exact Hs1|exact HI|done|exact HR1|done|done|done|done|exact HD|].
  intros s2 v2 fr Hs2 HI2 Hfr.
  exists v2, (pruned A (a_parent a) l1 l2 (R ∪ {[o]}) fr). eexists. split_and!; [reflexivity|done|done|done|].
  pose proof (dm_parent _ _ _ _ HD) as Hp. constructor.
  - intros x ax. unfold pruned; simpl. by rewrite map_lookup_filter_Some, <- (dm_below _ _ _ _ HD).
  - intros q lq. rewrite pr_lists, <- (dm_below _ _ _ _ HD) by done. done.
  - intros x. simpl. by rewrite Hfr, <- (dm_below _ _ _ _ HD).
Qed.

(** [HDBHandle::removeNode] with a node object: it is brought up to date first. *)
Lemma wp_removeNode s v A o a c n l1 l2 :
  Rep s v -> Inv v A -> nodes A !! o = Some a -> v_heap v !! o = Some c -> current v o a c n ->
  lists A !! a_parent a = Some (l1 ++ o :: l2) ->
  wp (removeNode (Some n)) (fun r s' => exists v' A' n', r = (true, Some n') /\ m_offset n' = -1 /\
    Rep s' v' /\ Inv v' A' /\ removed A A' o (a_parent a) l1 l2) s.
Proof.
  intros H HI Ha Hc [Hold Hver] Hl. destruct (Inv_node _ _ _ _ _ H HI Ha) as (_ & _ & _ & _ & _ & Ho & _).
  unfold removeNode. rewrite (no_offset _ _ _ Hold). ztest. wstep. eapply wp_reload; [done..|].
  intros s1 n1 Hs1 Hn1. wstep. eapply wp_mono; [by apply (wp_remove s1 v A o a c n1 l1 l2)|].
  intros r s2 (v' & A' & n' & -> & Ho' & Hrest). wstep. by exists v', A', n'.
Qed.
End Remove.
