(* ===== verification/HdbUpdate.v ===== *)
(** * Looking up and walking the forest *)

From S2P Require Import Prelude FileIO HdbCommon Index Hdb HdbHeap Dll FreeList HdbNode HdbInv HdbTree HdbAlloc HdbAdd HdbSubtree.

(** What a handle gives for the node at [x]; [x] = -1 means there is none. *)
Definition fetched (v : View) (A : Abs) (x : Z) (r : HDBNode) : Prop :=
  match r with
  | None => x = -1
  | Some n => exists a c, nodes A !! x = Some a /\ v_heap v !! x = Some c /\ Node_read v x a c n
  end.

Section Read.
Context {F : Type} {fo : FileOps F} {fl : FileLaws F}.
Context {I : Type} {io : IndexOps I} {il : IndexLaws I}.
Implicit Types (s : St F I) (v : View) (A : Abs).

Lemma wp_nodeByOffset s v A x Q :
  Rep s v -> Inv v A -> (x = -1 \/ is_Some (nodes A !! x)) ->
  (forall s' r, Rep s' v -> fetched v A x r -> Q r s') ->
  wp (nodeByOffset x) Q s.
Proof.
  intros H HI Hx HQ. unfold nodeByOffset. destruct Hx as [->|[a Ha]].
  - simpl. wstep. by apply HQ.
  - destruct (Inv_node _ _ _ _ _ H HI Ha) as (l & c & _ & Hc & _ & Hx & _). ztest.
    eapply wp_read; [done..|]. intros s' n Hs' Hn. apply HQ; [done|]. by exists a, c.
Qed.

(** [nodeByKey] finds exactly the node of the key. *)
Lemma wp_nodeByKey s v A k Q :
  Rep s v -> Inv v A -> key_ok k ->
  (forall s' r, Rep s' v ->
     match r with
     | Some n => exists o a c, nodes A !! o = Some a /\ a_key a = k /\ v_heap v !! o = Some c /\ Node_read v o a c n
     | None => forall o a, nodes A !! o = Some a -> a_key a <> k
     end -> Q r s') ->
  wp (nodeByKey k) Q s.
Proof.
  intros H HI [Hk0 Hk] HQ. unfold nodeByKey. wstep. eapply wp_findIndexEntry; [done|]. intros s1 Hs1 _.
  destruct (v_idx v !! k) as [o|] eqn:E.
  - apply (inv_idx _ _ HI) in E as (a & Ha & Hak).
    destruct (Inv_node _ _ _ _ _ H HI Ha) as (l & c & _ & Hc & _ & Ho & _).
    unfold entry_valid. simpl. rewrite bool_decide_false by done. ztest. simpl.
    eapply wp_read; [done..|]. intros s2 n Hs2 Hn. apply HQ; [done|]. eauto 8.
  - simpl. wstep. apply HQ; [done|]. intros o a Ha Hak.
    assert (v_idx v !! k = Some o) by (apply (inv_idx _ _ HI); eauto). congruence.
Qed.

(** The offset a block has in one of its link fields is a node or -1. *)
Lemma links_ok s v A o a c l : Rep s v -> Inv v A -> nodes A !! o = Some a -> v_heap v !! o = Some c ->
  lists A !! o = Some l -> forall l1 l2, lists A !! a_parent a = Some (l1 ++ o :: l2) ->
  parent (c_blk c) = a_parent a /\ firstChild (c_blk c) = hd_off l (-1) /\
  lastChild (c_blk c) = last_off (-1) l /\ nextSib (c_blk c) = hd_off l2 (-1) /\
  prevSib (c_blk c) = last_off (-1) l1 /\
  forall x, x ∈ [a_parent a; hd_off l (-1); last_off (-1) l; hd_off l2 (-1); last_off (-1) l1] ->
    x = -1 \/ is_Some (nodes A !! x).
Proof.
  intros H HI Ha Hc Hl l1 l2 Hlp. destruct (inv_node _ _ HI o a Ha) as (l' & c' & Hl' & Hc' & Hck). simplify_eq.
  destruct (inv_list _ _ HI _ _ Hlp) as (Hp & _ & Hseg & Hm).
  destruct (dseg_at _ _ _ _ _ _ _ Hseg Hc) as [Hprev Hnext]. split_and!; auto; try apply Hck.
  assert (forall x, x ∈ l1 ++ o :: l2 -> is_Some (nodes A !! x)) as Hsib.
  { intros x Hx. destruct (Hm x Hx) as (? & ? & _). eauto. }
  assert (forall x, x ∈ l -> is_Some (nodes A !! x)) as Hkid.
  { intros x Hx. destruct (Inv_in_list _ _ _ _ _ HI Hl Hx) as (? & ? & _). eauto. }
  intros x Hx. repeat (apply elem_of_cons in Hx as [->|Hx]); [done|..|by apply elem_of_nil in Hx].
  - destruct l as [|y l]; simpl; [by left|right; apply Hkid; left].
  - destruct (decide (l = [])) as [->|Hne]; [by left|right; by apply Hkid, last_off_elem].
  - destruct l2 as [|y l2]; simpl; [by left|right; apply Hsib, elem_of_app; right; right; left].
  - destruct (decide (l1 = [])) as [->|Hne]; [by left|right; apply Hsib, elem_of_app; left; by apply last_off_elem].
Qed.

Lemma wp_follow (f : HDBBlock -> Z) s v A o a c n Q :
  Rep s v -> Inv v A -> nodes A !! o = Some a -> v_heap v !! o = Some c -> current v o a c n ->
  (f (c_blk c) = -1 \/ is_Some (nodes A !! f (c_blk c))) ->
  (forall s' r n', Rep s' v -> fetched v A (f (c_blk c)) r -> Node_read v o a c n' -> Q (r, Some n') s') ->
  wp (follow f (Some n)) Q s.
Proof.
  intros H HI Ha Hc [Hold Hver] Hf HQ. unfold follow. wstep. eapply wp_reload; [done..|].
  intros s1 n' Hs1 Hn'. rewrite (nr_blk _ _ _ _ _ Hn'). destruct (0 <? f (c_blk c)) eqn:E; zbool.
  - wstep. eapply wp_nodeByOffset; [done..|]. intros s2 r Hs2 Hr. wstep. by apply HQ.
  - wstep. apply HQ; [done| |done]. simpl. destruct Hf as [?|[ax Hax]]; [done|].
    destruct (Inv_node _ _ _ _ _ H HI Hax) as (_ & _ & _ & _ & _ & Hx & _). lia.
Qed.

Lemma wp_getFirstRoot s v A l Q :
  Rep s v -> Inv v A -> lists A !! (-1) = Some l ->
  (forall s' r, Rep s' v -> fetched v A (hd_off l (-1)) r -> Q r s') ->
  wp getFirstRoot Q s.
Proof.
  intros H HI Hl HQ. unfold getFirstRoot. wstep. wstep. rewrite (rep_hdr _ _ H).
  destruct (inv_roots _ _ HI) as (l' & Hl' & -> & _). simplify_eq.
  destruct (hd_node _ _ _ _ _ HI Hl eq_refl) as [[E _]|(_ & a & Ha & _)].
  - rewrite E. simpl. wstep. apply HQ; [done|by rewrite E].
  - destruct (Inv_node _ _ _ _ _ H HI Ha) as (_ & _ & _ & _ & _ & Hx & _). ztest.
    eapply wp_nodeByOffset; [done..|right; eauto|]. auto.
Qed.

(** A chain of keys read back after any reads: reads change no view. *)
Lemma wp_getNode s v A k Q :
  Rep s v -> Inv v A -> key_ok k ->
  (forall s' r, Rep s' v ->
     match r with
     | Some n => exists o a c, nodes A !! o = Some a /\ a_key a = k /\ v_heap v !! o = Some c /\ Node_read v o a c n
     | None => forall o a, nodes A !! o = Some a -> a_key a <> k
     end -> Q r s') ->
  wp (getNode k) Q s.
Proof.
  intros H HI [Hk0 Hk] HQ. unfold getNode. rewrite bool_decide_false, cstr_id by done.
  by eapply wp_nodeByKey.
Qed.
End Read.

(** * Rewriting a node where it is *)

(** The forest with the node at [o] replaced. *)
Definition with_node (o : Z) (a : ANode) (A : Abs) : Abs := mkAbs (<[o := a]> (nodes A)) (lists A) (frees A).

Section Replace.
Context (v v' : View) (A : Abs) (o : Z) (a a' : ANode) (l : list Z) (c c' : Cell).
Hypothesis HI : Inv v A.
Hypothesis Ha : nodes A !! o = Some a.
Hypothesis Hl : lists A !! o = Some l.
Hypothesis Hc : v_heap v !! o = Some c.
Hypothesis Hk : a_key a' = a_key a.
Hypothesis Hp : a_parent a' = a_parent a.
Hypothesis Hck : cell_ok a' l c'.
Hypothesis Hprev : prevSib (c_blk c') = prevSib (c_blk c).
Hypothesis Hnext : nextSib (c_blk c') = nextSib (c_blk c).
Hypothesis EM : v_heap v' = <[o := c']> (v_heap v).
Hypothesis Ei : v_idx v' = v_idx v.
Hypothesis Eh : v_hdr v' = v_hdr v.

Lemma rp_node x ax : nodes (with_node o a' A) !! x = Some ax ->
  exists ax0, nodes A !! x = Some ax0 /\ a_parent ax0 = a_parent ax /\ a_key ax0 = a_key ax.
Proof. unfold with_node; simpl. intros [[<- <-]|[Hne Hx]]%lookup_insert_Some; eauto. Qed.

Lemma rp_node' x ax : nodes A !! x = Some ax ->
  exists ax', nodes (with_node o a' A) !! x = Some ax' /\ a_parent ax' = a_parent ax /\ a_key ax' = a_key ax.
Proof.
  intros Hx. unfold with_node; simpl. rewrite lookup_insert. case_decide; [|eauto]. subst. simplify_eq. eauto.
Qed.

Lemma rp_dseg p lp n : dseg (v_heap v) p lp n -> dseg (v_heap v') p lp n.
Proof.
  rewrite EM. revert p. induction lp as [|x lp IH]; intros p; [done|].
  intros (cx & Hcx & H1 & H2 & H3). simpl. rewrite lookup_insert. case_decide as D.
  - subst x. simplify_eq. exists c'. split_and!; auto; congruence.
  - exists cx. auto.
Qed.

Lemma Inv_replace : Inv v' (with_node o a' A).
Proof.
  pose proof (inv_disj _ _ HI o a Ha) as Hof. constructor.
  - eapply flist_ext; [apply HI|by rewrite Eh|]. intros x Hx. rewrite EM, lookup_insert_ne; [done|by intros ->].
  - intros x cx Hx Hcx. simpl in Hx. rewrite EM, lookup_insert_ne in Hcx by (by intros ->). by apply (inv_freecell _ _ HI x).
  - intros x ax (ax0 & Hx & _)%rp_node. by apply (inv_disj _ _ HI x ax0).
  - intros x ax Hx. simpl in Hx. apply lookup_insert_Some in Hx as [[<- <-]|[Hne Hx]]; rewrite EM.
    + exists l, c'. by rewrite lookup_insert_eq.
    + rewrite lookup_insert_ne by done. by apply (inv_node _ _ HI).
  - intros p lp Hlp. simpl in Hlp. destruct (inv_list _ _ HI p lp Hlp) as (Hpn & Hnd & Hs & Hm). split_and!; auto.
    + destruct Hpn as [?|[ap Hap]]; [by left|right]. destruct (rp_node' _ _ Hap) as (? & ? & _). eauto.
    + by apply rp_dseg.
    + intros k Hkl. destruct (Hm k Hkl) as (ak & Hak & <-). destruct (rp_node' _ _ Hak) as (ak' & ? & ? & _). eauto.
  - intros x ax (ax0 & Hx & <- & _)%rp_node. by apply (inv_up _ _ HI).
  - rewrite Eh. apply HI.
  - intros k y. rewrite Ei, (inv_idx _ _ HI). split.
    + intros (ay & Hy & <-). destruct (rp_node' _ _ Hy) as (ay' & ? & _ & ?). eauto.
    + intros (ay & (ay0 & Hy & _ & <-)%rp_node & Ek). eauto.
  - destruct (inv_acyc _ _ HI) as [rank Hr]. exists rank. intros x ax (ax0 & Hx & <- & _)%rp_node. by apply Hr.
Qed.
End Replace.

Section Update.
Context {F : Type} {fo : FileOps F} {fl : FileLaws F}.
Context {I : Type} {io : IndexOps I} {il : IndexLaws I}.
Implicit Types (s : St F I) (v : View) (A : Abs).

(** Writing an up-to-date node whose data and flags changed, in its block. *)
Lemma wp_rewrite s v A o a c n d :
  Rep s v -> Inv v A -> nodes A !! o = Some a -> v_heap v !! o = Some c ->
  m_offset n = o -> m_key n = a_key a -> m_bfrLen n = zlen d -> m_bfr n = bfr_of d ->
  block_ok (m_blk n) -> (exists fl, m_blk n = set_flags fl (c_blk c)) ->
  44 + (zlen (a_key a) + 1 + zlen d) <= bsize (c_blk c) ->
  wp (write (Some n) E_WRITE_ALL) (fun n' s' => exists v' c', Rep s' v' /\
    Inv v' (with_node o (mkANode (a_key a) d (a_parent a) (flags (m_blk n))) A) /\ v_heap v' !! o = Some c' /\
    flags (c_blk c') = flags (m_blk n) /\
    Node_read v' o (mkANode (a_key a) d (a_parent a) (flags (m_blk n))) c' n') s.
Proof.
  intros H HI Ha Hc Ho Hk Hlen Hbfr Hok [fl' Efl] Hfit.
  destruct (inv_node _ _ HI o a Ha) as (l & c' & Hl & Hc' & Hck). simplify_eq.
  pose proof (ck_size _ _ _ Hck).
  eapply (wp_write_inplace s v (m_offset n) c (a_key a) d); auto.
  { constructor; auto. rewrite Hbfr. apply bfr_of_default. }
  { rewrite Efl. simpl. lia. }
  intros s' pay' Hs' Hpl. eexists _, (mkCell (seal (stored (a_key a) d (m_blk n))) pay').
  assert (zlen (c_pay c) = zlen pay') as Hpl'.
  { rewrite (pl_len _ _ _ _ Hpl). rewrite Z.max_l by lia. done. }
  split_and!; [exact Hs'| |by apply lookup_insert_eq|done|by constructor].
  eapply (Inv_replace v _ A (m_offset n) a _ l c); [done..| | | | | |]; simpl; try (by rewrite Efl); try done.
  destruct Hck. constructor; simpl; auto; [by rewrite Efl|lia|]. apply Hpl.
Qed.
End Update.
