(* ===== verification/HdbRelocate.v ===== *)
(** * Moving a node to another block

   The forest after [HDBNode::updateOffsets]: the node [o] with its list of
   children lives at [o'], everything that pointed to [o] points to [o']. *)

From S2P Require Import Prelude FileIO HdbCommon Index Hdb HdbHeap Dll FreeList HdbNode HdbInv HdbTree HdbAlloc HdbAdd HdbSubtree HdbRemove HdbUpdate.

Fixpoint reparented (ks : list Z) (p : Z) (M : gmap Z Cell) : gmap Z Cell :=
  match ks with
  | [] => M
  | k :: ks => reparented ks p (alter (mod_blk (set_parent p)) k M)
  end.

Definition moved (p : Z) (l1 l2 lo : list Z) (o' : Z) (M : gmap Z Cell) : gmap Z Cell :=
  reparented lo o' (setends p (l1 ++ o' :: l2)
    (setnext (last_off (-1) l1) o' (setprev (hd_off l2 (-1)) o' M))).

(** The node with its parent renamed. *)
Definition setpar (o o' : Z) (a : ANode) : ANode :=
  mkANode (a_key a) (a_data a) (if decide (a_parent a = o) then o' else a_parent a) (a_flags a).

Lemma dseg_reparented ks q M p l n : dseg M p l n -> dseg (reparented ks q M) p l n.
Proof. revert M. induction ks as [|k ks IH]; intros M Hs; simpl; [done|]. apply IH. by apply dseg_alter_links. Qed.

Lemma reparented_out ks q M x : x ∉ ks -> reparented ks q M !! x = M !! x.
Proof.
  revert M. induction ks as [|k ks IH]; intros M Hx; simpl; [done|]. rewrite IH by set_solver.
  rewrite lookup_alter_ne by set_solver. done.
Qed.

Lemma reparented_in ks q M x c : NoDup ks -> x ∈ ks -> M !! x = Some c ->
  reparented ks q M !! x = Some (mod_blk (set_parent q) c).
Proof.
  revert M. induction ks as [|k ks IH]; intros M Hnd Hx Hc; [set_solver|].
  apply NoDup_cons in Hnd as [Hk Hnd]. simpl. destruct (decide (x = k)) as [->|Hne].
  - by rewrite reparented_out, lookup_alter_eq, Hc.
  - apply IH; [done|set_solver|]. by rewrite lookup_alter_ne.
Qed.

Lemma reparented_ext ks q M M' x : M !! x = M' !! x -> reparented ks q M !! x = reparented ks q M' !! x.
Proof. revert M M'. induction ks as [|k ks IH]; intros M M' E; simpl; [done|]. by apply IH, alter_pointwise. Qed.

Lemma moved_ext p l1 l2 lo o' M M' x : M !! x = M' !! x -> moved p l1 l2 lo o' M !! x = moved p l1 l2 lo o' M' !! x.
Proof. intros E. apply reparented_ext. by do 3 apply alter_pointwise. Qed.

Lemma moved_out p l1 l2 lo o' M x : x ∉ lo -> x <> p -> x ∉ l1 ++ l2 -> x <> -1 ->
  moved p l1 l2 lo o' M !! x = M !! x.
Proof.
  intros Hlo Hp Hs Hx. unfold moved. rewrite reparented_out by done. unfold setends, setnext, setprev.
  rewrite !lookup_alter_ne; [done|..|done].
  - intros E. destruct l2 as [|y l2]; simpl in E; [done|]. apply Hs. subst y. set_solver.
  - intros E. destruct (decide (l1 = [])) as [->|Hne]; simpl in E; [done|].
    apply Hs, elem_of_app. left. rewrite <- E. by apply last_off_elem.
Qed.

Lemma cell_ok_parent a l c q : cell_ok a l c -> cell_ok (mkANode (a_key a) (a_data a) q (a_flags a)) l (mod_blk (set_parent q) c).
Proof. intros []. constructor; auto. Qed.

(** A node other than [o] in its new surroundings. *)
Lemma moved_cell p l1 l2 lo o o' M x c a l :
  M !! x = Some c -> cell_ok a l c -> NoDup lo -> (x ∈ lo <-> a_parent a = o) ->
  exists c', moved p l1 l2 lo o' M !! x = Some c' /\
    cell_ok (setpar o o' a) (if decide (x = p) then l1 ++ o' :: l2 else l) c'.
Proof.
  intros Hc Hck Hnd Hlo. unfold moved.
  pose proof (lookup_setprev M (hd_off l2 (-1)) o' x c Hc) as E1. set (c1 := if decide _ then _ else _) in E1.
  pose proof (lookup_setnext _ (last_off (-1) l1) o' x c1 E1) as E2. set (c2 := if decide _ then _ else _) in E2.
  assert (cell_ok a l c2) as Hck2 by (unfold c2, c1; repeat case_decide; eauto with owdb).
  assert (exists c3, setends p (l1 ++ o' :: l2) (setnext (last_off (-1) l1) o' (setprev (hd_off l2 (-1)) o' M)) !! x
    = Some c3 /\ cell_ok a (if decide (x = p) then l1 ++ o' :: l2 else l) c3) as (c3 & E3 & Hck3).
  { unfold setends. case_decide as D.
    - subst x. rewrite lookup_alter_eq, E2. eexists. split; [done|]. by eapply cell_ok_ends.
    - rewrite lookup_alter_ne by done. eauto. }
  unfold setpar. destruct (decide (a_parent a = o)) as [D|D].
  - rewrite (reparented_in _ _ _ _ c3) by (auto; by apply Hlo). eexists. split; [done|]. by apply cell_ok_parent.
  - rewrite reparented_out by (by rewrite Hlo). exists c3. split; [done|]. by destruct a.
Qed.

Section Move.
Context (v v' : View) (A : Abs) (o o' p : Z) (a a' : ANode) (l1 l2 lo fr' : list Z) (c' : Cell).
Hypothesis HI : Inv v A.
Hypothesis HM : v_heap v !! (-1) = None.
Hypothesis Ha : nodes A !! o = Some a.
Hypothesis Hap : a_parent a = p.
Hypothesis Hl : lists A !! p = Some (l1 ++ o :: l2).
Hypothesis Hlo : lists A !! o = Some lo.
Hypothesis Ho' : nodes A !! o' = None.
Hypothesis Ho1 : o' <> -1.
Hypothesis Hof : o' ∉ fr'.
Hypothesis Hk' : a_key a' = a_key a.
Hypothesis Hp' : a_parent a' = p.
Hypothesis Hck' : cell_ok a' lo c'.
Hypothesis Hprev : prevSib (c_blk c') = last_off (-1) l1.
Hypothesis Hnext : nextSib (c_blk c') = hd_off l2 (-1).
Hypothesis Hfl : flist v' fr'.
Hypothesis Hfc : forall x c, x ∈ fr' -> v_heap v' !! x = Some c -> bsize (c_blk c) <= 44 + zlen (c_pay c).
Hypothesis Hfn : forall x ax, nodes A !! x = Some ax -> x <> o -> x ∉ fr'.
Hypothesis EM : forall x ax, nodes A !! x = Some ax -> x <> o ->
  v_heap v' !! x = moved p l1 l2 lo o' (v_heap v) !! x.
Hypothesis Ec : v_heap v' !! o' = Some c'.
Hypothesis Ei : v_idx v' = <[a_key a := o']> (v_idx v).
Hypothesis Er : roots_ok v v' p (l1 ++ o' :: l2).

Definition relocated : Abs :=
  mkAbs (<[o' := a']> (setpar o o' <$> delete o (nodes A)))
        (<[o' := lo]> (delete o (<[p := l1 ++ o' :: l2]> (lists A)))) fr'.

Lemma mv_nodes x ax : nodes relocated !! x = Some ax <->
  (x = o' /\ ax = a') \/ (x <> o' /\ x <> o /\ exists ax0, nodes A !! x = Some ax0 /\ ax = setpar o o' ax0).
Proof using.
  unfold relocated; simpl. clear. rewrite lookup_insert_Some, lookup_fmap, fmap_Some.
  setoid_rewrite lookup_delete_Some. split.
  - intros [[-> ->]|(Hne & ax0 & [? ?] & ?)]; [by left|right]. eauto 8.
  - intros [[-> ->]|(Hne & Hno & ax0 & ? & ?)]; [by left|right]. eauto 8.
Qed.

Lemma mv_po : p <> o.
Proof using HI Ha Hap HM.
  intros E. assert (a_parent a <> -1) as Hp1.
  { intros E1. assert (o = -1) as E2 by congruence. rewrite E2 in Ha. by rewrite (node_neg v A HI HM) in Ha. }
  by apply (Inv_not_self _ _ _ _ HI Ha Hp1); congruence.
Qed.

Lemma mv_lists q lq : lists relocated !! q = Some lq <->
  (q = o' /\ lq = lo) \/ (q <> o' /\ q = p /\ lq = l1 ++ o' :: l2) \/
  (q <> o' /\ q <> o /\ q <> p /\ lists A !! q = Some lq).
Proof using HI Ha Hap HM.
  pose proof mv_po as Hpo. unfold relocated; simpl.
  rewrite lookup_insert_Some, lookup_delete_Some, lookup_insert_Some. clear -Hpo. naive_solver.
Qed.

(** Nodes other than [o]. *)
Lemma mv_ne x ax : nodes A !! x = Some ax -> x <> o'.
Proof. intros Hx ->. congruence. Qed.

Lemma mv_kid x ax : nodes A !! x = Some ax -> (x ∈ lo <-> a_parent ax = o).
Proof.
  intros Hx. split.
  - intros Hin. destruct (Inv_in_list _ _ _ _ _ HI Hlo Hin) as (a2 & Ha2 & Hp2). congruence.
  - intros E. destruct (inv_up _ _ HI x ax Hx) as (l & Hl2 & Hin). congruence.
Qed.

Lemma mv_sib x : x ∈ l1 ++ l2 -> x ∈ l1 ++ o :: l2 /\ x <> o.
Proof.
  destruct (inv_list _ _ HI p _ Hl) as (_ & Hnd & _ & _). intros Hx. split; [set_solver|].
  rewrite <- Permutation_middle in Hnd. apply NoDup_cons in Hnd as [Hn _]. by intros ->.
Qed.

Lemma mv_nodup : NoDup (l1 ++ o' :: l2).
Proof.
  destruct (inv_list _ _ HI p _ Hl) as (_ & Hnd & _ & Hm). rewrite <- Permutation_middle in *.
  apply NoDup_cons in Hnd as [_ Hnd]. apply NoDup_cons. split; [|done]. intros Hx.
  destruct (Hm o') as (? & ? & _); [|congruence]. destruct (mv_sib o' Hx). done.
Qed.

(** The lists of children, but the one that contained [o]. *)
Lemma mv_dseg q lq : lists A !! q = Some lq -> q <> p -> dseg (v_heap v') (-1) lq (-1).
Proof.
  intros Hq Hqp. destruct (inv_list _ _ HI q lq Hq) as (_ & _ & Hs & Hm).
  assert (forall x, x ∈ lq -> x ∉ l1 ++ o :: l2) as Hdj.
  { intros x Hx Hx'. apply Hqp. by eapply (Inv_lists_disj _ _ _ _ _ _ x HI Hq Hl). }
  apply dseg_ext with (moved p l1 l2 lo o' (v_heap v)).
  - intros x Hx. destruct (Hm x Hx) as (ax & Hax & _). apply (EM x ax Hax).
    intros ->. apply (Hdj o Hx). set_solver.
  - apply dseg_reparented, dseg_alter_links; [done..|]. apply dseg_alter_last.
    + by apply alter_still_absent.
    + intros x Hx Hx'. apply (Hdj x Hx). set_solver.
    + apply dseg_alter_hd; auto. intros x Hx Hx'. apply (Hdj x Hx). set_solver.
Qed.

Lemma mv_fresh : p <> o' /\ (o' ∉ lo) /\ hd_off l2 (-1) <> o' /\ last_off (-1) l1 <> o'.
Proof.
  destruct (inv_list _ _ HI p _ Hl) as (Hp & _ & _ & Hm).
  assert (forall x, x ∈ l1 ++ o :: l2 -> x <> o') as Hs.
  { intros x Hx. destruct (Hm x Hx) as (ax & Hax & _). by eapply mv_ne. }
  split_and!.
  - destruct Hp as [->|[ap Hap']]; [done|]. by eapply mv_ne.
  - intros Hx. destruct (Inv_in_list _ _ _ _ _ HI Hlo Hx) as (ax & Hax & _). by eapply mv_ne.
  - destruct l2 as [|y l2']; simpl; [done|]. apply Hs. set_solver.
  - destruct (decide (l1 = [])) as [->|Hne]; [done|]. apply Hs, elem_of_app. left. by apply last_off_elem.
Qed.

Lemma mv_dseg_p : dseg (v_heap v') (-1) (l1 ++ o' :: l2) (-1).
Proof.
  destruct (inv_list _ _ HI p _ Hl) as (_ & _ & Hs & Hm). apply dseg_app in Hs as [Hs1 (co & _ & _ & _ & Hs2)].
  pose proof mv_nodup as Hnd. pose proof mv_fresh as (F1 & F2 & F3 & F4).
  pose proof (dseg_join (v_heap v) l1 o' l2 c' _ _ HM Ho1 Hnd Hs1 Hs2 Hprev Hnext) as HJ.
  eapply dseg_ext; [|apply dseg_reparented with (ks := lo) (q := o'), dseg_alter_links with (o := p)
    (f := mod_blk (ends_of (l1 ++ o' :: l2))); [done..|exact HJ]].
  intros x Hx. destruct (decide (x = o')) as [->|Hne].
  - rewrite Ec, reparented_out by done. unfold setnext, setprev. by rewrite !lookup_alter_ne, lookup_insert_eq by done.
  - assert (x ∈ l1 ++ l2) as Hx' by (clear -Hx Hne; set_solver). destruct (mv_sib x Hx') as [Hx2 Hxo].
    destruct (Hm x Hx2) as (ax & Hax & _). rewrite (EM x ax Hax Hxo).
    change (moved p l1 l2 lo o' (v_heap v) !! x = moved p l1 l2 lo o' (<[o' := c']> (v_heap v)) !! x).
    apply moved_ext. by rewrite lookup_insert_ne.
Qed.

Lemma mv_node x ax : nodes A !! x = Some ax -> x <> o ->
  exists l c, lists relocated !! x = Some l /\ v_heap v' !! x = Some c /\ cell_ok (setpar o o' ax) l c.
Proof.
  intros Hax Hxo. destruct (inv_node _ _ HI x ax Hax) as (l & c & Hlx & Hc & Hck).
  destruct (inv_list _ _ HI _ _ Hlo) as (_ & Hnd & _ & _). pose proof (mv_ne _ _ Hax).
  destruct (moved_cell p l1 l2 lo o o' (v_heap v) x c ax l Hc Hck Hnd (mv_kid _ _ Hax)) as (c2 & Hc2 & Hck2).
  exists (if decide (x = p) then l1 ++ o' :: l2 else l), c2. rewrite (EM x ax) by done. split_and!; auto.
  apply mv_lists. case_decide; [right; left|right; right]; auto.
Qed.

Lemma mv_member q lq x : lists A !! q = Some lq -> x ∈ lq -> x <> o ->
  exists ax, nodes relocated !! x = Some ax /\ a_parent ax = if decide (q = o) then o' else q.
Proof.
  intros Hq Hx Hxo. destruct (Inv_in_list _ _ _ _ _ HI Hq Hx) as (ax & Hax & <-).
  exists (setpar o o' ax). split; [|done]. apply mv_nodes. right. pose proof (mv_ne _ _ Hax). eauto 6.
Qed.

Lemma mv_list q lq : lists relocated !! q = Some lq ->
  (q = -1 \/ is_Some (nodes relocated !! q)) /\ NoDup lq /\ dseg (v_heap v') (-1) lq (-1) /\
  forall k, k ∈ lq -> exists ak, nodes relocated !! k = Some ak /\ a_parent ak = q.
Proof.
  pose proof mv_po as Hpo. pose proof mv_fresh as (F1 & F2 & F3 & F4).
  assert (nodes relocated !! o' = Some a') as Hno' by (apply mv_nodes; by left).
  intros [[-> ->]|[(Hq1 & -> & ->)|(Hq1 & Hq2 & Hq3 & Hq)]]%mv_lists.
  - destruct (inv_list _ _ HI _ _ Hlo) as (_ & Hnd & _ & _). split_and!; [right; eauto|done|by eapply mv_dseg|].
    intros k Hk. assert (k <> o) as Hko.
    { intros ->. destruct (Inv_in_list _ _ _ _ _ HI Hlo Hk) as (? & ? & ?). congruence. }
    destruct (mv_member _ _ k Hlo Hk Hko) as (ak & Hak & Hpk). rewrite decide_True in Hpk by done. eauto.
  - destruct (inv_list _ _ HI _ _ Hl) as (Hp & Hnd & _ & _). split_and!; [|apply mv_nodup|apply mv_dseg_p|].
    + destruct Hp as [?|[ap Hap']]; [by left|right]. exists (setpar o o' ap). apply mv_nodes. eauto 8.
    + intros k Hk. destruct (decide (k = o')) as [->|Hne]; [eauto|].
      assert (k ∈ l1 ++ l2) as Hk1 by (clear -Hk Hne; set_solver). destruct (mv_sib k Hk1) as [Hk2 Hko].
      destruct (mv_member _ _ k Hl Hk2 Hko) as (ak & Hak & Hpk). rewrite decide_False in Hpk by done. eauto.
  - destruct (inv_list _ _ HI _ _ Hq) as (Hn & Hnd & _ & _). split_and!; [|done|by eapply mv_dseg|].
    + destruct Hn as [?|[aq Haq]]; [by left|right]. exists (setpar o o' aq). apply mv_nodes. eauto 8.
    + intros k Hk. assert (k <> o) as Hko.
      { intros ->. destruct (Inv_in_list _ _ _ _ _ HI Hq Hk) as (? & ? & ?). congruence. }
      destruct (mv_member _ _ k Hq Hk Hko) as (ak & Hak & Hpk). rewrite decide_False in Hpk by done. eauto.
Qed.

Lemma mv_up x ax : nodes relocated !! x = Some ax -> exists l, lists relocated !! a_parent ax = Some l /\ x ∈ l.
Proof.
  pose proof mv_po as Hpo. pose proof mv_fresh as (F1 & F2 & F3 & F4).
  intros [[-> ->]|(Hx1 & Hxo & ax0 & Hax & ->)]%mv_nodes.
  - exists (l1 ++ o' :: l2). rewrite Hp'. split; [apply mv_lists; auto|apply elem_of_app; right; left].
  - destruct (inv_up _ _ HI x ax0 Hax) as (lx & Hlx & Hx). simpl. case_decide as D.
    + exists lo. split; [apply mv_lists; by left|]. rewrite D in Hlx. congruence.
    + destruct (decide (a_parent ax0 = p)) as [E|E].
      * exists (l1 ++ o' :: l2). split; [apply mv_lists; right; left; split_and!; congruence|].
        rewrite E, Hl in Hlx. injection Hlx as <-. clear -Hx Hxo. set_solver.
      * exists lx. split; [|done]. apply mv_lists. right. right. split_and!; auto.
        intros E2. rewrite E2 in Hlx. by rewrite (Inv_list_none _ _ _ HI Ho' Ho1) in Hlx.
Qed.

Lemma Inv_move : Inv v' relocated.
Proof.
  pose proof mv_po as Hpo. pose proof mv_fresh as (F1 & F2 & F3 & F4). constructor; auto using mv_list, mv_up.
  - intros x ax [[-> ->]|(Hx1 & Hxo & ax0 & Hax & ->)]%mv_nodes; [done|]. simpl. by eapply Hfn.
  - intros x ax [[-> ->]|(Hx1 & Hxo & ax0 & Hax & ->)]%mv_nodes; [|by apply mv_node].
    exists lo, c'. split_and!; auto. apply mv_lists. by left.
  - pose proof Er as Er'. unfold roots_ok in Er'. destruct (decide (p = -1)) as [Ep|Hp].
    + exists (l1 ++ o' :: l2). split; [apply mv_lists; rewrite <- Ep; auto|done].
    + destruct (inv_roots _ _ HI) as (lr & Hlr & ? & ?). exists lr. destruct Er' as [-> ->].
      split; [|done]. apply mv_lists. right. right. split_and!; auto.
      intros E. rewrite <- E in Ha. by rewrite (node_neg v A HI HM) in Ha.
  - intros k y. rewrite Ei, lookup_insert. case_decide as D.
    + subst k. split.
      * intros [= <-]. exists a'. split; [apply mv_nodes; by left|done].
      * intros (ay & [[-> ->]|(Hy1 & Hyo & ay0 & Hay & ->)]%mv_nodes & Ek); [done|]. simpl in Ek.
        assert (v_idx v !! a_key a = Some o) by (apply (inv_idx _ _ HI); eauto).
        assert (v_idx v !! a_key a = Some y) by (apply (inv_idx _ _ HI); eauto). congruence.
    + rewrite (inv_idx _ _ HI). split.
      * intros (ay & Hay & Ek). exists (setpar o o' ay). split; [|done]. apply mv_nodes. right.
        split_and!; eauto using mv_ne. intros ->. congruence.
      * intros (ay & [[-> ->]|(Hy1 & Hyo & ay0 & Hay & ->)]%mv_nodes & Ek); [congruence|]. eauto.
  - destruct (inv_acyc _ _ HI) as [rank Hr]. exists (fun y => if decide (y = o') then rank o else rank y).
    intros x ax [[-> ->]|(Hx1 & Hxo & ax0 & Hax & ->)]%mv_nodes Hp; simpl in *.
    + rewrite decide_True, Hp', decide_False by done. rewrite <- Hap. apply Hr; congruence.
    + rewrite (decide_False (P := x = o')) by done. specialize (Hr x ax0 Hax).
      destruct (decide (a_parent ax0 = o)) as [E|E].
      * rewrite decide_True by done. rewrite <- E. apply Hr. rewrite E. by eapply (node_ne v A HI HM).
      * rewrite decide_False; [by apply Hr|]. intros E2.
        destruct (inv_up _ _ HI x ax0 Hax) as (lx & Hlx & _). rewrite E2 in Hlx.
        by rewrite (Inv_list_none _ _ _ HI Ho' Ho1) in Hlx.
Qed.
End Move.

(** * [updateOffsets] and the branch of [write] that moves a node *)

Lemma links_comm (l1 l2 : list Z) o M : NoDup (l1 ++ l2) -> M !! (-1) = None ->
  setprev (hd_off l2 (-1)) o (setnext (last_off (-1) l1) o M) =
  setnext (last_off (-1) l1) o (setprev (hd_off l2 (-1)) o M).
Proof.
  intros Hnd HM. unfold setnext, setprev.
  destruct (decide (l2 = [])) as [->|Hl2].
  { simpl. rewrite !(alter_absent _ (-1)); [done|..]; by repeat apply alter_still_absent. }
  destruct (decide (l1 = [])) as [->|Hl1].
  { simpl. rewrite !(alter_absent _ (-1)); [done|..]; by repeat apply alter_still_absent. }
  apply alter_comm. apply NoDup_app in Hnd as (_ & Hd & _).
  intros E. apply (Hd (last_off (-1) l1)); [by apply last_off_elem|]. rewrite <- E. by apply hd_off_elem.
Qed.

Lemma ends_rename (l1 l2 : list Z) o o' : NoDup (l1 ++ o :: l2) ->
  new_ends (l1 ++ o :: l2) (l1 ++ o' :: l2) o o' o'.
Proof.
  intros Hnd. apply NoDup_app in Hnd as (_ & Hd & [Ho2 _]%NoDup_cons). constructor.
  - destruct l1 as [|x l1]; simpl; [by rewrite Z.eqb_refl|].
    destruct (Z.eqb_spec x o) as [->|]; [|done]. destruct (Hd o); [set_solver|left].
  - rewrite !last_off_app. simpl. destruct l2 as [|x l2]; simpl; [by rewrite Z.eqb_refl|].
    destruct (Z.eqb_spec (last_off x l2) o) as [E|]; [|done]. destruct Ho2. rewrite <- E.
    by apply (last_off_elem (-1) (x :: l2)).
Qed.

Section Relocate.
Context {F : Type} {fo : FileOps F} {fl : FileLaws F}.
Context {I : Type} {io : IndexOps I} {il : IndexLaws I}.
Implicit Types (s : St F I) (v : View) (A : Abs).

Lemma wp_reparent_loop ks : forall fuel s v p0 o' Q,
  Rep s v -> dseg (v_heap v) p0 ks (-1) -> (length ks <= fuel)%nat -> is_s32 o' ->
  (forall s', Rep s' (vheap (reparented ks o' (v_heap v)) v) -> Q () s') ->
  wp (reparent_loop fuel (hd_off ks (-1)) o') Q s.
Proof.
  induction ks as [|k ks IH]; intros fuel s v p0 o' Q H Hs Hf Ho HQ.
  { destruct fuel; simpl; wstep; apply HQ; by destruct v. }
  destruct Hs as (c & Hc & _ & Hn & Hs). simpl in Hf. destruct fuel as [|fuel]; [lia|].
  destruct (Rep_off _ _ _ _ H Hc) as [Hk Hok]. simpl. ztest.
  wstep. eapply wp_readBlock; [done..|]. intros s1 Hs1 _. wstep.
  eapply wp_writeBlock_alter; [done..|by apply block_ok_parent|]. intros s2 Hs2 _.
  change (nextSib (seal (set_parent o' (c_blk c)))) with (nextSib (c_blk c)). rewrite Hn.
  eapply (IH fuel s2); [exact Hs2| |lia|done|done]. simpl. by apply dseg_alter_links.
Qed.

Lemma wp_updateOffsets s v n o o' p l1 l2 lo k Q :
  Rep s v -> unlinkable v n o p l1 l2 -> 0 < o' < 2147483648 ->
  firstChild (m_blk n) = hd_off lo (-1) -> dseg (v_heap v) (-1) lo (-1) -> NoDup lo ->
  (forall x, x ∈ lo -> x ∉ l1 ++ l2) ->
  m_key n = k -> key_ok k -> v_idx v !! k = Some o -> o <> -1 ->
  (forall s' v', Rep s' v' -> v_heap v' = moved p l1 l2 lo o' (v_heap v) ->
     v_idx v' = <[k := o']> (v_idx v) -> v_eof v' = v_eof v -> v_version v' = v_version v ->
     firstFree (v_hdr v') = firstFree (v_hdr v) -> roots_ok v v' p (l1 ++ o' :: l2) ->
     Q (set_offset o' n) s') ->
  wp (updateOffsets n o') Q s.
Proof.
  intros H [Eo En Ep Epa Hnd Hcells Hroot Hchild] Ho' Efc Hlo Hndlo Hdj Ek [Hk0 Hk] Hi Hone HQ.
  assert (is_s32 o') as Hs by (unfold is_s32; lia). pose proof (Rep_neg _ _ H) as HM.
  assert (NoDup (l1 ++ l2)) as Hnd2 by (rewrite <- Permutation_middle in Hnd; by apply NoDup_cons in Hnd as [_ ?]).
  destruct (end_cell s v l2 (hd_off l2 (-1)) H) as [_ Hc2].
  { intros y Hy. apply Hcells. set_solver. } { apply hd_off_elem. } { by intros ->. }
  destruct (end_cell s v l1 (last_off (-1) l1) H) as [_ Hc1].
  { intros y Hy. apply Hcells. set_solver. } { apply last_off_elem. } { by intros ->. }
  unfold updateOffsets. ztest. rewrite En, Ep, Epa, Eo, Efc. wstep. eapply wp_modBlock_if; [done| |].
  { destruct Hc1 as [->|[c Hc]]; [by left|right]. exists c. split; [done|]. apply block_ok_next; [done|].
    by eapply Rep_ok. }
  intros s1 Hs1. wstep. eapply wp_modBlock_if; [done| |].
  { destruct Hc2 as [->|[c Hc]]; [by left|right].
    pose proof (lookup_setnext (v_heap v) (last_off (-1) l1) o' _ c Hc) as Hc'.
    eexists. split; [exact Hc'|]. apply block_ok_prev; [done|]. by eapply (Rep_ok s1); [done|exact Hc']. }
  intros s2 Hs2. set (M2 := setnext (last_off (-1) l1) o' (setprev (hd_off l2 (-1)) o' (v_heap v))).
  assert (Rep s2 (vheap M2 v)) as Hs2'.
  { unfold M2. rewrite <- links_comm by done. exact Hs2. }
  assert (forall s3 v3, Rep s3 v3 -> v_heap v3 = setends p (l1 ++ o' :: l2) M2 -> steady v v3 ->
    roots_ok v v3 p (l1 ++ o' :: l2) ->
    wp (s ← get; reparent_loop (file_fuel s) (hd_off lo (-1)) o' ;;
        _ ← updateIndexEntry (cstr (m_key n)) o'; mret (set_offset o' n)) Q s3) as Hend.
  { intros s3 v3 Hs3 Eh [] Hr. wstep. wstep. wstep.
    assert (dseg (v_heap v3) (-1) lo (-1)) as Hlo3.
    { rewrite Eh. apply dseg_alter_links; [done..|]. unfold M2. apply dseg_alter_last.
      - by apply alter_still_absent.
      - intros x Hx Hx'. apply (Hdj x Hx). set_solver.
      - apply dseg_alter_hd; [done| |done]. intros x Hx Hx'. apply (Hdj x Hx). set_solver. }
    eapply wp_reparent_loop; [exact Hs3|done|by eapply dseg_fuel|done|]. intros s4 Hs4.
    wstep. rewrite Ek, cstr_id by done.
    eapply (wp_updateIndexEntry s4 _ k o); [exact Hs4|simpl; congruence|done|done|]. intros s5 Hs5 _. wstep.
    eapply HQ; [exact Hs5|simpl; by rewrite Eh|simpl; congruence|done..|]. exact Hr. }
  wstep. destruct (decide (p = -1)) as [->|Hp].
  - change (0 <? -1) with false. cbv iota. destruct (Hroot eq_refl).
    eapply wp_ends_roots; [exact Hs2'|by apply ends_rename|done..|]. intros s3 v3 Hs3 Eh [] Hr.
    apply (Hend s3 v3); auto; [|by constructor]. rewrite Eh. simpl. unfold setends. rewrite (alter_absent _ (-1)); [done|].
    by apply alter_still_absent, alter_still_absent.
  - destruct (Hchild Hp) as (Hpl & c & Hc & Hf & Hl). destruct (Rep_off _ _ _ _ H Hc). ztest.
    assert (hd_off l2 (-1) <> p) as N1.
    { destruct l2 as [|y l2']; simpl; [lia|]. intros ->. apply Hpl, elem_of_app. right. left. }
    assert (last_off (-1) l1 <> p) as N2.
    { destruct (decide (l1 = [])) as [->|Hne]; simpl; [lia|]. intros E.
      apply Hpl, elem_of_app. left. rewrite <- E. by apply last_off_elem. }
    assert (M2 !! p = Some c) as Hcp.
    { unfold M2, setnext, setprev. by rewrite !lookup_alter_ne. }
    eapply (wp_ends_parent s2 (vheap M2 v)); [exact Hs2'|exact Hcp|by apply ends_rename|done..|].
    intros s3 Hs3. eapply Hend; [exact Hs3|done|done|]. unfold roots_ok. by rewrite decide_False.
Qed.

(** A node object whose block has the links of the node's block on file. *)
Lemma node_unlinkable v v' A o a c n l1 l2 :
  Inv v A -> nodes A !! o = Some a -> v_heap v !! o = Some c ->
  lists A !! a_parent a = Some (l1 ++ o :: l2) -> m_offset n = o ->
  nextSib (m_blk n) = nextSib (c_blk c) -> prevSib (m_blk n) = prevSib (c_blk c) ->
  parent (m_blk n) = parent (c_blk c) ->
  (forall x ax, nodes A !! x = Some ax -> x <> o -> v_heap v' !! x = v_heap v !! x) ->
  firstRoot (v_hdr v') = firstRoot (v_hdr v) -> lastRoot (v_hdr v') = lastRoot (v_hdr v) ->
  unlinkable v' n o (a_parent a) l1 l2.
Proof.
  intros HI Ha Hc Hl Ho En Ep Epa Hh Ef El.
  destruct (inv_list _ _ HI _ _ Hl) as (Hpn & Hnd & Hseg & Hm).
  destruct (dseg_at _ _ _ _ _ _ _ Hseg Hc) as [Hprev Hnext].
  destruct (inv_node _ _ HI o a Ha) as (lo & c' & _ & Hc' & Hck). simplify_eq.
  assert (forall x, x ∈ l1 ++ l2 -> exists ax, nodes A !! x = Some ax /\ a_parent ax = a_parent a /\ x <> m_offset n) as Hsn.
  { intros x Hx. destruct (Hm x) as (ax & ? & ?); [set_solver|]. exists ax. split_and!; auto. intros ->.
    rewrite <- Permutation_middle in Hnd. by apply NoDup_cons in Hnd as [? _]. }
  constructor; auto; try congruence.
  - rewrite Epa. apply Hck.
  - intros x Hx. destruct (Hsn x Hx) as (ax & Hax & _ & Hxo). rewrite (Hh x ax Hax Hxo).
    destruct (inv_node _ _ HI x ax Hax) as (? & cx & _ & Hcx & _). eauto.
  - intros Hp. rewrite Ef, El. destruct (inv_roots _ _ HI) as (lr & Hlr & ? & ?).
    rewrite Hp, Hlr in Hl. by simplify_eq.
  - intros Hp. split.
    + intros Hx. destruct (Hsn _ Hx) as (ax & Hax & Epx & _). by apply (Inv_not_self _ _ _ _ HI Hax); [congruence|].
    + destruct Hpn as [?|[ap Hap]]; [done|].
      destruct (inv_node _ _ HI _ _ Hap) as (lp & cp & Hlp & Hcp & Hckp). exists cp.
      rewrite (Hh _ _ Hap). 2:{ intros E. by apply (Inv_not_self _ _ _ _ HI Ha). }
      rewrite Hl in Hlp. injection Hlp as <-. split_and!; [done|apply Hckp..].
Qed.

(** The block of a node given back and a larger one taken. *)
Record realloc (v v' : View) (A : Abs) (o o' sz : Z) (fr : list Z) (pay : bytes) : Prop := {
  ra_flist : flist v' fr;
  ra_cells : forall x c, x ∈ fr -> v_heap v' !! x = Some c -> bsize (c_blk c) <= 44 + zlen (c_pay c);
  ra_slot : slot v' o' sz pay;
  ra_lo : 32 <= o';
  ra_out : o' ∉ fr;
  ra_new : nodes A !! o' = None;
  ra_nodes : forall x ax, nodes A !! x = Some ax -> x <> o -> (x ∉ fr) /\ v_heap v' !! x = v_heap v !! x;
  ra_idx : v_idx v' = v_idx v;
  ra_eof : v_eof v' = v_eof v;
  ra_version : v_version v' = v_version v;
  ra_firstRoot : firstRoot (v_hdr v') = firstRoot (v_hdr v);
  ra_lastRoot : lastRoot (v_hdr v') = lastRoot (v_hdr v)
}.

Lemma wp_realloc {B} s v A o a c b sz (k : Z -> Prog (St F I) B) Q :
  Rep s v -> Inv v A -> nodes A !! o = Some a -> v_heap v !! o = Some c -> block_ok b ->
  bsize b <= 44 + zlen (c_pay c) -> bsize b < sz < 4294967296 ->
  (forall o' s' v' fr pay, Rep s' v' -> realloc v v' A o o' sz fr pay -> wp (k o') Q s') ->
  wp (addBlockToFreeList b o ;; offset ← findBlock sz; k offset) Q s.
Proof.
  intros H HI Ha Hc Hok Hsz Hlt HQ. pose proof (ok_size _ Hok) as [? _].
  pose proof (inv_disj _ _ HI _ _ Ha) as Hof. wstep.
  eapply wp_mono; [by apply (wp_addBlockToFreeList s v (frees A) o c b H); auto; apply HI|].
  intros _ s1 (v1 & f1 & f2 & Ef & Hs1 & Hfl1 & Hfr1). wstep.
  assert (forall x, x ∈ f1 ++ o :: f2 <-> x = o \/ x ∈ frees A) as Hmem by (intros x; rewrite Ef; set_solver).
  assert (forall x, x ∉ frees A -> x <> o -> v_heap v1 !! x = v_heap v !! x) as Hh1.
  { intros x Hx Hxo. rewrite (lf_out _ _ _ Hfr1) by set_solver. simpl. by rewrite lookup_insert_ne. }
  assert (size_of (v_heap v1) o = bsize b) as Hso.
  { rewrite (lframe_size _ _ _ _ Hfr1). unfold size_of. simpl. by rewrite lookup_insert_eq. }
  assert (forall x ax, nodes A !! x = Some ax -> x <> o -> x ∉ f1 ++ o :: f2) as Hnf.
  { intros x ax Hax Hxo. rewrite Hmem. intros [?|Hx]; [done|]. by apply (inv_disj _ _ HI x ax). }
  eapply wp_mono; [apply (wp_allocate s1 v1 (f1 ++ o :: f2) sz Hs1 Hfl1); [|lia]|].
  { eapply freed_cells; [exact Hfr1|done|apply (inv_freecell _ _ HI)|done]. }
  intros o' s2 (v2 & fr2 & pay & Hs2 & [Hfl2 Hcells2 Hslot2 Hlo2 Hout2 Hfrom Hsub2 Hheap2 Ei2 Ee2 Ev2 Ef2 El2]).
  apply (HQ o' s2 v2 fr2 pay); [done|].
  assert (o' <> o) as Hoo.
  { intros ->. destruct Hfrom as [[_ Hge]|Hn]; [lia|].
    destruct (dseg_lookup _ _ _ _ o (fl_seg _ _ Hfl1)); [set_solver|congruence]. }
  constructor; auto.
  - destruct (nodes A !! o') as [ax|] eqn:E; [|done]. destruct Hfrom as [[Hin _]|Hn]; [by destruct (Hnf o' ax E Hoo)|].
    destruct (inv_node _ _ HI _ _ E) as (? & cx & _ & Hcx & _).
    rewrite Hh1 in Hn; [congruence| |done]. by apply (inv_disj _ _ HI o' ax).
  - intros x ax Hax Hxo. split; [intros Hx; by apply (Hnf x ax Hax Hxo), Hsub2|].
    rewrite (Hheap2 x (Hnf x ax Hax Hxo)). apply Hh1; [|done]. by apply (inv_disj _ _ HI x ax).
  - by rewrite Ei2, (lf_idx _ _ _ Hfr1).
  - by rewrite Ee2, (lf_eof _ _ _ Hfr1).
  - by rewrite Ev2, (lf_version _ _ _ Hfr1).
  - by rewrite Ef2, (lf_firstRoot _ _ _ Hfr1).
  - by rewrite El2, (lf_lastRoot _ _ _ Hfr1).
Qed.

(** The node at its new place: links, block, key and data. *)
Lemma wp_write_moved s v v2 A o o' a c n d l1 l2 lo fr pay kl sz :
  Rep s v2 -> Inv v A -> v_heap v !! (-1) = None -> nodes A !! o = Some a -> v_heap v !! o = Some c ->
  lists A !! a_parent a = Some (l1 ++ o :: l2) -> lists A !! o = Some lo ->
  m_offset n = o -> holds (a_key a) d n -> m_bfr n = bfr_of d -> block_ok (m_blk n) ->
  (exists fl, m_blk n = set_size sz (stored (a_key a) d (set_flags fl (c_blk c)))) ->
  sz = 44 + (zlen (a_key a) + 1 + zlen d) -> kl = zlen (a_key a) + 1 ->
  realloc v v2 A o o' sz fr pay -> v_eof v + sz < 2147483648 ->
  wp (n ← updateOffsets n o';
      b ← writeBlock (m_blk n) (m_offset n);
      let n := set_blk b n in
      (cc ← file_write (m_key n ++ [0]) (-1);
       if negb (cc =? kl) then throw "Failed to write node key"
       else cc ← file_write (take (Z.to_nat (m_bfrLen n)) (default [] (m_bfr n))) (-1);
            if negb (cc =? m_bfrLen n) then throw "Failed to write node data" else mret ()) ;;
      vv ← registerWrite; mret (set_nversion vv n))
    (fun n' s' => exists v' c', Rep s' v' /\
      let a' := mkANode (a_key a) d (a_parent a) (flags (m_blk n)) in
      Inv v' (relocated A o o' (a_parent a) a' l1 l2 lo fr) /\
      v_heap v' !! o' = Some c' /\ flags (c_blk c') = flags (m_blk n) /\ Node_read v' o' a' c' n') s.
Proof.
  intros H HI HM Ha Hc Hl Hlo Ho Hh Hbfr Hok [fl' Efl] Esz -> [] Hsm.
  destruct (inv_node _ _ HI _ _ Ha) as (lo' & c' & Hlo' & Hc' & Hck). simplify_eq.
  pose proof (slot_le _ _ _ _ _ H ra_slot0) as Hle. rewrite ra_eof0 in Hle. pose proof (Rep_eof _ _ H).
  pose proof (zlen_nonneg (a_key a)). pose proof (zlen_nonneg d).
  destruct (inv_list _ _ HI _ _ Hlo) as (_ & Hndlo & Hseglo & Hmlo).
  destruct (inv_list _ _ HI _ _ Hl) as (Hpn & Hnd & Hseg & Hm).
  assert (forall x, x ∈ lo -> x <> m_offset n) as Hkne.
  { intros x Hx ->. destruct (Hmlo _ Hx) as (ax & Hax & Ex). simplify_eq.
    eapply (Inv_not_self _ _ _ _ HI Ha); [rewrite Ex; by eapply (node_ne v A HI HM)|done]. }
  wstep. eapply (wp_updateOffsets s v2 n (m_offset n) o' (a_parent a) l1 l2 lo (a_key a)); auto; try lia.
  - eapply (node_unlinkable v); eauto; try (by rewrite Efl). intros x ax Hax Hxo. by apply (ra_nodes0 x ax).
  - rewrite Efl. apply Hck.
  - eapply dseg_ext; [|done]. intros x Hx. destruct (Hmlo x Hx) as (ax & Hax & _). by apply (ra_nodes0 x ax); auto.
  - intros x Hx Hx'. destruct (Hmlo x Hx) as (ax & Hax & Ex). destruct (Hm x) as (ax' & Hax' & Ex'); [set_solver|].
    simplify_eq. eapply (Inv_not_self _ _ _ _ HI Ha); [|congruence]. rewrite <- Ex', Ex. by eapply (node_ne v A HI HM).
  - apply Hh.
  - apply Hck.
  - rewrite ra_idx0. apply (inv_idx _ _ HI). eauto.
  - by eapply (node_ne v A HI HM).
  - intros s3 v3 Hs3 EM Ei Ee Ev Ef Hr.
    assert (forall x, (forall ax, nodes A !! x = Some ax -> x = m_offset n) -> x <> -1 -> x <> a_parent a ->
      v_heap v3 !! x = v_heap v2 !! x) as Hout3.
    { intros x Hx Hx1 Hxp. rewrite EM. apply moved_out; auto.
      - intros Hin. destruct (Hmlo _ Hin) as (ax & Hax & _). by apply (Hkne x Hin), (Hx ax).
      - intros Hin. destruct (Hm x) as (ax & Hax & _); [set_solver|]. specialize (Hx ax Hax). subst x.
        rewrite <- Permutation_middle in Hnd. by apply NoDup_cons in Hnd as [? _]. }
    assert (v_heap v3 !! o' = v_heap v2 !! o') as Ho3.
    { apply Hout3; [congruence|lia|]. intros E. destruct Hpn as [?|[ap Hap]]; [lia|congruence]. }
    wstep. cbn [m_blk m_offset set_offset]. rewrite <- ra_eof0 in Hsm.
    eapply (wp_writeBlock_slot s3 v3 o' _ pay); [done| |done|lia|].
    { destruct ra_slot0 as [(cs & ? & ? & ?)|(? & ? & ?)]; [left; exists cs; by rewrite Ho3|right; by rewrite Ho3, Ee]. }
    intros s4 Hs4 Hp4. cbv zeta.
    eapply (wp_write_rest s4 _ o' _ (a_key a) d); [exact Hs4|simpl; apply lookup_insert_eq|done|by destruct Hh|done| |lia|].
    { simpl. rewrite Ee. eapply slot_fit; [exact H|exact ra_slot0|lia|done]. }
    intros s5 pay' Hs5 Hpl. simpl in Hs5, Hpl. set (b' := seal (m_blk n)) in *.
    eexists _, (mkCell b' pay'). split; [exact Hs5|]. cbv zeta. set (v5 := vversion _ _).
    assert (forall x, x <> o' -> v_heap v5 !! x = v_heap v3 !! x) as Hv5.
    { intros x Hx. unfold v5. simpl. by rewrite !lookup_insert_ne. }
    assert (forall x, x ∈ fr -> v_heap v5 !! x = v_heap v2 !! x) as Hfr5.
    { intros x Hx. rewrite Hv5 by (intros ->; done). apply Hout3.
      - intros ax Hax. destruct (decide (x = m_offset n)) as [|Hne]; [done|]. by destruct (ra_nodes0 x ax Hax Hne).
      - intros ->. destruct (dseg_lookup _ _ _ _ _ (fl_seg _ _ ra_flist0) Hx). by rewrite (Rep_neg _ _ H) in *.
      - intros ->. destruct Hpn as [E|[ap Hap]].
        + rewrite E in Hx. destruct (dseg_lookup _ _ _ _ _ (fl_seg _ _ ra_flist0) Hx). by rewrite (Rep_neg _ _ H) in *.
        + destruct (ra_nodes0 _ _ Hap) as [? _]; [|done]. intros E.
          eapply (Inv_not_self _ _ _ _ HI Ha); [|done]. by eapply (node_ne v A HI HM). }
    assert (v_heap v5 !! o' = Some (mkCell b' pay')) as Hc5 by apply lookup_insert_eq.
    split_and!; [|done|done|].
    + apply (Inv_move v v5 A (m_offset n) o' (a_parent a) a _ l1 l2 lo fr (mkCell b' pay')); auto; try lia.
      * pose proof (pay_len _ _ _ (pl_ok _ _ _ _ Hpl)). subst b'. rewrite Efl. destruct Hck.
        constructor; simpl; auto; [lia|]. apply Hpl.
      * subst b'. rewrite Efl. simpl. by destruct (dseg_at _ _ _ _ _ _ _ Hseg Hc).
      * subst b'. rewrite Efl. simpl. by destruct (dseg_at _ _ _ _ _ _ _ Hseg Hc).
      * eapply flist_ext; [exact ra_flist0|done|done].
      * intros x cx Hx. rewrite (Hfr5 x Hx). by apply ra_cells0.
      * intros x ax Hax Hxo. by destruct (ra_nodes0 x ax Hax Hxo).
      * intros x ax Hax Hxo. rewrite Hv5 by congruence. rewrite EM. apply moved_ext. by apply (ra_nodes0 x ax).
      * unfold v5. simpl. by rewrite Ei, ra_idx0.
      * unfold roots_ok in *. unfold v5. simpl. by rewrite <- ra_firstRoot0, <- ra_lastRoot0.
    + destruct Hh. constructor; simpl; auto.
Qed.

(** Writing a node that no longer fits: it moves to another block. *)
Lemma wp_write_move s v A o a c n d l1 l2 lo :
  Rep s v -> Inv v A -> nodes A !! o = Some a -> v_heap v !! o = Some c ->
  lists A !! a_parent a = Some (l1 ++ o :: l2) -> lists A !! o = Some lo ->
  m_offset n = o -> m_key n = a_key a -> m_bfrLen n = zlen d -> m_bfr n = bfr_of d ->
  block_ok (m_blk n) -> (exists fl, m_blk n = set_flags fl (c_blk c)) ->
  bsize (c_blk c) < 44 + (zlen (a_key a) + 1 + zlen d) ->
  v_eof v + 44 + (zlen (a_key a) + 1 + zlen d) < 2147483648 ->
  wp (write (Some n) E_WRITE_ALL) (fun n' s' => exists v' o' c' fr', Rep s' v' /\
    let a' := mkANode (a_key a) d (a_parent a) (flags (m_blk n)) in
    Inv v' (relocated A o o' (a_parent a) a' l1 l2 lo fr') /\ nodes A !! o' = None /\
    v_heap v' !! o' = Some c' /\ flags (c_blk c') = flags (m_blk n) /\ Node_read v' o' a' c' n') s.
Proof.
  intros H HI Ha Hc Hl Hlo Ho Hk Hlen Hbfr Hok [fl' Efl] Hfit Hsm.
  destruct (Inv_node _ _ _ _ _ H HI Ha) as (lo' & c' & Hlo' & Hc' & Hck & Hor & _). simplify_eq.
  pose proof (ck_size _ _ _ Hck). pose proof (Rep_pay_small _ _ _ _ H Hc).
  pose proof (zlen_nonneg (a_key a)). pose proof (zlen_nonneg d). pose proof (Rep_eof _ _ H).
  assert (0 <= bsize (c_blk c)) by (destruct (Rep_ok _ _ _ _ H Hc) as [_ _ _ [? _]]; lia).
  set (o := m_offset n) in *. set (k := a_key a) in *.
  assert (holds k d n) as Hh by (constructor; auto; rewrite Hbfr; apply bfr_of_default).
  unfold write. rewrite (stored_eq k d n Hh) by lia. cbn [m_offset set_blk]. fold o.
  ztest. wstep. cbn [m_blk bsize stored set_isFree set_dataLength set_keyLength dataLength].
  change (bsize (m_blk (set_blk _ n))) with (bsize (m_blk n)).
  replace (bsize (m_blk n)) with (bsize (c_blk c)) by (by rewrite Efl). unfold sizeof_HDBBlock.
  rewrite (s32_id (bsize (c_blk c))), (s32_id (zlen k + 1 + zlen d + 44)) by lia. ztest.
  replace (zlen k + 1 + zlen d + 44) with (44 + (zlen k + 1 + zlen d)) by lia.
  rewrite (u32_id (44 + _)) by lia. set (sz := 44 + (zlen k + 1 + zlen d)) in *.
  cbn [m_blk set_blk]. wstep.
  assert (bsize (stored k d (m_blk n)) = bsize (c_blk c)) as Ebs by (simpl; by rewrite Efl).
  eapply (wp_realloc s v A o a c); [done..|apply block_ok_stored; [done|lia]|lia|lia|].
  intros o' s2 v2 fr pay Hs2 Hra. set (n2 := set_blk _ (set_blk _ n)).
  assert (wp (n ← updateOffsets n2 o';
      b ← writeBlock (m_blk n) (m_offset n);
      let n := set_blk b n in
      (cc ← file_write (m_key n ++ [0]) (-1);
       if negb (cc =? zlen k + 1) then throw "Failed to write node key"
       else cc ← file_write (take (Z.to_nat (m_bfrLen n)) (default [] (m_bfr n))) (-1);
            if negb (cc =? m_bfrLen n) then throw "Failed to write node data" else mret ()) ;;
      vv ← registerWrite; mret (set_nversion vv n)) (fun n' s' => exists v' o' c' fr', Rep s' v' /\
    let a' := mkANode k d (a_parent a) (flags (m_blk n)) in
    Inv v' (relocated A o o' (a_parent a) a' l1 l2 lo fr') /\ nodes A !! o' = None /\
    v_heap v' !! o' = Some c' /\ flags (c_blk c') = flags (m_blk n) /\ Node_read v' o' a' c' n') s2) as Hw.
  { eapply wp_mono.
    - eapply (wp_write_moved s2 v v2 A o o' a c n2 d l1 l2 lo fr pay _ sz); eauto.
      + by eapply Rep_neg.
      + by destruct Hh.
      + apply block_ok_size; [unfold is_u32; lia|]. apply block_ok_stored; [done|lia].
      + exists fl'. unfold n2. simpl. by rewrite Efl.
      + lia.
    - intros n' s' (v' & c' & Hs' & HI' & Hc' & Hf & Hn'). exists v', o', c', fr. split; [done|].
      cbv zeta. split_and!; auto. apply Hra. }
  apply wp_bind_inv in Hw. eapply wp_mono; [exact Hw|]. intros n3 s3 Hw3. apply wp_bind_inv in Hw3. wstep.
  eapply wp_mono; [exact Hw3|]. intros b s4 Hw4. wstep. rewrite Hk. exact Hw4.
Qed.
End Relocate.
