(* ===== verification/HdbSpec.v ===== *)
(** * The contract of the hierarchical database

   What a user of [HDBHandle] may rely on, without offsets, blocks or free
   lists: a forest of nodes by key ([Forest]) with the operations [f_attach],
   [f_set] and [f_prune].  [models] relates it to the abstract database of
   [HdbInv], and the lemmas show that the changes proved of the code there are
   these operations. *)

From S2P Require Import Prelude FileIO HdbCommon Index Hdb HdbHeap Dll FreeList HdbNode HdbInv HdbTree HdbAlloc HdbAdd HdbSubtree HdbRemove HdbUpdate HdbRelocate.

(** ** Forests by key *)

(** The empty key stands for "no parent". *)
Record FNode := mkFNode { fn_data : bytes; fn_flags : Z; fn_parent : bytes; fn_children : list bytes }.
Record Forest := mkForest { f_nodes : gmap bytes FNode; f_roots : list bytes }.

Definition f_empty : Forest := mkForest ∅ [].

Definition fn_add (k : bytes) (n : FNode) : FNode :=
  mkFNode (fn_data n) (fn_flags n) (fn_parent n) (fn_children n ++ [k]).
Definition fn_drop (k : bytes) (n : FNode) : FNode :=
  mkFNode (fn_data n) (fn_flags n) (fn_parent n) (filter (fun x => x <> k) (fn_children n)).
Definition fn_set (d : bytes) (fl : Z) (n : FNode) : FNode := mkFNode d fl (fn_parent n) (fn_children n).

(** A new leaf behind the children of [p] (the roots when [p] is empty). *)
Definition f_attach (p k d : bytes) (fl : Z) (f : Forest) : Forest :=
  if bool_decide (p = []) then mkForest (<[k := mkFNode d fl [] []]> (f_nodes f)) (f_roots f ++ [k])
  else mkForest (<[k := mkFNode d fl p []]> (alter (fn_add k) p (f_nodes f))) (f_roots f).

(** The data and the flags of one node replaced. *)
Definition f_set (k d : bytes) (fl : Z) (f : Forest) : Forest :=
  mkForest (alter (fn_set d fl) k (f_nodes f)) (f_roots f).

Inductive f_below (f : Forest) (k : bytes) : bytes -> Prop :=
| fb_top : f_below f k k
| fb_child x n : f_nodes f !! x = Some n -> f_below f k (fn_parent n) -> f_below f k x.

(** [f'] is [f] without [k] and everything below it. *)
Definition f_prune (f f' : Forest) (k : bytes) : Prop :=
  (forall x n', f_nodes f' !! x = Some n' <->
     exists n, f_nodes f !! x = Some n /\ ~ f_below f k x /\ n' = fn_drop k n) /\
  f_roots f' = filter (fun x => x <> k) (f_roots f).

(** ** The abstract database as a forest *)

Definition key_of (A : Abs) (o : Z) : bytes :=
  match nodes A !! o with Some a => a_key a | None => [] end.

Record models (A : Abs) (f : Forest) : Prop := {
  md_nodes : forall k n, f_nodes f !! k = Some n <->
    exists o a l, nodes A !! o = Some a /\ a_key a = k /\ lists A !! o = Some l /\
      n = mkFNode (a_data a) (a_flags a) (key_of A (a_parent a)) (key_of A <$> l);
  md_roots : exists l, lists A !! (-1) = Some l /\ f_roots f = key_of A <$> l
}.

Section Models.
Context (v : View) (A : Abs) (HI : Inv v A) (HM : v_heap v !! (-1) = None).

Lemma key_of_node o a : nodes A !! o = Some a -> key_of A o = a_key a.
Proof using. intros Ha. unfold key_of. by rewrite Ha. Qed.

Lemma key_inj o o' a a' : nodes A !! o = Some a -> nodes A !! o' = Some a' -> a_key a = a_key a' -> o = o'.
Proof using HI.
  intros Ha Ha' E. assert (v_idx v !! a_key a = Some o) by (apply (inv_idx _ _ HI); eauto).
  assert (v_idx v !! a_key a = Some o') by (apply (inv_idx _ _ HI); eauto). congruence.
Qed.

Lemma key_ne o a : nodes A !! o = Some a -> a_key a <> [].
Proof using HI. intros Ha. destruct (inv_node _ _ HI o a Ha) as (l & c & _ & _ & Hck). apply (ck_key _ _ _ Hck). Qed.

Lemma key_of_neg : key_of A (-1) = [].
Proof using HI HM. unfold key_of. by rewrite (node_neg v A HI HM). Qed.

Lemma key_of_inj o a x : nodes A !! o = Some a -> key_of A x = a_key a -> x = o.
Proof using HI.
  intros Ha. unfold key_of. destruct (nodes A !! x) as [ax|] eqn:E.
  - intros Ek. by apply (key_inj x o ax a).
  - intros Ek. by destruct (key_ne o a Ha).
Qed.

Lemma models_lookup f o a l : models A f -> nodes A !! o = Some a -> lists A !! o = Some l ->
  f_nodes f !! a_key a = Some (mkFNode (a_data a) (a_flags a) (key_of A (a_parent a)) (key_of A <$> l)).
Proof using. intros Hm Ha Hl. apply (md_nodes _ _ Hm). eauto 8. Qed.
End Models.

(** ** Adding *)

Lemma f_attach_nodes p k d fl f x : f_nodes (f_attach p k d fl f) !! x =
  if decide (x = k) then Some (mkFNode d fl p [])
  else if decide (x = p /\ p <> []) then fn_add k <$> f_nodes f !! x else f_nodes f !! x.
Proof.
  unfold f_attach. case_bool_decide as Ep; simpl; rewrite lookup_insert; destruct (decide (k = x)) as [->|Hne].
  - rewrite decide_True by done. by subst p.
  - rewrite decide_False by done. rewrite decide_False; [done|]. tauto.
  - by rewrite decide_True.
  - rewrite decide_False by done. destruct (decide (p = x)) as [->|Hpx].
    + by rewrite lookup_alter_eq, decide_True.
    + rewrite lookup_alter_ne, decide_False by naive_solver. done.
Qed.

Lemma models_grown v A A' f o p k d fl l :
  Inv v A -> v_heap v !! (-1) = None -> models A f -> k <> [] -> o <> -1 ->
  (forall x a, nodes A !! x = Some a -> a_key a <> k) ->
  grown A A' o p (mkANode k d p fl) l -> models A' (f_attach (key_of A p) k d fl f).
Proof.
  intros HI HM [Hmn (lr & Hlr & Hmr)] Hk Ho1 Hfresh (Hno & Hl & En & El).
  assert (p <> o) as Hpo. { intros ->. destruct (inv_list _ _ HI o l Hl) as ([?|[? ?]] & _); congruence. }
  assert (key_of A' o = k) as Eko by (unfold key_of; by rewrite En, lookup_insert_eq).
  assert (forall x, x <> o -> key_of A' x = key_of A x) as Ekx.
  { intros x Hx. unfold key_of. by rewrite En, lookup_insert_ne. }
  assert (forall q lq, lists A !! q = Some lq -> key_of A' <$> lq = key_of A <$> lq) as Ekl.
  { intros q lq Hq. apply list_fmap_ext. intros i x Hx. apply Ekx. intros ->.
    apply list_elem_of_lookup_2 in Hx. destruct (Inv_in_list _ _ _ _ _ HI Hq Hx) as (? & ? & _). congruence. }
  assert (forall x ax, nodes A !! x = Some ax -> a_parent ax <> o) as Hpx.
  { intros x ax Hax E. destruct (inv_up _ _ HI x ax Hax) as (lx & Hlx & _). rewrite E in Hlx.
    by rewrite (Inv_list_none _ _ _ HI Hno Ho1) in Hlx. }
  assert (forall x ax, nodes A !! x = Some ax -> (a_key ax = key_of A p /\ key_of A p <> [] <-> x = p)) as Hkp.
  { intros x ax Hax. split.
    - intros [E _]. symmetry. by apply (key_of_inj v A HI x ax p).
    - intros ->. rewrite (key_of_node A p ax Hax). split; [done|]. by eapply key_ne. }
  constructor.
  - intros k' n. rewrite f_attach_nodes, En, El. split.
    + case_decide as D; [intros [= <-]; subst k'; exists o, (mkANode k d p fl), []|].
      { rewrite !lookup_insert_eq, Ekx by done. done. }
      intros Hn. assert (exists n0, f_nodes f !! k' = Some n0 /\
        n = if decide (k' = key_of A p /\ key_of A p <> []) then fn_add k n0 else n0) as (n0 & Hn0 & ->).
      { case_decide; [apply fmap_Some in Hn as (n0 & ? & ->)|]; eauto. }
      apply Hmn in Hn0 as (o0 & a0 & l0 & Ha0 & <- & Hl0 & ->). assert (o0 <> o) as Ho0 by congruence.
      pose proof (Hkp o0 a0 Ha0) as Hkp0. rewrite <- (Ekx (a_parent a0)) by eauto. case_decide as D2.
      * apply Hkp0 in D2 as ->. rewrite Hl in Hl0. injection Hl0 as <-. exists p, a0, (l ++ [o]).
        rewrite lookup_insert_ne, lookup_insert_ne, lookup_insert_eq by done. split_and!; auto.
        unfold fn_add. simpl. rewrite fmap_app, (Ekl p) by done. simpl. by rewrite Eko.
      * assert (o0 <> p) by tauto. exists o0, a0, l0. rewrite !lookup_insert_ne by done. split_and!; auto.
        by rewrite (Ekl o0).
    + intros (o0 & a0 & l0 & Ha0 & <- & Hl0 & ->).
      apply lookup_insert_Some in Ha0 as [[<- <-]|[Hne Ha0]].
      { rewrite lookup_insert_eq in Hl0. injection Hl0 as <-. simpl. rewrite decide_True, Ekx by done. done. }
      rewrite lookup_insert_ne in Hl0 by done. rewrite decide_False by eauto.
      pose proof (Hkp o0 a0 Ha0) as Hkp0. rewrite (Ekx (a_parent a0)) by eauto.
      apply lookup_insert_Some in Hl0 as [[-> <-]|[Hnp Hl0]].
      * rewrite decide_True by tauto. apply fmap_Some. eexists. split; [apply Hmn; eauto 8|].
        unfold fn_add. simpl. rewrite fmap_app, (Ekl o0) by done. simpl. by rewrite Eko.
      * rewrite decide_False by (rewrite Hkp0; congruence). apply Hmn. exists o0, a0, l0. split_and!; auto. by rewrite (Ekl o0).
  - destruct (decide (p = -1)) as [->|Hp].
    + exists (l ++ [o]). rewrite El, lookup_insert_ne, lookup_insert_eq by done. split; [done|].
      unfold f_attach. rewrite (key_of_neg v A HI HM), bool_decide_true by done. simpl.
      rewrite Hmr, fmap_app, (Ekl (-1)) by done. simpl. rewrite Eko. congruence.
    + exists lr. rewrite El, !lookup_insert_ne by done. split; [done|].
      destruct (inv_list _ _ HI p l Hl) as ([?|[ap Hap]] & _); [done|].
      unfold f_attach. rewrite (key_of_node A p ap Hap), bool_decide_false by (by eapply key_ne).
      simpl. by rewrite Hmr, (Ekl (-1)).
Qed.

(** ** Updating *)

Lemma f_set_nodes k d fl f x :
  f_nodes (f_set k d fl f) !! x = if decide (x = k) then fn_set d fl <$> f_nodes f !! x else f_nodes f !! x.
Proof.
  unfold f_set; simpl. destruct (decide (x = k)) as [->|]; [by rewrite lookup_alter_eq|by rewrite lookup_alter_ne].
Qed.

(** The same forest with its nodes at other offsets ([r]) and the data of [k]
   replaced. *)
Lemma models_iso v A v' A' f k d fl (r : Z -> Z) :
  Inv v A -> v_heap v !! (-1) = None -> Inv v' A' -> v_heap v' !! (-1) = None -> r (-1) = -1 ->
  (forall x ax, nodes A !! x = Some ax -> nodes A' !! r x =
     Some (mkANode (a_key ax) (if decide (a_key ax = k) then d else a_data ax) (r (a_parent ax))
       (if decide (a_key ax = k) then fl else a_flags ax))) ->
  (forall y ay, nodes A' !! y = Some ay -> exists x ax, y = r x /\ nodes A !! x = Some ax) ->
  (forall x lx, lists A !! x = Some lx -> lists A' !! r x = Some (r <$> lx)) ->
  models A f -> models A' (f_set k d fl f).
Proof.
  intros HI HM HI' HM' Hr Hn Hn' Hl [Hmn (lr & Hlr & Hmr)].
  assert (forall x, (x = -1 \/ is_Some (nodes A !! x)) -> key_of A' (r x) = key_of A x) as Hk.
  { intros x [->|[ax Hax]]; [by rewrite Hr, (key_of_neg v A HI HM), (key_of_neg v' A' HI' HM')|].
    by rewrite (key_of_node A x ax Hax), (key_of_node A' (r x) _ (Hn x ax Hax)). }
  assert (forall q lq, lists A !! q = Some lq -> key_of A' <$> (r <$> lq) = key_of A <$> lq) as Hkl.
  { intros q lq Hq. rewrite <- list_fmap_compose. apply list_fmap_ext. intros i x Hx. simpl. apply Hk. right.
    apply list_elem_of_lookup_2 in Hx. destruct (Inv_in_list _ _ _ _ _ HI Hq Hx) as (? & ? & _). eauto. }
  assert (forall x ax, nodes A !! x = Some ax -> a_parent ax = -1 \/ is_Some (nodes A !! a_parent ax)) as Hpar.
  { intros x ax Hax. destruct (inv_up _ _ HI x ax Hax) as (lx & Hlx & _). by destruct (inv_list _ _ HI _ _ Hlx). }
  constructor; [|exists (r <$> lr); rewrite <- Hr, (Hkl (-1)) by done; auto].
  intros x n. rewrite f_set_nodes. split.
  - intros Hx. assert (exists n0, f_nodes f !! x = Some n0 /\ n = if decide (x = k) then fn_set d fl n0 else n0)
      as (n0 & Hn0 & ->) by (case_decide; [apply fmap_Some in Hx as (n0 & ? & ->)|]; eauto).
    apply Hmn in Hn0 as (o & a & l & Ha & <- & Hlo & ->). eexists (r o), _, (r <$> l).
    split_and!; [by apply Hn|done|by apply Hl|]. simpl. rewrite (Hkl o), Hk by eauto. by case_decide.
  - intros (y & ay & ly & Hay & <- & Hly & ->). destruct (Hn' y ay Hay) as (o & a & -> & Ha).
    rewrite (Hn o a Ha) in Hay. injection Hay as <-. simpl.
    destruct (inv_node _ _ HI o a Ha) as (l & _ & Hlo & _). rewrite (Hl o l Hlo) in Hly. injection Hly as <-.
    rewrite (Hkl o), Hk by eauto. assert (f_nodes f !! a_key a = Some (mkFNode (a_data a) (a_flags a) (key_of A (a_parent a)) (key_of A <$> l)))
      as Hf by (apply Hmn; eauto 8). rewrite Hf. by case_decide.
Qed.

Lemma models_with_node v v' A f o a d fl :
  Inv v A -> v_heap v !! (-1) = None -> v_heap v' !! (-1) = None -> nodes A !! o = Some a ->
  Inv v' (with_node o (mkANode (a_key a) d (a_parent a) fl) A) ->
  models A f -> models (with_node o (mkANode (a_key a) d (a_parent a) fl) A) (f_set (a_key a) d fl f).
Proof.
  intros HI HM HM' Ha HI'. apply (models_iso v A v' _ f (a_key a) d fl id); auto; simpl.
  - intros x ax Hax. rewrite lookup_insert. case_decide as D.
    + subst x. simplify_eq. by rewrite !decide_True.
    + assert (a_key ax <> a_key a) by (intros E; apply D; by eapply (key_inj v A HI o x a ax)).
      rewrite !decide_False by done. by destruct ax.
  - intros y ay [[<- <-]|[_ Hay]]%lookup_insert_Some; eauto.
  - intros x lx Hx. unfold id. by rewrite list_fmap_id.
Qed.

Lemma models_relocated v v' A f o o' a d fl l1 l2 lo fr :
  Inv v A -> v_heap v !! (-1) = None -> v_heap v' !! (-1) = None -> nodes A !! o = Some a -> nodes A !! o' = None ->
  lists A !! a_parent a = Some (l1 ++ o :: l2) -> lists A !! o = Some lo -> o' <> -1 ->
  (let A' := relocated A o o' (a_parent a) (mkANode (a_key a) d (a_parent a) fl) l1 l2 lo fr in
   Inv v' A' -> models A f -> models A' (f_set (a_key a) d fl f)).
Proof.
  intros HI HM HM' Ha Hno' Hl Hlo Ho1 A' HI'.
  pose proof (node_ne v A HI HM o a Ha) as Hone.
  pose proof (mv_po v A o (a_parent a) a HI HM Ha eq_refl) as Hpo.
  assert (forall x, is_Some (nodes A !! x) -> x <> o') as Hne by (intros x [? ?] ->; congruence).
  assert (forall q lq, lists A !! q = Some lq -> q <> a_parent a -> o ∉ lq) as Hout.
  { intros q lq Hq Hqp Hin. destruct (Inv_in_list _ _ _ _ _ HI Hq Hin) as (? & ? & ?). congruence. }
  set (r x := if decide (x = o) then o' else x).
  assert (forall x, x <> o -> r x = x) as Hrx by (intros; unfold r; by rewrite decide_False).
  assert (r o = o') as Hro by (unfold r; by rewrite decide_True).
  assert (forall l : list Z, o ∉ l -> r <$> l = l) as Hrl.
  { intros l Hin. induction l as [|y l IH]; [done|]. rewrite fmap_cons, IH by set_solver. rewrite Hrx; [done|]. set_solver. }
  apply (models_iso v A v' A' f (a_key a) d fl r HI HM HI' HM'); [by apply Hrx| | |].
  - intros x ax Hax. apply (mv_nodes A o o' _ _ l1 l2 lo fr). destruct (decide (x = o)) as [->|Hxo].
    + left. simplify_eq. by rewrite Hro, !decide_True, (Hrx (a_parent a)).
    + right. rewrite Hrx by done. split_and!; eauto. exists ax. split; [done|]. unfold setpar.
      assert (a_key ax <> a_key a) by (intros E; apply Hxo; by eapply (key_inj v A HI x o ax a)).
      by rewrite !(decide_False (P := a_key ax = a_key a)).
  - intros y ay [[-> ->]|(_ & Hyo & ay0 & Hay & ->)]%(mv_nodes A o o' _ _ l1 l2 lo fr); [by exists o, a|].
    exists y, ay0. by rewrite Hrx.
  - intros x lx Hx. apply (mv_lists v A o o' (a_parent a) a _ l1 l2 lo fr HI HM Ha eq_refl).
    destruct (decide (x = o)) as [->|Hxo].
    + left. simplify_eq. rewrite Hro, Hrl by eauto. done.
    + right. rewrite Hrx by done. assert (x <> o') as Hxo'.
      { destruct (inv_list _ _ HI x lx Hx) as ([->|?] & _); [done|by apply Hne]. }
      destruct (decide (x = a_parent a)) as [->|Hxp].
      * left. split_and!; auto. rewrite Hl in Hx. injection Hx as <-.
        destruct (inv_list _ _ HI _ _ Hl) as (_ & Hnd & _). rewrite <- Permutation_middle in Hnd.
        apply NoDup_cons in Hnd as [Hn _]. rewrite fmap_app, fmap_cons, Hro, !Hrl by set_solver. done.
      * right. split_and!; auto. rewrite Hrl by eauto. done.
Qed.

(** ** Every abstract database is a forest *)

Definition forest_of (A : Abs) : Forest :=
  mkForest (list_to_map ((fun oa : Z * ANode => (a_key oa.2,
      mkFNode (a_data oa.2) (a_flags oa.2) (key_of A (a_parent oa.2)) (key_of A <$> children A oa.1))) <$> map_to_list (nodes A)))
    (key_of A <$> children A (-1)).

Lemma forest_of_models v A : Inv v A -> models A (forest_of A).
Proof.
  intros HI. constructor.
  - intros k n. unfold forest_of; simpl. rewrite <- elem_of_list_to_map.
    + rewrite list_elem_of_fmap. split.
      * intros ([o a] & [= -> ->] & Ha%elem_of_map_to_list). simpl.
        destruct (inv_node _ _ HI o a Ha) as (l & _ & Hl & _). exists o, a, l. unfold children. by rewrite Hl.
      * intros (o & a & l & Ha & <- & Hl & ->). exists (o, a). simpl. unfold children. rewrite Hl.
        split; [done|]. by apply elem_of_map_to_list.
    + rewrite <- list_fmap_compose. unfold compose; simpl. apply NoDup_fmap_2_strong; [|apply NoDup_map_to_list].
      intros [o a] [o' a'] Ha%elem_of_map_to_list Ha'%elem_of_map_to_list E. simpl in E.
      assert (o = o') as -> by (by eapply (key_inj v A HI)). congruence.
  - destruct (inv_roots _ _ HI) as (l & Hl & _). exists l. unfold forest_of, children. simpl. by rewrite Hl.
Qed.

(** ** Removing *)

Section Pruned.
Context (v v' : View) (A A' : Abs) (f f' : Forest) (o : Z) (a : ANode) (l1 l2 : list Z).
Hypothesis HI : Inv v A.
Hypothesis HM : v_heap v !! (-1) = None.
Hypothesis HI' : Inv v' A'.
Hypothesis HM' : v_heap v' !! (-1) = None.
Hypothesis Hm : models A f.
Hypothesis Hm' : models A' f'.
Hypothesis Ha : nodes A !! o = Some a.
Hypothesis Hl : lists A !! a_parent a = Some (l1 ++ o :: l2).
Hypothesis Hrd : removed A A' o (a_parent a) l1 l2.

Lemma below_node x : below A o x -> is_Some (nodes A !! x).
Proof. destruct 1; eauto. Qed.

Lemma below_f_below x : below A o x -> f_below f (a_key a) (key_of A x).
Proof.
  induction 1 as [|x ax Hax Hb IH]; [rewrite (key_of_node A o a Ha); constructor|].
  destruct (inv_node _ _ HI x ax Hax) as (l & _ & Hlx & _).
  rewrite (key_of_node A x ax Hax). econstructor; [by apply (models_lookup A f x ax l)|]. done.
Qed.

Lemma f_nodes_nil : f_nodes f !! [] = None.
Proof.
  destruct (f_nodes f !! []) as [n|] eqn:E; [|done].
  apply (md_nodes _ _ Hm) in E as (x & ax & l & Hax & E & _). by destruct (key_ne v A HI x ax Hax).
Qed.

Lemma f_below_below k : f_below f (a_key a) k -> forall x ax, nodes A !! x = Some ax -> a_key ax = k -> below A o x.
Proof.
  induction 1 as [|k n Hn Hb IH]; intros x ax Hax E.
  - rewrite (key_inj v A HI x o ax a) by done. constructor.
  - apply (md_nodes _ _ Hm) in Hn as (y & ay & l & Hay & <- & _ & ->). simpl in *.
    assert (x = y) as -> by (by eapply (key_inj v A HI)). simplify_eq.
    destruct (inv_up _ _ HI y ay Hay) as (lp & Hlp & _).
    destruct (inv_list _ _ HI _ _ Hlp) as ([Ep|[ap Hap]] & _).
    + rewrite Ep, (key_of_neg v A HI HM) in Hb. inversion Hb as [E|? ? E]; subst.
      * by destruct (key_ne v A HI o a Ha).
      * by rewrite f_nodes_nil in E.
    + econstructor; [done|]. apply (IH (a_parent ay) ap Hap). by rewrite (key_of_node A _ ap Hap).
Qed.

Lemma pr_key x : (x = -1 \/ is_Some (nodes A !! x)) -> ~ below A o x -> key_of A' x = key_of A x.
Proof.
  intros [->|[ax Hax]] Hb; [by rewrite (key_of_neg v A HI HM), (key_of_neg v' A' HI' HM')|].
  rewrite (key_of_node A x ax Hax), (key_of_node A' x ax); [done|]. by apply (rd_nodes _ _ _ _ _ _ Hrd).
Qed.

Lemma neg_not_below : ~ below A o (-1).
Proof. intros Hb. destruct (below_node _ Hb) as [? E]. by rewrite (node_neg v A HI HM) in E. Qed.

(** The children of what is left, by key. *)
Lemma pr_children q lq : lists A !! q = Some lq -> ~ below A o q ->
  exists lq', lists A' !! q = Some lq' /\ key_of A' <$> lq' = filter (fun x => x <> a_key a) (key_of A <$> lq).
Proof.
  intros Hq Hb.
  assert (forall x, x ∈ lq -> x <> o -> key_of A' x = key_of A x /\ key_of A x <> a_key a) as Hx.
  { intros x Hx Hxo. destruct (Inv_in_list _ _ _ _ _ HI Hq Hx) as (ax & Hax & Hp). split.
    - apply pr_key; [eauto|]. intros Hbx. destruct Hbx as [|x ax' Hax' Hbp]; [done|]. simplify_eq.
    - intros E. apply Hxo. by eapply (key_of_inj v A HI o a x). }
  assert (forall l : list Z, (forall x, x ∈ l -> x ∈ lq /\ x <> o) ->
    key_of A' <$> l = filter (fun x => x <> a_key a) (key_of A <$> l)) as Hfil.
  { induction l as [|x l IH]; intros Hin; [done|]. destruct (Hin x ltac:(left)) as [Hx1 Hx2].
    destruct (Hx x Hx1 Hx2) as [E1 E2]. rewrite !fmap_cons, filter_cons_True, E1, IH by (done || set_solver). done. }
  destruct (decide (q = a_parent a)) as [->|Hqp].
  - exists (l1 ++ l2). split; [apply (rd_lists _ _ _ _ _ _ Hrd); by left|]. rewrite Hl in Hq. injection Hq as <-.
    destruct (inv_list _ _ HI _ _ Hl) as (_ & Hnd & _). rewrite <- Permutation_middle in Hnd.
    apply NoDup_cons in Hnd as [Hn _]. rewrite !fmap_app, fmap_cons, filter_app, filter_cons_False.
    + rewrite <- !Hfil; [done|..]; intros x Hin; (split; [set_solver|]); intros ->; set_solver.
    + rewrite (key_of_node A o a Ha). tauto.
  - exists lq. split; [apply (rd_lists _ _ _ _ _ _ Hrd); by right|]. apply Hfil. intros x Hin. split; [done|].
    intros ->. destruct (Inv_in_list _ _ _ _ _ HI Hq Hin) as (? & ? & ?). congruence.
Qed.

Lemma models_removed : f_prune f f' (a_key a).
Proof.
  split.
  - intros k n'. rewrite (md_nodes _ _ Hm'). split.
    + intros (x & ax & l' & Hax' & <- & Hl' & ->). apply (rd_nodes _ _ _ _ _ _ Hrd) in Hax' as [Hax Hb].
      destruct (inv_node _ _ HI x ax Hax) as (l & _ & Hlx & _). eexists. split_and!; [by eapply models_lookup| |].
      * intros Hf. apply Hb. by eapply f_below_below.
      * destruct (pr_children x l Hlx Hb) as (l2' & Hl2' & Ek). simplify_eq. unfold fn_drop. simpl. rewrite <- Ek.
        f_equal. destruct (inv_up _ _ HI x ax Hax) as (lp & Hlp & _). apply pr_key.
        -- by destruct (inv_list _ _ HI _ _ Hlp).
        -- intros Hbp. apply Hb. by econstructor.
    + intros (n & Hn & Hb & ->). apply (md_nodes _ _ Hm) in Hn as (x & ax & l & Hax & <- & Hlx & ->).
      assert (~ below A o x) as Hbx.
      { intros Hbx. apply Hb. rewrite <- (key_of_node A x ax Hax). by apply below_f_below. }
      destruct (pr_children x l Hlx Hbx) as (l' & Hl' & Ek). exists x, ax, l'. split_and!; auto.
      * by apply (rd_nodes _ _ _ _ _ _ Hrd).
      * unfold fn_drop. simpl. rewrite <- Ek. f_equal. destruct (inv_up _ _ HI x ax Hax) as (lp & Hlp & _).
        symmetry. apply pr_key; [by destruct (inv_list _ _ HI _ _ Hlp)|]. intros Hbp. apply Hbx. by econstructor.
  - destruct (md_roots _ _ Hm) as (l & Hlr & ->). destruct (md_roots _ _ Hm') as (l' & Hlr' & ->).
    destruct (pr_children (-1) l Hlr neg_not_below) as (l3 & Hl3 & Ek). by simplify_eq.
Qed.
End Pruned.
