(* ===== verification/HdbContract.v ===== *)
(** * The database against its contract

   [Db s f]: the state [s] of a handle represents the forest [f].  Every
   operation of the handle takes a [Db] state to a [Db] state and changes the
   forest as [HdbSpec] says; operations that refuse leave the forest alone. *)

From S2P Require Import Prelude FileIO HdbCommon Index Hdb HdbHeap Dll FreeList HdbNode HdbInv HdbTree HdbAlloc HdbAdd HdbSubtree HdbRemove HdbUpdate HdbRelocate HdbSpec.

(** [m] throws [msg] from [s], in a state that satisfies [Q]. *)
Definition throws {S A} (m : Prog S A) (msg : string) (Q : S -> Prop) (s : S) : Prop :=
  match m s with
  | (Throw e, s') => e = msg /\ Q s'
  | _ => False
  end.

Lemma throws_bind {S A B} (m : Prog S A) (k : A -> Prog S B) msg Q s :
  wp m (fun a s' => throws (k a) msg Q s') s -> throws (m ≫= k) msg Q s.
Proof. unfold wp, throws, mbind, Prog_bind. destruct (m s) as [[] s']; done. Qed.

Lemma throws_bind_l {S A B} (m : Prog S A) (k : A -> Prog S B) msg Q s :
  throws m msg Q s -> throws (m ≫= k) msg Q s.
Proof. unfold throws, mbind, Prog_bind. destruct (m s) as [[] s']; done. Qed.

Lemma throws_mono {S A} (m : Prog S A) msg (Q Q' : S -> Prop) s :
  throws m msg Q s -> (forall s', Q s' -> Q' s') -> throws m msg Q' s.
Proof. unfold throws. destruct (m s) as [[] s']; intros H HQ; try done. destruct H. auto. Qed.

(** The state after a program that returns. *)
Lemma wp_after {S A} (m : Prog S A) Q s : wp m Q s -> exists a, m s = (Ok a, (m s).2) /\ Q a (m s).2.
Proof. unfold wp. destruct (m s) as [[a| | |] s']; simpl; [eauto|done..]. Qed.

Section Contract.
Context {F : Type} {fo : FileOps F} {fl : FileLaws F}.
Context {I : Type} {io : IndexOps I} {il : IndexLaws I}.
Implicit Types (s : St F I) (f : Forest).

Definition Db s f : Prop := exists v A, Rep s v /\ Inv v A /\ models A f.

(** Room in the file for one more node with key [k] and data [d]. *)
Definition room s (k d : bytes) : Prop := zlen (content s) + 44 + (zlen k + 1 + zlen d) < 2147483648.

Lemma models_fresh v A f k : Inv v A -> models A f -> f_nodes f !! k = None ->
  (forall x a, nodes A !! x = Some a -> a_key a <> k) /\ v_idx v !! k = None.
Proof.
  intros HI Hm Hk. assert (forall x a, nodes A !! x = Some a -> a_key a <> k) as Hf.
  { intros x a Ha E. destruct (inv_node _ _ HI x a Ha) as (l & _ & Hl & _).
    pose proof (models_lookup A f x a l Hm Ha Hl). congruence. }
  split; [done|]. destruct (v_idx v !! k) as [o|] eqn:E; [|done].
  apply (inv_idx _ _ HI) in E as (a & Ha & Hak). by destruct (Hf o a Ha).
Qed.

Lemma models_find A f k n : models A f -> f_nodes f !! k = Some n ->
  exists o a l, nodes A !! o = Some a /\ a_key a = k /\ lists A !! o = Some l /\
    n = mkFNode (a_data a) (a_flags a) (key_of A (a_parent a)) (key_of A <$> l).
Proof. intros Hm Hk. by apply (md_nodes _ _ Hm). Qed.

Lemma room_eof s v k d : Rep s v -> room s k d -> v_eof v + 44 + (zlen k + 1 + zlen d) < 2147483648.
Proof. intros H Hr. unfold room in Hr. by rewrite (rep_eof _ _ H) in Hr. Qed.

Lemma new_node k d : key_ok k -> zlen k + 1 + zlen d < 4294967296 ->
  exists n, newNode k (zlen d) (Some d) = Some n /\ newborn k d n /\ flags (m_blk n) = 0.
Proof. intros. by apply newNode_newborn. Qed.

Lemma room_new s k d f : Db s f -> room s k d -> zlen k + 1 + zlen d < 4294967296.
Proof. intros (v & A & H & _) Hr. pose proof (room_eof _ _ _ _ H Hr). pose proof (Rep_eof _ _ H). lia. Qed.

(** ** Adding *)

Lemma db_addRoot_node s f k d n :
  Db s f -> newborn k d n -> f_nodes f !! k = None -> room s k d ->
  wp (handle_addRootNode (Some n))
    (fun r s' => r.1 = true /\ Db s' (f_attach [] k d (flags (m_blk n)) f)) s.
Proof.
  intros Hdb Hn Hf Hr. pose proof (nb_key _ _ _ Hn) as Hk. destruct Hdb as (v & A & H & HI & Hm). destruct (models_fresh _ _ _ _ HI Hm Hf) as [Hfr Hi].
  destruct (inv_roots _ _ HI) as (l & Hl & _).
  eapply wp_mono; [by apply (wp_handle_addRootNode s v A k d n l H HI Hn Hi Hl), (room_eof s)|].
  intros r s' (v' & A' & o & n' & c & -> & H' & HI' & Hg & Hc & _). split; [done|]. exists v', A'. split_and!; auto.
  pose proof (Rep_neg _ _ H) as HM. rewrite <- (key_of_neg v A HI HM).
  apply (models_grown v A A' f o (-1) k d _ l); auto; [apply Hk|]. destruct (Rep_off _ _ _ _ H' Hc). lia.
Qed.

Lemma db_addRoot s f k d :
  Db s f -> key_ok k -> f_nodes f !! k = None -> room s k d ->
  wp (handle_addRootNode (newNode k (zlen d) (Some d)))
    (fun r s' => r.1 = true /\ Db s' (f_attach [] k d 0 f)) s.
Proof.
  intros Hdb Hk Hf Hr. destruct (new_node k d Hk (room_new _ _ _ _ Hdb Hr)) as (n & -> & Hn & <-).
  by apply db_addRoot_node.
Qed.

Lemma db_addChild s f pk pn k d :
  Db s f -> key_ok k -> f_nodes f !! k = None -> f_nodes f !! pk = Some pn -> room s k d ->
  wp (handle_addChildKey pk (newNode k (zlen d) (Some d))) (fun r s' => r.1 = true /\ Db s' (f_attach pk k d 0 f)) s.
Proof.
  intros Hdb Hk Hf Hp Hr. destruct (new_node k d Hk (room_new _ _ _ _ Hdb Hr)) as (n & -> & Hn & <-).
  destruct Hdb as (v & A & H & HI & Hm). destruct (models_fresh _ _ _ _ HI Hm Hf) as [Hfr Hi].
  destruct (models_find _ _ _ _ Hm Hp) as (po & pa & l & Hpa & <- & Hl & _).
  destruct (Inv_node _ _ _ _ _ H HI Hpa) as (l' & pc & Hl' & Hpc & Hck & _). simplify_eq.
  pose proof (ck_key _ _ _ Hck) as Hkp. destruct Hkp as [Hk0 Hkz].
  unfold handle_addChildKey. rewrite bool_decide_false, cstr_id by done. wstep.
  eapply wp_nodeByKey; [done..|]. intros s1 [p|] Hs1 Hp1.
  2:{ by destruct (Hp1 po pa Hpa). }
  destruct Hp1 as (po' & pa' & pc' & Hpa' & Ek & Hpc' & Hpn).
  assert (po' = po) as -> by (by eapply (key_inj v A HI)). simplify_eq. wstep.
  eapply wp_mono; [apply (wp_handle_addChild s1 v A k d n po pa pc p l); auto|].
  { split; [by eapply Node_read_old|done]. } { by eapply (room_eof s). }
  intros r s' (v' & A' & o & p' & n' & c & pc' & -> & H' & HI' & Hg & Hc & _). wstep. split; [done|].
  exists v', A'. split_and!; auto. rewrite <- (key_of_node A po pa Hpa).
  apply (models_grown v A A' f o po k d _ l); auto; [by eapply Rep_neg|apply Hk|]. destruct (Rep_off _ _ _ _ H' Hc). lia.
Qed.

(** ** Refusals *)

Lemma db_duplicate s f k d n :
  Db s f -> key_ok k -> f_nodes f !! k = Some n -> zlen k + 1 + zlen d < 4294967296 ->
  throws (handle_addRootNode (newNode k (zlen d) (Some d))) "key for node is already in index" (fun s' => Db s' f) s.
Proof.
  intros (v & A & H & HI & Hm) Hk Hf Hs. destruct (new_node k d Hk Hs) as (nd & -> & Hn & _).
  destruct (models_find _ _ _ _ Hm Hf) as (o & a & l & Ha & Hak & Hl & _).
  assert (v_idx v !! k = Some o) as Hi by (apply (inv_idx _ _ HI); eauto).
  destruct (Inv_node _ _ _ _ _ H HI Ha) as (_ & _ & _ & _ & _ & Ho & _). destruct Hk as [Hk0 Hkz].
  unfold handle_addRootNode. pose proof (nb_offset _ _ _ Hn). ztest. rewrite (nb_keyeq _ _ _ Hn), cstr_id by done.
  apply throws_bind. eapply wp_findIndexEntry; [done|]. intros s1 Hs1 _. rewrite Hi.
  unfold entry_valid. simpl. rewrite bool_decide_false by done. ztest. simpl. split; [done|]. by exists v, A.
Qed.

(** ** Looking up *)

(** The node object [nd] shows the node [k] of [f]. *)
Definition shows f (k : bytes) (nd : HDBNodeData) : Prop :=
  exists n, f_nodes f !! k = Some n /\ m_key nd = k /\ m_bfrLen nd = zlen (fn_data n) /\
    default [] (m_bfr nd) = fn_data n /\ flags (m_blk nd) = fn_flags n.

Lemma read_shows v A f o a c nd : models A f -> Inv v A -> nodes A !! o = Some a ->
  v_heap v !! o = Some c -> Node_read v o a c nd -> shows f (a_key a) nd.
Proof.
  intros Hm HI Ha Hco [Hb Hk Hl Hbf _ _]. destruct (inv_node _ _ HI o a Ha) as (l & c' & Hlo & Hc & Hck).
  simplify_eq. eexists. split; [by eapply models_lookup|]. simpl.
  split_and!; auto; [by rewrite Hbf, bfr_of_default|]. rewrite Hb. apply Hck.
Qed.

Lemma db_getNode s f k :
  Db s f -> key_ok k ->
  wp (getNode k) (fun r s' => Db s' f /\
    match r with Some nd => shows f k nd | None => f_nodes f !! k = None end) s.
Proof.
  intros (v & A & H & HI & Hm) Hk. eapply wp_getNode; [done..|]. intros s' r Hs' Hr. split; [by exists v, A|].
  destruct r as [nd|].
  - destruct Hr as (o & a & c & Ha & <- & Hc & Hn). by eapply read_shows.
  - destruct (f_nodes f !! k) as [n|] eqn:E; [|done].
    destruct (models_find _ _ _ _ Hm E) as (o & a & l & Ha & Hak & _). by destruct (Hr o a Ha).
Qed.

(** ** Walking *)

(** The key behind and before [k] in a list of keys. *)
Fixpoint key_after (k : bytes) (l : list bytes) : bytes :=
  match l with
  | [] => []
  | x :: l => if bool_decide (x = k) then hd [] l else key_after k l
  end.
Definition key_before (k : bytes) (l : list bytes) : bytes := key_after k (reverse l).

(** The list of keys that contains [k]: its parent's children, or the roots. *)
Definition siblings f (n : FNode) : list bytes :=
  match f_nodes f !! fn_parent n with Some p => fn_children p | None => f_roots f end.

(** What a walk gives: [k] empty means that there is no such node. *)
Definition walked f (k : bytes) (r : HDBNode) : Prop :=
  match r with Some nd => shows f k nd | None => k = [] end.

Lemma fetched_walked v A f x r : models A f -> Inv v A -> v_heap v !! (-1) = None ->
  fetched v A x r -> walked f (key_of A x) r.
Proof.
  intros Hm HI HM. destruct r as [nd|]; simpl.
  - intros (a & c & Ha & Hc & Hn). rewrite (key_of_node A x a Ha). by eapply read_shows.
  - intros ->. by eapply key_of_neg.
Qed.

Lemma key_after_at A k l1 o l2 : key_of A o = k -> k ∉ key_of A <$> l1 ->
  key_after k (key_of A <$> l1 ++ o :: l2) = hd [] (key_of A <$> l2).
Proof.
  intros Hk Hn. induction l1 as [|x l1 IH]; simpl.
  - by rewrite bool_decide_true.
  - rewrite bool_decide_false by set_solver. apply IH. set_solver.
Qed.

Lemma key_hd v A l : Inv v A -> v_heap v !! (-1) = None -> key_of A (hd_off l (-1)) = hd [] (key_of A <$> l).
Proof. intros HI HM. destruct l; simpl; [by eapply key_of_neg|done]. Qed.

Lemma key_last v A l : Inv v A -> v_heap v !! (-1) = None ->
  key_of A (last_off (-1) l) = List.last (key_of A <$> l) [].
Proof.
  intros HI HM. induction l as [|x l _] using rev_ind; simpl; [by eapply key_of_neg|].
  rewrite last_off_app, fmap_app. simpl. by rewrite List.last_last.
Qed.

Lemma hd_rev (l : list bytes) : hd [] (reverse l) = List.last l [].
Proof. induction l as [|x l _] using rev_ind; [done|]. rewrite reverse_snoc, List.last_last. done. Qed.

(** The five ways to walk from a node. *)
Inductive Walk := ToParent | ToFirstChild | ToLastChild | ToNextSibling | ToPrevSibling.

Definition walk_op (w : Walk) : HDBNode -> Prog (St F I) (HDBNode * HDBNode) :=
  match w with
  | ToParent => getParent
  | ToFirstChild => getFirstChild
  | ToLastChild => getLastChild
  | ToNextSibling => getNextSibling
  | ToPrevSibling => getPrevSibling
  end.

Definition walk_field (w : Walk) : HDBBlock -> Z :=
  match w with
  | ToParent => parent
  | ToFirstChild => firstChild
  | ToLastChild => lastChild
  | ToNextSibling => nextSib
  | ToPrevSibling => prevSib
  end.

Definition walk_spec f (k : bytes) (n : FNode) (w : Walk) : bytes :=
  match w with
  | ToParent => fn_parent n
  | ToFirstChild => hd [] (fn_children n)
  | ToLastChild => List.last (fn_children n) []
  | ToNextSibling => key_after k (siblings f n)
  | ToPrevSibling => key_before k (siblings f n)
  end.

Lemma models_siblings v A f a l lp : models A f -> Inv v A -> v_heap v !! (-1) = None ->
  lists A !! a_parent a = Some lp ->
  siblings f (mkFNode (a_data a) (a_flags a) (key_of A (a_parent a)) l) = key_of A <$> lp.
Proof.
  intros Hm HI HM Hlp. unfold siblings. simpl. destruct (inv_list _ _ HI _ _ Hlp) as ([Ep|[ap Hap]] & _).
  - rewrite Ep, (key_of_neg v A HI HM), (f_nodes_nil v A f HI Hm) in *.
    destruct (md_roots _ _ Hm) as (lr & Hlr & ->). congruence.
  - by rewrite (key_of_node A _ ap Hap), (models_lookup A f _ ap lp Hm Hap Hlp).
Qed.

Lemma walk_keys s v A f o a c l l1 l2 w :
  Rep s v -> models A f -> Inv v A -> nodes A !! o = Some a -> v_heap v !! o = Some c -> lists A !! o = Some l ->
  lists A !! a_parent a = Some (l1 ++ o :: l2) ->
  key_of A (walk_field w (c_blk c)) =
  walk_spec f (a_key a) (mkFNode (a_data a) (a_flags a) (key_of A (a_parent a)) (key_of A <$> l)) w.
Proof.
  intros H Hm HI Ha Hc Hl Hlp. pose proof (Rep_neg _ _ H) as HM.
  destruct (links_ok _ _ _ _ _ _ _ H HI Ha Hc Hl _ _ Hlp) as (E1 & E2 & E3 & E4 & E5 & _).
  destruct (inv_list _ _ HI _ _ Hlp) as (_ & Hnd & _ & Hmem).
  assert (forall x, x ∈ l1 ++ l2 -> key_of A x <> a_key a) as Hne.
  { intros x Hx E. apply (key_of_inj v A HI o a x Ha) in E as ->.
    rewrite <- Permutation_middle in Hnd. by apply NoDup_cons in Hnd as [? _]. }
  assert (forall l' : list Z, (forall x, x ∈ l' -> x ∈ l1 ++ l2) -> a_key a ∉ key_of A <$> l') as Hout.
  { intros l' Hsub (x & Hx & Hin)%list_elem_of_fmap. by apply (Hne x (Hsub x Hin)). }
  pose proof (key_of_node A o a Ha) as Ek.
  destruct w; simpl; rewrite ?(models_siblings v A f a _ _ Hm HI HM Hlp), ?E1, ?E2, ?E3, ?E4, ?E5; auto.
  - by eapply key_hd.
  - by eapply key_last.
  - rewrite (key_after_at A) by (auto; apply Hout; set_solver). by eapply key_hd.
  - unfold key_before. rewrite <- fmap_reverse, reverse_app, reverse_cons, <- app_assoc. simpl.
    rewrite (key_after_at A), fmap_reverse, hd_rev; [by eapply key_last|done|]. apply Hout.
    intros x Hx%elem_of_reverse. set_solver.
Qed.

Lemma db_walk s f k n w :
  Db s f -> key_ok k -> f_nodes f !! k = Some n ->
  wp (nd ← getNode k; walk_op w nd) (fun r s' => Db s' f /\ walked f (walk_spec f k n w) r.1) s.
Proof.
  intros (v & A & H & HI & Hm) Hk Hn. destruct (models_find _ _ _ _ Hm Hn) as (o & a & l & Ha & <- & Hl & ->).
  wstep. eapply wp_getNode; [done..|]. intros s1 [nd|] Hs1 Hr; [|by destruct (Hr o a Ha)].
  destruct Hr as (o' & a' & c & Ha' & Ek & Hc & Hnd).
  assert (o' = o) as -> by (by eapply (key_inj v A HI)). simplify_eq.
  destruct (inv_up _ _ HI o a Ha) as (lp & Hlp & Hin). apply list_elem_of_split in Hin as (l1 & l2 & ->).
  destruct (links_ok _ _ _ _ _ _ _ H HI Ha Hc Hl _ _ Hlp) as (E1 & E2 & E3 & E4 & E5 & Hx).
  destruct (inv_node _ _ HI o a Ha) as (? & ? & _ & Hc' & Hck). simplify_eq.
  assert (walk_field w (c_blk c) = -1 \/ is_Some (nodes A !! walk_field w (c_blk c))) as Hf.
  { apply Hx. destruct w; simpl; rewrite ?E1, ?E2, ?E3, ?E4, ?E5; set_solver. }
  assert (walk_op w = follow (walk_field w)) as -> by (by destruct w).
  eapply (wp_follow _ s1 v A o a c nd); [done|done|done|done|split; [by eapply Node_read_old|done]|done|].
  intros s2 r n' Hs2 Hr _. split; [by exists v, A|]. simpl.
  rewrite <- (walk_keys s v A f o a c l l1 l2 w) by done. apply (fetched_walked v); auto. by eapply Rep_neg.
Qed.

(** ** Removing *)

Lemma db_remove s f k n :
  Db s f -> key_ok k -> f_nodes f !! k = Some n ->
  wp (removeNodeKey k) (fun r s' => r = true /\ exists f', f_prune f f' k /\ Db s' f') s.
Proof.
  intros (v & A & H & HI & Hm) Hk Hn. destruct (models_find _ _ _ _ Hm Hn) as (o & a & l & Ha & <- & Hl & ->).
  pose proof Hk as [Hk0 Hkz]. unfold removeNodeKey. rewrite bool_decide_false, cstr_id by done. wstep.
  eapply wp_nodeByKey; [done..|]. intros s1 [nd|] Hs1 Hr; [|by destruct (Hr o a Ha)].
  destruct Hr as (o' & a' & c & Ha' & Ek & Hc & Hnd).
  assert (o' = o) as -> by (by eapply (key_inj v A HI)). simplify_eq.
  destruct (inv_up _ _ HI o a Ha) as (lp & Hlp & Hin). apply list_elem_of_split in Hin as (l1 & l2 & ->).
  wstep. eapply wp_mono; [by apply (wp_remove s1 v A o a c nd l1 l2)|].
  intros r s2 (v' & A' & n' & -> & _ & Hs2 & HI' & Hrd). wstep. split; [done|]. exists (forest_of A').
  pose proof (forest_of_models v' A' HI') as Hm'. split; [|by exists v', A'].
  apply (models_removed v v' A A' f _ o a l1 l2); auto; by eapply Rep_neg.
Qed.

Lemma db_remove_absent s f k :
  Db s f -> key_ok k -> f_nodes f !! k = None -> wp (removeNodeKey k) (fun r s' => r = true /\ Db s' f) s.
Proof.
  intros (v & A & H & HI & Hm) Hk Hn. destruct (models_fresh _ _ _ _ HI Hm Hn) as [Hf _].
  pose proof Hk as [Hk0 Hkz]. unfold removeNodeKey. rewrite bool_decide_false, cstr_id by done. wstep.
  eapply wp_nodeByKey; [done..|]. intros s1 [nd|] Hs1 Hr.
  - destruct Hr as (o & a & c & Ha & Ek & _). by destruct (Hf o a Ha).
  - wstep. split; [done|]. by exists v, A.
Qed.

(** ** Updating *)

(** The node object as [updateData] changes it. *)
Lemma update_bfr v o a c n d : Node_read v o a c n -> exists n', 
  (let n1 := if zlen d =? m_bfrLen n then n else set_bfr 0 None n in
   if 0 <? zlen d then set_bfr (zlen d) (Some (take (Z.to_nat (zlen d)) d)) n1 else n1) = n' /\
  m_offset n' = o /\ m_key n' = a_key a /\ m_bfrLen n' = zlen d /\ m_bfr n' = bfr_of d /\ m_blk n' = c_blk c.
Proof.
  intros [Hb Hk Hl Hbf Ho _]. eexists. split; [reflexivity|]. rewrite take_all_zlen.
  destruct (decide (d = [])) as [->|Hd].
  - rewrite zlen_nil. change (0 <? 0) with false. cbv iota. destruct (0 =? m_bfrLen n) eqn:E; zbool; [|done].
    split_and!; auto. etrans; [exact Hbf|]. rewrite bfr_of_nil by lia. done.
  - assert (0 < zlen d) by (destruct d; [done|]; rewrite zlen_cons; pose proof (zlen_nonneg d); lia). ztest.
    assert (bfr_of d = Some d) as -> by (unfold bfr_of; by rewrite bool_decide_false).
    by destruct (zlen d =? m_bfrLen n).
Qed.

(** Writing an up-to-date node whose data and flags changed. *)
Lemma db_rewrite s v A f o a c n d :
  Rep s v -> Inv v A -> models A f -> nodes A !! o = Some a -> v_heap v !! o = Some c ->
  m_offset n = o -> m_key n = a_key a -> m_bfrLen n = zlen d -> m_bfr n = bfr_of d ->
  block_ok (m_blk n) -> (exists fl, m_blk n = set_flags fl (c_blk c)) -> room s (a_key a) d ->
  wp (write (Some n) E_WRITE_ALL) (fun _ s' => Db s' (f_set (a_key a) d (flags (m_blk n)) f)) s.
Proof.
  intros H HI Hm Ha Hc Ho Hk Hl Hb Hok Hfl Hr%(room_eof _ _ _ _ H). pose proof (Rep_neg _ _ H) as HM.
  destruct (inv_node _ _ HI o a Ha) as (lo & c' & Hlo & _).
  destruct (inv_up _ _ HI o a Ha) as (lp & Hlp & Hin). apply list_elem_of_split in Hin as (l1 & l2 & ->).
  destruct (decide (44 + (zlen (a_key a) + 1 + zlen d) <= bsize (c_blk c))) as [Hfit|Hfit].
  - eapply wp_mono; [by apply (wp_rewrite s v A o a c n d)|].
    intros n5 s4 (v' & c5 & Hs4 & HI' & _). eexists v', _. split_and!; [done..|].
    eapply (models_with_node v v'); eauto. by eapply Rep_neg.
  - eapply wp_mono; [apply (wp_write_move s v A o a c n d l1 l2 lo); auto; lia|].
    intros n5 s4 (v' & o' & c5 & fr' & Hs4 & HI' & Hno' & Hc5 & _).
    eexists v', _. split_and!; [done..|]. eapply (models_relocated v v'); eauto; [by eapply Rep_neg|].
    destruct (Rep_off _ _ _ _ Hs4 Hc5). lia.
Qed.

Lemma db_updateNode s v A f o a c nd d :
  Rep s v -> Inv v A -> models A f -> nodes A !! o = Some a -> v_heap v !! o = Some c -> Node_read v o a c nd ->
  room s (a_key a) d ->
  wp (updateNode (Some nd) None (zlen d) (Some d))
    (fun r s' => r.1.1 = true /\ Db s' (f_set (a_key a) d (a_flags a) f)) s.
Proof.
  intros H HI Hm Ha Hc Hnd Hr0.
  destruct (Inv_node _ _ _ _ _ H HI Ha) as (? & ? & _ & Hc' & Hck & Ho & Hok). simplify_eq.
  pose proof (Node_read_old _ _ _ _ _ _ _ HI Hck Hnd) as Hold.
  unfold updateNode. rewrite (nr_offset _ _ _ _ _ Hnd). ztest. wstep. eapply wp_reload; [done..|].
  intros s2 n2 Hs2 Hn2. cbv iota beta. unfold updateData. rewrite (nr_offset _ _ _ _ _ Hn2). ztest. wstep.
  eapply wp_reload; [done|done|done|done|by eapply Node_read_old|done|]. intros s3 n3 Hs3 Hn3. cbv iota beta. cbn [negb].
  destruct (update_bfr _ _ _ _ _ d Hn3) as (n4 & E4 & Ho4 & Hk4 & Hl4 & Hb4 & Hblk4). cbv zeta in E4.
  rewrite E4. rewrite Ho4. ztest. wstep.
  assert (exists fl, m_blk n4 = set_flags fl (c_blk c)) as Hfl.
  { exists (flags (c_blk c)). rewrite Hblk4. by destruct (c_blk c). }
  eapply wp_mono; [apply (db_rewrite s3 v A f o a c n4 d); auto; [by rewrite Hblk4|]|].
  { unfold room in *. rewrite (rep_eof _ _ Hs3). by rewrite (rep_eof _ _ H) in Hr0. }
  intros n5 s4 Hs4. wstep. split; [done|]. simpl.
  replace (a_flags a) with (flags (m_blk n4)) by (rewrite Hblk4; apply Hck). done.
Qed.

Lemma db_update s f k n d :
  Db s f -> key_ok k -> f_nodes f !! k = Some n -> room s k d ->
  wp (nd ← getNode k; updateNode nd None (zlen d) (Some d))
    (fun r s' => r.1.1 = true /\ Db s' (f_set k d (fn_flags n) f)) s.
Proof.
  intros (v & A & H & HI & Hm) Hk Hn Hr0. destruct (models_find _ _ _ _ Hm Hn) as (o & a & l & Ha & <- & Hl & ->).
  wstep. eapply wp_getNode; [done..|].
  intros s1 [nd|] Hs1 Hr; [|by destruct (Hr o a Ha)]. destruct Hr as (o' & a' & c & Ha' & Ek & Hc & Hnd).
  assert (o' = o) as -> by (by eapply (key_inj v A HI)). simplify_eq.
  apply (db_updateNode s1 v A f o a c nd); auto.
  unfold room in *. rewrite (rep_eof _ _ Hs1). by rewrite (rep_eof _ _ H) in Hr0.
Qed.
End Contract.

(** ** Opening *)

Section Open.
Context {F : Type} {fo : FileOps F} {fl : FileLaws F}.
Context {I : Type} {io : IndexOps I} {il : IndexLaws I}.

Lemma header_ok_initial : header_ok initialHeader.
Proof. constructor; unfold is_u32, is_s32; simpl; [done|split; [by vm_compute|by vm_compute]|lia..]. Qed.

(** [checkFile] on a file that starts with a header. *)
Lemma checkFile_header h0 (f : F) h : header_ok h -> sub (f_content f) 0 32 = enc_header h ->
  exists f', f_content f' = f_content f /\
    checkFile (mkOpen h0 (Some f)) =
      (if negb (strncmp_eq (Z.to_nat HDBSIGLEN) (signature h) OW_HDBSIGNATURE) then
         (Throw "Invalid Format for HDB file: ", mkOpen h (Some f'))
       else if (hversion h <? MinHDBVERSION) || (HDBVERSION <? hversion h) then
         (Throw "Invalid version", mkOpen h (Some f'))
       else (Ok (), mkOpen h (Some f'))).
Proof.
  intros Hok Hs. unfold checkFile. simpl os_dat. cbv iota.
  destruct (f_read sizeof_HDBHeaderBlock 0 f) as [bs f'] eqn:E.
  apply f_read_law in E as (-> & Ec & _); [|done|rewrite f_at_ge0; lia].
  rewrite f_at_ge0 by lia. unfold sizeof_HDBHeaderBlock. rewrite Hs, zlen_enc_header by apply Hok.
  rewrite dec_enc_header by done. change (negb (32 =? 32)) with false. cbv iota.
  exists f'. done.
Qed.

Lemma open_new (f0 : F) h0 : f_content f0 = [] ->
  exists f', open false true true (Some f0) (mkOpen h0 None) = (Ok (), mkOpen initialHeader (Some f')) /\
    f_content f' = enc_header initialHeader.
Proof.
  intros Hc. unfold open, mbind, Prog_bind, createFile. simpl negb. cbv iota. simpl os_dat. cbv iota.
  destruct (f_write (enc_header initialHeader) 0 f0) as [n f1] eqn:E.
  pose proof header_ok_initial as Hok.
  apply f_write_law in E as (-> & Ec & _); [|rewrite f_at_ge0, Hc; [rewrite zlen_nil; lia|lia]].
  rewrite f_at_ge0, Hc in Ec by lia. assert (f_content f1 = enc_header initialHeader) as Ec1.
  { rewrite Ec. unfold splice. rewrite take_nil, drop_nil, app_nil_r. done. }
  rewrite (zlen_enc_header _ (ok_signature _ Hok)). change (32 =? sizeof_HDBHeaderBlock) with true. cbv beta iota zeta delta [negb os_dat os_hdr].
  destruct (checkFile_header initialHeader f1 initialHeader Hok) as (f2 & Ef2 & ->).
  { rewrite Ec1, <- (zlen_enc_header _ (ok_signature _ Hok)). apply sub_all. }
  exists f2. split; [by vm_compute|congruence].
Qed.

Lemma db_empty (f : F) (ix : I) :
  f_content f = enc_header initialHeader -> idx_map ix = ∅ ->
  Db (opened (mkOpen initialHeader (Some f)) f ix) f_empty.
Proof.
  intros Hf Hix. pose proof header_ok_initial as Hok. pose proof (zlen_enc_header _ (ok_signature _ Hok)) as Hn.
  exists (mkView initialHeader ∅ ∅ 32 0), (mkAbs ∅ {[-1 := []]} []). split_and!.
  - constructor; try done; unfold content; simpl; rewrite Hf; [|done].
    constructor; try done; try (intros *; by rewrite lookup_empty).
  - constructor; simpl; try (intros *; by rewrite lookup_empty).
    + constructor; simpl; try done; [by apply NoDup_nil|constructor].
    + intros p l [<- <-]%lookup_singleton_Some. split_and!; [by left|by apply NoDup_nil|done|by intros k ?%elem_of_nil].
    + exists []. by rewrite lookup_singleton_eq.
    + intros k o. rewrite lookup_empty. split; [done|]. intros (a & Ha & _). by rewrite lookup_empty in Ha.
    + exists (fun _ => O). intros o a. by rewrite lookup_empty.
  - constructor; simpl.
    + intros k n. rewrite lookup_empty. split; [done|]. intros (o & a & l & Ha & _). by rewrite lookup_empty in Ha.
    + exists []. by rewrite lookup_singleton_eq.
Qed.

Lemma Inv_version n v A : Inv v A -> Inv (vversion n v) A.
Proof. intros [[]]. constructor; auto. by constructor. Qed.

(** A database file opened again is the same database. *)
Lemma db_reopen (s : St F I) f h0 :
  Db s f -> signature (hdr s) = OW_HDBSIGNATURE -> hversion (hdr s) = HDBVERSION ->
  exists f', open false true true None (mkOpen h0 (Some (m_file s))) = (Ok (), mkOpen (hdr s) (Some f')) /\
    Db (opened (mkOpen (hdr s) (Some f')) f' (m_pindex (m_pdb s))) f.
Proof.
  intros (v & A & H & HI & Hm) Hsig Hver. pose proof (rep_hdr _ _ H) as Eh.
  destruct (checkFile_header initialHeader (m_file s) (hdr s)) as (f' & Ef & Echk).
  { rewrite Eh. by eapply Rep_hdr_ok. } { rewrite Eh. apply (heap_hdr _ _ _ (rep_heap _ _ H)). }
  exists f'. split.
  - unfold open, mbind, Prog_bind, createFile. cbv beta iota zeta delta [negb os_dat os_hdr].
    rewrite Echk, Hsig, Hver. done.
  - exists (vversion 0 v), A. split_and!; [|by apply Inv_version|done].
    destruct H. constructor; unfold content, hdr in *; simpl; rewrite ?Ef; auto.
Qed.
End Open.
