(* ===== verification/HdbHold.v ===== *)
(** * Checks: block checksums and the free list *)

From S2P Require Import Prelude FileIO HdbCommon Index Hdb HdbHeap Dll FreeList HdbNode HdbInv HdbTree HdbAlloc HdbAdd HdbSubtree HdbRemove.
From S2P Require Import HdbUpdate HdbRelocate HdbSpec HdbContract.

(** ** What the checksum detects *)

#[local] Transparent enc_block.

Lemma enc_block_tail b : drop 4 (enc_block (set_chkSum 0 b)) = drop 4 (enc_block b).
Proof. unfold enc_block. blk_cbn. by rewrite !drop_app_length' by (by rewrite length_le_enc). Qed.

Lemma calcCheckSum_tail b : calcCheckSum (enc_block (set_chkSum 0 b)) = u32 (zsum (drop 4 (enc_block b))).
Proof. by rewrite calcCheckSum_zsum, <- enc_block_tail. Qed.

Lemma le_dec_inj l1 l2 : Forall is_byte l1 -> Forall is_byte l2 -> length l1 = length l2 ->
  le_dec l1 = le_dec l2 -> l1 = l2.
Proof. intros H1 H2 Hl E. rewrite <- (le_enc_dec l1), <- (le_enc_dec l2) by done. by rewrite E, Hl. Qed.

Lemma zsum_insert l i x y : l !! i = Some y -> zsum (<[i := x]> l) = zsum l + (x - y).
Proof.
  intros Hi. rewrite (insert_take_drop l i x) by (by eapply lookup_lt_Some).
  rewrite <- (take_drop_middle l i y Hi) at 3. rewrite !zsum_app. unfold zsum; simpl. lia.
Qed.

#[local] Opaque enc_block.

(** The two checksums of [readBlock] on a block of 44 bytes. *)
Lemma dec_block_chkSum l : zlen l = 44 -> chkSum (dec_block l) = le_dec (take 4 l).
Proof. done. Qed.

Lemma seal_chkSum l : Forall is_byte l -> zlen l = 44 -> chkSum (seal (dec_block l)) = u32 (zsum (drop 4 l)).
Proof.
  intros Hb Hl. unfold seal. change (chkSum (set_chkSum ?x _)) with x. rewrite calcCheckSum_tail. by rewrite enc_dec_block.
Qed.

(** One byte of a stored block changed: the checksums no longer agree. *)
Lemma checksum_flip b i x y : block_ok b -> enc_block (seal b) !! i = Some y -> is_byte x -> x <> y ->
  let l := <[i := x]> (enc_block (seal b)) in chkSum (dec_block l) <> chkSum (seal (dec_block l)).
Proof.
  intros Hb Hi Hx Hxy l. set (l0 := enc_block (seal b)) in *.
  assert (zlen l0 = 44) as Hl0 by apply zlen_enc_block.
  assert (Forall is_byte l0) as Hb0 by apply enc_block_bytes.
  assert (zlen l = 44) as Hl by (unfold l, zlen in *; by rewrite length_insert).
  assert (Forall is_byte l) as Hbl by (by apply Forall_insert).
  assert (chkSum (dec_block l0) = chkSum (seal (dec_block l0))) as E0.
  { unfold l0. rewrite dec_enc_block by (by apply seal_ok). done. }
  rewrite dec_block_chkSum, seal_chkSum in * by done. unfold l.
  assert (i < 44)%nat as Hi44 by (apply lookup_lt_Some in Hi; unfold zlen in Hl0; lia).
  destruct (decide (i < 4)%nat) as [Hi4|Hi4].
  - rewrite drop_insert_lt by lia. rewrite <- E0. intros E. apply le_dec_inj in E.
    + apply (f_equal (fun z => z !! i)) in E. rewrite !lookup_take_lt, list_lookup_insert_eq in E by (unfold zlen in *; lia).
      congruence.
    + by apply Forall_take.
    + by apply Forall_take.
    + by rewrite !length_take, length_insert.
  - rewrite take_insert_ge by lia. rewrite E0. rewrite drop_insert_ge by lia.
    rewrite (zsum_insert _ _ x y) by (rewrite lookup_drop; by replace (4 + (i - 4))%nat with i by lia).
    pose proof (zsum_bound _ (Forall_drop _ 4 _ Hb0)) as B0.
    pose proof (zsum_bound _ (Forall_drop _ 4 _ Hbl)) as B1. unfold l in B1. rewrite drop_insert_ge in B1 by lia.
    rewrite (zsum_insert _ _ x y) in B1 by (rewrite lookup_drop; by replace (4 + (i - 4))%nat with i by lia).
    unfold zlen in *. rewrite ?length_insert, length_drop in *. rewrite !u32_id by lia. lia.
Qed.

Section Check.
Context {F : Type} {fo : FileOps F} {fl : FileLaws F}.
Context {I : Type} {io : IndexOps I} {il : IndexLaws I}.
Implicit Types (s : St F I) (v : View).

(** [readBlock] refuses a block with one changed byte. *)
Lemma readBlock_corrupt s o b i x y :
  0 <= o -> block_ok b -> enc_block (seal b) !! i = Some y -> is_byte x -> x <> y ->
  sub (content s) o 44 = <[i := x]> (enc_block (seal b)) ->
  throws (readBlock o) "CORRUPT DATA? Invalid check sum in node" (fun s' => content s' = content s) s.
Proof.
  intros Ho Hb Hi Hx Hxy Hs. unfold readBlock. apply throws_bind. unfold wp, file_read.
  destruct (f_read sizeof_HDBBlock o (m_file s)) as [bs f'] eqn:E.
  apply f_read_law in E as (-> & Ec & Ep); [|done|rewrite f_at_ge0; lia].
  rewrite f_at_ge0 by lia. unfold sizeof_HDBBlock. unfold content in *. rewrite Hs.
  assert (zlen (<[i := x]> (enc_block (seal b))) = 44) as Hl.
  { pose proof (zlen_enc_block (seal b)) as Hn. unfold zlen in *. by rewrite length_insert. }
  rewrite Hl. change (negb (44 =? 44)) with false. cbv iota zeta.
  pose proof (checksum_flip b i x y Hb Hi Hx Hxy) as Hf. cbv zeta in Hf.
  destruct (chkSum _ =? chkSum _) eqn:E; zbool; [done|]. unfold throws, throw. simpl. auto.
Qed.

(** A block beyond the end of the file. *)
Lemma readBlock_short s o :
  0 <= o -> zlen (content s) < o + 44 ->
  throws (readBlock o) "Failed to read block" (fun s' => content s' = content s) s.
Proof.
  intros Ho Hs. unfold readBlock. apply throws_bind. unfold wp, file_read.
  destruct (f_read sizeof_HDBBlock o (m_file s)) as [bs f'] eqn:E.
  apply f_read_law in E as (-> & Ec & Ep); [|done|rewrite f_at_ge0; lia].
  rewrite f_at_ge0 by lia. unfold sizeof_HDBBlock, content in *.
  destruct (negb _) eqn:En; zbool; [by split|]. exfalso. revert En. unfold zlen, sub in *.
  rewrite length_take, length_drop. lia.
Qed.

(** The free list of a database is found intact. *)
Lemma wp_checkFreeList_loop l : forall fuel s v p,
  Rep s v -> dseg (v_heap v) p l (-1) -> NoDup l -> (length l <= fuel)%nat ->
  wp (checkFreeList_loop fuel (hd_off l (-1))) (fun r s' => r = true /\ Rep s' v) s.
Proof.
  induction l as [|o l IH]; intros fuel s v p H Hs Hnd Hf.
  { destruct fuel; simpl; by wstep. }
  simpl in Hf. destruct fuel as [|fuel]; [lia|]. destruct Hs as (c & Hc & _ & Hn & Hs).
  apply NoDup_cons in Hnd as [Ho Hnd]. destruct (Rep_off _ _ _ _ H Hc) as [Hoff _]. simpl. ztest.
  wstep. eapply wp_readBlock; [done..|]. intros s1 Hs1 _. rewrite Hn.
  assert (hd_off l (-1) <> o) as Hne.
  { destruct l as [|y l]; simpl; [lia|]. intros ->. apply Ho. left. }
  destruct (hd_off l (-1) =? o) eqn:E; zbool; [done|]. eapply IH; [done..|lia].
Qed.

Lemma wp_checkFreeList s v l :
  Rep s v -> flist v l -> wp checkFreeList (fun r s' => r = true /\ Rep s' v) s.
Proof.
  intros H [Hh Hs Hnd _ _]. unfold checkFreeList. wstep. wstep. rewrite (rep_hdr _ _ H), Hh.
  eapply wp_checkFreeList_loop; [done..|]. by eapply dseg_fuel.
Qed.
End Check.

(** * Node objects in hand

   A client of the database fetches node objects and passes them to later
   operations.  [Held v A k nd]: the object [nd] shows the node [k] of the
   database [A] as the file is now.  The lemmas restate the operations that
   take node objects in terms of it. *)

Section Hold.
Context {F : Type} {fo : FileOps F} {fl : FileLaws F}.
Context {I : Type} {io : IndexOps I} {il : IndexLaws I}.
Implicit Types (s : St F I) (f : Forest) (v : View) (A : Abs).

(** [Db] with its view and its abstract database in the open. *)
Record DbV s v A f : Prop := {
  dv_rep : Rep s v;
  dv_inv : Inv v A;
  dv_models : models A f
}.

Lemma DbV_Db s v A f : DbV s v A f -> Db s f.
Proof. intros []. by exists v, A. Qed.

Lemma Db_DbV s f : Db s f -> exists v A, DbV s v A f.
Proof. intros (v & A & ? & ? & ?). by exists v, A. Qed.

Definition Held v A (k : bytes) (nd : HDBNodeData) : Prop :=
  exists o a c, nodes A !! o = Some a /\ a_key a = k /\ v_heap v !! o = Some c /\ Node_read v o a c nd.

(** What [getNode] gives. *)
Definition got v A f (k : bytes) (r : HDBNode) : Prop :=
  match r with
  | Some nd => Held v A k nd
  | None => f_nodes f !! k = None
  end.

Lemma held_shows s v A f k nd : DbV s v A f -> Held v A k nd -> shows f k nd.
Proof. intros [H HI Hm] (o & a & c & Ha & <- & Hc & Hn). by eapply read_shows. Qed.

Lemma held_flags s v A f k nd n :
  DbV s v A f -> Held v A k nd -> f_nodes f !! k = Some n -> flags (m_blk nd) = fn_flags n.
Proof. intros Hd Hh Hn. destruct (held_shows _ _ _ _ _ _ Hd Hh) as (n' & Hn' & _ & _ & _ & ->). congruence. Qed.

Lemma held_current s v A f o a c nd :
  DbV s v A f -> nodes A !! o = Some a -> v_heap v !! o = Some c -> Node_read v o a c nd -> current v o a c nd.
Proof.
  intros [H HI _] Ha Hc Hn. destruct (inv_node _ _ HI o a Ha) as (l & c' & _ & Hc' & Hck). simplify_eq.
  split; [by eapply Node_read_old|done].
Qed.

Lemma hold_getNode s v A f k Q :
  DbV s v A f -> key_ok k ->
  (forall s' r, DbV s' v A f -> got v A f k r -> Q r s') -> wp (getNode k) Q s.
Proof.
  intros [H HI Hm] Hk HQ. eapply wp_getNode; [done..|]. intros s' r Hs' Hr. apply HQ; [done|].
  destruct r as [nd|]; [done|]. simpl. destruct (f_nodes f !! k) as [n|] eqn:E; [|done].
  destruct (models_find _ _ _ _ Hm E) as (o & a & l & Ha & Hak & _). by destruct (Hr o a Ha).
Qed.

Lemma hold_removeNode s v A f k nd :
  DbV s v A f -> Held v A k nd ->
  wp (removeNode (Some nd)) (fun r s' => r.1 = true /\ exists f', f_prune f f' k /\ Db s' f') s.
Proof.
  intros Hd (o & a & c & Ha & <- & Hc & Hn). pose proof (held_current _ _ _ _ _ _ _ _ Hd Ha Hc Hn) as Hcur.
  destruct Hd as [H HI Hm].
  destruct (inv_up _ _ HI o a Ha) as (lp & Hlp & Hin). apply list_elem_of_split in Hin as (l1 & l2 & ->).
  eapply wp_mono; [by apply (wp_removeNode s v A o a c nd l1 l2)|].
  intros r s2 (v' & A' & n' & -> & _ & Hs2 & HI' & Hrd). split; [done|]. exists (forest_of A').
  pose proof (forest_of_models v' A' HI') as Hm'. split; [|by exists v', A'].
  apply (models_removed v v' A A' f _ o a l1 l2); auto; by eapply Rep_neg.
Qed.

Lemma hold_addChild s v A f pk p k d n :
  DbV s v A f -> Held v A pk p -> newborn k d n -> f_nodes f !! k = None -> room s k d ->
  wp (handle_addChild (Some p) (Some n))
    (fun r s' => r.1.1 = true /\ Db s' (f_attach pk k d (flags (m_blk n)) f)) s.
Proof.
  intros Hd (po & pa & pc & Hpa & <- & Hpc & Hp) Hn Hf Hr.
  pose proof (held_current _ _ _ _ _ _ _ _ Hd Hpa Hpc Hp) as Hcur. destruct Hd as [H HI Hm].
  destruct (models_fresh _ _ _ _ HI Hm Hf) as [Hfr Hi].
  destruct (inv_node _ _ HI po pa Hpa) as (l & c & Hl & _).
  eapply wp_mono; [apply (wp_handle_addChild s v A k d n po pa pc p l); auto; by eapply (room_eof s)|].
  intros r s' (v' & A' & o & p' & n' & c' & pc' & -> & H' & HI' & Hg & Hc' & _). split; [done|].
  exists v', A'. split_and!; auto. rewrite <- (key_of_node A po pa Hpa).
  apply (models_grown v A A' f o po k d _ l); auto; [by eapply Rep_neg|apply Hn|].
  destruct (Rep_off _ _ _ _ H' Hc'). lia.
Qed.

Lemma hold_addRoot s v A f k d n :
  DbV s v A f -> newborn k d n -> f_nodes f !! k = None -> room s k d ->
  wp (handle_addRootNode (Some n))
    (fun r s' => r.1 = true /\ Db s' (f_attach [] k d (flags (m_blk n)) f)) s.
Proof. intros Hd. apply db_addRoot_node. by eapply DbV_Db. Qed.

Lemma hold_updateNode s v A f k nd n d :
  DbV s v A f -> Held v A k nd -> f_nodes f !! k = Some n -> room s k d ->
  wp (updateNode (Some nd) None (zlen d) (Some d))
    (fun r s' => r.1.1 = true /\ Db s' (f_set k d (fn_flags n) f)) s.
Proof.
  intros [H HI Hm] (o & a & c & Ha & <- & Hc & Hn) Hk Hr.
  destruct (inv_node _ _ HI o a Ha) as (l & _ & Hl & _).
  rewrite (models_lookup A f o a l Hm Ha Hl) in Hk. injection Hk as <-. by apply (db_updateNode s v A f o a c).
Qed.

(** Flags of a node that is not on file are only set in memory. *)
Lemma newborn_flags k d n fl' :
  newborn k d n -> is_u32 fl' -> flags (m_blk n) = 0 ->
  exists n', handle_turnFlagsOn (F := F) (I := I) (Some n) fl' = mret (Some n') /\
    newborn k d n' /\ flags (m_blk n') = fl'.
Proof.
  intros Hn Hfl H0. unfold handle_turnFlagsOn, handle_turnFlags, turnFlagsOn.
  pose proof (nb_offset _ _ _ Hn). rewrite H0, Z.lor_0_r.
  destruct (fl' =? 0) eqn:E; zbool.
  - exists n. subst fl'. split; [|done]. ztest. done.
  - exists (set_blk (set_flags fl' (m_blk n)) n). split; [|split; [|reflexivity]].
    + ztest. cbn [m_offset set_blk]. ztest. done.
    + pose proof (nb_blk _ _ _ Hn) as []. destruct Hn. constructor; auto. by constructor.
Qed.

(** ** Walking from a node in hand *)

Definition reached v A (k : bytes) (r : HDBNode) : Prop :=
  match r with
  | Some nd => Held v A k nd
  | None => k = []
  end.

Lemma fetched_reached s v A f x r : DbV s v A f -> fetched v A x r -> reached v A (key_of A x) r.
Proof.
  intros [H HI _]. destruct r as [nd|]; simpl.
  - intros (a & c & Ha & Hc & Hn). exists x, a, c. by rewrite (key_of_node A x a Ha).
  - intros ->. eapply key_of_neg; [done|]. by eapply Rep_neg.
Qed.

Lemma hold_walk s v A f k nd n w Q :
  DbV s v A f -> Held v A k nd -> f_nodes f !! k = Some n ->
  (forall s' r nd', DbV s' v A f -> reached v A (walk_spec f k n w) r -> Q (r, nd') s') ->
  wp (walk_op w (Some nd)) Q s.
Proof.
  intros Hd (o & a & c & Ha & <- & Hc & Hn) Hf HQ.
  pose proof (held_current _ _ _ _ _ _ _ _ Hd Ha Hc Hn) as Hcur. pose proof Hd as [H HI Hm].
  destruct (inv_node _ _ HI o a Ha) as (l & c' & Hl & Hc' & Hck). simplify_eq.
  rewrite (models_lookup A f o a l Hm Ha Hl) in Hf. injection Hf as <-.
  destruct (inv_up _ _ HI o a Ha) as (lp & Hlp & Hin). apply list_elem_of_split in Hin as (l1 & l2 & ->).
  destruct (links_ok _ _ _ _ _ _ _ H HI Ha Hc Hl _ _ Hlp) as (E1 & E2 & E3 & E4 & E5 & Hx).
  assert (walk_field w (c_blk c) = -1 \/ is_Some (nodes A !! walk_field w (c_blk c))) as Hfl.
  { apply Hx. destruct w; simpl; rewrite ?E1, ?E2, ?E3, ?E4, ?E5; set_solver. }
  assert (walk_op w = follow (F := F) (I := I) (walk_field w)) as -> by (by destruct w).
  eapply (wp_follow _ s v A o a c nd); [done..|]. intros s2 r n' Hs2 Hr _. apply HQ; [done|].
  rewrite <- (walk_keys s v A f o a c l l1 l2 w) by done. by eapply fetched_reached.
Qed.
End Hold.
