(* ===== verification/HdbForest.v ===== *)
(** * The represented forest is well formed

   Whatever sequence of operations produced a database, the forest that it
   represents is one: parents and lists of children agree, no node occurs
   twice, no parent chain is a cycle.  The clients that walk from node to node
   rely on it. *)

From S2P Require Import Prelude FileIO HdbCommon Index Hdb HdbHeap Dll FreeList HdbNode HdbInv HdbTree HdbAlloc HdbAdd HdbSubtree HdbUpdate.
From S2P Require Import HdbSpec HdbContract HdbHold.

(** The nodes [l] are the ones whose parent is [p], each once. *)
Definition level (f : Forest) (p : bytes) (l : list bytes) : Prop :=
  NoDup l /\ forall k, k ∈ l <-> exists n, f_nodes f !! k = Some n /\ fn_parent n = p.

Record Forest_ok (f : Forest) : Prop := {
  fo_key : forall k n, f_nodes f !! k = Some n -> key_ok k;
  fo_roots : level f [] (f_roots f);
  fo_children : forall k n, f_nodes f !! k = Some n -> level f k (fn_children n);
  fo_parent : forall k n, f_nodes f !! k = Some n -> fn_parent n = [] \/ is_Some (f_nodes f !! fn_parent n);
  fo_rooted : forall k n, f_nodes f !! k = Some n -> exists r, r ∈ f_roots f /\ f_below f r k;
}.

(** A function has a bound on a finite map. *)
Lemma map_bound {K V} `{Countable K} (m : gmap K V) (rank : K -> nat) :
  exists M, forall k x, m !! k = Some x -> (rank k <= M)%nat.
Proof.
  induction m as [|k x m Hk [M IH]] using map_ind.
  - exists 0%nat. intros k x. by rewrite lookup_empty.
  - exists (max M (rank k)). intros k' x'. destruct (decide (k' = k)) as [->|Hne]; [lia|].
    rewrite lookup_insert_ne by done. intros Hx. specialize (IH k' x' Hx). lia.
Qed.

Section Ok.
Context (v : View) (A : Abs) (f : Forest).
Context (HI : Inv v A) (HM : v_heap v !! (-1) = None) (Hm : models A f).

(** Where [key_of] gives the key of a parent, it is the parent. *)
Lemma parent_inj p q :
  p = -1 \/ is_Some (nodes A !! p) -> q = -1 \/ is_Some (nodes A !! q) -> key_of A p = key_of A q -> p = q.
Proof using HI HM.
  intros [->|[ap Hp]] [->|[aq Hq]]; [done| | |].
  - rewrite (key_of_neg v A HI HM), (key_of_node A q aq Hq). intros E. by destruct (key_ne v A HI q aq Hq).
  - rewrite (key_of_neg v A HI HM), (key_of_node A p ap Hp). intros E. by destruct (key_ne v A HI p ap Hp).
  - rewrite (key_of_node A q aq Hq). by apply (key_of_inj v A HI).
Qed.

Lemma lists_level p l : lists A !! p = Some l -> level f (key_of A p) (key_of A <$> l).
Proof using All.
  intros Hl. destruct (inv_list _ _ HI p l Hl) as (Hp & Hnd & _ & Hin). split.
  - apply NoDup_fmap_2_strong; [|done]. intros x y Hx Hy E.
    destruct (Hin x Hx) as (ax & Hax & _), (Hin y Hy) as (ay & Hay & _). apply (key_of_inj v A HI y ay); [done|].
    by rewrite E, (key_of_node A y ay Hay).
  - intros k. rewrite list_elem_of_fmap. split.
    + intros (o & -> & Ho). destruct (Hin o Ho) as (a & Ha & Hpa).
      destruct (inv_node _ _ HI o a Ha) as (lo & _ & Hlo & _).
      eexists. rewrite (key_of_node A o a Ha). split; [by apply (models_lookup A f o a lo)|]. simpl. by rewrite Hpa.
    + intros (n & Hn & Ep). destruct (models_find _ _ _ _ Hm Hn) as (o & a & lo & Ha & <- & Hlo & ->). simpl in Ep.
      exists o. rewrite (key_of_node A o a Ha). split; [done|]. destruct (inv_up _ _ HI o a Ha) as (lp & Hlp & Ho).
      assert (a_parent a = p) as E by (apply parent_inj; [by destruct (inv_list _ _ HI _ _ Hlp)|done|done]).
      rewrite E in Hlp. congruence.
Qed.

Lemma models_rooted o a : nodes A !! o = Some a -> exists r, r ∈ f_roots f /\ f_below f r (a_key a).
Proof using All.
  destruct (inv_acyc _ _ HI) as (rank & Hrank). destruct (map_bound (nodes A) rank) as (M & HMx).
  remember (M - rank o)%nat as d eqn:Ed. revert o a Ed. induction d as [d IH] using lt_wf_ind. intros o a Ed Ha.
  destruct (inv_node _ _ HI o a Ha) as (l & _ & Hl & _). pose proof (models_lookup A f o a l Hm Ha Hl) as Hn.
  destruct (inv_up _ _ HI o a Ha) as (lp & Hlp & Ho). destruct (inv_list _ _ HI _ _ Hlp) as ([Ep|[ap Hap]] & _).
  - exists (a_key a). split; [|constructor]. destruct (md_roots _ _ Hm) as (lr & Hlr & ->).
    apply list_elem_of_fmap. exists o. rewrite (key_of_node A o a Ha). split; [done|]. rewrite Ep in Hlp. congruence.
  - assert (rank o < rank (a_parent a))%nat as Hlt.
    { apply (Hrank o a Ha). intros E. rewrite E, (node_neg v A HI HM) in Hap. done. }
    pose proof (HMx _ _ Hap) as Hb. destruct (IH (M - rank (a_parent a))%nat ltac:(lia) _ _ eq_refl Hap) as (r & Hr & Hbl).
    exists r. split; [done|]. econstructor; [exact Hn|]. simpl. by rewrite (key_of_node A _ ap Hap).
Qed.

Lemma models_forest_ok : Forest_ok f.
Proof using All.
  constructor.
  - intros k n Hn. destruct (models_find _ _ _ _ Hm Hn) as (o & a & l & Ha & <- & Hl & ->).
    destruct (inv_node _ _ HI o a Ha) as (l' & c & _ & _ & Hck). apply (ck_key _ _ _ Hck).
  - destruct (md_roots _ _ Hm) as (l & Hl & ->). rewrite <- (key_of_neg v A HI HM). by apply lists_level.
  - intros k n Hn. destruct (models_find _ _ _ _ Hm Hn) as (o & a & l & Ha & <- & Hl & ->). simpl.
    rewrite <- (key_of_node A o a Ha). by apply lists_level.
  - intros k n Hn. destruct (models_find _ _ _ _ Hm Hn) as (o & a & l & Ha & <- & Hl & ->). simpl.
    destruct (inv_up _ _ HI o a Ha) as (lp & Hlp & Ho). destruct (inv_list _ _ HI _ _ Hlp) as ([Ep|[ap Hap]] & _).
    + left. rewrite Ep. by apply (key_of_neg v A HI).
    + right. rewrite (key_of_node A _ ap Hap). rewrite (models_lookup A f _ ap lp Hm Hap Hlp). eauto.
  - intros k n Hn. destruct (models_find _ _ _ _ Hm Hn) as (o & a & l & Ha & <- & Hl & ->). by eapply models_rooted.
Qed.
End Ok.

Section Forests.
Context {F : Type} {fo : FileOps F} {fl : FileLaws F}.
Context {I : Type} {io : IndexOps I} {il : IndexLaws I}.

Lemma Db_forest_ok (s : St F I) f : Db s f -> Forest_ok f.
Proof. intros (v & A & H & HI & Hm). apply (models_forest_ok v A f HI); [by eapply Rep_neg|done]. Qed.

(** The siblings of a node are never more than the file has bytes. *)
Lemma level_fuel (s : St F I) f p l : Db s f -> level f p l -> (length l <= file_fuel s)%nat.
Proof.
  intros (v & A & H & HI & Hm) [Hnd Hl].
  assert (forall k, k ∈ l -> exists o a, v_idx v !! k = Some o /\ nodes A !! o = Some a /\ a_key a = k) as Ho.
  { intros k (n & Hn & _)%Hl. destruct (models_find _ _ _ _ Hm Hn) as (o & a & lo & Ha & Hk & _).
    exists o, a. split_and!; auto. apply (inv_idx _ _ HI). eauto. }
  rewrite <- (length_fmap (fun k => default 0 (v_idx v !! k)) l). apply (cells_fuel s v); [done| |].
  - intros x (k & -> & Hk)%list_elem_of_fmap. destruct (Ho k Hk) as (o & a & -> & Ha & _).
    destruct (inv_node _ _ HI o a Ha) as (? & c & _ & Hc & _). eauto.
  - apply NoDup_fmap_2_strong; [|done]. intros x y Hx Hy. destruct (Ho x Hx) as (o & a & -> & Ha & <-).
    destruct (Ho y Hy) as (o' & a' & -> & Ha' & <-). simpl. intros ->. congruence.
Qed.
End Forests.

(** ** Leaves *)

Lemma below_leaf f k n x :
  Forest_ok f -> f_nodes f !! k = Some n -> fn_children n = [] -> f_below f k x -> x = k.
Proof.
  intros Hf Hn Hc. induction 1 as [|x nx Hx _ IH]; [done|]. subst.
  destruct (fo_children f Hf _ _ Hn) as [_ Hl]. rewrite Hc in Hl.
  destruct (not_elem_of_nil x). apply Hl. eauto.
Qed.

(** ** Taking back a new root *)

Lemma attach_root_nodes f k d fl x : x <> k -> f_nodes (f_attach [] k d fl f) !! x = f_nodes f !! x.
Proof. intros Hne. rewrite f_attach_nodes, decide_False by done. case_decide; [tauto|done]. Qed.

(** A node that is not the new one, before and after. *)
Lemma attach_old p f k d fl x n :
  x <> k -> f_nodes (f_attach p k d fl f) !! x = Some n ->
  exists n0, f_nodes f !! x = Some n0 /\ fn_parent n0 = fn_parent n /\ (n = n0 \/ n = fn_add k n0).
Proof.
  intros Hne. rewrite f_attach_nodes, decide_False by done. case_decide.
  - intros (n0 & Hn0 & ->)%fmap_Some. eauto.
  - eauto.
Qed.

Lemma attach_below p f k d fl x :
  Forest_ok f -> key_ok k -> f_nodes f !! k = None -> f_below (f_attach p k d fl f) k x -> x = k.
Proof.
  intros Hf [Hk0 _] Hk. induction 1 as [|x n Hx _ IH]; [done|]. destruct (decide (x = k)) as [E|Hne]; [done|].
  destruct (attach_old p f k d fl x n Hne Hx) as (n0 & Hn0 & Ep & _).
  destruct (fo_parent f Hf x n0 Hn0) as [E|[q Hq]]; congruence.
Qed.

Lemma forest_ext f f' :
  (forall x n, f_nodes f' !! x = Some n <-> f_nodes f !! x = Some n) -> f_roots f' = f_roots f -> f' = f.
Proof.
  destruct f as [ns rs], f' as [ns' rs']. simpl. intros Hn ->. f_equal. apply map_eq. intros x.
  destruct (ns !! x) as [n|] eqn:E; [by apply Hn|]. destruct (ns' !! x) as [n|] eqn:E'; [|done].
  apply Hn in E'. congruence.
Qed.

Lemma filter_not_in (k : bytes) (l : list bytes) : k ∉ l -> filter (fun x => x <> k) l = l.
Proof.
  induction l as [|x l IH]; [done|]. intros Hk. rewrite filter_cons, decide_True by set_solver.
  rewrite IH by set_solver. done.
Qed.

Lemma drop_add k n : k ∉ fn_children n -> fn_drop k (fn_add k n) = n.
Proof.
  intros Hk. unfold fn_drop, fn_add. simpl. rewrite filter_app, filter_cons, decide_False by naive_solver.
  rewrite filter_nil, app_nil_r, filter_not_in by done. by destruct n.
Qed.

Lemma drop_absent k n : k ∉ fn_children n -> fn_drop k n = n.
Proof. intros Hk. unfold fn_drop. rewrite filter_not_in by done. by destruct n. Qed.

(** Attaching a leaf and pruning it gives back the forest. *)
Lemma prune_attach p f f' k d fl :
  Forest_ok f -> key_ok k -> f_nodes f !! k = None -> f_prune (f_attach p k d fl f) f' k -> f' = f.
Proof.
  intros Hf Hkk Hk [Hn Hr].
  assert (forall l q, level f q l -> k ∉ l) as Hout.
  { intros l q [_ Hl] (n & Hkn & _)%Hl. congruence. }
  assert (forall x n, f_nodes f !! x = Some n -> k ∉ fn_children n) as Hch.
  { intros x n Hx. eapply Hout. by eapply fo_children. }
  apply forest_ext.
  - intros x n. rewrite Hn. split.
    + intros (n0 & Hx & Hb & ->). destruct (decide (x = k)) as [->|Hne]; [destruct Hb; constructor|].
      destruct (attach_old p f k d fl x n0 Hne Hx) as (n1 & Hn1 & _ & [->| ->]);
        [rewrite drop_absent|rewrite drop_add]; eauto.
    + intros Hx. assert (x <> k) as Hne by congruence.
      assert (~ f_below (f_attach p k d fl f) k x) as Hb by (intros Hb; by apply attach_below in Hb).
      rewrite f_attach_nodes, decide_False by done. case_decide.
      * exists (fn_add k n). rewrite Hx, drop_add by eauto. done.
      * exists n. rewrite drop_absent by eauto. done.
  - rewrite Hr. unfold f_attach. pose proof (Hout _ _ (fo_roots f Hf)) as Hro. case_bool_decide; simpl.
    + rewrite filter_app, filter_cons, decide_False by naive_solver. rewrite filter_nil, app_nil_r. by apply filter_not_in.
    + by apply filter_not_in.
Qed.

(** * Every reachable database is a consistent forest

   A client drives a database with a sequence of calls by key.  Whatever the
   calls and whether they succeed, are refused or throw, no call crashes or
   runs for ever, and the database represents a forest throughout. *)

Inductive DbCall :=
| AddRoot (k d : bytes)
| AddChild (pk k d : bytes)
| Remove (k : bytes)
| Update (k d : bytes)
| Lookup (k : bytes).

Section Reach.
Context {F : Type} {fo : FileOps F} {fl : FileLaws F}.
Context {I : Type} {io : IndexOps I} {il : IndexLaws I}.
Implicit Types (s : St F I) (f : Forest).

(** The call as a program; the result says whether it succeeded. *)
Definition db_call (c : DbCall) : Prog (St F I) bool :=
  match c with
  | AddRoot k d => '(b, _) ← handle_addRootNode (newNode k (zlen d) (Some d)); mret b
  | AddChild pk k d => '(b, _) ← handle_addChildKey pk (newNode k (zlen d) (Some d)); mret b
  | Remove k => removeNodeKey k
  | Update k d => nd ← getNode k; '(b, _, _) ← updateNode nd None (zlen d) (Some d); mret b
  | Lookup k => nd ← getNode k; mret (match nd with Some _ => true | None => false end)
  end.

(** The keys are C strings; there is room for what is stored. *)
Definition call_ok (c : DbCall) s : Prop :=
  match c with
  | AddRoot k d => key_ok k /\ room s k d
  | AddChild pk k d => key_ok pk /\ key_ok k /\ room s k d
  | Remove k | Lookup k => key_ok k
  | Update k d => key_ok k /\ room s k d
  end.

(** A new database, or what a call leaves of a reachable one. *)
Inductive reach : St F I -> Prop :=
| reach_new (nf nf' : F) (ix : I) h0 :
    f_content nf = [] -> idx_map ix = ∅ ->
    open false true true (Some nf) (mkOpen h0 None) = (Ok (), mkOpen initialHeader (Some nf')) ->
    reach (opened (mkOpen initialHeader (Some nf')) nf' ix)
| reach_call s c : reach s -> call_ok c s -> reach (db_call c s).2.

(** What a call does to the forest. *)
Definition db_effect (c : DbCall) f f' : Prop :=
  match c with
  | AddRoot k d => f_nodes f !! k = None /\ f' = f_attach [] k d 0 f
  | AddChild pk k d => f_nodes f !! k = None /\ is_Some (f_nodes f !! pk) /\ f' = f_attach pk k d 0 f
  | Remove k => is_Some (f_nodes f !! k) /\ f_prune f f' k
  | Update k d => exists n, f_nodes f !! k = Some n /\ f' = f_set k d (fn_flags n) f
  | Lookup _ => f' = f
  end.

(** [m] returns or throws, in a state that represents [f] or one that [P] allows. *)
Definition settles {A} (m : Prog (St F I) A) (P : Forest -> Prop) f s : Prop :=
  exists res s', m s = (res, s') /\ match res with Ok _ | Throw _ => True | _ => False end /\
    exists f', Db s' f' /\ (f' = f \/ P f').

Lemma settles_wp {A} (m : Prog (St F I) A) (P : Forest -> Prop) f s :
  wp m (fun _ s' => exists f', Db s' f' /\ (f' = f \/ P f')) s -> settles m P f s.
Proof using. intros (a & s' & E & H)%wp_run. exists (Ok a), s'. done. Qed.

Lemma settles_throws {A} (m : Prog (St F I) A) msg (P : Forest -> Prop) f s :
  throws m msg (fun s' => Db s' f) s -> settles m P f s.
Proof using. unfold throws. destruct (m s) as [[] s'] eqn:E; try done. intros [_ Hd]. eexists _, s'. split_and!; [done|done|eauto]. Qed.

Lemma addChild_duplicate s v A f pk p k d n nd :
  DbV s v A f -> Held v A pk p -> key_ok k -> f_nodes f !! k = Some n -> newborn k d nd ->
  throws (handle_addChild (Some p) (Some nd)) "key for node is already in index" (fun s' => Db s' f) s.
Proof.
  intros [H HI Hm] (po & pa & pc & Hpa & _ & Hpc & Hp) [Hk0 Hkz] Hf Hn.
  destruct (models_find _ _ _ _ Hm Hf) as (o & a & l & Ha & Hak & Hl & _).
  assert (v_idx v !! k = Some o) as Hi by (apply (inv_idx _ _ HI); eauto).
  destruct (Inv_node _ _ _ _ _ H HI Ha) as (_ & _ & _ & _ & _ & Ho & _).
  destruct (Inv_node _ _ _ _ _ H HI Hpa) as (_ & _ & _ & _ & _ & Hpo & _).
  unfold handle_addChild. pose proof (nb_offset _ _ _ Hn). rewrite (nr_offset _ _ _ _ _ Hp). ztest.
  rewrite (nb_keyeq _ _ _ Hn), cstr_id by done.
  apply throws_bind. eapply wp_findIndexEntry; [done|]. intros s1 Hs1 _. rewrite Hi.
  match goal with |- context [entry_valid ?e] => assert (entry_valid e = true) as -> end.
  { unfold entry_valid. cbn [ie_key ie_offset]. rewrite bool_decide_false by done. ztest. done. }
  split; [done|]. by exists v, A.
Qed.

(** The parent by its key, as [handle_addChildKey] finds it. *)
Lemma addChildKey_case s v A f pk node :
  DbV s v A f -> key_ok pk ->
  exists s' r, DbV s' v A f /\ got v A f pk r /\
    handle_addChildKey pk node s = (match r with
      | Some _ => '(b, _, c) ← handle_addChild r node; mret (b, c)
      | None => mret (false, node)
      end) s'.
Proof.
  intros [H HI Hm] Hk. pose proof Hk as [Hk0 Hkz]. unfold handle_addChildKey. rewrite bool_decide_false, cstr_id by done.
  assert (wp (nodeByKey pk) (fun r s' => DbV s' v A f /\ got v A f pk r) s) as Hw.
  { eapply wp_nodeByKey; [done..|]. intros s' r Hs' Hr. split; [done|]. destruct r as [nd|]; [done|]. simpl.
    destruct (f_nodes f !! pk) as [n|] eqn:E; [|done].
    destruct (models_find _ _ _ _ Hm E) as (o & a & l & Ha & Hak & _). by destruct (Hr o a Ha). }
  apply wp_run in Hw as (r & s' & E & Hd & Hg). exists s', r. split_and!; [done..|].
  unfold mbind at 1, Prog_bind at 1. by rewrite E.
Qed.

Lemma call_settles c s f : Db s f -> call_ok c s -> settles (db_call c) (db_effect c f) f s.
Proof.
  intros Hd. destruct c as [k d|pk k d|k|k d|k]; simpl.
  - intros [Hk Hr]. destruct (f_nodes f !! k) as [n|] eqn:E.
    + eapply settles_throws, throws_bind_l, db_duplicate; [done..|]. by eapply room_new.
    + apply settles_wp. wstep. eapply wp_mono; [by apply db_addRoot|]. intros [b x] s' [_ Hd']. wstep.
      eexists. split; [exact Hd'|by right].
  - intros (Hpk & Hk & Hr). destruct (Db_DbV _ _ Hd) as (v & A & Hv).
    destruct (new_node k d Hk (room_new _ _ _ _ Hd Hr)) as (n & En & Hn & Hfl). rewrite En.
    destruct (addChildKey_case s v A f pk (Some n) Hv Hpk) as (s1 & r & Hv1 & Hg & E).
    assert (forall m : Prog (St F I) (bool * HDBNode),
      handle_addChildKey pk (Some n) s = m s1 ->
      settles ('(b, _) ← m; mret b) (fun f' => f_nodes f !! k = None /\ is_Some (f_nodes f !! pk) /\ f' = f_attach pk k d 0 f) f s1 ->
      settles ('(b, _) ← handle_addChildKey pk (Some n); mret b)
        (fun f' => f_nodes f !! k = None /\ is_Some (f_nodes f !! pk) /\ f' = f_attach pk k d 0 f) f s) as Hgo.
    { intros m Em. unfold settles, mbind, Prog_bind. by rewrite Em. }
    eapply Hgo; [exact E|]. clear Hgo E. destruct r as [p|]; simpl in Hg.
    + destruct (held_shows _ _ _ _ _ _ Hv1 Hg) as (pn & Hpn & _). destruct (f_nodes f !! k) as [n'|] eqn:Ek.
      * eapply settles_throws, throws_bind_l, throws_bind_l, addChild_duplicate; [done..].
      * apply settles_wp. wstep. wstep. eapply wp_mono; [eapply hold_addChild; [done..|]|].
        { unfold room in *. by rewrite (rep_eof _ _ (dv_rep _ _ _ _ Hv1)), <- (rep_eof _ _ (dv_rep _ _ _ _ Hv)). }
        intros [[b x] y] s' [_ Hd']. wstep. wstep. eexists. split; [exact Hd'|]. right. rewrite Hfl. eauto.
    + apply settles_wp. wstep. wstep. wstep. exists f. split; [by eapply DbV_Db|by left].
  - intros Hk. apply settles_wp. destruct (f_nodes f !! k) as [n|] eqn:E.
    + eapply wp_mono; [by eapply db_remove|]. intros b s' (_ & f' & Hp & Hd').
      exists f'. split; [done|]. right. split; [by eexists|done].
    + eapply wp_mono; [by eapply db_remove_absent|]. intros b s' [_ Hd']. exists f. split; [done|by left].
  - intros [Hk Hr]. apply settles_wp. destruct (Db_DbV _ _ Hd) as (v & A & Hv). wstep.
    eapply hold_getNode; [done..|]. intros s1 [nd|] Hv1 Hg; simpl in Hg.
    + destruct (held_shows _ _ _ _ _ _ Hv1 Hg) as (n & Hn & _). wstep.
      eapply wp_mono; [eapply hold_updateNode; [done..|]|].
      { unfold room in *. by rewrite (rep_eof _ _ (dv_rep _ _ _ _ Hv1)), <- (rep_eof _ _ (dv_rep _ _ _ _ Hv)). }
      intros [[b x] y] s' [_ Hd']. wstep. eexists. split; [exact Hd'|]. right. by exists n.
    + wstep. exists f. split; [by eapply DbV_Db|by left].
  - intros Hk. apply settles_wp. destruct (Db_DbV _ _ Hd) as (v & A & Hv). wstep.
    eapply hold_getNode; [done..|]. intros s1 r Hv1 _. wstep. exists f. split; [by eapply DbV_Db|by left].
Qed.

Lemma reach_db s : reach s -> exists f, Db s f.
Proof.
  induction 1 as [nf nf' ix h0 Hc Hix Eo|s c _ [f Hd] Hok].
  - exists f_empty. destruct (open_new nf h0 Hc) as (nf1 & E1 & Hc1). rewrite E1 in Eo. injection Eo as <-. by apply db_empty.
  - destruct (call_settles c s f Hd Hok) as (res & s' & E & _ & f' & Hd' & _). rewrite E. eauto.
Qed.
End Reach.
