(* ===== verification/HdbMain.v ===== *)
(** * The theorems on the hierarchical database

   The properties of the HDB engine, each with a witness on a concrete
   database: an in-memory file and an [IndexImpl] over the reference B-tree. *)

From S2P Require Import Prelude FileIO HdbCommon Index Hdb HdbHeap Dll FreeList HdbNode HdbInv HdbTree HdbAlloc HdbAdd HdbSubtree HdbRemove HdbUpdate HdbRelocate HdbSpec HdbContract HdbHold.

(** ** A small database *)

Module Ex.
Abbreviation St := (Hdb.St MemFile.t (IndexImpl.t MemBTree.t)).

Definition file : MemFile.t :=
  match open false true true (Some MemFile.empty) (mkOpen initialHeader None) with
  | (Ok _, mkOpen _ (Some f)) => f
  | _ => MemFile.empty
  end.

Definition empty : St :=
  opened (mkOpen initialHeader (Some file)) file (IndexImpl.mk true MemBTree.empty).

(** "AB" at the root, "C" and "D" below it, "E" below "C". *)
Definition kAB : bytes := [65; 66].
Definition kC : bytes := [67].
Definition kD : bytes := [68].
Definition kE : bytes := [69].

Definition s1 : St := (handle_addRootNode (newNode kAB 3 (Some [1; 2; 3])) empty).2.
Definition s2 : St := (handle_addChildKey kAB (newNode kC 2 (Some [4; 5])) s1).2.
Definition s3 : St := (handle_addChildKey kAB (newNode kD 0 (Some [])) s2).2.
Definition s4 : St := (handle_addChildKey kC (newNode kE 1 (Some [7])) s3).2.
Definition f1 : Forest := f_attach [] kAB [1; 2; 3] 0 f_empty.
Definition f2 : Forest := f_attach kAB kC [4; 5] 0 f1.
Definition f3 : Forest := f_attach kAB kD [] 0 f2.
Definition f4 : Forest := f_attach kC kE [7] 0 f3.

Lemma db0 : Db empty f_empty.
Proof. apply db_empty; by vm_compute. Qed.

Lemma key_of_list k : bool_decide (k <> [] /\ Forall (fun b => b <> 0) k) = true -> key_ok k.
Proof. intros H%bool_decide_eq_true. exact H. Qed.

Lemma after {A} (m : Prog St A) (P : A -> Prop) (f : Forest) s :
  wp m (fun a s' => P a /\ Db s' f) s -> Db (m s).2 f.
Proof. intros H. by destruct (wp_after _ _ _ H) as (a & _ & _ & ?). Qed.

Lemma db1 : Db s1 f1.
Proof.
  eapply (after _ (fun r => r.1 = true)), (db_addRoot empty f_empty kAB [1; 2; 3]);
    [apply db0|by apply key_of_list|done|by vm_compute].
Qed.

Lemma db2 : Db s2 f2.
Proof.
  eapply (after _ (fun r => r.1 = true)), (db_addChild s1 f1 kAB _ kC [4; 5]);
    [apply db1|by apply key_of_list|by vm_compute|by vm_compute|by vm_compute].
Qed.

Lemma db3 : Db s3 f3.
Proof.
  eapply (after _ (fun r => r.1 = true)), (db_addChild s2 f2 kAB _ kD []);
    [apply db2|by apply key_of_list|by vm_compute|by vm_compute|by vm_compute].
Qed.

Lemma db4 : Db s4 f4.
Proof.
  eapply (after _ (fun r => r.1 = true)), (db_addChild s3 f3 kC _ kE [7]);
    [apply db3|by apply key_of_list|by vm_compute|by vm_compute|by vm_compute].
Qed.
End Ex.

(** ** The contract *)

Section Theorems.
Context {F : Type} {fo : FileOps F} {fl : FileLaws F}.
Context {I : Type} {io : IndexOps I} {il : IndexLaws I}.
Implicit Types (s : St F I) (f : Forest).



(** C3: [HDBHandle::updateNode] replaces the data of the node and nothing else,
   whether the new data fits into the node's block or the node has to move to
   another one, with its siblings, parent, children, the header and the index
   following it. *)
Theorem updateNode_sets s f k n d :
  Db s f -> key_ok k -> f_nodes f !! k = Some n -> room s k d ->
  wp (nd ← getNode k; updateNode nd None (zlen d) (Some d))
    (fun r s' => r.1.1 = true /\ Db s' (f_set k d (fn_flags n) f)) s.
Proof. apply db_update. Qed.

(** C4: [HDBHandle::getNode(key)] gives the node with its key, data and flags when the
   key is in the database and a null node when it is not; from that node
   [getParent], [getFirstChild], [getLastChild], [getNextSibling] and
   [getPrevSibling] give the parent, the first and last child and the
   neighbours in the order in which the children were added, null where there
   is none.  None of them changes anything. *)
Theorem getNode_walks s f k :
  Db s f -> key_ok k ->
  wp (getNode k) (fun r s' => Db s' f /\
    match r with Some nd => shows f k nd | None => f_nodes f !! k = None end) s /\
  (forall n w, f_nodes f !! k = Some n ->
    wp (nd ← getNode k; walk_op w nd) (fun r s' => Db s' f /\ walked f (walk_spec f k n w) r.1) s).
Proof. intros Hd Hk. split; [by apply db_getNode|]. intros n w Hn. by apply db_walk. Qed.


(** [findBlock] terminates and takes the smallest free block that is large
   enough off the free list, or gives the end of the file when there is none;
   no other block but the links of free blocks changes. *)
Lemma findBlock_best_fit s v l sz :
  Rep s v -> flist v l -> 0 <= sz < 4294967296 ->
  wp (findBlock sz) (fun off s' =>
    (exists v' l1 l2, l = l1 ++ off :: l2 /\ Rep s' v' /\ flist v' (l1 ++ l2) /\
       lframe (l1 ++ l2) v v' /\ sz <= size_of (v_heap v) off /\
       forall x, x ∈ l -> sz <= size_of (v_heap v) x -> size_of (v_heap v) off <= size_of (v_heap v) x) \/
    (off = v_eof v /\ Rep s' v /\ forall x, x ∈ l -> size_of (v_heap v) x < sz)) s.
Proof. apply wp_findBlock. Qed.

(** [addBlockToFreeList] inserts the block into the free list and keeps the
   list doubly linked and sorted by size; nothing but the block and the links
   of free blocks changes, and [checkFreeList] then terminates and finds the
   list intact. *)
Lemma addBlockToFreeList_sorted s v l o c b :
  Rep s v -> flist v l -> o ∉ l -> v_heap v !! o = Some c -> block_ok b ->
  wp (addBlockToFreeList b o ;; checkFreeList) (fun r s' => r = true /\ exists v' l1 l2, l = l1 ++ l2 /\
    Rep s' v' /\ flist v' (l1 ++ o :: l2) /\ lframe (o :: l) (vput o (freed b c) v) v') s.
Proof.
  intros Hs Hl Ho Hc Hb. wstep. eapply wp_mono; [by apply wp_addBlockToFreeList|]. intros [] s1 (v' & l1 & l2 & El & Hs1 & Hl1 & Hf).
  eapply wp_mono; [by eapply wp_checkFreeList|]. intros r s2 [-> Hs2]. split; [done|]. by exists v', l1, l2.
Qed.

(** C6: both operations of the free list terminate and keep it doubly linked and
   sorted by size, with nothing but the links of free blocks changed.
   [findBlock] takes the smallest free block that is large enough off the list,
   or gives the end of the file when there is none; [addBlockToFreeList] inserts
   a block, and [checkFreeList] then finds the list intact. *)
Theorem free_list_correct s v l :
  Rep s v -> flist v l ->
  (forall sz, 0 <= sz < 4294967296 ->
   wp (findBlock sz) (fun off s' =>
     (exists v' l1 l2, l = l1 ++ off :: l2 /\ Rep s' v' /\ flist v' (l1 ++ l2) /\
        lframe (l1 ++ l2) v v' /\ sz <= size_of (v_heap v) off /\
        forall x, x ∈ l -> sz <= size_of (v_heap v) x -> size_of (v_heap v) off <= size_of (v_heap v) x) \/
     (off = v_eof v /\ Rep s' v /\ forall x, x ∈ l -> size_of (v_heap v) x < sz)) s) /\
  (forall o c b, o ∉ l -> v_heap v !! o = Some c -> block_ok b ->
   wp (addBlockToFreeList b o ;; checkFreeList) (fun r s' => r = true /\ exists v' l1 l2, l = l1 ++ l2 /\
     Rep s' v' /\ flist v' (l1 ++ o :: l2) /\ lframe (o :: l) (vput o (freed b c) v) v') s).
Proof.
  intros Hs Hl. split; [intros sz Hsz; by apply findBlock_best_fit|intros o c b Ho Hc Hb; by apply addBlockToFreeList_sorted].
Qed.

(** C7: [readBlock] refuses every stored block of which exactly one byte was
   changed on disk. *)
Theorem readBlock_detects_corruption s o b i x y :
  0 <= o -> block_ok b -> enc_block (seal b) !! i = Some y -> is_byte x -> x <> y ->
  sub (content s) o 44 = <[i := x]> (enc_block (seal b)) ->
  throws (readBlock o) "CORRUPT DATA? Invalid check sum in node" (fun s' => content s' = content s) s.
Proof. apply readBlock_corrupt. Qed.
End Theorems.

(** ** Witnesses *)

Module Witness.
Import Ex.



(** The data of "C" grows, so that the node moves. *)
Lemma updateNode_witness :
  wp (nd ← getNode kC; updateNode nd None (zlen [1; 2; 3; 4; 5]) (Some [1; 2; 3; 4; 5]))
    (fun r s' => r.1.1 = true /\ Db s' (f_set kC [1; 2; 3; 4; 5] 0 f4)) s4.
Proof.
  apply (updateNode_sets s4 f4 kC (mkFNode [4; 5] 0 kAB [kE]));
    [apply db4|by apply key_of_list|by vm_compute|by vm_compute].
Defined.

Lemma getNode_witness :
  wp (getNode kD) (fun r s' => Db s' f4 /\
    match r with Some nd => shows f4 kD nd | None => f_nodes f4 !! kD = None end) s4 /\
  wp (nd ← getNode kC; walk_op ToNextSibling nd) (fun r s' => Db s' f4 /\ walked f4 kD r.1) s4.
Proof.
  split.
  - destruct (getNode_walks s4 f4 kD db4 ltac:(by apply key_of_list)) as [H _]. exact H.
  - destruct (getNode_walks s4 f4 kC db4 ltac:(by apply key_of_list)) as [_ H].
    exact (H (mkFNode [4; 5] 0 kAB [kE]) ToNextSibling ltac:(by vm_compute)).
Defined.


(** After "C" and "E" were removed there are two free blocks. *)
Definition s5 : St := (removeNodeKey kC s4).2.

Lemma db5 : exists f, Db s5 f.
Proof.
  destruct (wp_after _ _ _ (db_remove s4 f4 kC (mkFNode [4; 5] 0 kAB [kE]) db4 ltac:(by apply key_of_list) ltac:(by vm_compute)))
    as (a & _ & _ & f' & _ & H). by exists f'.
Qed.

Lemma free_list_witness :
  (exists v l, Rep s5 v /\ wp (findBlock 48) (fun off s' =>
    (exists v' l1 l2, l = l1 ++ off :: l2 /\ Rep s' v' /\ flist v' (l1 ++ l2) /\
       lframe (l1 ++ l2) v v' /\ 48 <= size_of (v_heap v) off /\
       forall x, x ∈ l -> 48 <= size_of (v_heap v) x -> size_of (v_heap v) off <= size_of (v_heap v) x) \/
    (off = v_eof v /\ Rep s' v /\ forall x, x ∈ l -> size_of (v_heap v) x < 48)) s5) /\
  (exists v l o c, Rep s4 v /\ wp (addBlockToFreeList (c_blk c) o ;; checkFreeList) (fun r s' =>
    r = true /\ exists v' l1 l2, l = l1 ++ l2 /\ Rep s' v' /\ flist v' (l1 ++ o :: l2) /\
      lframe (o :: l) (vput o (freed (c_blk c) c) v) v') s4).
Proof.
  split.
  - destruct db5 as (f & v & A & H & HI & _). exists v, (frees A). split; [exact H|].
    destruct (free_list_correct s5 v (frees A) H (inv_free _ _ HI)) as [H1 _]. exact (H1 48 ltac:(lia)).
  - destruct db4 as (v & A & H & HI & Hm).
    destruct (models_find A f4 kE (mkFNode [7] 0 kC []) Hm ltac:(by vm_compute)) as (o & a & l & Ha & _).
    destruct (inv_node _ _ HI o a Ha) as (lo & c & _ & Hc & _). exists v, (frees A), o, c. split; [exact H|].
    destruct (free_list_correct s4 v (frees A) H (inv_free _ _ HI)) as [_ H2].
    exact (H2 o c (c_blk c) (inv_disj _ _ HI o a Ha) Hc (Rep_ok _ _ _ _ H Hc)).
Defined.

(** The block of "AB" with its last byte changed. *)
Definition blkAB : HDBBlock := dec_block (sub (MemFile.data (m_file s1)) 32 44).
Definition s1bad : St :=
  mkSt (m_pdb s1) (MemFile.mk (<[75%nat := 9]> (MemFile.data (m_file s1))) 0) false.

Lemma block_ok_dec b : bool_decide (0 <= chkSum b < 4294967296 /\ 0 <= isFree b < 256 /\ 0 <= pad b < 16777216 /\
  0 <= bsize b < 4294967296 /\ 0 <= flags b < 4294967296 /\ -2147483648 <= nextSib b < 2147483648 /\
  -2147483648 <= prevSib b < 2147483648 /\ -2147483648 <= parent b < 2147483648 /\
  -2147483648 <= firstChild b < 2147483648 /\ -2147483648 <= lastChild b < 2147483648 /\
  0 <= keyLength b < 4294967296 /\ 0 <= dataLength b < 4294967296) = true -> block_ok b.
Proof. intros H%bool_decide_eq_true. constructor; unfold is_u32, is_s32; tauto. Qed.

Lemma corruption_witness :
  throws (readBlock 32) "CORRUPT DATA? Invalid check sum in node" (fun s' => content s' = content s1bad) s1bad.
Proof.
  apply (readBlock_detects_corruption s1bad 32 blkAB 43 9 0);
    [lia|by apply block_ok_dec; vm_compute|by vm_compute|by vm_compute|lia|by vm_compute].
Defined.
End Witness.

(** ** Blocks and the index *)

Section IndexParts.
Context {D : Type} {bt : BTreeOps D} {bl : BTreeLaws D}.
Implicit Types i : IndexImpl.t D.

Inductive IndexCall := IFind (k : bytes) | IAdd (k : bytes) (o : Z) | IUpdate (k : bytes) (o : Z) | IRemove (k : bytes).

Definition index_call (c : IndexCall) : Prog (IndexImpl.t D) (IndexEntry + bool) :=
  match c with
  | IFind k => e ← IndexImpl.find k; mret (inl e)
  | IAdd k o => b ← IndexImpl.add k o; mret (inr b)
  | IUpdate k o => b ← IndexImpl.update k o; mret (inr b)
  | IRemove k => b ← IndexImpl.remove 1 k (-1); mret (inr b)
  end.

Fixpoint index_run (l : list IndexCall) : Prog (IndexImpl.t D) (list (IndexEntry + bool)) :=
  match l with
  | [] => mret []
  | c :: l => a ← index_call c; r ← index_run l; mret (a :: r)
  end.

(** The same calls on a finite map. *)
Definition map_call (c : IndexCall) (m : gmap bytes Z) : (IndexEntry + bool) * gmap bytes Z :=
  match c with
  | IFind k => (inl match m !! k with Some o => mkEntry k o | None => nullEntry end, m)
  | IAdd k o => (inr true, <[k := o]> m)
  | IUpdate k o => match m !! k with Some _ => (inr true, <[k := o]> m) | None => (inr false, m) end
  | IRemove k => match m !! k with Some _ => (inr true, delete k m) | None => (inr false, m) end
  end.

Fixpoint map_run (l : list IndexCall) (m : gmap bytes Z) : list (IndexEntry + bool) * gmap bytes Z :=
  match l with
  | [] => ([], m)
  | c :: l => let '(a, m) := map_call c m in let '(r, m) := map_run l m in (a :: r, m)
  end.

(** Keys are not empty, offsets not the one that means none. *)
Definition index_call_ok (c : IndexCall) : Prop :=
  match c with IAdd k o | IUpdate k o => k <> [] /\ o <> -1 | _ => True end.
Abbreviation proper := (map_Forall (fun (k : bytes) (o : Z) => k <> [] /\ o <> -1)).

Lemma index_call_map c i :
  proper (IndexImpl.map_of i) -> index_call_ok c ->
  wp (index_call c) (fun a i' => (a, IndexImpl.map_of i') = map_call c (IndexImpl.map_of i)) i /\
  proper (map_call c (IndexImpl.map_of i)).2.
Proof.
  intros Hp Hc. destruct c as [k|k o|k o|k]; simpl.
  - split; [|done]. wstep. eapply wp_mono; [apply (@idx_find_law _ _ IndexImpl.laws k i)|]. intros e i' [E ->]. wstep. simpl in *. by rewrite E.
  - split; [|by apply map_Forall_insert_2]. wstep. eapply wp_mono; [apply (@idx_add_law _ _ IndexImpl.laws k o i)|].
    intros b i' [-> E]. wstep. simpl in *. by rewrite E.
  - split; [|destruct (_ !! k); [by apply map_Forall_insert_2|done]]. wstep.
    eapply wp_mono; [apply (@idx_update_law _ _ IndexImpl.laws k o i)|]. intros b i' [H1 H2]. wstep. simpl in *.
    destruct (IndexImpl.map_of i !! k) as [o0|] eqn:Ek.
    + destruct (Hp k o0 Ek). by destruct (H1 o0) as [-> ->].
    + by destruct H2 as [-> ->].
  - split; [|destruct (_ !! k); [by apply map_Forall_delete|done]]. wstep.
    eapply wp_mono; [apply (@idx_remove_law _ _ IndexImpl.laws k i)|]. intros b i' [H1 H2]. wstep. simpl in *.
    destruct (IndexImpl.map_of i !! k) as [o0|] eqn:Ek.
    + destruct (Hp k o0 Ek). by destruct (H1 o0) as [-> ->].
    + by destruct H2 as [-> ->].
Qed.

(** C8: any sequence of [add], [find], [update] and [remove] on [IndexImpl]
   answers as the same calls on a finite map from keys to offsets and leaves
   that map: [add] replaces the offset of a key that is there, [update] and
   [remove] report a key that is not. *)
Theorem index_refines_map l i :
  proper (IndexImpl.map_of i) -> Forall index_call_ok l ->
  wp (index_run l) (fun r i' => (r, IndexImpl.map_of i') = map_run l (IndexImpl.map_of i)) i.
Proof.
  intros Hp Hl. revert i Hp. induction Hl as [|c l Hc _ IH]; intros i Hp; cbn [index_run map_run]; wstep; [done|].
  destruct (index_call_map c i Hp Hc) as [Hw Hp']. eapply wp_mono; [exact Hw|]. intros a i1 E. rewrite <- E in *.
  wstep. eapply wp_mono; [by apply IH|]. intros r i2 E2. wstep. by rewrite <- E2.
Qed.
End IndexParts.

Module PartsWitness.
Import Ex.

Lemma index_witness :
  wp (index_run [IUpdate kC 99; IFind kC; IRemove kC; IFind kC; IRemove kC; IAdd kC 7; IFind kC])
    (fun r _ => r = [inr true; inl (mkEntry kC 99); inr true; inl nullEntry; inr false; inr true; inl (mkEntry kC 7)])
    (m_pindex (m_pdb s2)).
Proof.
  eapply wp_mono.
  - apply (index_refines_map _ (m_pindex (m_pdb s2))).
    + apply map_Forall_to_list. apply (bool_decide_unpack _). vm_compute. exact I.
    + repeat constructor; done.
  - intros r i' E. apply (f_equal fst) in E. simpl in E. rewrite E. by vm_compute.
Defined.
End PartsWitness.
