(* ===== verification/Blocxx.v ===== *)
(** * What the code uses of blocxx

   blocxx is the foundation library of OpenWBEM and not part of the repository.
   Its strings, booleans, characters and number conversions are classes here;
   their laws are the documented behaviour that the code relies on.

   A stream that is written is the bytes written so far; a stream that is read
   is the bytes that are left. *)

From S2P Require Import Prelude.

(** ** Strings *)

(** [String::indexOf] of a text and of a character, and [String::substring]. *)
Class StringSearch : Type := {
  indexOf : bytes -> bytes -> option nat;
  indexOfChar : Z -> bytes -> option nat;
  substring_from : nat -> bytes -> bytes;
  substring_to : nat -> bytes -> bytes;
}.

(** The first occurrence, and parts of a text. *)
Class StringSearchLaws {so : StringSearch} : Prop := {
  indexOf_first : forall c t a r, c ∉ a -> indexOf (c :: t) (a ++ (c :: t) ++ r) = Some (length a);
  indexOfChar_first : forall c a b, c ∉ a -> indexOfChar c (a ++ c :: b) = Some (length a);
  indexOfChar_none : forall c a, c ∉ a -> indexOfChar c a = None;
  substring_from_drop : forall n s, substring_from n s = drop n s;
  substring_to_take : forall n s, substring_to n s = take n s;
}.

(** [String::trim], the conversions between text and [Int32] ([None] is a
   StringConversionException) and [String::equalsIgnoreCase]. *)
Class StringConv : Type := {
  trim : bytes -> bytes;
  toInt32 : bytes -> option Z;
  String_of_Int32 : Z -> bytes;
  equalsIgnoreCase : bytes -> bytes -> bool;
}.

(** White space as [isspace] has it, and a text that neither begins nor ends
   with it. *)
Definition is_space (c : Z) : Prop := c = 32 \/ 9 <= c <= 13.
Definition trimmed (s : bytes) : Prop :=
  match head s, last s with Some a, Some b => ~ is_space a /\ ~ is_space b | _, _ => True end.

Class StringConvLaws {sc : StringConv} : Prop := {
  trim_trimmed : forall s, trimmed s -> trim s = s;
  toInt32_of : forall z, - 2 ^ 31 <= z < 2 ^ 31 -> toInt32 (String_of_Int32 z) = Some z;
  String_of_Int32_digits : forall z, 0 <= z -> Forall (fun c => 48 <= c <= 57) (String_of_Int32 z);
}.

(** ** Streams *)

(** Writing [b]. *)
Definition writes (m : Prog bytes ()) (b : bytes) : Prop := forall s, m s = (Ok (), s ++ b).

(** Reading [x] from the bytes [b], and nothing behind them. *)
Definition reads {A} (m : Prog bytes A) (b : bytes) (x : A) : Prop := forall rest, m (b ++ rest) = (Ok x, rest).

(** What [w] writes, [r] reads as [x]. *)
Definition trip {A} (w : Prog bytes ()) (r : Prog bytes A) (x : A) : Prop := exists b, writes w b /\ reads r b x.

(** Reading the input [l] returns or throws, and has not put anything back; a
   value uses up at least [n] bytes. *)
Definition behaves {A} (n : nat) (m : Prog bytes A) (l : bytes) : Prop :=
  match m l with
  | (Ok _, l') => (length l' + n <= length l)%nat
  | (Throw _, l') => (length l' <= length l)%nat
  | _ => False
  end.

(** [writeObject] and [readObject] of blocxx's values, floating point numbers
   and their conversions to and from text. *)
Class Blocxx : Type := {
  Real32 : Type;
  Real64 : Type;
  real64_of_real32 : Real32 -> Real64;
  String_of_Real64 : Real64 -> bytes;
  toReal32 : bytes -> outcome Real32;
  toReal64 : bytes -> outcome Real64;
  String_writeObject : bytes -> Prog bytes ();
  String_readObject : Prog bytes bytes;
  Bool_writeObject : bool -> Prog bytes ();
  Bool_readObject : Prog bytes bool;
  Char16_writeObject : Z -> Prog bytes ();
  Char16_readObject : Prog bytes Z;
}.

(** A string of bytes whose length fits. *)
Definition string_ok (s : bytes) : Prop := Forall is_byte s /\ zlen s < 2 ^ 31.

(** Values survive; malformed input throws; numbers that are no numbers throw. *)
Class BlocxxLaws {bx : Blocxx} : Prop := {
  String_trip : forall s, string_ok s -> trip (String_writeObject s) String_readObject s;
  Bool_trip : forall b, trip (Bool_writeObject b) Bool_readObject b;
  Char16_trip : forall c, 0 <= c < 65536 -> trip (Char16_writeObject c) Char16_readObject c;
  String_behaves : forall l, behaves 1 String_readObject l;
  Bool_behaves : forall l, behaves 1 Bool_readObject l;
  Char16_behaves : forall l, behaves 1 Char16_readObject l;
  toReal32_behaves : forall s, match toReal32 s with Ok _ | Throw _ => True | _ => False end;
  toReal64_behaves : forall s, match toReal64 s with Ok _ | Throw _ => True | _ => False end;
}.

(** ** Composition *)

Lemma writes_bind m b k b' : writes m b -> writes k b' -> writes (m ;; k) (b ++ b').
Proof. intros Hm Hk s. unfold mbind, Prog_bind. by rewrite Hm, Hk, app_assoc. Qed.

Lemma reads_bind {A B} (m : Prog bytes A) (k : A -> Prog bytes B) b b' x y :
  reads m b x -> reads (k x) b' y -> reads (m ≫= k) (b ++ b') y.
Proof. intros Hm Hk rest. unfold mbind, Prog_bind. by rewrite <- app_assoc, Hm. Qed.

Lemma trip_ret {A} (x : A) : trip (mret ()) (mret x) x.
Proof. exists []. split; intros s; [by rewrite app_nil_r|done]. Qed.

Lemma trip_bind {A B} w1 w2 (r1 : Prog bytes A) (r2 : A -> Prog bytes B) x y :
  trip w1 r1 x -> trip w2 (r2 x) y -> trip (w1 ;; w2) (r1 ≫= r2) y.
Proof.
  intros (b1 & Hw1 & Hr1) (b2 & Hw2 & Hr2). exists (b1 ++ b2).
  split; [by apply writes_bind|by eapply reads_bind].
Qed.

(** The last part of an object: what is read is put together. *)
Lemma trip_last {A B} w (r : Prog bytes A) (f : A -> B) x :
  trip w r x -> trip w (r ≫= fun a => mret (f a)) (f x).
Proof.
  intros (b & Hw & Hr). exists b. split; [done|]. intros rest. unfold mbind, Prog_bind. by rewrite Hr.
Qed.

Lemma behaves_ret {A} (x : A) l : behaves 0 (mret x) l.
Proof. unfold behaves. simpl. lia. Qed.

Lemma behaves_bind {A B} n n' (m : Prog bytes A) (k : A -> Prog bytes B) l :
  behaves n m l ->
  (forall x l', (length l' + n <= length l)%nat -> behaves n' (k x) l') ->
  behaves (n + n') (m ≫= k) l.
Proof.
  unfold behaves, mbind, Prog_bind. intros Hm Hk.
  destruct (m l) as [[x| | |] l'] eqn:E; [|lia|done..].
  specialize (Hk x l' Hm). destruct (k x l') as [[] l'']; [lia|lia|done..].
Qed.

Lemma behaves_weaken {A} n n' (m : Prog bytes A) l : behaves n m l -> (n' <= n)%nat -> behaves n' m l.
Proof. unfold behaves. destruct (m l) as [[] l']; intros; lia. Qed.

Lemma behaves_throw {A} n msg l : behaves n (throw msg : Prog bytes A) l.
Proof. unfold behaves. simpl. lia. Qed.

(** ** A library of strings

   Concrete definitions that satisfy the laws. *)
Module Ref.

Fixpoint find_text (t s : bytes) : option nat :=
  if bool_decide (take (length t) s = t) then Some 0%nat
  else match s with [] => None | _ :: s => S <$> find_text t s end.

#[export] Instance search : StringSearch := {|
  indexOf := find_text; indexOfChar c s := fst <$> list_find (eq c) s;
  substring_from := drop; substring_to := take |}.

Lemma find_text_first c t a r : c ∉ a -> find_text (c :: t) (a ++ (c :: t) ++ r) = Some (length a).
Proof.
  induction a as [|x a IH]; intros Hc.
  - cbn [app]. unfold find_text. rewrite bool_decide_true; [done|].
    change (c :: t ++ r) with ((c :: t) ++ r). by rewrite take_app_length.
  - cbn [app find_text]. rewrite bool_decide_false by (simpl; set_solver).
    change (a ++ c :: t ++ r) with (a ++ (c :: t) ++ r). rewrite IH by set_solver. done.
Qed.

#[export] Instance search_laws : StringSearchLaws.
Proof.
  split; simpl.
  - intros. by apply (find_text_first c t a r).
  - intros c a b Hc. rewrite (proj2 (list_find_Some (eq c) (a ++ c :: b) (length a) c)); [done|].
    split_and!; [by apply list_lookup_middle|done|]. intros j y Hj Hlt ->. apply Hc.
    rewrite lookup_app_l in Hj by done. by eapply list_elem_of_lookup_2.
  - intros c a Hc. rewrite (proj2 (list_find_None (eq c) a)); [done|]. apply Forall_forall. by intros x Hx ->.
  - done.
  - done.
Qed.
End Ref.
