(* ===== verification/CimSerial.v ===== *)
(** * Binary serialisation

   src/src/common/OW_BinarySerialization.cpp and .hpp, and the signatures of
   src/src/cim/OW_CIMBase.cpp: how numbers, lengths, arrays and enumerations of
   objects are laid out in a stream.  A stream that is written accepts
   everything; one that is read may end too early.  Result handlers collect what
   they are given. *)

From S2P Require Import Prelude Blocxx.

Definition IOException : string := "IOException".
Definition BadCIMSignatureException : string := "BadCIMSignatureException".

(** ** Bytes and integers *)

(** [write(ostrm, dataOut, dataOutLen)] *)
Definition write (b : bytes) : Prog bytes () := fun s => (Ok (), s ++ b).

(** [read(istrm, dataIn, dataInLen)]: [sgetn] takes what there is. *)
Definition read (n : nat) : Prog bytes bytes := fun s =>
  if (n <=? length s)%nat then (Ok (take n s), drop n s) else (Throw IOException, []).

(** [hton] and [ntoh]: most significant byte first.  [n] is the [sizeof] of the
   type. *)
Definition be_enc (n : nat) (z : Z) : bytes := rev (le_enc n z).
Definition be_dec (b : bytes) : Z := le_dec (rev b).

Definition writeInt (n : nat) (val : Z) : Prog bytes () := write (be_enc n val).
Definition readUInt (n : nat) : Prog bytes Z := b ← read n; mret (be_dec b).
Definition readInt (n : nat) : Prog bytes Z := b ← read n; mret (swrap (8 * Z.of_nat n) (be_dec b)).

(** ** Lengths *)

(** The loop that fills [netlen] from its end: the bytes of [len], least
   significant last. *)
Fixpoint netlen (j : nat) (len : Z) (acc : bytes) : bytes :=
  match j with
  | O => acc
  | S j => netlen j (Z.shiftr len 8) (Z.land len 0xff :: acc)
  end.

Definition lenlen (len : Z) : nat :=
  if len <? Z.shiftl 1 8 then 1
  else if len <? Z.shiftl 1 16 then 2
  else if len <? Z.shiftl 1 24 then 3
  else 4.

Definition writeLen (len : Z) : Prog bytes () :=
  if len <? 128 then write [u8 len]
  else
    write [Z.lor (Z.of_nat (lenlen len)) 0x80] ;;
    write (netlen (lenlen len) len []).

Definition readLen : Prog bytes Z :=
  lc ← readUInt 1;
  if negb (Z.land lc 0x80 =? 0) then
    let noctets := Z.land lc 0x7f in
    if 4 <? noctets then throw IOException
    else
      b ← read (Z.to_nat noctets);
      mret (foldl (fun len x => u32 (Z.lor (Z.shiftl len 8) x)) 0 b)
  else mret lc.

(** ** Signatures *)

Definition verifySignature (validSig : Z) : Prog bytes () :=
  val ← readUInt 1;
  if val =? validSig then mret () else throw BadCIMSignatureException.

(** [CIMBase::readSig] and [writeSig]: a signature is one character. *)
Definition readSig (sig : Z) : Prog bytes () :=
  b ← read 1;
  if be_dec b =? sig then mret () else throw BadCIMSignatureException.

Definition readSigV (sig verSig maxVersion : Z) : Prog bytes Z :=
  b ← read 1;
  if be_dec b =? sig then mret 0
  else if be_dec b =? verSig then
    version ← readLen;
    if maxVersion <? version then throw BadCIMSignatureException else mret version
  else throw BadCIMSignatureException.

Definition writeSig (sig : Z) : Prog bytes () := write [sig].
Definition writeSigV (sig version : Z) : Prog bytes () := write [sig] ;; writeLen version.

(** ** Arrays *)

Fixpoint read_each {A} (n : nat) (r : Prog bytes A) : Prog bytes (list A) :=
  match n with
  | O => mret []
  | S n => x ← r; l ← read_each n r; mret (x :: l)
  end.

Fixpoint write_each {A} (w : A -> Prog bytes ()) (l : list A) : Prog bytes () :=
  match l with
  | [] => mret ()
  | x :: l => w x ;; write_each w l
  end.

Definition readArray {A} (r : Prog bytes A) : Prog bytes (list A) :=
  len ← readLen; read_each (Z.to_nat len) r.

(** The loop up to an index. *)
Fixpoint write_upto {A} (n : Z) (w : A -> Prog bytes ()) (l : list A) : Prog bytes () :=
  match l with
  | [] => mret ()
  | x :: l => if 0 <? n then w x ;; write_upto (n - 1) w l else mret ()
  end.

Definition writeArray {A} (w : A -> Prog bytes ()) (a : list A) : Prog bytes () :=
  let len := u32 (zlen a) in
  writeLen len ;; write_upto len w a.

(** ** Strings, booleans and property lists *)

Section Strings.
Context {bx : Blocxx}.

Definition BINSIG_BOOL : Z := 104.
Definition BINSIG_STR : Z := 106.
Definition BINSIG_STRARRAY : Z := 107.

Definition writeBool (arg : bool) : Prog bytes () := writeInt 1 BINSIG_BOOL ;; Bool_writeObject arg.
Definition readBool : Prog bytes bool := verifySignature BINSIG_BOOL ;; Bool_readObject.
Definition writeString (str : bytes) : Prog bytes () := writeInt 1 BINSIG_STR ;; String_writeObject str.
Definition readString : Prog bytes bytes := verifySignature BINSIG_STR ;; String_readObject.
Definition writeStringArray (stra : list bytes) : Prog bytes () :=
  writeInt 1 BINSIG_STRARRAY ;; writeArray String_writeObject stra.
Definition readStringArray : Prog bytes (list bytes) :=
  verifySignature BINSIG_STRARRAY ;; readArray String_readObject.

(** A property list may be absent (a null pointer). *)
Definition writePropertyList (propertyList : option (list bytes)) : Prog bytes () :=
  match propertyList with
  | None => writeBool true
  | Some l => writeBool false ;; writeStringArray l
  end.

Definition readPropertyList : Prog bytes (option (list bytes)) :=
  nullPropertyList ← readBool;
  if (nullPropertyList : bool) then mret None else l ← readStringArray; mret (Some l).
End Strings.

(** ** Enumerations *)

(** [readEnum]: objects are read until one has not the right signature, which
   is taken as the end of the enumeration; the byte that follows has to be the
   end signature. *)
Fixpoint enum_loop {A} (fuel : nat) (rd : Prog bytes A) (endsig : Z) : Prog bytes (list A) :=
  match fuel with
  | O => diverge
  | S fuel => fun s =>
      match rd s with
      | (Ok x, s) => (l ← enum_loop fuel rd endsig; mret (x :: l)) s
      | (Throw e, s) =>
          if bool_decide (e = BadCIMSignatureException) then (verifySignature endsig ;; mret []) s
          else (Throw e, s)
      | (Crash, s) => (Crash, s)
      | (Diverge, s) => (Diverge, s)
      end
  end.

Definition readEnum {A} (rd : Prog bytes A) (beginsig endsig : Z) : Prog bytes (list A) :=
  verifySignature beginsig ;; s ← get; enum_loop (S (length s)) rd endsig.

(** An enumeration as the request handlers write it: the objects one by one,
   then the end signature twice. *)
Definition writeEnum {A} (w : A -> Prog bytes ()) (beginsig endsig : Z) (l : list A) : Prog bytes () :=
  writeInt 1 beginsig ;; write_each w l ;; writeInt 1 endsig ;; writeInt 1 endsig.

(** ** Facts *)

#[local] Arguments le_enc !n z / : simpl nomatch.
#[local] Arguments le_dec !l / : simpl nomatch.

Lemma write_writes b : writes (write b) b.
Proof. done. Qed.

Lemma sgetn_reads b : reads (read (length b)) b b.
Proof.
  intros rest. unfold read. rewrite (proj2 (Nat.leb_le _ _)) by (rewrite length_app; lia).
  by rewrite take_app_length, drop_app_length.
Qed.

Lemma trip_write {A} b (r : Prog bytes A) x : reads r b x -> trip (write b) r x.
Proof. intros H. exists b. split; [apply write_writes|done]. Qed.

Lemma be_dec_enc n z : be_dec (be_enc n z) = uwrap (8 * Z.of_nat n) z.
Proof. unfold be_dec, be_enc. by rewrite rev_involutive, le_dec_enc. Qed.

Lemma length_be_enc n z : length (be_enc n z) = n.
Proof. unfold be_enc. by rewrite length_rev, length_le_enc. Qed.

Lemma UInt_trip n z : 0 <= z < 2 ^ (8 * Z.of_nat n) -> trip (writeInt n z) (readUInt n) z.
Proof.
  intros Hz. apply trip_write. intros rest. unfold readUInt, mbind, Prog_bind.
  rewrite <- (length_be_enc n z) at 1. rewrite sgetn_reads. cbn. by rewrite be_dec_enc, uwrap_id.
Qed.

Lemma Int_trip n z :
  (0 < n)%nat -> - 2 ^ (8 * Z.of_nat n - 1) <= z < 2 ^ (8 * Z.of_nat n - 1) -> trip (writeInt n z) (readInt n) z.
Proof.
  intros Hn Hz. apply trip_write. intros rest. unfold readInt, mbind, Prog_bind.
  rewrite <- (length_be_enc n z) at 1. rewrite sgetn_reads. cbn -[swrap Z.mul].
  rewrite be_dec_enc, swrap_uwrap by lia. rewrite swrap_id; [done|].
  replace (2 ^ (8 * Z.of_nat n)) with (2 * 2 ^ (8 * Z.of_nat n - 1)); [lia|].
  rewrite <- Z.pow_succ_r by lia. f_equal. lia.
Qed.

(** [netlen] is the big-endian encoding. *)
Lemma netlen_be j len acc : 0 <= len -> netlen j len acc = be_enc j len ++ acc.
Proof.
  unfold be_enc. revert len acc. induction j as [|j IH]; intros len acc Hl; [done|].
  change (le_enc (S j) len) with (u8 len :: le_enc j (len / 256)).
  cbn [netlen rev]. rewrite IH by (apply Z.shiftr_nonneg; lia).
  rewrite <- app_assoc. cbn [app]. rewrite Z.shiftr_div_pow2 by lia. change (2 ^ 8) with 256.
  repeat f_equal. unfold uwrap. change 0xff with (Z.ones 8). by rewrite Z.land_ones by lia.
Qed.

Lemma le_dec_app a b : le_dec (a ++ b) = le_dec a + 2 ^ (8 * Z.of_nat (length a)) * le_dec b.
Proof.
  induction a as [|x a IH]; [change (le_dec []) with 0; change (2 ^ (8 * Z.of_nat (length (@nil Z)))) with 1; cbn [app]; lia|].
  cbn [app le_dec length]. rewrite IH.
  replace (8 * Z.of_nat (S (length a))) with (8 + 8 * Z.of_nat (length a)) by lia.
  rewrite Z.pow_add_r by lia. change (2 ^ 8) with 256. lia.
Qed.

Lemma shift_or n x : 0 <= n -> is_byte x -> Z.lor (Z.shiftl n 8) x = n * 256 + x.
Proof.
  intros Hn Hx. rewrite Z.shiftl_mul_pow2 by lia. change (2 ^ 8) with 256.
  rewrite <- Z.lxor_lor; [symmetry; apply Z.add_nocarry_lxor|];
    apply Z.bits_inj'; intros i Hi; rewrite Z.land_spec, Z.bits_0; change 256 with (2 ^ 8);
    (destruct (Z.ltb_spec i 8); [by rewrite Z.mul_pow2_bits_low|]);
    rewrite (Z.bits_above_log2 x), andb_false_r; [done|..]; unfold is_byte in Hx; try lia;
    (destruct (Z.eq_dec x 0) as [->|]; [simpl; lia|]); apply Z.log2_lt_pow2; try lia;
    apply Z.lt_le_trans with (2 ^ 8); try lia; apply Z.pow_le_mono_r; lia.
Qed.

(** The loop of [readLen] reads a big-endian number of up to four bytes. *)
Lemma foldl_be b n :
  Forall is_byte b -> 0 <= n -> n * 2 ^ (8 * zlen b) + be_dec b < 2 ^ 32 ->
  foldl (fun len x => u32 (Z.lor (Z.shiftl len 8) x)) n b = n * 2 ^ (8 * zlen b) + be_dec b.
Proof.
  intros Hb. revert n. induction Hb as [|x b Hx Hb IH]; intros n Hn Hlt.
  { change (2 ^ (8 * zlen [])) with 1. change (be_dec []) with 0. cbn [foldl]. lia. }
  assert (be_dec (x :: b) = be_dec b + 2 ^ (8 * zlen b) * x) as E.
  { unfold be_dec. cbn [rev]. rewrite le_dec_app, length_rev. cbn [le_dec]. unfold zlen. lia. }
  rewrite E in *. rewrite zlen_cons in *.
  replace (8 * (1 + zlen b)) with (8 + 8 * zlen b) in * by lia. pose proof (zlen_nonneg b).
  rewrite Z.pow_add_r in * by lia. change (2 ^ 8) with 256 in *.
  assert (0 <= be_dec b).
  { unfold be_dec. apply le_dec_bound. apply Forall_rev. done. }
  assert (1 <= 2 ^ (8 * zlen b)) by (pose proof (Z.pow_pos_nonneg 2 (8 * zlen b)); lia).
  cbn [foldl]. rewrite shift_or by done. unfold is_byte in Hx.
  rewrite u32_id by (change 4294967296 with (2 ^ 32); nia).
  rewrite IH by lia. lia.
Qed.

Lemma be_enc_bytes n z : Forall is_byte (be_enc n z).
Proof. unfold be_enc. apply Forall_rev, le_enc_bytes. Qed.

Lemma lenlen_fits len : 128 <= len < 2 ^ 32 ->
  (1 <= lenlen len <= 4)%nat /\ len < 2 ^ (8 * Z.of_nat (lenlen len)).
Proof.
  intros Hl. unfold lenlen. change (Z.shiftl 1 8) with (2 ^ 8). change (Z.shiftl 1 16) with (2 ^ 16).
  change (Z.shiftl 1 24) with (2 ^ 24). destruct (Z.ltb_spec len (2 ^ 8)); [split; [lia|done]|].
  destruct (Z.ltb_spec len (2 ^ 16)); [split; [lia|done]|].
  destruct (Z.ltb_spec len (2 ^ 24)); [split; [lia|done]|]. split; [lia|apply Hl].
Qed.

Lemma be_dec_one x : be_dec [x] = x.
Proof. unfold be_dec. cbn. lia. Qed.

(** Reading one byte. *)
Lemma read_one {B} x rest (k : bytes -> Prog bytes B) : (read 1 ≫= k) (x :: rest) = k [x] rest.
Proof. done. Qed.

Lemma readUInt_one {B} x rest (k : Z -> Prog bytes B) : (readUInt 1 ≫= k) (x :: rest) = k x rest.
Proof. unfold readUInt, mbind, Prog_bind. cbn. by rewrite be_dec_one. Qed.

(** [readLen] undoes [writeLen] on 32-bit lengths. *)
Lemma Len_trip len : 0 <= len < 2 ^ 32 -> trip (writeLen len) readLen len.
Proof.
  intros Hl. unfold writeLen. destruct (Z.ltb_spec len 128) as [Hs|Hs].
  - apply trip_write. intros rest. unfold readLen. cbn [app]. rewrite readUInt_one.
    assert (u8 len = len) as -> by (apply uwrap_id; simpl; lia).
    assert (Z.land len 128 = 0) as E.
    { apply Z.bits_inj'. intros i Hi. rewrite Z.land_spec, Z.bits_0. change 128 with (2 ^ 7).
      rewrite Z.pow2_bits_eqb by lia. destruct (Z.eqb_spec 7 i) as [<-|]; [|by rewrite andb_false_r].
      assert (Z.testbit len 7 = false) as ->; [|done].
      apply Z.testbit_false; [lia|]. rewrite Z.div_small; [done|]. change (2 ^ 7) with 128. lia. }
    by rewrite E.
  - destruct (lenlen_fits len) as [Hk Hlen]; [lia|]. set (k := lenlen len) in *. clearbody k.
    exists (Z.lor (Z.of_nat k) 128 :: be_enc k len). split.
    { rewrite netlen_be, app_nil_r by lia. intros s. unfold mbind, Prog_bind, write. by rewrite <- app_assoc. }
    intros rest. unfold readLen. cbn [app]. rewrite readUInt_one.
    assert (Z.land (Z.lor (Z.of_nat k) 128) 128 =? 0 = false /\ Z.land (Z.lor (Z.of_nat k) 128) 127 = Z.of_nat k) as [E1 E2].
    { assert (k = 1 \/ k = 2 \/ k = 3 \/ k = 4)%nat as [->|[->|[->| ->]]] by lia; done. }
    rewrite E1, E2. cbn [negb].
    destruct (Z.ltb_spec 4 (Z.of_nat k)); [lia|]. rewrite Nat2Z.id.
    pose proof (sgetn_reads (be_enc k len) rest) as Hr. rewrite length_be_enc in Hr. unfold mbind, Prog_bind. rewrite Hr. cbn [mret Prog_ret].
    rewrite foldl_be; [|apply be_enc_bytes|lia|]; rewrite be_dec_enc, uwrap_id by lia; [done|lia].
Qed.

(** ** Round trips of the parts *)

Lemma sig_trip c : trip (writeSig c) (readSig c) ().
Proof. apply trip_write. intros rest. unfold readSig. cbn [app]. by rewrite read_one, be_dec_one, Z.eqb_refl. Qed.

(** The unversioned signature is version 0. *)
Lemma sig0_trip c cv maxv : trip (writeSig c) (readSigV c cv maxv) 0.
Proof. apply trip_write. intros rest. unfold readSigV. cbn [app]. by rewrite read_one, be_dec_one, Z.eqb_refl. Qed.

Lemma sigV_trip c0 c v maxv : c <> c0 -> 0 <= v <= maxv -> maxv < 2 ^ 32 -> trip (writeSigV c v) (readSigV c0 c maxv) v.
Proof.
  intros Hc Hv Hm. destruct (Len_trip v) as (b & Hw & Hr); [lia|]. exists ([c] ++ b).
  split; [by apply writes_bind|]. intros rest. unfold readSigV. cbn [app].
  rewrite read_one, be_dec_one, Z.eqb_refl, (proj2 (Z.eqb_neq c c0)) by done.
  unfold mbind, Prog_bind. rewrite Hr. by ztest.
Qed.

Lemma verify_trip c : is_byte c -> trip (writeInt 1 c) (verifySignature c) ().
Proof.
  intros Hc. destruct (UInt_trip 1 c) as (b & Hw & Hr); [exact Hc|]. exists b. split; [done|].
  intros rest. unfold verifySignature, mbind, Prog_bind. rewrite Hr. by rewrite Z.eqb_refl.
Qed.

Lemma each_trip {A} (w : A -> Prog bytes ()) (r : Prog bytes A) l :
  Forall (fun x => trip (w x) r x) l -> trip (write_each w l) (read_each (length l) r) l.
Proof.
  induction 1 as [|x l Hx _ IH]; [apply trip_ret|]. cbn [write_each read_each length].
  eapply trip_bind; [exact Hx|]. apply (trip_last _ _ (cons x)), IH.
Qed.

Lemma write_upto_all {A} (w : A -> Prog bytes ()) l : write_upto (zlen l) w l = write_each w l.
Proof.
  induction l as [|x l IH]; [done|]. cbn [write_upto write_each]. rewrite zlen_cons. pose proof (zlen_nonneg l). ztest.
  by replace (1 + zlen l - 1) with (zlen l) by lia; rewrite IH.
Qed.

Lemma array_trip {A} (w : A -> Prog bytes ()) (r : Prog bytes A) l :
  Forall (fun x => trip (w x) r x) l -> zlen l < 2 ^ 32 -> trip (writeArray w l) (readArray r) l.
Proof.
  intros Hl Hz. pose proof (zlen_nonneg l). unfold writeArray, readArray. rewrite (u32_id (zlen l)) by (split; [lia|exact Hz]).
  eapply trip_bind; [apply Len_trip; lia|]. rewrite write_upto_all.
  unfold zlen. rewrite Nat2Z.id. by apply each_trip.
Qed.

(** A value that may be absent: a flag, and the value. *)
Lemma option_trip {A B} (wf : bool -> Prog bytes ()) (rf : Prog bytes bool) (w : A -> Prog bytes ()) (r : Prog bytes A) (o : option A)
    w2 (k : option A -> Prog bytes B) y :
  (forall b, trip (wf b) rf b) -> (forall x, o = Some x -> trip (w x) r x) -> trip w2 (k o) y ->
  trip ((match o with Some x => wf true ;; w x | None => wf false end) ;; w2)
       (b ← rf; o ← (if (b : bool) then x ← r; mret (Some x) else mret None); k o) y.
Proof.
  intros Hf Ho Hk. destruct o as [x|].
  - destruct (Hf true) as (b1 & Hw1 & Hr1). destruct (Ho x eq_refl) as (b2 & Hw2 & Hr2). destruct Hk as (b3 & Hw3 & Hr3).
    exists ((b1 ++ b2) ++ b3). split; [by repeat apply writes_bind|]. intros rest.
    unfold mbind, Prog_bind. rewrite <- !app_assoc, Hr1, Hr2. apply Hr3.
  - destruct (Hf false) as (b1 & Hw1 & Hr1). destruct Hk as (b3 & Hw3 & Hr3). exists (b1 ++ b3).
    split; [by apply writes_bind|]. intros rest. unfold mbind, Prog_bind. rewrite <- !app_assoc, Hr1. apply Hr3.
Qed.

Section StringFacts.
Context {bx : Blocxx} {bl : BlocxxLaws}.

Lemma writeBool_trip b : trip (writeBool b) readBool b.
Proof. eapply trip_bind; [by apply verify_trip|apply Bool_trip]. Qed.

Lemma writeString_trip s : string_ok s -> trip (writeString s) readString s.
Proof. intros Hs. eapply trip_bind; [by apply verify_trip|by apply String_trip]. Qed.

Lemma strings_trip l : Forall string_ok l -> zlen l < 2 ^ 32 -> trip (writeArray String_writeObject l) (readArray String_readObject) l.
Proof. intros Hl Hz. apply array_trip; [|done]. eapply Forall_impl; [exact Hl|]. intros. by apply String_trip. Qed.

Lemma propertyList_trip l :
  match l with Some l => Forall string_ok l /\ zlen l < 2 ^ 32 | None => True end ->
  trip (writePropertyList l) readPropertyList l.
Proof.
  intros Hl. unfold writePropertyList, readPropertyList. destruct l as [l|].
  - eapply trip_bind; [apply writeBool_trip|]. destruct Hl. apply (trip_last _ _ Some).
    eapply trip_bind; [by apply verify_trip|by apply strings_trip].
  - destruct (writeBool_trip true) as (b & Hw & Hr). exists b. split; [done|]. intros rest.
    unfold mbind, Prog_bind. by rewrite Hr.
Qed.
End StringFacts.

(** ** Enumerations *)

(** The end of an enumeration is not the beginning of an object. *)
Definition ends {A} (r : Prog bytes A) (endsig : Z) : Prop :=
  forall rest, r (endsig :: rest) = (Throw BadCIMSignatureException, rest).

Lemma each_writes {A} (w : A -> Prog bytes ()) (r : Prog bytes A) endsig rest l :
  Forall (fun x => trip (w x) r x) l -> is_byte endsig -> ends r endsig ->
  exists b, writes (write_each w l) b /\
    forall fuel, (length l < fuel)%nat -> enum_loop fuel r endsig (b ++ endsig :: endsig :: rest) = (Ok l, rest).
Proof.
  intros Hl He Hend. induction Hl as [|x l (b & Hw & Hr) _ (b' & Hw' & IH)].
  - exists []. split; [intros s; by rewrite app_nil_r|]. intros [|fuel] Hf; [simpl in Hf; lia|].
    cbn [enum_loop app]. rewrite Hend, bool_decide_true by done. unfold verifySignature, mbind, Prog_bind.
    change (endsig :: rest) with ([endsig] ++ rest). destruct (UInt_trip 1 endsig) as (e & Hw & Hr); [exact He|].
    assert (e = [endsig]) as ->.
    { specialize (Hw []). unfold writeInt, write, be_enc in Hw. simpl in Hw. injection Hw as <-. rewrite uwrap_id; [done|exact He]. }
    rewrite Hr. by rewrite Z.eqb_refl.
  - exists (b ++ b'). split; [by apply writes_bind|]. intros [|fuel] Hf; [simpl in Hf; lia|]. simpl length in Hf.
    cbn [enum_loop]. rewrite <- app_assoc, Hr. unfold mbind, Prog_bind. rewrite IH by lia. done.
Qed.

Lemma each_length {A} (w : A -> Prog bytes ()) (r : Prog bytes A) l :
  Forall (fun x => trip (w x) r x) l -> (forall i, behaves 1 r i) ->
  exists b, writes (write_each w l) b /\ (length l <= length b)%nat.
Proof.
  intros Hl Hb. induction Hl as [|x l (c & Hw & Hr) _ (b & Hwb & IH)].
  { exists []. split; [intros s; by rewrite app_nil_r|simpl; lia]. }
  exists (c ++ b). split; [by apply writes_bind|].
  pose proof (Hb c) as H1. unfold behaves in H1. pose proof (Hr []) as H2. rewrite app_nil_r in H2. rewrite H2 in H1.
  rewrite length_app. simpl in *. lia.
Qed.

Lemma writes_unique m b b' : writes m b -> writes m b' -> b = b'.
Proof. intros H H'. specialize (H []). specialize (H' []). rewrite H in H'. by injection H'. Qed.

(** What the handlers write is read back, object by object. *)
Lemma enum_trip {A} (w : A -> Prog bytes ()) (r : Prog bytes A) beginsig endsig l :
  Forall (fun x => trip (w x) r x) l -> (forall i, behaves 1 r i) -> is_byte beginsig -> is_byte endsig -> ends r endsig ->
  trip (writeEnum w beginsig endsig l) (readEnum r beginsig endsig) l.
Proof.
  intros Hl Hb Hs He Hend. unfold writeEnum, readEnum. eapply trip_bind; [by apply verify_trip|].
  destruct (each_writes w r endsig [] l Hl He Hend) as (b & Hw & _).
  assert (writes (writeInt 1 endsig) [endsig]) as Hwe.
  { intros s. unfold writeInt, write, be_enc. simpl. rewrite uwrap_id; [done|exact He]. }
  exists (b ++ [endsig] ++ [endsig]). split; [by repeat apply writes_bind|]. intros rest.
  destruct (each_writes w r endsig rest l Hl He Hend) as (b2 & Hw2 & Hr).
  pose proof (writes_unique _ _ _ Hw2 Hw) as ->.
  unfold mbind, Prog_bind, get. rewrite <- !app_assoc. cbn [app]. apply Hr.
  destruct (each_length w r l Hl Hb) as (b' & Hw' & Hlen). pose proof (writes_unique _ _ _ Hw' Hw) as ->.
  rewrite length_app. simpl. lia.
Qed.
