(* ===== verification/CimData.v ===== *)
(** * The CIM objects and their binary form

   The data of src/src/cim: data types (OW_CIMDataType.cpp), namespaces with
   their URL (OW_CIMNameSpace.cpp, OW_CIMUrl.cpp), date-times, qualifier types,
   qualifiers, properties, parameters, methods, classes, instances, object paths
   and values (OW_CIMValue.cpp), with [readObject] and [writeObject] of each.

   An object of one of these classes is a reference to its data or null, an
   [option] here; using the data of a null object is undefined behaviour.  All
   recursion goes through values: a value may hold object paths, classes and
   instances, which hold properties and qualifiers, which hold values.  The types
   and functions below are therefore parametrised by the type of values and by
   the functions that write and read one; the knot is tied at the end. *)

From S2P Require Import Prelude Blocxx CimSerial.

(** [m_pdata->...] *)
Definition deref {S A} (o : option A) : Prog S A := match o with Some x => mret x | None => crash end.

(** ** Data types *)

Module CIMDataType.
Definition SIZE_SINGLE : Z := 0.
Definition SIZE_UNLIMITED : Z := 1.
Definition SIZE_LIMITED : Z := 2.
Definition CIMNULL : Z := 0.
Definition UINT8 : Z := 1.
Definition SINT8 : Z := 2.
Definition UINT16 : Z := 3.
Definition SINT16 : Z := 4.
Definition UINT32 : Z := 5.
Definition SINT32 : Z := 6.
Definition UINT64 : Z := 7.
Definition SINT64 : Z := 8.
Definition STRING : Z := 9.
Definition BOOLEAN : Z := 10.
Definition REAL32 : Z := 11.
Definition REAL64 : Z := 12.
Definition DATETIME : Z := 13.
Definition CHAR16 : Z := 14.
Definition REFERENCE : Z := 15.
Definition EMBEDDEDCLASS : Z := 16.
Definition EMBEDDEDINSTANCE : Z := 17.
Definition MAXDATATYPE : Z := 18.
Definition INVALID : Z := 99.
End CIMDataType.
Import CIMDataType.

Record DTData := mkDT {
  m_type : Z;
  m_numberOfElements : Z;      (* Int32 *)
  m_sizeRange : Z;             (* Int32 *)
  m_reference : bytes;         (* CIMName *)
}.
Abbreviation CIMDataType_ := (option DTData).

(** ** URLs *)

Record URLData := mkURL {
  m_spec : bytes;
  m_protocol : bytes;
  m_host : bytes;
  m_port : Z;
  m_file : bytes;
  m_ref : bytes;
  m_localHost : bool;
}.
Abbreviation CIMUrl := (option URLData).

Definition newURLData : URLData := mkURL [] [] [] 0 [] [] true.

Section Url.
Context {ss : StringSearch} {sc : StringConv}.

Definition setLocalHost (d : URLData) : URLData :=
  let host := trim (m_host d) in
  if bool_decide (host = []) || bool_decide (host = txt "127.0.0.1") || equalsIgnoreCase host (txt "localhost") then
    mkURL (m_spec d) (m_protocol d) (txt "127.0.0.1") (m_port d) (m_file d) (m_ref d) true
  else mkURL (m_spec d) (m_protocol d) host (m_port d) (m_file d) (m_ref d) false.

Definition buildSpec (d : URLData) : URLData :=
  let tmp := m_protocol d ++ txt "://" ++ m_host d in
  let tmp := if 0 <? m_port d then tmp ++ txt ":" ++ String_of_Int32 (m_port d) else tmp in
  let tmp := if bool_decide (m_file d = []) then tmp else tmp ++ txt "/" ++ m_file d in
  let tmp := if bool_decide (m_ref d = []) then tmp else tmp ++ txt "#" ++ m_ref d in
  mkURL tmp (m_protocol d) (m_host d) (m_port d) (m_file d) (m_ref d) (m_localHost d).

Definition setDefaultValues (d : URLData) : URLData :=
  let protocol := trim (m_protocol d) in
  let protocol := if bool_decide (protocol = []) then txt "http" else protocol in
  let d := setLocalHost (mkURL (m_spec d) protocol (m_host d) (m_port d) (m_file d) (m_ref d) (m_localHost d)) in
  let port := if m_port d <=? 0 then 5988 else m_port d in
  let file := trim (m_file d) in
  let '(file, ref) := if bool_decide (file = []) then (txt "cimom", []) else (file, m_ref d) in
  buildSpec (mkURL (m_spec d) (m_protocol d) (m_host d) port file ref (m_localHost d)).

Definition checkRef (d : URLData) : URLData :=
  if bool_decide (m_file d = []) then d
  else match indexOfChar 35 (m_file d) with
       | Some ndx => mkURL (m_spec d) (m_protocol d) (m_host d) (m_port d)
                       (substring_to ndx (m_file d)) (substring_from (ndx + 1) (m_file d)) (m_localHost d)
       | None => d
       end.

Definition setComponents (d : URLData) : URLData :=
  if bool_decide (m_spec d = []) then d
  else
    let spec := m_spec d in
    let '(protocol, spec) := match indexOf (txt "://") spec with
      | Some ndx => (substring_to ndx spec, substring_from (ndx + 3) spec)
      | None => ([], spec)
      end in
    let spec := match indexOfChar 64 spec with Some ndx => substring_from (ndx + 1) spec | None => spec end in
    let d := match indexOfChar 47 spec with
      | Some ndx => checkRef (mkURL (m_spec d) protocol (substring_to ndx spec) 0 (substring_from (ndx + 1) spec) [] true)
      | None => mkURL (m_spec d) protocol (substring_from 0 spec) 0 [] [] true
      end in
    let d := match indexOfChar 58 (m_host d) with
      | Some ndx =>
          let port := default 5988 (toInt32 (substring_from (ndx + 1) (m_host d))) in
          mkURL (m_spec d) (m_protocol d) (substring_to ndx (m_host d)) port (m_file d) (m_ref d) (m_localHost d)
      | None => d
      end in
    setDefaultValues (checkRef d).

(** The constructors [CIMUrl()], [CIMUrl(spec)] and
   [CIMUrl(protocol, host, file, port)]. *)
Definition CIMUrl_default : CIMUrl := Some (setDefaultValues newURLData).
Definition CIMUrl_spec (spec : bytes) : CIMUrl := Some (setComponents (mkURL spec [] [] 0 [] [] true)).
Definition CIMUrl_parts (protocol host file : bytes) (port : Z) : CIMUrl :=
  Some (setDefaultValues (mkURL [] protocol host port file [] true)).
End Url.

(** ** Namespaces and date-times *)

Record NSData := mkNS { m_nameSpace : bytes; m_url : CIMUrl }.
Abbreviation CIMNameSpace := (option NSData).

Record DateTimeData := mkDateTime {
  m_year : Z;           (* UInt16 *)
  m_month : Z;          (* UInt8 *)
  m_days : Z;           (* UInt32 *)
  m_hours : Z;          (* UInt8 *)
  m_minutes : Z;        (* UInt8 *)
  m_seconds : Z;        (* UInt8 *)
  m_microSeconds : Z;   (* UInt32 *)
  m_utc : Z;            (* Int16 *)
  m_isInterval : Z;     (* UInt8 *)
}.
Abbreviation CIMDateTime := (option DateTimeData).

(** ** Objects with values of type [V] inside *)

Record QUALTData (V : Type) := mkQualT {
  cqt_name : bytes;
  cqt_dataType : CIMDataType_;
  cqt_scope : list Z;
  cqt_flavor : list Z;
  cqt_defaultValue : option V;
}.
Arguments mkQualT {V}. Arguments cqt_name {V}. Arguments cqt_dataType {V}. Arguments cqt_scope {V}.
Arguments cqt_flavor {V}. Arguments cqt_defaultValue {V}.

Record QUALData (V : Type) := mkQual {
  cq_name : bytes;
  cq_qualifierValue : option V;
  cq_qualifierType : option (QUALTData V);
  cq_propagated : bool;
  cq_flavors : list Z;
  cq_language : bytes;
}.
Arguments mkQual {V}. Arguments cq_name {V}. Arguments cq_qualifierValue {V}. Arguments cq_qualifierType {V}.
Arguments cq_propagated {V}. Arguments cq_flavors {V}. Arguments cq_language {V}.

Record PROPData (V : Type) := mkProp {
  p_name : bytes;
  p_qualifiers : list (option (QUALData V));
  p_propertyDataType : CIMDataType_;
  p_sizeDataType : Z;          (* Int32 *)
  p_override : bytes;
  p_originClass : bytes;
  p_cimValue : option V;
  p_propagated : bool;
}.
Arguments mkProp {V}. Arguments p_name {V}. Arguments p_qualifiers {V}. Arguments p_propertyDataType {V}.
Arguments p_sizeDataType {V}. Arguments p_override {V}. Arguments p_originClass {V}. Arguments p_cimValue {V}.
Arguments p_propagated {V}.

Record PARMData (V : Type) := mkParm {
  prm_name : bytes;
  prm_dataType : CIMDataType_;
  prm_qualifiers : list (option (QUALData V));
}.
Arguments mkParm {V}. Arguments prm_name {V}. Arguments prm_dataType {V}. Arguments prm_qualifiers {V}.

Record METHData (V : Type) := mkMeth {
  mt_name : bytes;
  mt_returnDatatype : CIMDataType_;
  mt_qualifiers : list (option (QUALData V));
  mt_parameters : list (option (PARMData V));
  mt_originClass : bytes;
  mt_override : bytes;
  mt_propagated : bool;
}.
Arguments mkMeth {V}. Arguments mt_name {V}. Arguments mt_returnDatatype {V}. Arguments mt_qualifiers {V}.
Arguments mt_parameters {V}. Arguments mt_originClass {V}. Arguments mt_override {V}. Arguments mt_propagated {V}.

Record CLSData (V : Type) := mkCls {
  cc_name : bytes;
  cc_parentClassName : bytes;
  cc_qualifiers : list (option (QUALData V));
  cc_properties : list (option (PROPData V));
  cc_methods : list (option (METHData V));
  cc_associationFlag : bool;
  cc_isKeyed : bool;
}.
Arguments mkCls {V}. Arguments cc_name {V}. Arguments cc_parentClassName {V}. Arguments cc_qualifiers {V}.
Arguments cc_properties {V}. Arguments cc_methods {V}. Arguments cc_associationFlag {V}. Arguments cc_isKeyed {V}.

Record INSTData (V : Type) := mkInst {
  ci_namespace : bytes;
  ci_owningClassName : bytes;
  ci_keys : list (option (PROPData V));
  ci_properties : list (option (PROPData V));
  ci_qualifiers : list (option (QUALData V));
  ci_language : bytes;
}.
Arguments mkInst {V}. Arguments ci_namespace {V}. Arguments ci_owningClassName {V}. Arguments ci_keys {V}.
Arguments ci_properties {V}. Arguments ci_qualifiers {V}. Arguments ci_language {V}.

Record OPData (V : Type) := mkOP {
  op_nameSpace : CIMNameSpace;
  op_objectName : bytes;
  op_keys : list (option (PROPData V));
}.
Arguments mkOP {V}. Arguments op_nameSpace {V}. Arguments op_objectName {V}. Arguments op_keys {V}.

(** The union of [CIMValueImpl], by what is in it.  [V_none] is a union nothing
   has been put in. *)
Inductive CIMValueData `{bx : Blocxx} (V : Type) :=
| V_int (x : Z)                            (* BOOLEAN and the integer types *)
| V_ints (l : list Z)
| V_char16 (c : Z)
| V_char16s (l : list Z)
| V_real32 (r : Real32)
| V_real32s (l : list Real32)
| V_real64 (r : Real64)
| V_real64s (l : list Real64)
| V_string (s : bytes)
| V_strings (l : list bytes)
| V_datetime (d : CIMDateTime)
| V_datetimes (l : list CIMDateTime)
| V_ref (o : option (OPData V))
| V_refs (l : list (option (OPData V)))
| V_class (o : option (CLSData V))
| V_classes (l : list (option (CLSData V)))
| V_inst (o : option (INSTData V))
| V_insts (l : list (option (INSTData V)))
| V_none.
Arguments V_int {bx V}. Arguments V_ints {bx V}. Arguments V_char16 {bx V}. Arguments V_char16s {bx V}.
Arguments V_real32 {bx V}. Arguments V_real32s {bx V}. Arguments V_real64 {bx V}. Arguments V_real64s {bx V}.
Arguments V_string {bx V}. Arguments V_strings {bx V}. Arguments V_datetime {bx V}. Arguments V_datetimes {bx V}.
Arguments V_ref {bx V}. Arguments V_refs {bx V}. Arguments V_class {bx V}. Arguments V_classes {bx V}.
Arguments V_inst {bx V}. Arguments V_insts {bx V}. Arguments V_none {bx V}.

(** [CIMValueImpl]: the type, the flag and the union. *)
Inductive CIMValueImpl `{bx : Blocxx} : Type :=
| mkValue (v_type : Z) (v_isArray : bool) (v_obj : CIMValueData CIMValueImpl).

(** ** Replacing the values inside an object

   [..._map f] applies [f] to every value that an object holds; a function that
   is defined by recursion over values is defined with it. *)

Section Map.
Context `{bx : Blocxx} {V W : Type} (f : V -> W).

Definition qualt_map (d : QUALTData V) : QUALTData W :=
  match d with mkQualT n t s fl v => mkQualT n t s fl (option_map f v) end.

Definition qual_map (d : QUALData V) : QUALData W :=
  match d with mkQual n v t p fl l => mkQual n (option_map f v) (option_map qualt_map t) p fl l end.

Definition quals_map : list (option (QUALData V)) -> list (option (QUALData W)) := map (option_map qual_map).

Definition prop_map (d : PROPData V) : PROPData W :=
  match d with mkProp n q t s o c v p => mkProp n (quals_map q) t s o c (option_map f v) p end.

Definition props_map : list (option (PROPData V)) -> list (option (PROPData W)) := map (option_map prop_map).

Definition parm_map (d : PARMData V) : PARMData W :=
  match d with mkParm n t q => mkParm n t (quals_map q) end.

Definition meth_map (d : METHData V) : METHData W :=
  match d with mkMeth n t q ps c o p => mkMeth n t (quals_map q) (map (option_map parm_map) ps) c o p end.

Definition cls_map (d : CLSData V) : CLSData W :=
  match d with mkCls n p q ps ms a k => mkCls n p (quals_map q) (props_map ps) (map (option_map meth_map) ms) a k end.

Definition inst_map (d : INSTData V) : INSTData W :=
  match d with mkInst n c ks ps q l => mkInst n c (props_map ks) (props_map ps) (quals_map q) l end.

Definition op_map (d : OPData V) : OPData W :=
  match d with mkOP n o ks => mkOP n o (props_map ks) end.

Definition data_map (d : CIMValueData V) : CIMValueData W :=
  match d with
  | V_int x => V_int x | V_ints l => V_ints l
  | V_char16 c => V_char16 c | V_char16s l => V_char16s l
  | V_real32 r => V_real32 r | V_real32s l => V_real32s l
  | V_real64 r => V_real64 r | V_real64s l => V_real64s l
  | V_string s => V_string s | V_strings l => V_strings l
  | V_datetime x => V_datetime x | V_datetimes l => V_datetimes l
  | V_ref o => V_ref (option_map op_map o) | V_refs l => V_refs (map (option_map op_map) l)
  | V_class o => V_class (option_map cls_map o) | V_classes l => V_classes (map (option_map cls_map) l)
  | V_inst o => V_inst (option_map inst_map o) | V_insts l => V_insts (map (option_map inst_map) l)
  | V_none => V_none
  end.
End Map.

(** The values that an object holds. *)
Section ValuesOf.
Context `{bx : Blocxx} {V : Type}.

Definition of_opt {A} (g : A -> list V) (o : option A) : list V := match o with Some x => g x | None => [] end.
Definition of_list {A} (g : A -> list V) (l : list (option A)) : list V := concat (map (of_opt g) l).

Definition qualt_values (d : QUALTData V) : list V := option_list (cqt_defaultValue d).
Definition qual_values (d : QUALData V) : list V :=
  option_list (cq_qualifierValue d) ++ of_opt qualt_values (cq_qualifierType d).
Definition prop_values (d : PROPData V) : list V := of_list qual_values (p_qualifiers d) ++ option_list (p_cimValue d).
Definition parm_values (d : PARMData V) : list V := of_list qual_values (prm_qualifiers d).
Definition meth_values (d : METHData V) : list V :=
  of_list qual_values (mt_qualifiers d) ++ of_list parm_values (mt_parameters d).
Definition cls_values (d : CLSData V) : list V :=
  of_list qual_values (cc_qualifiers d) ++ of_list prop_values (cc_properties d) ++ of_list meth_values (cc_methods d).
Definition inst_values (d : INSTData V) : list V :=
  of_list prop_values (ci_keys d) ++ of_list prop_values (ci_properties d) ++ of_list qual_values (ci_qualifiers d).
Definition op_values (d : OPData V) : list V := of_list prop_values (op_keys d).

Definition data_values (d : CIMValueData V) : list V :=
  match d with
  | V_ref o => of_opt op_values o | V_refs l => of_list op_values l
  | V_class o => of_opt cls_values o | V_classes l => of_list cls_values l
  | V_inst o => of_opt inst_values o | V_insts l => of_list inst_values l
  | _ => []
  end.
End ValuesOf.

(** The number of values in a value. *)
Fixpoint vsize `{bx : Blocxx} (v : CIMValueImpl) : nat :=
  match v with mkValue _ _ d => S (sum_list (data_values (data_map vsize d))) end.

(** [..._map] applies the function to the values in order. *)
Section MapValues.
Context `{bx : Blocxx} {V W : Type} (f : V -> W).

Lemma of_opt_map {A B} (g : A -> list V) (g' : B -> list W) (m : A -> B) o :
  (forall x, g' (m x) = map f (g x)) -> of_opt g' (option_map m o) = map f (of_opt g o).
Proof. intros H. destruct o; simpl; [apply H|done]. Qed.

Lemma of_list_map {A B} (g : A -> list V) (g' : B -> list W) (m : A -> B) l :
  (forall x, g' (m x) = map f (g x)) -> of_list g' (map (option_map m) l) = map f (of_list g l).
Proof.
  intros H. unfold of_list. induction l as [|o l IH]; [done|]. cbn [map concat].
  by rewrite map_app, <- IH, (of_opt_map g g' m o H).
Qed.

Lemma option_list_map (o : option V) : option_list (option_map f o) = map f (option_list o).
Proof. by destruct o. Qed.

Lemma qualt_values_map d : qualt_values (qualt_map f d) = map f (qualt_values d).
Proof. destruct d. apply option_list_map. Qed.

Lemma qual_values_map d : qual_values (qual_map f d) = map f (qual_values d).
Proof.
  destruct d. unfold qual_values. simpl. rewrite map_app. f_equal; [apply option_list_map|apply of_opt_map, qualt_values_map].
Qed.

Lemma quals_values_map l : of_list qual_values (quals_map f l) = map f (of_list qual_values l).
Proof. apply of_list_map, qual_values_map. Qed.

Lemma prop_values_map d : prop_values (prop_map f d) = map f (prop_values d).
Proof.
  destruct d. unfold prop_values. simpl. rewrite map_app. f_equal; [apply quals_values_map|apply option_list_map].
Qed.

Lemma props_values_map l : of_list prop_values (props_map f l) = map f (of_list prop_values l).
Proof. apply of_list_map, prop_values_map. Qed.

Lemma parm_values_map d : parm_values (parm_map f d) = map f (parm_values d).
Proof. destruct d. apply quals_values_map. Qed.

Lemma meth_values_map d : meth_values (meth_map f d) = map f (meth_values d).
Proof.
  destruct d. unfold meth_values. simpl. rewrite map_app. f_equal; [apply quals_values_map|apply of_list_map, parm_values_map].
Qed.

Lemma cls_values_map d : cls_values (cls_map f d) = map f (cls_values d).
Proof.
  destruct d. unfold cls_values. simpl. rewrite !map_app.
  f_equal; [apply quals_values_map|]. f_equal; [apply props_values_map|apply of_list_map, meth_values_map].
Qed.

Lemma inst_values_map d : inst_values (inst_map f d) = map f (inst_values d).
Proof.
  destruct d. unfold inst_values. simpl. rewrite !map_app.
  f_equal; [apply props_values_map|]. f_equal; [apply props_values_map|apply quals_values_map].
Qed.

Lemma op_values_map d : op_values (op_map f d) = map f (op_values d).
Proof. destruct d. apply props_values_map. Qed.

Lemma data_values_map d : data_values (data_map f d) = map f (data_values d).
Proof.
  destruct d; simpl; try done; (apply of_opt_map || apply of_list_map); intros;
    apply op_values_map || apply cls_values_map || apply inst_values_map.
Qed.
End MapValues.

(** A value is larger than the values inside it: induction over values. *)
Lemma vsize_inside `{bx : Blocxx} t a d x : x ∈ data_values d -> (vsize x < vsize (mkValue t a d))%nat.
Proof.
  intros Hx. cbn [vsize]. rewrite data_values_map.
  assert (vsize x <= sum_list (map vsize (data_values d)))%nat; [|lia].
  induction Hx as [x l|x y l _ IH]; simpl; lia.
Qed.

Lemma value_ind `{bx : Blocxx} (P : CIMValueImpl -> Prop) :
  (forall t a d, (forall x, x ∈ data_values d -> P x) -> P (mkValue t a d)) -> forall v, P v.
Proof.
  intros H v. induction (Nat.lt_wf_0_projected vsize v) as [v _ IH]. destruct v as [t a d].
  apply H. intros x Hx. apply IH. by apply vsize_inside.
Qed.
