(* ===== verification/CimDateTime.v ===== *)
(** * Date-times as text and in order

   [CIMDateTime] (src/src/cim/OW_CIMDateTime.cpp): its text form, the
   constructor from microseconds and the comparison.  [sprintf] writes into a
   buffer of 30 bytes; more than that is undefined behaviour, as are an [atoi] of
   a number that is no [int], an overflow of [int] and an index outside of an
   array. *)

From S2P Require Import Prelude Blocxx CimData.

(** ** Decimal numbers *)

(** The digits of a number that is not negative; 20 are enough for 64 bits. *)
Fixpoint dec_loop (fuel : nat) (z : Z) (acc : bytes) : bytes :=
  let acc := (48 + z mod 10) :: acc in
  match fuel with
  | O => acc
  | S fuel => if z / 10 =? 0 then acc else dec_loop fuel (z / 10) acc
  end.

Definition dec (z : Z) : bytes := dec_loop 20 z [].

(** [%0<n>u] and [%+0<n>d]. *)
Definition fmt_u (n : nat) (z : Z) : bytes := let d := dec z in replicate (n - length d) 48 ++ d.
Definition fmt_plus_d (n : nat) (z : Z) : bytes :=
  let d := dec (Z.abs z) in
  (if z <? 0 then 45 else 43) :: replicate (n - 1 - length d) 48 ++ d.

Definition is_digit (c : Z) : bool := (48 <=? c) && (c <=? 57).
Definition isspace (c : Z) : bool := (c =? 32) || ((9 <=? c) && (c <=? 13)).

Fixpoint digits (s : bytes) (acc : Z) : Z :=
  match s with
  | c :: s => if is_digit c then digits s (acc * 10 + (c - 48)) else acc
  | [] => acc
  end.

Fixpoint skip_spaces (s : bytes) : bytes :=
  match s with
  | c :: s' => if isspace c then skip_spaces s' else s
  | [] => []
  end.

(** [atoi] of a C string (the text up to its NUL). *)
Definition atoi (s : bytes) : outcome Z :=
  let v := match skip_spaces s with
           | c :: r => if c =? 45 then - digits r 0 else if c =? 43 then digits r 0 else digits (c :: r) 0
           | [] => 0
           end in
  if (- 2 ^ 31 <=? v) && (v <? 2 ^ 31) then Ok v else Crash.

(** ** Text *)

Definition isInterval (d : DateTimeData) : bool := negb (m_isInterval d =? 0).

Definition toString (d : DateTimeData) : outcome bytes :=
  let bfr :=
    if isInterval d then
      fmt_u 8 (m_days d) ++ fmt_u 2 (m_hours d) ++ fmt_u 2 (m_minutes d) ++ fmt_u 2 (m_seconds d) ++ [46] ++
      fmt_u 6 (m_microSeconds d) ++ txt ":000"
    else
      fmt_u 4 (m_year d) ++ fmt_u 2 (m_month d) ++ fmt_u 2 (m_days d) ++ fmt_u 2 (m_hours d) ++
      fmt_u 2 (m_minutes d) ++ fmt_u 2 (m_seconds d) ++ [46] ++ fmt_u 6 (m_microSeconds d) ++ fmt_plus_d 4 (m_utc d) in
  if zlen bfr <? 30 then Ok bfr else Crash.

Definition newDateTimeData : DateTimeData := mkDateTime 0 0 0 0 0 0 0 0 1.

(** [strncpy(bfr, str, 35); bfr[34] = 0] *)
Definition strncpy35 (str : bytes) : bytes := take 34 (str ++ replicate 35 0) ++ [0].

(** A C string inside the buffer. *)
Fixpoint c_str (s : bytes) : bytes :=
  match s with
  | c :: s => if c =? 0 then [] else c :: c_str s
  | [] => []
  end.

Definition atoi_at (k : nat) (bfr : bytes) : outcome Z := atoi (c_str (drop k bfr)).

Definition CIMDateTimeException : string := "CIMDateTimeException: Invalid format for date time".

Definition fillDateTimeData (data : DateTimeData) (str : bytes) : outcome DateTimeData :=
  if bool_decide (c_str str = []) then Ok data
  else
    let bfr := strncpy35 (c_str str) in
    let c := nth 21 bfr 0 in
    if c =? 58 then
      let bfr := <[21%nat := 0]> bfr in
      microSeconds ← atoi_at 15 bfr;
      let bfr := <[14%nat := 0]> bfr in
      seconds ← atoi_at 12 bfr;
      let bfr := <[12%nat := 0]> bfr in
      minutes ← atoi_at 10 bfr;
      let bfr := <[10%nat := 0]> bfr in
      hours ← atoi_at 8 bfr;
      let bfr := <[8%nat := 0]> bfr in
      days ← atoi_at 0 bfr;
      mret (mkDateTime (m_year data) (m_month data) (u32 days) (u8 hours) (u8 minutes) (u8 seconds) (u32 microSeconds)
              (m_utc data) 1)
    else if (c =? 43) || (c =? 45) then
      utc ← atoi_at 21 bfr;
      let bfr := <[21%nat := 0]> bfr in
      microSeconds ← atoi_at 15 bfr;
      let bfr := <[14%nat := 0]> bfr in
      seconds ← atoi_at 12 bfr;
      let bfr := <[12%nat := 0]> bfr in
      minutes ← atoi_at 10 bfr;
      let bfr := <[10%nat := 0]> bfr in
      hours ← atoi_at 8 bfr;
      let bfr := <[8%nat := 0]> bfr in
      days ← atoi_at 6 bfr;
      let bfr := <[6%nat := 0]> bfr in
      month ← atoi_at 4 bfr;
      let bfr := <[4%nat := 0]> bfr in
      year ← atoi_at 0 bfr;
      mret (mkDateTime (uwrap 16 year) (u8 month) (u32 days) (u8 hours) (u8 minutes) (u8 seconds) (u32 microSeconds)
              (swrap 16 utc) 0)
    else Throw CIMDateTimeException.

(** [CIMDateTime(const String&)] *)
Definition CIMDateTime_ofString (arg : bytes) : outcome DateTimeData := fillDateTimeData newDateTimeData arg.

(** ** Microseconds *)

(** [CIMDateTime(UInt64 microSeconds)]: the products are 32-bit. *)
Definition CIMDateTime_ofMicroSeconds (microSeconds : Z) : DateTimeData :=
  let secs := u32 (microSeconds / 1000000) in
  let microSeconds := uwrap 64 (microSeconds - u32 (secs * 1000000)) in
  let minutes := u32 (secs / 60) in
  let secs := u32 (secs - u32 (minutes * 60)) in
  let hours := u32 (minutes / 60) in
  let minutes := u32 (minutes - u32 (hours * 60)) in
  let days := u32 (hours / 24) in
  let hours := u32 (hours - u32 (days * 24)) in
  mkDateTime 0 0 days (u8 hours) (u8 minutes) (u8 secs) (u32 microSeconds) 0 1.

(** ** Order *)

Definition isLeap (year : Z) : bool := (year mod 4 =? 0) && (negb (year mod 100 =? 0) || (year mod 400 =? 0)).

Definition monthYearDay (leap : bool) : list Z :=
  if leap then [0; 31; 60; 91; 121; 152; 182; 213; 244; 274; 305; 335; 366]
  else [0; 31; 59; 90; 120; 151; 181; 212; 243; 273; 304; 334; 365].

(** The result of an operation on [int]s. *)
Definition int32 (z : Z) : outcome Z := if (- 2 ^ 31 <=? z) && (z <? 2 ^ 31) then Ok z else Crash.

Definition getMagnitude (dt : DateTimeData) : outcome Z :=
  if 12 <? m_month dt then Ok 0
  else
    first ← present (if m_month dt - 1 <? 0 then None else monthYearDay (isLeap (m_year dt)) !! Z.to_nat (m_month dt - 1));
    let dayOfYear := s32 (first + m_days dt - 1) in
    days ← int32 (366 * (m_year dt - 1970) + dayOfYear);
    hours ← int32 (24 * days);
    hours ← int32 (m_hours dt + hours);
    mret (m_seconds dt + 60 * (m_minutes dt + m_utc dt) + 3600 * hours).

(** [blocxx::StrictWeakOrdering] compares pair after pair. *)
Fixpoint StrictWeakOrdering (l : list (Z * Z)) : bool :=
  match l with
  | [] => false
  | (x, y) :: l => (x <? y) || ((x =? y) && StrictWeakOrdering l)
  end.

(** [operator<] *)
Definition datetime_lt (x y : DateTimeData) : outcome bool :=
  if xorb (isInterval x) (isInterval y) then Ok (isInterval x)
  else if isInterval x then
    Ok (StrictWeakOrdering [(m_days x, m_days y); (m_hours x, m_hours y); (m_minutes x, m_minutes y);
          (m_seconds x, m_seconds y); (m_microSeconds x, m_microSeconds y)])
  else
    mx ← getMagnitude x; my ← getMagnitude y;
    mret (StrictWeakOrdering [(mx, my); (m_microSeconds x, m_microSeconds y)]).

Example ex_text : (toString (mkDateTime 2005 4 17 9 5 0 120 60 0) ≫= CIMDateTime_ofString) = Ok (mkDateTime 2005 4 17 9 5 0 120 60 0).
Proof. vm_compute. reflexivity. Qed.
Example ex_interval : (toString (CIMDateTime_ofMicroSeconds 90061000001) ≫= CIMDateTime_ofString) = Ok (mkDateTime 0 0 1 1 1 1 1 0 1).
Proof. vm_compute. reflexivity. Qed.

(** * Date-times: text, intervals and order *)

(** ** Decimal digits *)

(** Exactly [n] digits. *)
Fixpoint dfix (n : nat) (z : Z) : bytes :=
  match n with
  | O => []
  | S n => dfix n (z / 10) ++ [48 + z mod 10]
  end.

Lemma length_dfix n z : length (dfix n z) = n.
Proof. revert z. induction n as [|n IH]; intros z; [done|]. simpl. rewrite length_app, IH. simpl. lia. Qed.

Lemma dfix_zero n : dfix n 0 = replicate n 48.
Proof.
  induction n as [|n IH]; [done|]. simpl dfix. rewrite Z.div_0_l, IH by lia.
  by rewrite replicate_S_end.
Qed.

Lemma pow10_S n : 10 ^ Z.of_nat (S n) = 10 * 10 ^ Z.of_nat n.
Proof. rewrite Nat2Z.inj_succ, Z.pow_succ_r by lia. done. Qed.

Lemma dec_loop_acc fuel z acc : dec_loop fuel z acc = dec_loop fuel z [] ++ acc.
Proof.
  revert z acc. induction fuel as [|fuel IH]; intros z acc; [done|]. cbn [dec_loop].
  destruct (z / 10 =? 0); [done|]. rewrite IH, (IH _ [_]), <- app_assoc. done.
Qed.

Lemma fmt_dfix n : forall z fuel, 0 <= z < 10 ^ Z.of_nat n -> (0 < n <= S fuel)%nat ->
  replicate (n - length (dec_loop fuel z [])) 48 ++ dec_loop fuel z [] = dfix n z.
Proof.
  induction n as [|n IH]; intros z fuel Hz Hn; [lia|]. rewrite pow10_S in Hz.
  pose proof (Z.pow_pos_nonneg 10 (Z.of_nat n) ltac:(lia) ltac:(lia)).
  assert (0 <= z / 10 < 10 ^ Z.of_nat n) as Hq by (split; [apply Z.div_pos; lia|apply Z.div_lt_upper_bound; lia]).
  cbn [dfix]. destruct n as [|n].
  { assert (z / 10 = 0) as E by (simpl in Hq; lia). destruct fuel; cbn [dec_loop]; [|rewrite E]; done. }
  destruct fuel as [|fuel]; [lia|]. cbn [dec_loop]. destruct (Z.eqb_spec (z / 10) 0) as [E|E].
  - cbn [length]. rewrite E, dfix_zero. done.
  - rewrite dec_loop_acc. rewrite length_app. cbn [length]. rewrite app_assoc. f_equal.
    rewrite <- (IH (z / 10) fuel) by lia. f_equal. f_equal. lia.
Qed.

Lemma fmt_u_dfix n z : 0 <= z < 10 ^ Z.of_nat n -> (0 < n <= 20)%nat -> fmt_u n z = dfix n z.
Proof. intros Hz Hn. unfold fmt_u, dec. apply fmt_dfix; [done|lia]. Qed.

Lemma digit_of z : 0 <= z mod 10 < 10.
Proof. apply Z.mod_pos_bound. lia. Qed.

Lemma dfix_digits n z : Forall (fun c => 48 <= c <= 57) (dfix n z).
Proof.
  revert z. induction n as [|n IH]; intros z; [constructor|]. simpl. apply Forall_app. split; [apply IH|].
  constructor; [|constructor]. pose proof (digit_of z). lia.
Qed.

Lemma digits_app a b acc : Forall (fun c => 48 <= c <= 57) a -> digits (a ++ b) acc = digits b (digits a acc).
Proof.
  intros H. revert acc. induction H as [|c a Hc _ IH]; intros acc; [done|]. cbn [app digits].
  unfold is_digit. rewrite (proj2 (Z.leb_le _ _)), (proj2 (Z.leb_le _ _)) by lia. apply IH.
Qed.

Lemma digits_dfix n z acc : 0 <= z < 10 ^ Z.of_nat n -> digits (dfix n z) acc = acc * 10 ^ Z.of_nat n + z.
Proof.
  revert z acc. induction n as [|n IH]; intros z acc Hz; [simpl in *; lia|]. rewrite pow10_S in *.
  assert (0 <= z / 10 < 10 ^ Z.of_nat n) as Hq by (split; [apply Z.div_pos; lia|apply Z.div_lt_upper_bound; lia]).
  cbn [dfix]. rewrite digits_app by apply dfix_digits. rewrite IH by done. cbn [digits].
  unfold is_digit. pose proof (digit_of z). rewrite (proj2 (Z.leb_le _ _)), (proj2 (Z.leb_le _ _)) by lia. cbn [andb].
  pose proof (Z.div_mod z 10). lia.
Qed.

(** A field of [n] digits, as it is written and read. *)
Record field (n : nat) (z : Z) (l : bytes) : Prop := {
  f_text : fmt_u n z = l;
  f_len : length l = n;
  f_nz : Forall (fun c => c <> 0) l;
  f_atoi : atoi l = Ok z;
}.

Lemma atoi_dfix n z : 0 <= z < 10 ^ Z.of_nat n -> (0 < n <= 9)%nat -> atoi (dfix n z) = Ok z.
Proof.
  intros Hz Hn. unfold atoi. pose proof (dfix_digits n z) as Hd.
  assert (skip_spaces (dfix n z) = dfix n z /\
    match dfix n z with
    | c :: r => if c =? 45 then - digits r 0 else if c =? 43 then digits r 0 else digits (c :: r) 0
    | [] => 0 end = z) as [-> ->].
  { pose proof (digits_dfix n z 0 Hz) as E. pose proof (length_dfix n z) as L. destruct (dfix n z) as [|c l]; [simpl in L; lia|].
    inversion Hd as [|? ? Hc _]; subst. split.
    - cbn [skip_spaces]. unfold isspace. by rewrite (proj2 (Z.eqb_neq c 32)), (proj2 (Z.leb_gt c 13)), andb_false_r by lia.
    - rewrite (proj2 (Z.eqb_neq c 45)), (proj2 (Z.eqb_neq c 43)) by lia. lia. }
  assert (10 ^ Z.of_nat n <= 10 ^ 9) by (apply Z.pow_le_mono_r; lia).
  rewrite (proj2 (Z.leb_le _ _)), (proj2 (Z.ltb_lt _ _)) by lia. done.
Qed.

Lemma field_ok n z : 0 <= z < 10 ^ Z.of_nat n -> (0 < n <= 9)%nat -> exists l, field n z l.
Proof.
  intros Hz Hn. exists (dfix n z). split.
  - apply fmt_u_dfix; [done|lia].
  - apply length_dfix.
  - eapply Forall_impl; [apply dfix_digits|]. simpl. lia.
  - by apply atoi_dfix.
Qed.

(** ** Text *)

Lemma c_str_all l : Forall (fun c => c <> 0) l -> c_str l = l.
Proof. induction 1 as [|c l Hc _ IH]; [done|]. cbn [c_str]. rewrite (proj2 (Z.eqb_neq c 0)) by done. by rewrite IH. Qed.

Lemma c_str_stop l r : Forall (fun c => c <> 0) l -> c_str (l ++ 0 :: r) = l.
Proof. induction 1 as [|c l Hc _ IH]; [done|]. cbn [c_str app]. rewrite (proj2 (Z.eqb_neq c 0)) by done. by rewrite IH. Qed.

(** A date whose fields have the digits the text gives them, and an interval. *)
Definition date_ok (d : DateTimeData) : Prop :=
  m_isInterval d = 0 /\ 0 <= m_year d < 10000 /\ 0 <= m_month d < 100 /\ 0 <= m_days d < 100 /\ 0 <= m_hours d < 100 /\
  0 <= m_minutes d < 100 /\ 0 <= m_seconds d < 100 /\ 0 <= m_microSeconds d < 1000000 /\ - 1000 < m_utc d < 1000.

Definition interval_ok (d : DateTimeData) : Prop :=
  m_isInterval d = 1 /\ m_year d = 0 /\ m_month d = 0 /\ m_utc d = 0 /\ 0 <= m_days d < 100000000 /\ 0 <= m_hours d < 100 /\
  0 <= m_minutes d < 100 /\ 0 <= m_seconds d < 100 /\ 0 <= m_microSeconds d < 1000000.

(** The digits of a field, one by one. *)
Ltac take_field n z l Hf := destruct (field_ok n z) as [l Hf]; [simpl; lia|lia|].
Ltac open_list l H := repeat (destruct l as [|? l]; [discriminate H|]); destruct l; [|discriminate H].

Lemma atoi_field n z l r : field n z l -> atoi (c_str (l ++ 0 :: r)) = Ok z.
Proof. intros []. by rewrite c_str_stop. Qed.

Ltac read_field F :=
  let E := fresh "E" in
  pose proof (fun r => atoi_field _ _ _ r F) as E; cbn [app] in E; rewrite E; clear E; cbn -[atoi c_str u8 u32 uwrap swrap].

Lemma nz_text l : forallb (fun c => negb (c =? 0)) l = true -> Forall (fun c => c <> 0) l.
Proof. intros H. apply Forall_forall. intros c Hc. rewrite forallb_forall in H. apply list_elem_of_In, H in Hc. by zbool. Qed.

Lemma interval_text d : interval_ok d ->
  exists s, toString d = Ok s /\ zlen s = 25 /\ CIMDateTime_ofString s = Ok d.
Proof.
  destruct d as [y mo d h mi s us utc iv]. unfold interval_ok. simpl. intros (-> & -> & -> & -> & Hd & Hh & Hmi & Hs & Hus).
  take_field 8%nat d ld Fd. take_field 2%nat h lh Fh. take_field 2%nat mi lm Fm. take_field 2%nat s ls Fs. take_field 6%nat us lu Fu.
  unfold toString, isInterval. cbn [m_isInterval m_days m_hours m_minutes m_seconds m_microSeconds]. change (negb (1 =? 0)) with true. cbn iota.
  rewrite (f_text _ _ _ Fd), (f_text _ _ _ Fh), (f_text _ _ _ Fm), (f_text _ _ _ Fs), (f_text _ _ _ Fu).
  assert (Forall (fun c => c <> 0) (ld ++ lh ++ lm ++ ls ++ [46] ++ lu ++ txt ":000")) as Hnz.
  { repeat (apply Forall_app; split); solve [eapply f_nz; eassumption | by apply nz_text]. }
  pose proof (f_len _ _ _ Fd) as L1. pose proof (f_len _ _ _ Fh) as L2. pose proof (f_len _ _ _ Fm) as L3.
  pose proof (f_len _ _ _ Fs) as L4. pose proof (f_len _ _ _ Fu) as L5.
  open_list ld L1. open_list lh L2. open_list lm L3. open_list ls L4. open_list lu L5.
  cbn [app] in *. eexists. split; [reflexivity|]. split; [reflexivity|].
  unfold CIMDateTime_ofString, fillDateTimeData. rewrite (c_str_all _ Hnz). rewrite bool_decide_false by done. cbv zeta.
  unfold strncpy35, atoi_at. cbn -[atoi c_str u8 u32 uwrap swrap].
  read_field Fu. read_field Fs. read_field Fm. read_field Fh. read_field Fd.
  rewrite !uwrap_id by (simpl; lia). done.
Qed.

(** The offset: a sign and three digits. *)
Lemma utc_field z : - 1000 < z < 1000 ->
  exists l, fmt_plus_d 4 z = (if z <? 0 then 45 else 43) :: l /\ length l = 3%nat /\ Forall (fun c => c <> 0) l /\
    atoi ((if z <? 0 then 45 else 43) :: l) = Ok z.
Proof.
  intros Hz. exists (dfix 3 (Z.abs z)).
  assert (0 <= Z.abs z < 10 ^ Z.of_nat 3) as Ha by (simpl; lia).
  split; [|split; [apply length_dfix|split; [eapply Forall_impl; [apply dfix_digits|simpl; lia]|]]].
  - unfold fmt_plus_d. f_equal. apply (fmt_dfix 3); [done|lia].
  - pose proof (digits_dfix 3 (Z.abs z) 0 Ha) as Ed. rewrite Z.mul_0_l, Z.add_0_l in Ed. unfold atoi.
    set (l := dfix 3 (Z.abs z)) in *. clearbody l.
    destruct (Z.ltb_spec z 0); cbn [skip_spaces isspace Z.eqb Z.leb andb orb]; simpl; rewrite Ed; (destruct (_ && _) eqn:E; [f_equal; lia|]);
      apply andb_false_iff in E as [E|E]; zbool; lia.
Qed.

Lemma date_text d : date_ok d ->
  exists s, toString d = Ok s /\ zlen s = 25 /\ CIMDateTime_ofString s = Ok d.
Proof.
  destruct d as [y mo d h mi s us utc iv]. unfold date_ok. simpl. intros (-> & Hy & Hmo & Hd & Hh & Hmi & Hs & Hus & Hutc).
  take_field 4%nat y ly Fy. take_field 2%nat mo lo Fo. take_field 2%nat d ld Fd. take_field 2%nat h lh Fh.
  take_field 2%nat mi lm Fm. take_field 2%nat s ls Fs. take_field 6%nat us lu Fu.
  destruct (utc_field utc Hutc) as (lt & Ft & L8 & Nt & Et).
  unfold toString, isInterval. cbn [m_isInterval m_year m_month m_days m_hours m_minutes m_seconds m_microSeconds m_utc].
  change (negb (0 =? 0)) with false. cbn iota.
  rewrite Ft, (f_text _ _ _ Fy), (f_text _ _ _ Fo), (f_text _ _ _ Fd), (f_text _ _ _ Fh), (f_text _ _ _ Fm), (f_text _ _ _ Fs), (f_text _ _ _ Fu).
  set (sg := if utc <? 0 then 45 else 43) in *.
  assert (sg = 43 \/ sg = 45) as Hsg by (unfold sg; destruct (utc <? 0); auto). clearbody sg.
  assert (Forall (fun c => c <> 0) (ly ++ lo ++ ld ++ lh ++ lm ++ ls ++ [46] ++ lu ++ sg :: lt)) as Hnz.
  { repeat (apply Forall_app; split); try solve [eapply f_nz; eassumption | by apply nz_text]. constructor; [lia|done]. }
  assert (forall r, atoi (c_str ((sg :: lt) ++ 0 :: r)) = Ok utc) as Eutc.
  { intros r. rewrite c_str_stop; [done|]. constructor; [lia|done]. }
  pose proof (f_len _ _ _ Fd) as L1. pose proof (f_len _ _ _ Fh) as L2. pose proof (f_len _ _ _ Fm) as L3.
  pose proof (f_len _ _ _ Fs) as L4. pose proof (f_len _ _ _ Fu) as L5. pose proof (f_len _ _ _ Fy) as L6. pose proof (f_len _ _ _ Fo) as L7.
  open_list ld L1. open_list lh L2. open_list lm L3. open_list ls L4. open_list lu L5. open_list ly L6. open_list lo L7. open_list lt L8.
  cbn [app] in *. eexists. split; [reflexivity|]. split; [reflexivity|].
  unfold CIMDateTime_ofString, fillDateTimeData. rewrite (c_str_all _ Hnz). rewrite bool_decide_false by done. cbv zeta.
  unfold strncpy35, atoi_at. cbn -[atoi c_str u8 u32 uwrap swrap Z.eqb].
  replace (sg =? 58) with false by (destruct Hsg as [-> | ->]; done).
  replace ((sg =? 43) || (sg =? 45)) with true by (destruct Hsg as [-> | ->]; done). cbn -[atoi c_str u8 u32 uwrap swrap].
  rewrite Eutc. cbn -[atoi c_str u8 u32 uwrap swrap].
  read_field Fu. read_field Fs. read_field Fm. read_field Fh. read_field Fd. read_field Fo. read_field Fy.
  rewrite !uwrap_id by (simpl; lia). rewrite swrap_id by (simpl; lia). done.
Qed.

(** ** Any text of at most 25 characters *)

Lemma digits_bound s acc : 0 <= acc -> 0 <= digits s acc < (acc + 1) * 10 ^ zlen s.
Proof.
  revert acc. induction s as [|c s IH]; intros acc Ha.
  { cbn [digits]. change (10 ^ zlen []) with 1. lia. }
  cbn [digits]. rewrite zlen_cons. pose proof (zlen_nonneg s). rewrite Z.pow_add_r by lia. change (10 ^ 1) with 10.
  pose proof (Z.pow_pos_nonneg 10 (zlen s)). unfold is_digit.
  destruct ((48 <=? c) && (c <=? 57)) eqn:E; [|nia]. zbool.
  destruct (IH (acc * 10 + (c - 48)) ltac:(lia)). nia.
Qed.

Lemma atoi_short s : zlen s <= 9 -> exists v, atoi s = Ok v.
Proof.
  intros Hs. unfold atoi.
  assert (forall r, zlen r <= 9 -> 0 <= digits r 0 < 10 ^ 9) as Hd.
  { intros r Hr. pose proof (digits_bound r 0 ltac:(lia)). pose proof (zlen_nonneg r).
    assert (10 ^ zlen r <= 10 ^ 9) by (apply Z.pow_le_mono_r; lia). lia. }
  assert (zlen (skip_spaces s) <= 9) as Hk.
  { revert Hs. induction s as [|c s IH]; intros Hs; [done|]. cbn [skip_spaces]. rewrite zlen_cons in Hs. destruct (isspace c); [apply IH; lia|by rewrite zlen_cons]. }
  set (v := match skip_spaces s with [] => 0 | c :: r => if c =? 45 then - digits r 0 else if c =? 43 then digits r 0 else digits (c :: r) 0 end).
  assert (- 10 ^ 9 < v < 10 ^ 9) as Hv.
  { unfold v. destruct (skip_spaces s) as [|c r] eqn:E; [lia|]. pose proof (Hd (c :: r) Hk).
    rewrite zlen_cons in Hk. pose proof (Hd r ltac:(lia)). repeat case_match; lia. }
  exists v. change (10 ^ 9) with 1000000000 in Hv.
  rewrite (proj2 (Z.leb_le (- 2 ^ 31) v)), (proj2 (Z.ltb_lt v (2 ^ 31))) by lia. done.
Qed.

Lemma c_str_length l j : l !! j = Some 0 -> zlen (c_str l) <= Z.of_nat j.
Proof.
  revert j. induction l as [|c l IH]; intros [|j] H; [done..| |].
  - injection H as ->. cbn [c_str]. change (zlen (if 0 =? 0 then [] else 0 :: c_str l)) with 0. lia.
  - cbn [c_str]. destruct (c =? 0); [change (zlen []) with 0; lia|]. rewrite zlen_cons. specialize (IH j H). lia.
Qed.

(** Reading a number from a part of the buffer that a NUL ends. *)
Lemma atoi_at_ok k j bfr : bfr !! j = Some 0 -> (k <= j <= k + 9)%nat -> exists v, atoi_at k bfr = Ok v.
Proof.
  intros H Hk. apply atoi_short. pose proof (c_str_length (drop k bfr) (j - k)) as Hl.
  rewrite lookup_drop in Hl. replace (k + (j - k))%nat with j in Hl by lia. specialize (Hl H). lia.
Qed.

(** The mark that tells a date from an interval. *)
Definition mark (s : bytes) : Z := nth 21 (c_str s) 0.

Lemma length_strncpy35 s : length (strncpy35 s) = 35%nat.
Proof. unfold strncpy35. rewrite length_app, length_take, length_app, length_replicate. cbn [length]. lia. Qed.

Lemma strncpy35_mark s : nth 21 (strncpy35 s) 0 = nth 21 s 0.
Proof.
  unfold strncpy35. rewrite app_nth1 by (rewrite length_take, length_app, length_replicate; lia).
  rewrite !nth_lookup. rewrite lookup_take_lt by lia.
  destruct (decide (21 < length s)%nat); [by rewrite lookup_app_l|].
  rewrite lookup_app_r, lookup_replicate_2 by lia. by rewrite (lookup_ge_None_2 s) by lia.
Qed.

Lemma strncpy35_end s : zlen s <= 25 -> strncpy35 s !! 25%nat = Some 0.
Proof.
  unfold zlen, strncpy35. intros H. rewrite lookup_app_l by (rewrite length_take, length_app, length_replicate; lia).
  rewrite lookup_take_lt by lia. rewrite lookup_app_r by lia. apply lookup_replicate_2. lia.
Qed.

Ltac read_part bfr j :=
  match goal with |- exists _, mbind _ (atoi_at ?k ?b) = _ =>
    let v := fresh "v" in let E := fresh "E" in
    destruct (atoi_at_ok k j b) as [v E];
    [ repeat (rewrite list_lookup_insert_ne by lia); apply list_lookup_insert_eq; rewrite ?length_insert; lia | lia | rewrite E; cbn [mbind outcome_bind] ]
  end.

Lemma ofString_total s : zlen (c_str s) <= 25 ->
  if bool_decide (c_str s = []) || bool_decide (mark s ∈ [58; 43; 45]) then exists d, CIMDateTime_ofString s = Ok d
  else CIMDateTime_ofString s = Throw CIMDateTimeException.
Proof.
  intros Hs. unfold CIMDateTime_ofString, fillDateTimeData. destruct (bool_decide (c_str s = [])); [cbn; eauto|]. cbn [orb].
  rewrite strncpy35_mark. unfold mark. set (c := nth 21 (c_str s) 0).
  pose proof (length_strncpy35 (c_str s)) as HL. pose proof (strncpy35_end _ Hs) as Hend. set (b := strncpy35 (c_str s)) in *. clearbody b.
  case_bool_decide as Hc.
  - destruct (Z.eqb_spec c 58) as [Hm|Hm]; cbv zeta.
    + read_part b 21%nat. read_part b 14%nat. read_part b 12%nat. read_part b 10%nat. read_part b 8%nat. eauto.
    + replace ((c =? 43) || (c =? 45)) with true.
      2:{ symmetry. apply orb_true_iff. rewrite !Z.eqb_eq. set_solver. }
      destruct (atoi_at_ok 21 25 b Hend) as [utc ->]; [lia|]. cbn [mbind outcome_bind].
      read_part b 21%nat. read_part b 14%nat. read_part b 12%nat. read_part b 10%nat. read_part b 8%nat. read_part b 6%nat. read_part b 4%nat. eauto.
  - replace (c =? 58) with false by (symmetry; apply Z.eqb_neq; set_solver).
    replace (c =? 43) with false by (symmetry; apply Z.eqb_neq; set_solver).
    by replace (c =? 45) with false by (symmetry; apply Z.eqb_neq; set_solver).
Qed.

(** ** Microseconds *)

#[local] Ltac Zify.zify_post_hook ::= Z.to_euclidean_division_equations.

Lemma ofMicroSeconds_exact us : 0 <= us < 2 ^ 32 * 1000000 ->
  let d := CIMDateTime_ofMicroSeconds us in
  interval_ok d /\ m_hours d < 24 /\ m_minutes d < 60 /\ m_seconds d < 60 /\
  (((m_days d * 24 + m_hours d) * 60 + m_minutes d) * 60 + m_seconds d) * 1000000 + m_microSeconds d = us.
Proof.
  intros Hus. unfold CIMDateTime_ofMicroSeconds. change (2 ^ 32) with 4294967296 in Hus.
  set (secs := us / 1000000). assert (0 <= secs < 4294967296) as Hsecs.
  { unfold secs. split; [apply Z.div_pos; lia|apply Z.div_lt_upper_bound; lia]. }
  rewrite (u32_id secs) by lia.
  assert (u32 (uwrap 64 (us - u32 (secs * 1000000))) = us mod 1000000) as Eus.
  { unfold uwrap. change (2 ^ 32) with 4294967296. change (2 ^ 64) with (4294967296 * 4294967296).
    rewrite Z.rem_mul_r by lia. rewrite (Z.mul_comm 4294967296 (_ mod _)), Z_mod_plus_full, Z.mod_mod by lia.
    rewrite Zminus_mod_idemp_r. rewrite Z.mod_small; unfold secs; pose proof (Z.div_mod us 1000000); pose proof (Z.mod_pos_bound us 1000000); lia. }
  rewrite Eus. set (mins := secs / 60). set (hrs := mins / 60).
  assert (0 <= mins < 4294967296 /\ 0 <= hrs < 4294967296) as [Hm Hh] by (unfold hrs, mins; split; split; try (apply Z.div_pos; lia); lia).
  rewrite (u32_id mins) by lia. fold hrs. rewrite (u32_id hrs) by lia.
  rewrite (u32_id (mins * 60)) by (unfold mins; lia). rewrite (u32_id (hrs * 60)) by (unfold hrs; lia).
  rewrite (u32_id (hrs / 24)) by lia. rewrite (u32_id (hrs / 24 * 24)) by lia.
  rewrite (u32_id (secs - mins * 60)) by (unfold mins; lia). rewrite (u32_id (mins - hrs * 60)) by (unfold hrs; lia).
  rewrite (u32_id (hrs - hrs / 24 * 24)) by lia.
  unfold interval_ok. cbn [m_isInterval m_year m_month m_utc m_days m_hours m_minutes m_seconds m_microSeconds].
  rewrite !(uwrap_id 8) by (simpl; unfold hrs, mins; lia). unfold hrs, mins. unfold secs. lia.
Qed.
#[local] Ltac Zify.zify_post_hook ::= idtac.

(** ** Order *)

(** The days before a month, and its length. *)
Definition before (leap : bool) (m : Z) : Z := nth (Z.to_nat (m - 1)) (monthYearDay leap) 0.
Definition month_len (leap : bool) (m : Z) : Z := before leap (m + 1) - before leap m.

(** A date of the calendar. *)
Definition calendar_date (d : DateTimeData) : Prop :=
  m_isInterval d = 0 /\ 0 <= m_year d < 2 ^ 16 /\ 1 <= m_month d <= 12 /\
  1 <= m_days d <= month_len (isLeap (m_year d)) (m_month d) /\ 0 <= m_hours d < 24 /\ 0 <= m_minutes d < 60 /\
  0 <= m_seconds d < 60 /\ - 2 ^ 15 <= m_utc d < 2 ^ 15.

Lemma months_ordered leap m m' : 1 <= m -> m < m' -> m' <= 12 -> before leap m + month_len leap m <= before leap m'.
Proof.
  intros H1 H2 H3.
  assert (forallb (fun l => forallb (fun m => forallb (fun m' =>
    implb (m <? m') (before l m + month_len l m <=? before l m')) (seqZ 1 12)) (seqZ 1 12)) [true; false] = true) as H by (by vm_compute).
  rewrite forallb_forall in H. specialize (H leap). rewrite forallb_forall in H.
  specialize (H ltac:(destruct leap; simpl; auto) m). rewrite forallb_forall in H.
  specialize (H ltac:(apply list_elem_of_In, elem_of_seqZ; lia) m' ltac:(apply list_elem_of_In, elem_of_seqZ; lia)).
  rewrite (proj2 (Z.ltb_lt m m')) in H by lia. by apply Z.leb_le in H.
Qed.

Lemma before_bounds leap m : 1 <= m <= 12 -> 0 <= before leap m /\ before leap m + month_len leap m <= 366.
Proof.
  intros H1. assert (forallb (fun l => forallb (fun m => (0 <=? before l m) && (before l m + month_len l m <=? 366)) (seqZ 1 12)) [true; false] = true) as H by (by vm_compute).
  rewrite forallb_forall in H. specialize (H leap ltac:(destruct leap; simpl; auto)). rewrite forallb_forall in H.
  specialize (H m ltac:(apply list_elem_of_In, elem_of_seqZ; lia)). zbool. lia.
Qed.

(** The day of the year, from 0. *)
Definition day_of_year (d : DateTimeData) : Z := before (isLeap (m_year d)) (m_month d) + m_days d - 1.

Lemma int32_ok z : - 2147483648 <= z < 2147483648 -> int32 z = Ok z.
Proof. intros H. unfold int32. change (2 ^ 31) with 2147483648. by rewrite (proj2 (Z.leb_le _ _)), (proj2 (Z.ltb_lt _ _)) by lia. Qed.

Lemma getMagnitude_calendar d : calendar_date d ->
  0 <= day_of_year d < 366 /\
  getMagnitude d = Ok (m_seconds d + 60 * (m_minutes d + m_utc d) + 3600 * (m_hours d + 24 * (366 * (m_year d - 1970) + day_of_year d))).
Proof.
  intros (_ & Hy & Hm & Hd & Hh & Hmi & Hs & Hu). pose proof (before_bounds (isLeap (m_year d)) (m_month d) Hm).
  assert (0 <= day_of_year d < 366) as Hdoy by (unfold day_of_year; lia). split; [done|].
  change (2 ^ 16) with 65536 in Hy. unfold getMagnitude. ztest.
  assert (monthYearDay (isLeap (m_year d)) !! Z.to_nat (m_month d - 1) = Some (before (isLeap (m_year d)) (m_month d))) as ->.
  { unfold before. rewrite nth_lookup. destruct (_ !! _) as [z|] eqn:E; [done|]. apply lookup_ge_None_1 in E.
    destruct (isLeap (m_year d)); cbn [monthYearDay length] in E; lia. }
  cbn [present mbind outcome_bind]. fold (day_of_year d). rewrite s32_id by lia.
  do 3 (rewrite int32_ok by lia; cbn [mbind outcome_bind]). done.
Qed.

(** Days are ordered as months and days of the month. *)
Lemma day_order x y : calendar_date x -> calendar_date y -> m_year x = m_year y ->
  (day_of_year x < day_of_year y <-> m_month x < m_month y \/ m_month x = m_month y /\ m_days x < m_days y) /\
  (day_of_year x = day_of_year y <-> m_month x = m_month y /\ m_days x = m_days y).
Proof.
  intros (_ & _ & Hm & Hd & _) (_ & _ & Hm' & Hd' & _) Ey. unfold day_of_year. rewrite <- Ey in *.
  destruct (Z.lt_trichotomy (m_month x) (m_month y)) as [H|[H|H]].
  - pose proof (months_ordered (isLeap (m_year x)) (m_month x) (m_month y)). lia.
  - rewrite <- H in *. lia.
  - pose proof (months_ordered (isLeap (m_year x)) (m_month y) (m_month x)). lia.
Qed.

(** The comparison of two dates with the same offset is the comparison of year,
   month, day, hour, minute, second and microsecond, in this order. *)
Lemma datetime_lt_calendar x y : calendar_date x -> calendar_date y -> m_utc x = m_utc y ->
  datetime_lt x y = Ok (StrictWeakOrdering
    [(m_year x, m_year y); (m_month x, m_month y); (m_days x, m_days y); (m_hours x, m_hours y);
     (m_minutes x, m_minutes y); (m_seconds x, m_seconds y); (m_microSeconds x, m_microSeconds y)]).
Proof.
  intros Hx Hy Eu. destruct (getMagnitude_calendar x Hx) as [Dx Mx]. destruct (getMagnitude_calendar y Hy) as [Dy My].
  pose proof (day_order x y Hx Hy) as Hday. unfold datetime_lt, isInterval. destruct Hx as (Ix & Hx). destruct Hy as (Iy & Hy). rewrite Ix, Iy. cbn [xorb negb Z.eqb].
  rewrite Mx, My. cbn [mbind outcome_bind mret outcome_ret]. f_equal. rewrite Eu in *.
  set (dx := day_of_year x) in *. set (dy := day_of_year y) in *. clearbody dx dy.
  apply eq_true_iff_eq. cbn [StrictWeakOrdering]. rewrite !orb_true_iff, !andb_true_iff, !orb_true_iff, !andb_true_iff, !orb_true_iff, !andb_true_iff, !orb_true_iff, !andb_true_iff, !orb_true_iff, !andb_true_iff, !Z.ltb_lt, !Z.eqb_eq.
  destruct Hx as (_ & _ & _ & Hh & Hmi & Hs & _). destruct Hy as (_ & _ & _ & Hh' & Hmi' & Hs' & _).
  destruct (Z.lt_trichotomy (m_year x) (m_year y)) as [H|[H|H]]; [lia| |lia]. destruct (Hday H) as [H1 H2]. clear Hday.
  rewrite H in *. destruct (Z.lt_trichotomy dx dy) as [K|[K|K]].
  - pose proof (proj1 H1 K). lia.
  - pose proof (proj1 H2 K). lia.
  - assert (~ (m_month x < m_month y \/ m_month x = m_month y /\ m_days x < m_days y)) by lia.
    assert (~ (m_month x = m_month y /\ m_days x = m_days y)) by lia. lia.
Qed.
