(* ===== verification/CimTypeNames.v ===== *)
(** * Names of data types

   [CIMDataType::strToSimpleType] (src/src/cim/OW_CIMDataType.cpp) recognises
   the name of a type with a scanner made by re2c and edited by hand; the code
   keeps the plain version as a comment, "the old slow way", which is the
   specification here.  A state of the scanner is the number of its label; labels
   that only return are written as the return.  Whether [char] has a sign is up
   to the platform ([char_signed]). *)

From S2P Require Import Prelude Blocxx CimData.
Import CIMDataType.

(** ** The scanner *)

Inductive next := Goto (label : Z) | Return (type : Z).

Section Scanner.
Variable char_signed : bool.

(** [yych >= '\001'] and [yych <= '\000'] for a [char]. *)
Definition ge_001 (c : Z) : bool := if char_signed then (1 <=? c) && (c <? 128) else 1 <=? c.
Definition le_000 (c : Z) : bool := negb (ge_001 c).

Definition yy (label c : Z) : next :=
  match label with
  | 0 => if (c =? 66) || (c =? 98) then Goto 7 
      else if (c =? 67) || (c =? 99) then Goto 6 
      else if (c =? 68) || (c =? 100) then Goto 8 
      else if (c =? 82) || (c =? 114) then Goto 5 
      else if (c =? 83) || (c =? 115) then Goto 4 
      else if (c =? 85) || (c =? 117) then Goto 2 else Return INVALID
  | 2 => if (c =? 73) || (c =? 105) then Goto 82 else Return INVALID
  | 4 => if (c =? 73) || (c =? 105) then Goto 58 
      else if (c =? 84) || (c =? 116) then Goto 57 else Return INVALID
  | 5 => if (c =? 69) || (c =? 101) then Goto 35 else Return INVALID
  | 6 => if (c =? 72) || (c =? 104) then Goto 28 else Return INVALID
  | 7 => if (c =? 79) || (c =? 111) then Goto 20 else Return INVALID
  | 8 => if (c =? 65) || (c =? 97) then Goto 10 else Return INVALID
  | 10 => if (c =? 84) || (c =? 116) then Goto 12 else Return INVALID
  | 12 => if (c =? 69) || (c =? 101) then Goto 13 else Return INVALID
  | 13 => if (c =? 84) || (c =? 116) then Goto 14 else Return INVALID
  | 14 => if (c =? 73) || (c =? 105) then Goto 15 else Return INVALID
  | 15 => if (c =? 77) || (c =? 109) then Goto 16 else Return INVALID
  | 16 => if (c =? 69) || (c =? 101) then Goto 17 else Return INVALID
  | 17 => if ge_001 c then Return INVALID else Return DATETIME
  | 20 => if (c =? 79) || (c =? 111) then Goto 21 else Return INVALID
  | 21 => if (c =? 76) || (c =? 108) then Goto 22 else Return INVALID
  | 22 => if (c =? 69) || (c =? 101) then Goto 23 else Return INVALID
  | 23 => if (c =? 65) || (c =? 97) then Goto 24 else Return INVALID
  | 24 => if (c =? 78) || (c =? 110) then Goto 25 else Return INVALID
  | 25 => if ge_001 c then Return INVALID else Return BOOLEAN
  | 28 => if (c =? 65) || (c =? 97) then Goto 29 else Return INVALID
  | 29 => if (c =? 82) || (c =? 114) then Goto 30 else Return INVALID
  | 30 => if (c =? 49) then Goto 31 else Return INVALID
  | 31 => if (c =? 54) then Goto 32 else Return INVALID
  | 32 => if ge_001 c then Return INVALID else Return CHAR16
  | 35 => if (c =? 65) || (c =? 97) then Goto 36 
      else if (c =? 70) || (c =? 102) then Goto 37 else Return INVALID
  | 36 => if (c =? 76) || (c =? 108) then Goto 48 else Return INVALID
  | 37 => if (c =? 0) then Return REFERENCE 
      else if (c =? 69) || (c =? 101) then Goto 38 else Return INVALID
  | 38 => if (c =? 82) || (c =? 114) then Goto 41 else Return INVALID
  | 41 => if (c =? 69) || (c =? 101) then Goto 42 else Return INVALID
  | 42 => if (c =? 78) || (c =? 110) then Goto 43 else Return INVALID
  | 43 => if (c =? 67) || (c =? 99) then Goto 44 else Return INVALID
  | 44 => if (c =? 69) || (c =? 101) then Goto 45 else Return INVALID
  | 45 => if ge_001 c then Return INVALID else Return REFERENCE
  | 48 => if (c =? 51) then Goto 49 
      else if (c =? 54) then Goto 50 else Return INVALID
  | 49 => if (c =? 50) then Goto 54 else Return INVALID
  | 50 => if (c =? 52) then Goto 51 else Return INVALID
  | 51 => if ge_001 c then Return INVALID else Return REAL64
  | 54 => if ge_001 c then Return INVALID else Return REAL32
  | 57 => if (c =? 82) || (c =? 114) then Goto 76 else Return INVALID
  | 58 => if (c =? 78) || (c =? 110) then Goto 59 else Return INVALID
  | 59 => if (c =? 84) || (c =? 116) then Goto 60 else Return INVALID
  | 60 => if (c =? 49) then Goto 62 
      else if (c =? 51) then Goto 63 
      else if (c =? 54) then Goto 64 
      else if (c =? 56) then Goto 61 else Return INVALID
  | 61 => if le_000 c then Return SINT8 else Return INVALID
  | 62 => if (c =? 54) then Goto 71 else Return INVALID
  | 63 => if (c =? 50) then Goto 68 else Return INVALID
  | 64 => if (c =? 52) then Goto 65 else Return INVALID
  | 65 => if ge_001 c then Return INVALID else Return SINT64
  | 68 => if ge_001 c then Return INVALID else Return SINT32
  | 71 => if ge_001 c then Return INVALID else Return SINT16
  | 76 => if (c =? 73) || (c =? 105) then Goto 77 else Return INVALID
  | 77 => if (c =? 78) || (c =? 110) then Goto 78 else Return INVALID
  | 78 => if (c =? 71) || (c =? 103) then Goto 79 else Return INVALID
  | 79 => if ge_001 c then Return INVALID else Return STRING
  | 82 => if (c =? 78) || (c =? 110) then Goto 83 else Return INVALID
  | 83 => if (c =? 84) || (c =? 116) then Goto 84 else Return INVALID
  | 84 => if (c =? 49) then Goto 86 
      else if (c =? 51) then Goto 87 
      else if (c =? 54) then Goto 88 
      else if (c =? 56) then Goto 85 else Return INVALID
  | 85 => if le_000 c then Return UINT8 else Return INVALID
  | 86 => if (c =? 54) then Goto 95 else Return INVALID
  | 87 => if (c =? 50) then Goto 92 else Return INVALID
  | 88 => if (c =? 52) then Goto 89 else Return INVALID
  | 89 => if ge_001 c then Return INVALID else Return UINT64
  | 92 => if ge_001 c then Return INVALID else Return UINT32
  | 95 => if ge_001 c then Return INVALID else Return UINT16
  | _ => Return INVALID
  end.

(** Every label reads the next character; behind the NUL there is none. *)
Fixpoint scan (label : Z) (str : bytes) : outcome Z :=
  match str with
  | c :: str =>
      match yy label c with
      | Goto label => scan label str
      | Return type => Ok type
      end
  | [] => Crash
  end.

Definition strToSimpleType (strType : bytes) : outcome Z := scan 0 (strType ++ [0]).

(** [CIMDataType::getDataType]: an unknown name gives a null data type. *)
Definition getDataType (strType : bytes) : outcome CIMDataType_ :=
  if bool_decide (strType = []) then Ok (Some (mkDT CIMNULL 0 0 []))
  else
    type ← strToSimpleType strType;
    if type =? INVALID then mret None else mret (Some (mkDT type 1 SIZE_SINGLE [])).
End Scanner.

(** [CIMDataType::toString] *)
Definition typeToString (t : Z) : bytes :=
  if t =? UINT8 then txt "uint8" else if t =? SINT8 then txt "sint8"
  else if t =? UINT16 then txt "uint16" else if t =? SINT16 then txt "sint16"
  else if t =? UINT32 then txt "uint32" else if t =? SINT32 then txt "sint32"
  else if t =? UINT64 then txt "uint64" else if t =? SINT64 then txt "sint64"
  else if t =? REAL64 then txt "real64" else if t =? REAL32 then txt "real32"
  else if t =? CHAR16 then txt "char16" else if t =? STRING then txt "string"
  else if t =? BOOLEAN then txt "boolean" else if t =? DATETIME then txt "datetime"
  else if t =? REFERENCE then txt "REF"
  else if (t =? EMBEDDEDCLASS) || (t =? EMBEDDEDINSTANCE) then txt "string"
  else txt "** INVALID DATA TYPE IN CIMDATATYPE - toString **".

(** ** The old slow way *)

(** Lower case, for ASCII. *)
Definition lower (c : Z) : Z := if (65 <=? c) && (c <=? 90) then c + 32 else c.

Definition names : list (bytes * Z) :=
  [(txt "uint8", UINT8); (txt "sint8", SINT8); (txt "uint16", UINT16); (txt "sint16", SINT16); (txt "uint32", UINT32);
   (txt "sint32", SINT32); (txt "uint64", UINT64); (txt "sint64", SINT64); (txt "real64", REAL64); (txt "real32", REAL32);
   (txt "char16", CHAR16); (txt "string", STRING); (txt "boolean", BOOLEAN); (txt "datetime", DATETIME);
   (txt "ref", REFERENCE); (txt "reference", REFERENCE)].

Fixpoint find_name (r : list (bytes * Z)) (s : bytes) : Z :=
  match r with
  | (n, t) :: r => if bool_decide (s = n) then t else find_name r s
  | [] => INVALID
  end.

(** Compare the lower-cased string with one name after the other. *)
Definition strToSimpleType_slow (strType : bytes) : Z := find_name names (map lower strType).

(** ** They agree *)

(** What may follow when a character has been read. *)
Definition follow (c : Z) (r : list (bytes * Z)) : list (bytes * Z) :=
  omap (fun '(n, t) => match n with x :: n => if x =? c then Some (n, t) else None | [] => None end) r.

Lemma find_follow c r s : find_name r (c :: s) = find_name (follow c r) s.
Proof.
  unfold follow in *. induction r as [|[n t] r IH]; [done|]. cbn [find_name omap list_omap].
  destruct n as [|x n]; [by rewrite bool_decide_false|].
  destruct (Z.eqb_spec x c) as [->|Hx].
  - cbn [find_name]. rewrite <- IH. by rewrite (bool_decide_ext (c :: s = c :: n) (s = n)) by naive_solver.
  - rewrite bool_decide_false by naive_solver. apply IH.
Qed.

(** The rest of each name at the label that the scanner has reached in it. *)
Fixpoint rests (label : Z) (n : bytes) (t : Z) : list (Z * (bytes * Z)) :=
  (label, (n, t)) :: match n with
                     | c :: n => match yy false label c with Goto l => rests l n t | Return _ => [] end
                     | [] => []
                     end.

Definition labels : list Z := remove_dups (map fst (concat (map (fun '(n, t) => rests 0 n t) names))).
Definition residual (label : Z) : list (bytes * Z) :=
  omap (fun '(l, x) => if l =? label then Some x else None) (concat (map (fun '(n, t) => rests 0 n t) names)).

(** At every label, every ASCII character: the next label stands for what may
   follow; the NUL returns what the rest of the name says. *)
Definition step_ok (sg : bool) (label c : Z) : bool :=
  match yy sg label c with
  | Goto l => (bool_decide (l ∈ labels)) && (bool_decide (residual l = follow (lower c) (residual label)))
  | Return t => if c =? 0 then t =? find_name (residual label) []
                else bool_decide (follow (lower c) (residual label) = []) && (t =? INVALID)
  end.

Lemma steps_ok : forallb (fun sg => forallb (fun l => forallb (step_ok sg l) (seqZ 0 128)) labels) [true; false] = true.
Proof. vm_compute. reflexivity. Qed.

Lemma step_checked sg label c : label ∈ labels -> 0 <= c < 128 -> step_ok sg label c = true.
Proof.
  intros Hl Hc. pose proof steps_ok as H. rewrite forallb_forall in H.
  specialize (H sg ltac:(destruct sg; simpl; auto)). rewrite forallb_forall in H.
  specialize (H label ltac:(by apply list_elem_of_In)). rewrite forallb_forall in H.
  apply H, list_elem_of_In, elem_of_seqZ. lia.
Qed.

Lemma find_nil s : find_name [] s = INVALID.
Proof. done. Qed.

Lemma scan_residual sg s label : label ∈ labels -> Forall (fun c => 0 < c < 128) s ->
  scan sg label (s ++ [0]) = Ok (find_name (residual label) (map lower s)).
Proof.
  intros Hl Hs. revert label Hl. induction Hs as [|c s Hc _ IH]; intros label Hl; cbn [app scan map].
  - pose proof (step_checked sg label 0 Hl ltac:(lia)) as H. unfold step_ok in H.
    destruct (yy sg label 0) as [l|t] eqn:E.
    + exfalso. revert E. apply andb_true_iff in H as [_ H]. apply bool_decide_eq_true in H.
      assert (forallb (fun sg => forallb (fun l => match yy sg l 0 with Goto _ => false | Return _ => true end) labels) [true; false] = true)
        as Hz by (by vm_compute).
      rewrite forallb_forall in Hz. specialize (Hz sg ltac:(destruct sg; simpl; auto)). rewrite forallb_forall in Hz.
      specialize (Hz label ltac:(by apply list_elem_of_In)). intros E. by rewrite E in Hz.
    + apply Z.eqb_eq in H. by rewrite H.
  - pose proof (step_checked sg label c Hl ltac:(lia)) as H. unfold step_ok in H. rewrite find_follow.
    destruct (yy sg label c) as [l|t].
    + apply andb_true_iff in H as [H1 H2]. apply bool_decide_eq_true in H1, H2. rewrite <- H2. by apply IH.
    + destruct (Z.eqb_spec c 0); [lia|]. apply andb_true_iff in H as [H1 H2]. apply bool_decide_eq_true in H1.
      rewrite H1, find_nil. apply Z.eqb_eq in H2. by rewrite H2.
Qed.

Lemma scan_slow sg s : Forall (fun c => 0 < c < 128) s -> strToSimpleType sg s = Ok (strToSimpleType_slow s).
Proof.
  intros Hs. unfold strToSimpleType, strToSimpleType_slow. rewrite scan_residual; [|apply (bool_decide_unpack _); by vm_compute|done].
  by assert (residual 0 = names) as -> by (by vm_compute).
Qed.

(** The names of the simple types are recognised. *)
Lemma type_names sg t : 1 <= t <= 15 -> strToSimpleType sg (typeToString t) = Ok t.
Proof.
  intros Ht.
  assert (forallb (fun sg => forallb (fun t => match strToSimpleType sg (typeToString t) with Ok x => x =? t | _ => false end)
    (seqZ 1 15)) [true; false] = true) as H by (by vm_compute).
  rewrite forallb_forall in H. specialize (H sg ltac:(destruct sg; simpl; auto)). rewrite forallb_forall in H.
  specialize (H t ltac:(apply list_elem_of_In, elem_of_seqZ; lia)). destruct (strToSimpleType sg (typeToString t)); try done.
  apply Z.eqb_eq in H. by rewrite H.
Qed.

(** Where [char] has a sign, a name followed by a character outside of ASCII is
   taken for the name. *)
Example signed_char_accepts : strToSimpleType true (txt "uint16" ++ [255]) = Ok UINT16 /\
  strToSimpleType_slow (txt "uint16" ++ [255]) = INVALID /\ strToSimpleType false (txt "uint16" ++ [255]) = Ok INVALID.
Proof. vm_compute. done. Qed.
