(* ===== verification/CimIO.v ===== *)
(** * Reading and writing CIM objects

   [writeObject] and [readObject] of the classes of src/src/cim.  The writers
   append to a stream, the readers take from one.  [readObject] replaces all of
   the data of the object it is called on, so that the object read does not
   depend on what it was before; the readers return the new data. *)

From S2P Require Import Prelude Blocxx CimSerial CimData.
Import CIMDataType.

(** Signatures: one character each. *)
Definition SIG_C : Z := 67.    (* OW_CIMCLASSSIG *)
Definition SIG_I : Z := 73.    (* OW_CIMINSTANCESIG *)
Definition SIG_M : Z := 77.    (* OW_CIMMETHODSIG *)
Definition SIG_P : Z := 80.    (* OW_CIMPARAMETERSIG *)
Definition SIG_R : Z := 82.    (* OW_CIMPROPERTYSIG *)
Definition SIG_Q : Z := 81.    (* OW_CIMQUALIFIERSIG *)
Definition SIG_T : Z := 84.    (* OW_CIMQUALIFIERTYPESIG *)
Definition SIG_D : Z := 68.    (* OW_CIMDATATYPESIG *)
Definition SIG_N : Z := 78.    (* OW_CIMNAMESPACESIG *)
Definition SIG_O : Z := 79.    (* OW_CIMOBJECTPATHSIG *)
Definition SIG_V : Z := 86.    (* OW_CIMVALUESIG *)
Definition SIG_U : Z := 85.    (* OW_CIMURLSIG *)
Definition SIG_L : Z := 76.    (* OW_CIMPARAMVALUESIG *)
Definition SIG_Cv : Z := 99.   (* OW_CIMCLASSSIG_V *)
Definition SIG_Iv : Z := 105.  (* OW_CIMINSTANCESIG_V *)
Definition SIG_Qv : Z := 113.  (* OW_CIMQUALIFIERSIG_V *)

(** [SERIALIZATION_VERSION] of each class. *)
Definition CIMClass_VERSION : Z := 2.
Definition CIMQualifier_VERSION : Z := 1.
Definition CIMInstance_VERSION : Z := 2.

Section IO.
Context {bx : Blocxx} {ss : StringSearch} {sc : StringConv}.

(** ** Parts without values *)

Definition writeName : bytes -> Prog bytes () := String_writeObject.
Definition readName : Prog bytes bytes := String_readObject.

Definition writeDataType (t : CIMDataType_) : Prog bytes () :=
  writeSig SIG_D ;;
  d ← deref t;
  writeLen (u32 (m_type d)) ;;
  writeLen (u32 (m_numberOfElements d)) ;;
  writeLen (u32 (m_sizeRange d)) ;;
  writeName (m_reference d).

Definition readDataType : Prog bytes CIMDataType_ :=
  readSig SIG_D ;;
  type ← readLen; numberOfElements ← readLen; sizeRange ← readLen; ref ← readName;
  mret (Some (mkDT type (s32 numberOfElements) (s32 sizeRange) ref)).

(** [CIMScope] and [CIMFlavor]: a length-encoded number. *)
Definition writeScope (v : Z) : Prog bytes () := writeLen (u32 v).
Definition readScope : Prog bytes Z := readLen.
Definition writeFlavor (f : Z) : Prog bytes () := writeLen (u32 f).
Definition readFlavor : Prog bytes Z := f ← readLen; mret (s32 f).

Definition writeUrl (u : CIMUrl) : Prog bytes () :=
  writeSig SIG_U ;; d ← deref u; String_writeObject (m_spec d).

Definition readUrl : Prog bytes CIMUrl :=
  readSig SIG_U ;; spec ← String_readObject; mret (CIMUrl_spec spec).

Definition writeNameSpace (n : CIMNameSpace) : Prog bytes () :=
  writeSig SIG_N ;; d ← deref n; String_writeObject (m_nameSpace d) ;; writeUrl (m_url d).

Definition readNameSpace : Prog bytes CIMNameSpace :=
  readSig SIG_N ;; ns ← String_readObject; url ← readUrl; mret (Some (mkNS ns url)).

Definition writeDateTime (t : CIMDateTime) : Prog bytes () :=
  d ← deref t;
  writeInt 2 (m_year d) ;; writeInt 1 (m_month d) ;; writeInt 4 (m_days d) ;; writeInt 1 (m_hours d) ;;
  writeInt 1 (m_minutes d) ;; writeInt 1 (m_seconds d) ;; writeInt 4 (m_microSeconds d) ;; writeInt 2 (m_utc d) ;;
  writeInt 1 (m_isInterval d).

Definition readDateTime : Prog bytes CIMDateTime :=
  year ← readUInt 2; month ← readUInt 1; days ← readUInt 4; hours ← readUInt 1; minutes ← readUInt 1;
  seconds ← readUInt 1; microSeconds ← readUInt 4; utc ← readInt 2; isInterval ← readUInt 1;
  mret (Some (mkDateTime year month days hours minutes seconds microSeconds utc isInterval)).

(** ** Parts with values *)

Section Values.
Context {V : Type} (writeV : V -> Prog bytes ()) (readV : Prog bytes V).

(** A flag and the value, if there is one. *)
Definition writeOptional (v : option V) : Prog bytes () :=
  match v with
  | Some x => Bool_writeObject true ;; writeV x
  | None => Bool_writeObject false
  end.

Definition readOptional (isValue : bool) : Prog bytes (option V) :=
  if isValue then x ← readV; mret (Some x) else mret None.

Definition writeQualifierType (t : option (QUALTData V)) : Prog bytes () :=
  writeSig SIG_T ;;
  d ← deref t;
  writeName (cqt_name d) ;;
  writeDataType (cqt_dataType d) ;;
  writeArray writeScope (cqt_scope d) ;;
  writeArray writeFlavor (cqt_flavor d) ;;
  writeOptional (cqt_defaultValue d).

Definition readQualifierType : Prog bytes (option (QUALTData V)) :=
  readSig SIG_T ;;
  name ← readName; dataType ← readDataType; scope ← readArray readScope; flavor ← readArray readFlavor;
  isValue ← Bool_readObject; defaultValue ← readOptional isValue;
  mret (Some (mkQualT name dataType scope flavor defaultValue)).

(** The default value of the qualifier type is looked up when the qualifier has
   no value of its own, and then not written. *)
Definition writeQualifier (q : option (QUALData V)) : Prog bytes () :=
  writeSigV SIG_Qv CIMQualifier_VERSION ;;
  d ← deref q;
  writeName (cq_name d) ;;
  (let qv := match cq_qualifierValue d, cq_qualifierType d with
             | None, Some t => cqt_defaultValue t
             | v, _ => v
             end in
   match cq_qualifierValue d with
   | Some _ => Bool_writeObject true ;; v ← deref qv; writeV v
   | None => Bool_writeObject false
   end) ;;
  writeQualifierType (cq_qualifierType d) ;;
  Bool_writeObject (cq_propagated d) ;;
  writeArray writeFlavor (cq_flavors d) ;;
  String_writeObject (cq_language d).

Definition readQualifier : Prog bytes (option (QUALData V)) :=
  version ← readSigV SIG_Q SIG_Qv CIMQualifier_VERSION;
  name ← readName; isValue ← Bool_readObject; qualifierValue ← readOptional isValue;
  qualifierType ← readQualifierType; propagated ← Bool_readObject; flavors ← readArray readFlavor;
  language ← (if 0 <? version then String_readObject else mret []);
  mret (Some (mkQual name qualifierValue qualifierType propagated flavors language)).

Definition writeProperty_ (includeQualifiers : bool) (p : option (PROPData V)) : Prog bytes () :=
  writeSig SIG_R ;;
  d ← deref p;
  writeName (p_name d) ;;
  writeName (p_override d) ;;
  writeName (p_originClass d) ;;
  writeDataType (p_propertyDataType d) ;;
  writeLen (u32 (p_sizeDataType d)) ;;
  Bool_writeObject (p_propagated d) ;;
  writeArray writeQualifier (if includeQualifiers then p_qualifiers d else []) ;;
  writeOptional (p_cimValue d).

Definition writeProperty : option (PROPData V) -> Prog bytes () := writeProperty_ true.

Definition readProperty : Prog bytes (option (PROPData V)) :=
  readSig SIG_R ;;
  name ← readName; override ← readName; originClass ← readName; propertyDataType ← readDataType;
  sizeDataType ← readLen; propagated ← Bool_readObject; qualifiers ← readArray readQualifier;
  isValue ← Bool_readObject; cimValue ← readOptional isValue;
  mret (Some (mkProp name qualifiers propertyDataType (s32 sizeDataType) override originClass cimValue propagated)).

Definition writeParameter (p : option (PARMData V)) : Prog bytes () :=
  writeSig SIG_P ;;
  d ← deref p;
  writeName (prm_name d) ;;
  writeDataType (prm_dataType d) ;;
  writeArray writeQualifier (prm_qualifiers d).

Definition readParameter : Prog bytes (option (PARMData V)) :=
  readSig SIG_P ;;
  name ← readName; dataType ← readDataType; qualifiers ← readArray readQualifier;
  mret (Some (mkParm name dataType qualifiers)).

Definition writeMethod (m : option (METHData V)) : Prog bytes () :=
  writeSig SIG_M ;;
  d ← deref m;
  writeName (mt_name d) ;;
  writeDataType (mt_returnDatatype d) ;;
  writeArray writeQualifier (mt_qualifiers d) ;;
  writeArray writeParameter (mt_parameters d) ;;
  writeName (mt_originClass d) ;;
  writeName (mt_override d) ;;
  Bool_writeObject (mt_propagated d).

Definition readMethod : Prog bytes (option (METHData V)) :=
  readSig SIG_M ;;
  name ← readName; returnDatatype ← readDataType; qualifiers ← readArray readQualifier;
  parameters ← readArray readParameter; originClass ← readName; override ← readName; propagated ← Bool_readObject;
  mret (Some (mkMeth name returnDatatype qualifiers parameters originClass override propagated)).

(** The unversioned signature is written, since version 2 has the same format. *)
Definition writeClass (c : option (CLSData V)) : Prog bytes () :=
  writeSig SIG_C ;;
  d ← deref c;
  writeName (cc_name d) ;;
  writeName (cc_parentClassName d) ;;
  Bool_writeObject (cc_associationFlag d) ;;
  Bool_writeObject (cc_isKeyed d) ;;
  writeArray writeQualifier (cc_qualifiers d) ;;
  writeArray writeProperty (cc_properties d) ;;
  writeArray writeMethod (cc_methods d).

Definition readClass : Prog bytes (option (CLSData V)) :=
  version ← readSigV SIG_C SIG_Cv CIMClass_VERSION;
  name ← readName; pcName ← readName; isAssocFlag ← Bool_readObject; isK ← Bool_readObject;
  qra ← readArray readQualifier; pra ← readArray readProperty; mra ← readArray readMethod;
  (if version =? 1 then _ ← String_readObject; mret () else mret ()) ;;
  mret (Some (mkCls name pcName qra pra mra isAssocFlag isK)).

Definition writeInstance (i : option (INSTData V)) : Prog bytes () :=
  writeSigV SIG_Iv CIMInstance_VERSION ;;
  d ← deref i;
  writeName (ci_owningClassName d) ;;
  writeArray writeProperty (ci_keys d) ;;
  writeArray writeProperty (ci_properties d) ;;
  writeArray writeQualifier (ci_qualifiers d) ;;
  String_writeObject (ci_language d) ;;
  String_writeObject (ci_namespace d).

Definition readInstance : Prog bytes (option (INSTData V)) :=
  version ← readSigV SIG_I SIG_Iv CIMInstance_VERSION;
  owningClassName ← readName; keys ← readArray readProperty; properties ← readArray readProperty;
  qualifiers ← readArray readQualifier;
  language ← (if 0 <? version then String_readObject else mret []);
  nameSpace ← (if 1 <? version then String_readObject else mret []);
  mret (Some (mkInst nameSpace owningClassName keys properties qualifiers language)).

Definition writeObjectPath (o : option (OPData V)) : Prog bytes () :=
  writeSig SIG_O ;;
  d ← deref o;
  writeNameSpace (op_nameSpace d) ;;
  writeName (op_objectName d) ;;
  writeArray writeProperty (op_keys d).

Definition readObjectPath : Prog bytes (option (OPData V)) :=
  readSig SIG_O ;;
  nameSpace ← readNameSpace; objectName ← readName; keys ← readArray readProperty;
  mret (Some (mkOP nameSpace objectName keys)).

(** ** The union of a value *)

(** The size of the integer types and whether they have a sign. *)
Definition int_type (t : Z) : option (nat * bool) :=
  if t =? BOOLEAN then Some (1%nat, false)
  else if t =? UINT8 then Some (1%nat, false) else if t =? SINT8 then Some (1%nat, true)
  else if t =? UINT16 then Some (2%nat, false) else if t =? SINT16 then Some (2%nat, true)
  else if t =? UINT32 then Some (4%nat, false) else if t =? SINT32 then Some (4%nat, true)
  else if t =? UINT64 then Some (8%nat, false) else if t =? SINT64 then Some (8%nat, true)
  else None.

Definition readValueInt (size : nat) (sign : bool) : Prog bytes Z := if sign then readInt size else readUInt size.

Definition readReal32Value : Prog bytes Real32 := rstr ← String_readObject; of_outcome (toReal32 rstr).
Definition readReal64Value : Prog bytes Real64 := rstr ← String_readObject; of_outcome (toReal64 rstr).
Definition writeRealValue (rv : Real64) : Prog bytes () := String_writeObject (String_of_Real64 rv).

(** [BLOCXX_ASSERT(0)] for an unknown type throws, when it is compiled in. *)
Variable asserts : bool.
Definition AssertionException : string := "AssertionException".

Definition readObj (t : Z) : Prog bytes (CIMValueData V) :=
  match int_type t with
  | Some (size, sign) => x ← readValueInt size sign; mret (V_int x)
  | None =>
      if t =? REAL32 then r ← readReal32Value; mret (V_real32 r)
      else if t =? REAL64 then r ← readReal64Value; mret (V_real64 r)
      else if t =? CHAR16 then c ← Char16_readObject; mret (V_char16 c)
      else if t =? STRING then s ← String_readObject; mret (V_string s)
      else if t =? DATETIME then d ← readDateTime; mret (V_datetime d)
      else if t =? REFERENCE then o ← readObjectPath; mret (V_ref o)
      else if t =? EMBEDDEDCLASS then c ← readClass; mret (V_class c)
      else if t =? EMBEDDEDINSTANCE then i ← readInstance; mret (V_inst i)
      else if asserts then throw AssertionException else mret V_none
  end.

Definition readArrayObj (t : Z) : Prog bytes (CIMValueData V) :=
  match int_type t with
  | Some (size, sign) => l ← readArray (readValueInt size sign); mret (V_ints l)
  | None =>
      if t =? REAL32 then l ← readArray readReal32Value; mret (V_real32s l)
      else if t =? REAL64 then l ← readArray readReal64Value; mret (V_real64s l)
      else if t =? CHAR16 then l ← readArray Char16_readObject; mret (V_char16s l)
      else if t =? STRING then l ← readArray String_readObject; mret (V_strings l)
      else if t =? DATETIME then l ← readArray readDateTime; mret (V_datetimes l)
      else if t =? REFERENCE then l ← readArray readObjectPath; mret (V_refs l)
      else if t =? EMBEDDEDCLASS then l ← readArray readClass; mret (V_classes l)
      else if t =? EMBEDDEDINSTANCE then l ← readArray readInstance; mret (V_insts l)
      else if asserts then throw AssertionException else mret V_none
  end.

(** The union is read as the type says; what is not in it is undefined. *)
Definition writeObj (t : Z) (d : CIMValueData V) : Prog bytes () :=
  match int_type t with
  | Some (size, _) => match d with V_int x => writeInt size x | _ => crash end
  | None =>
      if t =? REAL32 then match d with V_real32 r => writeRealValue (real64_of_real32 r) | _ => crash end
      else if t =? REAL64 then match d with V_real64 r => writeRealValue r | _ => crash end
      else if t =? CHAR16 then match d with V_char16 c => Char16_writeObject c | _ => crash end
      else if t =? STRING then match d with V_string s => String_writeObject s | _ => crash end
      else if t =? DATETIME then match d with V_datetime x => writeDateTime x | _ => crash end
      else if t =? REFERENCE then match d with V_ref o => writeObjectPath o | _ => crash end
      else if t =? EMBEDDEDCLASS then match d with V_class c => writeClass c | _ => crash end
      else if t =? EMBEDDEDINSTANCE then match d with V_inst i => writeInstance i | _ => crash end
      else if asserts then throw AssertionException else mret ()
  end.

Definition writeArrayObj (t : Z) (d : CIMValueData V) : Prog bytes () :=
  match int_type t with
  | Some (size, _) => match d with V_ints l => writeArray (writeInt size) l | _ => crash end
  | None =>
      if t =? REAL32 then match d with V_real32s l => writeArray (fun r => writeRealValue (real64_of_real32 r)) l | _ => crash end
      else if t =? REAL64 then match d with V_real64s l => writeArray writeRealValue l | _ => crash end
      else if t =? CHAR16 then match d with V_char16s l => writeArray Char16_writeObject l | _ => crash end
      else if t =? STRING then match d with V_strings l => writeArray String_writeObject l | _ => crash end
      else if t =? DATETIME then match d with V_datetimes l => writeArray writeDateTime l | _ => crash end
      else if t =? REFERENCE then match d with V_refs l => writeArray writeObjectPath l | _ => crash end
      else if t =? EMBEDDEDCLASS then match d with V_classes l => writeArray writeClass l | _ => crash end
      else if t =? EMBEDDEDINSTANCE then match d with V_insts l => writeArray writeInstance l | _ => crash end
      else if asserts then throw AssertionException else mret ()
  end.
End Values.

(** ** Values *)

Variable asserts : bool.

(** The values inside are written first, each as a program, and these programs
   run in their places ([writeValue_eq] is the equation of the code). *)
Fixpoint writeValue (v : CIMValueImpl) : Prog bytes () :=
  match v with
  | mkValue t isArray d =>
      writeSig SIG_V ;;
      writeLen (u32 t) ;;
      Bool_writeObject isArray ;;
      let d := data_map writeValue d in
      if isArray then writeArrayObj (fun w => w) asserts t d else writeObj (fun w => w) asserts t d
  end.

(** Nothing nests deeper than the input is long. *)
Fixpoint readValue (fuel : nat) : Prog bytes CIMValueImpl :=
  match fuel with
  | O => diverge
  | S fuel =>
      readSig SIG_V ;;
      type ← readLen;
      isArray ← Bool_readObject;
      d ← (if (isArray : bool) then readArrayObj (readValue fuel) asserts type
           else readObj (readValue fuel) asserts type);
      mret (mkValue type isArray d)
  end.
(** ** The objects *)

Definition CIMValue : Type := option CIMValueImpl.
Definition CIMQualifierType : Type := option (QUALTData CIMValueImpl).
Definition CIMQualifier : Type := option (QUALData CIMValueImpl).
Definition CIMProperty : Type := option (PROPData CIMValueImpl).
Definition CIMMethod : Type := option (METHData CIMValueImpl).
Definition CIMClass : Type := option (CLSData CIMValueImpl).
Definition CIMInstance : Type := option (INSTData CIMValueImpl).
Definition CIMObjectPath : Type := option (OPData CIMValueImpl).

(** A reader with enough fuel for its input. *)
Definition with_values {A} (r : Prog bytes CIMValueImpl -> Prog bytes A) : Prog bytes A :=
  s ← get; r (readValue (S (length s))).

Definition CIMValue_writeObject (v : CIMValue) : Prog bytes () := x ← deref v; writeValue x.
Definition CIMValue_readObject : Prog bytes CIMValue := with_values (fun rV => x ← rV; mret (Some x)).
Definition CIMQualifierType_writeObject : CIMQualifierType -> Prog bytes () := writeQualifierType writeValue.
Definition CIMQualifierType_readObject : Prog bytes CIMQualifierType := with_values readQualifierType.
Definition CIMClass_writeObject : CIMClass -> Prog bytes () := writeClass writeValue.
Definition CIMClass_readObject : Prog bytes CIMClass := with_values readClass.
Definition CIMInstance_writeObject : CIMInstance -> Prog bytes () := writeInstance writeValue.
Definition CIMInstance_readObject : Prog bytes CIMInstance := with_values readInstance.
Definition CIMObjectPath_writeObject : CIMObjectPath -> Prog bytes () := writeObjectPath writeValue.
Definition CIMObjectPath_readObject : Prog bytes CIMObjectPath := with_values readObjectPath.

(** [CIMParamValue].  [readObject] puts what it has read into the data of the
   object it is called on, which has to be there. *)
Record ParamValueData := mkParamValue { pv_name : bytes; pv_val : CIMValue }.
Definition CIMParamValue : Type := option ParamValueData.

Definition CIMParamValue_writeObject (v : CIMParamValue) : Prog bytes () :=
  writeSig SIG_L ;; d ← deref v; writeName (pv_name d) ;; writeOptional writeValue (pv_val d).

Definition CIMParamValue_readObject (this : CIMParamValue) : Prog bytes CIMParamValue :=
  with_values (fun rV =>
    readSig SIG_L ;; name ← readName; b ← Bool_readObject; val ← readOptional rV b;
    _ ← deref this; mret (Some (mkParamValue name val))).

(** [BinarySerialization::writeValue] and [readValue], for a value that may be
   null. *)
Definition BIN_writeValue (value : CIMValue) : Prog bytes () :=
  writeBool (bool_decide (is_Some value)) ;;
  match value with Some _ => CIMValue_writeObject value | None => mret () end.
Definition BIN_readValue : Prog bytes CIMValue :=
  isValue ← readBool; if (isValue : bool) then CIMValue_readObject else mret None.
End IO.
