(* ===== verification/CimTotal.v ===== *)
(** * CIM objects survive writing and reading

   What an object has to be like to be written ([..._ok]: no null reference on
   the way, numbers within their type, arrays shorter than 2^32, a union that
   holds what the type says), and that it is then read back as it was. *)

From S2P Require Import Prelude Blocxx CimSerial CimData CimIO.

Import CIMDataType.

Definition is_s32 (z : Z) : Prop := - 2 ^ 31 <= z < 2 ^ 31.
Definition is_u32' (z : Z) : Prop := 0 <= z < 2 ^ 32.
Definition arr_ok {A} (P : A -> Prop) (l : list A) : Prop := Forall P l /\ zlen l < 2 ^ 32.
Definition there {A} (P : A -> Prop) (o : option A) : Prop := match o with Some x => P x | None => False end.

(** Short texts can be sent. *)
Lemma text_ok l : forallb (fun c => (0 <=? c) && (c <? 256)) l = true -> zlen l < 100 -> string_ok l.
Proof.
  intros H Hz. split; [|lia]. apply Forall_forall. intros c Hc. rewrite forallb_forall in H.
  apply list_elem_of_In, H in Hc. unfold is_byte. zbool. lia.
Qed.

(** ** Well-formed objects *)

Section Shape.
Context {bx : Blocxx} {ss : StringSearch} {sc : StringConv}.

Definition dt_ok : CIMDataType_ -> Prop := there (fun d =>
  is_u32' (m_type d) /\ is_s32 (m_numberOfElements d) /\ is_s32 (m_sizeRange d) /\ string_ok (m_reference d)).

(** A URL is read by parsing its text again. *)
Definition url_ok : CIMUrl -> Prop := there (fun d => string_ok (m_spec d) /\ CIMUrl_spec (m_spec d) = Some d).
Definition ns_ok : CIMNameSpace -> Prop := there (fun d => string_ok (m_nameSpace d) /\ url_ok (m_url d)).

Definition datetime_ok : CIMDateTime -> Prop := there (fun d =>
  0 <= m_year d < 2 ^ 16 /\ 0 <= m_month d < 2 ^ 8 /\ 0 <= m_days d < 2 ^ 32 /\ 0 <= m_hours d < 2 ^ 8 /\
  0 <= m_minutes d < 2 ^ 8 /\ 0 <= m_seconds d < 2 ^ 8 /\ 0 <= m_microSeconds d < 2 ^ 32 /\
  - 2 ^ 15 <= m_utc d < 2 ^ 15 /\ 0 <= m_isInterval d < 2 ^ 8).

Context {V : Type}.

Definition qualt_ok (d : QUALTData V) : Prop :=
  string_ok (cqt_name d) /\ dt_ok (cqt_dataType d) /\ arr_ok is_u32' (cqt_scope d) /\ arr_ok is_s32 (cqt_flavor d).

Definition qual_ok (d : QUALData V) : Prop :=
  string_ok (cq_name d) /\ there qualt_ok (cq_qualifierType d) /\ arr_ok is_s32 (cq_flavors d) /\ string_ok (cq_language d).

Definition prop_ok (d : PROPData V) : Prop :=
  string_ok (p_name d) /\ string_ok (p_override d) /\ string_ok (p_originClass d) /\ dt_ok (p_propertyDataType d) /\
  is_s32 (p_sizeDataType d) /\ arr_ok (there qual_ok) (p_qualifiers d).

Definition parm_ok (d : PARMData V) : Prop :=
  string_ok (prm_name d) /\ dt_ok (prm_dataType d) /\ arr_ok (there qual_ok) (prm_qualifiers d).

Definition meth_ok (d : METHData V) : Prop :=
  string_ok (mt_name d) /\ dt_ok (mt_returnDatatype d) /\ arr_ok (there qual_ok) (mt_qualifiers d) /\
  arr_ok (there parm_ok) (mt_parameters d) /\ string_ok (mt_originClass d) /\ string_ok (mt_override d).

Definition cls_ok (d : CLSData V) : Prop :=
  string_ok (cc_name d) /\ string_ok (cc_parentClassName d) /\ arr_ok (there qual_ok) (cc_qualifiers d) /\
  arr_ok (there prop_ok) (cc_properties d) /\ arr_ok (there meth_ok) (cc_methods d).

Definition inst_ok (d : INSTData V) : Prop :=
  string_ok (ci_owningClassName d) /\ arr_ok (there prop_ok) (ci_keys d) /\ arr_ok (there prop_ok) (ci_properties d) /\
  arr_ok (there qual_ok) (ci_qualifiers d) /\ string_ok (ci_language d) /\ string_ok (ci_namespace d).

Definition op_ok (d : OPData V) : Prop :=
  ns_ok (op_nameSpace d) /\ string_ok (op_objectName d) /\ arr_ok (there prop_ok) (op_keys d).

(** Reals are stored as text; the text has to name the same number. *)
Definition real32_ok (r : Real32) : Prop :=
  string_ok (String_of_Real64 (real64_of_real32 r)) /\ toReal32 (String_of_Real64 (real64_of_real32 r)) = Ok r.
Definition real64_ok (r : Real64) : Prop := string_ok (String_of_Real64 r) /\ toReal64 (String_of_Real64 r) = Ok r.

Definition int_ok (size : nat) (sign : bool) (x : Z) : Prop :=
  if sign then - 2 ^ (8 * Z.of_nat size - 1) <= x < 2 ^ (8 * Z.of_nat size - 1) else 0 <= x < 2 ^ (8 * Z.of_nat size).

Definition obj_ok (t : Z) (d : CIMValueData V) : Prop :=
  match d with
  | V_int x => exists size sign, int_type t = Some (size, sign) /\ int_ok size sign x
  | V_real32 r => t = REAL32 /\ real32_ok r
  | V_real64 r => t = REAL64 /\ real64_ok r
  | V_char16 c => t = CHAR16 /\ 0 <= c < 65536
  | V_string s => t = STRING /\ string_ok s
  | V_datetime x => t = DATETIME /\ datetime_ok x
  | V_ref o => t = REFERENCE /\ there op_ok o
  | V_class c => t = EMBEDDEDCLASS /\ there cls_ok c
  | V_inst i => t = EMBEDDEDINSTANCE /\ there inst_ok i
  | _ => False
  end.

Definition array_obj_ok (t : Z) (d : CIMValueData V) : Prop :=
  match d with
  | V_ints l => exists size sign, int_type t = Some (size, sign) /\ arr_ok (int_ok size sign) l
  | V_real32s l => t = REAL32 /\ arr_ok real32_ok l
  | V_real64s l => t = REAL64 /\ arr_ok real64_ok l
  | V_char16s l => t = CHAR16 /\ arr_ok (fun c => 0 <= c < 65536) l
  | V_strings l => t = STRING /\ arr_ok string_ok l
  | V_datetimes l => t = DATETIME /\ arr_ok datetime_ok l
  | V_refs l => t = REFERENCE /\ arr_ok (there op_ok) l
  | V_classes l => t = EMBEDDEDCLASS /\ arr_ok (there cls_ok) l
  | V_insts l => t = EMBEDDEDINSTANCE /\ arr_ok (there inst_ok) l
  | _ => False
  end.

Definition value_shape (t : Z) (isArray : bool) (d : CIMValueData V) : Prop :=
  if isArray then array_obj_ok t d else obj_ok t d.
End Shape.

(** A value is well formed when it has the right shape and the values inside it
   are well formed. *)
Fixpoint value_ok {bx : Blocxx} {ss : StringSearch} {sc : StringConv} (v : CIMValueImpl) : Prop :=
  match v with mkValue t a d => value_shape t a d /\ Forall (fun P => P) (data_values (data_map value_ok d)) end.

Lemma value_ok_eq {bx : Blocxx} {ss : StringSearch} {sc : StringConv} t a d :
  value_ok (mkValue t a d) <-> value_shape t a d /\ Forall value_ok (data_values d).
Proof. cbn [value_ok]. by rewrite data_values_map, Forall_map. Qed.

(** ** Reading what was written *)

Create HintDb cimtrip.
#[local] Arguments uwrap : simpl never.
#[local] Arguments swrap : simpl never.

Lemma trip_eq {A} w (r : Prog bytes A) x y : trip w r x -> x = y -> trip w r y.
Proof. by intros H <-. Qed.

Lemma trip_weq {A} w w' (r : Prog bytes A) x : w = w' -> trip w' r x -> trip w r x.
Proof. by intros ->. Qed.

Lemma trip_deref {A B} (w : A -> Prog bytes ()) (r : Prog bytes B) x y : trip (w x) r y -> trip (d ← deref (Some x); w d) r y.
Proof. exact id. Qed.

(** The next part of an object. *)
Ltac part := eapply trip_bind; [solve [eauto 4 with cimtrip]|cbn beta].
Ltac parts := repeat first [apply trip_deref | part].

Lemma s32_u32 z : is_s32 z -> s32 (u32 z) = z.
Proof. intros Hz. rewrite swrap_uwrap by lia. apply s32_id. exact Hz. Qed.

Lemma Len32_trip z : trip (writeLen (u32 z)) readLen (u32 z).
Proof. apply Len_trip. apply uwrap_range. lia. Qed.

Lemma Len_s32_trip z : is_s32 z -> trip (writeLen (u32 z)) (f ← readLen; mret (s32 f)) z.
Proof. intros Hz. eapply trip_eq; [apply (trip_last _ _ (swrap 32)), Len32_trip|by apply s32_u32]. Qed.

Lemma Len_u32_trip z : is_u32' z -> trip (writeLen (u32 z)) readLen z.
Proof. intros Hz. eapply trip_eq; [apply Len32_trip|by apply u32_id]. Qed.

#[export] Hint Resolve sig_trip Len32_trip String_trip Bool_trip Char16_trip : cimtrip.

Section Trip.
Context {bx : Blocxx} {ss : StringSearch} {sc : StringConv} {bl : BlocxxLaws}.

Lemma arr_trip {A} (P : A -> Prop) (w : A -> Prog bytes ()) r l :
  arr_ok P l -> (forall x, x ∈ l -> P x -> trip (w x) r x) -> trip (writeArray w l) (readArray r) l.
Proof.
  intros [Hl Hz] H. apply array_trip; [|done]. rewrite Forall_forall in *. intros x Hx. apply H; [done|]. by apply Hl.
Qed.

Lemma dt_trip t : dt_ok t -> trip (writeDataType t) readDataType t.
Proof.
  destruct t as [[ty n s r]|]; [|done]. intros (H1 & H2 & H3 & H4). unfold writeDataType, readDataType.
  simpl in *. eapply trip_eq; [parts; apply (trip_last _ _ (fun r => Some (mkDT _ _ _ r))), String_trip, H4|].
  simpl. by rewrite (u32_id ty), !s32_u32 by done.
Qed.

Lemma scopes_trip l : arr_ok is_u32' l -> trip (writeArray writeScope l) (readArray readScope) l.
Proof. intros Hl. eapply arr_trip; [exact Hl|]. intros. by apply Len_u32_trip. Qed.

Lemma flavors_trip l : arr_ok is_s32 l -> trip (writeArray writeFlavor l) (readArray readFlavor) l.
Proof. intros Hl. eapply arr_trip; [exact Hl|]. intros. by apply Len_s32_trip. Qed.

Lemma url_trip u : url_ok u -> trip (writeUrl u) readUrl u.
Proof.
  destruct u as [d|]; [|done]. intros [H1 H2]. unfold writeUrl, readUrl. eapply trip_eq; [|exact H2].
  parts. by apply (trip_last _ _ CIMUrl_spec), String_trip.
Qed.
Hint Resolve dt_trip scopes_trip flavors_trip url_trip : cimtrip.

Lemma ns_trip n : ns_ok n -> trip (writeNameSpace n) readNameSpace n.
Proof.
  destruct n as [[ns u]|]; [|done]. intros [H1 H2]. simpl in *. unfold writeNameSpace, readNameSpace.
  parts. by apply (trip_last _ _ (fun u => Some (mkNS ns u))), url_trip.
Qed.

Lemma datetime_trip t : datetime_ok t -> trip (writeDateTime t) readDateTime t.
Proof.
  destruct t as [[y mo d h mi s us utc iv]|]; [|done]. intros (H1 & H2 & H3 & H4 & H5 & H6 & H7 & H8 & H9).
  unfold writeDateTime, readDateTime. apply trip_deref. simpl in *.
  do 7 (eapply trip_bind; [apply UInt_trip; simpl; lia|cbn beta]).
  eapply trip_bind; [apply Int_trip; simpl; lia|cbn beta].
  apply (trip_last _ _ (fun v => Some (mkDateTime y mo d h mi s us utc v))), UInt_trip. simpl. lia.
Qed.
Hint Resolve ns_trip datetime_trip : cimtrip.

(** ** Objects with values *)

Section WithValues.
Context {V : Type} (writeV : V -> Prog bytes ()) (readV : Prog bytes V).
Abbreviation ok := (fun v => trip (writeV v) readV v).

(** A value that may be absent, in the middle and at the end of an object. *)
Lemma optional_trip {B} (v : option V) w2 (k : option V -> Prog bytes B) y :
  Forall ok (option_list v) -> trip w2 (k v) y ->
  trip (writeOptional writeV v ;; w2) (b ← Bool_readObject; v ← readOptional readV b; k v) y.
Proof.
  intros Hv Hk. apply (option_trip Bool_writeObject Bool_readObject); [apply Bool_trip| |done].
  intros x ->. by inversion Hv.
Qed.

Lemma optional_last {B} (v : option V) (f : option V -> B) :
  Forall ok (option_list v) ->
  trip (writeOptional writeV v) (b ← Bool_readObject; v ← readOptional readV b; mret (f v)) (f v).
Proof.
  intros Hv. unfold writeOptional, readOptional. destruct v as [x|].
  - inversion Hv; subst. part. by apply (trip_last _ (x ← readV; mret (Some x)) f), (trip_last _ _ Some).
  - destruct (Bool_trip false) as (b & Hw & Hr). exists b. split; [done|]. intros rest. unfold mbind, Prog_bind. by rewrite Hr.
Qed.

Lemma objs_trip {A} (P : A -> Prop) (vals : A -> list V) (w : option A -> Prog bytes ()) (r : Prog bytes (option A)) l :
  (forall d, P d -> Forall ok (vals d) -> trip (w (Some d)) r (Some d)) ->
  arr_ok (there P) l -> Forall ok (of_list vals l) -> trip (writeArray w l) (readArray r) l.
Proof.
  intros H Hl Hv. eapply arr_trip; [exact Hl|]. intros [d|] Hx Hd; [|done]. apply H; [done|].
  rewrite Forall_forall in *. intros v Hin. apply Hv. unfold of_list. rewrite list_elem_of_In, in_concat.
  exists (vals d). split; [|by apply list_elem_of_In]. apply in_map_iff. exists (Some d). split; [done|]. by apply list_elem_of_In.
Qed.

Lemma qualt_trip d : qualt_ok d -> Forall ok (qualt_values d) ->
  trip (writeQualifierType writeV (Some d)) (readQualifierType readV) (Some d).
Proof.
  destruct d as [n t s f v]. intros (H1 & H2 & H3 & H4) Hv. simpl in *. unfold writeQualifierType, readQualifierType.
  parts. by apply (optional_last v (fun v => Some (mkQualT n t s f v))).
Qed.

Lemma qual_trip d : qual_ok d -> Forall ok (qual_values d) ->
  trip (writeQualifier writeV (Some d)) (readQualifier readV) (Some d).
Proof.
  destruct d as [n v [t|] p f l]; [|intros (_ & [] & _)]. intros (H1 & H2 & H3 & H4) Hv. simpl in *.
  apply Forall_app in Hv as [Hv Ht]. unfold writeQualifier, readQualifier.
  eapply trip_bind; [by apply sigV_trip|cbn beta]. apply trip_deref.
  cbn [cq_name cq_qualifierValue cq_qualifierType cq_propagated cq_flavors cq_language]. part.
  match goal with |- trip (_ ≫= ?k) _ _ => apply (trip_weq _ (writeOptional writeV v ≫= k)); [by destruct v|] end.
  eapply (optional_trip v); [done|]. eapply trip_bind; [by apply qualt_trip|cbn beta]. parts.
  cbn. by apply (trip_last _ _ (fun l => Some (mkQual n v (Some t) p f l))), String_trip.
Qed.

Lemma quals_trip l : arr_ok (there qual_ok) l -> Forall ok (of_list qual_values l) ->
  trip (writeArray (writeQualifier writeV) l) (readArray (readQualifier readV)) l.
Proof. apply objs_trip. apply qual_trip. Qed.
Hint Resolve quals_trip : cimtrip.

Lemma prop_trip d : prop_ok d -> Forall ok (prop_values d) ->
  trip (writeProperty writeV (Some d)) (readProperty readV) (Some d).
Proof.
  destruct d as [n q t s o c v p]. intros (H1 & H2 & H3 & H4 & H5 & H6) Hv. simpl in *.
  apply Forall_app in Hv as [Hq Hv]. unfold writeProperty, writeProperty_, readProperty. eapply trip_eq.
  - parts. by apply (optional_last v (fun v => Some (mkProp n q t (s32 (u32 s)) o c v p))).
  - simpl. by rewrite s32_u32.
Qed.

Lemma props_trip l : arr_ok (there prop_ok) l -> Forall ok (of_list prop_values l) ->
  trip (writeArray (writeProperty writeV) l) (readArray (readProperty readV)) l.
Proof. apply objs_trip. apply prop_trip. Qed.
Hint Resolve props_trip : cimtrip.

Lemma parm_trip d : parm_ok d -> Forall ok (parm_values d) ->
  trip (writeParameter writeV (Some d)) (readParameter readV) (Some d).
Proof.
  destruct d as [n t q]. intros (H1 & H2 & H3) Hv. simpl in *. unfold writeParameter, readParameter.
  parts. by apply (trip_last _ _ (fun q => Some (mkParm n t q))), quals_trip.
Qed.

Lemma parms_trip l : arr_ok (there parm_ok) l -> Forall ok (of_list parm_values l) ->
  trip (writeArray (writeParameter writeV) l) (readArray (readParameter readV)) l.
Proof. apply objs_trip. apply parm_trip. Qed.
Hint Resolve parms_trip : cimtrip.

Lemma meth_trip d : meth_ok d -> Forall ok (meth_values d) ->
  trip (writeMethod writeV (Some d)) (readMethod readV) (Some d).
Proof.
  destruct d as [n t q ps c o p]. intros (H1 & H2 & H3 & H4 & H5 & H6) Hv. simpl in *.
  apply Forall_app in Hv as [Hq Hp]. unfold writeMethod, readMethod.
  parts. by apply (trip_last _ _ (fun p => Some (mkMeth n t q ps c o p))), Bool_trip.
Qed.

Lemma meths_trip l : arr_ok (there meth_ok) l -> Forall ok (of_list meth_values l) ->
  trip (writeArray (writeMethod writeV) l) (readArray (readMethod readV)) l.
Proof. apply objs_trip. apply meth_trip. Qed.
Hint Resolve meths_trip : cimtrip.

Lemma cls_trip d : cls_ok d -> Forall ok (cls_values d) -> trip (writeClass writeV (Some d)) (readClass readV) (Some d).
Proof.
  destruct d as [n pn q ps ms a k]. intros (H1 & H2 & H3 & H4 & H5) Hv. simpl in *.
  apply Forall_app in Hv as [Hq Hv]. apply Forall_app in Hv as [Hp Hm]. unfold writeClass, readClass.
  eapply trip_bind; [apply sig0_trip|cbn beta]. apply trip_deref.
  cbn [cc_name cc_parentClassName cc_qualifiers cc_properties cc_methods cc_associationFlag cc_isKeyed].
  do 6 part. cbn. by apply (trip_last _ _ (fun ms => Some (mkCls n pn q ps ms a k))), meths_trip.
Qed.

Lemma inst_trip d : inst_ok d -> Forall ok (inst_values d) ->
  trip (writeInstance writeV (Some d)) (readInstance readV) (Some d).
Proof.
  destruct d as [n c ks ps q l]. intros (H1 & H2 & H3 & H4 & H5 & H6) Hv. simpl in *.
  apply Forall_app in Hv as [Hk Hv]. apply Forall_app in Hv as [Hp Hq]. unfold writeInstance, readInstance.
  eapply trip_bind; [by apply sigV_trip|cbn beta]. apply trip_deref.
  cbn [ci_namespace ci_owningClassName ci_keys ci_properties ci_qualifiers ci_language].
  do 4 part. change (0 <? CIMInstance_VERSION) with true. change (1 <? CIMInstance_VERSION) with true. cbn iota.
  part. by apply (trip_last _ _ (fun n => Some (mkInst n c ks ps q l))), String_trip.
Qed.

Lemma op_trip d : op_ok d -> Forall ok (op_values d) ->
  trip (writeObjectPath writeV (Some d)) (readObjectPath readV) (Some d).
Proof.
  destruct d as [n o ks]. intros (H1 & H2 & H3) Hv. simpl in *. unfold writeObjectPath, readObjectPath.
  parts. by apply (trip_last _ _ (fun ks => Some (mkOP n o ks))), props_trip.
Qed.

(** ** The union of a value *)

Lemma real32_trip r : real32_ok r -> trip (writeRealValue (real64_of_real32 r)) readReal32Value r.
Proof.
  intros [Hs Hr]. destruct (String_trip _ Hs) as (b & Hw & Hrd). exists b. split; [done|]. intros rest.
  unfold readReal32Value, mbind, Prog_bind. rewrite Hrd. unfold of_outcome. by rewrite Hr.
Qed.

Lemma real64_trip r : real64_ok r -> trip (writeRealValue r) readReal64Value r.
Proof.
  intros [Hs Hr]. destruct (String_trip _ Hs) as (b & Hw & Hrd). exists b. split; [done|]. intros rest.
  unfold readReal64Value, mbind, Prog_bind. rewrite Hrd. unfold of_outcome. by rewrite Hr.
Qed.

Lemma int_type_size t size sign : int_type t = Some (size, sign) -> (0 < size)%nat.
Proof. unfold int_type. repeat (case_match; try discriminate); intros [= <- <-]; lia. Qed.

Lemma int_trip size sign x : (0 < size)%nat -> int_ok size sign x -> trip (writeInt size x) (readValueInt size sign) x.
Proof. intros H Hx. destruct sign; [by apply Int_trip|by apply UInt_trip]. Qed.

Lemma obj_trip asserts t d : obj_ok t d -> Forall ok (data_values d) -> trip (writeObj writeV asserts t d) (readObj readV asserts t) d.
Proof.
  destruct d as [x|l|c|l|r|l|r|l|s|l|x|l|o|l|o|l|o|l|]; simpl; try done; intros Hd Hv;
    [destruct Hd as (size & sign & E & Hx)|destruct Hd as [-> Hx]..]; unfold writeObj, readObj; [rewrite E|cbn..];
    [apply (trip_last _ _ V_int)|apply (trip_last _ _ V_char16)|apply (trip_last _ _ V_real32)|apply (trip_last _ _ V_real64)|
     apply (trip_last _ _ V_string)|apply (trip_last _ _ V_datetime)|apply (trip_last _ _ V_ref)|apply (trip_last _ _ V_class)|
     apply (trip_last _ _ V_inst)].
  - apply int_trip; [by eapply int_type_size|done].
  - by apply Char16_trip.
  - by apply real32_trip.
  - by apply real64_trip.
  - by apply String_trip.
  - by apply datetime_trip.
  - destruct o; [|done]. by apply op_trip.
  - destruct o; [|done]. by apply cls_trip.
  - destruct o; [|done]. by apply inst_trip.
Qed.

Lemma array_obj_trip asserts t d :
  array_obj_ok t d -> Forall ok (data_values d) -> trip (writeArrayObj writeV asserts t d) (readArrayObj readV asserts t) d.
Proof.
  destruct d as [x|l|c|l|r|l|r|l|s|l|x|l|o|l|o|l|o|l|]; simpl; try done; intros Hd Hv;
    [destruct Hd as (size & sign & E & Hx)|destruct Hd as [-> Hx]..]; unfold writeArrayObj, readArrayObj; [rewrite E|cbn..];
    [apply (trip_last _ _ V_ints)|apply (trip_last _ _ V_char16s)|apply (trip_last _ _ V_real32s)|apply (trip_last _ _ V_real64s)|
     apply (trip_last _ _ V_strings)|apply (trip_last _ _ V_datetimes)|apply (trip_last _ _ V_refs)|apply (trip_last _ _ V_classes)|
     apply (trip_last _ _ V_insts)].
  - eapply arr_trip; [exact Hx|]. intros x _ H. apply int_trip; [by eapply int_type_size|done].
  - eapply arr_trip; [exact Hx|]. intros. by apply Char16_trip.
  - eapply arr_trip; [exact Hx|]. intros. by apply real32_trip.
  - eapply arr_trip; [exact Hx|]. intros. by apply real64_trip.
  - eapply arr_trip; [exact Hx|]. intros. by apply String_trip.
  - eapply arr_trip; [exact Hx|]. intros. by apply datetime_trip.
  - eapply objs_trip; [|exact Hx|exact Hv]. apply op_trip.
  - eapply objs_trip; [|exact Hx|exact Hv]. apply cls_trip.
  - eapply objs_trip; [|exact Hx|exact Hv]. apply inst_trip.
Qed.
End WithValues.
End Trip.

(** * URLs are read as they were built

   The text that [buildSpec] makes of clean parts is taken apart by
   [setComponents] into the same parts. *)

Section Url.
Context {ss : StringSearch} {sl : StringSearchLaws} {sc : StringConv} {cl : StringConvLaws}.

(** Parts that neither contain the separators nor begin or end with spaces. *)
Record parts_ok (protocol host : bytes) (port : Z) (file : bytes) : Prop := {
  pr_ne : protocol <> [];
  pr_trim : trimmed protocol;
  pr_colon : 58 ∉ protocol;
  ho_ne : host <> [];
  ho_trim : trimmed host;
  ho_sep : (58 ∉ host) /\ (47 ∉ host) /\ (64 ∉ host);
  po_range : 0 < port < 2 ^ 31;
  fi_ne : file <> [];
  fi_trim : trimmed file;
  fi_sep : (35 ∉ file) /\ (64 ∉ file);
}.

Definition is_local (host : bytes) : bool := bool_decide (host = txt "127.0.0.1") || equalsIgnoreCase host (txt "localhost").

(** The host that a URL is given when its host is the local one. *)
Definition host_of (host : bytes) : bytes := if is_local host then txt "127.0.0.1" else host.

Definition spec_of (protocol host : bytes) (port : Z) (file : bytes) : bytes :=
  protocol ++ txt "://" ++ host ++ txt ":" ++ String_of_Int32 port ++ txt "/" ++ file.

Lemma setDefaultValues_clean protocol host port file spec l :
  parts_ok protocol host port file ->
  setDefaultValues (mkURL spec protocol host port file [] l) =
    mkURL (spec_of protocol (host_of host) port file) protocol (host_of host) port file [] (is_local host).
Proof.
  intros []. unfold setDefaultValues. cbn [m_spec m_protocol m_host m_port m_file m_ref m_localHost].
  rewrite (trim_trimmed protocol), (bool_decide_false (protocol = [])) by done.
  unfold setLocalHost. cbn [m_spec m_protocol m_host m_port m_file m_ref m_localHost].
  rewrite (trim_trimmed host), (bool_decide_false (host = [])) by done. cbn [orb]. unfold host_of. fold (is_local host).
  destruct (is_local host); cbn [m_spec m_protocol m_host m_port m_file m_ref m_localHost];
    rewrite (trim_trimmed file), (bool_decide_false (file = [])) by done; (destruct (Z.leb_spec port 0); [lia|]);
    unfold buildSpec; cbn [m_spec m_protocol m_host m_port m_file m_ref m_localHost];
    rewrite (bool_decide_false (file = [])), (bool_decide_true (@nil Z = [])) by done;
    (destruct (Z.ltb_spec 0 port); [|lia]); unfold spec_of; rewrite <- !app_assoc; done.
Qed.

Lemma digits_none port c : 0 < port -> ~ (48 <= c <= 57) -> c ∉ String_of_Int32 port.
Proof.
  intros Hp Hc Hin. pose proof (String_of_Int32_digits port ltac:(lia)) as H. rewrite Forall_forall in H. by apply Hc, H.
Qed.

Lemma setComponents_spec protocol host port file l :
  parts_ok protocol host port file ->
  setComponents (mkURL (spec_of protocol host port file) [] [] 0 [] [] l) =
    setDefaultValues (mkURL (spec_of protocol host port file) protocol host port file [] true).
Proof.
  intros []. destruct ho_sep0 as (Hc & Hs & Ha). destruct fi_sep0 as (Hf & Hg). unfold setComponents.
  cbn [m_spec m_protocol m_host m_port m_file m_ref m_localHost].
  assert (spec_of protocol host port file <> []) as Hne by (unfold spec_of; intros E; apply app_eq_nil in E as [E _]; done).
  rewrite bool_decide_false by done. set (sp := spec_of protocol host port file) at 1 2 3 4.
  set (d := String_of_Int32 port).
  assert (sp = protocol ++ (58 :: txt "//") ++ host ++ [58] ++ d ++ [47] ++ file) as -> by done.
  change (txt "://") with (58 :: txt "//"). rewrite indexOf_first by done. rewrite substring_to_take, substring_from_drop, take_app_length.
  replace (length protocol + 3)%nat with (length (protocol ++ 58 :: txt "//")) by (rewrite length_app; done).
  rewrite (app_assoc protocol), drop_app_length.
  assert (64 ∉ host ++ [58] ++ d ++ [47] ++ file) as Hat.
  { pose proof (digits_none port 64 ltac:(lia) ltac:(lia)). set_solver. }
  rewrite (indexOfChar_none 64) by done.
  assert (47 ∉ host ++ [58] ++ d) as Hsl.
  { pose proof (digits_none port 47 ltac:(lia) ltac:(lia)). set_solver. }
  replace (host ++ [58] ++ d ++ [47] ++ file) with ((host ++ [58] ++ d) ++ 47 :: file) by (by rewrite <- !app_assoc).
  rewrite (indexOfChar_first 47) by done. rewrite substring_to_take, substring_from_drop, take_app_length.
  rewrite drop_past.
  assert (forall x p h po, checkRef (mkURL x p h po file [] true) = mkURL x p h po file [] true) as Hcr.
  { intros. unfold checkRef. cbn [m_file]. rewrite bool_decide_false, indexOfChar_none by done. done. }
  rewrite Hcr. cbn [m_spec m_protocol m_host m_port m_file m_ref m_localHost]. cbn [app].
  rewrite (indexOfChar_first 58) by done. rewrite substring_to_take, substring_from_drop, take_app_length.
  rewrite drop_past. unfold d. rewrite toInt32_of by lia. cbn [default]. by rewrite Hcr.
Qed.

(** A URL made of clean parts survives; so does the default URL. *)
Lemma url_parts_ok protocol host port file :
  parts_ok protocol host port file -> string_ok (spec_of protocol (host_of host) port file) ->
  url_ok (CIMUrl_parts protocol host file port).
Proof.
  intros Hp Hs. unfold CIMUrl_parts, url_ok, there. rewrite setDefaultValues_clean by done.
  cbn [m_spec]. split; [done|]. unfold CIMUrl_spec. f_equal.
  assert (parts_ok protocol (host_of host) port file) as Hp'.
  { unfold host_of. destruct (is_local host); [|done]. destruct Hp. split; try done.
    - change (~ is_space 49 /\ ~ is_space 49). unfold is_space. lia.
    - split_and!; apply (bool_decide_unpack _); by vm_compute. }
  rewrite setComponents_spec by done. rewrite setDefaultValues_clean by done.
  assert (host_of (host_of host) = host_of host /\ is_local (host_of host) = is_local host) as [-> ->]; [|done].
  unfold host_of. destruct (is_local host) eqn:E; [|by rewrite E]. done.
Qed.
End Url.

(** * Any input is an object or an exception

   Whatever the bytes, reading a CIM object returns or throws, and the depth to
   which values nest is bounded by the input.  [steady n k r r']: on inputs of at
   most [n] bytes the readers [r] and [r'] do the same, return or throw, and a
   value uses up at least [k] bytes. *)

Import CIMDataType.

Definition steady {A} (n k : nat) (r r' : Prog bytes A) : Prop :=
  forall l, (length l <= n)%nat -> r l = r' l /\ behaves k r l.

Lemma steady_refl {A} n k (r : Prog bytes A) : (forall l, behaves k r l) -> steady n k r r.
Proof. intros H l _. by split. Qed.

Lemma steady_weaken {A} n k k' (r r' : Prog bytes A) : steady n k r r' -> (k' <= k)%nat -> steady n k' r r'.
Proof. intros H Hk l Hl. destruct (H l Hl). split; [done|]. by eapply behaves_weaken. Qed.

Lemma steady_less {A} n n' k (r r' : Prog bytes A) : steady n k r r' -> (n' <= n)%nat -> steady n' k r r'.
Proof. intros H Hn l Hl. apply H. lia. Qed.

Lemma steady_bind {A B} n k1 k2 (m m' : Prog bytes A) (f f' : A -> Prog bytes B) :
  steady n k1 m m' -> (forall x, steady (n - k1) k2 (f x) (f' x)) -> steady n (k1 + k2) (m ≫= f) (m' ≫= f').
Proof.
  intros Hm Hf l Hl. destruct (Hm l Hl) as [E Hb]. split.
  - unfold mbind, Prog_bind. rewrite <- E. unfold behaves in Hb. destruct (m l) as [[x| | |] l'] eqn:El; [|done..].
    apply Hf. lia.
  - eapply behaves_bind; [exact Hb|]. intros x l' Hl'. apply Hf. lia.
Qed.

Lemma steady_ret {A} n (x : A) : steady n 0 (mret x) (mret x).
Proof. apply steady_refl. intros. apply behaves_ret. Qed.

Lemma steady_throw {A} n k msg : steady n k (throw msg : Prog bytes A) (throw msg).
Proof. apply steady_refl. intros. apply behaves_throw. Qed.

Lemma steady_if {A} n k (b : bool) (r1 r1' r2 r2' : Prog bytes A) :
  steady n k r1 r1' -> steady n k r2 r2' -> steady n k (if b then r1 else r2) (if b then r1' else r2').
Proof. by destruct b. Qed.

Create HintDb steady.

(** One part of an object after the other. *)
Ltac sparts :=
  eapply steady_weaken;
  [repeat first [ apply steady_ret | apply steady_throw
                | eapply steady_bind; [solve [eauto 3 with steady]|cbn beta; intros] | solve [eauto 3 with steady] ] | lia].

(** ** The parts *)

Lemma behaves_read n l : behaves n (read n) l.
Proof.
  unfold behaves, read. destruct (n <=? length l)%nat eqn:E; [|simpl; lia].
  apply Nat.leb_le in E. rewrite length_drop. lia.
Qed.

Lemma steady_read n k : steady n k (read k) (read k).
Proof. apply steady_refl, behaves_read. Qed.
#[export] Hint Resolve steady_read : steady.

Lemma steady_readUInt n k : steady n k (readUInt k) (readUInt k).
Proof. unfold readUInt. sparts. Qed.
Lemma steady_readInt n k : steady n k (readInt k) (readInt k).
Proof. unfold readInt. sparts. Qed.
#[export] Hint Resolve steady_readUInt steady_readInt : steady.

Lemma steady_readLen n : steady n 1 readLen readLen.
Proof.
  unfold readLen. apply (steady_bind n 1 0); [apply steady_readUInt|]. intros lc.
  apply steady_if; [|apply steady_ret]. apply steady_if; [apply steady_throw|]. sparts.
Qed.

Lemma steady_readSig n c : steady n 1 (readSig c) (readSig c).
Proof. unfold readSig. apply (steady_bind n 1 0); [apply steady_read|]. intros b. apply steady_if; [apply steady_ret|apply steady_throw]. Qed.

Lemma steady_verify n c : steady n 1 (verifySignature c) (verifySignature c).
Proof. unfold verifySignature. apply (steady_bind n 1 0); [apply steady_readUInt|]. intros b. apply steady_if; [apply steady_ret|apply steady_throw]. Qed.

Lemma steady_readSigV n c cv v : steady n 1 (readSigV c cv v) (readSigV c cv v).
Proof.
  unfold readSigV. apply (steady_bind n 1 0); [apply steady_read|]. intros b.
  apply steady_if; [apply steady_ret|]. apply steady_if; [|apply steady_throw].
  eapply steady_weaken; [eapply steady_bind; [apply steady_readLen|]|lia]. intros x. apply (steady_if _ 0); [apply steady_throw|apply steady_ret].
Qed.
#[export] Hint Resolve steady_readLen steady_readSig steady_verify steady_readSigV : steady.

Lemma steady_each {A} n k count (r r' : Prog bytes A) : steady n k r r' -> steady n 0 (read_each count r) (read_each count r').
Proof.
  intros H. induction count as [|count IH]; [apply steady_ret|]. cbn [read_each].
  eapply steady_weaken; [eapply steady_bind; [exact H|]|apply Nat.le_0_l]. intros x. eapply steady_bind; [eapply steady_less; [exact IH|lia]|].
  intros. apply steady_ret.
Qed.

Lemma steady_array {A} n k (r r' : Prog bytes A) : steady n k r r' -> steady n 1 (readArray r) (readArray r').
Proof.
  intros H. unfold readArray. apply (steady_bind n 1 0); [apply steady_readLen|]. intros len.
  eapply steady_each, steady_less; [exact H|lia].
Qed.

Section Total.
Context {bx : Blocxx} {ss : StringSearch} {sc : StringConv} {bl : BlocxxLaws}.

Lemma steady_String n : steady n 1 String_readObject String_readObject.
Proof. apply steady_refl, String_behaves. Qed.
Lemma steady_Bool n : steady n 1 Bool_readObject Bool_readObject.
Proof. apply steady_refl, Bool_behaves. Qed.
Lemma steady_Char16 n : steady n 1 Char16_readObject Char16_readObject.
Proof. apply steady_refl, Char16_behaves. Qed.
Lemma steady_Name n : steady n 1 readName readName.
Proof. apply steady_String. Qed.
Hint Resolve steady_String steady_Bool steady_Char16 steady_Name : steady.

Lemma steady_dt n : steady n 1 readDataType readDataType.
Proof. unfold readDataType. sparts. Qed.
Lemma steady_scope n : steady n 1 readScope readScope.
Proof. apply steady_readLen. Qed.
Lemma steady_flavor n : steady n 1 readFlavor readFlavor.
Proof. unfold readFlavor. sparts. Qed.
Lemma steady_url n : steady n 1 readUrl readUrl.
Proof. unfold readUrl. sparts. Qed.
Hint Resolve steady_dt steady_scope steady_flavor steady_url : steady.
Lemma steady_ns n : steady n 1 readNameSpace readNameSpace.
Proof. unfold readNameSpace. sparts. Qed.
Lemma steady_datetime n : steady n 1 readDateTime readDateTime.
Proof. unfold readDateTime. sparts. Qed.
Lemma steady_array1 {A} n (r r' : Prog bytes A) : steady n 1 r r' -> steady n 1 (readArray r) (readArray r').
Proof. apply steady_array. Qed.
Hint Resolve steady_ns steady_datetime steady_array1 : steady.

Section WithValues.
Context {V : Type} (n : nat) (rV rV' : Prog bytes V) (HV : steady n 1 rV rV').

(** Whatever is read with [rV] is steady on the inputs on which [rV] is. *)
Definition good {A} (r r' : Prog bytes A) : Prop := forall m, (m <= n)%nat -> steady m 1 r r'.

Lemma good_here {A} (r r' : Prog bytes A) m : good r r' -> (m <= n)%nat -> steady m 1 r r'.
Proof. intros H. apply H. Qed.

Lemma steady_optional m b : (m <= n)%nat -> steady m 0 (readOptional rV b) (readOptional rV' b).
Proof.
  intros Hm. unfold readOptional. apply steady_if; [|apply steady_ret].
  eapply steady_weaken; [eapply steady_bind; [eapply steady_less; [exact HV|exact Hm]|]|apply Nat.le_0_l]. intros. apply steady_ret.
Qed.

(** Parts that may hold values; [m] is what is left of the input. *)
Ltac vparts :=
  eapply steady_weaken;
  [repeat first
    [ apply steady_ret | apply steady_throw
    | eapply steady_bind; [first [solve [eauto 3 with steady] | apply steady_optional; lia
        | apply steady_array1; match goal with H : good ?r ?r' |- steady _ _ ?r ?r' => apply H; lia end
        | match goal with H : good ?r ?r' |- steady _ _ ?r ?r' => apply H; lia end]|cbn beta; intros]
    ] | lia].

Lemma good_qualt : good (readQualifierType rV) (readQualifierType rV').
Proof. intros m Hm. unfold readQualifierType. vparts. Qed.

Lemma steady_language m (b : bool) : steady m 0 (if b then String_readObject else mret []) (if b then String_readObject else mret []).
Proof. apply steady_if; [eapply steady_weaken; [apply steady_String|lia]|apply steady_ret]. Qed.
Hint Resolve steady_language : steady.

Lemma good_qual : good (readQualifier rV) (readQualifier rV').
Proof. pose proof good_qualt. intros m Hm. unfold readQualifier. vparts. Qed.

Lemma good_prop : good (readProperty rV) (readProperty rV').
Proof. pose proof good_qual. intros m Hm. unfold readProperty. vparts. Qed.

Lemma good_parm : good (readParameter rV) (readParameter rV').
Proof. pose proof good_qual. intros m Hm. unfold readParameter. vparts. Qed.

Lemma good_meth : good (readMethod rV) (readMethod rV').
Proof. pose proof good_qual. pose proof good_parm. intros m Hm. unfold readMethod. vparts. Qed.

Lemma steady_oldLanguage m (b : bool) :
  steady m 0 (if b then _ ← String_readObject; mret () else mret ()) (if b then _ ← String_readObject; mret () else mret ()).
Proof. apply steady_if; [sparts|apply steady_ret]. Qed.
Hint Resolve steady_oldLanguage : steady.

Lemma good_cls : good (readClass rV) (readClass rV').
Proof. pose proof good_qual. pose proof good_prop. pose proof good_meth. intros m Hm. unfold readClass. vparts. Qed.

Lemma good_inst : good (readInstance rV) (readInstance rV').
Proof. pose proof good_qual. pose proof good_prop. intros m Hm. unfold readInstance. vparts. Qed.

Lemma good_op : good (readObjectPath rV) (readObjectPath rV').
Proof. pose proof good_prop. intros m Hm. unfold readObjectPath. vparts. Qed.

(** ** The union of a value *)

Lemma steady_real32 m : steady m 1 readReal32Value readReal32Value.
Proof.
  unfold readReal32Value. apply (steady_bind m 1 0); [apply steady_String|]. intros t. apply steady_refl. intros l.
  unfold behaves, of_outcome. pose proof (toReal32_behaves t). destruct (toReal32 t); [lia|lia|done..].
Qed.

Lemma steady_real64 m : steady m 1 readReal64Value readReal64Value.
Proof.
  unfold readReal64Value. apply (steady_bind m 1 0); [apply steady_String|]. intros t. apply steady_refl. intros l.
  unfold behaves, of_outcome. pose proof (toReal64_behaves t). destruct (toReal64 t); [lia|lia|done..].
Qed.

Lemma steady_int m t size sign : int_type t = Some (size, sign) -> steady m 1 (readValueInt size sign) (readValueInt size sign).
Proof.
  intros E. apply int_type_size in E. eapply steady_weaken; [|exact E].
  unfold readValueInt. apply steady_if; [apply steady_readInt|apply steady_readUInt].
Qed.

(** The value read is put into the union. *)
Lemma steady_put {A B} m k (r r' : Prog bytes A) (c : A -> B) :
  steady m k r r' -> steady m 0 (x ← r; mret (c x)) (x ← r'; mret (c x)).
Proof.
  intros H. eapply steady_weaken; [eapply steady_bind; [exact H|]|apply Nat.le_0_l]. intros. apply steady_ret.
Qed.

Lemma steady_unknown m (asserts : bool) :
  steady m 0 (if asserts then throw AssertionException else mret (V_none : CIMValueData V))
             (if asserts then throw AssertionException else mret V_none).
Proof. apply steady_if; [apply steady_throw|apply steady_ret]. Qed.

Lemma steady_obj asserts t : steady n 0 (readObj rV asserts t) (readObj rV' asserts t).
Proof.
  unfold readObj. destruct (int_type t) as [[size sign]|] eqn:E; [eapply steady_put, steady_int, E|].
  repeat (apply steady_if; [eapply steady_put|]); [apply steady_real32|apply steady_real64|apply steady_Char16|apply steady_String|
    apply steady_datetime|by apply good_op|by apply good_cls|by apply good_inst|apply steady_unknown].
Qed.

Lemma steady_array_obj asserts t : steady n 0 (readArrayObj rV asserts t) (readArrayObj rV' asserts t).
Proof.
  unfold readArrayObj. destruct (int_type t) as [[size sign]|] eqn:E; [eapply steady_put, steady_array1, steady_int, E|].
  repeat (apply steady_if; [eapply steady_put, steady_array1|]);
    [apply steady_real32|apply steady_real64|apply steady_Char16|apply steady_String|
     apply steady_datetime|by apply good_op|by apply good_cls|by apply good_inst|apply steady_unknown].
Qed.
End WithValues.

(** ** Values *)

(** With more fuel than bytes, reading a value returns or throws, and does not
   depend on the fuel. *)
Lemma steady_value asserts n f f' : (n < f)%nat -> (n < f')%nat -> steady n 1 (readValue asserts f) (readValue asserts f').
Proof.
  revert f f'. induction n as [|n IH]; intros [|f] [|f'] Hf Hf'; try lia.
  - intros [|] Hl; [|simpl in Hl; lia]. split; [done|]. unfold behaves. simpl. lia.
  - cbn [readValue]. eapply steady_weaken.
    { eapply steady_bind; [apply steady_readSig|intros _]. eapply steady_bind; [apply steady_readLen|intros t].
      eapply steady_bind; [apply steady_Bool|intros a]. eapply steady_bind; [|intros; apply steady_ret].
      apply (steady_less n); [|lia]. apply steady_if; [apply steady_array_obj|apply steady_obj]; apply IH; lia. }
    lia.
Qed.

(** The objects: reading one of any bytes returns or throws. *)
Lemma steady_with_values {A} (r : Prog bytes CIMValueImpl -> Prog bytes A) asserts :
  (forall n rV rV', steady n 1 rV rV' -> good n (r rV) (r rV')) -> forall l, behaves 1 (with_values asserts r) l.
Proof.
  intros H l. unfold with_values, mbind, Prog_bind, get, behaves.
  destruct (H (length l) _ _ (steady_value asserts (length l) (S (length l)) (S (length l)) ltac:(lia) ltac:(lia)) (length l) ltac:(lia) l ltac:(lia)) as [_ Hb].
  exact Hb.
Qed.

Lemma good_value n (rV rV' : Prog bytes CIMValueImpl) :
  steady n 1 rV rV' -> good n (x ← rV; mret (Some x)) (x ← rV'; mret (Some x)).
Proof.
  intros H m Hm. apply (steady_bind m 1 0); [by eapply steady_less|]. intros. apply steady_ret.
Qed.
End Total.
