(* ===== verification/CimObjects.v ===== *)
(** * Whole objects

   The equation of [writeValue]; round trips of values and of the objects that
   hold them, with the fuel that [readObject] chooses; formats of older
   versions; enumerations; URLs. *)

From S2P Require Import Prelude Blocxx CimSerial CimData CimIO CimTotal.

Import CIMDataType.

(** ** The values inside are written in their places *)

Section Natural.
Context {bx : Blocxx} {V W : Type} (f : V -> W) (w : W -> Prog bytes ()).
Abbreviation wf := (fun v => w (f v)).

Lemma write_upto_map {A B} n (g : A -> B) (wb : B -> Prog bytes ()) (wa : A -> Prog bytes ()) l :
  (forall x, wb (g x) = wa x) -> write_upto n wb (map g l) = write_upto n wa l.
Proof.
  intros H. revert n. induction l as [|x l IH]; intros n; [done|]. cbn [map write_upto]. by rewrite H, IH.
Qed.

Lemma writeArray_map {A B} (g : A -> B) (wb : B -> Prog bytes ()) (wa : A -> Prog bytes ()) l :
  (forall x, wb (g x) = wa x) -> writeArray wb (map g l) = writeArray wa l.
Proof.
  intros H. unfold writeArray. rewrite (write_upto_map _ _ _ _ _ H). unfold zlen. by rewrite length_map.
Qed.

Lemma bind_deref {A} (x : A) (k : A -> Prog bytes ()) : (d ← deref (Some x); k d) = k x.
Proof. done. Qed.

Lemma writeOptional_map v : writeOptional w (option_map f v) = writeOptional wf v.
Proof. by destruct v. Qed.

Lemma writeQualifierType_map t : writeQualifierType w (option_map (qualt_map f) t) = writeQualifierType wf t.
Proof.
  destruct t as [[n t s fl v]|]; [|done]. unfold writeQualifierType. cbn [option_map qualt_map].
  rewrite !bind_deref. cbn. by rewrite writeOptional_map.
Qed.

Lemma writeQualifier_map q : writeQualifier w (option_map (qual_map f) q) = writeQualifier wf q.
Proof.
  destruct q as [[n v t p fl l]|]; [|done]. unfold writeQualifier. cbn [option_map qual_map]. rewrite !bind_deref.
  cbn [cq_name cq_qualifierValue cq_qualifierType cq_propagated cq_flavors cq_language].
  rewrite writeQualifierType_map. by destruct v, t.
Qed.

Lemma writeQualifiers_map l : writeArray (writeQualifier w) (quals_map f l) = writeArray (writeQualifier wf) l.
Proof. apply writeArray_map, writeQualifier_map. Qed.

Lemma writeProperty_map p : writeProperty w (option_map (prop_map f) p) = writeProperty wf p.
Proof.
  destruct p as [[n q t s o c v p]|]; [|done]. unfold writeProperty, writeProperty_. cbn [option_map prop_map]. rewrite !bind_deref.
  cbn [p_name p_qualifiers p_propertyDataType p_sizeDataType p_override p_originClass p_cimValue p_propagated].
  by rewrite writeQualifiers_map, writeOptional_map.
Qed.

Lemma writeProperties_map l : writeArray (writeProperty w) (props_map f l) = writeArray (writeProperty wf) l.
Proof. apply writeArray_map, writeProperty_map. Qed.

Lemma writeParameter_map p : writeParameter w (option_map (parm_map f) p) = writeParameter wf p.
Proof.
  destruct p as [[n t q]|]; [|done]. unfold writeParameter. cbn [option_map parm_map]. rewrite !bind_deref.
  cbn [prm_name prm_dataType prm_qualifiers]. by rewrite writeQualifiers_map.
Qed.

Lemma writeMethod_map m : writeMethod w (option_map (meth_map f) m) = writeMethod wf m.
Proof.
  destruct m as [[n t q ps c o p]|]; [|done]. unfold writeMethod. cbn [option_map meth_map]. rewrite !bind_deref.
  cbn [mt_name mt_returnDatatype mt_qualifiers mt_parameters mt_originClass mt_override mt_propagated].
  by rewrite writeQualifiers_map, (writeArray_map _ _ _ _ writeParameter_map).
Qed.

Lemma writeClass_map c : writeClass w (option_map (cls_map f) c) = writeClass wf c.
Proof.
  destruct c as [[n pn q ps ms a k]|]; [|done]. unfold writeClass. cbn [option_map cls_map]. rewrite !bind_deref.
  cbn [cc_name cc_parentClassName cc_qualifiers cc_properties cc_methods cc_associationFlag cc_isKeyed].
  by rewrite writeQualifiers_map, writeProperties_map, (writeArray_map _ _ _ _ writeMethod_map).
Qed.

Lemma writeInstance_map i : writeInstance w (option_map (inst_map f) i) = writeInstance wf i.
Proof.
  destruct i as [[n c ks ps q l]|]; [|done]. unfold writeInstance. cbn [option_map inst_map]. rewrite !bind_deref.
  cbn [ci_namespace ci_owningClassName ci_keys ci_properties ci_qualifiers ci_language].
  by rewrite writeQualifiers_map, !writeProperties_map.
Qed.

Lemma writeObjectPath_map o : writeObjectPath w (option_map (op_map f) o) = writeObjectPath wf o.
Proof.
  destruct o as [[n c ks]|]; [|done]. unfold writeObjectPath. cbn [option_map op_map]. rewrite !bind_deref.
  cbn [op_nameSpace op_objectName op_keys]. by rewrite writeProperties_map.
Qed.

Lemma writeObj_map asserts t d : writeObj w asserts t (data_map f d) = writeObj wf asserts t d.
Proof.
  unfold writeObj. destruct (int_type t) as [[size sign]|]; [by destruct d|].
  repeat (destruct (t =? _); [destruct d; cbn [data_map]; rewrite ?writeObjectPath_map, ?writeClass_map, ?writeInstance_map; done|]).
  done.
Qed.

Lemma writeArrayObj_map asserts t d : writeArrayObj w asserts t (data_map f d) = writeArrayObj wf asserts t d.
Proof.
  unfold writeArrayObj. destruct (int_type t) as [[size sign]|]; [by destruct d|].
  repeat (destruct (t =? _); [destruct d; cbn [data_map];
    rewrite ?(writeArray_map _ _ _ _ writeObjectPath_map), ?(writeArray_map _ _ _ _ writeClass_map),
      ?(writeArray_map _ _ _ _ writeInstance_map); done|]).
  done.
Qed.
End Natural.

Section Objects.
Context {bx : Blocxx} {ss : StringSearch} {sc : StringConv} {bl : BlocxxLaws} (asserts : bool).

(** [CIMValueImpl::writeObject] as it is in the code. *)
Lemma writeValue_eq t isArray d :
  writeValue asserts (mkValue t isArray d) =
    (writeSig SIG_V ;; writeLen (u32 t) ;; Bool_writeObject isArray ;;
     if isArray then writeArrayObj (writeValue asserts) asserts t d else writeObj (writeValue asserts) asserts t d).
Proof.
  cbn [writeValue]. rewrite (writeArrayObj_map (writeValue asserts) (fun w => w)), (writeObj_map (writeValue asserts) (fun w => w)). done.
Qed.

(** The type of a value with something in its union is a 32-bit number. *)
Lemma shape_type {V} t a (d : CIMValueData V) : value_shape t a d -> is_u32' t.
Proof.
  unfold is_u32'. destruct a, d; simpl; try done;
    try (intros (size & sign & E & _); unfold int_type in E; repeat (case_match; zbool; [subst; unfold BOOLEAN, UINT8, SINT8, UINT16, SINT16, UINT32, SINT32, UINT64, SINT64; lia|]); discriminate);
    intros [-> _]; unfold REAL32, REAL64, CHAR16, STRING, DATETIME, REFERENCE, EMBEDDEDCLASS, EMBEDDEDINSTANCE; lia.
Qed.

Lemma value_trip v : value_ok v -> forall fuel, (vsize v <= fuel)%nat -> trip (writeValue asserts v) (readValue asserts fuel) v.
Proof.
  induction v as [t a d IH] using value_ind. intros [Hs Hv]%value_ok_eq [|fuel] Hf; [simpl in Hf; lia|].
  rewrite writeValue_eq. cbn [readValue]. pose proof (shape_type _ _ _ Hs) as Ht.
  assert (Forall (fun x => trip (writeValue asserts x) (readValue asserts fuel) x) (data_values d)) as Hin.
  { rewrite Forall_forall in *. intros x Hx. apply IH; [done|by apply Hv|]. pose proof (vsize_inside t a d x Hx). lia. }
  eapply trip_bind; [apply sig_trip|cbn beta]. eapply trip_bind; [by apply Len_u32_trip|cbn beta].
  eapply trip_bind; [apply Bool_trip|cbn beta].
  destruct a; apply (trip_last _ _ (mkValue t _)); [by apply array_obj_trip|by apply obj_trip].
Qed.

(** With the fuel that [readObject] takes. *)
Lemma with_values_trip {A} w (r : Prog bytes CIMValueImpl -> Prog bytes A) x vs :
  (forall n rV rV', steady n 1 rV rV' -> good n (r rV) (r rV')) ->
  (forall rV, Forall (fun v => trip (writeValue asserts v) rV v) vs -> trip w (r rV) x) ->
  Forall value_ok vs -> trip w (with_values asserts r) x.
Proof.
  intros Hg Ht Hvs. set (F := sum_list (map vsize vs)).
  assert (forall fuel, (F <= fuel)%nat -> trip w (r (readValue asserts fuel)) x) as H.
  { intros fuel Hf. apply Ht. rewrite Forall_forall in *. intros v Hv. apply value_trip; [by apply Hvs|].
    assert (vsize v <= F)%nat; [|lia]. unfold F. clear -Hv. induction Hv; simpl; lia. }
  destruct (H F ltac:(lia)) as (b & Hw & _). exists b. split; [done|]. intros rest.
  unfold with_values, mbind, Prog_bind, get. set (l := b ++ rest).
  destruct (H (F `max` S (length l))%nat ltac:(lia)) as (b' & Hw' & Hr).
  rewrite (writes_unique _ _ _ Hw' Hw) in Hr. rewrite <- (Hr rest). fold l.
  destruct (Hg (length l) _ _ (steady_value asserts (length l) (S (length l)) (F `max` S (length l)) ltac:(lia) ltac:(lia)) (length l) ltac:(lia) l ltac:(lia)) as [E _].
  exact E.
Qed.

Lemma CIMValue_trip v : value_ok v -> trip (CIMValue_writeObject asserts (Some v)) (CIMValue_readObject asserts) (Some v).
Proof.
  intros Hv. apply (with_values_trip _ _ _ [v]); [apply good_value| |by constructor].
  intros rV H. inversion H. by apply (trip_last _ _ Some).
Qed.

Lemma CIMQualifierType_trip d : qualt_ok d -> Forall value_ok (qualt_values d) ->
  trip (CIMQualifierType_writeObject asserts (Some d)) (CIMQualifierType_readObject asserts) (Some d).
Proof. intros Hd. apply with_values_trip; [apply good_qualt|]. intros rV. by apply qualt_trip. Qed.

Lemma CIMClass_trip d : cls_ok d -> Forall value_ok (cls_values d) ->
  trip (CIMClass_writeObject asserts (Some d)) (CIMClass_readObject asserts) (Some d).
Proof. intros Hd. apply with_values_trip; [apply good_cls|]. intros rV. by apply cls_trip. Qed.

Lemma CIMInstance_trip d : inst_ok d -> Forall value_ok (inst_values d) ->
  trip (CIMInstance_writeObject asserts (Some d)) (CIMInstance_readObject asserts) (Some d).
Proof. intros Hd. apply with_values_trip; [apply good_inst|]. intros rV. by apply inst_trip. Qed.

Lemma CIMObjectPath_trip d : op_ok d -> Forall value_ok (op_values d) ->
  trip (CIMObjectPath_writeObject asserts (Some d)) (CIMObjectPath_readObject asserts) (Some d).
Proof. intros Hd. apply with_values_trip; [apply good_op|]. intros rV. by apply op_trip. Qed.

(** Reading returns or throws. *)
Lemma CIMValue_behaves l : behaves 1 (CIMValue_readObject asserts) l.
Proof. apply steady_with_values, good_value. Qed.
Lemma CIMQualifierType_behaves l : behaves 1 (CIMQualifierType_readObject asserts) l.
Proof. apply steady_with_values. intros n rV rV' H. by apply good_qualt. Qed.
Lemma CIMClass_behaves l : behaves 1 (CIMClass_readObject asserts) l.
Proof. apply steady_with_values. intros n rV rV' H. by apply good_cls. Qed.
Lemma CIMInstance_behaves l : behaves 1 (CIMInstance_readObject asserts) l.
Proof. apply steady_with_values. intros n rV rV' H. by apply good_inst. Qed.
Lemma CIMObjectPath_behaves l : behaves 1 (CIMObjectPath_readObject asserts) l.
Proof. apply steady_with_values. intros n rV rV' H. by apply good_op. Qed.
End Objects.

(** * Enumerations of CIM objects

   The [read...Enum] functions of src/src/common/OW_BinarySerialization.cpp, and
   the form in which the binary request handler writes an enumeration. *)

Definition BINSIG_CLSENUM : Z := 105.
Definition BINSIG_OPENUM : Z := 110.
Definition BINSIG_INSTENUM : Z := 111.
Definition BINSIG_QUAL_TYPEENUM : Z := 112.
Definition BINSIG_STRINGENUM : Z := 115.
Definition END_CLSENUM : Z := 150.
Definition END_OPENUM : Z := 151.
Definition END_INSTENUM : Z := 152.
Definition END_QUALENUM : Z := 153.
Definition END_STRINGENUM : Z := 154.

Section Enum.
Context {bx : Blocxx} {ss : StringSearch} {sc : StringConv} (asserts : bool).

Definition readObjectPathEnum : Prog bytes (list CIMObjectPath) :=
  readEnum (CIMObjectPath_readObject asserts) BINSIG_OPENUM END_OPENUM.
Definition readClassEnum : Prog bytes (list CIMClass) :=
  readEnum (CIMClass_readObject asserts) BINSIG_CLSENUM END_CLSENUM.
Definition readInstanceEnum : Prog bytes (list CIMInstance) :=
  readEnum (CIMInstance_readObject asserts) BINSIG_INSTENUM END_INSTENUM.
Definition readQualifierTypeEnum : Prog bytes (list CIMQualifierType) :=
  readEnum (CIMQualifierType_readObject asserts) BINSIG_QUAL_TYPEENUM END_QUALENUM.
Definition readStringEnum : Prog bytes (list bytes) := readEnum readString BINSIG_STRINGENUM END_STRINGENUM.

Definition writeObjectPathEnum : list CIMObjectPath -> Prog bytes () :=
  writeEnum (CIMObjectPath_writeObject asserts) BINSIG_OPENUM END_OPENUM.
Definition writeClassEnum : list CIMClass -> Prog bytes () :=
  writeEnum (CIMClass_writeObject asserts) BINSIG_CLSENUM END_CLSENUM.
Definition writeInstanceEnum : list CIMInstance -> Prog bytes () :=
  writeEnum (CIMInstance_writeObject asserts) BINSIG_INSTENUM END_INSTENUM.
Definition writeQualifierTypeEnum : list CIMQualifierType -> Prog bytes () :=
  writeEnum (CIMQualifierType_writeObject asserts) BINSIG_QUAL_TYPEENUM END_QUALENUM.
Definition writeStringEnum : list bytes -> Prog bytes () := writeEnum writeString BINSIG_STRINGENUM END_STRINGENUM.
End Enum.

(** What makes each kind of object fit to be written. *)
Section Fit.
Context {bx : Blocxx} {ss : StringSearch} {sc : StringConv}.
Definition path_fit : CIMObjectPath -> Prop := there (fun d => op_ok d /\ Forall value_ok (op_values d)).
Definition class_fit : CIMClass -> Prop := there (fun d => cls_ok d /\ Forall value_ok (cls_values d)).
Definition instance_fit : CIMInstance -> Prop := there (fun d => inst_ok d /\ Forall value_ok (inst_values d)).
Definition qualt_fit : CIMQualifierType -> Prop := there (fun d => qualt_ok d /\ Forall value_ok (qualt_values d)).
Definition value_fit : CIMValue -> Prop := there value_ok.
End Fit.

Section Facts.
Context {bx : Blocxx} {ss : StringSearch} {sc : StringConv} {bl : BlocxxLaws} (asserts : bool).

Lemma path_trip o : path_fit o -> trip (CIMObjectPath_writeObject asserts o) (CIMObjectPath_readObject asserts) o.
Proof. destruct o; [|done]. intros []. by apply CIMObjectPath_trip. Qed.
Lemma class_trip o : class_fit o -> trip (CIMClass_writeObject asserts o) (CIMClass_readObject asserts) o.
Proof. destruct o; [|done]. intros []. by apply CIMClass_trip. Qed.
Lemma instance_trip o : instance_fit o -> trip (CIMInstance_writeObject asserts o) (CIMInstance_readObject asserts) o.
Proof. destruct o; [|done]. intros []. by apply CIMInstance_trip. Qed.
Lemma qualtype_trip o : qualt_fit o -> trip (CIMQualifierType_writeObject asserts o) (CIMQualifierType_readObject asserts) o.
Proof. destruct o; [|done]. intros []. by apply CIMQualifierType_trip. Qed.
Lemma cimvalue_trip o : value_fit o -> trip (CIMValue_writeObject asserts o) (CIMValue_readObject asserts) o.
Proof. destruct o; [|done]. intros H. by apply CIMValue_trip. Qed.

(** No object begins with a byte that ends an enumeration. *)
Lemma ends_sig {A} c e (k : Prog bytes A) : c <> e -> ends (readSig c ;; k) e.
Proof.
  intros He rest. unfold readSig, mbind, Prog_bind. cbn. by rewrite be_dec_one, (proj2 (Z.eqb_neq e c)).
Qed.

Lemma ends_sigV {A} c cv v e (k : Z -> Prog bytes A) : c <> e -> cv <> e -> ends (x ← readSigV c cv v; k x) e.
Proof.
  intros He Hv rest. unfold readSigV, mbind, Prog_bind. cbn. rewrite be_dec_one, (proj2 (Z.eqb_neq e c)) by done.
  by rewrite (proj2 (Z.eqb_neq e cv)).
Qed.

Lemma ends_verify {A} c e (k : Prog bytes A) : c <> e -> ends (verifySignature c ;; k) e.
Proof.
  intros He rest. unfold verifySignature. unfold readUInt, mbind, Prog_bind. cbn. by rewrite be_dec_one, (proj2 (Z.eqb_neq e c)).
Qed.

Lemma enum_of {A} (fit : A -> Prop) w (r : Prog bytes A) b e l :
  (forall x, fit x -> trip (w x) r x) -> (forall i, behaves 1 r i) -> is_byte b -> is_byte e -> ends r e ->
  Forall fit l -> trip (writeEnum w b e l) (readEnum r b e) l.
Proof. intros Ht Hb Hs He Hend Hl. apply enum_trip; try done. by eapply Forall_impl. Qed.

Lemma readString_behaves l : behaves 1 readString l.
Proof.
  eapply behaves_weaken; [apply (behaves_bind 1 1)|lia].
  - by apply (steady_verify (length l) BINSIG_STR l).
  - intros. apply String_behaves.
Qed.

Lemma objectPathEnum_trip l : Forall path_fit l -> trip (writeObjectPathEnum asserts l) (readObjectPathEnum asserts) l.
Proof. apply enum_of; [apply path_trip|apply CIMObjectPath_behaves|done..|]. intros rest. by apply ends_sig. Qed.
Lemma classEnum_trip l : Forall class_fit l -> trip (writeClassEnum asserts l) (readClassEnum asserts) l.
Proof. apply enum_of; [apply class_trip|apply CIMClass_behaves|done..|]. intros rest. by apply ends_sigV. Qed.
Lemma instanceEnum_trip l : Forall instance_fit l -> trip (writeInstanceEnum asserts l) (readInstanceEnum asserts) l.
Proof. apply enum_of; [apply instance_trip|apply CIMInstance_behaves|done..|]. intros rest. by apply ends_sigV. Qed.
Lemma qualifierTypeEnum_trip l : Forall qualt_fit l -> trip (writeQualifierTypeEnum asserts l) (readQualifierTypeEnum asserts) l.
Proof. apply enum_of; [apply qualtype_trip|apply CIMQualifierType_behaves|done..|]. intros rest. by apply ends_sig. Qed.
Lemma stringEnum_trip l : Forall string_ok l -> trip (writeStringEnum l) readStringEnum l.
Proof. apply enum_of; [apply writeString_trip|apply readString_behaves|done..|]. by apply ends_verify. Qed.
End Facts.
