(* ===== verification/CimOps.v ===== *)
(** * Operations on properties and instances

   Looking up, setting and removing the qualifiers of a property and the
   properties of an instance, after src/src/cim/OW_CIMProperty.cpp,
   OW_CIMInstance.cpp and OW_CIMQualifier.cpp.  Names are compared without regard
   to case.  An instance keeps its key properties in a list of their own, which
   the operations rebuild when a key changes. *)

From S2P Require Import Prelude Blocxx CimSerial CimData CimIO.
Import CIMDataType.

Definition ValueCastException : string := "ValueCastException".
Definition CIM_ALREADY_EXISTS : string := "CIMException::ALREADY_EXISTS".

(** The loop over an array that stops at the first element that passes the test:
   its index and the element.  A null element is dereferenced by the test. *)
Fixpoint locate {A} (test : A -> bool) (l : list (option A)) : outcome (option (nat * A)) :=
  match l with
  | [] => Ok None
  | x :: l => d ← present x;
      if test d then Ok (Some (0%nat, d))
      else r ← locate test l; Ok (option_map (fun x => (S x.1, x.2)) r)
  end.

(** [Array::remove] at an index. *)
Definition remove_at {A} (i : nat) (l : list A) : list A := take i l ++ drop (S i) l.

Section Ops.
Context {bx : Blocxx} {sc : StringConv} (asserts : bool).
(** [CIMValueCast::castValueToDataType] *)
Context (castValueToDataType : CIMValueImpl -> DTData -> outcome CIMValue).
Abbreviation Qual := (QUALData CIMValueImpl).
Abbreviation Property := (PROPData CIMValueImpl).
Abbreviation Inst := (INSTData CIMValueImpl).

(** ** Data types of values *)

Definition valid_type (t : Z) : outcome () :=
  if asserts && negb ((CIMNULL <=? t) && (t <? MAXDATATYPE)) then Throw AssertionException else Ok ().

Definition value_type (v : CIMValueImpl) : Z := match v with mkValue t _ _ => t end.
Definition value_isArray (v : CIMValueImpl) : bool := match v with mkValue _ a _ => a end.

Definition getCIMDataType (v : CIMValueImpl) : outcome DTData :=
  valid_type (value_type v) ;;
  Ok (if value_isArray v then mkDT (value_type v) (-1) SIZE_UNLIMITED [] else mkDT (value_type v) 1 SIZE_SINGLE []).

(** A data type as a condition. *)
Definition dt_set (dt : CIMDataType_) : bool :=
  match dt with Some d => negb (m_type d =? CIMNULL) && negb (m_type d =? INVALID) | None => false end.

Definition dt_eq (x y : DTData) : bool :=
  (m_type x =? m_type y) && (m_numberOfElements x =? m_numberOfElements y) && (m_sizeRange x =? m_sizeRange y) &&
  equalsIgnoreCase (m_reference x) (m_reference y).

Definition embedded (t : Z) : bool := (t =? EMBEDDEDCLASS) || (t =? EMBEDDEDINSTANCE).

(** ** Properties *)

Definition CIM_QUAL_KEY : bytes := txt "Key".

Definition getQualifier (p : Property) (name : bytes) : outcome (option Qual) :=
  r ← locate (fun q => equalsIgnoreCase (cq_name q) name) (p_qualifiers p); Ok (option_map snd r).

Definition with_quals (p : Property) (l : list (option Qual)) : Property :=
  mkProp (p_name p) l (p_propertyDataType p) (p_sizeDataType p) (p_override p) (p_originClass p) (p_cimValue p) (p_propagated p).
Definition with_value (p : Property) (v : CIMValue) : Property :=
  mkProp (p_name p) (p_qualifiers p) (p_propertyDataType p) (p_sizeDataType p) (p_override p) (p_originClass p) v (p_propagated p).
Definition with_type (p : Property) (t : CIMDataType_) : Property :=
  mkProp (p_name p) (p_qualifiers p) t (p_sizeDataType p) (p_override p) (p_originClass p) (p_cimValue p) (p_propagated p).

Definition setQualifier (p : Property) (qual : option Qual) : outcome Property :=
  match qual with
  | None => Ok p
  | Some q =>
      r ← locate (fun x => equalsIgnoreCase (cq_name x) (cq_name q)) (p_qualifiers p);
      Ok (with_quals p (match r with
        | Some (i, _) => <[i := Some q]> (p_qualifiers p)
        | None => p_qualifiers p ++ [Some q]
        end))
  end.

Definition addQualifier (p : Property) (qual : Qual) : outcome Property :=
  r ← locate (fun x => equalsIgnoreCase (cq_name x) (cq_name qual)) (p_qualifiers p);
  match r with
  | Some _ => Throw CIM_ALREADY_EXISTS
  | None => Ok (with_quals p (p_qualifiers p ++ [Some qual]))
  end.

Definition prop_removeQualifier (p : Property) (name : bytes) : outcome (bool * Property) :=
  r ← locate (fun q => equalsIgnoreCase (cq_name q) name) (p_qualifiers p);
  Ok match r with
       | Some (i, _) => (true, with_quals p (remove_at i (p_qualifiers p)))
       | None => (false, p)
       end.

(** [CIMValueImpl::get(Bool&)] *)
Definition get_Bool (v : CIMValueImpl) : outcome bool :=
  match v with
  | mkValue t a d =>
      if negb (t =? BOOLEAN) || a then Throw ValueCastException
      else match d with V_int x => Ok (negb (x =? 0)) | _ => Crash end
  end.

Definition hasTrueQualifier (p : Property) (name : bytes) : outcome bool :=
  q ← getQualifier p name;
  match q with
  | None => Ok false
  | Some q =>
      match cq_qualifierValue q with
      | None => Ok false
      | Some v => if negb (value_type v =? BOOLEAN) then Ok false else get_Bool v
      end
  end.

Definition isKey (p : Property) : outcome bool :=
  dt ← present (p_propertyDataType p);
  if m_type dt =? REFERENCE then Ok true else hasTrueQualifier p CIM_QUAL_KEY.

Definition clearNonKeyQualifiers (p : Property) : outcome Property :=
  key ← getQualifier p CIM_QUAL_KEY;
  let p := with_quals p [] in
  match key with Some q => addQualifier p q | None => Ok p end.

(** A value of another type than the property's is cast, unless it is an
   embedded object. *)
Definition setDataType (p : Property) (t : DTData) : outcome Property :=
  let p := with_type p (Some t) in
  match p_cimValue p with
  | Some v =>
      if (negb (m_type t =? value_type v) || xorb (negb (m_sizeRange t =? SIZE_SINGLE)) (value_isArray v)) && negb (embedded (value_type v))
      then v' ← castValueToDataType v t; Ok (with_value p v')
      else Ok p
  | None => Ok p
  end.

Definition setValue (p : Property) (val : CIMValue) : outcome Property :=
  let assign :=
    p ← (if dt_set (p_propertyDataType p) then Ok p
         else match val with
              | Some v => t ← getCIMDataType v; setDataType p t
              | None => setDataType p (mkDT STRING 1 SIZE_SINGLE [])
              end);
    Ok (with_value p val) in
  match p_propertyDataType p, val with
  | Some dt, Some v =>
      if dt_set (Some dt) then
        t ← getCIMDataType v;
        if negb (dt_eq t dt) && negb (embedded (value_type v))
        then v' ← castValueToDataType v dt; Ok (with_value p v')
        else assign
      else assign
  | _, _ => assign
  end.

(** [CIMProperty(name)] *)
Definition newProperty (name : bytes) : Property := mkProp name [] (Some (mkDT CIMNULL 0 0 [])) (-1) [] [] None false.

Definition ENABLEOVERRIDE : Z := 1.
Definition TOSUBCLASS : Z := 4.
(** [CIMQualifierType()] and [CIMQualifier::createKeyQualifier] *)
Definition newQualifierType : QUALTData CIMValueImpl := mkQualT [] (Some (mkDT CIMNULL 0 0 [])) [] [ENABLEOVERRIDE; TOSUBCLASS] None.
Definition createKeyQualifier : Qual :=
  mkQual CIM_QUAL_KEY (Some (mkValue BOOLEAN false (V_int 1))) (Some newQualifierType) false [] [].

(** ** Instances *)

Definition with_props (i : Inst) (l : list (option Property)) : Inst :=
  mkInst (ci_namespace i) (ci_owningClassName i) (ci_keys i) l (ci_qualifiers i) (ci_language i).
Definition with_keys (i : Inst) (l : list (option Property)) : Inst :=
  mkInst (ci_namespace i) (ci_owningClassName i) l (ci_properties i) (ci_qualifiers i) (ci_language i).
Definition setNameSpace (i : Inst) (ns : bytes) : Inst :=
  mkInst ns (ci_owningClassName i) (ci_keys i) (ci_properties i) (ci_qualifiers i) (ci_language i).

Fixpoint key_props (l : list (option Property)) : outcome (list (option Property)) :=
  match l with
  | [] => Ok []
  | x :: l => p ← present x; b ← isKey p; r ← key_props l; Ok (if (b : bool) then Some p :: r else r)
  end.

Definition _buildKeys (i : Inst) : outcome Inst := ks ← key_props (ci_properties i); Ok (with_keys i ks).

Definition setProperties (i : Inst) (props : list (option Property)) : outcome Inst := _buildKeys (with_props i props).

Definition getProperty (i : Inst) (name : bytes) : outcome (option Property) :=
  r ← locate (fun p => equalsIgnoreCase name (p_name p)) (ci_properties i); Ok (option_map snd r).

Definition find_prop (i : Inst) (name : bytes) : outcome (option (nat * Property)) :=
  locate (fun p => equalsIgnoreCase (p_name p) name) (ci_properties i).

(** The keys are built again when one of the conditions, evaluated from left to
   right, holds. *)
Fixpoint any_key (l : list Property) : outcome bool :=
  match l with
  | [] => Ok false
  | p :: l => b ← isKey p; if (b : bool) then Ok true else any_key l
  end.

Definition rebuild (ps : list Property) (i : Inst) : outcome Inst :=
  b ← any_key ps; if (b : bool) then _buildKeys i else Ok i.

Definition setProperty (i : Inst) (prop : option Property) : outcome Inst :=
  match prop with
  | None => Ok i
  | Some p =>
      r ← find_prop i (p_name p);
      match r with
      | Some (k, cp) => rebuild [cp; p] (with_props i (<[k := Some p]> (ci_properties i)))
      | None => rebuild [p] (with_props i (ci_properties i ++ [Some p]))
      end
  end.

(** [setProperty(name, value)] *)
Definition setPropertyValue (i : Inst) (name : bytes) (cv : CIMValue) : outcome Inst :=
  r ← find_prop i name;
  match r with
  | Some (k, cp) =>
      p ← setValue cp cv;
      rebuild [cp] (with_props i (<[k := Some p]> (ci_properties i)))
  | None =>
      cp ← setValue (newProperty name) cv;
      t ← match cv with Some v => getCIMDataType v | None => Ok (mkDT CIMNULL 1 SIZE_SINGLE []) end;
      cp ← setDataType cp t;
      Ok (with_props i (ci_properties i ++ [Some cp]))
  end.

Definition updatePropertyValue (i : Inst) (prop : option Property) : outcome Inst :=
  match prop with
  | None => Ok i
  | Some prop =>
      r ← find_prop i (p_name prop);
      match r with
      | Some (k, cp) =>
          p ← setValue cp (p_cimValue prop);
          rebuild [cp; prop] (with_props i (<[k := Some p]> (ci_properties i)))
      | None => Ok i
      end
  end.

Fixpoint updatePropertyValues (i : Inst) (props : list (option Property)) : outcome Inst :=
  match props with
  | [] => Ok i
  | p :: props => i ← updatePropertyValue i p; updatePropertyValues i props
  end.

Definition removeProperty (i : Inst) (name : bytes) : outcome Inst :=
  r ← find_prop i name;
  match r with
  | Some (k, cp) => rebuild [cp] (with_props i (remove_at k (ci_properties i)))
  | None => Ok i
  end.
End Ops.

(** ** Names *)

Class NameLaws {sc : StringConv} : Prop := {
  name_refl : forall a, equalsIgnoreCase a a = true;
  name_sym : forall a b, equalsIgnoreCase a b = equalsIgnoreCase b a;
  name_trans : forall a b c, equalsIgnoreCase a b = true -> equalsIgnoreCase b c = true -> equalsIgnoreCase a c = true;
}.

Lemma name_cong `{nl : NameLaws} a b c : equalsIgnoreCase a b = true -> equalsIgnoreCase a c = equalsIgnoreCase b c.
Proof.
  intros H. destruct (equalsIgnoreCase b c) eqn:E; [by eapply name_trans|].
  destruct (equalsIgnoreCase a c) eqn:E'; [|done]. rewrite <- E. rewrite name_sym in H. symmetry. by eapply name_trans.
Qed.

(** ** The loop *)

Lemma locate_some {A} (test : A -> bool) l i x : locate test l = Ok (Some (i, x)) ->
  l !! i = Some (Some x) /\ test x = true /\ forall j, (j < i)%nat -> exists y, l !! j = Some (Some y) /\ test y = false.
Proof.
  revert i. induction l as [|o l IH]; intros i H; [done|]. destruct o as [d|]; [|done]. simpl in H.
  destruct (test d) eqn:E; [injection H as <- <-; split_and!; [done..|lia]|].
  destruct (locate test l) as [[[k y]|]| | |] eqn:El; try done. injection H as <- <-.
  destruct (IH k eq_refl) as (H1 & H2 & H3). split_and!; [done|done|]. intros [|j] Hj; [by exists d|]. apply H3. lia.
Qed.

Lemma locate_none {A} (test : A -> bool) l :
  locate test l = Ok None <-> exists l', l = Some <$> l' /\ Forall (fun x => test x = false) l'.
Proof.
  split.
  - induction l as [|o l IH]; intros H; [by exists []|]. destruct o as [d|]; [|done]. simpl in H.
    destruct (test d) eqn:E; [done|]. destruct (locate test l) as [[]| | |]; try done.
    destruct IH as (l' & -> & Hl); [done|]. exists (d :: l'). split; [done|by constructor].
  - intros (l' & -> & Hl). induction Hl as [|x l' Hx _ IH]; [done|].
    rewrite fmap_cons. cbn [locate present mbind outcome_bind]. by rewrite Hx, IH.
Qed.

Lemma locate_at {A} (test : A -> bool) l i x :
  l !! i = Some (Some x) -> test x = true -> (forall j, (j < i)%nat -> exists y, l !! j = Some (Some y) /\ test y = false) ->
  locate test l = Ok (Some (i, x)).
Proof.
  revert i. induction l as [|o l IH]; intros [|i] Hl Ht Hb; try done.
  - injection Hl as ->. simpl. by rewrite Ht.
  - destruct (Hb 0%nat ltac:(lia)) as (y & Hy & Ey). injection Hy as ->. simpl. rewrite Ey.
    rewrite (IH i Hl Ht); [done|]. intros j Hj. apply (Hb (S j)). lia.
Qed.

(** ** Keys *)

Section KeyFacts.
Context {bx : Blocxx} {sc : StringConv} {nl : NameLaws} (asserts : bool).
Context (cast : CIMValueImpl -> DTData -> outcome CIMValue).
Abbreviation Property := (PROPData CIMValueImpl).
Abbreviation Inst := (INSTData CIMValueImpl).

(** The invariant of an instance: the list of keys is the key properties, in
   order; none is null. *)
Definition keys_ok (i : Inst) : Prop := key_props (ci_properties i) = Ok (ci_keys i).

Lemma key_props_app (a b : list (option Property)) :
  key_props (a ++ b) = (x ← key_props a; y ← key_props b; Ok (x ++ y)).
Proof.
  induction a as [|o a IH]; [cbn; by destruct (key_props b)|]. destruct o as [p|]; [|done]. cbn [app key_props present].
  cbn. destruct (isKey p) as [k| | |]; try done. cbn. rewrite IH.
  destruct (key_props a) as [x| | |]; try done. cbn. destruct (key_props b) as [y| | |]; try done. by destruct k.
Qed.

Lemma key_props_split (l : list (option Property)) i p : l !! i = Some (Some p) ->
  l = take i l ++ Some p :: drop (S i) l.
Proof. intros H. symmetry. by apply take_drop_middle. Qed.

(** Exchanging a property that is no key for another one. *)
Lemma key_props_insert (l : list (option Property)) i p p' ks :
  l !! i = Some (Some p) -> key_props l = Ok ks -> isKey p = Ok false -> isKey p' = Ok false ->
  key_props (<[i := Some p']> l) = Ok ks.
Proof.
  intros Hl Hk Hp Hp'. rewrite (insert_take_drop l i) by (by eapply lookup_lt_Some). rewrite (key_props_split l i p Hl) in Hk.
  rewrite key_props_app in *. cbn [key_props present] in *. destruct (key_props (take i l)) as [x| | |]; try done. cbn in *.
  rewrite Hp in Hk. rewrite Hp'. cbn in *. destruct (key_props (drop (S i) l)); done.
Qed.

Lemma key_props_remove (l : list (option Property)) i p ks :
  l !! i = Some (Some p) -> key_props l = Ok ks -> isKey p = Ok false -> key_props (remove_at i l) = Ok ks.
Proof.
  intros Hl Hk Hp. unfold remove_at. rewrite (key_props_split l i p Hl) in Hk.
  rewrite key_props_app in *. cbn [key_props present] in *. destruct (key_props (take i l)) as [x| | |]; try done. cbn in *.
  rewrite Hp in Hk. cbn in *. destruct (key_props (drop (S i) l)); done.
Qed.

Lemma key_props_append (l : list (option Property)) p ks : key_props l = Ok ks -> isKey p = Ok false -> key_props (l ++ [Some p]) = Ok ks.
Proof. intros Hk Hp. rewrite key_props_app, Hk. cbn. rewrite Hp. cbn. by rewrite app_nil_r. Qed.

Lemma any_key_false ps p : any_key ps = Ok false -> p ∈ ps -> isKey p = Ok false.
Proof.
  induction ps as [|q ps IH]; [set_solver|]. cbn. destruct (isKey q) as [[]| | |] eqn:E; try done. cbn.
  intros H [->|Hin]%elem_of_cons; [done|by apply IH].
Qed.

(** Either the keys are built again, or they are still right. *)
Lemma rebuild_ok ps i i' :
  (any_key ps = Ok false -> keys_ok i) -> rebuild ps i = Ok i' -> keys_ok i' /\ ci_properties i' = ci_properties i.
Proof.
  unfold rebuild. destruct (any_key ps) as [b| | |]; try done. cbn. intros Hf. destruct b.
  - unfold _buildKeys. destruct (key_props (ci_properties i)) as [ks| | |] eqn:E; try done. cbn. intros [= <-]. done.
  - intros [= <-]. split; [by apply Hf|done].
Qed.

Lemma setProperties_keys i props i' : setProperties i props = Ok i' -> keys_ok i' /\ ci_properties i' = props.
Proof.
  unfold setProperties, _buildKeys. cbn. destruct (key_props props) as [ks| | |] eqn:E; try done. cbn. intros [= <-]. done.
Qed.

Lemma keys_with_props i l : key_props l = Ok (ci_keys i) -> keys_ok (with_props i l).
Proof. done. Qed.

Lemma setProperty_keys i p i' : keys_ok i -> setProperty i p = Ok i' -> keys_ok i'.
Proof.
  intros Hk. destruct p as [p|]; [|by intros [= <-]]. unfold setProperty.
  destruct (find_prop i (p_name p)) as [[[k cp]|]| | |] eqn:E; try done; cbn [mbind outcome_bind]; intros H.
  - apply locate_some in E as (El & _). apply (rebuild_ok _ _ _) in H as [H _]; [done|]. intros Hf. apply keys_with_props.
    eapply key_props_insert; [done|done|by eapply any_key_false; [done|set_solver]..].
  - apply (rebuild_ok _ _ _) in H as [H _]; [done|]. intros Hf. apply keys_with_props.
    eapply key_props_append; [done|by eapply any_key_false; [done|set_solver]].
Qed.

Lemma removeProperty_keys i name i' : keys_ok i -> removeProperty i name = Ok i' -> keys_ok i'.
Proof.
  intros Hk. unfold removeProperty. destruct (find_prop i name) as [[[k cp]|]| | |] eqn:E; try done; cbn [mbind outcome_bind]; intros H.
  - apply locate_some in E as (El & _). apply (rebuild_ok _ _ _) in H as [H _]; [done|]. intros Hf. apply keys_with_props.
    eapply key_props_remove; [done|done|by eapply any_key_false; [done|set_solver]].
  - by injection H as <-.
Qed.

(** Setting a value keeps the name and the qualifiers, and the data type when
   there is one. *)
Lemma setDataType_shape p t p' : setDataType cast p t = Ok p' ->
  p_name p' = p_name p /\ p_qualifiers p' = p_qualifiers p /\ p_propertyDataType p' = Some t.
Proof.
  unfold setDataType. destruct (p_cimValue _); [|by intros [= <-]]. case_match; [|by intros [= <-]].
  destruct (cast _ _) as [v'| | |]; try done. by intros [= <-].
Qed.

Lemma setValue_shape p v p' : setValue asserts cast p v = Ok p' ->
  p_name p' = p_name p /\ p_qualifiers p' = p_qualifiers p /\
  (dt_set (p_propertyDataType p) = true -> p_propertyDataType p' = p_propertyDataType p) /\
  (dt_set (p_propertyDataType p) = false -> exists t, p_propertyDataType p' = Some t /\
     m_type t = match v with Some x => value_type x | None => STRING end).
Proof.
  unfold setValue. set (assign := mbind _ _).
  assert (assign = Ok p' -> p_name p' = p_name p /\ p_qualifiers p' = p_qualifiers p /\
    (dt_set (p_propertyDataType p) = true -> p_propertyDataType p' = p_propertyDataType p) /\
    (dt_set (p_propertyDataType p) = false -> exists t, p_propertyDataType p' = Some t /\
       m_type t = match v with Some x => value_type x | None => STRING end)) as Ha.
  { unfold assign. clear assign. destruct (dt_set (p_propertyDataType p)); [by intros [= <-]|].
    destruct v as [v|].
    - destruct (getCIMDataType asserts v) as [t| | |] eqn:Et; try done. cbn [mbind outcome_bind].
      destruct (setDataType cast p t) as [q| | |] eqn:E; try done. intros [= <-].
      apply setDataType_shape in E as (H1 & H2 & H3). cbn. split_and!; [done|done|done|]. intros _. exists t. split; [done|].
      unfold getCIMDataType in Et. destruct (valid_type _ _); try done. cbn in Et. injection Et as <-. by destruct (value_isArray v).
    - destruct (setDataType cast p _) as [q| | |] eqn:E; try done. intros [= <-].
      apply setDataType_shape in E as (H1 & H2 & H3). cbn. split_and!; [done|done|done|]. intros _. by eexists. }
  destruct (p_propertyDataType p) as [dt|] eqn:Ep; [|done]. destruct v as [v|]; [|done].
  destruct (dt_set (Some dt)) eqn:Es; [|done].
  destruct (getCIMDataType asserts v) as [t| | |]; try done. cbn [mbind outcome_bind]. case_match; [|done].
  destruct (cast v dt) as [v'| | |]; try done. intros [= <-]. cbn. rewrite Ep. split_and!; done.
Qed.

Lemma isKey_shape p p' : p_qualifiers p' = p_qualifiers p -> p_propertyDataType p' = p_propertyDataType p -> isKey p' = isKey p.
Proof. intros H1 H2. unfold isKey, hasTrueQualifier, getQualifier. by rewrite H1, H2. Qed.

(** Every property has a data type. *)
Definition typed (i : Inst) : Prop := forall p, Some p ∈ ci_properties i -> dt_set (p_propertyDataType p) = true.

Lemma updatePropertyValue_keys i p i' : keys_ok i -> typed i -> updatePropertyValue asserts cast i p = Ok i' -> keys_ok i' /\ typed i'.
Proof.
  intros Hk Ht. destruct p as [p|]; [|by intros [= <-]]. unfold updatePropertyValue.
  destruct (find_prop i (p_name p)) as [[[k cp]|]| | |] eqn:E; try done; cbn [mbind outcome_bind]; [|by intros [= <-]].
  destruct (setValue asserts cast cp (p_cimValue p)) as [p'| | |] eqn:Es; try done. cbn [mbind outcome_bind]. intros H.
  apply locate_some in E as (El & _). apply setValue_shape in Es as (_ & Hq & Hd & _).
  pose proof (Ht cp (list_elem_of_lookup_2 _ _ _ El)) as Hcp. specialize (Hd Hcp).
  apply (rebuild_ok _ _ _) in H as [H Hp].
  - split; [done|]. intros q Hq'. rewrite Hp in Hq'. cbn in Hq'. apply list_elem_of_lookup in Hq' as [j Hj].
    apply list_lookup_insert_Some in Hj as [(-> & [= <-] & _)|[_ Hj]]; [by rewrite Hd|].
    apply Ht. by eapply list_elem_of_lookup_2.
  - intros Hf. apply keys_with_props. eapply key_props_insert; [done|done|by eapply any_key_false; [done|set_solver]|].
    rewrite (isKey_shape cp p' Hq Hd). eapply any_key_false; [done|set_solver].
Qed.

Lemma updatePropertyValues_keys ps i i' : keys_ok i -> typed i -> updatePropertyValues asserts cast i ps = Ok i' -> keys_ok i'.
Proof.
  revert i. induction ps as [|p ps IH]; intros i Hk Ht; cbn; [by intros [= <-]|].
  destruct (updatePropertyValue asserts cast i p) as [j| | |] eqn:E; try done. cbn. apply updatePropertyValue_keys in E as [? ?]; [|done..].
  by apply IH.
Qed.

Lemma setPropertyValue_keys i name v i' :
  keys_ok i -> typed i -> match v with Some x => value_type x <> REFERENCE | None => True end ->
  setPropertyValue asserts cast i name v = Ok i' -> keys_ok i'.
Proof.
  intros Hk Ht Hv. unfold setPropertyValue.
  destruct (find_prop i name) as [[[k cp]|]| | |] eqn:E; try done; cbn [mbind outcome_bind].
  - destruct (setValue asserts cast cp v) as [p'| | |] eqn:Es; try done. cbn [mbind outcome_bind]. intros H.
    apply locate_some in E as (El & _). apply setValue_shape in Es as (_ & Hq & Hd & _).
    specialize (Hd (Ht cp (list_elem_of_lookup_2 _ _ _ El))). apply (rebuild_ok _ _ _) in H as [H _]; [done|].
    intros Hf. apply keys_with_props. eapply key_props_insert; [done|done|by eapply any_key_false; [done|set_solver]|].
    rewrite (isKey_shape cp p' Hq Hd). eapply any_key_false; [done|set_solver].
  - destruct (setValue asserts cast (newProperty name) v) as [p'| | |] eqn:Es; try done. cbn [mbind outcome_bind].
    apply setValue_shape in Es as (_ & Hq & _).
    destruct (match v with Some _ => _ | None => _ end) as [t| | |] eqn:Et; try done. cbn [mbind outcome_bind].
    destruct (setDataType cast p' t) as [q| | |] eqn:Ed; try done. cbn [mbind outcome_bind]. intros [= <-].
    apply setDataType_shape in Ed as (_ & Hq' & Hd). apply keys_with_props, key_props_append; [done|].
    unfold isKey, hasTrueQualifier, getQualifier. rewrite Hd, Hq', Hq. cbn [present mbind outcome_bind newProperty p_qualifiers locate option_map].
    assert (m_type t <> REFERENCE) as Hr.
    { destruct v as [v|]; [|by injection Et as <-]. unfold getCIMDataType in Et. destruct (valid_type _ _); try done. cbn in Et.
      injection Et as <-. by destruct (value_isArray v). }
    by rewrite (proj2 (Z.eqb_neq _ _)).
Qed.

(** ** Looking up *)

Lemma find_get i name : getProperty i name = (r ← find_prop i name; Ok (option_map snd r)).
Proof using nl.
  unfold getProperty, find_prop. f_equal. generalize (ci_properties i). intros l. induction l as [|[p|] l IH]; [done| |done].
  cbn. rewrite (name_sym name). destruct (equalsIgnoreCase (p_name p) name); [done|]. by rewrite IH.
Qed.

Lemma locate_name (l : list (option Property)) a b : equalsIgnoreCase a b = true ->
  locate (fun p => equalsIgnoreCase (p_name p) a) l = locate (fun p => equalsIgnoreCase (p_name p) b) l.
Proof using nl.
  intros H. induction l as [|[p|] l IH]; [done| |done]. cbn.
  rewrite (name_sym (p_name p) a), (name_sym (p_name p) b), (name_cong a b _ H). by rewrite IH.
Qed.

Lemma locate_insert_other (l : list (option Property)) k p p' name :
  l !! k = Some (Some p) -> equalsIgnoreCase (p_name p) name = false -> equalsIgnoreCase (p_name p') name = false ->
  locate (fun x => equalsIgnoreCase (p_name x) name) (<[k := Some p']> l) = locate (fun x => equalsIgnoreCase (p_name x) name) l.
Proof.
  revert k. induction l as [|o l IH]; intros [|k] Hl H H'; try done.
  - injection Hl as ->. cbn. by rewrite H, H'.
  - destruct o as [d|]; [|done]. change (<[S k := Some p']> (Some d :: l)) with (Some d :: <[k := Some p']> l).
    cbn [locate present mbind outcome_bind]. by rewrite (IH k Hl H H').
Qed.

Lemma locate_append_other (l : list (option Property)) p name :
  equalsIgnoreCase (p_name p) name = false ->
  locate (fun x => equalsIgnoreCase (p_name x) name) (l ++ [Some p]) = locate (fun x => equalsIgnoreCase (p_name x) name) l.
Proof. intros H. induction l as [|[d|] l IH]; [cbn; by rewrite H| |done]. cbn. by rewrite IH. Qed.

Lemma locate_append (l : list (option Property)) p name :
  equalsIgnoreCase (p_name p) name = true -> locate (fun x => equalsIgnoreCase (p_name x) name) l = Ok None ->
  locate (fun x => equalsIgnoreCase (p_name x) name) (l ++ [Some p]) = Ok (Some (length l, p)).
Proof.
  intros H (l' & -> & Hl)%locate_none. induction Hl as [|x l' Hx _ IH]; [cbn; by rewrite H|].
  rewrite fmap_cons. cbn. rewrite Hx. cbn in IH. rewrite IH. done.
Qed.

(** What is set is found again, under any spelling of the name; other names find
   what they found before. *)
Lemma setProperty_get i p i' : setProperty i (Some p) = Ok i' ->
  (forall name, equalsIgnoreCase (p_name p) name = true -> getProperty i' name = Ok (Some p)) /\
  (forall name, equalsIgnoreCase (p_name p) name = false -> getProperty i' name = getProperty i name).
Proof using nl.
  unfold setProperty. destruct (find_prop i (p_name p)) as [r| | |] eqn:E; try done. cbn [mbind outcome_bind]. intros H.
  assert (exists l, ci_properties i' = l /\
    (forall name, equalsIgnoreCase (p_name p) name = true -> exists k, locate (fun x => equalsIgnoreCase (p_name x) name) l = Ok (Some (k, p))) /\
    (forall name, equalsIgnoreCase (p_name p) name = false ->
       locate (fun x => equalsIgnoreCase (p_name x) name) l = find_prop i name)) as (l & El & H1 & H2).
  { assert (forall ps j, rebuild ps j = Ok i' -> ci_properties i' = ci_properties j) as Hr.
    { intros ps j. unfold rebuild. destruct (any_key ps) as [[]| | |]; try done; cbn; [|by intros [= <-]].
      unfold _buildKeys. destruct (key_props _); try done. by intros [= <-]. }
    destruct r as [[k cp]|].
    - apply Hr in H. exists (<[k := Some p]> (ci_properties i)). apply locate_some in E as (El & Et & Hb).
      assert (k < length (ci_properties i))%nat by (by eapply lookup_lt_Some). split_and!; [done| |].
      + intros name Hn. exists k. rewrite <- (locate_name _ _ _ Hn). apply locate_at.
        * by apply list_lookup_insert_eq.
        * apply name_refl.
        * intros j Hj. destruct (Hb j Hj) as (y & Hy & Ey). exists y. split; [|done]. by rewrite list_lookup_insert_ne by lia.
      + intros name Hn. apply (locate_insert_other _ _ cp); [done| |done]. by rewrite (name_cong _ _ _ Et).
    - apply Hr in H. exists (ci_properties i ++ [Some p]). split_and!; [done| |].
      + intros name Hn. exists (length (ci_properties i)). apply locate_append; [done|].
        unfold find_prop in E. by rewrite <- (locate_name _ _ _ Hn).
      + intros name Hn. by apply locate_append_other. }
  split; intros name Hn; rewrite !find_get; unfold find_prop at 1; rewrite El.
  - destruct (H1 name Hn) as (k & ->). done.
  - by rewrite H2.
Qed.

(** No two properties have the same name. *)
Definition names_unique (i : Inst) : Prop :=
  forall j k p q, ci_properties i !! j = Some (Some p) -> ci_properties i !! k = Some (Some q) ->
    equalsIgnoreCase (p_name p) (p_name q) = true -> j = k.

Lemma key_props_present (l : list (option Property)) ks : key_props l = Ok ks -> exists l', l = Some <$> l'.
Proof.
  revert ks. induction l as [|[p|] l IH]; intros ks H; [by exists []| |done]. cbn in H.
  destruct (isKey p); try done. cbn in H. destruct (key_props l) as [r| | |]; try done.
  destruct (IH r eq_refl) as (l' & ->). by exists (p :: l').
Qed.

Lemma removeProperty_get i name i' : keys_ok i -> names_unique i -> removeProperty i name = Ok i' ->
  getProperty i' name = Ok None.
Proof using nl.
  intros Hk Hu. unfold removeProperty. destruct (find_prop i name) as [[[k cp]|]| | |] eqn:E; try done; cbn [mbind outcome_bind]; intros H.
  - assert (ci_properties i' = remove_at k (ci_properties i)) as El.
    { unfold rebuild in H. destruct (any_key _) as [[]| | |]; try done; cbn in H; [|by injection H as <-].
      unfold _buildKeys in H. destruct (key_props _); try done. by injection H as <-. }
    rewrite find_get. unfold find_prop. rewrite El. apply locate_some in E as (Hc & Ht & _). unfold names_unique in Hu.
    destruct (key_props_present _ _ Hk) as (l & Hl). rewrite Hl in *. clear Hl H El Hk.
    rewrite list_lookup_fmap in Hc. apply fmap_Some in Hc as (c & Hc & [= <-]).
    assert (remove_at k (Some <$> l) = Some <$> (take k l ++ drop (S k) l)) as ->.
    { unfold remove_at. by rewrite fmap_app, fmap_take, fmap_drop. }
    rewrite (proj2 (locate_none _ _)); [done|]. eexists. split; [done|].
    assert (forall j q, l !! j = Some q -> j <> k -> equalsIgnoreCase (p_name q) name = false) as Hn.
    { intros j q Hj Hne. destruct (equalsIgnoreCase (p_name q) name) eqn:Eq; [|done]. destruct Hne.
      apply (Hu j k q cp); [by rewrite list_lookup_fmap, Hj|by rewrite list_lookup_fmap, Hc|].
      eapply name_trans; [done|by rewrite name_sym]. }
    apply Forall_app. split; apply Forall_lookup; intros j q Hj.
    + apply lookup_take_Some in Hj as [Hj Hlt]. apply (Hn j); [done|lia].
    + rewrite lookup_drop in Hj. apply (Hn (S k + j)%nat); [done|lia].
  - injection H as <-. by rewrite find_get, E.
Qed.
Lemma setProperty_unique i p i' : keys_ok i -> names_unique i -> setProperty i (Some p) = Ok i' -> names_unique i'.
Proof using nl.
  intros Hk Hu H. assert (forall ps j, rebuild ps j = Ok i' -> ci_properties i' = ci_properties j) as Hr.
  { intros ps j. unfold rebuild. destruct (any_key ps) as [[]| | |]; try done; cbn; [|by intros [= <-]].
    unfold _buildKeys. destruct (key_props _); try done. by intros [= <-]. }
  unfold setProperty in H. destruct (find_prop i (p_name p)) as [[[k cp]|]| | |] eqn:E; try done; cbn [mbind outcome_bind] in H;
    apply Hr in H; cbn in H; unfold names_unique; rewrite H.
  - apply locate_some in E as (Hc & Ht & _). intros a b x y [(-> & [= <-] & _)|[Ha Hx]]%list_lookup_insert_Some
      [(-> & [= <-] & _)|[Hb Hy]]%list_lookup_insert_Some Exy; [done| | |by eapply Hu].
    + apply (Hu _ _ cp y); [done|done|]. by rewrite (name_cong _ _ _ Ht).
    + apply (Hu _ _ x cp); [done|done|]. rewrite name_sym. rewrite (name_cong _ _ _ Ht). by rewrite name_sym.
  - apply locate_none in E as (l & El & Hl). rewrite Forall_forall in Hl.
    assert (forall j q, ci_properties i !! j = Some (Some q) -> equalsIgnoreCase (p_name q) (p_name p) = false) as Hn.
    { intros j q Hj. rewrite El, list_lookup_fmap in Hj. apply fmap_Some in Hj as (z & Hj & [= ->]). eapply Hl, list_elem_of_lookup_2, Hj. }
    intros a b x y Hx Hy Exy. apply lookup_app_Some in Hx as [Hx|[Ha Hx]]; apply lookup_app_Some in Hy as [Hy|[Hb Hy]].
    + by eapply Hu.
    + apply list_lookup_singleton_Some in Hy as [_ [= <-]]. apply Hn in Hx. congruence.
    + apply list_lookup_singleton_Some in Hx as [_ [= <-]]. apply Hn in Hy. rewrite name_sym in Exy. congruence.
    + apply list_lookup_singleton_Some in Hx as [? _], Hy as [? _]. lia.
Qed.

(** ** The operations return *)

Definition key_known (o : option Property) : Prop := exists p b, o = Some p /\ isKey p = Ok b.

Lemma key_props_known (l : list (option Property)) : (exists ks, key_props l = Ok ks) <-> Forall key_known l.
Proof.
  split.
  - induction l as [|[p|] l IH]; intros [ks H]; [constructor| |done]. cbn in H. destruct (isKey p) as [b| | |] eqn:E; try done. cbn in H.
    destruct (key_props l) as [r| | |]; try done. constructor; [by exists p, b|apply IH; by exists r].
  - induction 1 as [|o l (p & b & -> & E) _ [r IH]]; [by exists []|]. cbn. rewrite E. cbn. rewrite IH. cbn. by eexists.
Qed.

Lemma locate_returns (l : list (option Property)) test : Forall key_known l -> exists r, locate test l = Ok r.
Proof.
  induction 1 as [|o l (p & b & -> & _) _ [r IH]]; [by eexists|]. cbn. destruct (test p); [by eexists|]. rewrite IH. by eexists.
Qed.

Lemma rebuild_returns ps i : Forall (fun p => key_known (Some p)) ps -> Forall key_known (ci_properties i) -> exists i', rebuild ps i = Ok i'.
Proof.
  intros Hps Hi. assert (exists b, any_key ps = Ok b) as [b Hb].
  { induction Hps as [|p ps (q & c & [= <-] & E) _ [r IH]]; [by exists false|]. cbn. rewrite E. cbn. destruct c; by eexists. }
  unfold rebuild. rewrite Hb. cbn. destruct b; [|by eexists]. unfold _buildKeys.
  apply key_props_known in Hi as [ks ->]. cbn. by eexists.
Qed.

Lemma setProperty_returns i p : keys_ok i -> key_known (Some p) -> exists i', setProperty i (Some p) = Ok i'.
Proof.
  intros Hk Hp. assert (Forall key_known (ci_properties i)) as Hi by (apply key_props_known; by exists (ci_keys i)).
  unfold setProperty. destruct (locate_returns _ (fun x => equalsIgnoreCase (p_name x) (p_name p)) Hi) as [r E]. unfold find_prop. rewrite E.
  cbn [mbind outcome_bind]. destruct r as [[k cp]|].
  - apply locate_some in E as (Hc & _). assert (key_known (Some cp)) by (by eapply Forall_lookup_1).
    apply rebuild_returns; [by repeat constructor|]. cbn. by apply Forall_insert.
  - apply rebuild_returns; [by repeat constructor|]. cbn. apply Forall_app. split; [done|by repeat constructor].
Qed.

Lemma removeProperty_returns i name : keys_ok i -> exists i', removeProperty i name = Ok i'.
Proof.
  intros Hk. assert (Forall key_known (ci_properties i)) as Hi by (apply key_props_known; by exists (ci_keys i)).
  unfold removeProperty. destruct (locate_returns _ (fun x => equalsIgnoreCase (p_name x) name) Hi) as [r E]. unfold find_prop. rewrite E.
  cbn [mbind outcome_bind]. destruct r as [[k cp]|]; [|by eexists].
  apply locate_some in E as (Hc & _). assert (key_known (Some cp)) by (by eapply Forall_lookup_1).
  apply rebuild_returns; [by repeat constructor|]. cbn. unfold remove_at. apply Forall_app. split; [by apply Forall_take|by apply Forall_drop].
Qed.
End KeyFacts.
