(* ===== verification/CimSync.v ===== *)
(** * Instances and their class

   Bringing an instance in line with its class, the copies of an instance with a
   part of its properties, and the instance that a modification leads to, after
   src/src/cim/OW_CIMInstance.cpp, OW_CIMProperty.cpp and OW_CIMClass.cpp. *)

From S2P Require Import Prelude Blocxx CimSerial CimData CimDateTime CimIO CimOps.
Import CIMDataType.

Section Sync.
Context {bx : Blocxx} {sc : StringConv} (asserts : bool).
Context (castValueToDataType : CIMValueImpl -> DTData -> outcome CIMValue).
Abbreviation Qual := (QUALData CIMValueImpl).
Abbreviation Property := (PROPData CIMValueImpl).
Abbreviation Inst := (INSTData CIMValueImpl).
Abbreviation Cls := (CLSData CIMValueImpl).

(** ** Classes *)

Definition cls_getProperty (c : Cls) (name : bytes) : outcome (option Property) :=
  r ← locate (fun p => equalsIgnoreCase (p_name p) name) (cc_properties c); Ok (option_map snd r).

Definition cls_getQualifier (c : Cls) (name : bytes) : outcome (option Qual) :=
  r ← locate (fun q => equalsIgnoreCase (cq_name q) name) (cc_qualifiers c); Ok (option_map snd r).

Definition cls_getKeys (c : Cls) : outcome (list (option Property)) := key_props (cc_properties c).

(** ** [syncWithClass] *)

(** Properties that the class has not are removed. *)
Fixpoint known_props (c : Cls) (l : list (option Property)) : outcome (list (option Property)) :=
  match l with
  | [] => Ok []
  | x :: l =>
      p ← present x;
      cp ← cls_getProperty c (p_name p);
      r ← known_props c l;
      Ok (match cp with Some _ => Some p :: r | None => r end)
  end.

(** The class's property, with the value of the instance's. *)
Definition take_value (cprop iprop : Property) : outcome Property :=
  match p_cimValue iprop with
  | None => Ok cprop
  | Some v =>
      dt ← present (p_propertyDataType cprop);
      cv ← (if negb (value_type v =? m_type dt) && negb (embedded (value_type v)) then castValueToDataType v dt else Ok (Some v));
      setValue asserts castValueToDataType cprop cv
  end.

Definition sync_prop (l : list (option Property)) (cprop : Property) : outcome (list (option Property)) :=
  r ← locate (fun p => equalsIgnoreCase (p_name p) (p_name cprop)) l;
  match r with
  | Some (j, iprop) => p ← take_value cprop iprop; Ok (<[j := Some p]> l)
  | None => Ok (l ++ [Some cprop])
  end.

Fixpoint sync_props (cps l : list (option Property)) : outcome (list (option Property)) :=
  match cps with
  | [] => Ok l
  | cp :: cps => cp ← present cp; l ← sync_prop l cp; sync_props cps l
  end.

Fixpoint clear_all (l : list (option Property)) : outcome (list (option Property)) :=
  match l with
  | [] => Ok []
  | x :: l => p ← present x; p ← clearNonKeyQualifiers p; r ← clear_all l; Ok (Some p :: r)
  end.

Definition syncWithClass (i : Inst) (theClass : option Cls) (includeQualifiers : bool) : outcome Inst :=
  match theClass with
  | None => Ok i
  | Some c =>
      l ← known_props c (ci_properties i);
      l ← sync_props (cc_properties c) l;
      i ← setProperties i l;
      if includeQualifiers then Ok i else l ← clear_all (ci_properties i); Ok (with_props i l)
  end.

(** ** [clone] *)

(** A copy of an object whose values are [W]: [orig] is the value itself, [copy]
   its copy. *)
Section Copies.
Context {W : Type} (orig : W -> CIMValueImpl) (copy : W -> outcome CIMValueImpl).
Context (includeQualifiers includeClassOrigin : bool).

Definition prop_clone (p : PROPData W) : outcome Property :=
  v ← match p_cimValue p with Some v => v ← copy v; Ok (Some v) | None => Ok None end;
  Ok (mkProp (p_name p) (if includeQualifiers then quals_map orig (p_qualifiers p) else []) (p_propertyDataType p)
       (p_sizeDataType p) (p_override p) (if includeClassOrigin then p_originClass p else []) v (p_propagated p)).

(** The properties asked for, in the order of the instance. *)
Fixpoint props_clone (localOnly : bool) (propertyList : list bytes) (l : list (option (PROPData W))) : outcome (list (option Property)) :=
  match l with
  | [] => Ok []
  | x :: l =>
      p ← present x;
      if localOnly && p_propagated p then props_clone localOnly propertyList l
      else if bool_decide (propertyList = []) || existsb (fun n => equalsIgnoreCase (p_name p) n) propertyList
      then q ← prop_clone p; r ← props_clone localOnly propertyList l; Ok (Some q :: r)
      else props_clone localOnly propertyList l
  end.

Fixpoint local_quals (localOnly : bool) (l : list (option (QUALData W))) : outcome (list (option Qual)) :=
  match l with
  | [] => Ok []
  | x :: l =>
      if localOnly then
        q ← present x; r ← local_quals localOnly l; Ok (if cq_propagated q then r else option_map (qual_map orig) x :: r)
      else r ← local_quals localOnly l; Ok (option_map (qual_map orig) x :: r)
  end.

Definition inst_clone (localOnly : bool) (propertyList : list bytes) (noProps : bool) (i : INSTData W) : outcome Inst :=
  qs ← (if includeQualifiers then local_quals localOnly (ci_qualifiers i) else Ok []);
  ps ← (if noProps then Ok [] else props_clone localOnly propertyList (ci_properties i));
  Ok (mkInst (ci_namespace i) (ci_owningClassName i) (props_map orig (ci_keys i)) ps qs (ci_language i)).
End Copies.

(** Embedded instances are copied with the same flags, other values shared. *)
Fixpoint clone_value (includeQualifiers includeClassOrigin : bool) (v : CIMValueImpl) : outcome CIMValueImpl :=
  match v with
  | mkValue t a d =>
      if t =? EMBEDDEDINSTANCE then
        let clone_embedded (i : option (INSTData (CIMValueImpl * outcome CIMValueImpl))) : outcome (option Inst) :=
          i ← present i; i ← inst_clone fst snd includeQualifiers includeClassOrigin false [] false i; Ok (Some i) in
        match a, data_map (fun x => (x, clone_value includeQualifiers includeClassOrigin x)) d with
        | false, V_inst i => i ← clone_embedded i; Ok (mkValue t a (V_inst i))
        | true, V_insts l =>
            (fix go l acc := match l with
              | [] => Ok (mkValue t a (V_insts (rev acc)))
              | x :: l => y ← clone_embedded x; go l (y :: acc)
              end) l []
        | _, _ => Crash
        end
      else Ok v
  end.

Definition clone_ (localOnly includeQualifiers includeClassOrigin : bool) (propertyList : list bytes) (noProps : bool) (i : Inst) : outcome Inst :=
  inst_clone (fun v => v) (clone_value includeQualifiers includeClassOrigin) includeQualifiers includeClassOrigin localOnly propertyList noProps i.

Definition clone (localOnly includeQualifiers includeClassOrigin : bool) (propertyList : option (list bytes)) (i : Inst) : outcome Inst :=
  clone_ localOnly includeQualifiers includeClassOrigin (default [] propertyList)
    (match propertyList with Some [] => true | _ => false end) i.

Definition filterProperties (propertyList : list bytes) (includeQualifiers includeClassOrigin ignorePropertyList : bool) (i : Inst) : outcome Inst :=
  clone_ false includeQualifiers includeClassOrigin propertyList (bool_decide (propertyList = []) && negb ignorePropertyList) i.

(** The copy for an enumeration: a property passes as the requested class and the
   flags say. *)
Definition passes (localOnly deep : bool) (requested : Cls) (p : Property) : outcome bool :=
  clsp ← cls_getProperty requested (p_name p);
  Ok match clsp with
     | Some cp =>
         equalsIgnoreCase (p_originClass cp) (cc_name requested)
         || (deep && negb (bool_decide (p_originClass p = p_originClass cp)))
         || negb localOnly
     | None => deep
     end.

Fixpoint passing (localOnly deep : bool) (requested : Cls) (l : list (option Property)) : outcome (list (option Property)) :=
  match l with
  | [] => Ok []
  | x :: l => p ← present x; b ← passes localOnly deep requested p; r ← passing localOnly deep requested l;
      Ok (if (b : bool) then Some p :: r else r)
  end.

Definition clone_for (localOnly deep includeQualifiers includeClassOrigin : bool) (propertyList : option (list bytes))
    (requested cimClass : Cls) (i : Inst) : outcome Inst :=
  i ← syncWithClass i (Some cimClass) true;
  ci ← clone false includeQualifiers includeClassOrigin propertyList i;
  if negb deep || localOnly then
    l ← passing localOnly deep requested (ci_properties ci);
    i ← setProperties ci l;
    Ok (with_keys i (ci_keys ci))
  else Ok ci.

(** ** [createModifiedInstance] *)

Definition with_inst_quals (i : Inst) (q : list (option Qual)) : Inst :=
  mkInst (ci_namespace i) (ci_owningClassName i) (ci_keys i) (ci_properties i) q (ci_language i).

Fixpoint take_props (this : Inst) (includeQualifiers : bool) (c : Cls) (names : list bytes) (newInst : Inst) : outcome Inst :=
  match names with
  | [] => Ok newInst
  | n :: names =>
      p ← getProperty this n;
      newInst ← match p with
        | Some p =>
            p ← (if includeQualifiers then Ok p
                 else cp ← cls_getProperty c n; Ok (match cp with Some cp => with_quals p (p_qualifiers cp) | None => p end));
            setProperty newInst (Some p)
        | None =>
            cp ← cls_getProperty c n;
            match cp with Some cp => setProperty newInst (Some cp) | None => removeProperty newInst n end
        end;
      take_props this includeQualifiers c names newInst
  end.

Definition createModifiedInstance (this previous : Inst) (includeQualifiers : bool) (propertyList : option (list bytes)) (c : Cls) : outcome Inst :=
  let newInst := if includeQualifiers then this else with_inst_quals this (ci_qualifiers previous) in
  match propertyList with
  | None => Ok newInst
  | Some names =>
      newInst ← setProperties newInst (ci_properties previous);
      take_props this includeQualifiers c names newInst
  end.
End Sync.

(** ** Paths of instances *)

Fixpoint drop_slashes (s : bytes) : bytes :=
  match s with c :: r => if c =? 47 then drop_slashes r else s | [] => [] end.

Section Paths.
Context {bx : Blocxx} {ss : StringSearch} {sc : StringConv}.

(** [CIMNameSpace::setNameSpace] *)
Definition ns_text (nameSpace : bytes) : bytes := drop_slashes (c_str (trim nameSpace)).

(** [CIMObjectPath::setNameSpace] *)
Definition path_setNameSpace (d : OPData CIMValueImpl) (ns : bytes) : option (OPData CIMValueImpl) :=
  match op_nameSpace d with
  | Some n => Some (mkOP (Some (mkNS (ns_text ns) (m_url n))) (op_objectName d) (op_keys d))
  | None => None
  end.

(** [CIMObjectPath::setKeys]: the keys of a path have no qualifiers. *)
Fixpoint path_keys (l : list (option (PROPData CIMValueImpl))) : outcome (list (option (PROPData CIMValueImpl))) :=
  match l with
  | [] => Ok []
  | x :: l => p ← present x; r ← path_keys l; Ok (Some (with_quals p []) :: r)
  end.

(** [CIMObjectPath(ns, instance)] *)
Definition instance_path (ns : bytes) (i : INSTData CIMValueImpl) : outcome (OPData CIMValueImpl) :=
  ks ← path_keys (ci_keys i);
  Ok (mkOP (Some (mkNS (ns_text ns) CIMUrl_default)) (ci_owningClassName i) ks).
End Paths.

(** ** Conformity *)

Section Conform.
Context {bx : Blocxx} {sc : StringConv} {nl : NameLaws} (asserts : bool).
Context (cast : CIMValueImpl -> DTData -> outcome CIMValue).
Abbreviation Property := (PROPData CIMValueImpl).
Abbreviation Inst := (INSTData CIMValueImpl).
Abbreviation Cls := (CLSData CIMValueImpl).
Abbreviation same a b := (equalsIgnoreCase (p_name a) (p_name b) = true).

(** The property is the class's but for its value. *)
Definition like (p cp : Property) : Prop := with_value p (p_cimValue cp) = cp.

Lemma like_refl cp : like cp cp.
Proof. by destruct cp. Qed.

Lemma like_name p cp : like p cp -> p_name p = p_name cp.
Proof. intros <-. done. Qed.

(** No null properties, and names that differ. *)
Definition distinct (l : list (option Property)) : Prop :=
  Forall is_Some l /\ forall j k p q, l !! j = Some (Some p) -> l !! k = Some (Some q) -> same p q -> j = k.

Lemma setValue_like p v p' : dt_set (p_propertyDataType p) = true -> setValue asserts cast p v = Ok p' -> like p' p.
Proof.
  intros Hd. unfold setValue. destruct (p_propertyDataType p) as [dt|] eqn:Ep; [|done]. rewrite Hd.
  assert (forall v, like (with_value p v) p) as Hv by (intros v'; by destruct p). destruct v as [v|]; [|by intros [= <-]].
  destruct (getCIMDataType asserts v) as [t| | |]; try done. cbn [mbind outcome_bind].
  destruct (_ && _); [|by intros [= <-]]. destruct (cast v dt) as [v'| | |]; try done. by intros [= <-].
Qed.

Lemma take_value_like cp ip p : dt_set (p_propertyDataType cp) = true -> take_value asserts cast cp ip = Ok p -> like p cp.
Proof.
  intros Hd. unfold take_value. destruct (p_cimValue ip) as [v|]; [|intros [= <-]; apply like_refl].
  destruct (p_propertyDataType cp) as [dt|] eqn:Ed; [|done]. cbn [present mbind outcome_bind].
  destruct (if _ && _ then _ else _) as [cv| | |]; try done. cbn [mbind outcome_bind]. apply setValue_like. by rewrite Ed.
Qed.

Lemma sync_prop_spec l cp l' : distinct l -> dt_set (p_propertyDataType cp) = true -> sync_prop asserts cast l cp = Ok l' ->
  distinct l' /\
  (exists p, Some p ∈ l' /\ like p cp) /\
  (forall p, Some p ∈ l' -> same p cp -> like p cp) /\
  (forall p, Some p ∈ l' -> equalsIgnoreCase (p_name p) (p_name cp) = false -> Some p ∈ l) /\
  (forall p, Some p ∈ l -> equalsIgnoreCase (p_name p) (p_name cp) = false -> Some p ∈ l') /\
  (forall p, Some p ∈ l -> same p cp -> exists p', Some p' ∈ l' /\ take_value asserts cast cp p = Ok p') /\
  ((forall p, Some p ∈ l -> equalsIgnoreCase (p_name p) (p_name cp) = false) -> Some cp ∈ l').
Proof.
  intros [Hs Hu] Hd. unfold sync_prop. destruct (locate _ l) as [[[j ip]|]| | |] eqn:E; try done; cbn [mbind outcome_bind].
  - destruct (take_value asserts cast cp ip) as [p0| | |] eqn:Ev; try done. intros [= <-].
    apply locate_some in E as (Hj & Ht & _). cbn beta in Ht. pose proof Ev as Ev'. apply take_value_like in Ev; [|done]. pose proof (like_name _ _ Ev) as En.
    assert (j < length l)%nat as Hlt by (by eapply lookup_lt_Some).
    assert (forall k p, <[j := Some p0]> l !! k = Some (Some p) -> k = j /\ p = p0 \/ k <> j /\ l !! k = Some (Some p)) as Hin.
    { intros k p [(-> & [= <-] & _)|[Hne Hk]]%list_lookup_insert_Some; auto. }
    assert (forall k p, k <> j -> l !! k = Some (Some p) -> equalsIgnoreCase (p_name p) (p_name cp) = false) as Hne.
    { intros k p Hk Hl. destruct (equalsIgnoreCase (p_name p) (p_name cp)) eqn:Es; [|done]. destruct Hk. eapply Hu; [done..|].
      rewrite name_sym in Ht. eapply name_trans; [exact Es|done]. }
    split_and!.
    + split; [by apply Forall_insert|]. intros a b p q [[-> ->]|[Ha Hp]]%Hin [[-> ->]|[Hb Hq]]%Hin Hpq; [done| | |by eapply Hu].
      * rewrite En, name_sym in Hpq. apply Hne in Hq; [congruence|done].
      * rewrite En in Hpq. apply Hne in Hp; [congruence|done].
    + exists p0. split; [|done]. eapply list_elem_of_lookup_2. by apply list_lookup_insert_eq.
    + intros p [k [[-> ->]|[Hk Hp]]%Hin]%list_elem_of_lookup Hp'; [done|]. apply Hne in Hp; [congruence|done].
    + intros p [k [[-> ->]|[Hk Hp]]%Hin]%list_elem_of_lookup Hp'; [|by eapply list_elem_of_lookup_2].
      rewrite En, name_refl in Hp'. done.
    + intros p [k Hp]%list_elem_of_lookup Hpc. assert (k <> j) by (intros ->; simplify_eq; congruence).
      eapply (list_elem_of_lookup_2 _ k). by rewrite list_lookup_insert_ne.
    + intros p [k Hp]%list_elem_of_lookup Hpc. destruct (decide (k = j)) as [->|Hk].
      * exists p0. simplify_eq. split; [eapply list_elem_of_lookup_2; by apply list_lookup_insert_eq|done].
      * apply Hne in Hp; [congruence|done].
    + intros Hno. apply list_elem_of_lookup_2, Hno in Hj. congruence.
  - intros [= <-]. apply locate_none in E as (l0 & -> & Hl0). rewrite Forall_forall in Hl0.
    assert (forall k p, (Some <$> l0) !! k = Some (Some p) -> equalsIgnoreCase (p_name p) (p_name cp) = false) as Hne.
    { intros k p Hk. rewrite list_lookup_fmap in Hk. apply fmap_Some in Hk as (y & Hy & [= ->]). eapply Hl0, list_elem_of_lookup_2, Hy. }
    split_and!.
    + split; [apply Forall_app; split; [done|by apply Forall_singleton]|].
      intros a b p q [Hp|[Ha Hp]]%lookup_app_Some [Hq|[Hb Hq]]%lookup_app_Some Hpq; [by eapply Hu| | |].
      * apply list_lookup_singleton_Some in Hq as [_ [= <-]]. apply Hne in Hp. congruence.
      * apply list_lookup_singleton_Some in Hp as [_ [= <-]]. apply Hne in Hq. rewrite name_sym in Hpq. congruence.
      * apply list_lookup_singleton_Some in Hp as [? _], Hq as [? _]. lia.
    + exists cp. split; [|apply like_refl]. apply elem_of_app. right. by apply list_elem_of_singleton.
    + intros p [Hp|Hp]%elem_of_app Hpc; [|apply list_elem_of_singleton in Hp as [= ->]; apply like_refl].
      apply list_elem_of_lookup in Hp as [k Hp]. apply Hne in Hp. congruence.
    + intros p [Hp|Hp]%elem_of_app Hpc; [done|]. apply list_elem_of_singleton in Hp as [= ->]. by rewrite name_refl in Hpc.
    + intros p Hp _. apply elem_of_app. by left.
    + intros p [k Hp]%list_elem_of_lookup Hpc. apply Hne in Hp. congruence.
    + intros _. apply elem_of_app. right. by apply list_elem_of_singleton.
Qed.

Definition typed_props (l : list (option Property)) : Prop := forall p, Some p ∈ l -> dt_set (p_propertyDataType p) = true.

Lemma distinct_cons o l : distinct (o :: l) -> exists p, o = Some p /\ distinct l /\
  forall q, Some q ∈ l -> equalsIgnoreCase (p_name q) (p_name p) = false.
Proof.
  intros [Hs Hu]. inversion Hs as [|? ? [p ->] Hs']; subst. exists p. split; [done|]. split.
  - split; [done|]. intros j k a b Ha Hb Hab. assert (S j = S k) by (by eapply Hu). lia.
  - intros q [k Hk]%list_elem_of_lookup. destruct (equalsIgnoreCase (p_name q) (p_name p)) eqn:E; [|done].
    assert (S k = 0)%nat by (by eapply (Hu (S k) 0%nat q p)). lia.
Qed.

Lemma sync_props_spec cps l l' : distinct cps -> typed_props cps -> distinct l -> sync_props asserts cast cps l = Ok l' ->
  distinct l' /\
  (forall p, Some p ∈ l -> (forall cp, Some cp ∈ cps -> equalsIgnoreCase (p_name p) (p_name cp) = false) -> Some p ∈ l') /\
  (forall p, Some p ∈ l' -> (exists cp, Some cp ∈ cps /\ like p cp) \/
     (Some p ∈ l /\ forall cp, Some cp ∈ cps -> equalsIgnoreCase (p_name p) (p_name cp) = false)) /\
  (forall p cp, Some p ∈ l -> Some cp ∈ cps -> same p cp -> exists p', Some p' ∈ l' /\ take_value asserts cast cp p = Ok p') /\
  (forall cp, Some cp ∈ cps -> (forall p, Some p ∈ l -> equalsIgnoreCase (p_name p) (p_name cp) = false) -> Some cp ∈ l').
Proof.
  revert l. induction cps as [|o cps IH]; intros l Hc Ht Hl E.
  { injection E as <-. split_and!; [done|done|intros p Hp; right; split; [done|]|..]; by intros ? ?%not_elem_of_nil || set_solver. }
  apply distinct_cons in Hc as (cp & -> & Hc & Hn). cbn in E.
  destruct (sync_prop asserts cast l cp) as [l1| | |] eqn:E1; try done. cbn in E.
  apply sync_prop_spec in E1 as (Hl1 & H1 & H2 & H3 & H4 & H5 & H6); [|done|by apply Ht; left].
  destruct (IH l1 Hc ltac:(intros p Hp; apply Ht; by right) Hl1 E) as (Hl' & K1 & K2 & K3 & K4).
  assert (forall p, Some p ∈ l1 -> same p cp -> Some p ∈ l') as Hstay.
  { intros p Hp Hs. apply K1; [done|]. intros q Hq. apply Hn in Hq. rewrite (name_cong _ _ _ Hs). by rewrite name_sym. }
  split_and!; [done| | | |].
  - intros p Hp Hno. apply K1; [apply H4; [done|apply Hno; by left]|]. intros q Hq. apply Hno. by right.
  - intros p Hp. destruct (K2 p Hp) as [(q & Hq & Hlike)|[Hp1 Hno]]; [left; exists q; split; [by right|done]|].
    destruct (equalsIgnoreCase (p_name p) (p_name cp)) eqn:Es.
    + left. exists cp. split; [by left|by apply H2].
    + right. split; [by apply H3|]. intros q [[= ->]|Hq]%elem_of_cons; [done|by apply Hno].
  - intros p q Hp [[= ->]|Hq]%elem_of_cons Hs.
    + destruct (H5 p Hp Hs) as (p' & Hp' & Ev). exists p'. split; [|done]. apply Hstay; [done|].
      apply take_value_like in Ev; [|apply Ht; by left]. by rewrite (like_name _ _ Ev), name_refl.
    + apply (K3 p q); [|done..]. apply H4; [done|]. apply Hn in Hq. rewrite (name_cong _ _ _ Hs). done.
  - intros q [[= ->]|Hq]%elem_of_cons Hno.
    + apply Hstay; [by apply H6|apply name_refl].
    + apply K4; [done|]. intros p Hp. destruct (equalsIgnoreCase (p_name p) (p_name cp)) eqn:Es.
      * rewrite (name_cong _ _ _ Es), name_sym. by apply Hn.
      * by apply Hno, H3.
Qed.

Lemma distinct_nil : distinct [].
Proof. split; [constructor|]. intros ? ? ? ? H. by rewrite lookup_nil in H. Qed.

Lemma distinct_intro p l : distinct l -> (forall q, Some q ∈ l -> equalsIgnoreCase (p_name q) (p_name p) = false) -> distinct (Some p :: l).
Proof using nl.
  intros [Hs Hu] Hn. split; [constructor; [by eexists|done]|]. intros [|j] [|k] a b Ha Hb Hab; cbn in *; simplify_eq; [done| | |].
  - apply list_elem_of_lookup_2, Hn in Hb. rewrite name_sym in Hab. congruence.
  - apply list_elem_of_lookup_2, Hn in Ha. congruence.
  - f_equal. by eapply Hu.
Qed.

Lemma locate_present {A} (test : A -> bool) l : Forall is_Some l -> exists r, locate test l = Ok r.
Proof. induction 1 as [|o l [x ->] _ [r IH]]; [by eexists|]. cbn. destruct (test x); [by eexists|]. rewrite IH. by eexists. Qed.

(** Looking a name up in a class. *)
Lemma cls_getProperty_spec (c : Cls) name : Forall is_Some (cc_properties c) ->
  exists r, cls_getProperty c name = Ok r /\
    match r with
    | Some cp => Some cp ∈ cc_properties c /\ equalsIgnoreCase (p_name cp) name = true
    | None => forall cp, Some cp ∈ cc_properties c -> equalsIgnoreCase (p_name cp) name = false
    end.
Proof.
  intros Hs. unfold cls_getProperty.
  destruct (locate_present (fun p => equalsIgnoreCase (p_name p) name) _ Hs) as [r E].
  rewrite E. cbn. eexists. split; [done|]. destruct r as [[k cp]|]; cbn.
  - apply locate_some in E as (Hk & Ht & _). split; [by eapply list_elem_of_lookup_2|done].
  - apply locate_none in E as (l & -> & Hl). rewrite Forall_forall in Hl. intros cp Hcp. apply list_elem_of_fmap in Hcp as (y & [= ->] & Hy). by apply Hl.
Qed.

Lemma known_props_spec (c : Cls) l : Forall is_Some (cc_properties c) -> distinct l ->
  exists r, known_props c l = Ok r /\ distinct r /\
    forall p, Some p ∈ r <-> Some p ∈ l /\ exists cp, Some cp ∈ cc_properties c /\ same p cp.
Proof using nl.
  intros Hc. induction l as [|o l IH]; intros Hl.
  { exists []. split; [done|]. split; [apply distinct_nil|]. set_solver. }
  apply distinct_cons in Hl as (p & -> & Hl & Hn). destruct (IH Hl) as (r & Er & Hr & Hin).
  destruct (cls_getProperty_spec c (p_name p) Hc) as (x & Ex & Hx). cbn. rewrite Ex. cbn. rewrite Er. cbn. destruct x as [cp|].
  - eexists. split; [done|]. split; [apply distinct_intro; [done|]; intros q Hq; apply Hn; by apply Hin|].
    intros q. rewrite !elem_of_cons, Hin. split; [|naive_solver]. intros [[= ->]|]; [|naive_solver].
    destruct Hx. split; [by left|]. exists cp. split; [done|]. by rewrite name_sym.
  - eexists. split; [done|]. split; [done|]. intros q. rewrite elem_of_cons, Hin. split; [naive_solver|].
    intros [[[= ->]|] (cp & Hcp & Hs)]; [|naive_solver]. apply Hx in Hcp. rewrite name_sym in Hs. congruence.
Qed.

(** The class takes the value of the property. *)
Definition takes (cps : list (option Property)) (p : Property) : Prop :=
  forall cp, Some cp ∈ cps -> same p cp -> exists p', take_value asserts cast cp p = Ok p'.

Lemma sync_props_returns cps l : distinct cps -> typed_props cps -> distinct l -> (forall p, Some p ∈ l -> takes cps p) ->
  exists l', sync_props asserts cast cps l = Ok l'.
Proof.
  revert l. induction cps as [|o cps IH]; intros l Hc Ht Hl Hv; [by eexists|].
  apply distinct_cons in Hc as (cp & -> & Hc & Hn). cbn.
  assert (exists l1, sync_prop asserts cast l cp = Ok l1) as [l1 E1].
  { unfold sync_prop. destruct (locate_present (fun p => equalsIgnoreCase (p_name p) (p_name cp)) l (proj1 Hl)) as [r E].
    rewrite E. cbn [mbind outcome_bind]. destruct r as [[j ip]|]; [|by eexists].
    apply locate_some in E as (Hj & Hs & _). destruct (Hv ip (list_elem_of_lookup_2 _ _ _ Hj) cp ltac:(by left) Hs) as (p' & ->). by eexists. }
  rewrite E1. cbn. apply sync_prop_spec in E1 as (Hl1 & _ & H2 & H3 & _); [|done|by apply Ht; left].
  apply IH; [done|intros p Hp; apply Ht; by right|done|]. intros p Hp q Hq Hs. apply (Hv p); [|by right|done].
  apply H3; [done|]. rewrite (name_cong _ _ _ Hs). by apply Hn.
Qed.

Lemma like_key p cp : like p cp -> isKey p = isKey cp.
Proof. intros <-. by apply isKey_shape. Qed.

(** A class whose properties have names of their own, data types, and say whether
   they are keys. *)
Record class_sound (c : Cls) : Prop := {
  cs_distinct : distinct (cc_properties c);
  cs_typed : typed_props (cc_properties c);
  cs_keys : Forall key_known (cc_properties c);
}.

(** What has been brought in line: the properties are those of the class, the
   values those that the instance had, or the class's. *)
Record synced (c : Cls) (i i' : Inst) : Prop := {
  sy_keys : keys_ok i';
  sy_distinct : distinct (ci_properties i');
  sy_known : forall p, Some p ∈ ci_properties i' -> exists cp, Some cp ∈ cc_properties c /\ like p cp;
  sy_complete : forall cp, Some cp ∈ cc_properties c -> exists p, Some p ∈ ci_properties i' /\ like p cp;
  sy_values : forall p cp, Some p ∈ ci_properties i -> Some cp ∈ cc_properties c -> same p cp ->
    exists p', Some p' ∈ ci_properties i' /\ take_value asserts cast cp p = Ok p';
  sy_defaults : forall cp, Some cp ∈ cc_properties c ->
    (forall p, Some p ∈ ci_properties i -> equalsIgnoreCase (p_name p) (p_name cp) = false) -> Some cp ∈ ci_properties i';
  sy_rest : with_keys (with_props i' []) [] = with_keys (with_props i []) [];
}.

Lemma syncWithClass_spec i c : class_sound c -> distinct (ci_properties i) ->
  (forall p, Some p ∈ ci_properties i -> takes (cc_properties c) p) ->
  exists i', syncWithClass asserts cast i (Some c) true = Ok i' /\ synced c i i'.
Proof using nl.
  intros [Hc Ht Hk] Hi Hv. destruct (known_props_spec c (ci_properties i) (proj1 Hc) Hi) as (l & El & Hl & Hin).
  destruct (sync_props_returns (cc_properties c) l Hc Ht Hl) as (l' & El'); [intros p Hp; by apply Hv, Hin|].
  destruct (sync_props_spec _ _ _ Hc Ht Hl El') as (Hl' & K1 & K2 & K3 & K4).
  assert (forall p, Some p ∈ l' -> exists cp, Some cp ∈ cc_properties c /\ like p cp) as Hknown.
  { intros p Hp. destruct (K2 p Hp) as [|[Hpl Hno]]; [done|]. apply Hin in Hpl as (_ & cp & Hcp & Hs). apply Hno in Hcp. congruence. }
  assert (exists ks, key_props l' = Ok ks) as [ks Eks].
  { apply key_props_known. apply Forall_forall. intros o Ho. destruct Hl' as [Hsome _]. rewrite Forall_forall in Hsome.
    destruct (Hsome o Ho) as [p ->]. destruct (Hknown p Ho) as (cp & Hcp & Hlike). rewrite Forall_forall in Hk.
    destruct (Hk _ Hcp) as (q & b & [= <-] & Eb). exists p, b. split; [done|]. by rewrite (like_key _ _ Hlike). }
  exists (with_keys (with_props i l') ks). split.
  { unfold syncWithClass. rewrite El. cbn. rewrite El'. cbn. unfold setProperties, _buildKeys. cbn. by rewrite Eks. }
  split; cbn; [done|done|done| | | |done].
  - intros cp Hcp. destruct (locate_present (fun p => equalsIgnoreCase (p_name p) (p_name cp)) l (proj1 Hl)) as [[[j p]|] E].
    + apply locate_some in E as (Hp & Hs & _). apply list_elem_of_lookup_2 in Hp.
      destruct (K3 p cp Hp Hcp Hs) as (p' & Hp' & Ev). exists p'. split; [done|]. by eapply take_value_like; [apply Ht|].
    + exists cp. split; [|apply like_refl]. apply K4; [done|]. apply locate_none in E as (l0 & -> & Hl0). rewrite Forall_forall in Hl0.
      intros p (y & [= ->] & Hy)%list_elem_of_fmap. by apply Hl0.
  - intros p cp Hp Hcp Hs. apply (K3 p cp); [|done..]. apply Hin. eauto.
  - intros cp Hcp Hno. apply K4; [done|]. intros p Hp. apply Hno. by apply Hin.
Qed.
End Conform.

(** ** Modified instances *)

Section Modified.
Context {bx : Blocxx} {sc : StringConv} {nl : NameLaws}.
Abbreviation Property := (PROPData CIMValueImpl).
Abbreviation Inst := (INSTData CIMValueImpl).

Lemma locate_ext {A} (t t' : A -> bool) l : (forall x, t x = t' x) -> locate t l = locate t' l.
Proof. intros H. induction l as [|[x|] l IH]; [done| |done]. cbn. by rewrite H, IH. Qed.

Lemma getProperty_cong (i : Inst) a b : equalsIgnoreCase a b = true -> getProperty i a = getProperty i b.
Proof using nl. intros H. unfold getProperty. f_equal. apply locate_ext. intros x. by apply name_cong. Qed.

Lemma getProperty_name (i : Inst) n p : getProperty i n = Ok (Some p) -> equalsIgnoreCase (p_name p) n = true.
Proof using nl.
  unfold getProperty. destruct (locate _ _) as [[[j q]|]| | |] eqn:E; try done. intros [= <-].
  apply locate_some in E as (_ & H & _). by rewrite name_sym.
Qed.

Lemma locate_removed {A} (test : A -> bool) l k c : l !! k = Some (Some c) -> test c = false ->
  (r ← locate test (remove_at k l); Ok (option_map snd r)) = (r ← locate test l; Ok (option_map snd r)).
Proof.
  revert k. induction l as [|o l IH]; intros [|k] Hk Hc; try done.
  - injection Hk as ->. cbn. rewrite Hc, drop_0. destruct (locate test l) as [[]| | |]; done.
  - specialize (IH k Hk Hc). unfold remove_at in *. cbn [take drop app]. destruct o as [x|]; [|done]. cbn. destruct (test x); [done|].
    destruct (locate test (take k l ++ drop (S k) l)) as [[]| | |], (locate test l) as [[]| | |]; try done; cbn in *; by simplify_eq.
Qed.

Lemma rebuild_props l (i i' : Inst) : rebuild l i = Ok i' -> ci_properties i' = ci_properties i.
Proof.
  unfold rebuild. destruct (any_key _) as [[]| | |]; try done; [|by intros [= <-]]. cbn. unfold _buildKeys.
  destruct (key_props _); try done. by intros [= <-].
Qed.

Lemma removeProperty_other (i i' : Inst) n name : removeProperty i n = Ok i' -> equalsIgnoreCase n name = false ->
  getProperty i' name = getProperty i name.
Proof using nl.
  unfold removeProperty, find_prop. destruct (locate _ _) as [[[k cp]|]| | |] eqn:E; try done; [|by intros [= <-]].
  intros H%rebuild_props Hn. apply locate_some in E as (Hk & Ht & _). unfold getProperty. rewrite H. cbn [ci_properties with_props].
  apply (locate_removed _ _ _ cp); [done|]. rewrite name_sym, <- Hn. by apply name_cong.
Qed.

(** The properties that are not named stay; one that is named gets the value it
   has in the new instance. *)
Lemma take_props_spec (this : Inst) iq c names new i : take_props this iq c names new = Ok i ->
  (forall name, Forall (fun n => equalsIgnoreCase n name = false) names -> getProperty i name = getProperty new name) /\
  (forall name n p, n ∈ names -> equalsIgnoreCase n name = true -> getProperty this name = Ok (Some p) ->
     exists p', getProperty i name = Ok (Some p') /\ p_cimValue p' = p_cimValue p).
Proof using nl.
  revert new. induction names as [|n0 names IH]; intros new H; [injection H as <-; split; [done|set_solver]|].
  cbn in H. destruct (getProperty this n0) as [o| | |] eqn:Eo; try done. cbn in H.
  set (step := match o with Some _ => _ | None => _ end) in H. destruct step as [new1| | |] eqn:E1; try done. cbn in H. subst step.
  destruct (IH new1 H) as [H1 H2].
  assert (forall name, equalsIgnoreCase n0 name = false -> getProperty new1 name = getProperty new name) as Hother.
  { intros name Hn. destruct o as [p|].
    - destruct (if iq then _ else _) as [p1| | |] eqn:Ep in E1; try done. cbn in E1.
      assert (p_name p1 = p_name p) as En. { revert Ep. destruct iq; [by intros [= <-]|]. by destruct (cls_getProperty c n0) as [[]| | |]; try done; intros [= <-]. }
      apply (proj2 (setProperty_get _ _ _ E1)). rewrite En, <- Hn. apply name_cong. by eapply getProperty_name.
    - destruct (cls_getProperty c n0) as [[cp|]| | |] eqn:Ec; try done; cbn in E1.
      + apply (proj2 (setProperty_get _ _ _ E1)). unfold cls_getProperty in Ec.
        destruct (locate _ _) as [[[j q]|]| | |] eqn:El; try done. injection Ec as ->. apply locate_some in El as (_ & Ht & _).
        rewrite <- Hn. by apply name_cong.
      + by eapply removeProperty_other. }
  split.
  - intros name [Hn0 Hns]%Forall_cons. rewrite (H1 name Hns). by apply Hother.
  - intros name n p Hn Hs Hp. destruct (decide (Forall (fun n => equalsIgnoreCase n name = false) names)) as [Hall|Hex].
    + apply elem_of_cons in Hn as [->|Hn]; [|rewrite Forall_forall in Hall; apply Hall in Hn; congruence].
      rewrite (getProperty_cong this n0 name Hs), Hp in Eo. injection Eo as <-.
      destruct (if iq then _ else _) as [p1| | |] eqn:Ep in E1; try done. cbn in E1.
      assert (p_name p1 = p_name p /\ p_cimValue p1 = p_cimValue p) as [En Ev].
      { revert Ep. destruct iq; [by intros [= <-]|]. by destruct (cls_getProperty c n0) as [[]| | |]; try done; intros [= <-]. }
      exists p1. split; [|done]. rewrite (H1 name Hall). apply (proj1 (setProperty_get _ _ _ E1)). rewrite En. by eapply getProperty_name.
    + apply not_Forall_Exists in Hex; [|apply _]. apply Exists_exists in Hex as (n1 & Hn1 & Hs1).
      apply (H2 name n1); [done|by apply not_false_is_true|done].
Qed.

Lemma createModifiedInstance_spec (this prev : Inst) iq names c i : createModifiedInstance this prev iq (Some names) c = Ok i ->
  (forall name, Forall (fun n => equalsIgnoreCase n name = false) names -> getProperty i name = getProperty prev name) /\
  (forall name n p, n ∈ names -> equalsIgnoreCase n name = true -> getProperty this name = Ok (Some p) ->
     exists p', getProperty i name = Ok (Some p') /\ p_cimValue p' = p_cimValue p).
Proof using nl.
  unfold createModifiedInstance. destruct (setProperties _ _) as [new| | |] eqn:E; try done. cbn. intros H.
  destruct (take_props_spec _ _ _ _ _ _ H) as [H1 H2]. split; [|done]. intros name Hn. rewrite (H1 name Hn).
  apply setProperties_keys in E as [_ E]. unfold getProperty. by rewrite E.
Qed.
End Modified.
