(* ===== verification/ClassOps.v ===== *)
(** * Operations on classes

   Qualifiers with their flavors, methods and classes, after
   src/src/cim/OW_CIMQualifier.cpp, OW_CIMMethod.cpp and OW_CIMClass.cpp, and what
   a class takes over from its super class when it is stored ([adjustClass]) and
   when it is read ([_resolveClass]), after
   src/src/repositories/hdb/OW_MetaRepository.cpp. *)

From S2P Require Import Prelude Blocxx CimSerial CimData CimIO CimOps CimSync.
Import CIMDataType.

(** ** Flavors *)

Definition DISABLEOVERRIDE : Z := 2.
Definition RESTRICTED : Z := 3.
Definition LASTVALUE : Z := 6.
Definition validFlavor (f : Z) : bool := (0 <? f) && (f <? LASTVALUE).

Definition CIM_QUAL_ASSOCIATION : bytes := txt "Association".
Definition CIM_QUAL_OVERRIDE : bytes := txt "Override".
Definition CIM_INVALID_PARAMETER : string := "CIMException::INVALID_PARAMETER".

Section Classes.
Context {bx : Blocxx} {sc : StringConv}.
Abbreviation Qual := (QUALData CIMValueImpl).
Abbreviation QualT := (QUALTData CIMValueImpl).
Abbreviation Property := (PROPData CIMValueImpl).
Abbreviation Method := (METHData CIMValueImpl).
Abbreviation Cls := (CLSData CIMValueImpl).

(** ** Qualifiers *)

Definition hasFlavor (q : Qual) (f : Z) : bool := validFlavor f && existsb (Z.eqb f) (cq_flavors q).

Definition qual_flavors (q : Qual) (l : list Z) : Qual :=
  mkQual (cq_name q) (cq_qualifierValue q) (cq_qualifierType q) (cq_propagated q) l (cq_language q).
Definition qual_setPropagated (q : Qual) (b : bool) : Qual :=
  mkQual (cq_name q) (cq_qualifierValue q) (cq_qualifierType q) b (cq_flavors q) (cq_language q).

Definition removeFlavor (q : Qual) (f : Z) : Qual := qual_flavors q (filter (fun x => x <> f) (cq_flavors q)).

(** A flavor takes the place of its opposite. *)
Definition addFlavor (q : Qual) (f : Z) : Qual :=
  if negb (validFlavor f) || existsb (Z.eqb f) (cq_flavors q) then q
  else
    let q :=
      if f =? ENABLEOVERRIDE then removeFlavor q DISABLEOVERRIDE
      else if f =? DISABLEOVERRIDE then removeFlavor q ENABLEOVERRIDE
      else if f =? RESTRICTED then removeFlavor q TOSUBCLASS
      else if f =? TOSUBCLASS then removeFlavor q RESTRICTED
      else q in
    qual_flavors q (cq_flavors q ++ [f]).

(** ** Properties and methods *)

Definition prop_setPropagated (p : Property) (b : bool) : Property :=
  mkProp (p_name p) (p_qualifiers p) (p_propertyDataType p) (p_sizeDataType p) (p_override p) (p_originClass p) (p_cimValue p) b.
Definition prop_setOriginClass (p : Property) (c : bytes) : Property :=
  mkProp (p_name p) (p_qualifiers p) (p_propertyDataType p) (p_sizeDataType p) (p_override p) c (p_cimValue p) (p_propagated p).

Definition meth_quals (m : Method) (l : list (option Qual)) : Method :=
  mkMeth (mt_name m) (mt_returnDatatype m) l (mt_parameters m) (mt_originClass m) (mt_override m) (mt_propagated m).
Definition meth_setPropagated (m : Method) (b : bool) : Method :=
  mkMeth (mt_name m) (mt_returnDatatype m) (mt_qualifiers m) (mt_parameters m) (mt_originClass m) (mt_override m) b.
Definition meth_setOriginClass (m : Method) (c : bytes) : Method :=
  mkMeth (mt_name m) (mt_returnDatatype m) (mt_qualifiers m) (mt_parameters m) c (mt_override m) (mt_propagated m).

Definition meth_getQualifier (m : Method) (name : bytes) : outcome (option Qual) :=
  r ← locate (fun q => equalsIgnoreCase (cq_name q) name) (mt_qualifiers m); Ok (option_map snd r).
(** [CIMMethod::addQualifier] does not look for the name. *)
Definition meth_addQualifier (m : Method) (q : option Qual) : Method := meth_quals m (mt_qualifiers m ++ [q]).

Definition meth_clone (includeQualifiers includeClassOrigin : bool) (m : Method) : Method :=
  mkMeth (mt_name m) (mt_returnDatatype m) (if includeQualifiers then mt_qualifiers m else []) (mt_parameters m)
    (if includeClassOrigin then mt_originClass m else []) (mt_override m) (mt_propagated m).

(** ** Classes *)

Definition cls_quals (c : Cls) (l : list (option Qual)) : Cls :=
  mkCls (cc_name c) (cc_parentClassName c) l (cc_properties c) (cc_methods c) (cc_associationFlag c) (cc_isKeyed c).
Definition cls_props (c : Cls) (l : list (option Property)) : Cls :=
  mkCls (cc_name c) (cc_parentClassName c) (cc_qualifiers c) l (cc_methods c) (cc_associationFlag c) (cc_isKeyed c).
Definition cls_meths (c : Cls) (l : list (option Method)) : Cls :=
  mkCls (cc_name c) (cc_parentClassName c) (cc_qualifiers c) (cc_properties c) l (cc_associationFlag c) (cc_isKeyed c).
Definition setIsAssociation (c : Cls) (b : bool) : Cls :=
  mkCls (cc_name c) (cc_parentClassName c) (cc_qualifiers c) (cc_properties c) (cc_methods c) b (cc_isKeyed c).
Definition setIsKeyed (c : Cls) (b : bool) : Cls :=
  mkCls (cc_name c) (cc_parentClassName c) (cc_qualifiers c) (cc_properties c) (cc_methods c) (cc_associationFlag c) b.

Definition hasQualifier (c : Cls) (q : option Qual) : outcome bool :=
  match q with
  | None => Ok false
  | Some q => r ← locate (fun x => equalsIgnoreCase (cq_name x) (cq_name q)) (cc_qualifiers c); Ok (bool_decide (is_Some r))
  end.

(** [CIMClass::addQualifier]: in the place of an old one, at the end; it says
   whether the class is an association. *)
Definition cls_addQualifier (c : Cls) (q : option Qual) : outcome Cls :=
  match q with
  | None => Ok c
  | Some q =>
      r ← locate (fun x => equalsIgnoreCase (cq_name x) (cq_name q)) (cc_qualifiers c);
      let l := match r with Some (i, _) => remove_at i (cc_qualifiers c) | None => cc_qualifiers c end in
      a ← (if equalsIgnoreCase (cq_name q) CIM_QUAL_ASSOCIATION then
             match cq_qualifierValue q with
             | Some v => if value_type v =? BOOLEAN then get_Bool v else Ok false
             | None => Ok false
             end
           else Ok (cc_associationFlag c));
      Ok (cls_quals (setIsAssociation c a) (l ++ [Some q]))
  end.

Definition cls_setQualifier (c : Cls) (q : option Qual) : outcome Cls :=
  match q with
  | None => Ok c
  | Some q =>
      r ← locate (fun x => equalsIgnoreCase (cq_name x) (cq_name q)) (cc_qualifiers c);
      Ok (cls_quals c match r with Some (i, _) => <[i := Some q]> (cc_qualifiers c) | None => cc_qualifiers c ++ [Some q] end)
  end.

Definition cls_removeQualifier (c : Cls) (name : bytes) : outcome (bool * Cls) :=
  r ← locate (fun x => equalsIgnoreCase (cq_name x) name) (cc_qualifiers c);
  Ok match r with Some (i, _) => (true, cls_quals c (remove_at i (cc_qualifiers c))) | None => (false, c) end.

Definition cls_removeProperty (c : Cls) (name : bytes) : outcome (bool * Cls) :=
  r ← locate (fun x => equalsIgnoreCase (p_name x) name) (cc_properties c);
  Ok match r with Some (i, _) => (true, cls_props c (remove_at i (cc_properties c))) | None => (false, c) end.

Definition addProperty (c : Cls) (p : option Property) : outcome Cls :=
  match p with
  | None => Ok c
  | Some p => k ← isKey p; let c := cls_props c (cc_properties c ++ [Some p]) in Ok (if (k : bool) then setIsKeyed c true else c)
  end.

Definition cls_setProperty (c : Cls) (p : Property) : outcome Cls :=
  r ← locate (fun x => equalsIgnoreCase (p_name p) (p_name x)) (cc_properties c);
  Ok (cls_props c match r with Some (i, _) => <[i := Some p]> (cc_properties c) | None => cc_properties c ++ [Some p] end).

Definition getMethod (c : Cls) (name : bytes) : outcome (option Method) :=
  r ← locate (fun x => equalsIgnoreCase (mt_name x) name) (cc_methods c); Ok (option_map snd r).
Definition addMethod (c : Cls) (m : option Method) : Cls := match m with None => c | Some m => cls_meths c (cc_methods c ++ [Some m]) end.
Definition setMethod (c : Cls) (m : Method) : outcome Cls :=
  r ← locate (fun x => equalsIgnoreCase (mt_name m) (mt_name x)) (cc_methods c);
  Ok (cls_meths c match r with Some (i, _) => <[i := Some m]> (cc_methods c) | None => cc_methods c ++ [Some m] end).

(** The class of the first key. *)
Fixpoint first_key (l : list (option Property)) : outcome (option Property) :=
  match l with
  | [] => Ok None
  | x :: l => p ← present x; k ← isKey p; if (k : bool) then Ok (Some p) else first_key l
  end.
Definition getKeyClass (c : Cls) : outcome bytes :=
  p ← first_key (cc_properties c); Ok (match p with Some p => p_originClass p | None => [] end).

(** ** [clone] *)

Fixpoint local_methods (localOnly includeQualifiers includeClassOrigin : bool) (l : list (option Method)) : outcome (list (option Method)) :=
  match l with
  | [] => Ok []
  | x :: l =>
      r ← local_methods localOnly includeQualifiers includeClassOrigin l;
      if localOnly then m ← present x; Ok (if mt_propagated m then r else Some (meth_clone includeQualifiers includeClassOrigin m) :: r)
      else Ok (option_map (meth_clone includeQualifiers includeClassOrigin) x :: r)
  end.

Definition cls_clone (localOnly includeQualifiers includeClassOrigin : bool) (propertyList : list bytes) (noProps : bool) (c : Cls) : outcome Cls :=
  qs ← (if includeQualifiers then local_quals (fun v => v) localOnly (cc_qualifiers c) else Ok []);
  ps ← (if noProps then Ok []
        else props_clone (fun v => v) (clone_value includeQualifiers includeClassOrigin) includeQualifiers includeClassOrigin localOnly propertyList (cc_properties c));
  ms ← local_methods localOnly includeQualifiers includeClassOrigin (cc_methods c);
  Ok (mkCls (cc_name c) (cc_parentClassName c) qs ps ms (cc_associationFlag c) (cc_isKeyed c)).

Definition cls_filterProperties (propertyList : list bytes) (includeQualifiers includeClassOrigin : bool) (c : Cls) : outcome Cls :=
  cls_clone false includeQualifiers includeClassOrigin propertyList false c.

(** [getProperties] leaves out the properties that override; [getMethods] has the
   methods that override only. *)
Fixpoint cls_getProperties (l : list (option Property)) : outcome (list (option Property)) :=
  match l with
  | [] => Ok []
  | x :: l => p ← present x; o ← hasTrueQualifier p CIM_QUAL_OVERRIDE; r ← cls_getProperties l; Ok (if (o : bool) then r else x :: r)
  end.
Fixpoint cls_getMethods (l : list (option Method)) : outcome (list (option Method)) :=
  match l with
  | [] => Ok []
  | x :: l => m ← present x; o ← meth_getQualifier m CIM_QUAL_OVERRIDE; r ← cls_getMethods l; Ok (match o with Some _ => x :: r | None => r end)
  end.

(** A new instance of the class. *)
Definition newInstance (asserts : bool) (cast : CIMValueImpl -> DTData -> outcome CIMValue) (c : Cls) : outcome (INSTData CIMValueImpl) :=
  i ← syncWithClass asserts cast (mkInst [] [] [] [] [] []) (Some c) true;
  Ok (mkInst (ci_namespace i) (cc_name c) (ci_keys i) (ci_properties i) (ci_qualifiers i) (ci_language i)).

(** [getCloneProps]: the names that a copy with the flags would have. *)
Fixpoint clone_names (localOnly : bool) (propertyList : option (list bytes)) (l : list (option Property)) : outcome (list bytes) :=
  match l with
  | [] => Ok []
  | x :: l =>
      p ← present x;
      r ← clone_names localOnly propertyList l;
      Ok (if localOnly && p_propagated p then r
          else match propertyList with
               | Some names => if existsb (equalsIgnoreCase (p_name p)) names then p_name p :: r else r
               | None => p_name p :: r
               end)
  end.
Definition getCloneProps (localOnly : bool) (propertyList : option (list bytes)) (c : Cls) : outcome (list bytes) :=
  match propertyList with Some [] => Ok [] | _ => clone_names localOnly propertyList (cc_properties c) end.

(** With the class that is asked for, the names that pass are put behind all. *)
Definition getCloneProps_for (localOnly deep : bool) (propertyList : option (list bytes)) (requestedClass c : Cls) : outcome (list bytes) :=
  match propertyList with
  | Some [] => Ok []
  | _ =>
      rv ← getCloneProps false propertyList c;
      if negb deep || localOnly then
        ps ← passing localOnly deep requestedClass (cc_properties c);
        Ok (rv ++ omap (option_map p_name) ps)
      else Ok rv
  end.

(** ** What a class takes over when it is read *)

(** [_resolveClass] up to the super class. *)
Definition mark_keyed (child : Cls) : outcome Cls :=
  p ← first_key (cc_properties child); Ok (match p with Some _ => setIsKeyed child true | None => child end).

Fixpoint inherit_quals (quals : list (option Qual)) (child : Cls) : outcome Cls :=
  match quals with
  | [] => Ok child
  | x :: quals =>
      q ← present x;
      child ← (if hasFlavor q RESTRICTED then Ok child
               else has ← hasQualifier child (Some q);
                    if (has : bool) then Ok child else cls_addQualifier child (Some (qual_setPropagated q true)));
      inherit_quals quals child
  end.

Fixpoint inherit_prop_quals (quals : list (option Qual)) (p : Property) : outcome Property :=
  match quals with
  | [] => Ok p
  | x :: quals =>
      q ← present x;
      own ← getQualifier p (cq_name q);
      p ← match own with Some _ => Ok p | None => addQualifier p (qual_setPropagated q true) end;
      inherit_prop_quals quals p
  end.

Fixpoint inherit_props (props : list (option Property)) (child : Cls) : outcome Cls :=
  match props with
  | [] => Ok child
  | x :: props =>
      parentProp ← present x;
      childProp ← cls_getProperty child (p_name parentProp);
      child ← match childProp with
        | None => addProperty child (Some (prop_setPropagated parentProp true))
        | Some cp =>
            o ← getQualifier cp CIM_QUAL_OVERRIDE;
            match o with
            | Some _ => Ok child
            | None => cp ← inherit_prop_quals (p_qualifiers parentProp) cp; cls_setProperty child cp
            end
        end;
      inherit_props props child
  end.

Fixpoint inherit_meth_quals (quals : list (option Qual)) (m : Method) : outcome Method :=
  match quals with
  | [] => Ok m
  | x :: quals =>
      q ← present x;
      own ← meth_getQualifier m (cq_name q);
      inherit_meth_quals quals (match own with Some _ => m | None => meth_addQualifier m (Some (qual_setPropagated q true)) end)
  end.

Fixpoint inherit_meths (meths : list (option Method)) (child : Cls) : outcome Cls :=
  match meths with
  | [] => Ok child
  | x :: meths =>
      cm ← present x;
      childMethod ← getMethod child (mt_name cm);
      child ← match childMethod with
        | None => Ok (addMethod child (Some (meth_setPropagated cm true)))
        | Some m =>
            o ← meth_getQualifier m CIM_QUAL_OVERRIDE;
            match o with
            | Some _ => Ok child
            | None => m ← inherit_meth_quals (mt_qualifiers cm) m; setMethod child m
            end
        end;
      inherit_meths meths child
  end.

(** The rest of [_resolveClass], with the resolved super class. *)
Definition propagate (parentClass child : Cls) : outcome Cls :=
  let child := if cc_isKeyed parentClass then setIsKeyed child true else child in
  child ← inherit_quals (cc_qualifiers parentClass) child;
  child ← inherit_props (cc_properties parentClass) child;
  inherit_meths (cc_methods parentClass) child.

(** ** What a class takes over when it is stored *)

(** [CIMValueImpl::equal] *)
Context (equal : CIMValueImpl -> CIMValueImpl -> outcome bool).

Definition value_equal (x y : CIMValue) : outcome bool :=
  match x, y with
  | None, None => Ok true
  | Some x, Some y => equal x y
  | _, _ => Ok false
  end.

(** A base class.  The loop over the qualifiers changes copies of them. *)
Fixpoint base_quals (l : list (option Qual)) : outcome () :=
  match l with [] => Ok () | x :: l => _ ← present x; base_quals l end.
Fixpoint base_props (childName : bytes) (l : list (option Property)) : outcome (list (option Property)) :=
  match l with
  | [] => Ok []
  | x :: l => p ← present x; r ← base_props childName l; Ok (Some (prop_setOriginClass (prop_setPropagated p false) childName) :: r)
  end.
Fixpoint base_meths (childName : bytes) (l : list (option Method)) : outcome (list (option Method)) :=
  match l with
  | [] => Ok []
  | x :: l => m ← present x; r ← base_meths childName l; Ok (Some (meth_setOriginClass (meth_setPropagated m false) childName) :: r)
  end.
Definition adjust_base (childClass : Cls) : outcome Cls :=
  base_quals (cc_qualifiers childClass) ;;
  ps ← base_props (cc_name childClass) (cc_properties childClass);
  ms ← base_meths (cc_name childClass) (cc_methods childClass);
  Ok (cls_meths (cls_props childClass ps) ms).

(** Qualifiers that the super class has with the same value are left out, unless
   they are restricted to it. *)
Fixpoint adjust_quals (parentClass : Cls) (l : list (option Qual)) : outcome (list (option Qual)) :=
  match l with
  | [] => Ok []
  | x :: l =>
      qual ← present x;
      pq ← cls_getQualifier parentClass (cq_name qual);
      keep ← match pq with
        | None => Ok true
        | Some pqual =>
            b ← value_equal (cq_qualifierValue pqual) (cq_qualifierValue qual);
            if (b : bool) then Ok (hasFlavor pqual RESTRICTED)
            else if hasFlavor pqual DISABLEOVERRIDE then Throw CIM_INVALID_PARAMETER else Ok true
        end;
      r ← adjust_quals parentClass l;
      Ok (if (keep : bool) then x :: r else r)
  end.

(** The qualifiers of the property that is overridden. *)
Fixpoint override_quals (parentQuals : list (option Qual)) (p : Property) : outcome Property :=
  match parentQuals with
  | [] => Ok p
  | x :: parentQuals =>
      qual ← present x;
      own ← getQualifier p (cq_name qual);
      p ← (if hasFlavor qual DISABLEOVERRIDE then
             match own with None => addQualifier p qual | Some _ => setQualifier p (Some qual) end
           else if negb (hasFlavor qual RESTRICTED) then
             match own with None => addQualifier p qual | Some _ => Ok p end
           else Ok p);
      override_quals parentQuals p
  end.

Definition adjust_prop (childName : bytes) (parentClass : Cls) (p : Property) : outcome Property :=
  parentProp ← cls_getProperty parentClass (p_name p);
  match parentProp with
  | Some parentProp =>
      o ← getQualifier p CIM_QUAL_OVERRIDE;
      match o with
      | Some _ =>
          let p := if bool_decide (p_originClass p = []) then prop_setPropagated (prop_setOriginClass p childName) false
                   else prop_setPropagated p true in
          override_quals (p_qualifiers parentProp) p
      | None => Ok (prop_setPropagated (prop_setOriginClass p (p_originClass parentProp)) true)
      end
  | None =>
      k ← isKey p;
      if (k : bool) && cc_isKeyed parentClass then Throw CIM_INVALID_PARAMETER
      else Ok (prop_setPropagated (prop_setOriginClass p childName) false)
  end.

Fixpoint adjust_props (childName : bytes) (parentClass : Cls) (l : list (option Property)) : outcome (list (option Property)) :=
  match l with
  | [] => Ok []
  | x :: l => p ← present x; p ← adjust_prop childName parentClass p; r ← adjust_props childName parentClass l; Ok (Some p :: r)
  end.

Fixpoint adjust_meths (childName parentName : bytes) (parentClass : Cls) (l : list (option Method)) : outcome (list (option Method)) :=
  match l with
  | [] => Ok []
  | x :: l =>
      m ← present x;
      pm ← getMethod parentClass (mt_name m);
      inherited ← match pm with
        | None => Ok false
        | Some _ => o ← meth_getQualifier m CIM_QUAL_OVERRIDE; Ok (negb (bool_decide (is_Some o)))
        end;
      r ← adjust_meths childName parentName parentClass l;
      Ok (Some (meth_setPropagated (meth_setOriginClass m (if (inherited : bool) then parentName else childName)) inherited) :: r)
  end.

(** [adjustClass] with the super class. *)
Definition adjust_child (parentClass childClass : Cls) : outcome Cls :=
  let childName := cc_name childClass in
  qs ← adjust_quals parentClass (cc_qualifiers childClass);
  ps ← adjust_props childName parentClass (cc_properties childClass);
  ms ← adjust_meths childName (cc_parentClassName childClass) parentClass (cc_methods childClass);
  let c := cls_meths (cls_props (cls_quals childClass qs) ps) ms in
  let c := if cc_isKeyed parentClass then setIsKeyed c true else c in
  if cc_associationFlag c && negb (cc_associationFlag parentClass) then Throw CIM_INVALID_PARAMETER else Ok c.

(** [_resolveQualifiers], with the flavors of the qualifier type. *)
Definition add_flavors (q : Qual) (qt : QualT) : Qual := foldl addFlavor q (cqt_flavor qt).
End Classes.

(** * Inheritance

   What a class has under a name once it is completed: what it has itself, with
   further qualifiers, and otherwise what the super class has. *)

Section Named.
Context {sc : StringConv} {nl : NameLaws} {A : Type} (nm : A -> bytes).

(** The first with the name. *)
Definition named (l : list (option A)) (n : bytes) : outcome (option A) :=
  r ← locate (fun x => equalsIgnoreCase (nm x) n) l; Ok (option_map snd r).

Lemma named_cons x l n : named (Some x :: l) n = if equalsIgnoreCase (nm x) n then Ok (Some x) else named l n.
Proof using. unfold named. cbn. destruct (equalsIgnoreCase (nm x) n); [done|]. by destruct (locate _ l) as [[[]|]| | |]. Qed.

Lemma named_cong l a b : equalsIgnoreCase a b = true -> named l a = named l b.
Proof using nl.
  intros H. induction l as [|[x|] l IH]; [done| |done]. rewrite !named_cons.
  rewrite (name_sym (nm x) a), (name_sym (nm x) b), (name_cong a b _ H). by rewrite IH.
Qed.

Lemma named_append l x n r : named l n = Ok r ->
  named (l ++ [Some x]) n = Ok (match r with Some y => Some y | None => if equalsIgnoreCase (nm x) n then Some x else None end).
Proof using.
  revert r. induction l as [|[y|] l IH]; intros r; [intros [= <-]; cbn [app]; rewrite named_cons; by destruct (equalsIgnoreCase (nm x) n)| |done].
  cbn [app]. rewrite !named_cons. destruct (equalsIgnoreCase (nm y) n); [by intros [= <-]|apply IH].
Qed.

(** The one with the name of [x] is replaced by [x]. *)
Lemma named_replace l x i y n r :
  locate (fun z => equalsIgnoreCase (nm x) (nm z)) l = Ok (Some (i, y)) -> named l n = Ok r ->
  named (<[i := Some x]> l) n = Ok (if equalsIgnoreCase (nm x) n then Some x else r).
Proof using nl.
  revert i r. induction l as [|[z|] l IH]; intros i r; [done| |done]. cbn [locate present mbind outcome_bind].
  destruct (equalsIgnoreCase (nm x) (nm z)) eqn:E.
  - intros [= <- <-]. change (<[0%nat := Some x]> (Some z :: l)) with (Some x :: l). rewrite !named_cons, (name_cong _ _ _ E). destruct (equalsIgnoreCase (nm z) n); [done|by intros ->].
  - destruct (locate _ l) as [[[j w]|]| | |]; try done. intros [= <- <-]. cbn [fst]. change (<[S j := Some x]> (Some z :: l)) with (Some z :: <[j := Some x]> l).
    rewrite !named_cons. destruct (equalsIgnoreCase (nm z) n) eqn:E2; [|by apply IH].
    intros [= <-]. rewrite name_sym in E2. rewrite (name_sym (nm x) n), (name_cong _ _ _ E2), (name_sym (nm z)), E. done.
Qed.

Lemma named_test l x i y : locate (fun z => equalsIgnoreCase (nm x) (nm z)) l = Ok (Some (i, y)) -> named l (nm x) = Ok (Some y).
Proof using nl.
  intros H. unfold named. assert (locate (fun z => equalsIgnoreCase (nm z) (nm x)) l = Ok (Some (i, y))) as ->; [|done].
  revert i H. induction l as [|[z|] l IH]; intros i; [done| |done]. cbn. rewrite (name_sym (nm z)). destruct (equalsIgnoreCase (nm x) (nm z)); [done|].
  destruct (locate _ l) as [[[j w]|]| | |]; try done. intros [= <- <-]. by rewrite (IH j eq_refl).
Qed.

Lemma named_untested l x : locate (fun z => equalsIgnoreCase (nm x) (nm z)) l = Ok None -> named l (nm x) = Ok None.
Proof using nl.
  induction l as [|[z|] l IH]; [done| |done]. rewrite named_cons. cbn. rewrite (name_sym (nm z)). destruct (equalsIgnoreCase (nm x) (nm z)); [done|].
  by destruct (locate _ l) as [[[j w]|]| | |].
Qed.

Lemma named_present l n r : named l n = Ok r -> match r with Some x => Some x ∈ l /\ equalsIgnoreCase (nm x) n = true | None => True end.
Proof using.
  induction l as [|[x|] l IH]; [by intros [= <-]| |done]. rewrite named_cons. destruct (equalsIgnoreCase (nm x) n) eqn:E.
  - intros [= <-]. split; [left|done].
  - intros H%IH. destruct r; [|done]. destruct H. split; [by right|done].
Qed.
End Named.

Section Inherit.
Context {bx : Blocxx} {sc : StringConv} {nl : NameLaws}.
Abbreviation Qual := (QUALData CIMValueImpl).
Abbreviation Property := (PROPData CIMValueImpl).
Abbreviation Method := (METHData CIMValueImpl).
Abbreviation Cls := (CLSData CIMValueImpl).

(** Inherited qualifiers are marked. *)
Definition inherited (o : option Qual) : Prop := exists q, o = Some (qual_setPropagated q true).

Definition more_prop (p p' : Property) : Prop := exists qs, p' = with_quals p (p_qualifiers p ++ qs) /\ Forall inherited qs.
Definition more_meth (m m' : Method) : Prop := exists qs, m' = meth_quals m (mt_qualifiers m ++ qs) /\ Forall inherited qs.

Lemma more_prop_refl p : more_prop p p.
Proof using. exists []. rewrite app_nil_r. split; [by destruct p|constructor]. Qed.
Lemma more_prop_trans p1 p2 p3 : more_prop p1 p2 -> more_prop p2 p3 -> more_prop p1 p3.
Proof using. intros (q1 & -> & H1) (q2 & -> & H2). exists (q1 ++ q2). cbn. rewrite app_assoc. split; [done|]. by apply Forall_app. Qed.
Lemma more_meth_refl m : more_meth m m.
Proof using. exists []. rewrite app_nil_r. split; [by destruct m|constructor]. Qed.
Lemma more_meth_trans m1 m2 m3 : more_meth m1 m2 -> more_meth m2 m3 -> more_meth m1 m3.
Proof using. intros (q1 & -> & H1) (q2 & -> & H2). exists (q1 ++ q2). cbn. rewrite app_assoc. split; [done|]. by apply Forall_app. Qed.

Lemma inherit_prop_quals_more qs p p' : inherit_prop_quals qs p = Ok p' -> more_prop p p'.
Proof using.
  revert p. induction qs as [|x qs IH]; intros p; cbn [inherit_prop_quals]; [intros [= <-]; apply more_prop_refl|].
  intros (q & _ & (own & _ & (p1 & E & H)%outcome_bind_ok)%outcome_bind_ok)%outcome_bind_ok. eapply more_prop_trans; [|by apply IH].
  destruct own; [injection E as <-; apply more_prop_refl|]. apply outcome_bind_ok in E as (r & _ & E). destruct r; [done|]. injection E as <-.
  eexists. split; [done|]. apply Forall_singleton. by eexists.
Qed.

Lemma inherit_meth_quals_more qs m m' : inherit_meth_quals qs m = Ok m' -> more_meth m m'.
Proof using.
  revert m. induction qs as [|x qs IH]; intros m; cbn [inherit_meth_quals]; [intros [= <-]; apply more_meth_refl|].
  intros (q & _ & (own & _ & H)%outcome_bind_ok)%outcome_bind_ok. eapply more_meth_trans; [|by apply IH].
  destruct own; [apply more_meth_refl|]. eexists. split; [done|]. apply Forall_singleton. by eexists.
Qed.

(** *** The loops over the members *)

(** What [l'] has under a name when [l] and the members [ps] of the super class
   are given: [take] marks a member that is taken over. *)
Definition inherits {A} (nm : A -> bytes) (take : A -> A) (more : A -> A -> Prop) (ps l l' : list (option A)) : Prop :=
  forall n r, named nm l n = Ok r -> exists r' rp, named nm l' n = Ok r' /\ named nm ps n = Ok rp /\
    match r, rp with
    | Some x, _ => exists x', r' = Some x' /\ more x x'
    | None, Some y => exists x', r' = Some x' /\ more (take y) x'
    | None, None => r' = None
    end.

(** A step that keeps what there is, and finds or adds a member named like [x]. *)
Definition steps {A} (nm : A -> bytes) (take : A -> A) (more : A -> A -> Prop) (x : A) (l l1 : list (option A)) : Prop :=
  forall n r, named nm l n = Ok r -> exists r1, named nm l1 n = Ok r1 /\
    match r with
    | Some y => exists y', r1 = Some y' /\ more y y'
    | None => r1 = if equalsIgnoreCase (nm x) n then Some (take x) else None
    end.

Section Steps.
Context {A : Type} (nm : A -> bytes) (take : A -> A) (more : A -> A -> Prop).
Context (Hnm : forall x, nm (take x) = nm x) (Hrefl : forall x, more x x) (Htrans : forall x y z, more x y -> more y z -> more x z).

Lemma inherits_nil l : inherits nm take more [] l l.
Proof using Hrefl. intros n r Hr. exists r, None. split_and!; [done..|]. destruct r; eauto. Qed.

Lemma inherits_cons x ps l l1 l' : steps nm take more x l l1 -> inherits nm take more ps l1 l' -> inherits nm take more (Some x :: ps) l l'.
Proof using Htrans.
  intros Hstep IH n r Hr. destruct (Hstep n r Hr) as (r1 & H1 & Hm). destruct (IH n r1 H1) as (r' & rp & H' & Hp & Hm').
  exists r'. rewrite named_cons. destruct r as [y|].
  - destruct Hm as (y' & -> & Hy). destruct Hm' as (x' & -> & Hx'). destruct (equalsIgnoreCase (nm x) n); eexists; (split_and!; [done..|]); eauto.
  - subst r1. destruct (equalsIgnoreCase (nm x) n); eexists; split_and!; done.
Qed.

Lemma step_append x l : steps nm take more x l (l ++ [Some (take x)]).
Proof using Hnm Hrefl. intros n r Hr. rewrite (named_append _ _ _ _ _ Hr), Hnm. destruct r; eauto. Qed.

Lemma step_keep x y l : named nm l (nm x) = Ok (Some y) -> steps nm take more x l l.
Proof using nl Hrefl.
  intros Hy n r Hr. exists r. split; [done|]. destruct r; [eauto|]. destruct (equalsIgnoreCase (nm x) n) eqn:E; [|done].
  rewrite (named_cong nm l _ _ E) in Hy. congruence.
Qed.

Lemma step_set x y y' l r2 : named nm l (nm x) = Ok (Some y) -> more y y' -> nm y' = nm y ->
  locate (fun z => equalsIgnoreCase (nm y') (nm z)) l = Ok r2 ->
  steps nm take more x l (match r2 with Some (i, _) => <[i := Some y']> l | None => l ++ [Some y'] end).
Proof using nl Hrefl.
  intros Hy Hm En Hloc. destruct (named_present nm l _ _ Hy) as [_ Exy]. cbn in Exy. rewrite <- En in Exy.
  destruct r2 as [[i z]|].
  - intros n r Hr. rewrite (named_replace nm l y' i z n r Hloc Hr). eexists. split; [done|].
    rewrite (name_cong _ _ _ Exy). destruct (equalsIgnoreCase (nm x) n) eqn:E.
    + rewrite (named_cong nm l _ _ E) in Hy. rewrite Hy in Hr. injection Hr as <-. eauto.
    + destruct r; eauto.
  - apply named_untested in Hloc. rewrite (named_cong nm l _ _ Exy) in Hloc. congruence.
Qed.
End Steps.

Lemma inherit_props_spec ps c c' : inherit_props ps c = Ok c' ->
  inherits p_name (fun p => prop_setPropagated p true) more_prop ps (cc_properties c) (cc_properties c') /\
  cc_methods c' = cc_methods c /\ cc_qualifiers c' = cc_qualifiers c /\ cc_name c' = cc_name c /\ cc_associationFlag c' = cc_associationFlag c /\
  (cc_isKeyed c = true -> cc_isKeyed c' = true).
Proof using nl.
  revert c. induction ps as [|x ps IH]; intros c; cbn [inherit_props].
  { intros [= <-]. split_and!; try done. apply inherits_nil, more_prop_refl. }
  intros (pp & Ex & (cp & Ecp & (c1 & E1 & H)%outcome_bind_ok)%outcome_bind_ok)%outcome_bind_ok. destruct x as [x|]; [|done]. injection Ex as ->.
  destruct (IH c1 H) as (Hi & Hm & Hq & Hn & Ha & Hk). enough (steps p_name (fun p => prop_setPropagated p true) more_prop pp (cc_properties c) (cc_properties c1) /\
    cc_methods c1 = cc_methods c /\ cc_qualifiers c1 = cc_qualifiers c /\ cc_name c1 = cc_name c /\ cc_associationFlag c1 = cc_associationFlag c /\ (cc_isKeyed c = true -> cc_isKeyed c1 = true))
    as (Hs & ? & ? & ? & ? & ?).
  { split; [by eapply inherits_cons; [apply more_prop_trans|..]|]. split_and!; try congruence. auto. }
  destruct cp as [cp|].
  - apply outcome_bind_ok in E1 as ([o|] & _ & E1).
    + injection E1 as <-. split_and!; try done. eapply step_keep; [apply more_prop_refl|exact Ecp].
    + apply outcome_bind_ok in E1 as (cp' & Em%inherit_prop_quals_more & (r2 & Hloc & [= <-])%outcome_bind_ok).
      split_and!; try done. eapply step_set; [apply more_prop_refl|exact Ecp|exact Em| |exact Hloc]. by destruct Em as (qs & -> & _).
  - apply outcome_bind_ok in E1 as (k & _ & [= <-]). split; [|by destruct k; split_and!].
    destruct k; cbn; (apply (step_append p_name (fun p => prop_setPropagated p true)); [done|apply more_prop_refl]).
Qed.

Lemma inherit_meths_spec ms c c' : inherit_meths ms c = Ok c' ->
  inherits mt_name (fun m => meth_setPropagated m true) more_meth ms (cc_methods c) (cc_methods c') /\ c' = cls_meths c (cc_methods c').
Proof using nl.
  revert c. induction ms as [|x ms IH]; intros c; cbn [inherit_meths].
  { intros [= <-]. split; [apply inherits_nil, more_meth_refl|by destruct c]. }
  intros (pm & Ex & (cm & Ecm & (c1 & E1 & H)%outcome_bind_ok)%outcome_bind_ok)%outcome_bind_ok. destruct x as [x|]; [|done]. injection Ex as ->.
  destruct (IH c1 H) as (Hi & ->). enough (steps mt_name (fun m => meth_setPropagated m true) more_meth pm (cc_methods c) (cc_methods c1) /\ c1 = cls_meths c (cc_methods c1)) as [Hs ->].
  { split; [by eapply inherits_cons; [apply more_meth_trans|..]|done]. }
  destruct cm as [cm|].
  - apply outcome_bind_ok in E1 as ([o|] & _ & E1).
    + injection E1 as <-. split; [|by destruct c]. eapply step_keep; [apply more_meth_refl|exact Ecm].
    + apply outcome_bind_ok in E1 as (cm' & Em%inherit_meth_quals_more & (r2 & Hloc & [= <-])%outcome_bind_ok).
      split; [|done]. eapply step_set; [apply more_meth_refl|exact Ecm|exact Em| |exact Hloc]. by destruct Em as (qs & -> & _).
  - injection E1 as <-. split; [|done]. apply (step_append mt_name (fun m => meth_setPropagated m true)); [done|apply more_meth_refl].
Qed.

(** Qualifiers that are restricted to the super class are not taken over. *)
Definition unrestricted (o : option Qual) : bool := match o with Some q => negb (hasFlavor q RESTRICTED) | None => false end.

Lemma inherit_quals_spec qs c c' : inherit_quals qs c = Ok c' ->
  inherits cq_name (fun q => qual_setPropagated q true) eq (List.filter unrestricted qs) (cc_qualifiers c) (cc_qualifiers c') /\
  cc_properties c' = cc_properties c /\ cc_methods c' = cc_methods c /\ cc_name c' = cc_name c /\ cc_isKeyed c' = cc_isKeyed c.
Proof using nl.
  revert c. induction qs as [|x qs IH]; intros c; cbn [inherit_quals].
  { intros [= <-]. split_and!; try done. by apply inherits_nil. }
  intros (q & Ex & (c1 & E1 & H)%outcome_bind_ok)%outcome_bind_ok. destruct x as [x|]; [|done]. injection Ex as ->.
  destruct (IH c1 H) as (Hi & Hp & Hm & Hn & Hk). cbn [List.filter unrestricted]. destruct (hasFlavor q RESTRICTED); cbn [negb].
  { injection E1 as <-. split_and!; [done|congruence..]. }
  enough (steps cq_name (fun q => qual_setPropagated q true) eq q (cc_qualifiers c) (cc_qualifiers c1) /\
    cc_properties c1 = cc_properties c /\ cc_methods c1 = cc_methods c /\ cc_name c1 = cc_name c /\ cc_isKeyed c1 = cc_isKeyed c) as (Hs & ? & ? & ? & ?).
  { split; [by eapply inherits_cons; [congruence|..]|]. split_and!; congruence. }
  apply outcome_bind_ok in E1 as (has & Eh & E1). cbn [hasQualifier] in Eh. apply outcome_bind_ok in Eh as (r & Eloc & [= <-]). destruct r as [[i y]|]; cbn in E1.
  - injection E1 as <-. split_and!; try done. apply (step_keep cq_name _ eq (fun q => eq_refl) q y). unfold named. by rewrite Eloc.
  - rewrite Eloc in E1. cbn [mbind outcome_bind] in E1. apply outcome_bind_ok in E1 as (a & _ & [= <-]). split_and!; try done.
    by apply (step_append cq_name (fun q => qual_setPropagated q true)).
Qed.

(** A completed class. *)
Lemma propagate_spec p c full : propagate p c = Ok full ->
  inherits cq_name (fun q => qual_setPropagated q true) eq (List.filter unrestricted (cc_qualifiers p)) (cc_qualifiers c) (cc_qualifiers full) /\
  inherits p_name (fun x => prop_setPropagated x true) more_prop (cc_properties p) (cc_properties c) (cc_properties full) /\
  inherits mt_name (fun m => meth_setPropagated m true) more_meth (cc_methods p) (cc_methods c) (cc_methods full) /\
  cc_name full = cc_name c /\ (cc_isKeyed p || cc_isKeyed c = true -> cc_isKeyed full = true).
Proof using nl.
  unfold propagate. intros (c1 & (Hq & Ep1 & Em1 & En1 & Ek1)%inherit_quals_spec & (c2 & (Hp & Em2 & Eq2 & En2 & _ & Ek2)%inherit_props_spec &
    (Hm & ->)%inherit_meths_spec)%outcome_bind_ok)%outcome_bind_ok.
  destruct (cc_isKeyed p); cbn in *; rewrite ?Ep1, ?Em1, ?En1, ?Ek1, ?Em2, ?Eq2, ?En2 in *; split_and!; auto.
Qed.

(** *** What is stored *)

Context (equal : CIMValueImpl -> CIMValueImpl -> outcome bool).

(** What the client declares of a property stays. *)
Definition declared (p : Property) := (p_name p, p_propertyDataType p, p_sizeDataType p, p_override p, p_cimValue p).

(** The class that a property of a sub-class comes from. *)
Definition origin_of (childName : bytes) (pp : option Property) (p p' : Property) : Prop :=
  match pp with
  | None => p_originClass p' = childName /\ p_propagated p' = false
  | Some pp => getQualifier p CIM_QUAL_OVERRIDE = Ok None -> p_originClass p' = p_originClass pp /\ p_propagated p' = true
  end.

Lemma override_quals_shape qs p p' : override_quals qs p = Ok p' -> p' = with_quals p (p_qualifiers p').
Proof using.
  revert p. induction qs as [|x qs IH]; intros p; cbn [override_quals]; [intros [= <-]; by destruct p|].
  intros (q & _ & (own & _ & (p1 & E & H)%outcome_bind_ok)%outcome_bind_ok)%outcome_bind_ok. enough (p1 = with_quals p (p_qualifiers p1)) as Hp1.
  { apply IH in H. rewrite H at 1. by rewrite Hp1. }
  assert (forall p' q', addQualifier p q' = Ok p' -> p' = with_quals p (p_qualifiers p')) as Hadd.
  { intros p2 q' ([|] & _ & E2)%outcome_bind_ok; [done|]. by injection E2 as <-. }
  assert (Ok p = Ok p1 -> p1 = with_quals p (p_qualifiers p1)) as Hid by (intros [= <-]; by destruct p).
  destruct (hasFlavor q DISABLEOVERRIDE); [|destruct (negb _); [|auto]]; destruct own; eauto.
  apply outcome_bind_ok in E as (r & _ & [= <-]). done.
Qed.

Lemma adjust_prop_spec childName p x x' : adjust_prop childName p x = Ok x' -> exists pp, cls_getProperty p (p_name x) = Ok pp /\
  declared x' = declared x /\ origin_of childName pp x x' /\ (pp = None -> cc_isKeyed p = true -> isKey x = Ok false).
Proof using.
  intros (pp & E & H)%outcome_bind_ok. exists pp. split; [done|]. destruct pp as [pp|].
  - apply outcome_bind_ok in H as ([o|] & Eo & H).
    + apply override_quals_shape in H. rewrite H. split_and!; [by case_bool_decide| |done]. unfold origin_of. congruence.
    + injection H as <-. done.
  - apply outcome_bind_ok in H as (k & Ek & H). destruct (k && cc_isKeyed p) eqn:E2; [done|]. injection H as <-. split_and!; try done.
    intros _ Hk. rewrite Hk in E2. by destruct k.
Qed.

Lemma adjust_prop_name childName p x x' : adjust_prop childName p x = Ok x' -> p_name x' = p_name x.
Proof using. intros (pp & _ & [= ->] & _)%adjust_prop_spec. done. Qed.

(** Lists changed member by member. *)
Definition each {A} (R : A -> A -> Prop) : list (option A) -> list (option A) -> Prop :=
  Forall2 (fun x y => exists a b, x = Some a /\ y = Some b /\ R a b).

Lemma each_named {A} (nm : A -> bytes) (R : A -> A -> Prop) l l' n r :
  (forall x y, R x y -> nm y = nm x) -> each R l l' -> named nm l n = Ok r ->
  exists r', named nm l' n = Ok r' /\ match r with Some x => exists x', r' = Some x' /\ R x x' | None => r' = None end.
Proof using.
  intros Hnm H. revert r. induction H as [|x y l l' (a & b & -> & -> & Hab) _ IH]; intros r; [intros [= <-]; by exists None|].
  rewrite !named_cons, (Hnm _ _ Hab). destruct (equalsIgnoreCase (nm a) n); [|apply IH]. intros [= <-]. eauto.
Qed.

Lemma each_member {A} (R : A -> A -> Prop) l l' x : each R l l' -> Some x ∈ l -> exists y, R x y.
Proof using. intros H Hx. induction H as [|? ? l l' (a & b & -> & -> & Hab) _ IH]; [by apply not_elem_of_nil in Hx|]. apply elem_of_cons in Hx as [[= ->]|Hx]; eauto. Qed.

Lemma adjust_props_each childName p l l' : adjust_props childName p l = Ok l' -> each (fun x x' => adjust_prop childName p x = Ok x') l l'.
Proof using.
  revert l'. induction l as [|x l IH]; intros l'; cbn [adjust_props]; [intros [= <-]; constructor|].
  intros (q & Ex & (q' & E & (r & Er & [= <-])%outcome_bind_ok)%outcome_bind_ok)%outcome_bind_ok. destruct x; [|done]. injection Ex as ->.
  constructor; [eauto|by apply IH].
Qed.

(** A method keeps what it is called with and what it returns. *)
Definition signature (m : Method) := (mt_name m, mt_returnDatatype m, mt_qualifiers m, mt_parameters m, mt_override m).

Lemma signature_name m m' : signature m' = signature m -> mt_name m' = mt_name m.
Proof using. by intros [= ->]. Qed.

Lemma adjust_meths_each childName parentName p l l' : adjust_meths childName parentName p l = Ok l' -> each (fun m m' => signature m' = signature m) l l'.
Proof using.
  revert l'. induction l as [|x l IH]; intros l'; cbn [adjust_meths]; [intros [= <-]; constructor|].
  intros (m & Ex & (pm & _ & (inh & _ & (r & Er & [= <-])%outcome_bind_ok)%outcome_bind_ok)%outcome_bind_ok)%outcome_bind_ok. destruct x; [|done]. injection Ex as ->.
  constructor; [eauto|by apply IH].
Qed.

(** A qualifier that must not be overridden has its value. *)
Lemma adjust_quals_fixed p l l' q pq : adjust_quals equal p l = Ok l' -> Some q ∈ l -> cls_getQualifier p (cq_name q) = Ok (Some pq) ->
  hasFlavor pq DISABLEOVERRIDE = true -> value_equal equal (cq_qualifierValue pq) (cq_qualifierValue q) = Ok true.
Proof using.
  intros H Hin Hp Hd. revert l' H. induction l as [|x l IH]; intros l'; [by apply not_elem_of_nil in Hin|]. cbn [adjust_quals].
  intros (q0 & Ex & (pq0 & Epq & (keep & Ek & (r & Er & _)%outcome_bind_ok)%outcome_bind_ok)%outcome_bind_ok)%outcome_bind_ok.
  apply elem_of_cons in Hin as [<-|Hin]; [|by eapply IH]. injection Ex as <-. rewrite Hp in Epq. injection Epq as <-.
  apply outcome_bind_ok in Ek as (b & Eb & Ek). destruct b; [done|]. by rewrite Hd in Ek.
Qed.

Lemma adjust_child_spec p c c' : adjust_child equal p c = Ok c' ->
  each (fun x x' => adjust_prop (cc_name c) p x = Ok x') (cc_properties c) (cc_properties c') /\
  each (fun m m' => signature m' = signature m) (cc_methods c) (cc_methods c') /\
  adjust_quals equal p (cc_qualifiers c) = Ok (cc_qualifiers c') /\
  cc_name c' = cc_name c /\ cc_parentClassName c' = cc_parentClassName c /\ cc_associationFlag c' = cc_associationFlag c /\
  (cc_associationFlag c = true -> cc_associationFlag p = true).
Proof using.
  unfold adjust_child. intros (qs & Hq & (ps & Hp%adjust_props_each & (ms & Hm%adjust_meths_each & E)%outcome_bind_ok)%outcome_bind_ok)%outcome_bind_ok. cbv zeta in E.
  assert (cc_associationFlag c = true -> cc_associationFlag p = true) as Ha.
  { intros Hc. destruct (cc_isKeyed p); cbn in E; rewrite Hc in E; by destruct (cc_associationFlag p). }
  destruct (cc_isKeyed p); cbn in E; destruct (cc_associationFlag c && _); try done; injection E as <-; split_and!; done.
Qed.

Lemma mark_keyed_shape (x x' : Cls) : mark_keyed x = Ok x' -> x' = setIsKeyed x (cc_isKeyed x').
Proof using. intros (o & _ & E)%outcome_bind_ok. destruct o; injection E as <-; [done|]. by destruct x. Qed.
End Inherit.
