(* ===== verification/CimRef.v ===== *)
(** * A concrete library of streams and conversions

   Definitions that satisfy the laws of [Blocxx]: a string in a stream is its
   length in four bytes and its bytes, a boolean one byte, a character two; a real
   number is a 64-bit number and its text the eight bytes of it. *)

From S2P Require Import Prelude Blocxx CimSerial CimData CimIO CimTotal CimDateTime CimOps.

Module RefBlocxx.

#[export] Instance streams : Blocxx := {|
  Real32 := Z; Real64 := Z; real64_of_real32 r := r;
  String_of_Real64 := be_enc 8;
  toReal32 s := Ok (be_dec s); toReal64 s := Ok (be_dec s);
  String_writeObject s := writeInt 4 (zlen s) ;; write s;
  String_readObject := n ← readUInt 4; read (Z.to_nat n);
  Bool_writeObject b := writeInt 1 (if b then 1 else 0);
  Bool_readObject := x ← readUInt 1; mret (negb (x =? 0));
  Char16_writeObject := writeInt 2;
  Char16_readObject := readUInt 2 |}.

Lemma behaves_steady {A} k (r : Prog bytes A) : (forall n, steady n k r r) -> forall l, behaves k r l.
Proof. intros H l. by apply (H (length l) l). Qed.

#[export] Instance streams_laws : BlocxxLaws.
Proof.
  split; simpl.
  - intros s [Hs Hz]. pose proof (zlen_nonneg s). eapply trip_bind; [apply UInt_trip; simpl; lia|cbn beta].
    unfold zlen. rewrite Nat2Z.id. apply trip_write, sgetn_reads.
  - intros b. eapply trip_eq; [apply (trip_last _ _ (fun x => negb (x =? 0))), UInt_trip; by destruct b|by destruct b].
  - intros c Hc. by apply UInt_trip.
  - apply behaves_steady. intros n. eapply steady_weaken; [eapply steady_bind; [apply steady_readUInt|intros x]|].
    + eapply steady_weaken; [apply steady_read|apply Nat.le_0_l].
    + lia.
  - apply behaves_steady. intros n. apply (steady_bind n 1 0); [apply steady_readUInt|intros x; apply steady_ret].
  - apply behaves_steady. intros n. eapply steady_weaken; [apply steady_readUInt|lia].
  - done.
  - done.
Qed.

(** ** Text *)

Fixpoint ltrim (s : bytes) : bytes :=
  match s with c :: r => if isspace c then ltrim r else s | [] => [] end.

#[export] Instance conv : StringConv := {|
  trim s := rev (ltrim (rev (ltrim s)));
  toInt32 s := match atoi s with Ok z => Some z | _ => None end;
  String_of_Int32 z := if z <? 0 then 45 :: dec (- z) else dec z;
  equalsIgnoreCase a b := bool_decide (map (fun c => if (65 <=? c) && (c <=? 90) then c + 32 else c) a =
                                       map (fun c => if (65 <=? c) && (c <=? 90) then c + 32 else c) b) |}.

Lemma ltrim_id s : match head s with Some c => ~ is_space c | None => True end -> ltrim s = s.
Proof.
  destruct s as [|c s]; [done|]. simpl. unfold is_space, isspace. intros H.
  destruct ((c =? 32) || ((9 <=? c) && (c <=? 13))) eqn:E; [|done]. destruct H.
  apply orb_true_iff in E as [E|E]; zbool; lia.
Qed.

(** The decimal text of a number below 10^10. *)
Lemma dec_digits z : 0 <= z < 10 ^ 10 -> dec z <> [] /\ Forall (fun c => 48 <= c <= 57) (dec z) /\ digits (dec z) 0 = z.
Proof.
  intros Hz. pose proof (fmt_dfix 10 z 20 Hz ltac:(lia)) as E. fold (dec z) in E.
  pose proof (dfix_digits 10 z) as Hd. pose proof (digits_dfix 10 z 0 Hz) as Hv. rewrite <- E in Hd, Hv.
  apply Forall_app in Hd as [_ Hd]. split_and!; [|done|].
  - unfold dec. generalize 20%nat. clear. intros n. revert z. induction n as [|n IH]; intros z; cbn [dec_loop]; [done|].
    destruct (z / 10 =? 0); [done|]. rewrite dec_loop_acc. intros [_ H]%app_eq_nil. done.
  - rewrite digits_app in Hv by (apply Forall_replicate; lia).
    assert (forall k, digits (replicate k 48) 0 = 0) as H0 by (induction k; [done|simpl; done]). rewrite H0 in Hv. lia.
Qed.

Lemma skip_spaces_none l : match head l with Some c => 33 <= c | None => True end -> skip_spaces l = l.
Proof.
  destruct l as [|c l]; [done|]. simpl. intros H. unfold isspace.
  rewrite (proj2 (Z.eqb_neq c 32)), (proj2 (Z.leb_gt c 13)), andb_false_r by lia. done.
Qed.

#[export] Instance conv_laws : StringConvLaws.
Proof.
  split; simpl.
  - intros s Hs. unfold trimmed in Hs. destruct s as [|c s]; [done|].
    assert (last (c :: s) <> None) as Hl by (by rewrite last_None).
    destruct (last (c :: s)) as [e|] eqn:E; [|done]. cbn [head] in Hs. destruct Hs as [H1 H2].
    rewrite (ltrim_id (c :: s)) by exact H1. rewrite ltrim_id; [apply rev_involutive|].
    apply last_Some in E as [l' ->]. rewrite rev_app_distr. exact H2.
  - intros z Hz. unfold atoi. destruct (Z.ltb_spec z 0) as [Hn|Hn].
    + destruct (dec_digits (- z) ltac:(simpl; lia)) as (_ & _ & E). rewrite skip_spaces_none by (simpl; lia). rewrite E.
      rewrite Z.eqb_refl, Z.opp_involutive, (proj2 (Z.leb_le _ _)), (proj2 (Z.ltb_lt _ _)) by (simpl; lia). done.
    + destruct (dec_digits z ltac:(simpl; lia)) as (Hne & Hd & E). destruct (dec z) as [|c l]; [done|].
      pose proof (Forall_inv Hd) as Hc. simpl in Hc. rewrite skip_spaces_none by (simpl; lia).
      rewrite (proj2 (Z.eqb_neq c 45)), (proj2 (Z.eqb_neq c 43)) by lia. rewrite E.
      rewrite (proj2 (Z.leb_le _ _)), (proj2 (Z.ltb_lt _ _)) by (simpl; lia). done.
  - intros z Hz. rewrite (proj2 (Z.ltb_ge z 0)) by lia. unfold dec. generalize 20%nat. intros n.
    assert (forall n z acc, 0 <= z -> Forall (fun c => 48 <= c <= 57) acc -> Forall (fun c => 48 <= c <= 57) (dec_loop n z acc)) as H.
    { clear. induction n as [|n IH]; intros z acc Hz Ha; cbn [dec_loop]; pose proof (digit_of z).
      - constructor; [lia|done].
      - destruct (z / 10 =? 0); [constructor; [lia|done]|]. apply IH; [apply Z.div_pos; lia|]. constructor; [lia|done]. }
    by apply H.
Qed.

#[export] Instance conv_names : NameLaws.
Proof.
  split; simpl.
  - intros a. by apply bool_decide_eq_true.
  - intros a b. apply bool_decide_ext. split; congruence.
  - intros a b c ->%bool_decide_eq_true ->%bool_decide_eq_true. by apply bool_decide_eq_true.
Qed.
End RefBlocxx.
