(* ===== verification/BinProtocol.v ===== *)
(** * The binary protocol

   The requests of src/src/client/OW_BinaryCIMOMHandle.cpp and the request handler
   of src/src/requesthandlers/binary/OW_BinaryRequestHandler.cpp.  The operations
   of the interface [CIMOMHandleIFC] are the constructors of [Op]; the server's
   own handle is a function of them.  A request is a protocol version, the number
   of a function and its arguments; the reply says whether the call succeeded and
   carries its result or its error. *)

From S2P Require Import Prelude Blocxx CimSerial CimData CimDateTime CimIO CimObjects CimOps CimSync.

(** ** Exceptions and results *)

(** CIM exceptions carry a number and a message; of the others only the class is
   kept. *)
Inductive exn := CIMExn (errNo : Z) (msg : bytes) | OtherExn (type : string).

(** [Stuck]: undefined behaviour. *)
Inductive result (A : Type) := Val (x : A) | Exn (e : exn) | Stuck.
Arguments Val {A}. Arguments Exn {A}. Arguments Stuck {A}.

Definition M (S A : Type) : Type := S -> result A * S.
#[export] Instance M_ret {S} : MRet (M S) := fun A x s => (Val x, s).
#[export] Instance M_bind {S} : MBind (M S) := fun A B k m s =>
  match m s with
  | (Val x, s) => k x s
  | (Exn e, s) => (Exn e, s)
  | (Stuck, s) => (Stuck, s)
  end.
Definition raise {S A} (e : exn) : M S A := fun s => (Exn e, s).
Definition stuck {S A} : M S A := fun s => (Stuck, s).

Definition FAILED : Z := 1.
Definition INVALID_PARAMETER : Z := 4.
Definition ALREADY_EXISTS : Z := 11.

(** An exception of the code below. *)
Definition exn_of (e : string) : exn :=
  if bool_decide (e = CIM_ALREADY_EXISTS) then CIMExn ALREADY_EXISTS (txt "Qualifier Key already exists") else OtherExn e.
Definition result_of {A} (o : outcome A) : result A :=
  match o with Ok x => Val x | Throw e => Exn (exn_of e) | _ => Stuck end.

(** ** Numbers of the protocol *)

Definition BinaryProtocolVersion : Z := 4000002.
Definition MinBinaryProtocolVersion : Z := 3000007.
Definition BIN_OK : Z := 0.
Definition BIN_ERROR : Z := 1.
Definition BIN_EXCEPTION : Z := 2.
Definition BIN_DELETECLS : Z := 20.
Definition BIN_DELETEINST : Z := 21.
Definition BIN_DELETEQUAL : Z := 22.
Definition BIN_ENUMCLSS : Z := 23.
Definition BIN_ENUMCLSNAMES : Z := 24.
Definition BIN_ENUMINSTS : Z := 25.
Definition BIN_ENUMINSTNAMES : Z := 26.
Definition BIN_ENUMQUALS : Z := 27.
Definition BIN_GETCLS : Z := 28.
Definition BIN_GETINST : Z := 29.
Definition BIN_INVMETH : Z := 30.
Definition BIN_GETQUAL : Z := 31.
Definition BIN_SETQUAL : Z := 32.
Definition BIN_MODIFYCLS : Z := 33.
Definition BIN_CREATECLS : Z := 34.
Definition BIN_MODIFYINST : Z := 35.
Definition BIN_CREATEINST : Z := 36.
Definition BIN_GETPROP : Z := 37.
Definition BIN_SETPROP : Z := 38.
Definition BIN_ASSOCNAMES : Z := 39.
Definition BIN_ASSOCIATORS : Z := 40.
Definition BIN_REFNAMES : Z := 41.
Definition BIN_REFERENCES : Z := 42.
Definition BIN_EXECQUERY : Z := 43.
Definition BIN_GETSVRFEATURES : Z := 44.
Definition EXPORT_INDICATION : Z := 61.
Definition BINSIG_PARAMVALUEARRAY : Z := 114.

Record CIMFeatures := mkFeatures {
  cimProduct : Z;
  extURL : bytes;
  supportedGroups : list bytes;
  supportsBatch : bool;
  supportedQueryLanguages : list bytes;
  validation : bytes;
  f_cimom : bytes;
  protocolVersion : bytes;
}.

(** What an operation hands to its result handler, and the exception that ended
   it, if one did. *)
Record enumeration (X : Type) := mkEnum { items : list X; failed : option exn }.
Arguments mkEnum {X}. Arguments items {X}. Arguments failed {X}.

(** ** Namespaces *)

Definition prepareNamespace (ns : bytes) : bytes := drop_slashes (map (fun c => if c =? 92 then 47 else c) ns).

Section Paths.
Context {bx : Blocxx} {sc : StringConv}.

(** [CIMUrl::setHost], and [CIMObjectPath::setHost] *)
Definition url_setHost (u : URLData) (host : bytes) : URLData :=
  buildSpec (setLocalHost (mkURL (m_spec u) (m_protocol u) host (m_port u) (m_file u) (m_ref u) (m_localHost u))).

(** Paths that go out name the host of the server instead of the local host. *)
Definition outgoing_path (host : bytes) (d : OPData CIMValueImpl) : option (OPData CIMValueImpl) :=
  match op_nameSpace d with
  | Some n =>
      match m_url n with
      | Some u =>
          if m_localHost u
          then Some (mkOP (Some (mkNS (m_nameSpace n) (Some (url_setHost u host)))) (op_objectName d) (op_keys d))
          else Some d
      | None => None
      end
  | None => None
  end.

(** Instances that go out name the namespace. *)
Definition outgoing_instance (ns : bytes) (d : INSTData CIMValueImpl) : INSTData CIMValueImpl :=
  if bool_decide (ci_namespace d = []) then setNameSpace d ns else d.

Definition isClassPath (d : OPData CIMValueImpl) : bool := bool_decide (op_keys d = []).
End Paths.

(** ** The operations of [CIMOMHandleIFC] *)

Inductive Op `{bx : Blocxx} : Type -> Type :=
| EnumClassNames (ns className : bytes) (deep : bool) : Op (enumeration bytes)
| EnumClass (ns className : bytes) (deep localOnly includeQualifiers includeClassOrigin : bool) : Op (enumeration CIMClass)
| EnumInstanceNames (ns className : bytes) : Op (enumeration CIMObjectPath)
| EnumInstances (ns className : bytes) (deep localOnly includeQualifiers includeClassOrigin : bool)
    (propertyList : option (list bytes)) : Op (enumeration CIMInstance)
| GetClass (ns className : bytes) (localOnly includeQualifiers includeClassOrigin : bool)
    (propertyList : option (list bytes)) : Op CIMClass
| GetInstance (ns : bytes) (path : CIMObjectPath) (localOnly includeQualifiers includeClassOrigin : bool)
    (propertyList : option (list bytes)) : Op CIMInstance
| InvokeMethod (ns : bytes) (path : CIMObjectPath) (methodName : bytes) (inParams : list CIMParamValue) :
    Op (CIMValue * list CIMParamValue)
| GetQualifierType (ns qualifierName : bytes) : Op CIMQualifierType
| SetQualifierType (ns : bytes) (qt : CIMQualifierType) : Op ()
| EnumQualifierTypes (ns : bytes) : Op (enumeration CIMQualifierType)
| DeleteQualifierType (ns qualName : bytes) : Op ()
| ModifyClass (ns : bytes) (cc : CIMClass) : Op ()
| CreateClass (ns : bytes) (cc : CIMClass) : Op ()
| DeleteClass (ns className : bytes) : Op ()
| ModifyInstance (ns : bytes) (ci : CIMInstance) (includeQualifiers : bool) (propertyList : option (list bytes)) : Op ()
| CreateInstance (ns : bytes) (ci : CIMInstance) : Op CIMObjectPath
| DeleteInstance (ns : bytes) (path : CIMObjectPath) : Op ()
| SetProperty (ns : bytes) (path : CIMObjectPath) (propName : bytes) (cv : CIMValue) : Op ()
| GetProperty (ns : bytes) (path : CIMObjectPath) (propName : bytes) : Op CIMValue
| AssociatorNames (ns : bytes) (path : CIMObjectPath) (assocClass resultClass role resultRole : bytes) : Op (enumeration CIMObjectPath)
| Associators (ns : bytes) (path : CIMObjectPath) (assocClass resultClass role resultRole : bytes)
    (includeQualifiers includeClassOrigin : bool) (propertyList : option (list bytes)) : Op (enumeration CIMInstance)
| AssociatorsClasses (ns : bytes) (path : CIMObjectPath) (assocClass resultClass role resultRole : bytes)
    (includeQualifiers includeClassOrigin : bool) (propertyList : option (list bytes)) : Op (enumeration CIMClass)
| ReferenceNames (ns : bytes) (path : CIMObjectPath) (resultClass role : bytes) : Op (enumeration CIMObjectPath)
| References (ns : bytes) (path : CIMObjectPath) (resultClass role : bytes)
    (includeQualifiers includeClassOrigin : bool) (propertyList : option (list bytes)) : Op (enumeration CIMInstance)
| ReferencesClasses (ns : bytes) (path : CIMObjectPath) (resultClass role : bytes)
    (includeQualifiers includeClassOrigin : bool) (propertyList : option (list bytes)) : Op (enumeration CIMClass)
| ExecQuery (ns query queryLanguage : bytes) : Op (enumeration CIMInstance)
| GetServerFeatures : Op CIMFeatures
| ExportIndication (instance : CIMInstance) (instNS : bytes) : Op ().

(** ** The request handler *)

Section Protocol.
Context {bx : Blocxx} {ss : StringSearch} {sc : StringConv} (asserts : bool).
(** The server: its handle, the name of its host, whether it takes indications,
   and what the log says of an exception. *)
Context {S : Type} (handle : forall A, Op A -> S -> result A * S).
Context (host : bytes) (m_supportExportIndication : bool) (describe : exn -> bytes).

Record conn := mkConn { cimom : S; istrm : bytes; ostrm : bytes }.

Definition get_arg {A} (p : Prog bytes A) : M conn A := fun c =>
  match p (istrm c) with
  | (Ok x, i) => (Val x, mkConn (cimom c) i (ostrm c))
  | (Throw e, i) => (Exn (OtherExn e), mkConn (cimom c) i (ostrm c))
  | _ => (Stuck, c)
  end.

Definition put (p : Prog bytes ()) : M conn () := fun c =>
  match p (ostrm c) with
  | (Ok x, o) => (Val x, mkConn (cimom c) (istrm c) o)
  | (Throw e, o) => (Exn (OtherExn e), mkConn (cimom c) (istrm c) o)
  | _ => (Stuck, c)
  end.

Definition call {A} (o : Op A) : M conn A := fun c =>
  let '(r, s) := handle A o (cimom c) in (r, mkConn s (istrm c) (ostrm c)).

(** The result handlers write each object as it comes. *)
Definition enumerate {X} (w : X -> Prog bytes ()) (o : Op (enumeration X)) : M conn () :=
  e ← call o;
  put (write_each w (items e)) ;;
  match failed e with Some x => raise x | None => mret () end.

Definition put_enum {X} (beginsig endsig : Z) (w : X -> Prog bytes ()) (o : Op (enumeration X)) : M conn () :=
  put (writeInt 1 BIN_OK) ;;
  put (writeInt 1 beginsig) ;;
  enumerate w o ;;
  put (writeInt 1 endsig) ;;
  put (writeInt 1 endsig).

Definition ok : M conn () := put (writeInt 1 BIN_OK).

Definition writeOutPath (o : CIMObjectPath) : Prog bytes () :=
  d ← deref o; d ← deref (outgoing_path host d); CIMObjectPath_writeObject asserts (Some d).
Definition writeOutInstance (ns : bytes) (i : CIMInstance) : Prog bytes () :=
  d ← deref i; CIMInstance_writeObject asserts (Some (outgoing_instance ns d)).

Definition put_classes : Op (enumeration CIMClass) -> M conn () := put_enum BINSIG_CLSENUM END_CLSENUM (CIMClass_writeObject asserts).
Definition put_instances (ns : bytes) : Op (enumeration CIMInstance) -> M conn () :=
  put_enum BINSIG_INSTENUM END_INSTENUM (writeOutInstance ns).
Definition put_paths : Op (enumeration CIMObjectPath) -> M conn () := put_enum BINSIG_OPENUM END_OPENUM writeOutPath.

Definition h_createClass : M conn () :=
  '(ns, cc) ← get_arg (ns ← readString; cc ← CIMClass_readObject asserts; mret (ns, cc));
  call (CreateClass ns cc) ;; ok.
Definition h_modifyClass : M conn () :=
  '(ns, cc) ← get_arg (ns ← readString; cc ← CIMClass_readObject asserts; mret (ns, cc));
  call (ModifyClass ns cc) ;; ok.
Definition h_deleteClass : M conn () :=
  '(ns, className) ← get_arg (ns ← readString; className ← readString; mret (ns, className));
  call (DeleteClass ns className) ;; ok.
Definition h_enumClasses : M conn () :=
  '(ns, className, deep, localOnly, includeQualifiers, includeClassOrigin) ←
    get_arg (ns ← readString; className ← readString; deep ← readBool; localOnly ← readBool;
             includeQualifiers ← readBool; includeClassOrigin ← readBool;
             mret (ns, className, deep, localOnly, includeQualifiers, includeClassOrigin));
  put_classes (EnumClass ns className deep localOnly includeQualifiers includeClassOrigin).
Definition h_deleteQual : M conn () :=
  '(ns, qualName) ← get_arg (ns ← readString; qualName ← readString; mret (ns, qualName));
  call (DeleteQualifierType ns qualName) ;; ok.
Definition h_setQual : M conn () :=
  '(ns, qt) ← get_arg (ns ← readString; qt ← CIMQualifierType_readObject asserts; mret (ns, qt));
  call (SetQualifierType ns qt) ;; ok.
Definition h_enumQualifiers : M conn () :=
  ns ← get_arg readString;
  put_enum BINSIG_QUAL_TYPEENUM END_QUALENUM (CIMQualifierType_writeObject asserts) (EnumQualifierTypes ns).
Definition h_getClass : M conn () :=
  '(ns, className, localOnly, includeQualifiers, includeClassOrigin, propertyList) ←
    get_arg (ns ← readString; className ← readString; localOnly ← readBool; includeQualifiers ← readBool;
             includeClassOrigin ← readBool; propertyList ← readPropertyList;
             mret (ns, className, localOnly, includeQualifiers, includeClassOrigin, propertyList));
  cc ← call (GetClass ns className localOnly includeQualifiers includeClassOrigin propertyList);
  ok ;; put (CIMClass_writeObject asserts cc).
Definition h_getInstance : M conn () :=
  '(ns, op, localOnly, includeQualifiers, includeClassOrigin, propertyList) ←
    get_arg (ns ← readString; op ← CIMObjectPath_readObject asserts; localOnly ← readBool; includeQualifiers ← readBool;
             includeClassOrigin ← readBool; propertyList ← readPropertyList;
             mret (ns, op, localOnly, includeQualifiers, includeClassOrigin, propertyList));
  ci ← call (GetInstance ns op localOnly includeQualifiers includeClassOrigin propertyList);
  ok ;; put (writeOutInstance ns ci).
Definition h_getQual : M conn () :=
  '(ns, qualifierName) ← get_arg (ns ← readString; qualifierName ← readString; mret (ns, qualifierName));
  qt ← call (GetQualifierType ns qualifierName);
  ok ;; put (CIMQualifierType_writeObject asserts qt).

(** A new namespace needs its name, as a key. *)
Definition namespace_instance (d : INSTData CIMValueImpl) : result (INSTData CIMValueImpl) :=
  if equalsIgnoreCase (ci_owningClassName d) (txt "__Namespace") then
    match getProperty d (txt "Name") with
    | Ok None => Exn (CIMExn INVALID_PARAMETER (txt "Name property not specified for new namespace"))
    | Ok (Some prop) =>
        result_of (
          key ← isKey prop;
          prop ← (if (key : bool) then Ok prop else addQualifier prop createKeyQualifier);
          setProperty d (Some prop))
    | o => result_of (o ;; Crash)
    end
  else Val d.

Definition h_createInstance : M conn () :=
  '(ns, ci) ← get_arg (ns ← readString; ci ← CIMInstance_readObject asserts; mret (ns, ci));
  match ci with
  | None => stuck
  | Some d =>
      d ← (fun c => (namespace_instance d, c));
      newPath ← call (CreateInstance ns (Some d));
      ok ;; put (CIMObjectPath_writeObject asserts newPath)
  end.
Definition h_deleteInstance : M conn () :=
  '(ns, op) ← get_arg (ns ← readString; op ← CIMObjectPath_readObject asserts; mret (ns, op));
  call (DeleteInstance ns op) ;; ok.
Definition h_modifyInstance : M conn () :=
  '(ns, ci, includeQualifiers, propertyList) ←
    get_arg (ns ← readString; ci ← CIMInstance_readObject asserts; includeQualifiers ← readBool; propertyList ← readPropertyList;
             mret (ns, ci, includeQualifiers, propertyList));
  call (ModifyInstance ns ci includeQualifiers propertyList) ;; ok.
Definition h_setProperty : M conn () :=
  '(ns, op, propName, cv) ←
    get_arg (ns ← readString; op ← CIMObjectPath_readObject asserts; propName ← readString; cv ← BIN_readValue asserts;
             mret (ns, op, propName, cv));
  call (SetProperty ns op propName cv) ;; ok.
Definition h_getProperty : M conn () :=
  '(ns, op, propName) ←
    get_arg (ns ← readString; op ← CIMObjectPath_readObject asserts; propName ← readString; mret (ns, op, propName));
  cv ← call (GetProperty ns op propName);
  ok ;; put (BIN_writeValue asserts cv).
Definition h_enumClassNames : M conn () :=
  '(ns, className, deep) ← get_arg (ns ← readString; className ← readString; deep ← readBool; mret (ns, className, deep));
  put_enum BINSIG_STRINGENUM END_STRINGENUM writeString (EnumClassNames ns className deep).
Definition h_enumInstances : M conn () :=
  '(ns, className, deep, localOnly, includeQualifiers, includeClassOrigin, propertyList) ←
    get_arg (ns ← readString; className ← readString; deep ← readBool; localOnly ← readBool;
             includeQualifiers ← readBool; includeClassOrigin ← readBool; propertyList ← readPropertyList;
             mret (ns, className, deep, localOnly, includeQualifiers, includeClassOrigin, propertyList));
  put_instances ns (EnumInstances ns className deep localOnly includeQualifiers includeClassOrigin propertyList).
Definition h_enumInstanceNames : M conn () :=
  '(ns, className) ← get_arg (ns ← readString; className ← readString; mret (ns, className));
  put_paths (EnumInstanceNames ns className).

(** An array of parameters is read into new objects. *)
Definition readParamValues : Prog bytes (list CIMParamValue) :=
  verifySignature BINSIG_PARAMVALUEARRAY ;;
  readArray (CIMParamValue_readObject asserts (Some (mkParamValue [] None))).
Definition writeParamValues (l : list CIMParamValue) : Prog bytes () :=
  writeInt 1 BINSIG_PARAMVALUEARRAY ;; writeArray (CIMParamValue_writeObject asserts) l.

Definition h_invokeMethod : M conn () :=
  '(ns, path, methodName, inparms) ←
    get_arg (ns ← readString; path ← CIMObjectPath_readObject asserts; methodName ← readString; inparms ← readParamValues;
             mret (ns, path, methodName, inparms));
  '(cv, outparms) ← call (InvokeMethod ns path methodName inparms);
  ok ;; put (BIN_writeValue asserts cv) ;; put (writeParamValues outparms).
Definition h_execQuery : M conn () :=
  '(ns, query, queryLang) ← get_arg (ns ← readString; query ← readString; queryLang ← readString; mret (ns, query, queryLang));
  put_instances ns (ExecQuery ns query queryLang).

(** One function for instances and classes: the path tells which are meant. *)
Definition h_associators : M conn () :=
  '(ns, op, assocClass, resultClass, role, resultRole, includeQualifiers, includeClassOrigin, propertyList) ←
    get_arg (ns ← readString; op ← CIMObjectPath_readObject asserts; assocClass ← readString; resultClass ← readString;
             role ← readString; resultRole ← readString; includeQualifiers ← readBool; includeClassOrigin ← readBool;
             propertyList ← readPropertyList;
             mret (ns, op, assocClass, resultClass, role, resultRole, includeQualifiers, includeClassOrigin, propertyList));
  match op with
  | None => stuck
  | Some d =>
      if isClassPath d then
        match path_setNameSpace d ns with
        | None => stuck
        | Some d => put_classes (AssociatorsClasses ns (Some d) assocClass resultClass role resultRole
                      includeQualifiers includeClassOrigin propertyList)
        end
      else put_instances ns (Associators ns op assocClass resultClass role resultRole includeQualifiers includeClassOrigin propertyList)
  end.
Definition h_associatorNames : M conn () :=
  '(ns, op, assocClass, resultClass, role, resultRole) ←
    get_arg (ns ← readString; op ← CIMObjectPath_readObject asserts; assocClass ← readString; resultClass ← readString;
             role ← readString; resultRole ← readString; mret (ns, op, assocClass, resultClass, role, resultRole));
  put_paths (AssociatorNames ns op assocClass resultClass role resultRole).
Definition h_references : M conn () :=
  '(ns, op, resultClass, role, includeQualifiers, includeClassOrigin, propertyList) ←
    get_arg (ns ← readString; op ← CIMObjectPath_readObject asserts; resultClass ← readString; role ← readString;
             includeQualifiers ← readBool; includeClassOrigin ← readBool; propertyList ← readPropertyList;
             mret (ns, op, resultClass, role, includeQualifiers, includeClassOrigin, propertyList));
  match op with
  | None => stuck
  | Some d =>
      if isClassPath d
      then put_classes (ReferencesClasses ns op resultClass role includeQualifiers includeClassOrigin propertyList)
      else put_instances ns (References ns op resultClass role includeQualifiers includeClassOrigin propertyList)
  end.
Definition h_referenceNames : M conn () :=
  '(ns, op, resultClass, role) ←
    get_arg (ns ← readString; op ← CIMObjectPath_readObject asserts; resultClass ← readString; role ← readString;
             mret (ns, op, resultClass, role));
  put_paths (ReferenceNames ns op resultClass role).
Definition h_getServerFeatures : M conn () :=
  f ← call GetServerFeatures;
  ok ;;
  put (writeInt 4 (cimProduct f) ;; writeString (extURL f) ;; writeStringArray (supportedGroups f) ;;
       writeBool (supportsBatch f) ;; writeStringArray (supportedQueryLanguages f) ;; writeString (validation f) ;;
       writeString (f_cimom f) ;; writeString (protocolVersion f)).
Definition h_exportIndication : M conn () :=
  '(indication, instNS) ← get_arg (i ← CIMInstance_readObject asserts; ns ← readString; mret (i, ns));
  call (ExportIndication indication instNS) ;; ok.

(** The functions by their numbers.  A number that is not known, and an
   indication that is not supported, only leave a message on the error stream. *)
Definition dispatch (funcNo : Z) : M conn (option bytes) :=
  let run (h : M conn ()) := h ;; mret None in
  if funcNo =? BIN_GETQUAL then run h_getQual
  else if funcNo =? BIN_SETQUAL then run h_setQual
  else if funcNo =? BIN_DELETEQUAL then run h_deleteQual
  else if funcNo =? BIN_ENUMQUALS then run h_enumQualifiers
  else if funcNo =? BIN_GETCLS then run h_getClass
  else if funcNo =? BIN_CREATECLS then run h_createClass
  else if funcNo =? BIN_MODIFYCLS then run h_modifyClass
  else if funcNo =? BIN_DELETECLS then run h_deleteClass
  else if funcNo =? BIN_ENUMCLSS then run h_enumClasses
  else if funcNo =? BIN_GETINST then run h_getInstance
  else if funcNo =? BIN_CREATEINST then run h_createInstance
  else if funcNo =? BIN_MODIFYINST then run h_modifyInstance
  else if funcNo =? BIN_DELETEINST then run h_deleteInstance
  else if funcNo =? BIN_SETPROP then run h_setProperty
  else if funcNo =? BIN_GETPROP then run h_getProperty
  else if funcNo =? BIN_ENUMCLSNAMES then run h_enumClassNames
  else if funcNo =? BIN_ENUMINSTS then run h_enumInstances
  else if funcNo =? BIN_ENUMINSTNAMES then run h_enumInstanceNames
  else if funcNo =? BIN_INVMETH then run h_invokeMethod
  else if funcNo =? BIN_EXECQUERY then run h_execQuery
  else if funcNo =? BIN_ASSOCIATORS then run h_associators
  else if funcNo =? BIN_ASSOCNAMES then run h_associatorNames
  else if funcNo =? BIN_REFERENCES then run h_references
  else if funcNo =? BIN_REFNAMES then run h_referenceNames
  else if funcNo =? BIN_GETSVRFEATURES then run h_getServerFeatures
  else if funcNo =? EXPORT_INDICATION then
    if m_supportExportIndication then run h_exportIndication else mret (Some (txt "Export indication not supported."))
  else mret (Some (txt "Invalid function number")).

(** What [doProcess] leaves: the two streams and whether [setError] was called. *)
Record reply := mkReply { ostrEntity : bytes; ostrError : bytes; hasError : bool }.

Definition writeError (msg : bytes) : Prog bytes () := writeInt 1 BIN_ERROR ;; String_writeObject msg.
Definition writeException (errNo : Z) (msg : bytes) : Prog bytes () :=
  writeInt 1 BIN_EXCEPTION ;; writeInt 2 errNo ;; String_writeObject (c_str msg).

Definition getFunction : M conn Z :=
  version ← get_arg (readUInt 4);
  if (version <? MinBinaryProtocolVersion) || (BinaryProtocolVersion <? version)
  then raise (CIMExn FAILED (txt "Incompatible version"))
  else get_arg (readUInt 1).

(** The error stream, from empty. *)
Definition error_text (p : Prog bytes ()) : result bytes :=
  match p [] with (Ok _, o) => Val o | (Throw e, _) => Exn (OtherExn e) | _ => Stuck end.

Definition doProcess (request : bytes) (s : S) : result reply * S :=
  let failed_with entity p s :=
    (match error_text p with Val e => Val (mkReply entity e true) | Exn e => Exn e | Stuck => Stuck end, s) in
  match getFunction (mkConn s request []) with
  | (Val funcNo, c) =>
      match dispatch funcNo c with
      | (Val None, c) => (Val (mkReply (ostrm c) [] false), cimom c)
      | (Val (Some msg), c) =>
          (match error_text (writeError msg) with Val e => Val (mkReply (ostrm c) e false) | Exn e => Exn e | Stuck => Stuck end, cimom c)
      | (Exn (CIMExn n m), c) => failed_with (ostrm c) (writeException n m) (cimom c)
      | (Exn e, c) => failed_with (ostrm c) (writeError (describe e)) (cimom c)
      | (Stuck, c) => (Stuck, cimom c)
      end
  | (Exn e, c) => failed_with (ostrm c) (writeError (describe e)) (cimom c)
  | (Stuck, c) => (Stuck, cimom c)
  end.

(** [HTTPSvrConnection::sendPostResponse] sends one of the streams (of a reply
   that is not chunked). *)
Definition response (r : reply) : bytes := if hasError r then ostrError r else ostrEntity r.

(** ** The client *)

(** The other end of the protocol handler: the server, the response that is
   being read, and how many responses have been ended. *)
Record client := mkClient { server : S; instr : bytes; ended : Z }.

Definition read_in {A} (p : Prog bytes A) : M client A := fun c =>
  match p (instr c) with
  | (Ok x, i) => (Val x, mkClient (server c) i (ended c))
  | (Throw e, i) => (Exn (OtherExn e), mkClient (server c) i (ended c))
  | _ => (Stuck, c)
  end.

Definition endResponse : M client () := fun c => (Val (), mkClient (server c) (instr c) (ended c + 1)).

(** Every request begins with the version and the number of the function. *)
Definition request (funcNo : Z) (args : Prog bytes ()) : M client () := fun c =>
  match (writeInt 4 BinaryProtocolVersion ;; writeInt 1 funcNo ;; args) [] with
  | (Ok _, req) =>
      match doProcess req (server c) with
      | (Val r, s) => (Val (), mkClient s (response r) (ended c))
      | (_, s) => (Stuck, mkClient s [] (ended c))
      end
  | (Throw e, _) => (Exn (OtherExn e), c)
  | _ => (Stuck, c)
  end.

Definition checkError2 : M client () :=
  rc ← read_in (readUInt 1);
  if rc =? BIN_OK then mret ()
  else if rc =? BIN_ERROR then _ ← read_in String_readObject; raise (OtherExn IOException)
  else if rc =? BIN_EXCEPTION then
    cimerrno ← read_in (readUInt 2);
    cimMsg ← read_in String_readObject;
    raise (CIMExn cimerrno (c_str cimMsg))
  else raise (OtherExn IOException).

(** End the response when an exception of the given kind passes. *)
Definition ending {A} (caught : exn -> bool) (m : M client A) : M client A := fun c =>
  match m c with
  | (Exn e, c) => if caught e then (endResponse ;; raise e) c else (Exn e, c)
  | r => r
  end.

Definition checkError : M client () := ending (fun _ => true) checkError2.

(** [BadCIMSignatureException] is an [IOException]. *)
Definition is_IOException (e : exn) : bool :=
  match e with
  | OtherExn t => bool_decide (t = IOException) || bool_decide (t = BadCIMSignatureException)
  | CIMExn _ _ => false
  end.

Definition readCIMObject {A} (r : Prog bytes A) : M client A :=
  checkError ;;
  x ← ending is_IOException (read_in r);
  endResponse ;;
  mret x.

Definition readAndDeliver {X} (r : Prog bytes (list X)) : M client (enumeration X) :=
  checkError ;;
  l ← ending is_IOException (read_in r);
  endResponse ;;
  mret (mkEnum l None).

Definition done_ : M client () := checkError ;; endResponse.

Definition c_enumClassNames (ns_ className : bytes) (deep : bool) : M client (enumeration bytes) :=
  let ns := prepareNamespace ns_ in
  request BIN_ENUMCLSNAMES (writeString ns ;; writeString className ;; writeBool deep) ;;
  readAndDeliver readStringEnum.
Definition c_enumClass (ns_ className : bytes) (deep localOnly includeQualifiers includeClassOrigin : bool) :
    M client (enumeration CIMClass) :=
  let ns := prepareNamespace ns_ in
  request BIN_ENUMCLSS (writeString ns ;; writeString className ;; writeBool deep ;; writeBool localOnly ;;
    writeBool includeQualifiers ;; writeBool includeClassOrigin) ;;
  readAndDeliver (readClassEnum asserts).
Definition c_enumInstanceNames (ns_ className : bytes) : M client (enumeration CIMObjectPath) :=
  let ns := prepareNamespace ns_ in
  request BIN_ENUMINSTNAMES (writeString ns ;; writeString className) ;;
  readAndDeliver (readObjectPathEnum asserts).
Definition c_enumInstances (ns_ className : bytes) (deep localOnly includeQualifiers includeClassOrigin : bool)
    (propertyList : option (list bytes)) : M client (enumeration CIMInstance) :=
  let ns := prepareNamespace ns_ in
  request BIN_ENUMINSTS (writeString ns ;; writeString className ;; writeBool deep ;; writeBool localOnly ;;
    writeBool includeQualifiers ;; writeBool includeClassOrigin ;; writePropertyList propertyList) ;;
  readAndDeliver (readInstanceEnum asserts).
Definition c_getClass (ns_ className : bytes) (localOnly includeQualifiers includeClassOrigin : bool)
    (propertyList : option (list bytes)) : M client CIMClass :=
  let ns := prepareNamespace ns_ in
  request BIN_GETCLS (writeString ns ;; writeString className ;; writeBool localOnly ;; writeBool includeQualifiers ;;
    writeBool includeClassOrigin ;; writePropertyList propertyList) ;;
  readCIMObject (CIMClass_readObject asserts).
Definition c_getInstance (ns_ : bytes) (instanceName : CIMObjectPath) (localOnly includeQualifiers includeClassOrigin : bool)
    (propertyList : option (list bytes)) : M client CIMInstance :=
  let ns := prepareNamespace ns_ in
  request BIN_GETINST (writeString ns ;; CIMObjectPath_writeObject asserts instanceName ;; writeBool localOnly ;;
    writeBool includeQualifiers ;; writeBool includeClassOrigin ;; writePropertyList propertyList) ;;
  readCIMObject (CIMInstance_readObject asserts).
(** Here every exception ends the response. *)
Definition c_invokeMethod (ns_ : bytes) (path : CIMObjectPath) (methodName : bytes) (inParams : list CIMParamValue) :
    M client (CIMValue * list CIMParamValue) :=
  let ns := prepareNamespace ns_ in
  request BIN_INVMETH (writeString ns ;; CIMObjectPath_writeObject asserts path ;; writeString methodName ;; writeParamValues inParams) ;;
  checkError ;;
  r ← ending (fun _ => true) (read_in (cv ← BIN_readValue asserts; outParams ← readParamValues; mret (cv, outParams)));
  endResponse ;;
  mret r.
Definition c_getQualifierType (ns_ qualifierName : bytes) : M client CIMQualifierType :=
  let ns := prepareNamespace ns_ in
  request BIN_GETQUAL (writeString ns ;; writeString qualifierName) ;;
  readCIMObject (CIMQualifierType_readObject asserts).
Definition c_setQualifierType (ns_ : bytes) (qt : CIMQualifierType) : M client () :=
  let ns := prepareNamespace ns_ in
  request BIN_SETQUAL (writeString ns ;; CIMQualifierType_writeObject asserts qt) ;; done_.
Definition c_enumQualifierTypes (ns_ : bytes) : M client (enumeration CIMQualifierType) :=
  let ns := prepareNamespace ns_ in
  request BIN_ENUMQUALS (writeString ns) ;; readAndDeliver (readQualifierTypeEnum asserts).
Definition c_deleteQualifierType (ns_ qualName : bytes) : M client () :=
  let ns := prepareNamespace ns_ in
  request BIN_DELETEQUAL (writeString ns ;; writeString qualName) ;; done_.
Definition c_modifyClass (ns_ : bytes) (cc : CIMClass) : M client () :=
  let ns := prepareNamespace ns_ in
  request BIN_MODIFYCLS (writeString ns ;; CIMClass_writeObject asserts cc) ;; done_.
Definition c_createClass (ns_ : bytes) (cc : CIMClass) : M client () :=
  let ns := prepareNamespace ns_ in
  request BIN_CREATECLS (writeString ns ;; CIMClass_writeObject asserts cc) ;; done_.
Definition c_deleteClass (ns_ className : bytes) : M client () :=
  let ns := prepareNamespace ns_ in
  request BIN_DELETECLS (writeString ns ;; writeString className) ;; done_.
Definition c_modifyInstance (ns_ : bytes) (modifiedInstance : CIMInstance) (includeQualifiers : bool)
    (propertyList : option (list bytes)) : M client () :=
  let ns := prepareNamespace ns_ in
  request BIN_MODIFYINST (writeString ns ;; CIMInstance_writeObject asserts modifiedInstance ;; writeBool includeQualifiers ;;
    writePropertyList propertyList) ;; done_.
Definition c_createInstance (ns_ : bytes) (ci : CIMInstance) : M client CIMObjectPath :=
  let ns := prepareNamespace ns_ in
  request BIN_CREATEINST (writeString ns ;; CIMInstance_writeObject asserts ci) ;;
  rval ← readCIMObject (CIMObjectPath_readObject asserts);
  match rval ≫= fun d => path_setNameSpace d ns with
  | Some d => mret (Some d)
  | None => stuck
  end.
Definition c_deleteInstance (ns_ : bytes) (inst : CIMObjectPath) : M client () :=
  let ns := prepareNamespace ns_ in
  request BIN_DELETEINST (writeString ns ;; CIMObjectPath_writeObject asserts inst) ;; done_.
Definition c_setProperty (ns_ : bytes) (path : CIMObjectPath) (propName : bytes) (cv : CIMValue) : M client () :=
  let ns := prepareNamespace ns_ in
  request BIN_SETPROP (writeString ns ;; CIMObjectPath_writeObject asserts path ;; writeString propName ;; BIN_writeValue asserts cv) ;; done_.
Definition c_getProperty (ns_ : bytes) (path : CIMObjectPath) (propName : bytes) : M client CIMValue :=
  let ns := prepareNamespace ns_ in
  request BIN_GETPROP (writeString ns ;; CIMObjectPath_writeObject asserts path ;; writeString propName) ;;
  checkError ;;
  cv ← ending (fun _ => true) (read_in (BIN_readValue asserts));
  endResponse ;;
  mret cv.
Definition c_associatorNames (ns_ : bytes) (path : CIMObjectPath) (assocClass resultClass role resultRole : bytes) :
    M client (enumeration CIMObjectPath) :=
  let ns := prepareNamespace ns_ in
  request BIN_ASSOCNAMES (writeString ns ;; CIMObjectPath_writeObject asserts path ;; writeString assocClass ;;
    writeString resultClass ;; writeString role ;; writeString resultRole) ;;
  readAndDeliver (readObjectPathEnum asserts).

(** The client refuses a path of the other kind before it sends anything. *)
Definition require_path (classPath : bool) (msg : bytes) (path : CIMObjectPath) : M client () :=
  match path with
  | None => stuck
  | Some d => if Bool.eqb (isClassPath d) classPath then mret () else raise (CIMExn INVALID_PARAMETER msg)
  end.

Definition write_associators (ns : bytes) (path : CIMObjectPath) (assocClass resultClass role resultRole : bytes)
    (includeQualifiers includeClassOrigin : bool) (propertyList : option (list bytes)) : Prog bytes () :=
  writeString ns ;; CIMObjectPath_writeObject asserts path ;; writeString assocClass ;; writeString resultClass ;;
  writeString role ;; writeString resultRole ;; writeBool includeQualifiers ;; writeBool includeClassOrigin ;;
  writePropertyList propertyList.

Definition c_associators (ns_ : bytes) (path : CIMObjectPath) (assocClass resultClass role resultRole : bytes)
    (includeQualifiers includeClassOrigin : bool) (propertyList : option (list bytes)) : M client (enumeration CIMInstance) :=
  let ns := prepareNamespace ns_ in
  require_path false (txt "associators requires an instance path not a class path") path ;;
  request BIN_ASSOCIATORS (write_associators ns path assocClass resultClass role resultRole includeQualifiers includeClassOrigin propertyList) ;;
  readAndDeliver (readInstanceEnum asserts).
Definition c_associatorsClasses (ns_ : bytes) (path : CIMObjectPath) (assocClass resultClass role resultRole : bytes)
    (includeQualifiers includeClassOrigin : bool) (propertyList : option (list bytes)) : M client (enumeration CIMClass) :=
  let ns := prepareNamespace ns_ in
  require_path true (txt "associatorsClasses requires a class path not an instance path") path ;;
  request BIN_ASSOCIATORS (write_associators ns path assocClass resultClass role resultRole includeQualifiers includeClassOrigin propertyList) ;;
  readAndDeliver (readClassEnum asserts).
Definition c_referenceNames (ns_ : bytes) (path : CIMObjectPath) (resultClass role : bytes) : M client (enumeration CIMObjectPath) :=
  let ns := prepareNamespace ns_ in
  request BIN_REFNAMES (writeString ns ;; CIMObjectPath_writeObject asserts path ;; writeString resultClass ;; writeString role) ;;
  readAndDeliver (readObjectPathEnum asserts).

Definition write_references (ns : bytes) (path : CIMObjectPath) (resultClass role : bytes)
    (includeQualifiers includeClassOrigin : bool) (propertyList : option (list bytes)) : Prog bytes () :=
  writeString ns ;; CIMObjectPath_writeObject asserts path ;; writeString resultClass ;; writeString role ;;
  writeBool includeQualifiers ;; writeBool includeClassOrigin ;; writePropertyList propertyList.

Definition c_references (ns_ : bytes) (path : CIMObjectPath) (resultClass role : bytes)
    (includeQualifiers includeClassOrigin : bool) (propertyList : option (list bytes)) : M client (enumeration CIMInstance) :=
  let ns := prepareNamespace ns_ in
  require_path false (txt "references requires an instance path not a class path") path ;;
  request BIN_REFERENCES (write_references ns path resultClass role includeQualifiers includeClassOrigin propertyList) ;;
  readAndDeliver (readInstanceEnum asserts).
Definition c_referencesClasses (ns_ : bytes) (path : CIMObjectPath) (resultClass role : bytes)
    (includeQualifiers includeClassOrigin : bool) (propertyList : option (list bytes)) : M client (enumeration CIMClass) :=
  let ns := prepareNamespace ns_ in
  require_path true (txt "referencesClasses requires a class path not an instance path") path ;;
  request BIN_REFERENCES (write_references ns path resultClass role includeQualifiers includeClassOrigin propertyList) ;;
  readAndDeliver (readClassEnum asserts).
Definition c_execQuery (ns_ query queryLanguage : bytes) : M client (enumeration CIMInstance) :=
  let ns := prepareNamespace ns_ in
  request BIN_EXECQUERY (writeString ns ;; writeString query ;; writeString queryLanguage) ;;
  readAndDeliver (readInstanceEnum asserts).
Definition c_exportIndication (instance : CIMInstance) (instNS : bytes) : M client () :=
  request EXPORT_INDICATION (CIMInstance_writeObject asserts instance ;; writeString instNS) ;; done_.

(** The features are asked of the protocol handler, not of the server's handle. *)
Context (getFeatures : M client CIMFeatures).
Definition c_getServerFeatures : M client CIMFeatures := getFeatures.

(** [BinaryCIMOMHandle] is a [CIMOMHandleIFC] itself. *)
Definition client_call {A} (o : Op A) : M client A :=
  match o in Op A return M client A with
  | EnumClassNames ns c deep => c_enumClassNames ns c deep
  | EnumClass ns c deep lo iq ico => c_enumClass ns c deep lo iq ico
  | EnumInstanceNames ns c => c_enumInstanceNames ns c
  | EnumInstances ns c deep lo iq ico pl => c_enumInstances ns c deep lo iq ico pl
  | GetClass ns c lo iq ico pl => c_getClass ns c lo iq ico pl
  | GetInstance ns p lo iq ico pl => c_getInstance ns p lo iq ico pl
  | InvokeMethod ns p m ps => c_invokeMethod ns p m ps
  | GetQualifierType ns q => c_getQualifierType ns q
  | SetQualifierType ns qt => c_setQualifierType ns qt
  | EnumQualifierTypes ns => c_enumQualifierTypes ns
  | DeleteQualifierType ns q => c_deleteQualifierType ns q
  | ModifyClass ns cc => c_modifyClass ns cc
  | CreateClass ns cc => c_createClass ns cc
  | DeleteClass ns c => c_deleteClass ns c
  | ModifyInstance ns ci iq pl => c_modifyInstance ns ci iq pl
  | CreateInstance ns ci => c_createInstance ns ci
  | DeleteInstance ns p => c_deleteInstance ns p
  | SetProperty ns p name v => c_setProperty ns p name v
  | GetProperty ns p name => c_getProperty ns p name
  | AssociatorNames ns p ac rc r rr => c_associatorNames ns p ac rc r rr
  | Associators ns p ac rc r rr iq ico pl => c_associators ns p ac rc r rr iq ico pl
  | AssociatorsClasses ns p ac rc r rr iq ico pl => c_associatorsClasses ns p ac rc r rr iq ico pl
  | ReferenceNames ns p rc r => c_referenceNames ns p rc r
  | References ns p rc r iq ico pl => c_references ns p rc r iq ico pl
  | ReferencesClasses ns p rc r iq ico pl => c_referencesClasses ns p rc r iq ico pl
  | ExecQuery ns q l => c_execQuery ns q l
  | GetServerFeatures => c_getServerFeatures
  | ExportIndication i ns => c_exportIndication i ns
  end.
End Protocol.
