(* ===== verification/BinFacts.v ===== *)
(** * Facts about the binary protocol

   What a call over the protocol amounts to ([remote]), and the lemmas that relate
   the two ends of it to that: arguments and results are read as they were
   written, and each of the shapes that the functions have carries the outcome of
   the server's call to the client. *)

From S2P Require Import Prelude Blocxx CimSerial CimData CimDateTime CimIO CimTotal CimObjects CimOps CimSync BinProtocol.

(** ** What a call over the protocol does *)

Section Spec.
Context {bx : Blocxx} {ss : StringSearch} {sc : StringConv} (asserts : bool).
Context {S : Type} (handle : forall A, Op A -> S -> result A * S).
Context (host : bytes) (m_supportExportIndication : bool).

(** Of an exception the client learns the number and the message of a CIM
   exception, and that there was one otherwise. *)
Definition sent (e : exn) : exn :=
  match e with
  | CIMExn n m => CIMExn (uwrap 16 n) (c_str m)
  | OtherExn _ => OtherExn IOException
  end.

(** The operations that the client refuses. *)
Definition refused {A} (o : Op A) : option exn :=
  let wrong (classPath : bool) (p : CIMObjectPath) (msg : string) :=
    match p with
    | Some d => if Bool.eqb (isClassPath d) classPath then None else Some (CIMExn INVALID_PARAMETER (txt msg))
    | None => None
    end in
  match o with
  | Associators _ p _ _ _ _ _ _ _ => wrong false p "associators requires an instance path not a class path"
  | AssociatorsClasses _ p _ _ _ _ _ _ _ => wrong true p "associatorsClasses requires a class path not an instance path"
  | References _ p _ _ _ _ _ => wrong false p "references requires an instance path not a class path"
  | ReferencesClasses _ p _ _ _ _ _ => wrong true p "referencesClasses requires a class path not an instance path"
  | _ => None
  end.

(** The operation that the server's handle is asked for. *)
Definition served {A} (o : Op A) : result (Op A) :=
  let n := prepareNamespace in
  match o in Op A return result (Op A) with
  | EnumClassNames ns c deep => Val (EnumClassNames (n ns) c deep)
  | EnumClass ns c deep lo iq ico => Val (EnumClass (n ns) c deep lo iq ico)
  | EnumInstanceNames ns c => Val (EnumInstanceNames (n ns) c)
  | EnumInstances ns c deep lo iq ico pl => Val (EnumInstances (n ns) c deep lo iq ico pl)
  | GetClass ns c lo iq ico pl => Val (GetClass (n ns) c lo iq ico pl)
  | GetInstance ns p lo iq ico pl => Val (GetInstance (n ns) p lo iq ico pl)
  | InvokeMethod ns p m ps => Val (InvokeMethod (n ns) p m ps)
  | GetQualifierType ns q => Val (GetQualifierType (n ns) q)
  | SetQualifierType ns qt => Val (SetQualifierType (n ns) qt)
  | EnumQualifierTypes ns => Val (EnumQualifierTypes (n ns))
  | DeleteQualifierType ns q => Val (DeleteQualifierType (n ns) q)
  | ModifyClass ns cc => Val (ModifyClass (n ns) cc)
  | CreateClass ns cc => Val (CreateClass (n ns) cc)
  | DeleteClass ns c => Val (DeleteClass (n ns) c)
  | ModifyInstance ns ci iq pl => Val (ModifyInstance (n ns) ci iq pl)
  | CreateInstance ns ci =>
      match ci with
      | Some d => match namespace_instance d with Val d => Val (CreateInstance (n ns) (Some d)) | Exn e => Exn e | Stuck => Stuck end
      | None => Stuck
      end
  | DeleteInstance ns p => Val (DeleteInstance (n ns) p)
  | SetProperty ns p name v => Val (SetProperty (n ns) p name v)
  | GetProperty ns p name => Val (GetProperty (n ns) p name)
  | AssociatorNames ns p ac rc r rr => Val (AssociatorNames (n ns) p ac rc r rr)
  | Associators ns p ac rc r rr iq ico pl => Val (Associators (n ns) p ac rc r rr iq ico pl)
  | AssociatorsClasses ns p ac rc r rr iq ico pl =>
      match p ≫= fun d => path_setNameSpace d (n ns) with
      | Some d => Val (AssociatorsClasses (n ns) (Some d) ac rc r rr iq ico pl)
      | None => Stuck
      end
  | ReferenceNames ns p rc r => Val (ReferenceNames (n ns) p rc r)
  | References ns p rc r iq ico pl => Val (References (n ns) p rc r iq ico pl)
  | ReferencesClasses ns p rc r iq ico pl => Val (ReferencesClasses (n ns) p rc r iq ico pl)
  | ExecQuery ns q l => Val (ExecQuery (n ns) q l)
  | GetServerFeatures => Val GetServerFeatures
  | ExportIndication i ns => Val (ExportIndication i ns)
  end.

(** What becomes of each object of a result on its way. *)
Definition send_path (o : CIMObjectPath) : option CIMObjectPath := option_map Some (o ≫= outgoing_path host).
Definition send_instance (ns : bytes) (i : CIMInstance) : option CIMInstance := option_map (fun d => Some (outgoing_instance ns d)) i.

(** The part of a result that is sent. *)
Definition sending {A} (o : Op A) : A -> option A :=
  let enum {X} (f : X -> option X) (e : enumeration X) : option (enumeration X) :=
    option_map (fun l => mkEnum l (failed e)) (mapM f (items e)) in
  let n := prepareNamespace in
  match o in Op A return A -> option A with
  | EnumClassNames _ _ _ => enum Some
  | EnumClass _ _ _ _ _ _ | AssociatorsClasses _ _ _ _ _ _ _ _ _ | ReferencesClasses _ _ _ _ _ _ _ => enum Some
  | EnumQualifierTypes _ => enum Some
  | EnumInstanceNames _ _ | AssociatorNames _ _ _ _ _ _ | ReferenceNames _ _ _ _ => enum send_path
  | EnumInstances ns _ _ _ _ _ _ => enum (send_instance (n ns))
  | Associators ns _ _ _ _ _ _ _ _ => enum (send_instance (n ns))
  | References ns _ _ _ _ _ _ => enum (send_instance (n ns))
  | ExecQuery ns _ _ => enum (send_instance (n ns))
  | GetInstance ns _ _ _ _ _ => send_instance (n ns)
  | _ => Some
  end.

(** How the client hands it on. *)
Definition arrived {A} (o : Op A) : A -> result A :=
  let enum {X} (e : enumeration X) : result (enumeration X) :=
    match failed e with Some x => Exn (sent x) | None => Val e end in
  match o in Op A return A -> result A with
  | EnumClassNames _ _ _ => enum | EnumClass _ _ _ _ _ _ => enum | EnumInstanceNames _ _ => enum
  | EnumInstances _ _ _ _ _ _ _ => enum | EnumQualifierTypes _ => enum | AssociatorNames _ _ _ _ _ _ => enum
  | Associators _ _ _ _ _ _ _ _ _ => enum | AssociatorsClasses _ _ _ _ _ _ _ _ _ => enum
  | ReferenceNames _ _ _ _ => enum | References _ _ _ _ _ _ _ => enum | ReferencesClasses _ _ _ _ _ _ _ => enum
  | ExecQuery _ _ _ => enum
  | CreateInstance ns _ => fun p => match p ≫= fun d => path_setNameSpace d (prepareNamespace ns) with Some d => Val (Some d) | None => Stuck end
  | _ => Val
  end.

(** The call as a whole. *)
Definition remote {A} (o : Op A) (s : S) : result A * S :=
  match refused o with
  | Some e => (Exn e, s)
  | None =>
      match served o with
      | Val o' =>
          match handle A o' s with
          | (Val x, s') => (match sending o x with Some y => arrived o y | None => Stuck end, s')
          | (Exn e, s') => (Exn (sent e), s')
          | (Stuck, s') => (Stuck, s')
          end
      | Exn e => (Exn (sent e), s)
      | Stuck => (Stuck, s)
      end
  end.

(** ** What can be sent *)

Definition param_fit : CIMParamValue -> Prop := there (fun d => string_ok (pv_name d) /\ forall v, pv_val d = Some v -> value_ok v).
Definition params_fit : list CIMParamValue -> Prop := arr_ok param_fit.
Definition nvalue_fit (v : CIMValue) : Prop := forall x, v = Some x -> value_ok x.
Definition plist_fit (l : option (list bytes)) : Prop := match l with Some l => Forall string_ok l /\ zlen l < 2 ^ 32 | None => True end.
Definition exn_fit (e : exn) : Prop := match e with CIMExn _ m => string_ok (c_str m) | OtherExn _ => True end.
Definition enum_fit {X} (fit : X -> Prop) (e : enumeration X) : Prop := Forall fit (items e) /\ forall x, failed e = Some x -> exn_fit x.

Definition op_fit {A} (o : Op A) : Prop :=
  let n ns := string_ok (prepareNamespace ns) in
  match o with
  | EnumClassNames ns c _ => n ns /\ string_ok c
  | EnumClass ns c _ _ _ _ => n ns /\ string_ok c
  | EnumInstanceNames ns c => n ns /\ string_ok c
  | EnumInstances ns c _ _ _ _ pl => n ns /\ string_ok c /\ plist_fit pl
  | GetClass ns c _ _ _ pl => n ns /\ string_ok c /\ plist_fit pl
  | GetInstance ns p _ _ _ pl => n ns /\ path_fit p /\ plist_fit pl
  | InvokeMethod ns p m ps => n ns /\ path_fit p /\ string_ok m /\ params_fit ps
  | GetQualifierType ns q => n ns /\ string_ok q
  | SetQualifierType ns qt => n ns /\ qualt_fit qt
  | EnumQualifierTypes ns => n ns
  | DeleteQualifierType ns q => n ns /\ string_ok q
  | ModifyClass ns cc => n ns /\ class_fit cc
  | CreateClass ns cc => n ns /\ class_fit cc
  | DeleteClass ns c => n ns /\ string_ok c
  | ModifyInstance ns ci _ pl => n ns /\ instance_fit ci /\ plist_fit pl
  | CreateInstance ns ci => n ns /\ instance_fit ci
  | DeleteInstance ns p => n ns /\ path_fit p
  | SetProperty ns p name v => n ns /\ path_fit p /\ string_ok name /\ nvalue_fit v
  | GetProperty ns p name => n ns /\ path_fit p /\ string_ok name
  | AssociatorNames ns p ac rc r rr => n ns /\ path_fit p /\ string_ok ac /\ string_ok rc /\ string_ok r /\ string_ok rr
  | Associators ns p ac rc r rr _ _ pl => n ns /\ path_fit p /\ string_ok ac /\ string_ok rc /\ string_ok r /\ string_ok rr /\ plist_fit pl
  | AssociatorsClasses ns p ac rc r rr _ _ pl => n ns /\ path_fit p /\ string_ok ac /\ string_ok rc /\ string_ok r /\ string_ok rr /\ plist_fit pl
  | ReferenceNames ns p rc r => n ns /\ path_fit p /\ string_ok rc /\ string_ok r
  | References ns p rc r _ _ pl => n ns /\ path_fit p /\ string_ok rc /\ string_ok r /\ plist_fit pl
  | ReferencesClasses ns p rc r _ _ pl => n ns /\ path_fit p /\ string_ok rc /\ string_ok r /\ plist_fit pl
  | ExecQuery ns q l => n ns /\ string_ok q /\ string_ok l
  | GetServerFeatures => False
  | ExportIndication i ns => instance_fit i /\ string_ok ns /\ m_supportExportIndication = true
  end.

(** The results that can be sent, after [sending]. *)
Definition reply_fit {A} (o : Op A) : A -> Prop :=
  match o in Op A return A -> Prop with
  | EnumClassNames _ _ _ => enum_fit string_ok
  | EnumClass _ _ _ _ _ _ | AssociatorsClasses _ _ _ _ _ _ _ _ _ | ReferencesClasses _ _ _ _ _ _ _ => enum_fit class_fit
  | EnumInstanceNames _ _ | AssociatorNames _ _ _ _ _ _ | ReferenceNames _ _ _ _ => enum_fit path_fit
  | EnumInstances _ _ _ _ _ _ _ | Associators _ _ _ _ _ _ _ _ _ | References _ _ _ _ _ _ _ | ExecQuery _ _ _ => enum_fit instance_fit
  | EnumQualifierTypes _ => enum_fit qualt_fit
  | GetClass _ _ _ _ _ _ => class_fit
  | GetInstance _ _ _ _ _ _ => instance_fit
  | GetQualifierType _ _ => qualt_fit
  | InvokeMethod _ _ _ _ => fun r => nvalue_fit r.1 /\ params_fit r.2
  | GetProperty _ _ _ => nvalue_fit
  | CreateInstance _ _ => path_fit
  | _ => fun _ => True
  end.

(** The outcome of the server's call can be sent; a handle that crashes sends
   nothing. *)
Definition outcome_fit {A} (o : Op A) (s : S) : Prop :=
  match served o with
  | Val o' =>
      match fst (handle A o' s) with
      | Val x => exists y, sending o x = Some y /\ reply_fit o y
      | Exn e => exn_fit e
      | Stuck => False
      end
  | Exn e => exn_fit e
  | Stuck => False
  end.
End Spec.

(** ** Arguments and results are read as they were written *)

Section Wire.
Context {bx : Blocxx} {ss : StringSearch} {sc : StringConv} {bl : BlocxxLaws} (asserts : bool).

Lemma good_param n (rV rV' : Prog bytes CIMValueImpl) (this : ParamValueData) :
  steady n 1 rV rV' ->
  let r rV := readSig SIG_L ;; name ← readName; b ← Bool_readObject; val ← readOptional rV b;
    _ ← deref (Some this); mret (Some (mkParamValue name val)) in
  good n (r rV) (r rV').
Proof.
  intros HV r m Hm. eapply steady_weaken.
  { eapply steady_bind; [apply steady_readSig|intros _]. eapply steady_bind; [apply steady_Name|intros name].
    eapply steady_bind; [apply steady_Bool|intros b]. eapply (steady_bind _ 0 0); [apply (steady_optional n); [done|lia]|intros v].
    apply (steady_ret _ (Some (mkParamValue name v))). }
  lia.
Qed.

Lemma param_trip this v : param_fit v ->
  trip (CIMParamValue_writeObject asserts v) (CIMParamValue_readObject asserts (Some this)) v.
Proof.
  destruct v as [[name val]|]; [|done]. intros [Hn Hv]. simpl in *.
  apply (with_values_trip _ _ (fun rV => _) _ (option_list val)).
  - intros n rV rV' H. by apply (good_param n rV rV' this).
  - intros rV H. unfold CIMParamValue_writeObject. eapply trip_bind; [apply sig_trip|cbn beta]. apply trip_deref. cbn [pv_name pv_val].
    eapply trip_bind; [by apply String_trip|cbn beta].
    exact (optional_last (writeValue asserts) rV val (fun val => Some (mkParamValue name val)) H).
  - destruct val; [|constructor]. constructor; [by apply Hv|constructor].
Qed.

Lemma params_trip l : params_fit l -> trip (writeParamValues asserts l) (readParamValues asserts) l.
Proof.
  intros Hl. eapply trip_bind; [by apply verify_trip|]. eapply arr_trip; [exact Hl|]. intros v Hv. by apply param_trip.
Qed.

Lemma nvalue_trip v : nvalue_fit v -> trip (BIN_writeValue asserts v) (BIN_readValue asserts) v.
Proof.
  intros Hv. unfold BIN_writeValue, BIN_readValue. eapply trip_bind; [apply writeBool_trip|cbn beta].
  destruct v as [x|]; [|apply trip_ret]. apply CIMValue_trip. by apply Hv.
Qed.

Lemma u16_trip n : trip (writeInt 2 n) (readUInt 2) (uwrap 16 n).
Proof.
  apply trip_write. intros rest. unfold readUInt, mbind, Prog_bind.
  pose proof (sgetn_reads (be_enc 2 n) rest) as E. rewrite length_be_enc in E. rewrite E. by rewrite be_dec_enc.
Qed.

Lemma writeOutPath_eq host o o' : send_path host o = Some o' -> writeOutPath asserts host o = CIMObjectPath_writeObject asserts o'.
Proof.
  destruct o as [d|]; [|done]. unfold send_path, writeOutPath. rewrite bind_deref. intros H.
  change (option_map Some (outgoing_path host d) = Some o') in H. destruct (outgoing_path host d) as [d'|]; [|done].
  injection H as <-. by rewrite bind_deref.
Qed.

Lemma writeOutInstance_eq ns i i' : send_instance ns i = Some i' -> writeOutInstance asserts ns i = CIMInstance_writeObject asserts i'.
Proof. destruct i as [d|]; [|done]. intros [= <-]. unfold writeOutInstance. by rewrite bind_deref. Qed.

Lemma write_each_sent {X} (w w' : X -> Prog bytes ()) (f : X -> option X) l l' :
  (forall x y, f x = Some y -> w x = w' y) -> mapM f l = Some l' -> write_each w l = write_each w' l'.
Proof.
  intros Hw. rewrite mapM_Some. induction 1 as [|x y l l' Hx _ IH]; [done|]. cbn [write_each]. by rewrite (Hw x y Hx), IH.
Qed.
End Wire.

(** ** From one end to the other *)

Section Exchange.
Context {bx : Blocxx} {ss : StringSearch} {sc : StringConv} {bl : BlocxxLaws} (asserts : bool).
Context {S : Type} (handle : forall A, Op A -> S -> result A * S).
Context (host : bytes) (m_supportExportIndication : bool) (describe : exn -> bytes).
Context (describe_ok : forall e, string_ok (describe e)).
Abbreviation dispatch := (dispatch asserts handle host m_supportExportIndication).
Abbreviation request := (request asserts handle host m_supportExportIndication describe).
Abbreviation conn := (@conn S).
Abbreviation client := (@client S).

(** [k] serves what [r] reads, for the function [f]. *)
Definition serves {X} (f : Z) (r : Prog bytes X) (k : X -> M conn ()) : Prop :=
  is_byte f /\ forall c, dispatch f c = ((x ← get_arg r; k x) ;; mret None) c.

Lemma c_str_idemp l : c_str (c_str l) = c_str l.
Proof. induction l as [|c l IH]; [done|]. simpl. destruct (c =? 0) eqn:E; [done|]. simpl. by rewrite E, IH. Qed.

(** What the error stream holds of an exception. *)
Definition error_prog (e : exn) : Prog bytes () :=
  match e with CIMExn n m => writeException n m | OtherExn _ => writeError (describe e) end.

Lemma byte_trip c : is_byte c -> trip (writeInt 1 c) (readUInt 1) c.
Proof. intros H. by apply UInt_trip. Qed.

Lemma writeError_read msg : string_ok msg -> exists b, writes (writeError msg) b /\
  forall (s : S) n, checkError2 (mkClient s b n) = (Exn (OtherExn IOException), mkClient s [] n).
Proof.
  intros Hm. destruct (byte_trip BIN_ERROR ltac:(done)) as (b1 & Hw1 & Hr1). destruct (String_trip _ Hm) as (b3 & Hw3 & Hr3).
  exists (b1 ++ b3). split; [by apply writes_bind|].
  intros s k. unfold checkError2, mbind, M_bind, read_in. cbn [instr server ended]. rewrite Hr1. cbn. by rewrite <- (app_nil_r b3), Hr3.
Qed.

Lemma error_written e : exn_fit e -> exists b, writes (error_prog e) b /\
  forall (s : S) n, checkError2 (mkClient s b n) = (Exn (sent e), mkClient s [] n).
Proof.
  destruct e as [n m|t]; intros He; [|apply writeError_read, describe_ok].
  destruct (byte_trip BIN_EXCEPTION ltac:(done)) as (b1 & Hw1 & Hr1). destruct (u16_trip n) as (b2 & Hw2 & Hr2).
  destruct (String_trip (c_str m) He) as (b3 & Hw3 & Hr3). exists (b1 ++ b2 ++ b3). split; [by repeat apply writes_bind|].
  intros s k. unfold checkError2, mbind, M_bind, read_in. cbn [instr server ended]. rewrite Hr1. cbn. rewrite Hr2. cbn.
  rewrite <- (app_nil_r b3), Hr3. cbn. by rewrite c_str_idemp.
Qed.

Lemma error_text_written e b : writes (error_prog e) b -> error_text (error_prog e) = Val b.
Proof. intros H. unfold error_text. by rewrite H. Qed.

(** A request arrives as it was sent. *)
Lemma request_arrives {X} f w (r : Prog bytes X) x k s i n :
  trip w r x -> serves f r k ->
  request f w (mkClient s i n) =
    match k x (mkConn s [] []) with
    | (Val _, c) => (Val (), mkClient (cimom c) (ostrm c) n)
    | (Exn e, c) =>
        match error_text (error_prog e) with
        | Val b => (Val (), mkClient (cimom c) b n)
        | _ => (Stuck, mkClient (cimom c) [] n)
        end
    | (Stuck, c) => (Stuck, mkClient (cimom c) [] n)
    end.
Proof.
  intros (b & Hw & Hr) [Hf Hd]. unfold request.
  destruct (UInt_trip 4 BinaryProtocolVersion ltac:(done)) as (b1 & Hw1 & Hr1).
  destruct (UInt_trip 1 f Hf) as (b2 & Hw2 & Hr2).
  assert (writes (writeInt 4 BinaryProtocolVersion ;; writeInt 1 f ;; w) (b1 ++ b2 ++ b)) as HW by by repeat apply writes_bind.
  rewrite HW. cbn [app server ended]. unfold doProcess.
  assert (getFunction (mkConn s (b1 ++ b2 ++ b) []) = (Val f, mkConn s b [])) as ->.
  { unfold getFunction, get_arg, mbind, M_bind. cbn [istrm cimom ostrm]. rewrite Hr1. cbn. by rewrite Hr2. }
  rewrite Hd. unfold mbind at 1, M_bind at 1. unfold mbind at 1, M_bind at 1. unfold get_arg. cbn [istrm cimom ostrm].
  rewrite <- (app_nil_r b), Hr. unfold response.
  destruct (k x (mkConn s [] [])) as [[u|[en m|t]|] c]; cbn [hasError ostrEntity ostrError error_prog mret M_ret]; [done| | |done];
    by destruct (error_text _).
Qed.

(** When the server's call ends with an exception, so does the client's, and the
   response is ended. *)
Lemma call_fails {X A} f w (r : Prog bytes X) x k (m : M client A) s i n e c :
  trip w r x -> serves f r k -> k x (mkConn s [] []) = (Exn e, c) -> exn_fit e ->
  (request f w ;; checkError ;; m) (mkClient s i n) = (Exn (sent e), mkClient (cimom c) [] (n + 1)).
Proof.
  intros Ht Hs Hk He. unfold mbind at 1, M_bind at 1. rewrite (request_arrives _ _ _ _ _ _ _ _ Ht Hs), Hk.
  destruct (error_written e He) as (b & Hb & Hc). rewrite (error_text_written _ _ Hb).
  unfold mbind, M_bind, checkError, ending. by rewrite Hc.
Qed.

Lemma call_returns {X A} f w (r : Prog bytes X) x k (m : M client A) s i n c b :
  trip w r x -> serves f r k -> k x (mkConn s [] []) = (Val (), c) -> ostrm c = BIN_OK :: b ->
  (request f w ;; checkError ;; m) (mkClient s i n) = m (mkClient (cimom c) b n).
Proof.
  intros Ht Hs Hk Hc. unfold mbind at 1, M_bind at 1. rewrite (request_arrives _ _ _ _ _ _ _ _ Ht Hs), Hk, Hc. done.
Qed.

(** ** The shapes of the functions *)

(** The whole response has been read, and ended. *)
Definition finish {A} (n : Z) (r : result A * S) : result A * client := (fst r, mkClient (snd r) [] (n + 1)).

Lemma put_writes p b s i o : writes p b -> put p (mkConn s i o) = (Val (), mkConn s i (o ++ b) : conn).
Proof. intros H. unfold put. cbn [ostrm]. by rewrite H. Qed.

Lemma byte_writes c : is_byte c -> writes (writeInt 1 c) [c].
Proof. intros H s. unfold writeInt, write, be_enc. simpl. rewrite uwrap_id; [done|exact H]. Qed.

Lemma ok_says s i o : ok (mkConn s i o) = (Val (), mkConn s i (o ++ [BIN_OK]) : conn).
Proof. apply put_writes. by apply byte_writes. Qed.

Lemma M_assoc {T A B C} (m : M T A) (f : A -> M T B) (g : B -> M T C) t : ((m ≫= f) ≫= g) t = (m ≫= fun x => f x ≫= g) t.
Proof. unfold mbind, M_bind. by destruct (m t) as [[x|e|] t']. Qed.

Section Shapes.
Context {X : Type} (f : Z) (w : Prog bytes ()) (r : Prog bytes X) (x : X) (k : X -> M conn ()).
Context (s : S) (i : bytes) (n : Z).
Context (Ht : trip w r x) (Hs : serves f r k).

(** A call without a result. *)
Lemma void_call (o : Op ()) :
  k x (mkConn s [] []) = (call handle o ;; ok) (mkConn s [] []) ->
  match fst (handle () o s) with Val _ => True | Exn e => exn_fit e | Stuck => False end ->
  (request f w ;; done_) (mkClient s i n) =
    finish n match handle () o s with (Val u, s') => (Val u, s') | (Exn e, s') => (Exn (sent e), s') | (Stuck, s') => (Stuck, s') end.
Proof.
  intros Hk Ho. unfold mbind at 1, M_bind at 1, call in Hk. cbn [cimom istrm ostrm] in Hk. unfold done_.
  destruct (handle () o s) as [[[]|e|] s']; simpl in Ho; [| |done].
  - rewrite ok_says in Hk. by rewrite (call_returns _ _ _ _ _ _ _ _ _ _ [] Ht Hs Hk).
  - by rewrite (call_fails _ _ _ _ _ _ _ _ _ _ _ Ht Hs Hk).
Qed.

(** A call whose result is an object: [sd] is what becomes of it on the way. *)
Lemma value_call {A} (o : Op A) (sd : A -> option A) (wr : A -> M conn ()) (rd : Prog bytes A) caught :
  k x (mkConn s [] []) = (y ← call handle o; ok ;; wr y) (mkConn s [] []) ->
  match fst (handle A o s) with
  | Val y => exists y' b, sd y = Some y' /\ reads rd b y' /\ forall s i o, wr y (mkConn s i o) = (Val (), mkConn s i (o ++ b))
  | Exn e => exn_fit e
  | Stuck => False
  end ->
  (request f w ;; checkError ;; y ← ending caught (read_in rd); endResponse ;; mret y) (mkClient s i n) =
    finish n match handle A o s with
             | (Val y, s') => (match sd y with Some y' => Val y' | None => Stuck end, s')
             | (Exn e, s') => (Exn (sent e), s')
             | (Stuck, s') => (Stuck, s')
             end.
Proof.
  intros Hk Ho. unfold mbind at 1, M_bind at 1, call in Hk. cbn [cimom istrm ostrm] in Hk.
  destruct (handle A o s) as [[y|e|] s']; simpl in Ho; [| |done].
  - destruct Ho as (y' & b & Hy & Hr & Hw). unfold mbind, M_bind in Hk. rewrite ok_says, Hw in Hk.
    rewrite (call_returns _ _ _ _ _ _ _ _ _ _ b Ht Hs Hk) by done. rewrite Hy. unfold mbind, M_bind, ending, read_in.
    cbn [cimom instr server ended]. by rewrite <- (app_nil_r b), Hr.
  - by rewrite (call_fails _ _ _ _ _ _ _ _ _ _ _ Ht Hs Hk).
Qed.

Lemma object_call {A} (o : Op A) (sd : A -> option A) (wr : A -> Prog bytes ()) (rd : Prog bytes A) caught :
  k x (mkConn s [] []) = (y ← call handle o; ok ;; put (wr y)) (mkConn s [] []) ->
  match fst (handle A o s) with
  | Val y => exists y', sd y = Some y' /\ trip (wr y) rd y'
  | Exn e => exn_fit e
  | Stuck => False
  end ->
  (request f w ;; checkError ;; y ← ending caught (read_in rd); endResponse ;; mret y) (mkClient s i n) =
    finish n match handle A o s with
             | (Val y, s') => (match sd y with Some y' => Val y' | None => Stuck end, s')
             | (Exn e, s') => (Exn (sent e), s')
             | (Stuck, s') => (Stuck, s')
             end.
Proof.
  intros Hk Ho. eapply value_call; [exact Hk|]. destruct (fst _); [|done..].
  destruct Ho as (y' & Hy & b & Hw & Hr). exists y', b. split; [done|]. split; [done|]. intros. by apply put_writes.
Qed.

(** A call that enumerates its results. *)
Lemma enum_call {Y} (o : Op (enumeration Y)) (sd : Y -> option Y) (fit : Y -> Prop) wr wr' (rd : Prog bytes Y) b e :
  k x (mkConn s [] []) = put_enum handle b e wr o (mkConn s [] []) ->
  (forall y y', sd y = Some y' -> wr y = wr' y') -> (forall y, fit y -> trip (wr' y) rd y) ->
  is_byte b -> is_byte e -> ends rd e -> (forall i, behaves 1 rd i) ->
  match fst (handle _ o s) with
  | Val y => exists y', option_map (fun l => mkEnum l (failed y)) (mapM sd (items y)) = Some y' /\ enum_fit fit y'
  | Exn e => exn_fit e
  | Stuck => False
  end ->
  (request f w ;; readAndDeliver (readEnum rd b e)) (mkClient s i n) =
    finish n match handle _ o s with
             | (Val y, s') => (match option_map (fun l => mkEnum l (failed y)) (mapM sd (items y)) with
                               | Some y' => match failed y' with Some x => Exn (sent x) | None => Val y' end
                               | None => Stuck end, s')
             | (Exn e, s') => (Exn (sent e), s')
             | (Stuck, s') => (Stuck, s')
             end.
Proof.
  intros Hk Hsd Hfit Hb He Hend Hbeh Ho. unfold put_enum, enumerate, mbind, M_bind in Hk.
  rewrite (put_writes _ _ _ _ _ (byte_writes BIN_OK ltac:(done))), (put_writes _ _ _ _ _ (byte_writes b Hb)) in Hk.
  unfold call in Hk. cbn [cimom istrm ostrm] in Hk. unfold readAndDeliver.
  destruct (handle _ o s) as [[y|x'|] s']; simpl in Ho; [| |done].
  2:{ by rewrite (call_fails _ _ _ _ _ _ _ _ _ _ _ Ht Hs Hk). }
  destruct Ho as (y' & Hy & Hfl & Hx). destruct (mapM sd (items y)) as [l|] eqn:Hl; [|done]. injection Hy as <-.
  cbn [option_map items failed] in *.
  assert (Forall (fun x => trip (wr' x) rd x) l) as Htl by (eapply Forall_impl; [exact Hfl|done]).
  destruct (each_trip wr' rd l Htl) as (bl' & Hwl & _).
  rewrite (write_each_sent wr wr' sd _ l Hsd Hl), (put_writes _ _ _ _ _ Hwl) in Hk.
  destruct (failed y) as [ex|].
  { by rewrite (call_fails _ _ _ _ _ _ _ _ _ _ _ Ht Hs Hk (Hx ex eq_refl)). }
  unfold mret, M_ret in Hk. rewrite !(put_writes _ _ _ _ _ (byte_writes e He)) in Hk.
  destruct (enum_trip wr' rd b e l Htl Hbeh Hb He Hend) as (B & HB & Hr).
  assert (writes (writeEnum wr' b e l) ([b] ++ bl' ++ [e] ++ [e])) as HB'
    by (repeat apply writes_bind; first [done|by apply byte_writes]).
  rewrite (writes_unique _ _ _ HB HB') in Hr.
  rewrite (call_returns _ _ _ _ _ _ _ _ _ _ ([b] ++ bl' ++ [e] ++ [e]) Ht Hs Hk) by (cbn; by rewrite <- !app_assoc).
  unfold mbind, M_bind, ending, read_in. cbn [cimom instr server ended]. specialize (Hr []). rewrite app_nil_r in Hr. by rewrite Hr.
Qed.

Abbreviation enumerates o sd fit rd := (
  match fst (handle _ o s) with
  | Val y => exists y', option_map (fun l => mkEnum l (failed y)) (mapM sd (items y)) = Some y' /\ enum_fit fit y'
  | Exn e => exn_fit e
  | Stuck => False
  end ->
  (request f w ;; readAndDeliver rd) (mkClient s i n) =
    finish n match handle _ o s with
             | (Val y, s') => (match option_map (fun l => mkEnum l (failed y)) (mapM sd (items y)) with
                               | Some y' => match failed y' with Some x => Exn (sent x) | None => Val y' end
                               | None => Stuck end, s')
             | (Exn e, s') => (Exn (sent e), s')
             | (Stuck, s') => (Stuck, s')
             end).

Lemma paths_call (o : Op (enumeration CIMObjectPath)) :
  k x (mkConn s [] []) = put_paths asserts handle host o (mkConn s [] []) ->
  enumerates o (send_path host) path_fit (readObjectPathEnum asserts).
Proof.
  intros Hk. eapply enum_call; [exact Hk|apply writeOutPath_eq|apply path_trip|done..| |apply CIMObjectPath_behaves].
  intros rest. by apply ends_sig.
Qed.

Lemma instances_call ns (o : Op (enumeration CIMInstance)) :
  k x (mkConn s [] []) = put_instances asserts handle ns o (mkConn s [] []) ->
  enumerates o (send_instance ns) instance_fit (readInstanceEnum asserts).
Proof.
  intros Hk. eapply enum_call; [exact Hk|apply writeOutInstance_eq|apply instance_trip|done..| |apply CIMInstance_behaves].
  intros rest. by apply ends_sigV.
Qed.

Lemma classes_call (o : Op (enumeration CIMClass)) :
  k x (mkConn s [] []) = put_classes asserts handle o (mkConn s [] []) ->
  enumerates o Some class_fit (readClassEnum asserts).
Proof.
  intros Hk. eapply enum_call; [exact Hk|by intros y y' [= <-]|apply class_trip|done..| |apply CIMClass_behaves].
  intros rest. by apply ends_sigV.
Qed.

Lemma qualifiers_call (o : Op (enumeration CIMQualifierType)) :
  k x (mkConn s [] []) = put_enum handle BINSIG_QUAL_TYPEENUM END_QUALENUM (CIMQualifierType_writeObject asserts) o (mkConn s [] []) ->
  enumerates o Some qualt_fit (readQualifierTypeEnum asserts).
Proof.
  intros Hk. eapply enum_call; [exact Hk|by intros y y' [= <-]|apply qualtype_trip|done..| |apply CIMQualifierType_behaves].
  intros rest. by apply ends_sig.
Qed.

Lemma names_call (o : Op (enumeration bytes)) :
  k x (mkConn s [] []) = put_enum handle BINSIG_STRINGENUM END_STRINGENUM writeString o (mkConn s [] []) ->
  enumerates o Some string_ok readStringEnum.
Proof.
  intros Hk. eapply enum_call; [exact Hk|by intros y y' [= <-]|apply writeString_trip|done..| |apply readString_behaves].
  by apply ends_verify.
Qed.
End Shapes.
End Exchange.

(** * Requests of any bytes

   What the readers make out of bytes, and that the handlers of the binary
   protocol survive it: the objects that were read have no null parts where the
   request handler looks, and a handler calls the server's handle at most once,
   after all the arguments have been read. *)

Import CIMDataType.

(** ** Postconditions of readers *)

Definition gives {A} (r : Prog bytes A) (P : A -> Prop) : Prop := forall s x s', r s = (Ok x, s') -> P x.

Lemma gives_bind {A B} (m : Prog bytes A) (k : A -> Prog bytes B) Q P :
  gives m Q -> (forall x, Q x -> gives (k x) P) -> gives (m ≫= k) P.
Proof.
  intros Hm Hk s y s'. unfold mbind, Prog_bind. destruct (m s) as [[x|e| |] s1] eqn:E; try done. apply (Hk x (Hm _ _ _ E)).
Qed.

Lemma gives_any {A B} (m : Prog bytes A) (k : A -> Prog bytes B) P : (forall x, gives (k x) P) -> gives (m ≫= k) P.
Proof. intros H. apply (gives_bind _ _ (fun _ => True)); [done|]. auto. Qed.

Lemma gives_ret {A} (x : A) (P : A -> Prop) : P x -> gives (mret x) P.
Proof. by intros H s y s' [= <- _]. Qed.

Lemma gives_array {A} (r : Prog bytes A) P : gives r P -> gives (readArray r) (Forall P).
Proof.
  intros Hr. apply gives_any. intros len. induction (Z.to_nat len) as [|n IH]; [by apply gives_ret|]. cbn [read_each].
  eapply gives_bind; [exact Hr|]. intros x Hx. eapply gives_bind; [exact IH|]. intros l Hl. apply gives_ret. by constructor.
Qed.

Lemma gives_if {A} (b : bool) (r r' : Prog bytes A) P : gives r P -> gives r' P -> gives (if b then r else r') P.
Proof. by destruct b. Qed.

(** ** The objects that are read *)

Section Read.
Context {bx : Blocxx} {ss : StringSearch} {sc : StringConv} (asserts : bool).

(** A truth value has one in its union; properties have a data type, and no
   qualifier or property is null. *)
Definition bool_sound (v : CIMValueImpl) : Prop :=
  match v with mkValue t false d => t = BOOLEAN -> exists x, d = V_int x | _ => True end.
Definition qual_sound : CIMQualifier -> Prop := there (fun q => forall v, cq_qualifierValue q = Some v -> bool_sound v).
Definition prop_sound : CIMProperty -> Prop := there (fun p => is_Some (p_propertyDataType p) /\ Forall qual_sound (p_qualifiers p)).
Definition inst_sound : CIMInstance -> Prop := there (fun d => Forall prop_sound (ci_properties d)).
Definition path_sound : CIMObjectPath -> Prop := there (fun d => is_Some (op_nameSpace d)).

Lemma gives_value fuel : gives (readValue asserts fuel) bool_sound.
Proof.
  destruct fuel as [|fuel]; [done|]. cbn [readValue]. apply gives_any. intros _. apply gives_any. intros t. apply gives_any. intros a.
  apply (gives_bind _ _ (fun d => a = false -> t = BOOLEAN -> exists x, d = V_int x)).
  - destruct a; [by intros ???|]. destruct (decide (t = BOOLEAN)) as [->|Hne]; [|intros ???? ??; done].
    change (readObj (readValue asserts fuel) asserts BOOLEAN) with (x ← readValueInt 1 false; mret (V_int x) : Prog bytes (CIMValueData CIMValueImpl)).
    apply gives_any. intros x. apply gives_ret. by eexists.
  - intros d Hd. apply gives_ret. destruct a; [done|]. exact (Hd eq_refl).
Qed.

Section WithValues.
Context (rV : Prog bytes CIMValueImpl) (HV : gives rV bool_sound).

Lemma gives_optional b : gives (readOptional rV b) (fun o => forall v, o = Some v -> bool_sound v).
Proof.
  apply gives_if; [|by apply gives_ret]. eapply gives_bind; [exact HV|]. intros v Hv. apply gives_ret. by intros v' [= <-].
Qed.

Lemma gives_qual : gives (readQualifier rV) qual_sound.
Proof.
  unfold readQualifier. do 3 (apply gives_any; intros ?). eapply gives_bind; [apply gives_optional|]. intros v Hv.
  do 4 (apply gives_any; intros ?). by apply gives_ret.
Qed.

Lemma gives_prop : gives (readProperty rV) prop_sound.
Proof.
  unfold readProperty. do 4 (apply gives_any; intros ?).
  eapply (gives_bind _ _ is_Some). { unfold readDataType. repeat (apply gives_any; intros ?). by apply gives_ret. }
  intros t Ht. do 2 (apply gives_any; intros ?). eapply gives_bind; [apply gives_array, gives_qual|]. intros qs Hqs.
  do 2 (apply gives_any; intros ?). by apply gives_ret.
Qed.

Lemma gives_inst : gives (readInstance rV) inst_sound.
Proof.
  unfold readInstance. do 3 (apply gives_any; intros ?). eapply gives_bind; [apply gives_array, gives_prop|]. intros ps Hps.
  do 3 (apply gives_any; intros ?). by apply gives_ret.
Qed.
End WithValues.

Lemma gives_CIMInstance : gives (CIMInstance_readObject asserts) inst_sound.
Proof. apply gives_any. intros s. apply gives_inst, gives_value. Qed.

Lemma gives_CIMObjectPath : gives (CIMObjectPath_readObject asserts) path_sound.
Proof.
  apply gives_any. intros s. unfold readObjectPath. apply gives_any. intros _. eapply (gives_bind _ _ is_Some).
  { unfold readNameSpace. repeat (apply gives_any; intros ?). by apply gives_ret. }
  intros n Hn. do 2 (apply gives_any; intros ?). by apply gives_ret.
Qed.
End Read.

(** ** A new namespace *)

Definition calm {A} (o : outcome A) : Prop := match o with Ok _ | Throw _ => True | _ => False end.

Lemma calm_bind {A B} (o : outcome A) (k : A -> outcome B) : calm o -> (forall x, o = Ok x -> calm (k x)) -> calm (o ≫= k).
Proof. destruct o; cbn; auto. Qed.

Section Namespace.
Context {bx : Blocxx} {sc : StringConv}.

Lemma calm_locate {A} (test : A -> bool) l : Forall is_Some l -> calm (locate test l).
Proof.
  induction 1 as [|o l [x ->] _ IH]; [done|]. cbn. destruct (test x); [done|]. apply calm_bind; [done|]. by intros.
Qed.

Lemma there_some {A} (P : A -> Prop) l : Forall (there P) l -> Forall is_Some l.
Proof. intros H. eapply Forall_impl; [exact H|]. intros [x|]; [by eexists|done]. Qed.

Lemma calm_isKey p : prop_sound (Some p) -> calm (isKey p).
Proof.
  intros [[dt Hdt] Hq]. unfold isKey. rewrite Hdt. cbn. destruct (m_type dt =? REFERENCE); [done|].
  unfold hasTrueQualifier, getQualifier. apply calm_bind; [|].
  - apply calm_bind; [by eapply calm_locate, there_some|done].
  - intros [q|]; [|done]. destruct (locate _ _) as [[[k q']|]| | |] eqn:E; try done. intros [= ->].
    apply locate_some in E as (El & _). eapply Forall_lookup_1 in Hq; [|exact El]. cbn in Hq.
    destruct (cq_qualifierValue q) as [[t a d]|]; [|done]. specialize (Hq _ eq_refl). cbn in *.
    destruct (t =? BOOLEAN) eqn:Et; [|done]. cbn. destruct a; [done|]. apply Z.eqb_eq in Et. by destruct (Hq Et) as [x ->].
Qed.

Lemma calm_key_props l : Forall prop_sound l -> calm (key_props l).
Proof.
  induction 1 as [|[p|] l Hp _ IH]; [done| |done]. cbn. apply calm_bind; [by apply calm_isKey|]. intros b _.
  apply calm_bind; [done|by intros].
Qed.

Lemma calm_rebuild ps i : Forall (fun p => prop_sound (Some p)) ps -> Forall prop_sound (ci_properties i) -> calm (rebuild ps i).
Proof.
  intros Hps Hi. apply calm_bind.
  - induction Hps as [|p ps Hp _ IH]; [done|]. cbn. apply calm_bind; [by apply calm_isKey|]. by intros [] _.
  - intros [] _; [|done]. apply calm_bind; [by apply calm_key_props|by intros].
Qed.

Lemma calm_setProperty i p : Forall prop_sound (ci_properties i) -> prop_sound (Some p) -> calm (setProperty i (Some p)).
Proof.
  intros Hi Hp. unfold setProperty. apply calm_bind; [by eapply calm_locate, there_some|].
  intros [[k cp]|] E; apply calm_rebuild; cbn.
  - apply locate_some in E as (El & _). eapply Forall_lookup_1 in El; [|exact Hi]. by apply Forall_cons, conj, Forall_singleton.
  - by apply Forall_insert.
  - by apply Forall_singleton.
  - apply Forall_app. split; [done|by apply Forall_singleton].
Qed.

Lemma createKey_sound : qual_sound (Some createKeyQualifier).
Proof. intros v [= <-] _. by eexists. Qed.

(** An instance that has been read is refused or completed. *)
Lemma namespace_returns d : inst_sound (Some d) ->
  match namespace_instance d with Val _ => True | Exn e => exn_fit e | Stuck => False end.
Proof.
  intros Hd. cbn in Hd. unfold namespace_instance. destruct (equalsIgnoreCase _ _); [|done].
  assert (forall A (o : outcome A), calm o -> match result_of o with Val _ => True | Exn e => exn_fit e | Stuck => False end) as Hr.
  { intros A o Ho. destruct o as [x|e| |]; try done. cbn. unfold exn_of. case_bool_decide; [|done]. by apply text_ok. }
  assert (calm (getProperty d (txt "Name"))) as Hc.
  { apply calm_bind; [by eapply calm_locate, there_some|by intros]. }
  destruct (getProperty d (txt "Name")) as [[p|]|e| |] eqn:E; try done.
  - apply Hr. unfold getProperty in E. destruct (locate _ _) as [[[k p']|]| | |] eqn:El; try done. injection E as ->.
    apply locate_some in El as (El & _). eapply Forall_lookup_1 in El; [|exact Hd].
    apply calm_bind; [by apply calm_isKey|]. intros b _. apply (calm_bind _ _).
    + destruct b; [done|]. apply calm_bind; [destruct El as [_ Hq]; by eapply calm_locate, there_some|]. by intros [] _.
    + intros q Eq. apply calm_setProperty; [done|]. destruct b; [by injection Eq as <-|].
      unfold addQualifier in Eq. destruct (locate _ _) as [[]| | |]; try done. injection Eq as <-.
      destruct El as [Ht Hq]. split; [done|]. cbn. apply Forall_app. split; [done|]. apply Forall_singleton, createKey_sound.
  - by apply text_ok.
  - by apply (Hr _ (Throw e ;; Crash : outcome _)).
Qed.
End Namespace.

(** ** Arguments *)

Section Arguments.
Context {bx : Blocxx} {ss : StringSearch} {sc : StringConv} {bl : BlocxxLaws} (asserts : bool).

Definition returns {A} (r : Prog bytes A) : Prop := forall l, behaves 0 r l.

Lemma returns_bind {A B} (m : Prog bytes A) (k : A -> Prog bytes B) : returns m -> (forall x, returns (k x)) -> returns (m ≫= k).
Proof. intros Hm Hk l. apply (behaves_bind 0 0); [apply Hm|]. intros. apply Hk. Qed.

Lemma returns_ret {A} (x : A) : returns (mret x).
Proof. intros l. apply behaves_ret. Qed.

Lemma returns_some {A} k (r : Prog bytes A) : (forall l, behaves k r l) -> returns r.
Proof. intros H l. eapply behaves_weaken; [apply H|lia]. Qed.

Lemma returns_if {A} (b : bool) (r r' : Prog bytes A) : returns r -> returns r' -> returns (if b then r else r').
Proof. by destruct b. Qed.

Lemma returns_steady {A} k (r : Prog bytes A) : (forall n, steady n k r r) -> returns r.
Proof. intros H l. eapply behaves_weaken; [by apply (H (length l) l)|lia]. Qed.

Lemma readString_returns : returns readString.
Proof. eapply returns_some, readString_behaves. Qed.
Lemma readBool_returns : returns readBool.
Proof. apply returns_bind; [eapply returns_steady; intros; apply steady_verify|]. intros _. eapply returns_steady. intros. apply steady_Bool. Qed.
Lemma readPropertyList_returns : returns readPropertyList.
Proof.
  apply returns_bind; [apply readBool_returns|]. intros b. apply returns_if; [apply returns_ret|].
  apply returns_bind; [|intros; apply returns_ret]. apply returns_bind; [eapply returns_steady; intros; apply steady_verify|].
  intros _. eapply returns_steady. intros. eapply steady_array, steady_String.
Qed.
Lemma readParamValues_returns : returns (readParamValues asserts).
Proof.
  apply returns_bind; [eapply returns_steady; intros; apply steady_verify|]. intros _. eapply returns_steady. intros n.
  apply (steady_array n 1), steady_refl. intros l. apply steady_with_values. intros m rV rV' H. by apply good_param.
Qed.
Lemma BIN_readValue_returns : returns (BIN_readValue asserts).
Proof.
  apply returns_bind; [apply readBool_returns|]. intros b. apply returns_if; [|apply returns_ret]. eapply returns_some, CIMValue_behaves.
Qed.
End Arguments.

(** The arguments of a function: each of them is read by a reader that returns. *)
Ltac returning :=
  repeat (apply returns_bind; [first
    [ apply readString_returns | apply readBool_returns | apply readPropertyList_returns | apply readParamValues_returns
    | apply BIN_readValue_returns | eapply returns_some, CIMObjectPath_behaves | eapply returns_some, CIMClass_behaves
    | eapply returns_some, CIMInstance_behaves | eapply returns_some, CIMQualifierType_behaves ]|intros ?]);
  first [apply returns_ret|apply readString_returns].

(** ** The handlers *)

Section Handlers.
Context {bx : Blocxx} {ss : StringSearch} {sc : StringConv} {bl : BlocxxLaws} (asserts : bool).
Context {S : Type} (handle : forall A, Op A -> S -> result A * S).
Context (host : bytes) (m_supportExportIndication : bool) (describe : exn -> bytes).
Context (describe_ok : forall e, string_ok (describe e)).
Abbreviation conn := (@conn S).

(** Either the handle has not been called, and there is an exception to report,
   or it has been called once; its exceptions are passed on. *)
Definition called (s : S) (r : result () * conn) : Prop :=
  (exists e, fst r = Exn e /\ exn_fit e /\ cimom (snd r) = s) \/
  (exists A (o : Op A), cimom (snd r) = snd (handle A o s) /\ forall e, fst (handle A o s) = Exn e -> fst r = Exn e).

Definition careful (h : M conn ()) : Prop := forall s i, called s (h (mkConn s i [])).

(** What does not call the handle. *)
Definition quiet {A} (m : M conn A) : Prop := forall c, cimom (snd (m c)) = cimom c.

Lemma quiet_bind {A B} (m : M conn A) (k : A -> M conn B) : quiet m -> (forall x, quiet (k x)) -> quiet (m ≫= k).
Proof.
  intros Hm Hk c. unfold mbind, M_bind. specialize (Hm c). destruct (m c) as [[x|e|] c']; [|done..]. by rewrite Hk.
Qed.

Lemma quiet_put p : quiet (put p).
Proof. intros c. unfold put. by destruct (p (ostrm c)) as [[] o]. Qed.

Lemma careful_args {X} (r : Prog bytes X) P (k : X -> M conn ()) :
  returns r -> gives r P -> (forall x, P x -> careful (k x)) -> careful (x ← get_arg r; k x).
Proof.
  intros Hr Hg Hk s i. unfold mbind, M_bind, get_arg. cbn [istrm cimom ostrm]. specialize (Hr i). unfold behaves in Hr.
  destruct (r i) as [[x|e| |] i'] eqn:E; try done.
  - apply (Hk x (Hg _ _ _ E)).
  - left. by exists (OtherExn e).
Qed.

Lemma careful_args' {X} (r : Prog bytes X) (k : X -> M conn ()) :
  returns r -> (forall x, careful (k x)) -> careful (x ← get_arg r; k x).
Proof. intros Hr Hk. apply (careful_args r (fun _ => True)); [done|done|auto]. Qed.

Lemma careful_call {A} (o : Op A) (k : A -> M conn ()) : (forall y, quiet (k y)) -> careful (y ← call handle o; k y).
Proof.
  intros Hk s i. right. exists A, o. unfold mbind, M_bind, call. cbn [cimom istrm ostrm].
  destruct (handle A o s) as [[y|e|] s']; split; try done; [apply Hk|by intros ? [= ->]].
Qed.

Lemma careful_enum {X} b e (w : X -> Prog bytes ()) o : is_byte b -> careful (put_enum handle b e w o).
Proof.
  intros Hb s i. right. exists (enumeration X), o. unfold put_enum, enumerate, mbind, M_bind.
  rewrite (put_writes _ _ _ _ _ (byte_writes BIN_OK ltac:(done))), (put_writes _ _ _ _ _ (byte_writes b Hb)).
  unfold call. cbn [cimom istrm ostrm]. destruct (handle _ o s) as [[y|x|] s']; split; try done; [|by intros ? [= ->]]. cbn [fst snd].
  pose proof (quiet_put (write_each w (items y)) (mkConn s' i (([] ++ [BIN_OK]) ++ [b]))) as H1.
  destruct (put (write_each w (items y)) _) as [[]  c1]; [|done..]. destruct (failed y); [done|]. cbn.
  pose proof (quiet_put (writeInt 1 e) c1) as H2. destruct (put _ c1) as [[] c2]; [|cbn in *; congruence..].
  pose proof (quiet_put (writeInt 1 e) c2) as H3. cbn in *. congruence.
Qed.

Lemma gives_pair {A B} (r : Prog bytes A) (f : Prog bytes B) P : gives f P -> gives (x ← r; y ← f; mret (x, y)) (fun z => P z.2).
Proof. intros H. apply gives_any. intros x. eapply gives_bind; [exact H|]. intros y Hy. by apply gives_ret. Qed.

Ltac quieting := repeat first [apply quiet_put | apply quiet_bind; [|intros ?]].
Ltac served := first [apply careful_call; intros ?; repeat case_match; quieting | by apply careful_enum].
Ltac handler := apply careful_args'; [returning|]; intros ?; repeat case_match; served.

Lemma createInstance_careful : careful (h_createInstance asserts handle).
Proof.
  unfold h_createInstance. eapply careful_args; [returning|apply gives_pair, gives_CIMInstance|].
  intros [ns [d|]] Hd; [|done]. intros s i. pose proof (namespace_returns d Hd) as H. unfold mbind at 1, M_bind at 1.
  destruct (namespace_instance d) as [d'|e|]; [| |done].
  - revert s i. change (careful (newPath ← call handle (CreateInstance ns (Some d')); ok ;; put (CIMObjectPath_writeObject asserts newPath))). served.
  - left. by exists e.
Qed.

Lemma associators_careful : careful (h_associators asserts handle).
Proof.
  unfold h_associators. eapply (careful_args _ (fun z => path_sound z.1.1.1.1.1.1.1.2)); [returning| |].
  - apply gives_any. intros ns. eapply gives_bind; [apply gives_CIMObjectPath|]. intros p Hp. repeat (apply gives_any; intros ?). by apply gives_ret.
  - intros [[[[[[[[ns [d|]] ac] rc] r] rr] iq] ico] pl]; [|done]. intros [n Hn]. destruct (isClassPath d); [|served].
    unfold path_setNameSpace. rewrite Hn. served.
Qed.

Lemma references_careful : careful (h_references asserts handle).
Proof.
  unfold h_references. eapply (careful_args _ (fun z => path_sound z.1.1.1.1.1.2)); [returning| |].
  - apply gives_any. intros ns. eapply gives_bind; [apply gives_CIMObjectPath|]. intros p Hp. repeat (apply gives_any; intros ?). by apply gives_ret.
  - intros [[[[[[ns [d|]] rc] r] iq] ico] pl]; [|done]. intros _. destruct (isClassPath d); served.
Qed.

(** A function that is not known does nothing. *)
Lemma dispatch_careful f : (exists h, careful h /\ forall c, dispatch asserts handle host m_supportExportIndication f c = (h ;; mret None) c) \/
  exists msg, string_ok msg /\ forall c, dispatch asserts handle host m_supportExportIndication f c = (Val (Some msg), c).
Proof.
  unfold dispatch.
  repeat (case_match; [first [left; eexists; split; [|done]; first
    [apply createInstance_careful|apply associators_careful|apply references_careful|handler|served] | idtac]|]).
  all: right; eexists; (split; [|done]); by apply text_ok.
Qed.

(** The reply makes the client raise an exception, and leaves nothing to read. *)
Definition refuses (rep : reply) : Prop :=
  forall (s : S) n, exists e, checkError (mkClient s (response rep) n) = (Exn e, mkClient s [] (n + 1)).

(** What [doProcess] comes to: nothing has been called and the client hears of
   it, or the handle has been called, once, and its exception is the reply. *)
Definition processed (s : S) (r : result reply * S) : Prop :=
  (snd r = s /\ exists rep, fst r = Val rep /\ refuses rep) \/
  (exists A (o : Op A), snd r = snd (handle A o s) /\
    forall e, fst (handle A o s) = Exn e -> exn_fit e ->
      exists rep, fst r = Val rep /\ hasError rep = true /\ writes (error_prog describe e) (response rep)).

Lemma error_reply p entity b : writes p b ->
  match error_text p with Val e => Val (mkReply entity e true) | Exn e => Exn e | Stuck => Stuck end = Val (mkReply entity b true).
Proof. intros H. unfold error_text. by rewrite H. Qed.

Lemma refuses_error entity e b : exn_fit e -> writes (error_prog describe e) b -> refuses (mkReply entity b true).
Proof.
  intros He Hb s n. destruct (error_written (S := S) describe describe_ok e He) as (b' & Hb' & H).
  rewrite (writes_unique _ _ _ Hb Hb'). exists (sent e). unfold checkError, ending, response. cbn [hasError ostrError]. by rewrite H.
Qed.

Lemma refuses_text entity msg b : string_ok msg -> writes (writeError msg) b -> refuses (mkReply entity b true).
Proof.
  intros Hm Hb s n. destruct (writeError_read (S := S) msg Hm) as (b' & Hb' & H).
  rewrite (writes_unique _ _ _ Hb Hb'). eexists. unfold checkError, ending, response. cbn [hasError ostrError]. by rewrite H.
Qed.

Lemma refuses_empty b : refuses (mkReply [] b false).
Proof. intros s n. by exists (OtherExn IOException). Qed.

Lemma getFunction_returns (s : S) req : match getFunction (mkConn s req []) with
  | (Val _, c) => cimom c = s /\ ostrm c = []
  | (Exn _, c) => cimom c = s
  | (Stuck, _) => False
  end.
Proof.
  assert (forall k l, match get_arg (readUInt k) (mkConn s l [] : conn) with (Val _, c) => cimom c = s /\ ostrm c = [] | (Exn _, c) => cimom c = s | (Stuck, _) => False end) as H.
  { intros k l. unfold get_arg. cbn [istrm cimom ostrm]. assert (behaves 0 (readUInt k) l) as Hb.
    { eapply (returns_steady k). intros. apply steady_readUInt. }
    unfold behaves in Hb. by destruct (readUInt k l) as [[] l']. }
  unfold getFunction. unfold mbind, M_bind. pose proof (H 4%nat req) as H4.
  destruct (get_arg (readUInt 4) _) as [[v|e|] [s1 i1 o1]]; [|done..]. cbn in H4. destruct H4 as [-> ->].
  destruct (_ || _); [done|apply H].
Qed.

End Handlers.
