(* ===== verification/BinMain.v ===== *)
(** * The binary protocol: its claims *)

From S2P Require Import Prelude Blocxx CimSerial CimData CimDateTime CimIO CimTotal CimObjects CimOps CimSync CimRef BinProtocol BinFacts.

Section Main.
Context {bx : Blocxx} {ss : StringSearch} {sc : StringConv} {bl : BlocxxLaws} (asserts : bool).
Context {S : Type} (handle : forall A, Op A -> S -> result A * S).
Context (host : bytes) (m_supportExportIndication : bool) (describe : exn -> bytes) (getFeatures : M (@client S) CIMFeatures).

Ltac arg := first
  [ by apply writeString_trip | apply writeBool_trip | by apply path_trip | by apply class_trip | by apply instance_trip
  | by apply qualtype_trip | by apply propertyList_trip | by apply nvalue_trip | by apply params_trip ].
Ltac args := repeat first
  [ eapply trip_bind; [arg|cbn beta] | eapply trip_eq; [eapply trip_last; arg|reflexivity] | arg ].
Ltac serve := split; [done|intros ?; reflexivity].

Context (describe_ok : forall e, string_ok (describe e)).
Abbreviation client_call := (client_call asserts handle host m_supportExportIndication describe getFeatures).
Abbreviation remote := (remote handle host).

Ltac void := eapply void_call; [done| |serve| |]; [args|reflexivity|by destruct (fst _)].
Ltac enum L := eapply L; [done| |serve| |]; [args|reflexivity|done].
Ltac object f := eapply object_call with (sd := f); [done| |serve| |]; [args|reflexivity|];
  destruct (fst _); [|done..];
  match goal with H : exists _, _ /\ _ |- _ =>
    let y := fresh "y" in let E := fresh "E" in destruct H as (y & E & ?); exists y; split; [exact E|];
    first [injection E as <-; arg | rewrite (writeOutInstance_eq asserts _ _ _ E); arg]
  end.


(** The operations that do more than pass their arguments on. *)
Lemma invoke_call ns path m ps s i n : let o := InvokeMethod ns path m ps in
  op_fit m_supportExportIndication o -> outcome_fit handle host o s -> client_call o (mkClient s i n) = finish n (remote o s).
Proof.
  intros o (H1 & H2 & H3 & H4) Ho. unfold o, remote, outcome_fit in *. cbn [refused served sending arrived reply_fit] in *.
  eapply value_call with (sd := Some) (wr := fun r => put (BIN_writeValue asserts r.1) ;; put (writeParamValues asserts r.2));
    [done| |serve| |]; [args| |].
  - unfold mbind, M_bind. by destruct (call _ _ _) as [[[]|e|] c].
  - destruct (fst _) as [[v l]|e|]; [|done..]. destruct Ho as (y & [= <-] & Hv & Hl). simpl in *.
    destruct (nvalue_trip asserts v Hv) as (b1 & Hw1 & Hr1). destruct (params_trip asserts l Hl) as (b2 & Hw2 & Hr2).
    exists (v, l), (b1 ++ b2). split; [done|]. split.
    + eapply reads_bind; [exact Hr1|]. intros rest. unfold mbind, Prog_bind. by rewrite Hr2.
    + intros s' i' o'. unfold mbind, M_bind. by rewrite (put_writes _ _ _ _ _ Hw1), (put_writes _ _ _ _ _ Hw2), app_assoc.
Qed.

Lemma create_call ns ci s i n : let o := CreateInstance ns ci in
  op_fit m_supportExportIndication o -> outcome_fit handle host o s -> client_call o (mkClient s i n) = finish n (remote o s).
Proof.
  intros o (H1 & H2) Ho. unfold o, remote, outcome_fit in *. cbn [refused served sending arrived reply_fit] in *.
  destruct ci as [d|]; [|done].
  assert (forall Q : M (@client S) CIMObjectPath,
    Q (mkClient s i n) = finish n match namespace_instance d with
      | Val d => match handle _ (CreateInstance (prepareNamespace ns) (Some d)) s with
                 | (Val x, s') => (Val x, s')
                 | (Exn e, s') => (Exn (sent e), s')
                 | (Stuck, s') => (Stuck, s')
                 end
      | Exn e => (Exn (sent e), s)
      | Stuck => (Stuck, s)
      end ->
    (rval ← Q; match rval ≫= fun d => path_setNameSpace d (prepareNamespace ns) with Some d => mret (Some d) | None => stuck end)
      (mkClient s i n) = finish n (remote (CreateInstance ns (Some d)) s)) as HQ.
  { intros Q E. unfold mbind at 1, M_bind at 1. rewrite E. unfold remote. cbn [refused served sending arrived].
    destruct (namespace_instance d) as [d'|e|]; [|done..]. destruct (handle _ _ s) as [[x|e|] s']; [|done..].
    unfold finish. cbn [fst snd]. by destruct (x ≫= _). }
  change (client_call (CreateInstance ns (Some d)) (mkClient s i n) = finish n (remote (CreateInstance ns (Some d)) s)).
  rewrite <- HQ with (Q := request asserts handle host m_supportExportIndication describe BIN_CREATEINST
      (writeString (prepareNamespace ns) ;; CIMInstance_writeObject asserts (Some d)) ;; readCIMObject (CIMObjectPath_readObject asserts)).
  { symmetry. apply M_assoc. }
  destruct (namespace_instance d) as [d'|e|] eqn:Hd; [| |done].
  - eapply object_call with (sd := Some); [done| |serve| |]; [args| |].
    + cbn beta iota. unfold mbind at 1, M_bind at 1. cbn beta iota. rewrite Hd. reflexivity.
    + destruct (fst _); [|done..]. destruct Ho as (y & [= <-] & Hy). eexists. split; [done|arg].
  - unfold finish, readCIMObject. eapply call_fails with (c := mkConn s [] []); [done| |serve| |done]; [args|]. cbn beta iota. unfold mbind at 1, M_bind at 1. cbn beta iota. by rewrite Hd.
Qed.

(** The client has looked at the path. *)
Lemma require_path_ok {A} b msg d (m : M (@client S) A) c : isClassPath d = b -> (require_path b msg (Some d) ;; m) c = m c.
Proof. intros <-. unfold require_path. by rewrite Bool.eqb_reflx. Qed.

Lemma refused_call {A} (o : Op A) e c : refused o = Some e -> client_call o c = (Exn e, c).
Proof.
  destruct o; try discriminate; destruct path as [d|]; try discriminate; unfold refused; destruct (isClassPath d) eqn:E; try discriminate;
    intros [= <-]; cbn [BinProtocol.client_call];
    unfold c_associators, c_associatorsClasses, c_references, c_referencesClasses, require_path, mbind, M_bind; by rewrite E.
Qed.

(** One function of the protocol serves paths of both kinds. *)
Lemma associators_call {A} (o : Op A) s i n :
  match o with Associators _ _ _ _ _ _ _ _ _ | AssociatorsClasses _ _ _ _ _ _ _ _ _ | References _ _ _ _ _ _ _ | ReferencesClasses _ _ _ _ _ _ _ => True | _ => False end ->
  op_fit m_supportExportIndication o -> refused o = None -> outcome_fit handle host o s -> client_call o (mkClient s i n) = finish n (remote o s).
Proof.
  intros Hk Hop Hr Ho. unfold remote, outcome_fit in *. rewrite Hr.
  destruct o; try done; cbn [served sending arrived reply_fit op_fit] in *; destruct_and?; destruct path as [d|]; try done;
    unfold refused in Hr; destruct (isClassPath d) eqn:E; try discriminate; cbn [BinProtocol.client_call];
    unfold c_associators, c_associatorsClasses, c_references, c_referencesClasses; rewrite require_path_ok by done.
  - eapply instances_call; [done| |serve| |done]; [args|]. cbn beta iota. by rewrite E.
  - cbn [mbind option_bind] in *. destruct (path_setNameSpace d (prepareNamespace ns)) as [d'|] eqn:En; [|done].
    eapply classes_call; [done| |serve| |done]; [args|]. cbn beta iota. by rewrite E, En.
  - eapply instances_call; [done| |serve| |done]; [args|]. cbn beta iota. by rewrite E.
  - eapply classes_call; [done| |serve| |done]; [args|]. cbn beta iota. by rewrite E.
Qed.


End Main.

(** ** Examples *)

Module BinEx.
Import Ref RefBlocxx.

(** A server that counts its calls, and knows two classes. *)
Definition handle (A : Type) (o : Op A) (s : Z) : result A * Z :=
  match o in Op A return result A * Z with
  | EnumClassNames ns _ _ => (Val (mkEnum [txt "A"; ns] None), s + 1)
  | _ => (Exn (CIMExn 7 (txt "not supported")), s + 1)
  end.
Definition describe (e : exn) : bytes := txt "error".
Definition features : M (@client Z) CIMFeatures := raise (OtherExn IOException).

Lemma describe_fits e : string_ok (describe e).
Proof. by apply text_ok. Qed.


End BinEx.
