(* ===== verification/Repo.v ===== *)
(** * The repositories on top of the database: namespaces and CIM objects

   [GenericHDBRepository] (src/src/repositories/hdb/OW_GenericHDBRepository.cpp,
   .hpp) keeps a pool of at most ten database handles and stores namespaces and
   serialised CIM objects as nodes; [InstanceRepository]
   (OW_InstanceRepository.cpp) keeps a node per class below its namespace.

   The state [Repo] has the database, the pool and [m_opened].  While a handle
   is in use its [m_writeDone] flag is the one of [r_st].  Every operation
   positions the file before it uses it, so the handles' files are one file
   here.  Calls are sequential: the mutexes are not modelled. *)

From S2P Require Import Prelude FileIO HdbCommon Index Hdb HdbNode.

(** A serialisable CIM object (virtual [writeObject] and [readObject] of
   CIMBase). *)
Class CIMBase (O : Type) : Type := {
  writeObject : O -> outcome bytes;
  readObject : bytes -> outcome O;     (* throws when the data is something else *)
}.

(** What [writeObject] writes of a well-formed object, [readObject] reads. *)
Class CIMBaseLaws (O : Type) {cb : CIMBase O} : Type := {
  storable : O -> Prop;
  read_written : forall x, storable x -> exists d, writeObject x = Ok d /\ readObject d = Ok x;
}.

(** [blocxx::String::toLowerCase] *)
Class StringOps : Type := { toLowerCase : bytes -> bytes }.

(** It maps the characters of the string one by one, none of them to NUL. *)
Class StringLaws {so : StringOps} : Prop := {
  toLowerCase_length : forall s, length (toLowerCase s) = length s;
  toLowerCase_nonzero : forall s, Forall (fun c => c <> 0) s -> Forall (fun c => c <> 0) (toLowerCase s);
}.

Definition HDBNSNODE_FLAG : Z := 0x40000000.
Definition HDBCLSNODE_FLAG : Z := 0x20000000.
Definition HDBCLSASSOCNODE_FLAG : Z := 0x08000000.

Definition NS_SEPARATOR_C : Z := 58.    (* ':' *)
Definition HDL_NOTINUSE : Z := -1.
Definition HDL_NOTCACHED : Z := -2.
Definition MAXHANDLES : Z := 10.

Definition root_name : bytes := [114; 111; 111; 116].   (* "root" *)

Section Repository.
Context {F : Type} {fo : FileOps F} {I : Type} {io : IndexOps I}.

(** ** The handle pool *)

(** [HDBHandle::HDBHandleData] of a handle in the pool. *)
Record HandleData := mkHandle { m_userVal : Z; h_writeDone : bool }.

Record Repo := mkRepo {
  r_st : St F I;
  r_opened : bool;
  m_handles : list HandleData;
}.

Definition set_st (s : St F I) (r : Repo) : Repo := mkRepo s (r_opened r) (m_handles r).
Definition set_handles (l : list HandleData) (r : Repo) : Repo := mkRepo (r_st r) (r_opened r) l.

(** An operation on the database. *)
Definition on_st {A} (m : Prog (St F I) A) : Prog Repo A := fun r =>
  let (o, s) := m (r_st r) in (o, set_st s r).

Definition throwIfNotOpen : Prog Repo () := fun r =>
  if r_opened r then (Ok (), r) else (Throw "Database is not open", r).

(** The first handle of the pool that nobody uses. *)
Definition find_idle (l : list HandleData) : option (nat * HandleData) :=
  list_find (fun h => m_userVal h = HDL_NOTINUSE) l.

(** [GenericHDBRepository::getHandle]: the handle's user value, which tells
   where it is in the pool.  [fileOk]: the database file could be opened for a
   new handle; a null handle is dereferenced at once. *)
Definition repo_getHandle (fileOk : bool) : Prog Repo Z := fun r =>
  match find_idle (m_handles r) with
  | Some (i, h) =>
      (Ok (Z.of_nat i),
       mkRepo (set_writeDone (h_writeDone h) (r_st r)) (r_opened r)
         (<[i := mkHandle (Z.of_nat i) (h_writeDone h)]> (m_handles r)))
  | None =>
      match getHandle fileOk (r_st r) with
      | (Ok true, s) =>
          let s := set_writeDone false s in
          if zlen (m_handles r) <? MAXHANDLES then
            (Ok (zlen (m_handles r)),
             mkRepo s (r_opened r) (m_handles r ++ [mkHandle (zlen (m_handles r)) false]))
          else (Ok HDL_NOTCACHED, set_st s r)
      | (Ok false, s) => (Crash, set_st s r)
      | (Throw e, s) => (Throw e, set_st s r)
      | (Crash, s) => (Crash, set_st s r)
      | (Diverge, s) => (Diverge, set_st s r)
      end
  end.

(** [GenericHDBRepository::freeHandle] *)
Definition freeHandle (uv : Z) : Prog Repo () :=
  r ← get;
  when ((HDL_NOTINUSE <? uv) && (uv <? zlen (m_handles r))) (
    on_st flush ;;
    r ← get;
    put (set_handles (<[Z.to_nat uv := mkHandle HDL_NOTINUSE (m_writeDone (r_st r))]> (m_handles r)) r)).

(** The scope of an [HDBHandleLock]: its destructor frees the handle whatever
   the outcome and swallows exceptions; a handle that is not in the pool is
   destroyed with it.  [outer] is the flag of the handle that is in use around
   the scope. *)
Definition locked_scope {A} (outer : bool) (uv : Z) (body : Prog Repo A) : Prog Repo A := fun r =>
  let (res, r) := body r in
  let r := (try_catch (freeHandle uv) (fun _ => mret ()) r).2 in
  let r := if uv =? HDL_NOTCACHED then (on_st decHandleCount r).2 else r in
  (res, set_st (set_writeDone outer (r_st r)) r).

Definition with_handle {A} (fileOk : bool) (body : Prog Repo A) : Prog Repo A :=
  r ← get;
  uv ← repo_getHandle fileOk;
  locked_scope (m_writeDone (r_st r)) uv body.

(** ** Namespaces *)

Context (fileOk : bool).

(** A node whose data is its name as a C string. *)
Definition name_node (k : bytes) (fl : Z) : Prog (St F I) HDBNode :=
  handle_turnFlagsOn (newNode k (zlen k + 1) (Some (k ++ [0]))) fl.

Definition getNameSpaceNode (ck : bytes) : Prog (St F I) HDBNode :=
  if bool_decide (ck = []) then mret None
  else
    node ← getNode ck;
    match node with
    | Some n =>
        if negb (areAllFlagsOn n HDBNSNODE_FLAG) then throw "logic error. Expected namespace node"
        else mret (Some n)
    | None => mret None
    end.

Definition createNameSpace (ns : bytes) : Prog Repo Z :=
  throwIfNotOpen ;;
  with_handle fileOk (on_st (
    if bool_decide (ns = []) then mret (-1)
    else
      node ← getNode ns;
      match node with
      | None =>
          node ← name_node ns HDBNSNODE_FLAG;
          _ ← handle_addRootNode node;
          mret 0
      | Some n =>
          if negb (areAllFlagsOn n HDBNSNODE_FLAG) then
            throw "logic error. read namespace node that is not a namespace"
          else mret (-1)
      end)).

Definition deleteNameSpace (key : bytes) : Prog Repo () :=
  throwIfNotOpen ;;
  if bool_decide (key = root_name) then throw "cannot delete root namespace"
  else
    with_handle fileOk (on_st (
      node ← getNode key;
      match node with
      | Some n =>
          if negb (areAllFlagsOn n HDBNSNODE_FLAG) then throw "logic error. deleting non-namespace node"
          else _ ← removeNode (Some n); mret ()
      | None => throw "Unable to delete namespace"
      end)).

Definition nameSpaceExists (key : bytes) : Prog Repo bool :=
  throwIfNotOpen ;;
  with_handle fileOk (on_st (
    node ← getNode key;
    match node with
    | Some n => mret (areAllFlagsOn n HDBNSNODE_FLAG)
    | None => mret false
    end)).

Definition repo_checkFreeList : Prog Repo bool := fun r =>
  match getHandle fileOk (r_st r) with
  | (Ok true, s) =>
      let (res, s) := checkFreeList s in
      (res, set_st (decHandleCount s).2 r)
  | (Ok false, s) => (Crash, set_st s r)
  | (Throw e, s) => (Throw e, set_st s r)
  | (Crash, s) => (Crash, set_st s r)
  | (Diverge, s) => (Diverge, set_st s r)
  end.

(** ** Opening and closing *)

(** Dropping a handle of the pool counts it out. *)
Definition repo_close : Prog Repo () :=
  r ← get;
  when (r_opened r) (
    put (mkRepo (r_st r) false (m_handles r)) ;;
    put (mkRepo (foldr (fun _ s => (decHandleCount s).2) (r_st r) (m_handles r)) false []) ;;
    on_st close).

(** [GenericHDBRepository::open] on a repository that is closed: open the
   database, then create the root namespace (whose result is ignored) with the
   virtual [createNameSpace].  [d] is the data file on disk, [ix] the index
   opened with it. *)
Definition repo_open (createNS : bytes -> Prog Repo Z) (lockFile locked : bool) (newFile : option F) (ix : I) (d : OpenSt F)
    : outcome () * option Repo :=
  match open false lockFile locked newFile d with
  | (Ok _, mkOpen h (Some f)) =>
      let r := mkRepo (mkSt (mkHDB h 0 0 true ix) f false) true [] in
      let (res, r) := createNS root_name r in
      (match res with
       | Ok _ => Ok ()
       | Throw e => Throw e
       | Crash => Crash
       | Diverge => Diverge
       end, Some r)
  | (Ok _, mkOpen _ None) => (Crash, None)
  | (Throw e, _) => (Throw e, None)
  | (Crash, _) => (Crash, None)
  | (Diverge, _) => (Diverge, None)
  end.

(** ** CIM objects in nodes *)

Section Objects.
Context {O : Type} {cb : CIMBase O}.

(** [None] is the null object. *)
Definition nodeToCIMObject (node : HDBNode) : Prog (St F I) (option O) := fun s =>
  match node with
  | Some n => (Some <$> readObject (take (Z.to_nat (m_bfrLen n)) (default [] (m_bfr n))), s)
  | None => (Ok None, s)
  end.

Definition getCIMObject (key : bytes) : Prog (St F I) (option O) :=
  node ← getNode key; nodeToCIMObject node.

(** Both overloads of [updateCIMObject]: the first passes a null parent. *)
Definition updateCIMObject (cimObj : O) (node parentNode : HDBNode) : Prog (St F I) () :=
  d ← of_outcome (writeObject cimObj);
  '(ok, _, _) ← updateNode node parentNode (zlen d) (Some d);
  if ok : bool then mret () else throw "Failed to update repository node".

(** [node.turnFlagsOn], not [hdl.turnFlagsOn]; the result of [addChild] is
   ignored. *)
Definition addCIMObject (cimObj : O) (key : bytes) (parentNode : HDBNode) (nodeFlags : Z)
    : Prog (St F I) () :=
  d ← of_outcome (writeObject cimObj);
  '(_, node) ← turnFlagsOn (newNode key (zlen d) (Some d)) nodeFlags;
  _ ← handle_addChild parentNode node;
  mret ().

Definition addRootCIMObject (cimObj : O) (key : bytes) (nodeFlags : Z) : Prog (St F I) () :=
  d ← of_outcome (writeObject cimObj);
  '(_, node) ← turnFlagsOn (newNode key (zlen d) (Some d)) nodeFlags;
  _ ← handle_addRootNode node;
  mret ().
End Objects.

(** ** Class nodes of the instance repository *)

Section Instances.
Context {so : StringOps}.

Definition makeClassKey (ns className : bytes) : bytes :=
  toLowerCase (ns ++ [NS_SEPARATOR_C] ++ className).

(** [InstanceRepository::createClass] for a class of that name. *)
Definition inst_createClass (ns className : bytes) : Prog Repo () :=
  throwIfNotOpen ;;
  with_handle fileOk (on_st (
    pnode ← getNameSpaceNode ns;
    match pnode with
    | None => throw "CIMException::INVALID_NAMESPACE"
    | Some p =>
        let ckey := makeClassKey ns className in
        node ← getNode ckey;
        match node with
        | Some _ => throw "CIMException::ALREADY_EXISTS"
        | None =>
            node ← name_node ckey (Z.lor HDBNSNODE_FLAG HDBCLSNODE_FLAG);
            _ ← handle_addChild (Some p) node;
            mret ()
        end
    end)).

(** [InstanceRepository::deleteClass]: the result of [removeNode] is ignored. *)
Definition inst_deleteClass (ns className : bytes) : Prog Repo () :=
  throwIfNotOpen ;;
  with_handle fileOk (on_st (
    let ckey := makeClassKey ns className in
    node ← getNode ckey;
    match node with
    | Some n =>
        if negb (areAllFlagsOn n HDBCLSNODE_FLAG) then throw "Expected class name node for instances"
        else _ ← removeNodeKey ckey; mret ()
    | None => _ ← removeNodeKey ckey; mret ()
    end)).

Definition classHasInstances (ns className : bytes) : Prog Repo bool :=
  throwIfNotOpen ;;
  with_handle fileOk (on_st (
    node ← getNode (makeClassKey ns className);
    match node with
    | Some n =>
        if negb (areAllFlagsOn n HDBCLSNODE_FLAG) then throw "Expected class name node for instances"
        else mret (hasChildren n)
    | None => mret false
    end)).
End Instances.
End Repository.

Arguments Repo : clear implicits.
