(* ===== verification/CimStore.v ===== *)
(** * CIM objects as the repositories store them

   The interface [CIMBase] of the repositories, implemented by the objects of
   src/src/cim: qualifier types, classes and instances are written to a
   [DataOStreamBuf] and read from a [DataIStreamBuf] over the data of a node.
   The laws of the interface are the round trips of the objects. *)

From S2P Require Import Prelude Blocxx CimSerial CimData CimIO CimTotal CimObjects.
From S2P Require Import FileIO HdbCommon Index Hdb HdbNode Repo.

(** The bytes in an output stream that was empty. *)
Definition written (m : Prog bytes ()) : outcome bytes :=
  match m [] with
  | (Ok _, s) => Ok s
  | (Throw e, _) => Throw e
  | (Crash, _) => Crash
  | (Diverge, _) => Diverge
  end.

(** The data of an object read from the beginning of the bytes. *)
Definition read_from {A} (m : Prog bytes (option A)) (b : bytes) : outcome A := (m b).1 ≫= present.

Lemma stored_trip {A} (w : Prog bytes ()) (r : Prog bytes (option A)) x :
  trip w r (Some x) -> exists d, written w = Ok d /\ read_from r d = Ok x.
Proof.
  intros (b & Hw & Hr). exists b. unfold written, read_from. rewrite Hw. split; [done|].
  specialize (Hr []). rewrite app_nil_r in Hr. by rewrite Hr.
Qed.

Section Store.
Context {bx : Blocxx} {ss : StringSearch} {sc : StringConv} {bl : BlocxxLaws} (asserts : bool).

Definition QualifierType_base : CIMBase (QUALTData CIMValueImpl) := {|
  writeObject d := written (CIMQualifierType_writeObject asserts (Some d));
  readObject := read_from (CIMQualifierType_readObject asserts) |}.

Program Definition QualifierType_laws : @CIMBaseLaws _ QualifierType_base := {|
  storable d := qualt_ok d /\ Forall value_ok (qualt_values d) |}.
Next Obligation. intros d [H1 H2]. by apply stored_trip, CIMQualifierType_trip. Qed.

Definition Class_base : CIMBase (CLSData CIMValueImpl) := {|
  writeObject d := written (CIMClass_writeObject asserts (Some d));
  readObject := read_from (CIMClass_readObject asserts) |}.

Program Definition Class_laws : @CIMBaseLaws _ Class_base := {|
  storable d := cls_ok d /\ Forall value_ok (cls_values d) |}.
Next Obligation. intros d [H1 H2]. by apply stored_trip, CIMClass_trip. Qed.

Definition Instance_base : CIMBase (INSTData CIMValueImpl) := {|
  writeObject d := written (CIMInstance_writeObject asserts (Some d));
  readObject := read_from (CIMInstance_readObject asserts) |}.

Program Definition Instance_laws : @CIMBaseLaws _ Instance_base := {|
  storable d := inst_ok d /\ Forall value_ok (inst_values d) |}.
Next Obligation. intros d [H1 H2]. by apply stored_trip, CIMInstance_trip. Qed.
End Store.
