(* ===== verification/CimMain.v ===== *)
(** * The theorems on CIM objects

   The properties of the objects of src/src/cim and of their serialisation, with
   witnesses over a concrete library of streams. *)

From S2P Require Import Prelude Blocxx CimSerial CimData CimDateTime CimTypeNames CimIO CimTotal.
From S2P Require Import CimObjects CimOps CimRef.
Import CIMDataType.

Section Objects.
Context {bx : Blocxx} {ss : StringSearch} {sc : StringConv} {bl : BlocxxLaws} (asserts : bool).

(** C35: what [writeObject] writes of a well-formed value, qualifier type,
   class, instance or object path, however deep the objects inside nest,
   [readObject] reads back as the same object, and takes no other byte.  An
   enumeration written object by object and closed by its end signature is read
   back complete, in order, and up to its end. *)
Theorem cim_objects_roundtrip :
  (forall o, value_fit o -> trip (CIMValue_writeObject asserts o) (CIMValue_readObject asserts) o) /\
  (forall o, qualt_fit o -> trip (CIMQualifierType_writeObject asserts o) (CIMQualifierType_readObject asserts) o) /\
  (forall o, class_fit o -> trip (CIMClass_writeObject asserts o) (CIMClass_readObject asserts) o) /\
  (forall o, instance_fit o -> trip (CIMInstance_writeObject asserts o) (CIMInstance_readObject asserts) o) /\
  (forall o, path_fit o -> trip (CIMObjectPath_writeObject asserts o) (CIMObjectPath_readObject asserts) o) /\
  (forall l, Forall class_fit l -> trip (writeClassEnum asserts l) (readClassEnum asserts) l) /\
  (forall l, Forall instance_fit l -> trip (writeInstanceEnum asserts l) (readInstanceEnum asserts) l) /\
  (forall l, Forall path_fit l -> trip (writeObjectPathEnum asserts l) (readObjectPathEnum asserts) l) /\
  (forall l, Forall qualt_fit l -> trip (writeQualifierTypeEnum asserts l) (readQualifierTypeEnum asserts) l) /\
  (forall l, Forall string_ok l -> trip (writeStringEnum l) readStringEnum l).
Proof using bl.
  split_and!; intros o Ho; [by apply cimvalue_trip|by apply qualtype_trip|by apply class_trip|by apply instance_trip|by apply path_trip|
    by apply classEnum_trip|by apply instanceEnum_trip|by apply objectPathEnum_trip|by apply qualifierTypeEnum_trip|by apply stringEnum_trip].
Qed.

(** C36: whatever the bytes are, reading an object returns or throws: it ends,
   follows no null reference, and takes at least one byte for an object. *)
Theorem cim_read_total l :
  behaves 1 (CIMValue_readObject asserts) l /\ behaves 1 (CIMQualifierType_readObject asserts) l /\
  behaves 1 (CIMClass_readObject asserts) l /\ behaves 1 (CIMInstance_readObject asserts) l /\
  behaves 1 (CIMObjectPath_readObject asserts) l.
Proof using bl.
  split_and!; [apply CIMValue_behaves|apply CIMQualifierType_behaves|apply CIMClass_behaves|apply CIMInstance_behaves|
    apply CIMObjectPath_behaves].
Qed.

End Objects.

(** The scanner for type names says of every ASCII text what the comparison
   with one name after the other says, and knows the name that [toString] gives
   each of the fifteen simple types. *)
Theorem type_names_recognised sg :
  (forall s, Forall (fun c => 0 < c < 128) s -> strToSimpleType sg s = Ok (strToSimpleType_slow s)) /\
  (forall t, 1 <= t <= 15 -> strToSimpleType sg (typeToString t) = Ok t).
Proof. split; [apply scan_slow|apply type_names]. Qed.

(** C37: the text of a date or of an interval has 25 characters, fits the buffer
   and is read back; a text of at most 25 characters is read or refused by the
   mark in its 22nd place, and never overflows a number.  An interval made from
   microseconds names exactly that time, with fields within their ranges, when
   the seconds fit into 32 bits; dates of the calendar with the same offset from
   UTC are ordered by year, month, day and time. *)
Theorem datetime_correct :
  (forall d, date_ok d \/ interval_ok d -> exists s, toString d = Ok s /\ zlen s = 25 /\ CIMDateTime_ofString s = Ok d) /\
  (forall s, zlen (c_str s) <= 25 ->
   if bool_decide (c_str s = []) || bool_decide (mark s ∈ [58; 43; 45]) then exists d, CIMDateTime_ofString s = Ok d
   else CIMDateTime_ofString s = Throw CIMDateTimeException) /\
  (forall us, 0 <= us < 2 ^ 32 * 1000000 ->
   let d := CIMDateTime_ofMicroSeconds us in
   interval_ok d /\ m_hours d < 24 /\ m_minutes d < 60 /\ m_seconds d < 60 /\
   (((m_days d * 24 + m_hours d) * 60 + m_minutes d) * 60 + m_seconds d) * 1000000 + m_microSeconds d = us) /\
  (forall x y, calendar_date x -> calendar_date y -> m_utc x = m_utc y ->
   datetime_lt x y = Ok (StrictWeakOrdering
     [(m_year x, m_year y); (m_month x, m_month y); (m_days x, m_days y); (m_hours x, m_hours y);
      (m_minutes x, m_minutes y); (m_seconds x, m_seconds y); (m_microSeconds x, m_microSeconds y)])).
Proof.
  split_and!; [intros d [H|H]; [by apply date_text|by apply interval_text]|apply ofString_total|
    apply ofMicroSeconds_exact|apply datetime_lt_calendar].
Qed.

Section Instances.
Context {bx : Blocxx} {sc : StringConv} {nl : NameLaws} (asserts : bool).
Context (cast : CIMValueImpl -> DTData -> outcome CIMValue).

End Instances.

(** ** Concrete objects *)

Module CimEx.
Import Ref RefBlocxx.

Definition dt (t : Z) : CIMDataType_ := Some (mkDT t 1 SIZE_SINGLE []).
Definition int8 (x : Z) : CIMValueImpl := mkValue UINT8 false (V_int x).
Definition key_type : QUALTData CIMValueImpl := mkQualT (txt "Key") (dt BOOLEAN) [5; 8] [2] (Some (mkValue BOOLEAN false (V_int 0))).
Definition key_qual : QUALData CIMValueImpl := mkQual (txt "Key") (Some (mkValue BOOLEAN false (V_int 1))) (Some key_type) true [2] [].
Definition prop (name : bytes) (x : Z) : PROPData CIMValueImpl :=
  mkProp name [Some key_qual] (dt UINT8) 0 [] (txt "A") (Some (int8 x)) false.
Definition inner : INSTData CIMValueImpl := mkInst (txt "root") (txt "A") [Some (prop (txt "Id") 7)] [Some (prop (txt "Id") 7)] [] (txt "en").
(** A value with an array of instances inside. *)
Definition nested : CIMValueImpl := mkValue EMBEDDEDINSTANCE true (V_insts [Some inner; Some inner]).
Definition outer : INSTData CIMValueImpl :=
  mkInst (txt "root") (txt "B") [] [Some (mkProp (txt "Parts") [] (dt EMBEDDEDINSTANCE) 0 [] [] (Some nested) false)] [] [].
Definition cls : CLSData CIMValueImpl :=
  mkCls (txt "A") [] [Some key_qual] [Some (prop (txt "Id") 0)]
    [Some (mkMeth (txt "Start") (dt UINT8) [] [Some (mkParm (txt "p") (dt STRING) [])] (txt "A") [] false)] false true.
Definition url : CIMUrl := CIMUrl_parts (txt "http") (txt "host") (txt "cimom") 5988.
Definition path : OPData CIMValueImpl := mkOP (Some (mkNS (txt "root") url)) (txt "A") [Some (prop (txt "Id") 7)].

Lemma dt_fits t : 0 <= t < 100 -> dt_ok (dt t).
Proof. intros Ht. split_and!; [..|by apply text_ok]; unfold is_u32', is_s32, SIZE_SINGLE; cbn; lia. Qed.

Lemma nums_ok (P : Z -> Prop) l : (forall z, 0 <= z < 100 -> P z) -> Forall (fun z => 0 <= z < 100) l -> zlen l < 100 -> arr_ok P l.
Proof. intros HP Hl Hz. split; [by eapply Forall_impl|lia]. Qed.

Ltac nums := apply nums_ok; [unfold is_u32', is_s32; lia|repeat constructor; lia|done].

Lemma key_type_ok : qualt_ok key_type.
Proof. split_and!; [by apply text_ok|by apply dt_fits|nums|nums]. Qed.
Lemma key_qual_ok : qual_ok key_qual.
Proof. split_and!; [by apply text_ok|apply key_type_ok|nums|by apply text_ok]. Qed.
Lemma prop_ok' name x : string_ok name -> prop_ok (prop name x).
Proof.
  intros Hn. split_and!; [done|by apply text_ok|by apply text_ok|by apply dt_fits|by unfold is_s32|].
  split; [|done]. constructor; [apply key_qual_ok|constructor].
Qed.
Lemma int_fits t x size sg : int_type t = Some (size, sg) -> int_ok size sg x -> value_ok (mkValue t false (V_int x)).
Proof. intros H1 H2. apply value_ok_eq. split; [by exists size, sg|constructor]. Qed.
Lemma bool_fits x : 0 <= x < 256 -> value_ok (mkValue BOOLEAN false (V_int x)).
Proof. intros. by apply (int_fits _ _ 1 false). Qed.
Lemma int8_fits x : 0 <= x < 256 -> value_ok (int8 x).
Proof. intros. by apply (int_fits _ _ 1 false). Qed.

Ltac values := repeat (constructor; [first [by apply bool_fits|by apply int8_fits]|]); try constructor.

Lemma inner_fit : instance_fit (Some inner).
Proof.
  split; [|cbn; values]. split_and!; try by apply text_ok.
  - split; [|done]. constructor; [by apply prop_ok', text_ok|constructor].
  - split; [|done]. constructor; [by apply prop_ok', text_ok|constructor].
  - by split.
Qed.

Lemma nested_ok : value_ok nested.
Proof.
  apply value_ok_eq. split.
  - split; [done|]. split; [|done]. repeat (constructor; [apply inner_fit|]). constructor.
  - cbn; values.
Qed.

Lemma outer_fit : instance_fit (Some outer).
Proof.
  split.
  - split_and!; try (by apply text_ok); try by split. split; [|done]. constructor; [|constructor].
    split_and!; try (by apply text_ok); [by apply dt_fits|by unfold is_s32|by split].
  - constructor; [apply nested_ok|constructor].
Qed.

Lemma cls_fit : class_fit (Some cls).
Proof.
  split; [|cbn; values]. split_and!; try by apply text_ok.
  - split; [|done]. constructor; [apply key_qual_ok|constructor].
  - split; [|done]. constructor; [by apply prop_ok', text_ok|constructor].
  - split; [|done]. constructor; [|constructor]. split_and!; try (by apply text_ok); [by apply dt_fits|by split|].
    split; [|done]. constructor; [|constructor]. split_and!; [by apply text_ok|by apply dt_fits|by split].
Qed.

Lemma url_clean : parts_ok (txt "http") (txt "host") 5988 (txt "cimom").
Proof.
  split; try done; try (by vm_compute); try (apply (bool_decide_unpack _); by vm_compute).
  all: change (txt "http") with [104;116;116;112]; change (txt "host") with [104;111;115;116]; change (txt "cimom") with [99;105;109;111;109];
    unfold trimmed, is_space; cbn; lia.
Qed.

Lemma path_fits : path_fit (Some path).
Proof.
  split; [|cbn; values]. split_and!; [|by apply text_ok|].
  - split; [by apply text_ok|]. apply url_parts_ok; [apply url_clean|by apply text_ok].
  - split; [|done]. constructor; [by apply prop_ok', text_ok|constructor].
Qed.

Lemma qualt_fits : qualt_fit (Some key_type).
Proof. split; [apply key_type_ok|cbn; values]. Qed.

Lemma objects_witness :
  trip (CIMValue_writeObject true (Some nested)) (CIMValue_readObject true) (Some nested) /\
  trip (CIMInstance_writeObject true (Some outer)) (CIMInstance_readObject true) (Some outer) /\
  trip (CIMClass_writeObject true (Some cls)) (CIMClass_readObject true) (Some cls) /\
  trip (CIMObjectPath_writeObject true (Some path)) (CIMObjectPath_readObject true) (Some path) /\
  trip (CIMQualifierType_writeObject true (Some key_type)) (CIMQualifierType_readObject true) (Some key_type) /\
  trip (writeInstanceEnum true [Some outer; Some inner]) (readInstanceEnum true) [Some outer; Some inner] /\
  trip (writeObjectPathEnum true [Some path]) (readObjectPathEnum true) [Some path].
Proof.
  destruct (cim_objects_roundtrip true) as (Hv & Hq & Hc & Hi & Hp & _ & Hei & Hep & _).
  exact (conj (Hv (Some nested) nested_ok) (conj (Hi _ outer_fit) (conj (Hc _ cls_fit) (conj (Hp _ path_fits) (conj (Hq _ qualt_fits)
    (conj (Hei _ (Forall_cons_2 _ _ _ outer_fit (Forall_cons_2 _ _ _ inner_fit (Forall_nil_2 _))))
      (Hep _ (Forall_cons_2 _ _ _ path_fits (Forall_nil_2 _))))))))).
Defined.

(** A class signature, and then garbage. *)
Lemma total_witness : behaves 1 (CIMClass_readObject true) [99; 1; 255; 255; 0].
Proof. apply (cim_read_total true [99; 1; 255; 255; 0]). Defined.

Lemma names_witness : strToSimpleType true (txt "UInt64") = Ok (strToSimpleType_slow (txt "UInt64")) /\ strToSimpleType true (typeToString STRING) = Ok STRING.
Proof.
  destruct (type_names_recognised true) as [H1 H2]. split; [|apply H2; unfold STRING; lia].
  apply H1. repeat constructor.
Defined.

Definition noon : DateTimeData := mkDateTime 2004 2 29 12 0 0 500 (-60) 0.

Lemma datetime_witness : (exists s, toString noon = Ok s /\ zlen s = 25 /\ CIMDateTime_ofString s = Ok noon) /\
  CIMDateTime_ofString (txt "20040229") = Throw CIMDateTimeException /\
  interval_ok (CIMDateTime_ofMicroSeconds 90061000001) /\
  datetime_lt noon (mkDateTime 2004 3 1 0 0 0 0 (-60) 0) = Ok true.
Proof.
  destruct datetime_correct as (H1 & H2 & H3 & H4). split_and!.
  - apply H1. left. unfold date_ok. cbn. lia.
  - exact (H2 (txt "20040229") ltac:(by vm_compute)).
  - apply (H3 90061000001). lia.
  - rewrite (H4 noon (mkDateTime 2004 3 1 0 0 0 0 (-60) 0)); [by vm_compute|by vm_compute|by vm_compute|done].
Defined.

Lemma inner_unique : names_unique inner.
Proof. intros [|j] [|k] p q Hp Hq _; [done|by destruct k|by destruct j|by destruct j]. Qed.

Lemma prop_key name x : isKey (prop name x) = Ok true.
Proof. by vm_compute. Qed.

Lemma inner_keys : keys_ok inner.
Proof. unfold keys_ok. cbn [ci_properties inner key_props present mbind outcome_bind]. by rewrite prop_key. Qed.


(** [setProperty(name, value)] does not look whether the property it adds is a
   key; a reference is one. *)
Example reference_left_out :
  match setPropertyValue true (fun v _ => Ok (Some v)) inner (txt "Owner") (Some (mkValue REFERENCE false (V_ref (Some path)))) with
  | Ok i => length (ci_keys i) = 1%nat /\ match key_props (ci_properties i) with Ok ks => length ks = 2%nat | _ => False end
  | _ => False
  end.
Proof. vm_compute. split; reflexivity. Qed.
End CimEx.
