(* ===== verification/RepoFacts.v ===== *)
(** * The repositories against the forest

   [RepoOk r f]: an open repository whose database represents the forest [f]
   and whose handle pool is consistent.  The namespace and class operations are
   proved to change the forest as their names say, on every branch, and to put
   back the handle they took, also when they throw. *)

From S2P Require Import Prelude FileIO HdbCommon Index Hdb HdbHeap HdbNode HdbInv HdbAdd HdbUpdate HdbSpec HdbContract HdbHold Repo.

Lemma zlen_insert {A} i (x : A) l : zlen (<[i := x]> l) = zlen l.
Proof. unfold zlen. by rewrite length_insert. Qed.

(** A handle of the pool that nobody uses has nothing left to flush. *)
Definition idle (h : HandleData) : Prop := m_userVal h = HDL_NOTINUSE /\ h_writeDone h = false.
Definition idle_handle : HandleData := mkHandle HDL_NOTINUSE false.

Record pool_ok (l : list HandleData) : Prop := {
  po_max : zlen l <= MAXHANDLES;
  po_each : forall i h, l !! i = Some h -> idle h \/ m_userVal h = Z.of_nat i;
}.

(** A scope that takes and frees a handle leaves the pool as it was, or with
   more idle handles while there is room. *)
Definition pool_step (l l' : list HandleData) : Prop :=
  exists n, l' = l ++ replicate n idle_handle /\ (n <> 0%nat -> zlen l' <= MAXHANDLES).

Lemma pool_step_refl l : pool_step l l.
Proof. exists 0%nat. by rewrite app_nil_r. Qed.

Lemma pool_step_trans l1 l2 l3 : pool_step l1 l2 -> pool_step l2 l3 -> pool_step l1 l3.
Proof.
  intros (n & -> & Hn) (m & -> & Hm). exists (n + m)%nat. rewrite replicate_add, app_assoc. split; [done|].
  intros H. destruct m; [|auto]. rewrite app_nil_r. apply Hn. lia.
Qed.

Lemma pool_step_ok l l' : pool_ok l -> pool_step l l' -> pool_ok l'.
Proof.
  intros [Hm He] (n & -> & Hn). constructor.
  - destruct n; [by rewrite app_nil_r|]. by apply Hn.
  - intros i h Hi. apply lookup_app_Some in Hi as [Hi|[_ Hi]]; [eauto|].
    apply lookup_replicate in Hi as [-> _]. by left.
Qed.

Section RepoFacts.
Context {F : Type} {fo : FileOps F} {fl : FileLaws F}.
Context {I : Type} {io : IndexOps I} {il : IndexLaws I}.
Implicit Types (s : St F I) (f : Forest) (r : Repo F I).

Record RepoOk r f : Prop := {
  ro_opened : r_opened r = true;
  ro_pool : pool_ok (m_handles r);
  ro_db : Db (r_st r) f;
}.

(** ** What the pool changes of the database state *)

Lemma Db_same s s' f :
  Db s f -> content s' = content s -> hdr s' = hdr s -> m_version (m_pdb s') = m_version (m_pdb s) ->
  m_opened (m_pdb s') = true -> idx_map (m_pindex (m_pdb s')) = idx_map (m_pindex (m_pdb s)) -> Db s' f.
Proof.
  intros (v & A & H & HI & Hm) Ec Eh Ev Eo Ei. exists v, A. split_and!; [|done..].
  destruct H. constructor; rewrite ?Ec, ?Eh, ?Ev, ?Ei; auto.
Qed.

Lemma Db_opened s f : Db s f -> m_opened (m_pdb s) = true.
Proof. intros (v & A & H & _). apply H. Qed.

Lemma Db_writeDone b s f : Db s f -> Db (set_writeDone b s) f.
Proof. intros Hd. apply (Db_same s); auto. by apply (Db_opened s f). Qed.

Lemma Db_hdlCount n s f : Db s f -> Db (set_pdb (set_hdlCount n (m_pdb s)) s) f.
Proof. intros Hd. apply (Db_same s); auto. by apply (Db_opened s f). Qed.

Lemma flush_Db s f : Db s f -> wp flush (fun _ s' => Db s' f /\ m_writeDone s' = false /\ content s' = content s) s.
Proof.
  intros Hd. pose proof (Db_opened s f Hd) as Ho. unfold flush. wstep. wstep.
  destruct (m_writeDone s) eqn:E; unfold when; [|done].
  wstep. unfold wp at 1, flushIndex. rewrite Ho. unfold with_index. rewrite Ho.
  pose proof (idx_flush_law (m_pindex (m_pdb s))) as Hf. unfold wp in Hf.
  destruct (idx_flush (m_pindex (m_pdb s))) as [[[]| | |] ix] eqn:Ei; try done.
  cbv iota beta zeta. wstep. wstep. wstep. assert (content (set_writeDone false (set_file (f_flush (m_file s)) s)) = content s) as Ec by apply f_flush_law.
  split; [|split; [done|exact Ec]]. apply (Db_same s); auto.
Qed.

(** ** Taking a handle *)

(** How the pool looks while handle [uv], taken from pool [l0], is in use. *)
Definition taken (l0 : list HandleData) (uv : Z) (l1 : list HandleData) : Prop :=
  (exists i h, uv = Z.of_nat i /\ l0 !! i = Some h /\ idle h /\ l1 = <[i := mkHandle uv (h_writeDone h)]> l0) \/
  (find_idle l0 = None /\ zlen l0 < MAXHANDLES /\ uv = zlen l0 /\ l1 = l0 ++ [mkHandle uv false]) \/
  (uv = HDL_NOTCACHED /\ l1 = l0).

Lemma getHandle_spec r f :
  RepoOk r f ->
  exists uv r1, repo_getHandle true r = (Ok uv, r1) /\ r_opened r1 = true /\
    Db (r_st r1) f /\ content (r_st r1) = content (r_st r) /\
    taken (m_handles r) uv (m_handles r1).
Proof.
  intros [Ho Hp Hd]. unfold repo_getHandle.
  destruct (find_idle (m_handles r)) as [[i h]|] eqn:Ef.
  - apply list_find_Some in Ef as (Hi & Hu & _). eexists _, _. split; [done|]. simpl.
    split_and!; [done|by apply Db_writeDone|done|]. left. exists i, h. split_and!; auto.
    destruct (po_each _ Hp i h Hi) as [?|E]; [done|]. rewrite Hu in E. unfold HDL_NOTINUSE in E. lia.
  - unfold getHandle. rewrite (Db_opened _ _ Hd). cbn [negb].
    destruct (zlen (m_handles r) <? MAXHANDLES) eqn:E; zbool; eexists _, _; (split; [done|]); simpl;
      (split_and!; [done|by apply Db_writeDone, Db_hdlCount|done|]); [right; left|right; right]; done.
Qed.

(** ** The scope of a handle *)

Lemma freeHandle_spec i r f :
  Db (r_st r) f -> (i < length (m_handles r))%nat ->
  exists r', freeHandle (Z.of_nat i) r = (Ok (), r') /\ r_opened r' = r_opened r /\ Db (r_st r') f /\
    m_handles r' = <[i := idle_handle]> (m_handles r) /\ content (r_st r') = content (r_st r).
Proof.
  intros Hd Hi. unfold freeHandle, mbind, Prog_bind, get, when. cbv beta iota.
  assert ((HDL_NOTINUSE <? Z.of_nat i) && (Z.of_nat i <? zlen (m_handles r)) = true) as ->.
  { unfold HDL_NOTINUSE, zlen. apply andb_true_iff. split; apply Z.ltb_lt; lia. }
  pose proof (flush_Db _ _ Hd) as Hf. unfold wp in Hf. unfold on_st.
  destruct (flush (r_st r)) as [[[]| | |] s'] eqn:E; try done. destruct Hf as (Hd' & Hw & Ec).
  eexists. split; [done|]. simpl. rewrite Nat2Z.id, Hw. done.
Qed.

Lemma taken_ok l0 uv l1 : pool_ok l0 -> taken l0 uv l1 -> pool_ok l1.
Proof.
  intros [Hm He] [(i & h & -> & Hi & Hid & ->)|[(_ & Hlt & -> & ->)|[-> ->]]]; [..|done].
  - constructor; [by rewrite zlen_insert|]. intros j h' Hj. apply list_lookup_insert_Some in Hj as [(-> & <- & _)|[_ ?]]; eauto.
  - constructor; [rewrite zlen_app; unfold zlen at 2; simpl; lia|].
    intros j h' Hj. apply lookup_app_Some in Hj as [?|[Hl Hj]]; [eauto|].
    apply list_lookup_singleton_Some in Hj as [Hz <-]. right. simpl. unfold zlen. lia.
Qed.

(** Freeing it, after the pool may have grown in the scope. *)
Lemma taken_freed l0 uv l1 l2 i :
  pool_ok l0 -> taken l0 uv l1 -> pool_step l1 l2 -> uv = Z.of_nat i ->
  (i < length l2)%nat /\ pool_step l0 (<[i := idle_handle]> l2).
Proof.
  intros Hp [(i' & h & -> & Hi & [Hu Hw] & ->)|[(_ & Hlt & -> & ->)|[-> ->]]] (n & -> & Hn) E.
  - apply Nat2Z.inj in E as <-. pose proof (lookup_lt_Some _ _ _ Hi) as Hl. split.
    + rewrite length_app, length_insert. lia.
    + exists n. rewrite insert_app_l by (by rewrite length_insert).
      rewrite list_insert_insert_eq, list_insert_id.
      * split; [done|]. intros Hz. specialize (Hn Hz). rewrite zlen_app, zlen_insert in Hn. by rewrite zlen_app.
      * rewrite Hi. destruct h. simpl in *. by subst.
  - unfold zlen in E. apply Nat2Z.inj in E as <-. split; [rewrite !length_app; simpl; lia|].
    exists (S n). rewrite <- app_assoc, insert_app_r_alt, Nat.sub_diag by done. split; [done|]. intros _.
    rewrite zlen_app in *. unfold zlen in *. simpl in *. rewrite length_replicate in *.
    rewrite length_app in Hn. simpl in Hn. destruct n; [unfold MAXHANDLES in *; lia|]. specialize (Hn ltac:(done)). lia.
  - unfold HDL_NOTCACHED in E. lia.
Qed.

Lemma locked_scope_spec {A} w uv r1 (body : Prog (Repo F I) A) res r2 f' l0 :
  pool_ok l0 -> taken l0 uv (m_handles r1) -> body r1 = (res, r2) -> RepoOk r2 f' ->
  pool_step (m_handles r1) (m_handles r2) ->
  exists r', locked_scope w uv body r1 = (res, r') /\ RepoOk r' f' /\ pool_step l0 (m_handles r') /\ content (r_st r') = content (r_st r2).
Proof.
  intros Hp Ht Eb [Ho _ Hd] Hs. unfold locked_scope. rewrite Eb. destruct (decide (0 <= uv)) as [Hu|Hu].
  - destruct (taken_freed l0 uv _ _ (Z.to_nat uv) Hp Ht Hs ltac:(lia)) as [Hi Hst].
    destruct (freeHandle_spec (Z.to_nat uv) r2 f' Hd Hi) as (r3 & E3 & Eo & Hd3 & Eh & Ec).
    rewrite Z2Nat.id in E3 by done. unfold try_catch. rewrite E3. unfold HDL_NOTCACHED. ztest.
    eexists. split; [done|]. simpl. rewrite Eh. split; [|split; [done|exact Ec]]. constructor; simpl.
    + by rewrite Eo. + rewrite Eh. by eapply pool_step_ok. + by apply Db_writeDone.
  - destruct Ht as [(? & ? & -> & _)|[(_ & _ & -> & _)|[-> Eh]]]; [lia|unfold zlen in Hu; lia|].
    unfold freeHandle, mbind, Prog_bind, get, try_catch, when. simpl. eexists. split; [done|]. simpl.
    rewrite Eh in Hs. split; [|done]. constructor; simpl; [done|by eapply pool_step_ok|].
    by apply Db_writeDone, Db_hdlCount.
Qed.

(** Whatever the body does to the repository, the scope has done, and the
   handle is back in the pool. *)
Lemma with_handle_spec {A} r f (body : Prog (Repo F I) A) :
  RepoOk r f ->
  exists r1, RepoOk r1 f /\ content (r_st r1) = content (r_st r) /\
    forall res r2 f', body r1 = (res, r2) -> RepoOk r2 f' -> pool_step (m_handles r1) (m_handles r2) ->
      exists r', with_handle true body r = (res, r') /\ RepoOk r' f' /\ pool_step (m_handles r) (m_handles r') /\ content (r_st r') = content (r_st r2).
Proof.
  intros Hr. destruct (getHandle_spec r f Hr) as (uv & r1 & Eg & Ho & Hd & Ec & Hc).
  exists r1. split_and!; [|done|].
  - constructor; [done|by eapply taken_ok; [apply Hr|]|done].
  - intros res r2 f' Eb Hr2 Hs. unfold with_handle, mbind, Prog_bind, get. rewrite Eg.
    eapply locked_scope_spec; eauto. apply Hr.
Qed.

Lemma wp_scope {A} r f (body : Prog (Repo F I) A) (Q : A -> Forest -> Prop) :
  RepoOk r f ->
  (forall r1, RepoOk r1 f -> content (r_st r1) = content (r_st r) ->
     wp body (fun a r2 => exists f', RepoOk r2 f' /\ Q a f' /\ pool_step (m_handles r1) (m_handles r2)) r1) ->
  wp (with_handle true body)
    (fun a r' => (exists f', RepoOk r' f' /\ Q a f') /\ pool_step (m_handles r) (m_handles r')) r.
Proof.
  intros Hr Hb. destruct (with_handle_spec r f body Hr) as (r1 & Hr1 & Ec & Hw).
  specialize (Hb r1 Hr1 Ec). apply wp_run in Hb as (a & r2 & E & f' & Hr2 & HQ & Hs).
  destruct (Hw (Ok a) r2 f' E Hr2 Hs) as (r' & Er & Hr' & Hs' & _). apply wp_run. exists a, r'. eauto.
Qed.

Lemma throws_scope {A} r f (body : Prog (Repo F I) A) msg :
  RepoOk r f ->
  (forall r1, RepoOk r1 f -> content (r_st r1) = content (r_st r) ->
     throws body msg (fun r2 => RepoOk r2 f /\ pool_step (m_handles r1) (m_handles r2)) r1) ->
  throws (with_handle true body) msg
    (fun r' => RepoOk r' f /\ pool_step (m_handles r) (m_handles r')) r.
Proof.
  intros Hr Hb. destruct (with_handle_spec r f body Hr) as (r1 & Hr1 & Ec & Hw).
  specialize (Hb r1 Hr1 Ec). unfold throws in *.
  destruct (body r1) as [[a|e| |] r2]; try done. destruct Hb as (-> & Hr2 & Hs).
  destruct (Hw (Throw msg) r2 f eq_refl Hr2 Hs) as (r' & -> & ? & ? & _). done.
Qed.

(** Bodies that only use the database. *)
Lemma wp_with_handle {A} r f (body : Prog (St F I) A) (Q : A -> Forest -> Prop) :
  RepoOk r f ->
  (forall s, Db s f -> content s = content (r_st r) ->
     wp body (fun a s' => exists f', Db s' f' /\ Q a f') s) ->
  wp (with_handle true (on_st body))
    (fun a r' => (exists f', RepoOk r' f' /\ Q a f') /\ pool_step (m_handles r) (m_handles r')) r.
Proof.
  intros Hr Hb. apply (wp_scope r f); [done|]. intros r1 [Ho Hp Hd] Ec.
  specialize (Hb (r_st r1) Hd Ec). apply wp_run in Hb as (a & s' & E & f' & Hd' & HQ).
  unfold wp, on_st. rewrite E. exists f'. split_and!; [by constructor|done|apply pool_step_refl].
Qed.

Lemma throws_with_handle {A} r f (body : Prog (St F I) A) msg :
  RepoOk r f ->
  (forall s, Db s f -> content s = content (r_st r) -> throws body msg (fun s' => Db s' f) s) ->
  throws (with_handle true (on_st body)) msg
    (fun r' => RepoOk r' f /\ pool_step (m_handles r) (m_handles r')) r.
Proof.
  intros Hr Hb. apply throws_scope; [done|]. intros r1 [Ho Hp Hd] Ec.
  specialize (Hb (r_st r1) Hd Ec). unfold throws, on_st in *.
  destruct (body (r_st r1)) as [[a|e| |] s']; try done. destruct Hb as [-> Hd'].
  split; [done|]. split; [by constructor|apply pool_step_refl].
Qed.

Lemma wp_throwIfNotOpen r f Q : RepoOk r f -> Q () r -> wp throwIfNotOpen Q r.
Proof. intros Hr HQ. unfold wp, throwIfNotOpen. by rewrite (ro_opened _ _ Hr). Qed.

(** Every operation starts by checking that the repository is open. *)
Lemma wp_open_bind {A} r f (k : Prog (Repo F I) A) Q : RepoOk r f -> wp k Q r -> wp (throwIfNotOpen ;; k) Q r.
Proof. intros Hr HQ. wstep. by eapply wp_throwIfNotOpen. Qed.

Lemma throws_open_bind {A} r f (k : Prog (Repo F I) A) msg Q :
  RepoOk r f -> throws k msg Q r -> throws (throwIfNotOpen ;; k) msg Q r.
Proof. intros Hr HQ. apply throws_bind. by eapply wp_throwIfNotOpen. Qed.
End RepoFacts.
