(* ===== verification/RepoOps.v ===== *)
(** * Namespaces, class nodes and stored objects

   The operations of the repositories on every branch: what they return or
   throw and how they change the forest. *)

From S2P Require Import Prelude FileIO HdbCommon Index Hdb HdbHeap Dll FreeList HdbNode HdbInv HdbAdd HdbUpdate HdbSpec HdbContract HdbHold.
From S2P Require Import Repo RepoFacts.

(** The node [n] of the forest has all the flags [fl]. *)
Definition has_flags (fl : Z) (n : FNode) : bool := Z.land (fn_flags n) fl =? fl.

(** The data of a node that only has a name. *)
Definition name_data (k : bytes) : bytes := k ++ [0].

Section Ops.
Context {F : Type} {fo : FileOps F} {fl : FileLaws F}.
Context {I : Type} {io : IndexOps I} {il : IndexLaws I}.
Implicit Types (s : St F I) (f : Forest) (r : Repo F I).

Lemma name_node_new k fl' : key_ok k -> is_u32 fl' -> zlen k + 1 + zlen (name_data k) < 4294967296 ->
  exists n, name_node (F := F) (I := I) k fl' = mret (Some n) /\ newborn k (name_data k) n /\
    flags (m_blk n) = fl'.
Proof.
  intros Hk Hfl Hs. unfold name_node.
  assert (zlen k + 1 = zlen (name_data k)) as -> by (unfold name_data; rewrite zlen_app; done).
  fold (name_data k).
  destruct (newNode_newborn k (name_data k) Hk Hs) as (n & -> & Hn & H0). by apply newborn_flags.
Qed.

Lemma room_small s f k d : Db s f -> room s k d -> zlen k + 1 + zlen d < 4294967296.
Proof. apply room_new. Qed.

Lemma room_content s s' k d : content s' = content s -> room s k d -> room s' k d.
Proof. intros E. unfold room. by rewrite E. Qed.

(** Reading a node leaves the length of the file. *)
Lemma room_view s s' v A A' f f' k d : DbV s v A f -> DbV s' v A' f' -> room s k d -> room s' k d.
Proof.
  intros H H'. unfold room.
  rewrite (rep_eof _ _ (dv_rep _ _ _ _ H)), (rep_eof _ _ (dv_rep _ _ _ _ H')). done.
Qed.

(** Look the key up; a node found has the flags that the forest has. *)
Lemma wp_getNode_case {B} s f k (m0 : Prog (St F I) B) (m1 : HDBNodeData -> Prog (St F I) B) Q :
  Db s f -> key_ok k ->
  (forall s' v A, DbV s' v A f -> f_nodes f !! k = None ->
     (forall k' d, room s k' d -> room s' k' d) -> wp m0 Q s') ->
  (forall s' v A nd n, DbV s' v A f -> f_nodes f !! k = Some n -> Held v A k nd ->
     flags (m_blk nd) = fn_flags n -> (forall k' d, room s k' d -> room s' k' d) -> wp (m1 nd) Q s') ->
  wp (node ← getNode k; match node with Some n => m1 n | None => m0 end) Q s.
Proof.
  intros (v & A & Hd)%Db_DbV Hk H0 H1. wstep. eapply hold_getNode; [done..|].
  intros s' node Hd' Hg. destruct node as [nd|]; simpl in Hg.
  - destruct (held_shows _ _ _ _ _ _ Hd' Hg) as (n & Hn & _ & _ & _ & Hfl).
    eapply H1; eauto. intros k' d. by eapply room_view.
  - eapply H0; eauto. intros k' d. by eapply room_view.
Qed.

(** The same when the continuation throws. *)
Lemma throws_getNode_case {B} s f k (m0 : Prog (St F I) B) (m1 : HDBNodeData -> Prog (St F I) B) msg Q :
  Db s f -> key_ok k ->
  (forall s' v A, DbV s' v A f -> f_nodes f !! k = None -> throws m0 msg Q s') ->
  (forall s' v A nd n, DbV s' v A f -> f_nodes f !! k = Some n -> Held v A k nd ->
     flags (m_blk nd) = fn_flags n -> throws (m1 nd) msg Q s') ->
  throws (node ← getNode k; match node with Some n => m1 n | None => m0 end) msg Q s.
Proof.
  intros (v & A & Hd)%Db_DbV Hk H0 H1. apply throws_bind. eapply hold_getNode; [done..|].
  intros s' node Hd' Hg. destruct node as [nd|]; simpl in Hg.
  - destruct (held_shows _ _ _ _ _ _ Hd' Hg) as (n & Hn & _ & _ & _ & Hfl). by eapply H1.
  - by eapply H0.
Qed.

Lemma areAllFlagsOn_has nd n fl' : flags (m_blk nd) = fn_flags n -> areAllFlagsOn nd fl' = has_flags fl' n.
Proof. intros E. unfold areAllFlagsOn, has_flags. by rewrite E. Qed.

(** ** Namespaces *)

Lemma createNameSpace_new r f ns :
  RepoOk r f -> key_ok ns -> f_nodes f !! ns = None -> room (r_st r) ns (name_data ns) ->
  wp (createNameSpace true ns) (fun c r' => c = 0 /\
    RepoOk r' (f_attach [] ns (name_data ns) HDBNSNODE_FLAG f) /\ pool_step (m_handles r) (m_handles r')) r.
Proof.
  intros Hr Hk Hf Hroom. unfold createNameSpace. eapply wp_open_bind; [done|].
  eapply wp_mono; [apply (wp_with_handle r f _ (fun c f' => c = 0 /\ f' = f_attach [] ns (name_data ns) HDBNSNODE_FLAG f) Hr)|].
  - intros s Hd Ec. rewrite bool_decide_false by apply Hk. pose proof (room_content _ _ _ _ Ec Hroom) as Hroom'.
    eapply wp_getNode_case; [done..| |].
    + intros s' v A Hd' _ Hrm. specialize (Hrm _ _ Hroom').
      destruct (name_node_new ns HDBNSNODE_FLAG Hk) as (n & -> & Hn & Hfl);
        [by unfold is_u32|by eapply room_small; [by eapply DbV_Db|]|].
      wstep. wstep. wstep. eapply wp_mono; [by apply (hold_addRoot s' v A f ns (name_data ns) n)|].
      intros b s2 [_ Hd2]. wstep. eexists. split; [exact Hd2|]. by rewrite Hfl.
    + intros s' v A nd n _ E. congruence.
  - intros c r' ((f' & Hr' & -> & ->) & Hp). done.
Qed.

Lemma createNameSpace_existing r f ns n :
  RepoOk r f -> key_ok ns -> f_nodes f !! ns = Some n ->
  if has_flags HDBNSNODE_FLAG n then
    wp (createNameSpace true ns) (fun c r' => c = -1 /\ RepoOk r' f /\ pool_step (m_handles r) (m_handles r')) r
  else
    throws (createNameSpace true ns) "logic error. read namespace node that is not a namespace"
      (fun r' => RepoOk r' f /\ pool_step (m_handles r) (m_handles r')) r.
Proof.
  intros Hr Hk Hn. unfold createNameSpace. destruct (has_flags HDBNSNODE_FLAG n) eqn:Efl.
  - eapply wp_open_bind; [done|].
    eapply wp_mono; [apply (wp_with_handle r f _ (fun c f' => c = -1 /\ f' = f) Hr)|].
    + intros s Hd Ec. rewrite bool_decide_false by apply Hk. eapply wp_getNode_case; [done..| |].
      * intros s' v A _ E. congruence.
      * intros s' v A nd n' Hd' E Hh Hfl _. simplify_eq. rewrite (areAllFlagsOn_has _ _ _ Hfl), Efl.
        cbn [negb]. wstep. exists f. split; [by eapply DbV_Db|done].
    + intros c r' ((f' & Hr' & -> & ->) & Hp). done.
  - eapply throws_open_bind; [done|]. apply throws_with_handle; [done|]. intros s Hd Ec.
    rewrite bool_decide_false by apply Hk. eapply throws_getNode_case; [done..| |].
    + intros s' v A _ E. congruence.
    + intros s' v A nd n' Hd' E Hh Hfl. simplify_eq. rewrite (areAllFlagsOn_has _ _ _ Hfl), Efl.
      split; [done|]. by eapply DbV_Db.
Qed.

Lemma createNameSpace_empty r f :
  RepoOk r f ->
  wp (createNameSpace true []) (fun c r' => c = -1 /\ RepoOk r' f /\ pool_step (m_handles r) (m_handles r')) r.
Proof.
  intros Hr. unfold createNameSpace. eapply wp_open_bind; [done|].
  eapply wp_mono; [apply (wp_with_handle r f _ (fun c f' => c = -1 /\ f' = f) Hr)|].
  - intros s Hd Ec. rewrite bool_decide_true by done. wstep. eauto.
  - intros c r' ((f' & Hr' & -> & ->) & Hp). done.
Qed.

(** Deleting a namespace removes the node and all nodes below it. *)
Lemma deleteNameSpace_existing r f ns n :
  RepoOk r f -> key_ok ns -> ns <> root_name -> f_nodes f !! ns = Some n ->
  if has_flags HDBNSNODE_FLAG n then
    wp (deleteNameSpace true ns) (fun _ r' => (exists f', f_prune f f' ns /\ RepoOk r' f') /\
      pool_step (m_handles r) (m_handles r')) r
  else
    throws (deleteNameSpace true ns) "logic error. deleting non-namespace node"
      (fun r' => RepoOk r' f /\ pool_step (m_handles r) (m_handles r')) r.
Proof.
  intros Hr Hk Hne Hn. unfold deleteNameSpace. destruct (has_flags HDBNSNODE_FLAG n) eqn:Efl.
  - eapply wp_open_bind; [done|]. rewrite bool_decide_false by done.
    eapply wp_mono; [apply (wp_with_handle r f _ (fun _ f' => f_prune f f' ns) Hr)|].
    + intros s Hd Ec. eapply wp_getNode_case; [done..| |].
      * intros s' v A _ E. congruence.
      * intros s' v A nd n' Hd' E Hh Hfl _. simplify_eq. rewrite (areAllFlagsOn_has _ _ _ Hfl), Efl.
        cbn [negb]. wstep. eapply wp_mono; [by eapply hold_removeNode|].
        intros b s2 (_ & f' & Hpr & Hd2). wstep. eauto.
    + intros c r' ((f' & Hr' & Hpr) & Hp). eauto.
  - eapply throws_open_bind; [done|]. rewrite bool_decide_false by done.
    apply throws_with_handle; [done|]. intros s Hd Ec. eapply throws_getNode_case; [done..| |].
    + intros s' v A _ E. congruence.
    + intros s' v A nd n' Hd' E Hh Hfl. simplify_eq. rewrite (areAllFlagsOn_has _ _ _ Hfl), Efl.
      split; [done|]. by eapply DbV_Db.
Qed.

Lemma deleteNameSpace_absent r f ns :
  RepoOk r f -> key_ok ns -> ns <> root_name -> f_nodes f !! ns = None ->
  throws (deleteNameSpace true ns) "Unable to delete namespace"
    (fun r' => RepoOk r' f /\ pool_step (m_handles r) (m_handles r')) r.
Proof.
  intros Hr Hk Hne Hn. unfold deleteNameSpace. eapply throws_open_bind; [done|].
  rewrite bool_decide_false by done. apply throws_with_handle; [done|]. intros s Hd Ec.
  eapply throws_getNode_case; [done..| |].
  - intros s' v A Hd' _. split; [done|]. by eapply DbV_Db.
  - intros s' v A nd n' _ E. congruence.
Qed.

Lemma deleteNameSpace_root r f :
  RepoOk r f -> throws (deleteNameSpace true root_name) "cannot delete root namespace" (fun r' => r' = r) r.
Proof.
  intros Hr. unfold deleteNameSpace. eapply throws_open_bind; [done|]. by rewrite bool_decide_true.
Qed.

Lemma nameSpaceExists_spec r f ns :
  RepoOk r f -> key_ok ns ->
  wp (nameSpaceExists true ns) (fun b r' =>
    b = match f_nodes f !! ns with Some n => has_flags HDBNSNODE_FLAG n | None => false end /\
    RepoOk r' f /\ pool_step (m_handles r) (m_handles r')) r.
Proof.
  intros Hr Hk. unfold nameSpaceExists. eapply wp_open_bind; [done|].
  eapply wp_mono; [apply (wp_with_handle r f _ (fun b f' =>
    b = match f_nodes f !! ns with Some n => has_flags HDBNSNODE_FLAG n | None => false end /\ f' = f) Hr)|].
  - intros s Hd Ec. eapply wp_getNode_case; [done..| |].
    + intros s' v A Hd' -> _. wstep. exists f. split; [by eapply DbV_Db|done].
    + intros s' v A nd n Hd' -> Hh Hfl _. rewrite (areAllFlagsOn_has _ _ _ Hfl). wstep. exists f.
      split; [by eapply DbV_Db|done].
  - intros c r' ((f' & Hr' & -> & ->) & Hp). done.
Qed.

(** ** Class nodes of the instance repository *)

Section Classes.
Context {so : StringOps} {sl : StringLaws}.

Lemma makeClassKey_ok ns c : key_ok ns -> Forall (fun x => x <> 0) c -> key_ok (makeClassKey ns c).
Proof using sl.
  intros [Hn Hz] Hc. unfold makeClassKey. split.
  - intros E. apply (f_equal length) in E. rewrite toLowerCase_length in E. by destruct ns.
  - apply toLowerCase_nonzero. apply Forall_app. split; [done|]. by apply Forall_cons.
Qed.

Definition class_flags : Z := Z.lor HDBNSNODE_FLAG HDBCLSNODE_FLAG.

Lemma wp_getNameSpaceNode {B} s f ns n (m0 : Prog (St F I) B) (m1 : HDBNodeData -> Prog (St F I) B) Q :
  Db s f -> key_ok ns -> f_nodes f !! ns = Some n -> has_flags HDBNSNODE_FLAG n = true ->
  (forall s' v A nd, DbV s' v A f -> Held v A ns nd ->
     (forall k' d, room s k' d -> room s' k' d) -> wp (m1 nd) Q s') ->
  wp (node ← getNameSpaceNode ns; match node with Some n => m1 n | None => m0 end) Q s.
Proof.
  intros Hd Hk Hn Hf H1. unfold getNameSpaceNode. rewrite bool_decide_false by apply Hk.
  wstep. eapply wp_getNode_case; [done..| |].
  - intros s' v A _ E. congruence.
  - intros s' v A nd n' Hd' E Hh Hfl Hrm. simplify_eq. rewrite (areAllFlagsOn_has _ _ _ Hfl), Hf.
    cbn [negb]. wstep. by eapply H1.
Qed.

Lemma createClass_new r f ns c n :
  RepoOk r f -> key_ok ns -> Forall (fun x => x <> 0) c ->
  f_nodes f !! ns = Some n -> has_flags HDBNSNODE_FLAG n = true ->
  let ck := makeClassKey ns c in
  f_nodes f !! ck = None -> room (r_st r) ck (name_data ck) ->
  wp (inst_createClass true ns c) (fun _ r' =>
    RepoOk r' (f_attach ns ck (name_data ck) class_flags f) /\ pool_step (m_handles r) (m_handles r')) r.
Proof using sl il fl.
  intros Hr Hk Hc Hn Hf ck Hck Hroom. pose proof (makeClassKey_ok ns c Hk Hc) as Hkk.
  unfold inst_createClass. eapply wp_open_bind; [done|].
  eapply wp_mono; [apply (wp_with_handle r f _ (fun _ f' => f' = f_attach ns ck (name_data ck) class_flags f) Hr)|].
  - intros s Hd Ec. pose proof (room_content _ _ _ _ Ec Hroom) as Hroom'.
    eapply wp_getNameSpaceNode; [done..|]. intros s1 v A p Hd1 Hp Hrm. specialize (Hrm _ _ Hroom').
    cbv zeta. fold ck. wstep. eapply hold_getNode; [done..|]. intros s2 node Hd2 Hg.
    destruct node as [nd|]; simpl in Hg.
    { destruct (held_shows _ _ _ _ _ _ Hd2 Hg) as (n' & Hn' & _). congruence. }
    pose proof (room_view _ _ _ _ _ _ _ _ _ Hd1 Hd2 Hrm) as Hrm2.
    destruct (name_node_new ck class_flags Hkk) as (nn & E & Hnn & Hfl);
      [by unfold is_u32|by eapply room_small; [by eapply DbV_Db|]|].
    fold class_flags. rewrite E. wstep. wstep. wstep.
    eapply wp_mono; [by apply (hold_addChild s2 v A f ns p ck (name_data ck) nn)|].
    intros b s3 [_ Hd3]. wstep. eexists. split; [exact Hd3|]. by rewrite Hfl.
  - intros c' r' ((f' & Hr' & ->) & Hp). done.
Qed.

(** The three reasons for which a class is refused; the forest stays. *)
Lemma createClass_no_namespace r f ns c :
  RepoOk r f -> key_ok ns -> f_nodes f !! ns = None ->
  throws (inst_createClass true ns c) "CIMException::INVALID_NAMESPACE"
    (fun r' => RepoOk r' f /\ pool_step (m_handles r) (m_handles r')) r.
Proof.
  intros Hr Hk Hn. unfold inst_createClass. eapply throws_open_bind; [done|].
  apply throws_with_handle; [done|]. intros s Hd _. apply throws_bind.
  unfold getNameSpaceNode. rewrite bool_decide_false by apply Hk. eapply wp_getNode_case; [done..| |].
  - intros s' v A Hd' _ _. wstep. split; [done|]. by eapply DbV_Db.
  - intros s' v A nd n0 _ E. congruence.
Qed.

Lemma createClass_not_namespace r f ns c n :
  RepoOk r f -> key_ok ns -> f_nodes f !! ns = Some n -> has_flags HDBNSNODE_FLAG n = false ->
  throws (inst_createClass true ns c) "logic error. Expected namespace node"
    (fun r' => RepoOk r' f /\ pool_step (m_handles r) (m_handles r')) r.
Proof.
  intros Hr Hk Hn Hf. unfold inst_createClass. eapply throws_open_bind; [done|].
  apply throws_with_handle; [done|]. intros s Hd _. apply throws_bind_l.
  unfold getNameSpaceNode. rewrite bool_decide_false by apply Hk. eapply throws_getNode_case; [done..| |].
  - intros s' v A _ E. congruence.
  - intros s' v A nd n0 Hd' E Hh Hfl. simplify_eq. rewrite (areAllFlagsOn_has _ _ _ Hfl), Hf.
    split; [done|]. by eapply DbV_Db.
Qed.

Lemma createClass_duplicate r f ns c n n' :
  RepoOk r f -> key_ok ns -> Forall (fun x => x <> 0) c ->
  f_nodes f !! ns = Some n -> has_flags HDBNSNODE_FLAG n = true ->
  f_nodes f !! makeClassKey ns c = Some n' ->
  throws (inst_createClass true ns c) "CIMException::ALREADY_EXISTS"
    (fun r' => RepoOk r' f /\ pool_step (m_handles r) (m_handles r')) r.
Proof using sl il fl.
  intros Hr Hk Hc Hn Hf Hn'. pose proof (makeClassKey_ok ns c Hk Hc) as Hkk.
  unfold inst_createClass. eapply throws_open_bind; [done|].
  apply throws_with_handle; [done|]. intros s Hd _. apply throws_bind.
  unfold getNameSpaceNode. rewrite bool_decide_false by apply Hk. eapply wp_getNode_case; [done..| |].
  - intros s' v A _ E. congruence.
  - intros s' v A nd n0 Hd' E Hh Hfl _. simplify_eq. rewrite (areAllFlagsOn_has _ _ _ Hfl), Hf.
    cbn [negb]. wstep. eapply throws_getNode_case; [by eapply DbV_Db|done| |].
    + intros s2 v2 A2 _ E2. congruence.
    + intros s2 v2 A2 nd2 n2 Hd2 _ _ _. split; [done|]. by eapply DbV_Db.
Qed.

(** Deleting a class removes its node and the instances below it; a class that
   is not there is ignored. *)
Lemma deleteClass_spec r f ns c :
  RepoOk r f -> key_ok ns -> Forall (fun x => x <> 0) c ->
  let ck := makeClassKey ns c in
  match f_nodes f !! ck with
  | None => wp (inst_deleteClass true ns c)
      (fun _ r' => RepoOk r' f /\ pool_step (m_handles r) (m_handles r')) r
  | Some n =>
      if has_flags HDBCLSNODE_FLAG n then
        wp (inst_deleteClass true ns c) (fun _ r' => (exists f', f_prune f f' ck /\ RepoOk r' f') /\
          pool_step (m_handles r) (m_handles r')) r
      else throws (inst_deleteClass true ns c) "Expected class name node for instances"
        (fun r' => RepoOk r' f /\ pool_step (m_handles r) (m_handles r')) r
  end.
Proof using sl il fl.
  intros Hr Hk Hc ck. pose proof (makeClassKey_ok ns c Hk Hc) as Hkk. fold ck in Hkk.
  unfold inst_deleteClass. fold ck. destruct (f_nodes f !! ck) as [n|] eqn:En; [destruct (has_flags HDBCLSNODE_FLAG n) eqn:Ef|].
  - eapply wp_open_bind; [done|].
    eapply wp_mono; [apply (wp_with_handle r f _ (fun _ f' => f_prune f f' ck) Hr)|].
    + intros s Hd Ec. cbv zeta. eapply wp_getNode_case; [done..| |].
      * intros s' v A _ E. congruence.
      * intros s' v A nd n' Hd' E Hh Hfl _. simplify_eq. rewrite (areAllFlagsOn_has _ _ _ Hfl), Ef.
        cbn [negb]. wstep. eapply wp_mono; [eapply db_remove; [by eapply DbV_Db|done..]|].
        intros b s2 (_ & f' & Hpr & Hd2). wstep. eauto.
    + intros x r' ((f' & Hr' & Hpr) & Hp). eauto.
  - eapply throws_open_bind; [done|]. apply throws_with_handle; [done|]. intros s Hd Ec. cbv zeta.
    eapply throws_getNode_case; [done..| |].
    + intros s' v A _ E. congruence.
    + intros s' v A nd n' Hd' E Hh Hfl. simplify_eq. rewrite (areAllFlagsOn_has _ _ _ Hfl), Ef.
      split; [done|]. by eapply DbV_Db.
  - eapply wp_open_bind; [done|].
    eapply wp_mono; [apply (wp_with_handle r f _ (fun _ f' => f' = f) Hr)|].
    + intros s Hd Ec. cbv zeta. eapply wp_getNode_case; [done..| |].
      * intros s' v A Hd' _ _. wstep. eapply wp_mono; [eapply db_remove_absent; [by eapply DbV_Db|done..]|].
        intros b s2 [_ Hd2]. wstep. eauto.
      * intros s' v A nd n' _ E. congruence.
    + intros x r' ((f' & Hr' & ->) & Hp). done.
Qed.
End Classes.
End Ops.

(** * Stored objects and opening a repository

   Objects written to a node are read back, class nodes know whether they have
   instances, and a repository opened on a new or on an existing database has
   the root namespace. *)

Section Objects.
Context {F : Type} {fo : FileOps F} {fl : FileLaws F}.
Context {I : Type} {io : IndexOps I} {il : IndexLaws I}.
Implicit Types (s : St F I) (f : Forest) (r : Repo F I).

(** ** Instances below a class node *)

Lemma held_hasChildren s v A f k nd n :
  DbV s v A f -> Held v A k nd -> f_nodes f !! k = Some n ->
  hasChildren nd = negb (bool_decide (fn_children n = [])).
Proof.
  intros Hd (o & a & c & Ha & <- & Hc & Hn) Hf. destruct Hd as [H HI Hm].
  destruct (inv_node _ _ HI o a Ha) as (l & c' & Hl & Hc' & Hck). simplify_eq.
  rewrite (models_lookup A f o a l Hm Ha Hl) in Hf. injection Hf as <-. simpl.
  unfold hasChildren. rewrite (nr_blk _ _ _ _ _ Hn), (ck_first _ _ _ Hck). f_equal.
  destruct l as [|x l]; [done|]. rewrite bool_decide_false by done. simpl.
  destruct (Inv_in_list _ _ _ _ x HI Hl ltac:(left)) as (ax & Hax & _).
  destruct (Inv_node _ _ _ _ _ H HI Hax) as (_ & _ & _ & _ & _ & Hx & _). apply Z.eqb_neq. lia.
Qed.

Section Classes.
Context {so : StringOps} {sl : StringLaws}.

Lemma classHasInstances_spec r f ns c n :
  RepoOk r f -> key_ok ns -> Forall (fun x => x <> 0) c ->
  f_nodes f !! makeClassKey ns c = Some n -> has_flags HDBCLSNODE_FLAG n = true ->
  wp (classHasInstances true ns c) (fun b r' => b = negb (bool_decide (fn_children n = [])) /\
    RepoOk r' f /\ pool_step (m_handles r) (m_handles r')) r.
Proof using sl il fl.
  intros Hr Hk Hc Hn Hf. pose proof (makeClassKey_ok ns c Hk Hc) as Hkk.
  unfold classHasInstances. eapply wp_open_bind; [done|].
  eapply wp_mono; [apply (wp_with_handle r f _ (fun b f' =>
    b = negb (bool_decide (fn_children n = [])) /\ f' = f) Hr)|].
  - intros s Hd Ec. eapply wp_getNode_case; [done..| |].
    + intros s' v A _ E. congruence.
    + intros s' v A nd n' Hd' E Hh Hfl _. simplify_eq. rewrite (areAllFlagsOn_has _ _ _ Hfl), Hf.
      cbn [negb]. wstep. exists f. split; [by eapply DbV_Db|]. split; [|done]. by eapply held_hasChildren.
  - intros b r' ((f' & Hr' & -> & ->) & Hp). done.
Qed.
End Classes.

(** ** CIM objects *)

Section Obj.
Context {O : Type} {cb : CIMBase O}.

(** The object a node holds. *)
Definition stores f (k : bytes) (x : O) : Prop :=
  exists n, f_nodes f !! k = Some n /\ readObject (fn_data n) = Ok x.

Lemma turn_newborn k d n fl' :
  newborn k d n -> is_u32 fl' -> flags (m_blk n) = 0 ->
  exists b n', turnFlagsOn (F := F) (I := I) (Some n) fl' = mret (b, Some n') /\
    newborn k d n' /\ flags (m_blk n') = fl'.
Proof.
  intros Hn Hfl H0. unfold turnFlagsOn. pose proof (nb_offset _ _ _ Hn). rewrite H0, Z.lor_0_r.
  destruct (fl' =? 0) eqn:E; zbool.
  - exists false, n. by subst fl'.
  - exists true, (set_blk (set_flags fl' (m_blk n)) n). cbn [m_offset set_blk]. ztest.
    split_and!; [done| |done]. pose proof (nb_blk _ _ _ Hn) as []. destruct Hn. constructor; auto. by constructor.
Qed.

Lemma wp_written (x : O) d (Q : bytes -> St F I -> Prop) s :
  writeObject x = Ok d -> Q d s -> wp (of_outcome (writeObject x)) Q s.
Proof. intros E HQ. unfold wp, of_outcome. by rewrite E. Qed.

Lemma addCIMObject_spec s v A f pk p k (x : O) d fl' :
  DbV s v A f -> Held v A pk p -> key_ok k -> f_nodes f !! k = None -> is_u32 fl' ->
  writeObject x = Ok d -> room s k d ->
  wp (addCIMObject x k (Some p) fl') (fun _ s' => Db s' (f_attach pk k d fl' f)) s.
Proof.
  intros Hd Hp Hk Hn Hfl Hw Hr. unfold addCIMObject. wstep. apply (wp_written x d); [done|].
  assert (zlen k + 1 + zlen d < 4294967296) as Hs by (eapply room_small; [by eapply DbV_Db|done]).
  destruct (newNode_newborn k d Hk Hs) as (n & -> & Hnb & H0).
  destruct (turn_newborn k _ n fl' Hnb Hfl H0) as (b & n' & -> & Hnb' & Hfl').
  wstep. wstep. wstep. eapply wp_mono; [by eapply hold_addChild|]. intros res s' [_ Hd']. wstep.
  by rewrite <- Hfl'.
Qed.

Lemma addRootCIMObject_spec s f k (x : O) d fl' :
  Db s f -> key_ok k -> f_nodes f !! k = None -> is_u32 fl' -> writeObject x = Ok d -> room s k d ->
  wp (addRootCIMObject x k fl') (fun _ s' => Db s' (f_attach [] k d fl' f)) s.
Proof.
  intros Hd Hk Hn Hfl Hw Hr. unfold addRootCIMObject. wstep. apply (wp_written x d); [done|].
  destruct (newNode_newborn k d Hk (room_small _ _ _ _ Hd Hr)) as (n & -> & Hnb & H0).
  destruct (turn_newborn k _ n fl' Hnb Hfl H0) as (b & n' & -> & Hnb' & Hfl').
  wstep. wstep. wstep. eapply wp_mono; [by eapply db_addRoot_node|]. intros res s' [_ Hd']. wstep.
  by rewrite <- Hfl'.
Qed.

Lemma held_data s v A f k nd n :
  DbV s v A f -> Held v A k nd -> f_nodes f !! k = Some n ->
  take (Z.to_nat (m_bfrLen nd)) (default [] (m_bfr nd)) = fn_data n.
Proof.
  intros Hd Hh Hn. destruct (held_shows _ _ _ _ _ _ Hd Hh) as (n' & Hn' & _ & -> & -> & _). simplify_eq.
  unfold zlen. rewrite Nat2Z.id. by apply take_ge.
Qed.

Lemma nodeToCIMObject_spec s v A f k nd (x : O) :
  DbV s v A f -> Held v A k nd -> stores f k x -> nodeToCIMObject (Some nd) s = (Ok (Some x), s).
Proof using fl il.
  intros Hd Hh (n & Hn & Hx). unfold nodeToCIMObject.
  rewrite (held_data _ _ _ _ _ _ _ Hd Hh Hn), Hx. done.
Qed.

Lemma getCIMObject_spec s f k (x : O) :
  Db s f -> key_ok k -> stores f k x -> wp (getCIMObject k) (fun res s' => res = Some x /\ Db s' f) s.
Proof using fl il.
  intros (v & A & Hd)%Db_DbV Hk Hs. unfold getCIMObject. wstep. eapply hold_getNode; [done..|].
  intros s' [nd|] Hd' Hg; simpl in Hg.
  - unfold wp. rewrite (nodeToCIMObject_spec s' v A f k nd x) by done. split; [done|]. by eapply DbV_Db.
  - destruct Hs as (n & Hn & _). congruence.
Qed.

Lemma getCIMObject_absent s f k :
  Db s f -> key_ok k -> f_nodes f !! k = None ->
  wp (getCIMObject (O := O) k) (fun res s' => res = None /\ Db s' f) s.
Proof.
  intros (v & A & Hd)%Db_DbV Hk Hs. unfold getCIMObject. wstep. eapply hold_getNode; [done..|].
  intros s' [nd|] Hd' Hg; simpl in Hg.
  - destruct (held_shows _ _ _ _ _ _ Hd' Hg) as (n & Hn & _). congruence.
  - split; [done|]. by eapply DbV_Db.
Qed.

Lemma stores_attach pk k (x : O) d fl' f : readObject d = Ok x -> stores (f_attach pk k d fl' f) k x.
Proof. intros Hx. eexists. rewrite f_attach_nodes, decide_True by done. done. Qed.

Lemma stores_attach_ne pk k d fl' f k' (x : O) :
  k' <> k -> stores (f_attach pk k d fl' f) k' x <-> stores f k' x.
Proof.
  intros Hne. unfold stores. rewrite f_attach_nodes, decide_False by done. case_decide; [|done]. split.
  - intros (n & (n0 & Hn0 & ->)%fmap_Some & Hd). eauto.
  - intros (n & Hn & Hd). exists (fn_add k n). rewrite Hn. done.
Qed.

Lemma updateCIMObject_spec s v A f k nd n (x : O) d :
  DbV s v A f -> Held v A k nd -> f_nodes f !! k = Some n -> writeObject x = Ok d -> room s k d ->
  wp (updateCIMObject x (Some nd) None) (fun _ s' => Db s' (f_set k d (fn_flags n) f)) s.
Proof using fl il.
  intros Hd Hh Hn Hw Hr. unfold updateCIMObject. wstep. apply (wp_written x d); [done|]. wstep. eapply wp_mono; [by eapply hold_updateNode|].
  intros [[ok nd1] nd2] s' [Eok Hd']. simpl in Eok. by subst.
Qed.

Lemma stores_set k n fl' f (x : O) d : f_nodes f !! k = Some n -> readObject d = Ok x -> stores (f_set k d fl' f) k x.
Proof using. intros Hn Hx. eexists. rewrite f_set_nodes, decide_True, Hn by done. done. Qed.

Lemma stores_set_ne k d fl' f k' (x : O) : k' <> k -> stores (f_set k d fl' f) k' x <-> stores f k' x.
Proof using. intros Hne. unfold stores. by rewrite f_set_nodes, decide_False. Qed.

(** Pruning leaves what is not below the node that is removed. *)
Lemma stores_prune f f' k k' (x : O) : f_prune f f' k -> stores f' k' x <-> stores f k' x /\ ~ f_below f k k'.
Proof using.
  intros [Hp _]. unfold stores. split.
  - intros (n & Hn & Hx). apply Hp in Hn as (n0 & Hn0 & Hb & ->). eauto.
  - intros ((n & Hn & Hx) & Hb). exists (fn_drop k n). rewrite Hp. eauto.
Qed.
End Obj.

(** ** Opening *)

Lemma room_root s : zlen (content s) = 32 -> room s root_name (name_data root_name).
Proof. intros E. unfold room. rewrite E. by vm_compute. Qed.

Lemma root_key_ok : key_ok root_name.
Proof. split; [done|]. repeat constructor; done. Qed.

(** A repository opened where there is no database has the root namespace only. *)
Lemma repo_open_new (f0 : F) (ix : I) h0 :
  f_content f0 = [] -> idx_map ix = ∅ ->
  exists r, repo_open (createNameSpace true) true true (Some f0) ix (mkOpen h0 None) = (Ok (), Some r) /\
    RepoOk r (f_attach [] root_name (name_data root_name) HDBNSNODE_FLAG f_empty).
Proof.
  intros Hf Hix. destruct (open_new f0 h0 Hf) as (f1 & Eo & Hc). unfold repo_open. rewrite Eo.
  set (r0 := mkRepo _ true []).
  assert (RepoOk r0 f_empty) as Hr.
  { constructor; [done|constructor; [done|]|].
    - intros i h Hi. by destruct i.
    - apply (Db_same (opened (mkOpen initialHeader (Some f1)) f1 ix)); try done. by apply db_empty. }
  pose proof (createNameSpace_new r0 f_empty root_name Hr root_key_ok eq_refl) as Hw.
  apply wp_run in Hw as (c & r & Ec & _ & Hr' & _).
  - rewrite Ec. eauto.
  - apply room_root. unfold content. simpl. rewrite Hc. apply zlen_enc_header, ok_signature, header_ok_initial.
Qed.

(** A repository opened again on its database has the same content. *)
Lemma repo_reopen (s : St F I) f n h0 :
  Db s f -> signature (hdr s) = OW_HDBSIGNATURE -> hversion (hdr s) = HDBVERSION ->
  f_nodes f !! root_name = Some n -> has_flags HDBNSNODE_FLAG n = true ->
  exists r, repo_open (createNameSpace true) true true None (m_pindex (m_pdb s)) (mkOpen h0 (Some (m_file s))) = (Ok (), Some r) /\
    RepoOk r f.
Proof.
  intros Hd Hs Hv Hn Hf. destruct (db_reopen s f h0 Hd Hs Hv) as (f' & Eo & Hd'). unfold repo_open. rewrite Eo.
  set (r0 := mkRepo _ true []).
  assert (RepoOk r0 f) as Hr.
  { constructor; [done|constructor; [done|]|].
    - intros i h Hi. by destruct i.
    - eapply (Db_same (opened (mkOpen (hdr s) (Some f')) f' (m_pindex (m_pdb s)))); try done. }
  pose proof (createNameSpace_existing r0 f root_name n Hr root_key_ok Hn) as Hw. rewrite Hf in Hw.
  apply wp_run in Hw as (c & r & Ec & _ & Hr' & _). rewrite Ec. eauto.
Qed.
End Objects.
