(* ===== verification/Cache.v ===== *)
(** * The LRU cache

   src/src/common/OW_Cache.hpp: a [std::list] of (item, key) pairs, the least
   recently used one first, and a hash map from keys to iterators into the
   list.  An iterator is the identity of a list node: splicing moves the node
   and keeps its identity, erasing it makes the iterator dangling, and using a
   dangling iterator is undefined behaviour ([Crash]).

   [lru] is the contract: an association list without duplicate keys, most
   recently used last.  [cache_ok c l] relates a cache to it. *)

From S2P Require Import Prelude.

Section Cache.
Context {T : Type}.

Record CacheEntry := mkCacheEntry { ce_iter : nat; ce_item : T; ce_key : bytes }.

Record Cache := mkCache {
  theCache : list CacheEntry;
  theCacheIndex : gmap bytes nat;
  maxCacheSize : Z;
  nextIter : nat;          (* a list node that has not been allocated yet *)
}.

Definition newCache : Cache := mkCache [] ∅ 100 0.

(** [theCacheIndex.size()] *)
Definition index_size (c : Cache) : Z := Z.of_nat (size (theCacheIndex c)).

(** Drop the least recently used entry and the index entry of its key. *)
Definition evict (c : Cache) : Cache :=
  match theCache c with
  | [] => c
  | e :: l => mkCache l (delete (ce_key e) (theCacheIndex c)) (maxCacheSize c) (nextIter c)
  end.

(** [HashMap::insert] keeps the value of a key that is there. *)
Definition map_insert (k : bytes) (i : nat) (m : gmap bytes nat) : gmap bytes nat :=
  match m !! k with Some _ => m | None => <[k := i]> m end.

Definition addToCache (cc : T) (key : bytes) (c : Cache) : Cache :=
  let c := if maxCacheSize c <=? index_size c then evict c else c in
  mkCache (theCache c ++ [mkCacheEntry (nextIter c) cc key])
    (map_insert key (nextIter c) (theCacheIndex c)) (maxCacheSize c) (S (nextIter c)).

(** The list node an iterator stands for, and the list without it. *)
Definition entry_at (i : nat) (l : list CacheEntry) : option CacheEntry :=
  snd <$> list_find (fun e => ce_iter e = i) l.
Definition unlink (i : nat) (l : list CacheEntry) : list CacheEntry :=
  filter (fun e => ce_iter e <> i) l.

(** [None] is [T(CIMNULL)]. *)
Definition getFromCache (key : bytes) (c : Cache) : outcome (option T) * Cache :=
  match theCacheIndex c !! key with
  | None => (Ok None, c)
  | Some i =>
      match entry_at i (theCache c) with
      | None => (Crash, c)
      | Some e => (Ok (Some (ce_item e)),
          mkCache (unlink i (theCache c) ++ [e]) (theCacheIndex c) (maxCacheSize c) (nextIter c))
      end
  end.

Definition removeFromCache (key : bytes) (c : Cache) : outcome () * Cache :=
  match theCacheIndex c !! key with
  | None => (Ok (), c)
  | Some i =>
      let c' := mkCache (unlink i (theCache c)) (delete key (theCacheIndex c))
                  (maxCacheSize c) (nextIter c) in
      match entry_at i (theCache c) with
      | None => (Crash, c')
      | Some _ => (Ok (), c')
      end
  end.

Definition clearCache (c : Cache) : Cache := mkCache [] ∅ (maxCacheSize c) (nextIter c).

(** The loop of [setMaxCacheSize]: it does not end when the list is empty and
   the index is not small enough. *)
Fixpoint shrink (fuel : nat) (c : Cache) : outcome () * Cache :=
  if maxCacheSize c <=? index_size c then
    match fuel with
    | O => (Diverge, c)
    | S fuel => shrink fuel (evict c)
    end
  else (Ok (), c).

Definition setMaxCacheSize (max : Z) (c : Cache) : outcome () * Cache :=
  let c := mkCache (theCache c) (theCacheIndex c) max (nextIter c) in
  if max =? 0 then (Ok (), c) else shrink (length (theCache c)) c.

(** ** The contract *)

Abbreviation lru := (list (bytes * T)).

Fixpoint lru_find (k : bytes) (l : lru) : option T :=
  match l with
  | [] => None
  | (k', x) :: l => if bool_decide (k' = k) then Some x else lru_find k l
  end.
Definition lru_drop (k : bytes) (l : lru) : lru := filter (fun p => p.1 <> k) l.
Definition lru_use (k : bytes) (l : lru) : lru :=
  match lru_find k l with
  | Some x => lru_drop k l ++ [(k, x)]
  | None => l
  end.
(** Room for one more of at most [max] entries. *)
Definition lru_trim (max : Z) (l : lru) : lru := if max <=? zlen l then tail l else l.
Definition lru_add (max : Z) (k : bytes) (x : T) (l : lru) : lru := lru_trim max l ++ [(k, x)].

(** The newest entries, fewer than [max] of them. *)
Definition lru_shrink (max : Z) (l : lru) : lru := drop (Z.to_nat (zlen l - max + 1)) l.

Definition pair_of (e : CacheEntry) : bytes * T := (ce_key e, ce_item e).

Record cache_ok (c : Cache) (l : lru) : Prop := {
  co_list : pair_of <$> theCache c = l;
  co_keys : NoDup l.*1;
  co_iters : NoDup (ce_iter <$> theCache c);
  co_fresh : Forall (fun e => (ce_iter e < nextIter c)%nat) (theCache c);
  co_index : forall k i, theCacheIndex c !! k = Some i <->
    exists e, e ∈ theCache c /\ ce_iter e = i /\ ce_key e = k;
}.

(** ** Facts *)

Lemma keys_fmap (l : list CacheEntry) : (pair_of <$> l).*1 = ce_key <$> l.
Proof. rewrite <- list_fmap_compose. done. Qed.

Lemma lru_find_elem k x l : NoDup l.*1 -> (k, x) ∈ l -> lru_find k l = Some x.
Proof.
  induction l as [|[k' y] l IH]; intros Hn Hx; [by apply elem_of_nil in Hx|]. simpl in *.
  apply NoDup_cons in Hn as [Hk Hn]. apply elem_of_cons in Hx as [[= -> ->]|Hx].
  - by rewrite bool_decide_true.
  - rewrite bool_decide_false; [by apply IH|]. intros ->. apply Hk.
    apply list_elem_of_fmap. by exists (k, x).
Qed.

Lemma lru_find_None k l : lru_find k l = None <-> k ∉ l.*1.
Proof.
  induction l as [|[k' y] l IH]; simpl; [split; [by intros _ ?%elem_of_nil|done]|].
  case_bool_decide as E; rewrite not_elem_of_cons; [|naive_solver]. split; [done|]. naive_solver.
Qed.

Lemma index_None c l k : cache_ok c l -> theCacheIndex c !! k = None <-> lru_find k l = None.
Proof.
  intros H. rewrite lru_find_None, <- (co_list _ _ H), keys_fmap, list_elem_of_fmap. split.
  - intros Hn (e & -> & He). assert (theCacheIndex c !! ce_key e = Some (ce_iter e)) as E; [|congruence].
    apply (co_index _ _ H). eauto.
  - intros Hn. destruct (theCacheIndex c !! k) as [i|] eqn:E; [|done]. exfalso.
    apply (co_index _ _ H) in E as (e & He & _ & <-). eauto.
Qed.

(** The index holds one iterator for each list node. *)
Lemma index_size_ok c l : cache_ok c l -> index_size c = zlen l.
Proof.
  intros H. unfold index_size. rewrite <- size_dom.
  assert (dom (theCacheIndex c) = list_to_set (C := gset bytes) l.*1) as ->.
  { apply set_eq. intros k. rewrite elem_of_dom, elem_of_list_to_set.
    pose proof (index_None c l k H) as Hn. rewrite lru_find_None in Hn. unfold is_Some.
    destruct (theCacheIndex c !! k) as [i|] eqn:E.
    - split; [|eauto]. intros _. destruct (decide (k ∈ l.*1)) as [|Hk]; [done|]. by apply Hn in Hk.
    - split; [by intros [? ?]|]. intros Hk. by destruct (proj1 Hn eq_refl). }
  rewrite size_list_to_set by apply H. unfold zlen. by rewrite length_fmap.
Qed.

Lemma index_In c l e : cache_ok c l -> e ∈ theCache c -> theCacheIndex c !! ce_key e = Some (ce_iter e).
Proof. intros H He. apply (co_index _ _ H). eauto. Qed.

(** Both keys and iterators tell the entries apart. *)
Lemma same_entry c l e e' : cache_ok c l -> e ∈ theCache c -> e' ∈ theCache c ->
  (ce_key e = ce_key e' \/ ce_iter e = ce_iter e') -> e = e'.
Proof.
  intros H (i & Hi)%list_elem_of_lookup (j & Hj)%list_elem_of_lookup Hk.
  assert (i = j) as ->; [|congruence]. destruct Hk as [Hk|Hk].
  - pose proof (co_keys _ _ H) as Hn. rewrite <- (co_list _ _ H), keys_fmap in Hn.
    eapply NoDup_lookup; [exact Hn| |]; rewrite list_lookup_fmap; [by rewrite Hi|rewrite Hj; simpl; by rewrite Hk].
  - eapply NoDup_lookup; [apply (co_iters _ _ H)| |]; rewrite list_lookup_fmap;
      [by rewrite Hi|rewrite Hj; simpl; by rewrite Hk].
Qed.

Lemma entry_at_ok c l e : cache_ok c l -> e ∈ theCache c -> entry_at (ce_iter e) (theCache c) = Some e.
Proof.
  intros H He. unfold entry_at.
  destruct (list_find (fun x => ce_iter x = ce_iter e) (theCache c)) as [[j e']|] eqn:E; simpl.
  - apply list_find_Some in E as (Hj & Hi & _). f_equal.
    eapply same_entry; [done| |done|by right]. by eapply list_elem_of_lookup_2.
  - apply list_find_None in E. rewrite Forall_forall in E. by destruct (E e He).
Qed.

(** Unlinking an entry drops its key. *)
Lemma unlink_drop c l e : cache_ok c l -> e ∈ theCache c ->
  pair_of <$> unlink (ce_iter e) (theCache c) = lru_drop (ce_key e) l.
Proof.
  intros H He. rewrite <- (co_list _ _ H). unfold unlink, lru_drop.
  assert (forall l' : list CacheEntry, (forall x, x ∈ l' -> x ∈ theCache c) ->
    pair_of <$> filter (fun x => ce_iter x <> ce_iter e) l' =
    filter (fun p => p.1 <> ce_key e) (pair_of <$> l')) as Hg; [|by apply Hg].
  induction l' as [|x l' IH]; intros Hin; [done|]. rewrite fmap_cons.
  assert (ce_iter x = ce_iter e <-> ce_key x = ce_key e) as Hx.
  { split; intros E; f_equal; (eapply same_entry; [done|apply Hin; left|done|auto]). }
  destruct (decide (ce_iter x = ce_iter e)) as [E|E].
  - rewrite filter_cons_False by tauto. rewrite (filter_cons_False _ (pair_of x)) by (simpl; tauto).
    apply IH. intros; apply Hin. by right.
  - rewrite filter_cons_True by done. rewrite (filter_cons_True _ (pair_of x)) by (simpl; tauto).
    rewrite fmap_cons, IH; [done|]. intros; apply Hin. by right.
Qed.

(** ** Refinement *)

Lemma empty_ok max n : cache_ok (mkCache [] ∅ max n) [].
Proof.
  constructor; simpl; [done|constructor|constructor|constructor|].
  intros k i. rewrite lookup_empty. split; [done|]. intros (e & He & _). by apply elem_of_nil in He.
Qed.

Lemma evict_ok c l : cache_ok c l -> cache_ok (evict c) (tail l).
Proof.
  intros H. unfold evict. destruct (theCache c) as [|e es] eqn:E.
  - pose proof (co_list _ _ H) as Hl. rewrite E in Hl. by subst l.
  - pose proof H as [Hl Hk Hi Hf Hx]. rewrite E in *. subst l. simpl in *.
    apply NoDup_cons in Hk as [Hk0 Hk], Hi as [Hi0 Hi]. apply Forall_cons in Hf as [Hf0 Hf].
    constructor; simpl; auto. intros k i. rewrite lookup_delete_Some, Hx. split.
    + intros (Hne & e' & He' & Ei & Ek). apply elem_of_cons in He' as [->|He']; [by subst|]. eauto.
    + intros (e' & He' & <- & <-). split.
      * intros Ek. apply Hk0. rewrite Ek, keys_fmap. by apply list_elem_of_fmap_2.
      * exists e'. split; [by right|done].
Qed.

(** Adding a key that is not in the cache. *)
Lemma addToCache_ok c l k x :
  cache_ok c l -> lru_find k l = None -> cache_ok (addToCache x k c) (lru_add (maxCacheSize c) k x l).
Proof.
  intros H Hk. unfold addToCache. rewrite (index_size_ok c l H).
  set (c' := if maxCacheSize c <=? zlen l then evict c else c).
  assert (maxCacheSize c' = maxCacheSize c /\ nextIter c' = nextIter c) as [Em Ei].
  { subst c'. destruct (_ <=? _); [|done]. unfold evict. by destruct (theCache c). }
  assert (cache_ok c' (lru_trim (maxCacheSize c) l)) as H'.
  { subst c'. unfold lru_trim. destruct (_ <=? _); [by apply evict_ok|done]. }
  assert (k ∉ (lru_trim (maxCacheSize c) l).*1) as Hk'.
  { apply lru_find_None in Hk. unfold lru_trim. destruct (_ <=? _); [|done]. destruct l; [done|].
    simpl in *. intros ?. apply Hk. by right. }
  rewrite Em. clearbody c'. set (l' := lru_trim _ _) in *. destruct H' as [Hl Hkk Hii Hf Hx].
  assert (map_insert k (nextIter c') (theCacheIndex c') = <[k := nextIter c']> (theCacheIndex c')) as ->.
  { unfold map_insert. destruct (theCacheIndex c' !! k) as [i|] eqn:E; [|done]. exfalso. apply Hk'.
    apply Hx in E as (e & He & _ & <-). rewrite <- Hl, keys_fmap. by apply list_elem_of_fmap_2. }
  unfold lru_add. fold l'. constructor; simpl.
  - by rewrite fmap_app, Hl.
  - rewrite fmap_app. apply NoDup_app. split_and!; [done| |apply NoDup_singleton].
    intros y Hy ->%list_elem_of_singleton. done.
  - rewrite fmap_app. apply NoDup_app. split_and!; [done| |apply NoDup_singleton].
    intros y (e & -> & He)%list_elem_of_fmap E%list_elem_of_singleton. simpl in E.
    rewrite Forall_forall in Hf. specialize (Hf e He). lia.
  - apply Forall_app. split; [|apply Forall_singleton; simpl; lia].
    eapply Forall_impl; [exact Hf|]. simpl. lia.
  - intros k' i. rewrite lookup_insert_Some, Hx. split.
    + intros [[<- <-]|(Hne & e & He & Eqs)].
      * eexists. split; [apply elem_of_app; right; by left|done].
      * exists e. split; [apply elem_of_app; by left|done].
    + intros (e & He & <- & <-). apply elem_of_app in He as [He|He%list_elem_of_singleton]; [|subst e; by left].
      right. split; [|eauto]. intros ->. apply Hk'. rewrite <- Hl, keys_fmap. by apply list_elem_of_fmap_2.
Qed.

Lemma unlinked_ok c l e c' :
  cache_ok c l -> e ∈ theCache c -> theCache c' = unlink (ce_iter e) (theCache c) ->
  theCacheIndex c' = delete (ce_key e) (theCacheIndex c) -> nextIter c' = nextIter c ->
  cache_ok c' (lru_drop (ce_key e) l).
Proof.
  intros H He E1 E2 E3. assert (unlink (ce_iter e) (theCache c) `sublist_of` theCache c) as Hs
    by apply sublist_filter.
  constructor; rewrite ?E1, ?E2, ?E3.
  - by apply unlink_drop.
  - eapply sublist_NoDup; [apply (co_keys _ _ H)|]. apply fmap_sublist, sublist_filter.
  - eapply sublist_NoDup; [apply (co_iters _ _ H)|]. by apply fmap_sublist.
  - apply Forall_forall. intros x [_ Hx]%list_elem_of_filter. pose proof (co_fresh _ _ H) as Hf.
    rewrite Forall_forall in Hf. by apply Hf.
  - intros k i. rewrite lookup_delete_Some, (co_index _ _ H). unfold unlink. split.
    + intros (Hne & x & Hx & <- & <-). exists x. split; [|done]. apply list_elem_of_filter. split; [|done].
      intros E. apply Hne. f_equal. eapply same_entry; [done..|by right].
    + intros (x & (Hne & Hx)%list_elem_of_filter & <- & <-). split; [|eauto].
      intros E. apply Hne. f_equal. eapply same_entry; [done..|by left].
Qed.

Lemma index_entry c l k i : cache_ok c l -> theCacheIndex c !! k = Some i ->
  exists e, e ∈ theCache c /\ ce_iter e = i /\ ce_key e = k /\ entry_at i (theCache c) = Some e /\
    lru_find k l = Some (ce_item e).
Proof.
  intros H E. pose proof E as E'. apply (co_index _ _ H) in E' as (e & He & <- & <-).
  exists e. split_and!; auto; [by eapply entry_at_ok|]. apply lru_find_elem; [apply H|].
  rewrite <- (co_list _ _ H). by apply (list_elem_of_fmap_2 pair_of).
Qed.

Lemma getFromCache_ok c l k :
  cache_ok c l -> exists c', getFromCache k c = (Ok (lru_find k l), c') /\
    cache_ok c' (lru_use k l) /\ maxCacheSize c' = maxCacheSize c.
Proof.
  intros H. unfold getFromCache, lru_use. destruct (theCacheIndex c !! k) as [i|] eqn:E.
  - destruct (index_entry c l k i H E) as (e & He & <- & <- & -> & Hf). rewrite Hf.
    eexists. split; [done|]. split; [|done].
    assert (ce_iter e ∉ ce_iter <$> unlink (ce_iter e) (theCache c)) as Hout.
    { intros (x & Ex & (Hx & _)%list_elem_of_filter)%list_elem_of_fmap. congruence. }
    set (c1 := mkCache (unlink (ce_iter e) (theCache c)) (delete (ce_key e) (theCacheIndex c))
                 (maxCacheSize c) (nextIter c)).
    assert (cache_ok c1 (lru_drop (ce_key e) l)) as [Hl Hk Hi Hfr Hx] by (by apply (unlinked_ok c l e)).
    simpl in *. constructor; simpl.
    + by rewrite fmap_app, Hl.
    + rewrite fmap_app. apply NoDup_app. split_and!; [done| |apply NoDup_singleton].
      intros y (p & -> & (Hp & _)%list_elem_of_filter)%list_elem_of_fmap E2%list_elem_of_singleton.
      simpl in E2. done.
    + rewrite fmap_app. apply NoDup_app. split_and!; [done| |apply NoDup_singleton].
      intros y Hy ->%list_elem_of_singleton. done.
    + apply Forall_app. split; [done|]. apply Forall_singleton. pose proof (co_fresh _ _ H) as Hf2.
      rewrite Forall_forall in Hf2. by apply Hf2.
    + intros k i. destruct (decide (k = ce_key e)) as [->|Hne].
      * rewrite E. split.
        -- intros [= <-]. exists e. split; [apply elem_of_app; right; by left|done].
        -- intros (x & Hxe & <- & Ek). f_equal. f_equal. eapply same_entry; [done..| |by left].
           apply elem_of_app in Hxe as [(_ & ?)%list_elem_of_filter|Hxe%list_elem_of_singleton]; [done|by subst x].
      * pose proof (Hx k i) as Hx'. rewrite lookup_delete_ne in Hx' by done. rewrite Hx'. split.
        -- intros (x & Hxe & Eq). exists x. split; [apply elem_of_app; by left|done].
        -- intros (x & Hxe & <- & <-). apply elem_of_app in Hxe as [?|Hxe%list_elem_of_singleton]; [eauto|].
           by subst x.
  - exists c. rewrite (proj1 (index_None c l k H) E). done.
Qed.

Lemma lru_drop_absent k (l : lru) : lru_find k l = None -> lru_drop k l = l.
Proof.
  intros Hk%lru_find_None. unfold lru_drop. induction l as [|[k' x] l IH]; [done|]. simpl in Hk.
  rewrite filter_cons_True by (simpl; set_solver). rewrite IH by set_solver. done.
Qed.

Lemma removeFromCache_ok c l k :
  cache_ok c l -> exists c', removeFromCache k c = (Ok (), c') /\
    cache_ok c' (lru_drop k l) /\ maxCacheSize c' = maxCacheSize c.
Proof.
  intros H. unfold removeFromCache. destruct (theCacheIndex c !! k) as [i|] eqn:E.
  - destruct (index_entry c l k i H E) as (e & He & <- & <- & -> & Hf).
    eexists. split; [done|]. split; [|done]. by apply (unlinked_ok c l e).
  - exists c. rewrite lru_drop_absent; [done|]. by apply (index_None c l k H).
Qed.

Lemma evict_max c : maxCacheSize (evict c) = maxCacheSize c.
Proof. unfold evict. by destruct (theCache c). Qed.

(** Shrinking drops the oldest entries until fewer than [max] are left. *)
Lemma shrink_ok fuel : forall c l, cache_ok c l -> (length l <= fuel)%nat -> 0 < maxCacheSize c ->
  exists c', shrink fuel c = (Ok (), c') /\ cache_ok c' (lru_shrink (maxCacheSize c) l) /\
    maxCacheSize c' = maxCacheSize c.
Proof.
  unfold lru_shrink.
  induction fuel as [|fuel IH]; intros c l H Hf Hm; cbn [shrink]; rewrite (index_size_ok c l H);
    destruct (maxCacheSize c <=? zlen l) eqn:E; zbool.
  - exfalso. unfold zlen in E. lia.
  - exists c. replace (Z.to_nat _) with 0%nat by lia. done.
  - destruct (IH (evict c) (tail l)) as (c' & E' & H' & Em).
    + by apply evict_ok.
    + destruct l; simpl in *; lia.
    + by rewrite evict_max.
    + rewrite evict_max in *. exists c'. split_and!; [done| |done]. destruct l as [|x l].
      * exfalso. unfold zlen in E. simpl in E. lia.
      * rewrite zlen_cons in *. simpl in H'. replace (Z.to_nat (1 + zlen l - maxCacheSize c + 1))
          with (S (Z.to_nat (zlen l - maxCacheSize c + 1))) by lia. done.
  - exists c. replace (Z.to_nat _) with 0%nat by lia. done.
Qed.

Lemma setMaxCacheSize_ok c l max :
  cache_ok c l -> 0 < max ->
  exists c', setMaxCacheSize max c = (Ok (), c') /\ cache_ok c' (lru_shrink max l) /\ maxCacheSize c' = max.
Proof.
  intros H Hm. unfold setMaxCacheSize. ztest.
  set (c1 := mkCache (theCache c) (theCacheIndex c) max (nextIter c)).
  assert (cache_ok c1 l) as H1 by (destruct H; by constructor).
  assert (length (theCache c1) = length l) as Hlen
    by (rewrite <- (co_list _ _ H1); by rewrite length_fmap).
  apply (shrink_ok (length (theCache c1)) c1 l H1); [lia|done].
Qed.

(** ** Looking up in the contract *)

Lemma lru_drop_find k k' (l : lru) :
  lru_find k' (lru_drop k l) = if bool_decide (k' = k) then None else lru_find k' l.
Proof.
  unfold lru_drop. induction l as [|[k0 x] l IH]; [by case_bool_decide|].
  destruct (decide (k0 = k)) as [->|Hne].
  - rewrite filter_cons_False by (simpl; tauto). rewrite IH. simpl.
    case_bool_decide; [done|]. by rewrite bool_decide_false by done.
  - rewrite filter_cons_True by done. simpl. rewrite IH.
    case_bool_decide as E1; case_bool_decide as E2; try done; congruence.
Qed.

Lemma lru_find_app k (l l' : lru) :
  lru_find k (l ++ l') = match lru_find k l with Some x => Some x | None => lru_find k l' end.
Proof. induction l as [|[k0 x] l IH]; simpl; [done|]. by case_bool_decide. Qed.

Lemma lru_use_find k k' (l : lru) : lru_find k' (lru_use k l) = lru_find k' l.
Proof.
  unfold lru_use. destruct (lru_find k l) as [x|] eqn:E; [|done].
  rewrite lru_find_app, lru_drop_find. simpl. case_bool_decide as D; simplify_eq.
  - by rewrite bool_decide_true.
  - rewrite bool_decide_false by congruence. by destruct (lru_find k' l).
Qed.

Lemma lru_trim_find max k (l : lru) x : NoDup l.*1 -> lru_find k (lru_trim max l) = Some x -> lru_find k l = Some x.
Proof.
  unfold lru_trim. destruct (_ <=? _); [|done]. destruct l as [|[k0 y] l]; [done|]. simpl.
  intros [Hk0 _]%NoDup_cons Hf. rewrite bool_decide_false; [done|]. intros ->.
  apply lru_find_None in Hk0. congruence.
Qed.

Lemma lru_add_find max k x (l : lru) : lru_find k l = None -> lru_find k (lru_add max k x l) = Some x.
Proof.
  intros Hk. unfold lru_add. rewrite lru_find_app. simpl. rewrite bool_decide_true by done.
  destruct (lru_find k (lru_trim max l)) as [y|] eqn:E; [|done]. exfalso.
  assert (lru_find k (lru_trim max l) = None); [|congruence].
  apply lru_find_None in Hk. apply lru_find_None. unfold lru_trim. destruct (_ <=? _); [|done].
  destruct l; [done|]. simpl in *. set_solver.
Qed.

(** ** Sequences of calls *)

Inductive CacheOp := CAdd (k : bytes) (x : T) | CGet (k : bytes) | CRemove (k : bytes) | CClear | CMax (max : Z).

(** One call; only [getFromCache] has something to answer. *)
Definition cache_op (op : CacheOp) (c : Cache) : outcome (option T) * Cache :=
  let silent (r : outcome () * Cache) := (match r.1 with Ok _ => Ok None | Throw e => Throw e | Crash => Crash | Diverge => Diverge end, r.2) in
  match op with
  | CAdd k x => (Ok None, addToCache x k c)
  | CGet k => getFromCache k c
  | CRemove k => silent (removeFromCache k c)
  | CClear => (Ok None, clearCache c)
  | CMax max => silent (setMaxCacheSize max c)
  end.

(** The contract: the limit and the entries. *)
Definition lru_op (op : CacheOp) (st : Z * lru) : option T * (Z * lru) :=
  let (max, l) := st in
  match op with
  | CAdd k x => (None, (max, lru_add max k x l))
  | CGet k => (lru_find k l, (max, lru_use k l))
  | CRemove k => (None, (max, lru_drop k l))
  | CClear => (None, (max, []))
  | CMax max => (None, (max, lru_shrink max l))
  end.

(** What the callers observe: nothing is added twice, the limit is not 0. *)
Definition op_ok (op : CacheOp) (st : Z * lru) : Prop :=
  match op with
  | CAdd k _ => lru_find k st.2 = None
  | CMax max => 0 < max
  | _ => True
  end.

Fixpoint cache_run (ops : list CacheOp) (c : Cache) : list (outcome (option T)) * Cache :=
  match ops with
  | [] => ([], c)
  | op :: ops => let (a, c) := cache_op op c in let (l, c) := cache_run ops c in (a :: l, c)
  end.
Fixpoint lru_run (ops : list CacheOp) (st : Z * lru) : list (option T) * (Z * lru) :=
  match ops with
  | [] => ([], st)
  | op :: ops => let (a, st) := lru_op op st in let (l, st) := lru_run ops st in (a :: l, st)
  end.
Fixpoint ops_ok (ops : list CacheOp) (st : Z * lru) : Prop :=
  match ops with
  | [] => True
  | op :: ops => op_ok op st /\ ops_ok ops (lru_op op st).2
  end.

Record sim (c : Cache) (st : Z * lru) : Prop := {
  sim_max : maxCacheSize c = st.1;
  sim_ok : cache_ok c st.2;
  sim_pos : 0 < st.1;
  sim_bound : zlen st.2 <= st.1;
}.

Lemma lru_drop_length k (l : lru) : zlen (lru_drop k l) <= zlen l.
Proof. unfold zlen, lru_drop. pose proof (length_filter (fun p : bytes * T => p.1 <> k) l). lia. Qed.

Lemma lru_drop_shorter k (l : lru) x : lru_find k l = Some x -> zlen (lru_drop k l) < zlen l.
Proof.
  induction l as [|[k' y] l IH]; [done|]. simpl. unfold lru_drop in *. case_bool_decide as E.
  - intros _. rewrite filter_cons_False by (simpl; tauto). rewrite zlen_cons. pose proof (lru_drop_length k l).
    unfold lru_drop in *. lia.
  - intros Hx. rewrite filter_cons_True by done. rewrite !zlen_cons. specialize (IH Hx). lia.
Qed.

Lemma lru_use_length k (l : lru) : zlen (lru_use k l) <= zlen l.
Proof.
  unfold lru_use. destruct (lru_find k l) as [x|] eqn:E; [|lia]. rewrite zlen_app.
  pose proof (lru_drop_shorter k l x E). unfold zlen at 2. simpl. lia.
Qed.

Lemma lru_shrink_length max (l : lru) : 0 < max -> zlen (lru_shrink max l) <= max.
Proof. intros H. unfold lru_shrink, zlen. rewrite length_drop. lia. Qed.

Lemma lru_add_length max k x (l : lru) : 0 < max -> zlen l <= max -> zlen (lru_add max k x l) <= max.
Proof.
  intros Hm Hl. unfold lru_add, lru_trim. rewrite zlen_app. change (zlen [(k, x)]) with 1.
  destruct (max <=? zlen l) eqn:E; zbool; [|lia]. destruct l; [unfold zlen in *; simpl in *; lia|].
  rewrite zlen_cons in *. simpl. lia.
Qed.

(** Each call answers as the contract does. *)
Lemma cache_op_sim op c st :
  sim c st -> op_ok op st -> exists c', cache_op op c = (Ok (lru_op op st).1, c') /\ sim c' (lru_op op st).2.
Proof.
  destruct st as [max l]. intros [Em H Hp Hb]. simpl in *. subst max.
  destruct op as [k x|k|k| |max]; simpl; intros Hok.
  - eexists. split; [done|]. constructor; simpl; [|by apply addToCache_ok|done|by apply lru_add_length].
    destruct (_ <=? _); [apply evict_max|done].
  - destruct (getFromCache_ok c l k H) as (c' & -> & H' & Em). eexists. split; [done|].
    constructor; cbn [fst snd]; [done..|]. pose proof (lru_use_length k l). lia.
  - destruct (removeFromCache_ok c l k H) as (c' & -> & H' & Em). eexists. split; [done|].
    constructor; cbn [fst snd]; [done..|]. pose proof (lru_drop_length k l). lia.
  - eexists. split; [done|]. constructor; simpl; [done|apply empty_ok|done|]. unfold zlen. simpl. lia.
  - destruct (setMaxCacheSize_ok c l max H Hok) as (c' & -> & H' & Em). eexists. split; [done|].
    constructor; simpl; [done..|]. by apply lru_shrink_length.
Qed.

Lemma cache_run_sim ops : forall c st, sim c st -> ops_ok ops st ->
  exists c', cache_run ops c = (Ok <$> (lru_run ops st).1, c') /\ sim c' (lru_run ops st).2.
Proof.
  induction ops as [|op ops IH]; intros c st Hs; simpl; [by exists c|]. intros [Hop Hops].
  destruct (cache_op_sim op c st Hs Hop) as (c1 & -> & Hs1). destruct (lru_op op st) as [a st1]. simpl in *.
  destruct (IH c1 st1 Hs1 Hops) as (c2 & -> & Hs2). destruct (lru_run ops st1) as [l st2]. by exists c2.
Qed.
End Cache.
