(* ===== verification/Meta.v ===== *)
(** * The meta repository: qualifier types behind a cache

   [MetaRepository] (src/src/repositories/hdb/OW_MetaRepository.cpp) stores the
   qualifier types of namespace ns as children of the node "q:ns", the classes
   below "c:ns", and caches both.  Modelled are opening, its namespace
   operations and the operations on qualifier types; of [CIMRepository]
   (OW_CIMRepository.cpp) the namespace operations, which keep the three stores
   in step.  Result handlers collect what they are given. *)

From S2P Require Import Prelude FileIO HdbCommon Index Hdb HdbNode Repo Cache.

(** [CIMQualifierType] is serialisable and has a name. *)
Class QualifierType (Q : Type) {cb : CIMBase Q} : Type := { qt_name : Q -> bytes }.

Definition QUAL_CONTAINER : bytes := [113].     (* "q" *)
Definition CLASS_CONTAINER : bytes := [99].     (* "c" *)

Section Meta.
Context {F : Type} {fo : FileOps F} {I : Type} {io : IndexOps I}.
Context {so : StringOps}.
Context {Q : Type} {cb : CIMBase Q} {qc : QualifierType Q}.
Context {C : Type}.                              (* CIMClass *)
Context (fileOk : bool).

Record MetaRepository := mkMeta {
  mr_repo : Repo F I;
  m_classCache : Cache (T := C);
  m_qualCache : Cache (T := Q);
}.

(** An operation of the base class; one on the cache of qualifier types. *)
Definition on_repo {A} (m : Prog (Repo F I) A) : Prog MetaRepository A := fun x =>
  let (o, r) := m (mr_repo x) in (o, mkMeta r (m_classCache x) (m_qualCache x)).
Definition on_quals {A} (m : Cache (T := Q) -> outcome A * Cache (T := Q)) : Prog MetaRepository A := fun x =>
  let (o, c) := m (m_qualCache x) in (o, mkMeta (mr_repo x) (m_classCache x) c).
Definition add_qual (q : Q) (k : bytes) : Prog MetaRepository () :=
  on_quals (fun c => (Ok (), addToCache q k c)).

(** ** Keys *)

Definition qual_container (ns : bytes) : bytes := QUAL_CONTAINER ++ [NS_SEPARATOR_C] ++ ns.
Definition class_container (ns : bytes) : bytes := CLASS_CONTAINER ++ [NS_SEPARATOR_C] ++ ns.

Definition _makeQualPath (ns qualName : bytes) : bytes :=
  if bool_decide (qualName = []) then qual_container ns
  else qual_container ns ++ [NS_SEPARATOR_C] ++ toLowerCase qualName.

Definition _getQualContainer (ns : bytes) : Prog (St F I) HDBNode :=
  getNameSpaceNode (if bool_decide (ns = []) then QUAL_CONTAINER else qual_container ns).

(** ** Opening *)

Definition createRootNode (k : bytes) : Prog (St F I) () :=
  rnode ← getNode k;
  match rnode with
  | Some _ => mret ()
  | None => rnode ← name_node k HDBNSNODE_FLAG; _ ← handle_addRootNode rnode; mret ()
  end.

(** [MetaRepository::createNameSpace]: the class container first. *)
Definition meta_createNameSpace (ns : bytes) : Prog (Repo F I) Z :=
  c ← createNameSpace fileOk (class_container ns);
  if c =? -1 then mret (-1) else createNameSpace fileOk (qual_container ns).

(** [MetaRepository::open] *)
Definition meta_open (lockFile locked : bool) (newFile : option F) (ix : I) (d : OpenSt F)
    : outcome () * option (Repo F I) :=
  match repo_open meta_createNameSpace lockFile locked newFile ix d with
  | (Ok _, Some r) =>
      let (res, r) := with_handle fileOk (on_st (
        createRootNode QUAL_CONTAINER ;;
        createRootNode (qual_container root_name) ;;
        createRootNode CLASS_CONTAINER ;;
        createRootNode (class_container root_name))) r in
      (res, Some r)
  | r => r
  end.

(** [MetaRepository::deleteNameSpace]: only the cache of classes is cleared. *)
Definition meta_deleteNameSpace (ns : bytes) : Prog MetaRepository () :=
  on_repo throwIfNotOpen ;;
  on_repo (deleteNameSpace fileOk (qual_container ns)) ;;
  on_repo (deleteNameSpace fileOk (class_container ns)) ;;
  x ← get;
  put (mkMeta (mr_repo x) (clearCache (m_classCache x)) (m_qualCache x)).

(** ** Qualifier types *)

(** The look-up of the container that is missing happens inside the scope of
   the first handle and takes a second one. *)
Definition getQualifierType (ns qualName : bytes) : Prog MetaRepository Q :=
  on_repo throwIfNotOpen ;;
  let qkey := _makeQualPath ns qualName in
  cached ← on_quals (getFromCache qkey);
  match cached with
  | Some qualType => mret qualType
  | None =>
      qualType ← on_repo (with_handle fileOk (
        o ← on_st (getCIMObject qkey);
        match o with
        | Some qualType => mret qualType
        | None =>
            ex ← nameSpaceExists fileOk (qual_container ns);
            if ex : bool then throw "CIMException::NOT_FOUND"
            else throw "CIMException::INVALID_NAMESPACE"
        end));
      add_qual qualType qkey ;;
      mret qualType
  end.

(** [_addQualifierType] with the caller's handle, up to the cache. *)
Definition _addQualifierType (ns : bytes) (qt : Q) : Prog (St F I) () :=
  let qkey := _makeQualPath ns (qt_name qt) in
  node ← getNode qkey;
  match node with
  | Some _ => throw "CIMException::ALREADY_EXISTS"
  | None =>
      pnode ← _getQualContainer ns;
      match pnode with
      | None => throw "CIMException::INVALID_NAMESPACE"
      | Some p => addCIMObject qt qkey (Some p) 0
      end
  end.

(** Returns whether the qualifier type was added; the caches follow when the
   database has been changed. *)
Definition setQualifierType (ns : bytes) (qt : Q) : Prog MetaRepository () :=
  on_repo throwIfNotOpen ;;
  let qkey := _makeQualPath ns (qt_name qt) in
  added ← on_repo (with_handle fileOk (on_st (
    node ← getNode qkey;
    match node with
    | None => _addQualifierType ns qt ;; mret true
    | Some n => updateCIMObject qt (Some n) None ;; mret false
    end)));
  if added : bool then add_qual qt qkey
  else on_quals (removeFromCache qkey) ;; add_qual qt qkey.

Definition deleteQualifierType (ns qualName : bytes) : Prog MetaRepository bool :=
  on_repo throwIfNotOpen ;;
  let qkey := _makeQualPath ns qualName in
  found ← on_repo (with_handle fileOk (on_st (
    node ← getNode qkey;
    match node with
    | None => mret false
    | Some n =>
        _ ← nodeToCIMObject (O := Q) (Some n);
        _ ← removeNode (Some n);
        mret true
    end)));
  if found : bool then on_quals (removeFromCache qkey) ;; mret true else mret false.

(** ** Enumerations *)

(** [while (node) { visit node; node = hdl->getNextSibling(node); }] *)
Fixpoint siblings_loop {A} (fuel : nat) (visit : HDBNodeData -> Prog (St F I) (list A)) (node : HDBNode)
    : Prog (St F I) (list A) :=
  match node with
  | None => mret []
  | Some n =>
      match fuel with
      | O => diverge
      | S fuel =>
          xs ← visit n;
          '(next, _) ← getNextSibling (Some n);
          ys ← siblings_loop fuel visit next;
          mret (xs ++ ys)
      end
  end.

(** [enumQualifierTypes]: what the result handler receives. *)
Definition enumQualifierTypes (ns : bytes) : Prog MetaRepository (list Q) :=
  on_repo throwIfNotOpen ;;
  on_repo (with_handle fileOk (on_st (
    node ← getNode (_makeQualPath ns []);
    match node with
    | None => throw "CIMException::INVALID_NAMESPACE"
    | Some n =>
        if negb (areAllFlagsOn n HDBNSNODE_FLAG) then throw "Expected namespace node"
        else
          '(first, _) ← getFirstChild (Some n);
          s ← get;
          siblings_loop (file_fuel s) (fun n =>
            if negb (areAllFlagsOn n HDBNSNODE_FLAG) then
              q ← nodeToCIMObject (Some n);
              match q with Some q => mret [q] | None => crash end
            else mret []) first
    end))).

(** ** The CIM repository: namespaces in three stores *)

Record CIMRepository := mkCIMRepo {
  m_nStore : Repo F I;
  m_iStore : Repo F I;
  m_mStore : MetaRepository;
}.

Definition on_nStore {A} (m : Prog (Repo F I) A) : Prog CIMRepository A := fun x =>
  let (o, r) := m (m_nStore x) in (o, mkCIMRepo r (m_iStore x) (m_mStore x)).
Definition on_iStore {A} (m : Prog (Repo F I) A) : Prog CIMRepository A := fun x =>
  let (o, r) := m (m_iStore x) in (o, mkCIMRepo (m_nStore x) r (m_mStore x)).
Definition on_mStore {A} (m : Prog MetaRepository A) : Prog CIMRepository A := fun x =>
  let (o, r) := m (m_mStore x) in (o, mkCIMRepo (m_nStore x) (m_iStore x) r).

Definition cim_createNameSpace (ns : bytes) : Prog CIMRepository () :=
  if bool_decide (ns = []) then throw "CIMException::INVALID_PARAMETER"
  else if existsb (Z.eqb NS_SEPARATOR_C) ns then throw "CIMException::FAILED"
  else
    a ← on_nStore (createNameSpace fileOk ns);
    if a =? -1 then throw "CIMException::ALREADY_EXISTS"
    else
      b ← on_iStore (createNameSpace fileOk ns);
      if b =? -1 then
        on_nStore (deleteNameSpace fileOk ns) ;; throw "CIMException::FAILED"
      else
        c ← on_mStore (on_repo (meta_createNameSpace ns));
        if c =? -1 then
          on_nStore (deleteNameSpace fileOk ns) ;;
          on_iStore (deleteNameSpace fileOk ns) ;;
          throw "CIMException::FAILED"
        else mret ().

Definition cim_deleteNameSpace (ns : bytes) : Prog CIMRepository () :=
  if bool_decide (ns = []) then throw "CIMException::INVALID_PARAMETER"
  else
    on_nStore (deleteNameSpace fileOk ns) ;;
    on_iStore (throwIfNotOpen ;; deleteNameSpace fileOk ns) ;;
    on_mStore (meta_deleteNameSpace ns).

Definition enumNameSpace : Prog CIMRepository (list bytes) :=
  on_nStore (with_handle fileOk (on_st (
    node ← getFirstRoot;
    s ← get;
    siblings_loop (file_fuel s) (fun n => mret [m_key n]) node))).
End Meta.

Arguments MetaRepository : clear implicits.
Arguments CIMRepository : clear implicits.
