(* ===== verification/MetaOps.v ===== *)
(** * The cache of qualifier types is transparent

   [MetaOk m f]: the meta repository [m] represents the forest [f], and every
   qualifier type in the cache is the one stored under its key.  Looking up,
   setting and deleting qualifier types is proved to keep this, so that the
   answers are those of the database. *)

From S2P Require Import Prelude FileIO HdbCommon Index Hdb HdbHeap Dll FreeList HdbNode HdbInv HdbTree HdbAlloc HdbAdd HdbSubtree HdbUpdate.
From S2P Require Import HdbSpec HdbContract HdbHold HdbForest Repo RepoFacts RepoOps Cache Meta.

(** Names without NUL characters. *)
Abbreviation text := (Forall (fun c : Z => c <> 0)).

Section MetaFacts.
Context {F : Type} {fo : FileOps F} {fl : FileLaws F}.
Context {I : Type} {io : IndexOps I} {il : IndexLaws I}.
Context {so : StringOps} {sl : StringLaws}.
Context {Q : Type} {cb : CIMBase Q} {qc : QualifierType Q}.
Context {C : Type}.
Implicit Types (s : St F I) (f : Forest) (m : MetaRepository F I Q C).

(** ** Keys *)

Lemma container_ok k ns : key_ok k -> text ns -> key_ok (k ++ [NS_SEPARATOR_C] ++ ns).
Proof using.
  intros [Hk Hz] Hn. split; [by destruct k|]. apply Forall_app. split; [done|]. by apply Forall_cons.
Qed.

Lemma qual_container_ok ns : text ns -> key_ok (qual_container ns).
Proof using. apply container_ok. split; [done|]. by repeat constructor. Qed.

Lemma class_container_ok ns : text ns -> key_ok (class_container ns).
Proof using. apply container_ok. split; [done|]. by repeat constructor. Qed.

Lemma makeQualPath_ok ns q : text ns -> text q -> key_ok (_makeQualPath ns q).
Proof using sl.
  intros Hn Hq. unfold _makeQualPath. case_bool_decide; [by apply qual_container_ok|].
  apply container_ok; [by apply qual_container_ok|]. by apply toLowerCase_nonzero.
Qed.

(** ** Lifting *)

Lemma wp_on_repo {A} (p : Prog (Repo F I) A) P m :
  wp p (fun a r => P a (mkMeta r (m_classCache m) (m_qualCache m))) (mr_repo m) -> wp (on_repo p) P m.
Proof using. unfold wp, on_repo. by destruct (p (mr_repo m)) as [[] r]. Qed.

Lemma throws_on_repo {A} (p : Prog (Repo F I) A) msg P m :
  throws p msg (fun r => P (mkMeta r (m_classCache m) (m_qualCache m))) (mr_repo m) -> throws (on_repo p) msg P m.
Proof using. unfold throws, on_repo. by destruct (p (mr_repo m)) as [[] r]. Qed.

(** ** Coherence *)

Definition coherent (c : Cache (T := Q)) f : Prop :=
  exists l, cache_ok c l /\ forall k x, lru_find k l = Some x -> stores f k x.

Record MetaOk m f : Prop := {
  mo_repo : RepoOk (mr_repo m) f;
  mo_cache : coherent (m_qualCache m) f;
}.

Lemma stores_inj f k (x y : Q) : stores f k x -> stores f k y -> x = y.
Proof using. intros (n & Hn & Ex) (n' & Hn' & Ey). simplify_eq. rewrite Ex in Ey. by injection Ey. Qed.

Lemma coherent_get c f k :
  coherent c f -> exists c' r, getFromCache k c = (Ok r, c') /\ coherent c' f /\
    match r with Some x => stores f k x | None => exists l, cache_ok c' l /\ lru_find k l = None /\
      forall k x, lru_find k l = Some x -> stores f k x end.
Proof using.
  intros (l & Hc & Hs). destruct (getFromCache_ok c l k Hc) as (c' & -> & Hc' & _).
  exists c', (lru_find k l). split; [done|]. assert (forall k0 x, lru_find k0 (lru_use k l) = Some x -> stores f k0 x) as Hs'.
  { intros k0 x. rewrite lru_use_find. apply Hs. }
  split; [by exists (lru_use k l)|]. destruct (lru_find k l) as [x|] eqn:E; [by apply Hs|].
  exists (lru_use k l). by rewrite lru_use_find.
Qed.

(** Adding a key that is not cached, once its object is stored. *)
Lemma coherent_add c l f k (x : Q) :
  cache_ok c l -> lru_find k l = None -> (forall k x, lru_find k l = Some x -> stores f k x) ->
  stores f k x -> coherent (addToCache x k c) f.
Proof using.
  intros Hc Hk Hs Hx. eexists. split; [by apply addToCache_ok|]. intros k' y Hy.
  unfold lru_add in Hy. rewrite lru_find_app in Hy.
  destruct (lru_find k' (lru_trim _ l)) as [z|] eqn:E.
  - injection Hy as <-. apply Hs. eapply lru_trim_find; [apply Hc|done].
  - simpl in Hy. case_bool_decide; [|done]. by simplify_eq.
Qed.

(** Removing a key from the cache. *)
Lemma coherent_remove c f f' k :
  coherent c f -> (forall k' (x : Q), k' <> k -> stores f k' x -> stores f' k' x) ->
  exists c' l, removeFromCache k c = (Ok (), c') /\ cache_ok c' l /\ lru_find k l = None /\
    forall k' x, lru_find k' l = Some x -> stores f' k' x.
Proof using.
  intros (l & Hc & Hs) Hf. destruct (removeFromCache_ok c l k Hc) as (c' & -> & Hc' & _).
  exists c', (lru_drop k l). split_and!; [done|done| |].
  - rewrite lru_drop_find. by rewrite bool_decide_true.
  - intros k' x. rewrite lru_drop_find. case_bool_decide; [done|]. intros Hx. apply Hf; auto.
Qed.

(** ** Looking up *)

(** A cached key is stored. *)
Lemma coherent_absent c l f k :
  cache_ok c l -> (forall k (x : Q), lru_find k l = Some x -> stores f k x) -> f_nodes f !! k = None ->
  lru_find k l = None.
Proof using.
  intros Hc Hs Hk. destruct (lru_find k l) as [x|] eqn:E; [|done]. destruct (Hs k x E) as (n & Hn & _). congruence.
Qed.

Lemma getQualifierType_found m f ns q (x : Q) :
  MetaOk m f -> text ns -> text q -> stores f (_makeQualPath ns q) x ->
  wp (getQualifierType true ns q) (fun y m' => y = x /\ MetaOk m' f) m.
Proof using fl il sl.
  intros [Hr Hc] Hn Hq Hx. unfold getQualifierType. wstep. apply wp_on_repo.
  eapply wp_throwIfNotOpen; [done|]. cbv zeta. set (k := _makeQualPath ns q) in *.
  pose proof (makeQualPath_ok ns q Hn Hq) as Hk. fold k in Hk.
  destruct (coherent_get _ f k Hc) as (c' & r & Eg & Hc' & Hr'). wstep. unfold wp at 1, on_quals. simpl. rewrite Eg.
  destruct r as [y|].
  - wstep. split; [by eapply stores_inj|]. by constructor.
  - wstep. apply wp_on_repo. simpl. destruct Hr' as (l & Hl & Hlk & Hls).
    eapply wp_mono; [apply (wp_scope (mr_repo m) f _ (fun y f' => y = x /\ f' = f) Hr)|].
    + intros r1 [Ho1 Hp1 Hd1] _. wstep.
      pose proof (getCIMObject_spec (r_st r1) f k x Hd1 Hk Hx) as Hg. apply wp_run in Hg as (o & s' & E & -> & Hd').
      unfold wp, on_st. rewrite E. exists f. split_and!; [by constructor|done..|apply pool_step_refl].
    + intros y r' ((f' & Hr2 & -> & ->) & _). wstep. unfold wp at 1, add_qual, on_quals. simpl. wstep.
      split; [done|]. constructor; [done|]. simpl. by eapply coherent_add.
Qed.

Lemma getQualifierType_absent m f ns q :
  MetaOk m f -> text ns -> text q -> f_nodes f !! _makeQualPath ns q = None ->
  throws (getQualifierType true ns q)
    (match f_nodes f !! qual_container ns with
     | Some n => if has_flags HDBNSNODE_FLAG n then "CIMException::NOT_FOUND" else "CIMException::INVALID_NAMESPACE"
     | None => "CIMException::INVALID_NAMESPACE"
     end) (fun m' => MetaOk m' f) m.
Proof using fl il sl.
  intros [Hr Hc] Hn Hq Hx. unfold getQualifierType. apply throws_bind, wp_on_repo.
  eapply wp_throwIfNotOpen; [done|]. cbv zeta. set (k := _makeQualPath ns q) in *.
  pose proof (makeQualPath_ok ns q Hn Hq) as Hk. fold k in Hk.
  destruct (coherent_get _ f k Hc) as (c' & r & Eg & Hc' & Hr'). apply throws_bind.
  unfold wp, on_quals. simpl. rewrite Eg. destruct r as [y|].
  { destruct Hr' as (n & Hn' & _). congruence. }
  apply throws_bind_l, throws_on_repo. simpl.
  eapply throws_mono; [apply (throws_scope (mr_repo m) f); [done|]|].
  - intros r1 Hr1 _. apply throws_bind. pose proof Hr1 as [Ho1 Hp1 Hd1].
    pose proof (getCIMObject_absent (O := Q) (r_st r1) f k Hd1 Hk Hx) as Hg.
    apply wp_run in Hg as (o & s' & E & -> & Hd'). unfold wp, on_st. rewrite E.
    apply throws_bind. eapply wp_mono; [apply (nameSpaceExists_spec _ f _); [by constructor|by apply qual_container_ok]|].
    intros b r2 (-> & Hr2 & Hs). destruct (f_nodes f !! qual_container ns) as [n|]; [destruct (has_flags _ n)|]; done.
  - intros r' [Hr2 _]. by constructor.
Qed.
End MetaFacts.

(** * Setting, deleting and enumerating

   The operations that change the qualifier types keep the cache coherent; the
   enumerations visit the children of a node, or the roots, in their order. *)

Section MetaOps.
Context {F : Type} {fo : FileOps F} {fl : FileLaws F}.
Context {I : Type} {io : IndexOps I} {il : IndexLaws I}.
Context {so : StringOps} {sl : StringLaws}.
Context {Q : Type} {cb : CIMBase Q} {qc : QualifierType Q}.
Context {C : Type}.
Implicit Types (s : St F I) (f : Forest) (m : MetaRepository F I Q C).

(** The node that the qualifier types of [ns] are attached to. *)
Definition qual_parent (ns : bytes) : bytes := if bool_decide (ns = []) then QUAL_CONTAINER else qual_container ns.

Lemma qual_parent_ok ns : text ns -> key_ok (qual_parent ns).
Proof using. intros Hn. unfold qual_parent. case_bool_decide; [|by apply qual_container_ok]. split; [done|]. by repeat constructor. Qed.

Lemma wp_on_quals {A} (p : Cache (T := Q) -> outcome A * Cache (T := Q)) P m a c :
  p (m_qualCache m) = (Ok a, c) -> P a (mkMeta (mr_repo m) (m_classCache m) c) -> wp (on_quals p) P m.
Proof using. intros E HP. unfold wp, on_quals. by rewrite E. Qed.

(** ** Setting *)

Lemma setQualifierType_new m f ns (x : Q) n d :
  MetaOk m f -> text ns -> text (qt_name x) ->
  f_nodes f !! qual_parent ns = Some n -> has_flags HDBNSNODE_FLAG n = true ->
  let k := _makeQualPath ns (qt_name x) in
  f_nodes f !! k = None -> writeObject x = Ok d -> readObject d = Ok x -> room (r_st (mr_repo m)) k d ->
  wp (setQualifierType true ns x) (fun _ m' => MetaOk m' (f_attach (qual_parent ns) k d 0 f)) m.
Proof using fl il sl.
  intros [Hr Hc] Hn Hq Hp Hf k Hk Hw Hrd Hroom. pose proof (makeQualPath_ok ns _ Hn Hq) as Hkk. fold k in Hkk.
  unfold setQualifierType. wstep. apply wp_on_repo. eapply wp_throwIfNotOpen; [done|]. cbv zeta. fold k.
  wstep. apply wp_on_repo. simpl.
  eapply wp_mono; [apply (wp_with_handle (mr_repo m) f _ (fun b f' =>
    b = true /\ f' = f_attach (qual_parent ns) k d 0 f) Hr)|].
  - intros s Hd Ec. pose proof (room_content _ _ _ _ Ec Hroom) as Hroom'. eapply wp_getNode_case; [done..| |].
    + intros s1 v A Hd1 _ Hrm. wstep. unfold _addQualifierType. cbv zeta. fold k.
      eapply wp_getNode_case; [by eapply DbV_Db|done| |].
      * intros s2 v2 A2 Hd2 _ Hrm2. unfold _getQualContainer. fold (qual_parent ns).
        eapply wp_getNameSpaceNode; [by eapply DbV_Db|by apply qual_parent_ok|done..|].
        intros s3 v3 A3 p Hd3 Hh Hrm3.
        eapply wp_mono; [eapply addCIMObject_spec; eauto; by unfold is_u32|]. intros [] s4 Hd4. wstep. eauto.
      * intros s2 v2 A2 nd n' _ E. congruence.
    + intros s1 v A nd n' _ E. congruence.
  - intros b r' ((f' & Hr' & -> & ->) & _). eapply wp_on_quals; [done|].
    destruct Hc as (l & Hl & Hs). constructor; [done|]. simpl.
    eapply coherent_add; [done|by eapply coherent_absent| |by apply stores_attach].
    intros k' y Hy. apply stores_attach_ne; [|by apply Hs]. intros ->. destruct (Hs _ _ Hy) as (n' & Hn' & _). congruence.
Qed.

Lemma setQualifierType_existing m f ns (x : Q) n d :
  MetaOk m f -> text ns -> text (qt_name x) ->
  let k := _makeQualPath ns (qt_name x) in
  f_nodes f !! k = Some n -> writeObject x = Ok d -> readObject d = Ok x -> room (r_st (mr_repo m)) k d ->
  wp (setQualifierType true ns x) (fun _ m' => MetaOk m' (f_set k d (fn_flags n) f)) m.
Proof using fl il sl.
  intros [Hr Hc] Hn Hq k Hk Hw Hrd Hroom. pose proof (makeQualPath_ok ns _ Hn Hq) as Hkk. fold k in Hkk.
  unfold setQualifierType. wstep. apply wp_on_repo. eapply wp_throwIfNotOpen; [done|]. cbv zeta. fold k.
  wstep. apply wp_on_repo. simpl.
  eapply wp_mono; [apply (wp_with_handle (mr_repo m) f _ (fun b f' =>
    b = false /\ f' = f_set k d (fn_flags n) f) Hr)|].
  - intros s Hd Ec. pose proof (room_content _ _ _ _ Ec Hroom) as Hroom'. eapply wp_getNode_case; [done..| |].
    + intros s1 v A _ E. congruence.
    + intros s1 v A nd n' Hd1 E Hh _ Hrm. simplify_eq. wstep.
      eapply wp_mono; [eapply updateCIMObject_spec; eauto|]. intros [] s4 Hd4. wstep. eauto.
  - intros b r' ((f' & Hr' & -> & ->) & _).
    destruct (coherent_remove _ f (f_set k d (fn_flags n) f) k Hc) as (c' & l & Er & Hc' & Hl & Hs).
    { intros k' y Hne Hy. by apply stores_set_ne. }
    wstep. eapply wp_on_quals; [exact Er|]. eapply wp_on_quals; [done|]. constructor; [done|]. simpl.
    eapply coherent_add; eauto. by eapply stores_set.
Qed.

(** Without the container nothing is stored. *)
Lemma setQualifierType_no_namespace m f ns (x : Q) :
  MetaOk m f -> text ns -> text (qt_name x) -> f_nodes f !! qual_parent ns = None ->
  f_nodes f !! _makeQualPath ns (qt_name x) = None ->
  throws (setQualifierType true ns x) "CIMException::INVALID_NAMESPACE" (fun m' => MetaOk m' f) m.
Proof using fl il sl.
  intros [Hr Hc] Hn Hq Hp Hk. pose proof (makeQualPath_ok ns _ Hn Hq) as Hkk.
  unfold setQualifierType. apply throws_bind, wp_on_repo. eapply wp_throwIfNotOpen; [done|]. cbv zeta.
  apply throws_bind_l, throws_on_repo. simpl.
  eapply throws_mono; [apply (throws_with_handle (mr_repo m) f); [done|]|].
  - intros s Hd _. eapply throws_getNode_case; [done..| |].
    + intros s1 v A Hd1 _. apply throws_bind_l. unfold _addQualifierType. cbv zeta.
      eapply throws_getNode_case; [by eapply DbV_Db|done| |].
      * intros s2 v2 A2 Hd2 _. unfold _getQualContainer, getNameSpaceNode. fold (qual_parent ns).
        rewrite bool_decide_false by apply (qual_parent_ok ns Hn). apply throws_bind.
        eapply wp_getNode_case; [by eapply DbV_Db|by apply qual_parent_ok| |].
        -- intros s3 v3 A3 Hd3 _ _. wstep. split; [done|]. by eapply DbV_Db.
        -- intros s3 v3 A3 nd n' _ E. congruence.
      * intros s2 v2 A2 nd n' _ E. congruence.
    + intros s1 v A nd n' _ E. congruence.
  - intros r' [Hr' _]. by constructor.
Qed.

(** ** Deleting *)

Lemma deleteQualifierType_existing m f ns q (x : Q) n :
  MetaOk m f -> text ns -> text q ->
  let k := _makeQualPath ns q in
  f_nodes f !! k = Some n -> readObject (fn_data n) = Ok x -> fn_children n = [] ->
  wp (deleteQualifierType true ns q) (fun b m' => b = true /\ exists f', f_prune f f' k /\ MetaOk m' f') m.
Proof using fl il sl.
  intros [Hr Hc] Hn Hq k Hk Hx Hch. pose proof (makeQualPath_ok ns _ Hn Hq) as Hkk. fold k in Hkk.
  unfold deleteQualifierType. wstep. apply wp_on_repo. eapply wp_throwIfNotOpen; [done|]. cbv zeta. fold k.
  wstep. apply wp_on_repo. simpl.
  eapply wp_mono; [apply (wp_with_handle (mr_repo m) f _ (fun b f' => b = true /\ f_prune f f' k) Hr)|].
  - intros s Hd Ec. eapply wp_getNode_case; [done..| |].
    + intros s1 v A _ E. congruence.
    + intros s1 v A nd n' Hd1 E Hh _ _. simplify_eq. wstep.
      unfold wp at 1. rewrite (nodeToCIMObject_spec s1 v A f k nd x) by (try done; by exists n).
      wstep. eapply wp_mono; [by eapply hold_removeNode|]. intros b s2 (_ & f' & Hpr & Hd2). wstep. eauto.
  - intros b r' ((f' & Hr' & -> & Hpr) & _).
    destruct (coherent_remove _ f f' k Hc) as (c' & l & Er & Hc' & Hl & Hs).
    { intros k' y Hne Hy. apply (stores_prune f f' k); [done|]. split; [done|]. intros Hb. apply Hne.
      eapply below_leaf; eauto. eapply (Db_forest_ok (F := F) (I := I)). apply Hr. }
    wstep. eapply wp_on_quals; [exact Er|]. wstep. split; [done|]. exists f'. split; [done|].
    constructor; [done|]. by exists l.
Qed.

Lemma deleteQualifierType_absent m f ns q :
  MetaOk m f -> text ns -> text q -> f_nodes f !! _makeQualPath ns q = None ->
  wp (deleteQualifierType true ns q) (fun b m' => b = false /\ MetaOk m' f) m.
Proof using fl il sl.
  intros [Hr Hc] Hn Hq Hk. pose proof (makeQualPath_ok ns _ Hn Hq) as Hkk.
  unfold deleteQualifierType. wstep. apply wp_on_repo. eapply wp_throwIfNotOpen; [done|]. cbv zeta.
  wstep. apply wp_on_repo. simpl.
  eapply wp_mono; [apply (wp_with_handle (mr_repo m) f _ (fun b f' => b = false /\ f' = f) Hr)|].
  - intros s Hd Ec. eapply wp_getNode_case; [done..| |].
    + intros s1 v A Hd1 _ _. wstep. exists f. split; [by eapply DbV_Db|done].
    + intros s1 v A nd n' _ E. congruence.
  - intros b r' ((f' & Hr' & -> & ->) & _). wstep. split; [done|]. by constructor.
Qed.
End MetaOps.
