(* ===== verification/MetaEnum.v ===== *)
(** * Enumerations, and namespaces in three stores

   The loop over siblings ends and visits every sibling once, in order; with
   it the enumerations of qualifier types and of namespaces.  Creating a
   namespace through [CIMRepository] either makes it in all stores or leaves
   the stores as they were. *)

From S2P Require Import Prelude FileIO HdbCommon Index Hdb HdbHeap Dll FreeList HdbNode HdbInv HdbTree HdbAlloc HdbAdd HdbSubtree HdbUpdate HdbSpec HdbContract HdbHold HdbForest Repo RepoFacts RepoOps Cache Meta MetaOps.

(** ** Siblings *)

Lemma key_after_split k l1 l2 : k ∉ l1 -> key_after k (l1 ++ k :: l2) = hd [] l2.
Proof.
  induction l1 as [|x l1 IH]; simpl; intros Hk; [by rewrite bool_decide_true|].
  rewrite bool_decide_false by (intros ->; apply Hk; left). apply IH. intros Hin. apply Hk. by right.
Qed.

(** [l] is a complete list of siblings. *)
Definition row f (l : list bytes) : Prop :=
  NoDup l /\ forall k, k ∈ l -> exists n, f_nodes f !! k = Some n /\ siblings f n = l.

Lemma nil_absent f : Forest_ok f -> f_nodes f !! [] = None.
Proof. intros Hf. destruct (f_nodes f !! []) as [n|] eqn:E; [|done]. by destruct (fo_key f Hf _ _ E). Qed.

Lemma row_roots f : Forest_ok f -> row f (f_roots f).
Proof.
  intros Hf. destruct (fo_roots f Hf) as [Hnd Hl]. split; [done|]. intros k (n & Hn & Hp)%Hl. exists n.
  split; [done|]. unfold siblings. by rewrite Hp, nil_absent.
Qed.

Lemma row_children f k n : Forest_ok f -> f_nodes f !! k = Some n -> row f (fn_children n).
Proof.
  intros Hf Hn. destruct (fo_children f Hf k n Hn) as [Hnd Hl]. split; [done|]. intros k' (n' & Hn' & Hp)%Hl.
  exists n'. split; [done|]. unfold siblings. by rewrite Hp, Hn.
Qed.

Section Enum.
Context {F : Type} {fo : FileOps F} {fl : FileLaws F}.
Context {I : Type} {io : IndexOps I} {il : IndexLaws I}.
Implicit Types (s : St F I) (f : Forest) (v : View) (A : Abs).

Lemma reached_nil s v A f r : DbV s v A f -> reached v A [] r -> r = None.
Proof.
  intros Hd. destruct r as [nd|]; [|done]. intros Hh. destruct (held_shows _ _ _ _ _ _ Hd Hh) as (n & Hn & _).
  rewrite nil_absent in Hn; [done|]. by eapply Db_forest_ok, DbV_Db.
Qed.

Lemma reached_key s v A f k n r :
  DbV s v A f -> f_nodes f !! k = Some n -> reached v A k r -> exists nd, r = Some nd /\ Held v A k nd.
Proof.
  intros Hd Hn. destruct r as [nd|]; [eauto|]. intros ->.
  rewrite nil_absent in Hn; [done|]. by eapply Db_forest_ok, DbV_Db.
Qed.

Lemma siblings_loop_spec {B} (visit : HDBNodeData -> Prog (St F I) (list B)) (out : bytes -> list B) v A f l :
  row f l ->
  (forall s k nd, DbV s v A f -> k ∈ l -> Held v A k nd ->
     wp (visit nd) (fun xs s' => xs = out k /\ DbV s' v A f) s) ->
  forall fuel l1 l2 s node, l = l1 ++ l2 -> (length l2 <= fuel)%nat -> DbV s v A f -> reached v A (hd [] l2) node ->
    wp (siblings_loop fuel visit node) (fun xs s' => xs = concat (out <$> l2) /\ DbV s' v A f) s.
Proof.
  intros [Hnd Hrow] Hv. induction fuel as [|fuel IH]; intros l1 l2 s node El Hlen Hd Hr.
  - destruct l2; [|simpl in Hlen; lia]. by rewrite (reached_nil s v A f node Hd Hr).
  - destruct l2 as [|k l2]; [by rewrite (reached_nil s v A f node Hd Hr)|]. simpl in Hr, Hlen.
    assert (k ∈ l) as Hin by (rewrite El; set_solver). destruct (Hrow k Hin) as (n & Hn & Hs).
    destruct (reached_key s v A f k n node Hd Hn Hr) as (nd & -> & Hh). simpl.
    wstep. eapply wp_mono; [by apply (Hv s k nd)|]. intros xs s1 [-> Hd1]. wstep.
    apply (hold_walk s1 v A f k nd n ToNextSibling); [done..|]. intros s2 next nd' Hd2 Hnext. simpl in Hnext.
    rewrite Hs, El, key_after_split in Hnext.
    + wstep. eapply wp_mono; [apply (IH (l1 ++ [k]) l2 s2 next); auto; [by rewrite <- app_assoc|lia]|].
      intros ys s3 [-> Hd3]. by wstep.
    + rewrite El in Hnd. apply NoDup_app in Hnd as (_ & Hdis & _). intros Hk. apply (Hdis k Hk). left.
Qed.

(** ** Namespaces *)

Lemma hold_getFirstRoot s v A f P :
  DbV s v A f -> (forall s' r, DbV s' v A f -> reached v A (hd [] (f_roots f)) r -> P r s') -> wp getFirstRoot P s.
Proof.
  intros Hd HQ. pose proof Hd as [H HI Hm]. destruct (md_roots _ _ Hm) as (l & Hl & Er).
  eapply wp_getFirstRoot; [done..|]. intros s' r Hs' Hr. assert (DbV s' v A f) as Hd' by done. apply HQ; [done|].
  rewrite Er, <- (key_hd v A l HI) by (by eapply Rep_neg). by eapply fetched_reached.
Qed.

Lemma concat_singletons (l : list bytes) : concat ((fun k => [k]) <$> l) = l.
Proof using. induction l; [done|]. simpl. by f_equal. Qed.

Lemma roots_loop r f :
  RepoOk r f ->
  wp (with_handle true (on_st (node ← getFirstRoot; s ← get; siblings_loop (file_fuel s) (fun n => mret [m_key n]) node)))
    (fun l r' => l = f_roots f /\ RepoOk r' f) r.
Proof.
  intros Hr. eapply wp_mono; [apply (wp_with_handle r f _ (fun l f' => l = f_roots f /\ f' = f) Hr)|].
  - intros s (v & A & Hd)%Db_DbV _. wstep. eapply hold_getFirstRoot; [done|]. intros s1 node Hd1 Hnode. wstep. wstep.
    pose proof (Db_forest_ok s1 f (DbV_Db _ _ _ _ Hd1)) as Hf.
    eapply wp_mono; [apply (siblings_loop_spec _ (fun k => [k]) v A f (f_roots f) (row_roots f Hf)) with (l1 := []); auto|].
    + intros s2 k nd Hd2 _ Hh. wstep. split; [|done]. f_equal.
      by destruct (held_shows _ _ _ _ _ _ Hd2 Hh) as (n & _ & -> & _).
    + eapply level_fuel; [by eapply DbV_Db|]. apply (fo_roots f Hf).
    + intros l s2 [-> Hd2]. exists f. split; [by eapply DbV_Db|]. by rewrite concat_singletons.
  - intros l r' ((f' & Hr' & -> & ->) & _). done.
Qed.

(** ** Qualifier types *)

Section Quals.
Context {so : StringOps} {sl : StringLaws}.
Context {Q : Type} {cb : CIMBase Q} {qc : QualifierType Q}.
Context {C : Type}.

(** The node [k] is not a namespace: it holds an object. *)
Definition plain f (k : bytes) : bool :=
  match f_nodes f !! k with Some n => negb (has_flags HDBNSNODE_FLAG n) | None => false end.

(** What the loop collects at node [k]. *)
Definition object_at f (k : bytes) : list Q :=
  match f_nodes f !! k with
  | Some n => if has_flags HDBNSNODE_FLAG n then [] else match readObject (fn_data n) with Ok x => [x] | _ => [] end
  | None => []
  end.

Lemma object_at_stores f k (x : Q) : stores f k x -> object_at f k = if plain f k then [x] else [].
Proof using.
  intros (n & Hn & Hx). unfold object_at, plain. rewrite Hn, Hx. by destruct (has_flags _ n).
Qed.

Lemma objects_at f (l : list bytes) (xs : list Q) :
  Forall2 (stores f) (filter (fun k => plain f k = true) l) xs -> concat (object_at f <$> l) = xs.
Proof using.
  revert xs. induction l as [|k l IH]; intros xs; [by intros ->%Forall2_nil_inv_l|].
  rewrite filter_cons, fmap_cons. cbn [concat]. destruct (decide (plain f k = true)) as [Hp|Hp].
  - intros (x & xs' & Hx & Hl & ->)%Forall2_cons_inv_l. rewrite (object_at_stores f k x Hx), Hp, (IH xs' Hl). done.
  - intros Hl. rewrite (IH xs Hl). unfold plain in Hp. unfold object_at.
    destruct (f_nodes f !! k) as [n|]; [|done]. by destruct (has_flags _ n).
Qed.

Lemma visit_qual s v A f k nd :
  DbV s v A f -> Held v A k nd -> (plain f k = true -> exists x : Q, stores f k x) ->
  wp (if negb (areAllFlagsOn nd HDBNSNODE_FLAG) then
        q ← nodeToCIMObject (Some nd); match q with Some q => mret [q] | None => crash end
      else mret []) (fun xs s' => xs = object_at f k /\ DbV s' v A f) s.
Proof using fl il.
  intros Hd Hh Hx. destruct (held_shows _ _ _ _ _ _ Hd Hh) as (n & Hn & _ & _ & _ & Hfl).
  rewrite (areAllFlagsOn_has _ _ _ Hfl). unfold plain in Hx. rewrite Hn in Hx.
  destruct (has_flags HDBNSNODE_FLAG n) eqn:E; simpl.
  - wstep. unfold object_at. by rewrite Hn, E.
  - destruct (Hx eq_refl) as [x Hs]. wstep. unfold wp at 1. rewrite (nodeToCIMObject_spec s v A f k nd x Hd Hh Hs).
    wstep. split; [|done]. rewrite (object_at_stores f k x Hs). unfold plain. by rewrite Hn, E.
Qed.

Lemma enumQualifierTypes_found (m : MetaRepository F I Q C) f ns n xs :
  MetaOk m f -> text ns -> f_nodes f !! qual_container ns = Some n -> has_flags HDBNSNODE_FLAG n = true ->
  Forall2 (stores f) (filter (fun k => plain f k = true) (fn_children n)) xs ->
  wp (enumQualifierTypes true ns) (fun l m' => l = xs /\ MetaOk m' f) m.
Proof using fl il sl.
  intros [Hr Hc] Hns Hn Hf Hxs. unfold enumQualifierTypes. wstep. apply wp_on_repo. eapply wp_throwIfNotOpen; [done|].
  apply wp_on_repo. simpl.
  eapply wp_mono; [apply (wp_with_handle (mr_repo m) f _ (fun l f' => l = xs /\ f' = f) Hr)|].
  - intros s Hd _. unfold _makeQualPath. rewrite bool_decide_true by done.
    eapply wp_getNode_case; [done|by apply qual_container_ok| |]; [intros s1 v A _ E; congruence|].
    intros s1 v A nd n' Hd1 E Hh Hfl _. simplify_eq. rewrite (areAllFlagsOn_has _ _ _ Hfl), Hf. simpl. wstep.
    apply (hold_walk s1 v A f (qual_container ns) nd n ToFirstChild); [done..|]. intros s2 first nd' Hd2 Hfirst. simpl in Hfirst.
    wstep. wstep. pose proof (Db_forest_ok s2 f (DbV_Db _ _ _ _ Hd2)) as Hfo.
    eapply wp_mono; [apply (siblings_loop_spec _ (object_at f) v A f (fn_children n) (row_children f _ n Hfo Hn)) with (l1 := []); auto|].
    + intros s3 k nd3 Hd3 Hk Hh3. eapply visit_qual; [done..|]. intros Hp.
      assert (k ∈ filter (fun k => plain f k = true) (fn_children n)) as Hin by (by apply list_elem_of_filter).
      apply list_elem_of_lookup in Hin as (i & Hi). destruct (Forall2_lookup_l _ _ _ _ _ Hxs Hi) as (x & _ & Hx). eauto.
    + eapply level_fuel; [by eapply DbV_Db|]. by apply (fo_children f Hfo _ _ Hn).
    + intros l s3 [-> Hd3]. exists f. split; [by eapply DbV_Db|]. split; [|done]. by apply objects_at.
  - intros l r' ((f' & Hr' & -> & ->) & _). split; [done|]. by constructor.
Qed.

Lemma enumQualifierTypes_no_namespace (m : MetaRepository F I Q C) f ns :
  MetaOk m f -> text ns -> f_nodes f !! qual_container ns = None ->
  throws (enumQualifierTypes true ns) "CIMException::INVALID_NAMESPACE" (fun m' => MetaOk m' f) m.
Proof using fl il sl.
  intros [Hr Hc] Hns Hn. unfold enumQualifierTypes. apply throws_bind, wp_on_repo. eapply wp_throwIfNotOpen; [done|].
  apply throws_on_repo. simpl. eapply throws_mono; [apply (throws_with_handle (mr_repo m) f); [done|]|].
  - intros s Hd _. unfold _makeQualPath. rewrite bool_decide_true by done.
    eapply throws_getNode_case; [done|by apply qual_container_ok| |].
    + intros s1 v A Hd1 _. split; [done|]. by eapply DbV_Db.
    + intros s1 v A nd n' _ E. congruence.
  - intros r' [Hr' _]. by constructor.
Qed.
End Quals.
End Enum.
