(* ===== verification/MetaClass.v ===== *)
(** * The meta repository: classes

   The operations of src/src/repositories/hdb/OW_MetaRepository.cpp on classes.  A
   class is a node below the node of its super class, or below the container of
   its namespace, and holds what the class itself declares.  When it is read, it
   takes over what its super classes have; classes that were completed in this way
   are cached. *)

From S2P Require Import Prelude FileIO HdbCommon Index Hdb HdbNode Repo Cache Meta.
From S2P Require Import Blocxx CimSerial CimData CimIO CimOps CimSync ClassOps CimStore.

Section MetaClass.
Context {F : Type} {fo : FileOps F} {I : Type} {io : IndexOps I}.
Context {so : StringOps} {bx : Blocxx} {ss : StringSearch} {sc : StringConv} (asserts fileOk : bool).
Context (equal : CIMValueImpl -> CIMValueImpl -> outcome bool).
Abbreviation QT := (QUALTData CIMValueImpl).
Abbreviation Qual := (QUALData CIMValueImpl).
Abbreviation Cls := (CLSData CIMValueImpl).
Abbreviation MR := (MetaRepository F I QT Cls).
Abbreviation class_base := (Class_base asserts).
Abbreviation qualt_base := (QualifierType_base asserts).

Definition _makeClassPath (ns className : bytes) : bytes := class_container ns ++ [NS_SEPARATOR_C] ++ toLowerCase className.

(** An operation of the database with the handle of the scope; one on the cache of
   classes. *)
Definition on_node {A} (m : Prog (St F I) A) : Prog MR A := on_repo (on_st m).
Definition on_classes {A} (m : Cache (T := Cls) -> outcome A * Cache (T := Cls)) : Prog MR A := fun x =>
  let (o, c) := m (m_classCache x) in (o, mkMeta (mr_repo x) c (m_qualCache x)).
Definition add_class (c : Cls) (k : bytes) : Prog MR () := on_classes (fun x => (Ok (), addToCache c k x)).

(** The scope of an [HDBHandleLock] around code that uses the caches: however the
   body ends, the handle is given back. *)
Definition meta_scope {A} (body : Prog MR A) : Prog MR A := fun x =>
  match with_handle fileOk (fun r =>
          let (o, x) := body (mkMeta r (m_classCache x) (m_qualCache x)) in (Ok (o, m_classCache x, m_qualCache x), mr_repo x)) (mr_repo x) with
  | (Ok (o, cc, qc), r) => (o, mkMeta r cc qc)
  | (Throw e, r) => (Throw e, mkMeta r (m_classCache x) (m_qualCache x))
  | (Crash, r) => (Crash, mkMeta r (m_classCache x) (m_qualCache x))
  | (Diverge, r) => (Diverge, mkMeta r (m_classCache x) (m_qualCache x))
  end.

(** ** Reading *)

Definition node_class (n : HDBNodeData) : Prog MR Cls :=
  c ← on_node (nodeToCIMObject (cb := class_base) (Some n)); of_outcome (present c).

(** [_resolveClass].  The recursion goes up to the super classes. *)
Fixpoint _resolveClass (fuel : nat) (ns : bytes) (child : Cls) (node : HDBNode) : Prog MR Cls :=
  child ← of_outcome (mark_keyed child);
  let superID := cc_parentClassName child in
  if bool_decide (superID = []) then mret child
  else
    let pkey := _makeClassPath ns superID in
    cached ← on_classes (getFromCache pkey);
    parentClass ← match cached with
      | Some p => mret (Some p)
      | None =>
          '(pnode, _) ← on_node (getParent node);
          match pnode with
          | None => mret None
          | Some pn =>
              if areAllFlagsOn pn HDBNSNODE_FLAG then mret None
              else
                match fuel with
                | O => diverge
                | S fuel =>
                    p ← node_class pn;
                    p ← _resolveClass fuel ns p (Some pn);
                    add_class p pkey ;;
                    mret (Some p)
                end
          end
      end;
    match parentClass with None => mret child | Some p => of_outcome (propagate p child) end.

Definition _getClassFromNode (n : HDBNodeData) (ns : bytes) : Prog MR Cls :=
  c ← node_class n;
  fuel ← on_node (fun s => (Ok (file_fuel s), s));
  _resolveClass fuel ns c (Some n).

(** The name is read without the rest of the object. *)
Definition _getClassNameFromNode (n : HDBNodeData) : outcome bytes :=
  ((_ ← readSigV SIG_C SIG_Cv CIMClass_VERSION; readName) (take (Z.to_nat (m_bfrLen n)) (default [] (m_bfr n)))).1.

(** The error number and the class. *)
Inductive ClassResult := SUCCESS (cc : Cls) | NOT_FOUND | FAILED.

(** The class as the flags ask for it. *)
Definition filtered (localOnly includeQualifiers includeClassOrigin : bool) (propertyList : option (list bytes)) (cc : Cls) : outcome Cls :=
  if bool_decide (is_Some propertyList) || localOnly || negb includeQualifiers || negb includeClassOrigin
  then cls_clone localOnly includeQualifiers includeClassOrigin (default [] propertyList)
         (match propertyList with Some [] => true | _ => false end) cc
  else Ok cc.

Definition getCIMClass (ns className : bytes) (localOnly includeQualifiers includeClassOrigin : bool) (propertyList : option (list bytes))
    : Prog MR ClassResult :=
  on_repo throwIfNotOpen ;;
  let ckey := _makeClassPath ns className in
  cached ← on_classes (getFromCache ckey);
  cc ← match cached with
    | Some c => mret (Some c)
    | None =>
        meta_scope (
          node ← on_node (getNode ckey);
          match node with
          | Some n => c ← _getClassFromNode n ns; add_class c ckey ;; mret (Some c)
          | None => mret None
          end)
    end;
  match cc with
  | None => mret NOT_FOUND
  | Some cc => cc ← of_outcome (filtered localOnly includeQualifiers includeClassOrigin propertyList cc); mret (SUCCESS cc)
  end.

(** ** Writing *)

Definition deleteClass (ns className : bytes) : Prog MR bool :=
  on_repo throwIfNotOpen ;;
  let ckey := _makeClassPath ns className in
  meta_scope (
    node ← on_node (getNode ckey);
    match node with
    | None => mret false
    | Some n =>
        _ ← node_class n;
        on_classes (removeFromCache ckey) ;;
        '(ok, _) ← on_node (removeNode (Some n));
        mret ok
    end).

(** [getQualifierType] with the handle of the caller. *)
Definition scoped_getQualifierType (ns qualName : bytes) : Prog MR QT :=
  on_repo throwIfNotOpen ;;
  let qkey := _makeQualPath ns qualName in
  cached ← on_quals (getFromCache qkey);
  match cached with
  | Some qualType => mret qualType
  | None =>
      o ← on_node (getCIMObject (cb := qualt_base) qkey);
      match o with
      | Some qualType => add_qual qualType qkey ;; mret qualType
      | None =>
          ex ← on_repo (nameSpaceExists fileOk (qual_container ns));
          if ex : bool then throw "CIMException::NOT_FOUND" else throw "CIMException::INVALID_NAMESPACE"
      end
  end.

Fixpoint _resolveQualifiers (ns : bytes) (quals : list (option Qual)) : Prog MR (list (option Qual)) :=
  match quals with
  | [] => mret []
  | x :: quals =>
      q ← of_outcome (present x);
      qt ← scoped_getQualifierType ns (cq_name q);
      r ← _resolveQualifiers ns quals;
      mret (Some (add_flavors q qt) :: r)
  end.

(** The node of the super class and the class. *)
Definition adjustClass (ns : bytes) (childClass : Cls) : Prog MR (HDBNode * Cls) :=
  let parentName := cc_parentClassName childClass in
  if bool_decide (parentName = []) then c ← of_outcome (adjust_base childClass); mret (None, c)
  else
    parentNode ← on_node (getNode (_makeClassPath ns parentName));
    match parentNode with
    | None => throw "CIMException::INVALID_SUPERCLASS"
    | Some pn =>
        parentClass ← _getClassFromNode pn ns;
        c ← of_outcome (adjust_child equal parentClass childClass);
        mret (Some pn, c)
    end.

(** The node that a class is put below. *)
Definition class_parent (ns : bytes) (pnode : HDBNode) : Prog MR HDBNodeData :=
  match pnode with
  | Some p => mret p
  | None =>
      pnode ← on_node (getNameSpaceNode (class_container ns));
      match pnode with Some p => mret p | None => throw "CIMException::INVALID_NAMESPACE" end
  end.

Definition HDBCLSASSOC (c : Cls) : Z := if cc_associationFlag c then HDBCLSASSOCNODE_FLAG else 0.

(** The class comes back as it was stored. *)
Definition createClass (ns : bytes) (cimClass : Cls) : Prog MR Cls :=
  on_repo throwIfNotOpen ;;
  meta_scope (
    qra ← _resolveQualifiers ns (cc_qualifiers cimClass);
    '(pnode, cimClass) ← adjustClass ns (cls_quals cimClass qra);
    p ← class_parent ns pnode;
    let ckey := _makeClassPath ns (cc_name cimClass) in
    node ← on_node (getNode ckey);
    match node with
    | Some _ => throw "CIMException::ALREADY_EXISTS"
    | None => on_node (addCIMObject (cb := class_base) cimClass ckey (Some p) (HDBCLSASSOC cimClass)) ;; mret cimClass
    end).

Definition modifyClass (ns : bytes) (cimClass : Cls) : Prog MR () :=
  on_repo throwIfNotOpen ;;
  meta_scope (
    '(pnode, cimClass) ← adjustClass ns cimClass;
    p ← class_parent ns pnode;
    let ckey := _makeClassPath ns (cc_name cimClass) in
    node ← on_node (getNode ckey);
    match node with
    | None => throw "CIMException::NOT_FOUND"
    | Some n =>
        _ ← node_class n;
        on_classes (removeFromCache ckey) ;;
        on_node (updateCIMObject (cb := class_base) cimClass (Some n) (Some p))
    end).

(** ** Enumerations

   A result handler may call other parts of the repository, and the meta
   repository itself, while the enumeration holds its handle: it is a program over
   a state [X] that has the meta repository as a part. *)

Section Handlers.
Context {X : Type} (meta : X -> MR) (set_meta : MR -> X -> X).

Definition on_meta {A} (m : Prog MR A) : Prog X A := fun x => let (o, r) := m (meta x) in (o, set_meta r x).

(** The scope of a handle of the meta repository. *)
Definition handler_scope {A} (body : Prog X A) : Prog X A := fun x =>
  match with_handle fileOk (fun r =>
          let (o, x) := body (set_meta (mkMeta r (m_classCache (meta x)) (m_qualCache (meta x))) x) in (Ok (o, x), mr_repo (meta x))) (mr_repo (meta x)) with
  | (Ok (o, x), r) => (o, set_meta (mkMeta r (m_classCache (meta x)) (m_qualCache (meta x))) x)
  | (Throw e, r) => (Throw e, set_meta (mkMeta r (m_classCache (meta x)) (m_qualCache (meta x))) x)
  | (Crash, r) => (Crash, set_meta (mkMeta r (m_classCache (meta x)) (m_qualCache (meta x))) x)
  | (Diverge, r) => (Diverge, set_meta (mkMeta r (m_classCache (meta x)) (m_qualCache (meta x))) x)
  end.

(** The nodes from [node] on, each with what is below it when [deep]; the first
   row leaves out the containers of namespaces. *)
Fixpoint class_nodes {A} (visit : HDBNodeData -> Prog X A) (deep top : bool) (fuel : nat) (node : HDBNode) : Prog X (list A) :=
  match node with
  | None => mret []
  | Some n =>
      match fuel with
      | O => diverge
      | S fuel =>
          xs ← (if top && areAllFlagsOn n HDBNSNODE_FLAG then mret []
                else
                  x ← visit n;
                  sub ← (if deep then '(first, _) ← on_meta (on_node (getFirstChild (Some n))); class_nodes visit deep false fuel first else mret []);
                  mret (x :: sub));
          '(next, _) ← on_meta (on_node (getNextSibling (Some n)));
          ys ← class_nodes visit deep top fuel next;
          mret (xs ++ ys)
      end
  end.

(** The node whose children are listed. *)
Definition enum_parent (ns className : bytes) : Prog MR HDBNodeData :=
  if bool_decide (className = []) then
    pnode ← on_node (getNameSpaceNode (class_container ns));
    match pnode with Some p => mret p | None => throw "CIMException::INVALID_NAMESPACE" end
  else
    pnode ← on_node (getNode (_makeClassPath ns className));
    match pnode with
    | Some p => mret p
    | None =>
        pnode ← on_node (getNameSpaceNode (class_container ns));
        match pnode with
        | None => throw "CIMException::INVALID_NAMESPACE"
        | Some _ => throw "CIMException::INVALID_CLASS"
        end
    end.

Definition enum_nodes {A} (ns className : bytes) (deep : bool) (visit : HDBNodeData -> Prog X A) : Prog X (list A) :=
  on_meta (on_repo throwIfNotOpen) ;;
  handler_scope (
    p ← on_meta (enum_parent ns className);
    '(first, _) ← on_meta (on_node (getFirstChild (Some p)));
    fuel ← on_meta (on_node (fun s => (Ok (file_fuel s), s)));
    class_nodes visit deep true fuel first).

Definition enumClass {A} (ns className : bytes) (handle : Cls -> Prog X A) (deep localOnly includeQualifiers includeClassOrigin : bool) : Prog X (list A) :=
  enum_nodes ns className deep (fun n =>
    c ← on_meta (_getClassFromNode n ns);
    c ← of_outcome (cls_clone localOnly includeQualifiers includeClassOrigin [] false c);
    handle c).

Definition enumClassNames {A} (ns className : bytes) (handle : bytes -> Prog X A) (deep : bool) : Prog X (list A) :=
  enum_nodes ns className deep (fun n => name ← of_outcome (_getClassNameFromNode n); handle name).
End Handlers.

(** The classes right below the container that are associations. *)
Definition getTopLevelAssociations (ns : bytes) : Prog MR (list Cls) :=
  on_repo throwIfNotOpen ;;
  on_repo (with_handle fileOk (on_st (
    node ← getNameSpaceNode (class_container ns);
    match node with
    | None => throw "CIMException::INVALID_NAMESPACE"
    | Some n =>
        '(first, _) ← getFirstChild (Some n);
        s ← get;
        siblings_loop (file_fuel s) (fun n =>
          if negb (areAllFlagsOn n HDBNSNODE_FLAG) && areAllFlagsOn n HDBCLSASSOCNODE_FLAG then
            c ← nodeToCIMObject (cb := class_base) (Some n);
            c ← of_outcome (present c);
            if asserts && negb (cc_associationFlag c) then throw AssertionException else mret [c]
          else mret []) first
    end))).
End MetaClass.
