(* ===== verification/MetaClassFacts.v ===== *)
(** * Classes and their super classes

   [resolves f ns k c up]: the class at node [k] of the forest, completed by its
   super classes, is [c]; [up] are the nodes of the super classes.  Reading a class
   is proved to give this class, whatever the cache holds, and to end; creating a
   class and deleting one without sub-classes keep the cache coherent. *)

From S2P Require Import Prelude FileIO HdbCommon Index Hdb HdbHeap FreeList HdbNode HdbInv HdbAdd HdbUpdate HdbSpec HdbContract HdbHold HdbForest.
From S2P Require Import Repo RepoFacts RepoOps Cache Meta MetaOps MetaEnum MetaClass.
From S2P Require Import Blocxx CimSerial CimData CimIO CimOps CimSync ClassOps CimStore.

(** ** Ancestors *)

(** The keys from a node up to its root. *)
Inductive chain (f : Forest) : bytes -> list bytes -> Prop :=
| chain_root k n : f_nodes f !! k = Some n -> fn_parent n = [] -> chain f k [k]
| chain_up k n l : f_nodes f !! k = Some n -> chain f (fn_parent n) l -> chain f k (k :: l).

Lemma chain_exists f k n : Forest_ok f -> f_nodes f !! k = Some n -> exists l, chain f k l.
Proof.
  intros Hf Hn. destruct (fo_rooted f Hf k n Hn) as (r & Hr & Hb).
  destruct (fo_roots f Hf) as [_ Hroots]. apply Hroots in Hr as (nr & Hnr & Hp).
  clear Hn n. induction Hb as [|x nx Hx _ [l IH]]; [exists [r]; by eapply chain_root|]. exists (x :: l). by eapply chain_up.
Qed.

Lemma chain_nil f l : f_nodes f !! [] = None -> ~ chain f [] l.
Proof. intros H0 H. inversion H; congruence. Qed.

Lemma chain_det f k l l' : f_nodes f !! [] = None -> chain f k l -> chain f k l' -> l = l'.
Proof.
  intros H0 H. revert l'. induction H as [k n Hn Hp|k n l Hn Hc IH]; intros l' H'.
  - inversion H' as [k' n' Hn' Hp'|k' n' l2 Hn' Hc']; subst; [done|]. simplify_eq. rewrite Hp in Hc'. by destruct (chain_nil f l2 H0).
  - inversion H' as [k' n' Hn' Hp'|k' n' l2 Hn' Hc']; subst; simplify_eq.
    + rewrite Hp' in Hc. by destruct (chain_nil f l H0).
    + f_equal. by apply IH.
Qed.

Lemma chain_suffix f k l x : chain f k l -> x ∈ l -> exists l', chain f x l' /\ (length l' <= length l)%nat.
Proof.
  induction 1 as [k n Hn Hp|k n l Hn H IH].
  - intros ->%list_elem_of_singleton. exists [k]. split; [by eapply chain_root|done].
  - intros [->|Hx]%elem_of_cons; [exists (k :: l); split; [by eapply chain_up|done]|].
    destruct (IH Hx) as (l' & Hl' & Hlen). exists l'. split; [done|]. cbn. lia.
Qed.

Lemma chain_nodup f k l : f_nodes f !! [] = None -> chain f k l -> NoDup l /\ forall x, x ∈ l -> is_Some (f_nodes f !! x).
Proof.
  intros H0. induction 1 as [k n Hn Hp|k n l Hn H [IH1 IH2]].
  - split; [apply NoDup_singleton|]. intros x ->%list_elem_of_singleton. eauto.
  - split; [|intros x [->|Hx]%elem_of_cons; eauto]. apply NoDup_cons. split; [|done]. intros Hk.
    destruct (chain_suffix _ _ _ _ H Hk) as (l' & Hl' & Hlen).
    pose proof (chain_det f k _ _ H0 (chain_up f k n l Hn H) Hl') as <-. cbn in Hlen. lia.
Qed.

(** ** What is below a row of siblings *)

(** The nodes of a row, each followed by what is below it when [deep]. *)
Inductive listing (f : Forest) (deep : bool) : list bytes -> list bytes -> Prop :=
| li_nil : listing f deep [] []
| li_flat k l out : deep = false -> listing f deep l out -> listing f deep (k :: l) (k :: out)
| li_deep k n l sub out :
    deep = true -> f_nodes f !! k = Some n -> listing f deep (fn_children n) sub -> listing f deep l out -> listing f deep (k :: l) (k :: sub ++ out).

(** The nodes are children of [p]. *)
Definition siblings_at f (p : bytes) (l : list bytes) : Prop := forall k, k ∈ l -> exists n, f_nodes f !! k = Some n /\ fn_parent n = p.

Lemma siblings_children f k n : Forest_ok f -> f_nodes f !! k = Some n -> siblings_at f k (fn_children n).
Proof. intros Hf Hn c Hc. by apply (fo_children f Hf k n Hn). Qed.

Lemma siblings_tail f p k l : siblings_at f p (k :: l) -> siblings_at f p l.
Proof. intros H c Hc. apply H. by right. Qed.

Lemma below_trans f a b c : f_below f a b -> f_below f b c -> f_below f a c.
Proof. intros Hab. induction 1 as [|x n Hx _ IH]; [done|]. by eapply fb_child. Qed.

Lemma child_below f p k l : siblings_at f p l -> k ∈ l -> f_below f p k.
Proof. intros H Hk. destruct (H k Hk) as (n & Hn & Hp). eapply fb_child; [done|]. rewrite Hp. constructor. Qed.

Lemma below_chain f k x l : f_nodes f !! [] = None -> f_below f k x -> chain f x l -> is_Some (f_nodes f !! k) ->
  exists l1 l2, l = l1 ++ k :: l2 /\ chain f k (k :: l2).
Proof.
  intros H0 Hb. revert l. induction Hb as [|x n Hx Hb IH]; intros l Hl Hk.
  - exists []. inversion Hl; subst; eexists; split; done.
  - inversion Hl as [x' n' Hn' Hp'|x' n' l' Hn' Hl']; subst; simplify_eq.
    + rewrite Hp' in Hb. exfalso. destruct Hk as [nk Hk]. inversion Hb as [|x0 n0 Hx0]; subst; congruence.
    + destruct (IH l' Hl' Hk) as (l1 & l2 & -> & Hc). exists (x :: l1), l2. done.
Qed.

Lemma chain_parent f k n l : f_nodes f !! k = Some n -> chain f k (k :: l) -> (fn_parent n = [] /\ l = []) \/ chain f (fn_parent n) l.
Proof. intros Hn H. inversion H; simplify_eq; auto. Qed.

(** Nothing is below two siblings. *)
Lemma below_apart f p l k k' x : Forest_ok f -> siblings_at f p l -> k ∈ l -> k' ∈ l -> f_below f k x -> f_below f k' x -> is_Some (f_nodes f !! x) -> k = k'.
Proof.
  intros Hf Hl Hk Hk' Hb Hb' [nx Hx]. pose proof (nil_absent f Hf) as H0. destruct (chain_exists f x nx Hf Hx) as (lx & Hlx).
  destruct (Hl k Hk) as (n & Hn & Hp). destruct (Hl k' Hk') as (n' & Hn' & Hp').
  destruct (below_chain f k x lx H0 Hb Hlx) as (l1 & l2 & E & Hc); [eauto|].
  destruct (below_chain f k' x lx H0 Hb' Hlx) as (l1' & l2' & E' & Hc'); [eauto|].
  assert (l2 = l2') as <-.
  { apply (chain_parent f k n) in Hc as [[E0 ->]|Hc]; apply (chain_parent f k' n') in Hc' as [[E0' ->]|Hc']; try done;
      [rewrite Hp', <- Hp, E0 in Hc'|rewrite Hp, <- Hp', E0' in Hc|rewrite Hp in Hc; rewrite Hp' in Hc'; by eapply chain_det];
      by edestruct chain_nil. }
  rewrite E in E'. apply app_inj_2 in E' as [_ [= ->]]; done.
Qed.

(** A node is not below its children. *)
Lemma not_below_child f k n c : Forest_ok f -> f_nodes f !! k = Some n -> c ∈ fn_children n -> ~ f_below f c k.
Proof.
  intros Hf Hn Hc Hb. pose proof (nil_absent f Hf) as H0. destruct (siblings_children f k n Hf Hn c Hc) as (nc & Hnc & Hp).
  destruct (chain_exists f k n Hf Hn) as (l & Hl). destruct (below_chain f c k l H0 Hb Hl) as (l1 & l2 & E & Hcc); [eauto|].
  assert (chain f c (c :: l)) as Hcl by (eapply chain_up; [done|by rewrite Hp]).
  pose proof (chain_det f c _ _ H0 Hcl Hcc) as [= E2]. apply (f_equal length) in E. rewrite E2, length_app in E. cbn in E. lia.
Qed.

Lemma below_step f k n x : Forest_ok f -> f_nodes f !! k = Some n -> f_below f k x -> x = k \/ exists c, c ∈ fn_children n /\ f_below f c x.
Proof.
  intros Hf Hn. induction 1 as [|x m Hx Hb [IH|(c & Hc & IH)]]; [by left|right; exists x|right; exists c].
  - split; [|constructor]. apply (fo_children f Hf k n Hn). eauto.
  - split; [done|]. by eapply fb_child.
Qed.

Lemma listing_in f deep l out p x : Forest_ok f -> listing f deep l out -> siblings_at f p l -> x ∈ out ->
  is_Some (f_nodes f !! x) /\ exists k, k ∈ l /\ f_below f k x.
Proof.
  intros Hf H. revert p. induction H as [|k l out _ _ IH|k n l sub out _ Hn _ IHs _ IH]; intros p Hp Hx; [by apply not_elem_of_nil in Hx|..].
  - destruct (Hp k) as (n & Hn & _); [left|]. apply elem_of_cons in Hx as [->|Hx]; [split; [eauto|exists k; split; [left|constructor]]|].
    destruct (IH p (siblings_tail _ _ _ _ Hp) Hx) as (Hs & k' & Hk' & Hb). split; [done|]. exists k'. split; [by right|done].
  - apply elem_of_cons in Hx as [->|[Hx|Hx]%elem_of_app]; [split; [eauto|exists k; split; [left|constructor]]|..].
    + pose proof (siblings_children f k n Hf Hn) as Hch. destruct (IHs k Hch Hx) as (Hs & c & Hc & Hb). split; [done|]. exists k. split; [left|].
      eapply below_trans; [by eapply child_below|done].
    + destruct (IH p (siblings_tail _ _ _ _ Hp) Hx) as (Hs & k' & Hk' & Hb). split; [done|]. exists k'. split; [by right|done].
Qed.

Lemma listing_all f l out k x : Forest_ok f -> listing f true l out -> k ∈ l -> f_below f k x -> x ∈ out.
Proof.
  intros Hf H. revert k. induction H as [|k l out [=]|k n l sub out _ Hn _ IHs _ IH]; intros k' Hk' Hb; [by apply not_elem_of_nil in Hk'|].
  apply elem_of_cons in Hk' as [->|Hk']; [|right; apply elem_of_app; right; by eapply IH].
  destruct (below_step f k n x Hf Hn Hb) as [->|(c & Hc & Hbc)]; [left|]. right. apply elem_of_app. left. by eapply IHs.
Qed.

Lemma listing_nodup f deep l out p : Forest_ok f -> listing f deep l out -> siblings_at f p l -> NoDup l -> NoDup out.
Proof.
  intros Hf H. revert p. induction H as [|k l out Hd H IH|k n l sub out Hd Hn Hs IHs H IH]; intros p Hp Hnd; [constructor|..];
    apply NoDup_cons in Hnd as [Hk Hnd]; pose proof (siblings_tail _ _ _ _ Hp) as Hpl.
  - apply NoDup_cons. split; [|by eapply IH]. intros Hin. destruct (listing_in _ _ _ _ p _ Hf H Hpl Hin) as (Hsk & k' & Hk' & Hb). apply Hk.
    rewrite (below_apart f p (k :: l) k k' k); auto; [left|by right|constructor].
  - pose proof (siblings_children f k n Hf Hn) as Hch. destruct (fo_children f Hf k n Hn) as [Hndc _].
    assert (forall x, x ∈ out -> ~ f_below f k x) as Hapart.
    { intros x Hx Hb. destruct (listing_in _ _ _ _ p _ Hf H Hpl Hx) as (Hsx & k' & Hk' & Hb'). apply Hk.
      rewrite (below_apart f p (k :: l) k k' x); auto; [left|by right]. }
    apply NoDup_cons. split; [|apply NoDup_app; split_and!; [by eapply IHs| |by eapply IH]].
    + intros [Hin|Hin]%elem_of_app; [|eapply Hapart; [done|constructor]].
      destruct (listing_in _ _ _ _ k _ Hf Hs Hch Hin) as (_ & c & Hc & Hb). by eapply not_below_child.
    + intros x Hx Hx'. destruct (listing_in _ _ _ _ k _ Hf Hs Hch Hx) as (_ & c & Hc & Hb). apply (Hapart x Hx').
      eapply below_trans; [by eapply child_below|done].
Qed.

Lemma chain_bound f k l : f_nodes f !! [] = None -> chain f k l -> (length l <= size (f_nodes f))%nat.
Proof.
  intros H0 Hc. destruct (chain_nodup f k l H0 Hc) as [Hnd Hin]. rewrite <- (size_list_to_set (C := gset bytes) l Hnd), <- (size_dom (D := gset bytes)).
  apply subseteq_size. intros x Hx%elem_of_list_to_set. apply elem_of_dom. by apply Hin.
Qed.

(** Every row has a listing. *)
Lemma listing_exists f deep l p : Forest_ok f -> siblings_at f p l -> exists out, listing f deep l out.
Proof.
  intros Hf. pose proof (nil_absent f Hf) as H0. destruct deep; [|intros _; induction l as [|k l [out IH]]; [exists []; constructor|exists (k :: out); by constructor]].
  assert (forall m l p, siblings_at f p l -> (forall k lk, k ∈ l -> chain f k lk -> (size (f_nodes f) < length lk + m)%nat) -> exists out, listing f true l out) as H.
  { clear l p. induction m as [|m IHm]; intros l p Hl Hm.
    { destruct l as [|k l]; [exists []; constructor|]. destruct (Hl k) as (n & Hn & _); [left|]. destruct (chain_exists f k n Hf Hn) as (lk & Hlk).
      pose proof (chain_bound f k lk H0 Hlk). specialize (Hm k lk ltac:(left) Hlk). lia. }
    induction l as [|k l IH]; [exists []; constructor|]. destruct IH as [out Hout]; [by eapply siblings_tail|intros k' lk Hk'; apply Hm; by right|].
    destruct (Hl k) as (n & Hn & _); [left|]. destruct (IHm (fn_children n) k) as [sub Hsub]; [by apply siblings_children| |exists (k :: sub ++ out); by econstructor].
    intros c lc Hc Hlc. destruct (siblings_children f k n Hf Hn c Hc) as (nc & Hnc & Hpc). destruct (chain_exists f k n Hf Hn) as (lk & Hlk).
    assert (chain f c (c :: lk)) as Hcl by (eapply chain_up; [done|by rewrite Hpc]). rewrite (chain_det f c _ _ H0 Hlc Hcl).
    specialize (Hm k lk ltac:(left) Hlk). cbn. lia. }
  intros Hl. apply (H (S (size (f_nodes f))) l p Hl). intros. lia.
Qed.

Section Fuel.
Context {F : Type} {fo : FileOps F} {fl : FileLaws F} {I : Type} {io : IndexOps I} {il : IndexLaws I}.

(** There are never more nodes than the file has bytes. *)
Lemma nodes_fuel (s : St F I) f l : Db s f -> NoDup l -> (forall k, k ∈ l -> is_Some (f_nodes f !! k)) -> (length l <= file_fuel s)%nat.
Proof.
  intros (v & A & H & HI & Hm) Hnd Hl.
  assert (forall k, k ∈ l -> exists o a, v_idx v !! k = Some o /\ nodes A !! o = Some a /\ a_key a = k) as Ho.
  { intros k Hk. destruct (Hl k Hk) as (n & Hn). destruct (models_find _ _ _ _ Hm Hn) as (o & a & lo & Ha & Hka & _).
    exists o, a. split_and!; auto. apply (inv_idx _ _ HI). eauto. }
  rewrite <- (length_fmap (fun k => default 0 (v_idx v !! k)) l). apply (cells_fuel s v); [done| |].
  - intros x (k & -> & Hk)%list_elem_of_fmap. destruct (Ho k Hk) as (o & a & -> & Ha & _).
    destruct (inv_node _ _ HI o a Ha) as (? & c & _ & Hc & _). eauto.
  - apply NoDup_fmap_2_strong; [|done]. intros x y Hx Hy. destruct (Ho x Hx) as (o & a & -> & Ha & <-).
    destruct (Ho y Hy) as (o' & a' & -> & Ha' & <-). cbn. intros ->. congruence.
Qed.
End Fuel.

(** ** Completed classes *)

Section Resolved.
Context {so : StringOps} {bx : Blocxx} {ss : StringSearch} {sc : StringConv} (asserts : bool).
Abbreviation Cls := (CLSData CIMValueImpl).
Abbreviation holds f k x := (stores (cb := Class_base asserts) f k x).

Inductive resolves (f : Forest) (ns : bytes) : bytes -> Cls -> list bytes -> Prop :=
| res_base k x c : holds f k x -> mark_keyed x = Ok c -> cc_parentClassName x = [] -> resolves f ns k c []
| res_child k n x x' p c up :
    f_nodes f !! k = Some n -> readObject (CIMBase := Class_base asserts) (fn_data n) = Ok x -> mark_keyed x = Ok x' ->
    cc_parentClassName x <> [] -> fn_parent n = _makeClassPath ns (cc_parentClassName x) ->
    (forall pn, f_nodes f !! fn_parent n = Some pn -> has_flags HDBNSNODE_FLAG pn = false) ->
    resolves f ns (fn_parent n) p up -> propagate p x' = Ok c -> resolves f ns k c (fn_parent n :: up).

Lemma resolves_node f ns k c up : resolves f ns k c up -> exists n x, f_nodes f !! k = Some n /\ readObject (CIMBase := Class_base asserts) (fn_data n) = Ok x.
Proof. intros H. inversion H as [k' x c' (n & Hn & Hx)|]; subst; eauto. Qed.

Lemma resolves_det f ns ns' k c c' up up' : resolves f ns k c up -> resolves f ns' k c' up' -> c = c' /\ up = up'.
Proof.
  intros H. revert ns' c' up'. induction H as [k x c (n & Hn & Hx) Hm Hp|k n x x' p c up Hn Hx Hm Hp Hk _ H IH Hc]; intros ns' c' up' H'.
  - inversion H' as [k1 x1 c1 (n1 & Hn1 & Hx1) Hm1 Hp1|k1 n1 x1 x1' p1 c1 up1 Hn1 Hx1 Hm1 Hp1]; subst; simplify_eq; naive_solver congruence.
  - inversion H' as [k1 x1 c1 (n1 & Hn1 & Hx1) Hm1 Hp1|k1 n1 x1 x1' p1 c1 up1 Hn1 Hx1 Hm1 Hp1 Hk1 _ H1 Hc1]; subst; simplify_eq; [naive_solver congruence|].
    rewrite Hx in Hx1. injection Hx1 as <-. rewrite Hm in Hm1. injection Hm1 as <-. destruct (IH _ _ _ H1) as [-> ->]. split; congruence.
Qed.

(** The nodes of the super classes are ancestors. *)
Lemma resolves_chain f ns k c up l : f_nodes f !! [] = None -> resolves f ns k c up -> chain f k l -> exists l', l = (k :: up) ++ l'.
Proof.
  intros H0 H. revert l. induction H as [k x c (n & Hn & Hx) Hm Hp|k n x x' p c up Hn Hx Hm Hp Hk _ H IH Hc]; intros l Hl.
  - inversion Hl; subst; cbn; [by exists []|by eexists].
  - inversion Hl as [k1 n1 Hn1 Hp1|k1 n1 l1 Hn1 H1]; subst; simplify_eq.
    + rewrite Hp1 in Hk. unfold _makeClassPath, class_container in Hk. by destruct (CLASS_CONTAINER).
    + destruct (IH _ H1) as [l' ->]. by exists l'.
Qed.

(** Only the nodes from the class up matter. *)
Definition same_node (n n' : FNode) : Prop := fn_data n' = fn_data n /\ fn_parent n' = fn_parent n /\ fn_flags n' = fn_flags n.

Lemma resolves_on (P : bytes -> Prop) f f' ns k c up :
  (forall k n, P k -> f_nodes f !! k = Some n -> P (fn_parent n) /\ exists n', f_nodes f' !! k = Some n' /\ same_node n n') ->
  P k -> resolves f ns k c up -> resolves f' ns k c up.
Proof.
  intros He HP. induction 1 as [k x c (n & Hn & Hx) Hm Hp|k n x x' p c up Hn Hx Hm Hp Hk Hf H IH Hc].
  - destruct (He _ _ HP Hn) as (_ & n' & Hn' & Hd & _). eapply res_base; [exists n'; split; [done|by rewrite Hd]|done..].
  - destruct (He _ _ HP Hn) as (HPp & n' & Hn' & Hd & Hpa & _). rewrite <- Hpa. eapply res_child; eauto.
    + by rewrite Hd.
    + by rewrite Hpa.
    + rewrite Hpa. destruct (resolves_node _ _ _ _ _ H) as (pn & px & Hpn & _). destruct (He _ _ HPp Hpn) as (_ & pn' & Hpn' & _ & _ & Hfl).
      intros pn0 Hpn0. simplify_eq. unfold has_flags. rewrite Hfl. by apply Hf.
    + rewrite Hpa. by apply IH.
Qed.

Lemma resolves_attach f pk k d flg ns k' c up : f_nodes f !! k = None -> resolves f ns k' c up -> resolves (f_attach pk k d flg f) ns k' c up.
Proof.
  intros Hk. apply (resolves_on (fun _ => True)); [|done]. intros x n _ Hn. split; [done|].
  rewrite f_attach_nodes, decide_False by congruence. case_decide; [|by exists n]. rewrite Hn. by eexists.
Qed.

Lemma resolves_prune f f' k n ns k' c up :
  Forest_ok f -> f_nodes f !! k = Some n -> fn_children n = [] -> f_prune f f' k -> k' <> k -> resolves f ns k' c up -> resolves f' ns k' c up.
Proof.
  intros Hf Hk Hch [Hp _]. apply (resolves_on (fun x => x <> k)). intros x m Hx Hm. split.
  - intros E. destruct (not_elem_of_nil x). rewrite <- Hch. apply (fo_children f Hf k n Hk). eauto.
  - exists (fn_drop k m). split; [|done]. apply Hp. exists m. split_and!; [done| |done]. intros Hb. apply Hx. by eapply below_leaf.
Qed.

(** *** Signatures *)

Lemma readSig_first {A} sig (k : () -> Prog bytes A) b x :
  ((readSig sig ≫= k) b).1 = Ok x -> exists b1 b2, read 1 b = (Ok b1, b2) /\ be_dec b1 = sig.
Proof.
  unfold readSig, mbind, Prog_bind. destruct (read 1 b) as [[b1| | |] b2]; try done. destruct (be_dec b1 =? sig) eqn:E; [|done].
  intros _. exists b1, b2. split; [done|]. by apply Z.eqb_eq.
Qed.

Lemma readSigV_first {A} sig sig' v (k : Z -> Prog bytes A) b x :
  ((readSigV sig sig' v ≫= k) b).1 = Ok x -> exists b1 b2, read 1 b = (Ok b1, b2) /\ (be_dec b1 = sig \/ be_dec b1 = sig').
Proof.
  unfold readSigV, mbind, Prog_bind. destruct (read 1 b) as [[b1| | |] b2]; try done. destruct (be_dec b1 =? sig) eqn:E.
  { intros _. exists b1, b2. split; [done|]. left. by apply Z.eqb_eq. }
  destruct (be_dec b1 =? sig') eqn:E'; [|done]. intros _. exists b1, b2. split; [done|]. right. by apply Z.eqb_eq.
Qed.

(** No data are those of a class and of a qualifier type. *)
Lemma class_not_qualt b x y : readObject (CIMBase := Class_base asserts) b = Ok x -> readObject (CIMBase := QualifierType_base asserts) b = Ok y -> False.
Proof.
  cbn. unfold read_from, CIMClass_readObject, CIMQualifierType_readObject, with_values.
  intros (c & Hc & _)%outcome_bind_ok (q & Hq & _)%outcome_bind_ok.
  apply readSigV_first in Hc as (b1 & b2 & E & Hc). apply readSig_first in Hq as (b3 & b4 & E' & Hq). rewrite E in E'. injection E' as <- _.
  unfold SIG_C, SIG_Cv, SIG_T in *. lia.
Qed.
End Resolved.

(** ** Inside the scope of a handle *)

Section Scope.
Context {F : Type} {fo : FileOps F} {fl : FileLaws F} {I : Type} {io : IndexOps I} {il : IndexLaws I}.
Context {so : StringOps} {sl : StringLaws} {bx : Blocxx} {ss : StringSearch} {sc : StringConv} (asserts : bool).
Abbreviation QT := (QUALTData CIMValueImpl).
Abbreviation Cls := (CLSData CIMValueImpl).
Abbreviation qualt_base := (QualifierType_base asserts).
Abbreviation class_base := (Class_base asserts).
Abbreviation resolved := (resolves asserts).
Implicit Types (m : MetaRepository F I QT Cls) (f : Forest) (l : list (bytes * Cls)).

(** Every cached class is the completed class of its key. *)
Definition classes_of f l : Prop := forall k c, lru_find k l = Some c -> exists ns up, resolved f ns k c up.

Record ClassOk m f : Prop := {
  co_meta : MetaOk (cb := qualt_base) m f;
  co_classes : exists l, cache_ok (m_classCache m) l /\ classes_of f l;
}.

(** What holds while a handle is in use and nothing has been changed yet. *)
Record Live (hs : list HandleData) v A f l m : Prop := {
  lv_open : r_opened (mr_repo m) = true;
  lv_pool : pool_step hs (m_handles (mr_repo m));
  lv_pool_ok : pool_ok (m_handles (mr_repo m));
  lv_db : DbV (r_st (mr_repo m)) v A f;
  lv_quals : coherent (cb := qualt_base) (m_qualCache m) f;
  lv_cache : cache_ok (m_classCache m) l;
  lv_classes : classes_of f l;
}.

Definition Done (hs : list HandleData) f m : Prop := ClassOk m f /\ pool_step hs (m_handles (mr_repo m)).

Lemma live_repo hs v A f l m : Live hs v A f l m -> RepoOk (mr_repo m) f.
Proof using. intros []. constructor; [done..|]. by eapply DbV_Db. Qed.

Lemma live_done hs v A f l m : Live hs v A f l m -> Done hs f m.
Proof using. intros H. split; [|apply H]. constructor; [constructor; [by eapply live_repo|apply H]|]. exists l. split; apply H. Qed.

Lemma live_forest hs v A f l m : Live hs v A f l m -> Forest_ok f.
Proof using fl il. intros H. eapply Db_forest_ok, DbV_Db, H. Qed.

(** An operation that only reads the database. *)
Lemma live_reads {B} (p : Prog (St F I) B) (R : B -> Prop) hs v A f l m Q :
  Live hs v A f l m -> (forall s, DbV s v A f -> wp p (fun a s' => R a /\ DbV s' v A f) s) ->
  (forall a m', R a -> Live hs v A f l m' -> m_qualCache m' = m_qualCache m -> Q a m') -> wp (on_node p) Q m.
Proof using.
  intros H Hp HQ. specialize (Hp _ (lv_db _ _ _ _ _ _ H)). apply wp_run in Hp as (a & s' & E & Ha & Hd).
  unfold wp, on_node, on_repo, on_st. rewrite E. apply HQ; [done| |done]. destruct H. by constructor.
Qed.

Lemma live_on_node {B} (p : Prog (St F I) B) (R : B -> Prop) hs v A f l m Q :
  Live hs v A f l m -> (forall s, DbV s v A f -> wp p (fun a s' => R a /\ DbV s' v A f) s) ->
  (forall a m', R a -> Live hs v A f l m' -> Q a m') -> wp (on_node p) Q m.
Proof using. intros H Hp HQ. eapply live_reads; [done..|]. intros a m' Ha Hm _. by apply HQ. Qed.

Lemma live_getNode hs v A f l m k Q :
  Live hs v A f l m -> key_ok k -> (forall r m', got v A f k r -> Live hs v A f l m' -> Q r m') -> wp (on_node (getNode k)) Q m.
Proof using fl il.
  intros H Hk HQ. eapply (live_on_node _ (got v A f k)); [done| |done]. intros s Hd. by eapply hold_getNode.
Qed.

Lemma live_getParent hs v A f l m k nd n Q :
  Live hs v A f l m -> Held v A k nd -> f_nodes f !! k = Some n ->
  (forall r nd' m', reached v A (fn_parent n) r -> Live hs v A f l m' -> Q (r, nd') m') -> wp (on_node (getParent (Some nd))) Q m.
Proof using fl il.
  intros H Hh Hn HQ. eapply (live_on_node _ (fun x => reached v A (fn_parent n) x.1)); [done| |].
  - intros s Hd. apply (hold_walk s v A f k nd n ToParent); done.
  - intros [r nd'] m' Hr Hm. by apply HQ.
Qed.

Lemma live_node_class hs v A f l m k nd x Q :
  Live hs v A f l m -> Held v A k nd -> stores (cb := class_base) f k x ->
  (forall m', Live hs v A f l m' -> Q x m') -> wp (node_class asserts nd) Q m.
Proof using fl il.
  intros H Hh Hx HQ. unfold node_class. wstep. eapply (live_on_node _ (fun o => o = Some x)); [done| |].
  - intros s Hd. unfold wp. by rewrite (nodeToCIMObject_spec (cb := class_base) s v A f k nd x).
  - intros o m' -> Hm. by apply HQ.
Qed.

(** *** The cache of classes *)

Lemma live_cached hs v A f l m k Q :
  Live hs v A f l m ->
  (forall l' m', (forall k', lru_find k' l' = lru_find k' l) -> Live hs v A f l' m' -> Q (lru_find k l) m') ->
  wp (on_classes (getFromCache k)) Q m.
Proof using.
  intros H HQ. destruct (getFromCache_ok (m_classCache m) l k (lv_cache _ _ _ _ _ _ H)) as (c' & E & Hc & _).
  unfold wp, on_classes. rewrite E. apply (HQ (lru_use k l)); [intros k'; apply lru_use_find|]. destruct H. constructor; auto.
  intros k' c. cbn. rewrite lru_use_find. eauto.
Qed.

Lemma lru_add_absent (max : Z) k k' (c : Cls) l : NoDup l.*1 -> k' <> k -> lru_find k' l = None -> lru_find k' (lru_add max k c l) = None.
Proof using.
  intros Hnd Hne Hk. unfold lru_add. rewrite lru_find_app. destruct (lru_find k' (lru_trim max l)) as [y|] eqn:E.
  - apply lru_trim_find in E; [congruence|done].
  - simpl. by rewrite bool_decide_false by congruence.
Qed.

Lemma classes_add f l max ns k c up : NoDup l.*1 -> classes_of f l -> resolved f ns k c up -> classes_of f (lru_add max k c l).
Proof using.
  intros Hnd Hl Hr k' y. unfold lru_add. rewrite lru_find_app. destruct (lru_find k' (lru_trim max l)) as [z|] eqn:E.
  - intros [= <-]. apply Hl. by eapply lru_trim_find.
  - simpl. case_bool_decide; [|done]. intros [= <-]. subst. eauto.
Qed.

Lemma live_add hs v A f l m ns k c up Q :
  Live hs v A f l m -> lru_find k l = None -> resolved f ns k c up ->
  (forall l' m', (forall k', k' <> k -> lru_find k' l = None -> lru_find k' l' = None) -> Live hs v A f l' m' -> Q () m') ->
  wp (add_class c k) Q m.
Proof using.
  intros H Hk Hr HQ. assert (NoDup l.*1) as Hnd by (apply (lv_cache _ _ _ _ _ _ H)). unfold wp, add_class, on_classes.
  apply (HQ (lru_add (maxCacheSize (m_classCache m)) k c l)); [intros k'; by apply lru_add_absent|].
  destruct H. constructor; auto; cbn; [by apply addToCache_ok|by eapply classes_add].
Qed.

(** *** Completing a class *)

(** The nodes [k :: up] are distinct. *)
Lemma resolved_nodup f ns k c up : Forest_ok f -> resolved f ns k c up -> NoDup (k :: up) /\ forall x, x ∈ k :: up -> is_Some (f_nodes f !! x).
Proof using.
  intros Hf Hr. destruct (resolves_node _ _ _ _ _ _ Hr) as (n & x & Hn & _). destruct (chain_exists f k n Hf Hn) as (ch & Hch).
  destruct (resolves_chain _ _ _ _ _ _ _ (nil_absent f Hf) Hr Hch) as (ch' & ->).
  destruct (chain_nodup f k _ (nil_absent f Hf) Hch) as [Hnd Hin]. split; [by apply NoDup_app in Hnd as [? _]|].
  intros y Hy. apply Hin. apply elem_of_app. by left.
Qed.

(** What [_resolveClass] leaves: the cache has grown by super classes only. *)
Definition Grown hs v A f l (up : list bytes) m : Prop :=
  exists l', Live hs v A f l' m /\ forall k', k' ∉ up -> lru_find k' l = None -> lru_find k' l' = None.

Lemma mark_keyed_parent (x x' : Cls) : mark_keyed x = Ok x' -> cc_parentClassName x' = cc_parentClassName x.
Proof using. by intros ->%mark_keyed_shape. Qed.

Lemma _resolveClass_spec hs v A f ns : forall fuel k c up nd x m l,
  resolved f ns k c up -> stores (cb := class_base) f k x -> Held v A k nd -> (length up <= fuel)%nat -> Live hs v A f l m ->
  wp (_resolveClass asserts fuel ns x (Some nd)) (fun c' m' => c' = c /\ Grown hs v A f l up m') m.
Proof using fl il.
  induction fuel as [|fuel IH]; intros k c up nd x m l Hr Hx Hh Hfuel Hm;
    (inversion Hr as [k1 x1 c1 Hx1 Hmk Hp|k1 n x1 x' p c1 up1 Hn Hx1 Hmk Hp Ekey Hfl Hrp Hprop]; subst; cbn [_resolveClass]);
    try (assert (x1 = x) as -> by (first [by eapply (stores_inj (cb := class_base))|eapply (stores_inj (cb := class_base)); [by exists n|done]]));
    wstep; (eapply wp_outcome; [exact Hmk|]); rewrite ?(mark_keyed_parent _ _ Hmk).
  1, 3: rewrite bool_decide_true by done; wstep; split; [done|]; exists l; done.
  { cbn in Hfuel. lia. }
  rewrite bool_decide_false by done. wstep. rewrite <- Ekey. eapply live_cached; [done|]. intros l1 m1 Hl1 Hm1. wstep.
  destruct (lru_find (fn_parent n) l) as [p'|] eqn:Ec.
  - wstep. rewrite <- Hl1 in Ec. destruct (lv_classes _ _ _ _ _ _ Hm1 _ _ Ec) as (ns' & up' & Hr'). destruct (resolves_det _ _ _ _ _ _ _ _ _ Hr' Hrp) as [-> ->].
    eapply wp_outcome; [exact Hprop|]. split; [done|]. exists l1. split; [done|]. intros k' _ Hk'. by rewrite Hl1.
  - wstep. eapply live_getParent; [done..|]. intros r nd' m2 Hre Hm2. cbv beta iota.
    destruct (resolves_node _ _ _ _ _ _ Hrp) as (pn & px & Hpn & Hpx).
    destruct (reached_key (r_st (mr_repo m2)) v A f _ pn r (lv_db _ _ _ _ _ _ Hm2) Hpn Hre) as (pnd & -> & Hph).
    rewrite (areAllFlagsOn_has pnd pn HDBNSNODE_FLAG), (Hfl pn Hpn) by (by eapply held_flags; [apply Hm2|..]).
    assert (stores (cb := class_base) f (fn_parent n) px) as Hst by (by exists pn).
    wstep. eapply live_node_class; [done..|]. intros m3 Hm3. wstep.
    eapply wp_mono; [eapply (IH (fn_parent n) p up1 pnd px m3 l1); [done..|cbn in Hfuel; lia|done]|].
    intros p' m4 (-> & l4 & Hm4 & Hl4). wstep. destruct (resolved_nodup _ _ _ _ _ (live_forest _ _ _ _ _ _ Hm) Hrp) as [Hnd _].
    apply NoDup_cons in Hnd as [Hout _].
    eapply live_add; [done|apply Hl4; [done|by rewrite Hl1]|done|]. intros l5 m5 Hl5 Hm5. wstep.
    eapply wp_outcome; [exact Hprop|]. split; [done|]. exists l5. split; [done|]. intros k' Hk' Hnone.
    apply not_elem_of_cons in Hk' as [Hk1 Hk2]. apply Hl5; [done|]. apply Hl4; [done|]. by rewrite Hl1.
Qed.

(** The fuel is the length of the file. *)
Lemma _getClassFromNode_spec hs v A f ns k c up nd m l :
  resolved f ns k c up -> Held v A k nd -> Live hs v A f l m ->
  wp (_getClassFromNode asserts nd ns) (fun c' m' => c' = c /\ Grown hs v A f l up m') m.
Proof using fl il.
  intros Hr Hh Hm. destruct (resolves_node _ _ _ _ _ _ Hr) as (n & x & Hn & Hx).
  assert (stores (cb := class_base) f k x) as Hst by (by exists n). unfold _getClassFromNode.
  wstep. eapply live_node_class; [done..|]. intros m1 Hm1. wstep.
  destruct (resolved_nodup _ _ _ _ _ (live_forest _ _ _ _ _ _ Hm) Hr) as [Hnd Hin].
  eapply (live_on_node _ (fun fuel => (length up <= fuel)%nat)); [done| |].
  - intros s Hd. split; [|done]. apply NoDup_cons in Hnd as [_ Hnd]. eapply nodes_fuel; [by eapply DbV_Db|done|].
    intros y Hy. apply Hin. by right.
  - intros fuel m2 Hfuel Hm2. by eapply _resolveClass_spec.
Qed.

(** ** The scope *)

Lemma live_room hs v A f l m l' m' k d : Live hs v A f l m -> Live hs v A f l' m' -> room (r_st (mr_repo m)) k d -> room (r_st (mr_repo m')) k d.
Proof using. intros H H'. eapply room_view; [apply H|apply H']. Qed.

(** The cache has the classes [l]. *)
Record ClassAt m f l : Prop := {
  ca_meta : MetaOk (cb := qualt_base) m f;
  ca_cache : cache_ok (m_classCache m) l;
  ca_classes : classes_of f l;
}.

Lemma class_at m f : ClassOk m f -> exists l, ClassAt m f l.
Proof using. intros [Hm (l & Hl & Hc)]. by exists l. Qed.

Lemma class_of_at m f l : ClassAt m f l -> ClassOk m f.
Proof using. intros []. constructor; eauto. Qed.

Lemma scope_live m f l r1 : ClassAt m f l -> RepoOk r1 f ->
  exists v A, Live (m_handles r1) v A f l (mkMeta r1 (m_classCache m) (m_qualCache m)).
Proof using. intros [[_ Hq] Hl Hc] [Ho Hp (v & A & Hd)%Db_DbV]. exists v, A. constructor; try done. apply pool_step_refl. Qed.

Lemma wp_meta_scope {B} m f l (body : Prog (MetaRepository F I QT Cls) B) (P : B -> Forest -> Prop) :
  ClassAt m f l ->
  (forall hs v A m1, Live hs v A f l m1 -> (forall k d, room (r_st (mr_repo m)) k d -> room (r_st (mr_repo m1)) k d) ->
     wp body (fun a m2 => exists f', Done hs f' m2 /\ P a f') m1) ->
  wp (meta_scope true body) (fun a m' => exists f', ClassOk m' f' /\ P a f') m.
Proof using.
  intros Hm Hb. unfold wp, meta_scope. match goal with |- context [with_handle _ ?i _] => set (inner := i) end.
  destruct (with_handle_spec (mr_repo m) f inner (mo_repo _ _ (ca_meta _ _ _ Hm))) as (r1 & Hr1 & Ec & Hw).
  destruct (scope_live m f l r1 Hm Hr1) as (v & A & HL). specialize (Hb _ _ _ _ HL (fun k d => room_content _ _ k d Ec)).
  apply wp_run in Hb as (a & m2 & E & f' & [[[Hr2 Hq] Hc] Hs] & HP).
  destruct (Hw (Ok (Ok a, m_classCache m2, m_qualCache m2)) (mr_repo m2) f') as (r' & Er & Hr' & _); [unfold inner; by rewrite E|done..|].
  rewrite Er. exists f'. split; [|done]. by constructor.
Qed.

Lemma throws_meta_scope {B} m f (body : Prog (MetaRepository F I QT Cls) B) msg :
  ClassOk m f -> (forall hs v A l m1, Live hs v A f l m1 -> throws body msg (Done hs f) m1) ->
  throws (meta_scope true body) msg (fun m' => ClassOk m' f) m.
Proof using.
  intros (l & Hm)%class_at Hb. unfold throws, meta_scope. match goal with |- context [with_handle _ ?i _] => set (inner := i) end.
  destruct (with_handle_spec (mr_repo m) f inner (mo_repo _ _ (ca_meta _ _ _ Hm))) as (r1 & Hr1 & Ec & Hw).
  destruct (scope_live m f l r1 Hm Hr1) as (v & A & HL). specialize (Hb _ _ _ _ _ HL). unfold throws in Hb.
  destruct (body _) as [[a|e| |] m2] eqn:E; try done. destruct Hb as (-> & [[Hr2 Hq] Hc] & Hs).
  destruct (Hw (Ok (Throw msg, m_classCache m2, m_qualCache m2)) (mr_repo m2) f) as (r' & Er & Hr' & _); [unfold inner; by rewrite E|done..|].
  rewrite Er. split; [done|]. by constructor.
Qed.

(** There is as much room as before. *)
Definition roomy m m' : Prop := forall k d, room (r_st (mr_repo m)) k d -> room (r_st (mr_repo m')) k d.

(** A scope that only reads. *)
Lemma meta_scope_reads {B} m f l (body : Prog (MetaRepository F I QT Cls) B) (R : B -> Prop) :
  ClassAt m f l ->
  (forall hs v A m1, Live hs v A f l m1 -> wp body (fun a m2 => R a /\ exists l', Live hs v A f l' m2) m1) ->
  wp (meta_scope true body) (fun a m' => R a /\ ClassOk m' f /\ roomy m m') m.
Proof using.
  intros Hm Hb. unfold wp, meta_scope. match goal with |- context [with_handle _ ?i _] => set (inner := i) end.
  destruct (with_handle_spec (mr_repo m) f inner (mo_repo _ _ (ca_meta _ _ _ Hm))) as (r1 & Hr1 & Ec & Hw).
  destruct (scope_live m f l r1 Hm Hr1) as (v & A & HL). specialize (Hb _ _ _ _ HL).
  apply wp_run in Hb as (a & m2 & E & HR & l2 & HL2). destruct (live_done _ _ _ _ _ _ HL2) as [[[Hr2 Hq] Hc] Hs].
  destruct (Hw (Ok (Ok a, m_classCache m2, m_qualCache m2)) (mr_repo m2) f) as (r' & Er & Hr' & _ & Ec'); [unfold inner; by rewrite E|done..|].
  rewrite Er. split_and!; [done|by constructor|]. intros k d Hroom. eapply room_content; [exact Ec'|]. eapply live_room; [exact HL|exact HL2|].
  by eapply room_content.
Qed.

Lemma class_open {B} m f (k : Prog (MetaRepository F I QT Cls) B) Q : ClassOk m f -> wp k Q m -> wp (on_repo throwIfNotOpen ;; k) Q m.
Proof using. intros Hm HQ. wstep. apply wp_on_repo. eapply wp_throwIfNotOpen; [apply Hm|]. by destruct m. Qed.

Lemma class_open_throws {B} m f (k : Prog (MetaRepository F I QT Cls) B) msg Q :
  ClassOk m f -> throws k msg Q m -> throws (on_repo throwIfNotOpen ;; k) msg Q m.
Proof using. intros Hm HQ. apply throws_bind, wp_on_repo. eapply wp_throwIfNotOpen; [apply Hm|]. by destruct m. Qed.

Lemma makeClassPath_ok ns cn : text ns -> text cn -> key_ok (_makeClassPath ns cn).
Proof using sl. intros Hn Hc. apply container_ok; [by apply class_container_ok|]. by apply toLowerCase_nonzero. Qed.

(** ** Reading a class *)

(** The cache outside the scope. *)
Lemma class_cached m f k Q :
  ClassOk m f -> (forall l m', ClassAt m' f l -> mr_repo m' = mr_repo m -> Q (lru_find k l) m') -> wp (on_classes (getFromCache k)) Q m.
Proof using.
  intros (l & [[Hr Hq] Hl Hc])%class_at HQ. destruct (getFromCache_ok (m_classCache m) l k Hl) as (c' & E & Hl' & _). unfold wp, on_classes. rewrite E.
  rewrite <- (lru_use_find k k l). apply HQ; [|done]. constructor; [by constructor|done|]. intros k' c. rewrite lru_use_find. apply Hc.
Qed.

(** The answer of the cache, or of the database, is the completed class. *)
Lemma getCIMClass_reads m f ns cn c up lo iq ic pl c' :
  ClassOk m f -> text ns -> text cn -> resolved f ns (_makeClassPath ns cn) c up -> filtered lo iq ic pl c = Ok c' ->
  wp (getCIMClass asserts true ns cn lo iq ic pl) (fun r m' => r = SUCCESS c' /\ ClassOk m' f /\ roomy m m') m.
Proof using fl il sl.
  intros Hm Hn Hc Hr Hf. unfold getCIMClass. eapply class_open; [done|]. cbv zeta. pose proof (makeClassPath_ok ns cn Hn Hc) as Hk.
  wstep. eapply class_cached; [done|]. intros l m1 Hm1 E1. wstep. destruct (lru_find _ l) as [y|] eqn:Ec.
  - wstep. destruct (ca_classes _ _ _ Hm1 _ _ Ec) as (ns' & up' & Hr'). destruct (resolves_det _ _ _ _ _ _ _ _ _ Hr' Hr) as [-> _].
    wstep. eapply wp_outcome; [exact Hf|]. wstep. split_and!; [done|by eapply class_of_at|]. intros k d. by rewrite E1.
  - eapply wp_mono; [eapply (meta_scope_reads m1 f l _ (fun o => o = Some c) Hm1)|].
    + intros hs v A m2 Hm2. wstep. eapply live_getNode; [done..|]. intros [nd|] m3 Hg Hm3; simpl in Hg.
      2: { destruct (resolves_node _ _ _ _ _ _ Hr) as (n & x & Hn' & _). congruence. }
      wstep. eapply wp_mono; [by eapply _getClassFromNode_spec|]. intros c1 m4 (-> & l4 & Hm4 & Hl4). wstep.
      destruct (resolved_nodup _ _ _ _ _ (live_forest _ _ _ _ _ _ Hm4) Hr) as [[Hout _]%NoDup_cons _].
      eapply live_add; [done|by apply Hl4|done|]. intros l5 m5 _ Hm5. wstep. split; [done|]. by exists l5.
    + intros o m2 (-> & Hm2 & Hroom). wstep. eapply wp_outcome; [exact Hf|]. wstep. split_and!; [done..|]. intros k d. rewrite <- E1. apply Hroom.
Qed.

Lemma getCIMClass_misses m f ns cn lo iq ic pl :
  ClassOk m f -> text ns -> text cn -> f_nodes f !! _makeClassPath ns cn = None ->
  wp (getCIMClass asserts true ns cn lo iq ic pl) (fun r m' => r = NOT_FOUND /\ ClassOk m' f /\ roomy m m') m.
Proof using fl il sl.
  intros Hm Hn Hc Hk0. unfold getCIMClass. eapply class_open; [done|]. cbv zeta. pose proof (makeClassPath_ok ns cn Hn Hc) as Hk.
  wstep. eapply class_cached; [done|]. intros l m1 Hm1 E1. wstep. destruct (lru_find _ l) as [y|] eqn:Ec.
  - destruct (ca_classes _ _ _ Hm1 _ _ Ec) as (ns' & up' & Hr'). destruct (resolves_node _ _ _ _ _ _ Hr') as (n & x & Hn' & _). congruence.
  - eapply wp_mono; [eapply (meta_scope_reads m1 f l _ (fun o => o = None) Hm1)|].
    + intros hs v A m2 Hm2. wstep. eapply live_getNode; [done..|]. intros [nd|] m3 Hg Hm3; simpl in Hg.
      { destruct (held_shows _ _ _ _ _ _ (lv_db _ _ _ _ _ _ Hm3) Hg) as (n & Hn' & _). congruence. }
      wstep. split; [done|]. by exists l.
    + intros o m2 (-> & Hm2 & Hroom). wstep. split_and!; [done..|]. intros k d. rewrite <- E1. apply Hroom.
Qed.

Lemma getCIMClass_found m f ns cn c up lo iq ic pl c' :
  ClassOk m f -> text ns -> text cn -> resolved f ns (_makeClassPath ns cn) c up -> filtered lo iq ic pl c = Ok c' ->
  wp (getCIMClass asserts true ns cn lo iq ic pl) (fun r m' => r = SUCCESS c' /\ ClassOk m' f) m.
Proof using fl il sl. intros. eapply wp_mono; [by eapply getCIMClass_reads|]. naive_solver. Qed.

Lemma getCIMClass_absent m f ns cn lo iq ic pl :
  ClassOk m f -> text ns -> text cn -> f_nodes f !! _makeClassPath ns cn = None ->
  wp (getCIMClass asserts true ns cn lo iq ic pl) (fun r m' => r = NOT_FOUND /\ ClassOk m' f) m.
Proof using fl il sl. intros. eapply wp_mono; [by eapply getCIMClass_misses|]. naive_solver. Qed.

(** ** Deleting a class *)

Lemma quals_prune (c : Cache (T := QT)) f f' k n x :
  Forest_ok f -> f_nodes f !! k = Some n -> fn_children n = [] -> stores (cb := class_base) f k x -> f_prune f f' k ->
  coherent (cb := qualt_base) c f -> coherent (cb := qualt_base) c f'.
Proof using.
  intros Hf Hk Hch (n' & Hn' & Hx) Hp (l & Hl & Hs). simplify_eq. exists l. split; [done|]. intros k' y Hy.
  apply (stores_prune f f' k); [done|]. specialize (Hs _ _ Hy). split; [done|]. intros Hb. assert (k' = k) as -> by (by eapply below_leaf).
  destruct Hs as (n2 & Hn2 & Hy2). simplify_eq. by eapply class_not_qualt.
Qed.

Lemma deleteClass_leaf m f ns cn n x :
  ClassOk m f -> text ns -> text cn ->
  let k := _makeClassPath ns cn in
  f_nodes f !! k = Some n -> fn_children n = [] -> readObject (CIMBase := class_base) (fn_data n) = Ok x ->
  wp (deleteClass asserts true ns cn) (fun b m' => exists f', ClassOk m' f' /\ b = true /\ f_prune f f' k) m.
Proof using fl il sl.
  intros Hm Hn Hc k Hk Hch Hx. pose proof (makeClassPath_ok ns cn Hn Hc) as Hkk. fold k in Hkk.
  unfold deleteClass. eapply class_open; [done|]. cbv zeta. fold k. destruct (class_at _ _ Hm) as (l & Hm0).
  apply (wp_meta_scope m f l); [done|]. intros hs v A m1 Hm1 _. wstep. eapply live_getNode; [done..|].
  intros [nd|] m2 Hg Hm2; simpl in Hg; [|congruence]. assert (stores (cb := class_base) f k x) as Hst by (by exists n).
  wstep. eapply live_node_class; [done..|]. intros m3 Hm3. wstep.
  destruct (removeFromCache_ok (m_classCache m3) l k (lv_cache _ _ _ _ _ _ Hm3)) as (c' & Er & Hc' & _). unfold wp at 1, on_classes. rewrite Er.
  wstep. pose proof (hold_removeNode _ _ _ _ _ _ (lv_db _ _ _ _ _ _ Hm3) Hg) as Hrm. apply wp_run in Hrm as ([ok nd'] & s' & E & Eok & f' & Hp & Hd').
  unfold wp at 1, on_node, on_repo, on_st. cbn [mr_repo]. rewrite E. cbn in Eok. subst ok. wstep. exists f'. split; [|done].
  pose proof (live_forest _ _ _ _ _ _ Hm3) as Hf. destruct Hm3 as [Ho Hpl Hpok Hd Hq Hl Hcl]. split; [|done]. constructor; cbn.
  - constructor; cbn; [by constructor|]. by eapply quals_prune.
  - exists (lru_drop k l). split; [done|]. intros k' y. rewrite lru_drop_find. case_bool_decide as Hne; [done|].
    intros (ns' & up & Hr)%Hcl. exists ns', up. by eapply resolves_prune.
Qed.

Lemma deleteClass_absent m f ns cn :
  ClassOk m f -> text ns -> text cn -> f_nodes f !! _makeClassPath ns cn = None ->
  wp (deleteClass asserts true ns cn) (fun b m' => exists f', ClassOk m' f' /\ b = false /\ f' = f) m.
Proof using fl il sl.
  intros Hm Hn Hc Hk. pose proof (makeClassPath_ok ns cn Hn Hc) as Hkk.
  unfold deleteClass. eapply class_open; [done|]. cbv zeta. destruct (class_at _ _ Hm) as (l & Hm0).
  apply (wp_meta_scope m f l); [done|]. intros hs v A m1 Hm1 _. wstep. eapply live_getNode; [done..|].
  intros [nd|] m2 Hg Hm2; simpl in Hg.
  - destruct (held_shows _ _ _ _ _ _ (lv_db _ _ _ _ _ _ Hm2) Hg) as (n & Hn' & _). congruence.
  - wstep. exists f. split; [by eapply live_done|done].
Qed.
End Scope.

(** ** The walk over the classes *)

Section Walk.
Context {F : Type} {fo : FileOps F} {fl : FileLaws F} {I : Type} {io : IndexOps I} {il : IndexLaws I}.
Context {so : StringOps} {bx : Blocxx} {ss : StringSearch} {sc : StringConv} (asserts : bool).
Abbreviation QT := (QUALTData CIMValueImpl).
Abbreviation Cls := (CLSData CIMValueImpl).
Context {X : Type} (meta : X -> MetaRepository F I QT Cls) (set_meta : MetaRepository F I QT Cls -> X -> X).
(** [Inv] holds while the database has the view [v], [A], and what only reads the
   database keeps it. *)
Context (v : View) (A : Abs) (f : Forest) (Inv : X -> Prop).
Context (inv_db : forall x, Inv x -> DbV (r_st (mr_repo (meta x))) v A f).
Context (inv_reads : forall B (p : Prog (St F I) B) (R : B -> Prop) x Q, Inv x -> (forall s, DbV s v A f -> wp p (fun a s' => R a /\ DbV s' v A f) s) ->
  (forall a x', R a -> Inv x' -> Q a x') -> wp (on_meta meta set_meta (on_node p)) Q x).

Lemma inv_walk w k nd n x Q : Inv x -> Held v A k nd -> f_nodes f !! k = Some n ->
  (forall r nd' x', reached v A (walk_spec f k n w) r -> Inv x' -> Q (r, nd') x') -> wp (on_meta meta set_meta (on_node (walk_op w (Some nd)))) Q x.
Proof using fl il inv_reads.
  intros Hx Hh Hn HQ. eapply (inv_reads _ _ (fun y => reached v A (walk_spec f k n w) y.1)); [done| |].
  - intros s Hd. by apply (hold_walk s v A f k nd n w).
  - intros [r nd'] x' Hr Hx'. by apply HQ.
Qed.

(** It visits every node of the listing once, in order, and ends. *)
Lemma class_nodes_spec {B} (visit : HDBNodeData -> Prog X B) (R : bytes -> B -> Prop) deep l out :
  listing f deep l out -> forall fuel top lall l0 node x,
  lall = l0 ++ l -> row f lall -> (length out <= fuel)%nat -> Inv x -> reached v A (hd [] l) node ->
  (top = true -> forall k n, k ∈ l -> f_nodes f !! k = Some n -> has_flags HDBNSNODE_FLAG n = false) ->
  (forall k nd x, k ∈ out -> Held v A k nd -> Inv x -> wp (visit nd) (fun a x' => R k a /\ Inv x') x) ->
  wp (class_nodes meta set_meta visit deep top fuel node) (fun xs x' => Forall2 R out xs /\ Inv x') x.
Proof using fl il inv_db inv_reads.
  assert (forall x, Inv x -> Forest_ok f) as Hfo by (intros x Hx; by eapply Db_forest_ok, DbV_Db, inv_db).
  induction 1 as [|k l out Hdeep _ IH|k n l sub out Hdeep Hn Hs IHs _ IH]; intros fuel top lall l0 node x El Hrow Hfuel Hx Hr Htop Hv.
  { rewrite (reached_nil _ v A f node (inv_db x Hx) Hr). destruct fuel; by split. }
  all: assert (k ∈ lall) as Hin by (rewrite El; set_solver); destruct Hrow as [Hnd Hrow]; destruct (Hrow k Hin) as (nk & Hnk & Hsib); try (assert (n = nk) as -> by congruence); subst deep lall.
  all: destruct (reached_key _ v A f k _ node (inv_db x Hx) Hnk Hr) as (nd & -> & Hh).
  all: destruct fuel as [|fuel]; [cbn in Hfuel; lia|]; cbn [class_nodes].
  all: assert (top && areAllFlagsOn nd HDBNSNODE_FLAG = false) as ->
    by (destruct top; [|done]; rewrite (areAllFlagsOn_has nd nk) by (by eapply held_flags; [apply inv_db| |]); cbn; apply (Htop eq_refl k); [left|done]).
  all: assert (key_after k (siblings f nk) = hd [] l) as Enext
    by (rewrite Hsib; apply key_after_split; apply NoDup_app in Hnd as (_ & Hdis & _); intros Hk; apply (Hdis k Hk); left).
  all: wstep; wstep; eapply wp_mono; [apply (Hv k nd x); [left|done..]|]; intros a x1 [Ha Hx1]; wstep.
  - wstep. wstep. wstep. apply (inv_walk ToNextSibling k nd nk); [done..|]. intros next nd' x2 Hnext Hx2. cbn in Hnext. rewrite Enext in Hnext. cbv beta iota.
    wstep. eapply wp_mono; [apply (IH fuel top (l0 ++ k :: l) (l0 ++ [k])); [by rewrite <- app_assoc|by split|cbn in Hfuel; lia|done|done| |]|].
    + intros Ht k' n' Hk'. apply Htop; [done|by right].
    + intros k' nd1 x3 Hk'. apply Hv. by right.
    + intros ys x3 [Hys Hx3]. wstep. split; [|done]. by constructor.
  - wstep. apply (inv_walk ToFirstChild k nd nk); [done..|]. intros first nd' x2 Hfirst Hx2. cbn in Hfirst. cbv beta iota. cbn in Hfuel. rewrite length_app in Hfuel.
    eapply wp_mono; [apply (IHs fuel false (fn_children nk) []); [done|by eapply row_children; [by eapply Hfo|]|lia|done|done|done|]|].
    { intros k' nd1 x3 Hk'. apply Hv. right. apply elem_of_app. by left. }
    intros xs x3 [Hxs Hx3]. wstep. wstep. apply (inv_walk ToNextSibling k nd nk); [done..|]. intros next nd2 x4 Hnext Hx4. cbn in Hnext. rewrite Enext in Hnext. cbv beta iota.
    wstep. eapply wp_mono; [apply (IH fuel top (l0 ++ k :: l) (l0 ++ [k])); [by rewrite <- app_assoc|by split|lia|done|done| |]|].
    + intros Ht k' n' Hk'. apply Htop; [done|by right].
    + intros k' nd1 x5 Hk'. apply Hv. right. apply elem_of_app. by right.
    + intros ys x5 [Hys Hx5]. wstep. split; [|done]. constructor; [done|]. by apply Forall2_app.
Qed.
End Walk.
