(* ===== verification/InstRepo.v ===== *)
(** * The instance repository

   The operations of src/src/repositories/hdb/OW_InstanceRepository.cpp on
   instances: an instance is a node below the node of its class, under a key made
   from its path, and its data is the serialised object without the qualifiers
   that the class has as well. *)

From stdpp Require Import sorting.
From S2P Require Import Prelude FileIO HdbCommon Index Hdb HdbHeap HdbNode HdbInv HdbAdd HdbUpdate HdbSpec HdbContract HdbHold HdbForest Repo RepoFacts RepoOps Cache Meta MetaOps MetaEnum.
From S2P Require Import Blocxx CimSerial CimData CimDateTime CimIO CimTotal CimObjects CimOps CimSync ClassOps CimStore.
Import CIMDataType.

(** ** Keys *)

Definition INVALID_PARAMETER_ : string := "CIMException::INVALID_PARAMETER".

Section Keys.
Context {so : StringOps} {bx : Blocxx} {ss : StringSearch} {sc : StringConv} (asserts : bool).
Context (castValueToDataType : CIMValueImpl -> DTData -> outcome CIMValue).
(** [CIMValue::toString], [asKeyString] of OW_HDBCommon.cpp and the order of
   properties. *)
Context (value_toString : CIMValueImpl -> outcome bytes) (asKeyString : CIMValue -> outcome bytes).
Context (prop_lt : PROPData CIMValueImpl -> PROPData CIMValueImpl -> bool).
Abbreviation Property := (PROPData CIMValueImpl).
Abbreviation Cls := (CLSData CIMValueImpl).

Fixpoint insert_prop (p : Property) (l : list Property) : list Property :=
  match l with
  | q :: l => if prop_lt q p then q :: insert_prop p l else p :: q :: l
  | [] => [p]
  end.
Definition sort_props (l : list Property) : list Property := foldr insert_prop [] l.

(** [HDBUtilKeyArray::toString] *)
Fixpoint keys_text (sep : Z) (l : list Property) : outcome bytes :=
  match l with
  | [] => Ok []
  | p :: l => v ← asKeyString (p_cimValue p); r ← keys_text 44 l; Ok ([sep] ++ toLowerCase (p_name p) ++ [61] ++ v ++ r)
  end.
Definition HDBUtilKeyArray_toString (l : list Property) : outcome bytes := keys_text 46 (sort_props l).

(** A reference without a namespace means the one of the instance. *)
Definition local_ref (ns : bytes) (cv : CIMValueImpl) : outcome CIMValueImpl :=
  match cv with
  | mkValue t a d =>
      if t =? REFERENCE then
        if a then Throw ValueCastException
        else match d with
          | V_ref o =>
              p ← present o;
              n ← present (op_nameSpace p);
              if bool_decide (m_nameSpace n = []) then p ← present (path_setNameSpace p ns); Ok (mkValue REFERENCE false (V_ref (Some p)))
              else Ok cv
          | _ => Crash
          end
      else Ok cv
  end.

Definition key_value (ns : bytes) (p kprop : Property) : outcome CIMValueImpl :=
  v ← present (p_cimValue p);
  dt ← present (p_propertyDataType kprop);
  cv ← castValueToDataType v dt;
  cv ← present cv;
  local_ref ns cv.

Fixpoint all_valued (l : list (option Property)) : outcome () :=
  match l with
  | [] => Ok ()
  | x :: l => p ← present x; match p_cimValue p with Some _ => all_valued l | None => Throw INVALID_PARAMETER_ end
  end.

Fixpoint key_values (ns : bytes) (kprops l : list (option Property)) : outcome (list Property) :=
  match l with
  | [] => Ok []
  | x :: l =>
      p ← present x;
      k ← locate (fun k => equalsIgnoreCase (p_name p) (p_name k)) kprops;
      match k with
      | Some (_, k) =>
          cv ← key_value ns p k;
          p ← setValue asserts castValueToDataType p (Some cv);
          r ← key_values ns kprops l;
          Ok (p :: r)
      | None => Throw INVALID_PARAMETER_
      end
  end.

Definition makeInstanceKey (ns : bytes) (cop : CIMObjectPath) (c : Cls) : outcome bytes :=
  match cop with
  | None => Throw INVALID_PARAMETER_
  | Some d =>
      let rv := makeClassKey ns (op_objectName d) ++ [NS_SEPARATOR_C] in
      kprops ← cls_getKeys c;
      match kprops with
      | [] => Ok (rv ++ op_objectName d)
      | k0 :: _ =>
          k0 ← present k0;
          let oclass := toLowerCase (p_originClass k0) in
          if bool_decide (oclass = []) then Throw INVALID_PARAMETER_
          else
            let rv := rv ++ oclass in
            let pra := op_keys d in
            if bool_decide (pra = []) then Throw INVALID_PARAMETER_
            else
              all_valued pra ;;
              if zlen pra <? zlen kprops then Throw INVALID_PARAMETER_
              else
                match pra with
                | [p] =>
                    p ← present p;
                    let pname := toLowerCase (p_name p) in
                    if negb (bool_decide (pname = [])) && negb (equalsIgnoreCase pname (p_name k0)) then Throw INVALID_PARAMETER_
                    else
                      cv ← key_value ns p k0;
                      t ← value_toString cv;
                      Ok (rv ++ [46] ++ pname ++ [61] ++ t)
                | _ =>
                    l ← key_values ns kprops pra;
                    t ← HDBUtilKeyArray_toString l;
                    Ok (rv ++ t)
                end
      end
  end.
End Keys.

(** ** The order of the keys in a path *)

(** The order of properties is a strict weak order in which properties with
   different names differ. *)
Class PropOrder {bx : Blocxx} {sc : StringConv} (prop_lt : PROPData CIMValueImpl -> PROPData CIMValueImpl -> bool) : Prop := {
  lt_asym : forall x y, prop_lt x y = true -> prop_lt y x = false;
  lt_weak : forall x y z, prop_lt x z = true -> prop_lt x y = true \/ prop_lt y z = true;
  lt_names : forall x y, equalsIgnoreCase (p_name x) (p_name y) = false -> prop_lt x y = true \/ prop_lt y x = true;
}.

Section KeyOrder.
Context {so : StringOps} {bx : Blocxx} {ss : StringSearch} {sc : StringConv} (asserts : bool).
Context (cast : CIMValueImpl -> DTData -> outcome CIMValue).
Context (value_toString : CIMValueImpl -> outcome bytes) (asKeyString : CIMValue -> outcome bytes).
Context (prop_lt : PROPData CIMValueImpl -> PROPData CIMValueImpl -> bool) {po : PropOrder prop_lt}.
Abbreviation Property := (PROPData CIMValueImpl).
Abbreviation instanceKey := (makeInstanceKey asserts cast value_toString asKeyString prop_lt).

Definition no_later (x y : Property) : Prop := prop_lt y x = false.

Lemma no_later_trans x y z : no_later x y -> no_later y z -> no_later x z.
Proof using po.
  unfold no_later. intros Hxy Hyz. destruct (prop_lt z x) eqn:E; [|done]. destruct (lt_weak _ y _ E); congruence.
Qed.

Lemma insert_perm p l : insert_prop prop_lt p l ≡ₚ p :: l.
Proof using. induction l as [|q l IH]; [done|]. cbn. destruct (prop_lt q p); [|done]. rewrite IH. by apply Permutation_swap. Qed.

Lemma sort_perm l : sort_props prop_lt l ≡ₚ l.
Proof using. induction l as [|p l IH]; [done|]. cbn. by rewrite insert_perm, IH. Qed.

Lemma insert_sorted p l : StronglySorted no_later l -> StronglySorted no_later (insert_prop prop_lt p l).
Proof using po.
  induction 1 as [|q l Hs IH Hq]; cbn; [by repeat constructor|]. destruct (prop_lt q p) eqn:E.
  - constructor; [done|]. rewrite insert_perm. constructor; [|done]. by apply lt_asym.
  - constructor; [by constructor|]. constructor; [done|]. eapply Forall_impl; [exact Hq|]. intros z. by apply no_later_trans.
Qed.

Lemma sort_sorted l : StronglySorted no_later (sort_props prop_lt l).
Proof using po. induction l as [|p l IH]; [constructor|]. by apply insert_sorted. Qed.

(** No two properties of the list have the same name. *)
Definition named_apart (l : list Property) : Prop :=
  forall j k p q, l !! j = Some p -> l !! k = Some q -> equalsIgnoreCase (p_name p) (p_name q) = true -> j = k.

Lemma sort_unique l l' : named_apart l -> l ≡ₚ l' -> sort_props prop_lt l = sort_props prop_lt l'.
Proof using po.
  intros Hn Hp. apply (StronglySorted_unique_strong no_later); [|apply sort_sorted..|by rewrite !sort_perm].
  intros x y Hx Hy Hxy Hyx. rewrite sort_perm in Hx, Hy. rewrite <- Hp in Hy.
  apply list_elem_of_lookup in Hx as [j Hj], Hy as [k Hk].
  destruct (equalsIgnoreCase (p_name x) (p_name y)) eqn:E.
  - pose proof (Hn _ _ _ _ Hj Hk E) as ->. congruence.
  - unfold no_later in *. destruct (lt_names _ _ E); congruence.
Qed.

Lemma all_valued_ok l : all_valued l = Ok () <-> Forall (fun o => exists p v, o = Some p /\ p_cimValue p = Some v) l.
Proof using.
  induction l as [|o l IH]; [done|]. rewrite Forall_cons, <- IH. cbn. destruct o as [p|]; cbn; [|split; [done|by intros [(? & ? & ? & ?) _]]].
  destruct (p_cimValue p) eqn:E; [|split; [done|intros [(? & ? & [= <-] & ?) _]; congruence]]. split; [|by intros []]. intros H. split; [|done]. eauto.
Qed.

Lemma key_values_inv ns kprops o l r : key_values asserts cast ns kprops (o :: l) = Ok r ->
  exists p q r', o = Some p /\ p_name q = p_name p /\ key_values asserts cast ns kprops l = Ok r' /\ r = q :: r' /\
    forall m rm, key_values asserts cast ns kprops m = Ok rm -> key_values asserts cast ns kprops (o :: m) = Ok (q :: rm).
Proof using.
  cbn. destruct o as [p|]; [|done]. cbn. destruct (locate _ kprops) as [[[i k]|]| | |] eqn:El; try done. cbn.
  destruct (key_value cast ns p k) as [cv| | |] eqn:Ev; try done. cbn.
  destruct (setValue asserts cast p (Some cv)) as [q| | |] eqn:Es; try done. cbn.
  destruct (key_values asserts cast ns kprops l) as [r'| | |]; try done. intros [= <-].
  exists p, q, r'. split_and!; [done|by apply setValue_shape in Es as (? & _)|done..|].
  intros m rm ->. done.
Qed.

Lemma key_values_perm ns kprops l l' r : l ≡ₚ l' -> key_values asserts cast ns kprops l = Ok r ->
  exists r', key_values asserts cast ns kprops l' = Ok r' /\ r ≡ₚ r'.
Proof using.
  intros Hp. revert r. induction Hp as [|o l l' _ IH|o1 o2 l|l1 l2 l3 _ IH1 _ IH2]; intros r H.
  - eauto.
  - apply key_values_inv in H as (p & q & r1 & -> & _ & H1 & -> & Hm). destruct (IH _ H1) as (r2 & H2 & Hr).
    exists (q :: r2). split; [by apply Hm|by constructor].
  - apply key_values_inv in H as (p & q & r1 & -> & _ & H1 & -> & Hm).
    apply key_values_inv in H1 as (p' & q' & r2 & -> & _ & H2 & -> & Hm').
    exists (q' :: q :: r2). split; [by apply Hm', Hm|by apply Permutation_swap].
  - destruct (IH1 _ H) as (r2 & H2 & Hr2). destruct (IH2 _ H2) as (r3 & H3 & Hr3). exists r3. split; [done|by rewrite Hr2].
Qed.

Lemma key_values_names ns kprops l r : key_values asserts cast ns kprops l = Ok r ->
  Forall2 (fun o q => exists p, o = Some p /\ p_name q = p_name p) l r.
Proof using.
  revert r. induction l as [|o l IH]; intros r H; [by injection H as <-|].
  apply key_values_inv in H as (p & q & r1 & -> & Hn & H1 & -> & _). constructor; eauto.
Qed.

Lemma key_values_apart ns kprops l r : distinct l -> key_values asserts cast ns kprops l = Ok r -> named_apart r.
Proof using.
  intros [_ Hd] H%key_values_names j k p q Hj Hk E.
  destruct (Forall2_lookup_r _ _ _ _ _ H Hj) as (? & Hlj & p' & -> & Ep).
  destruct (Forall2_lookup_r _ _ _ _ _ H Hk) as (? & Hlk & q' & -> & Eq).
  apply (Hd _ _ _ _ Hlj Hlk). by rewrite <- Ep, <- Eq.
Qed.

(** Two paths that list the same keys in another order name the same instance. *)
Lemma makeInstanceKey_order ns d l' c k : distinct (op_keys d) -> op_keys d ≡ₚ l' ->
  instanceKey ns (Some d) c = Ok k -> instanceKey ns (Some (mkOP (op_nameSpace d) (op_objectName d) l')) c = Ok k.
Proof using po.
  intros Hd Hp. unfold makeInstanceKey. cbn [op_objectName op_keys]. destruct (cls_getKeys c) as [[|k0 kp]| | |]; try done. cbn [mbind outcome_bind].
  destruct k0 as [k0|]; [|done]. cbn [present mbind outcome_bind]. case_bool_decide as E1; [done|].
  assert (zlen l' = zlen (op_keys d)) as El by (unfold zlen; by rewrite (Permutation_length Hp)).
  destruct (op_keys d) as [|o [|o2 l]] eqn:Ed.
  - apply Permutation_nil in Hp as ->. done.
  - apply Permutation_length_1_inv in Hp as ->. done.
  - destruct l' as [|o' [|o2' l2]]; [by apply Permutation_nil_r in Hp|by apply Permutation_singleton_r in Hp|].
    rewrite !(bool_decide_false (_ :: _ = [])) by done. rewrite El.
    destruct (all_valued (o :: o2 :: l)) as [[]| | |] eqn:Ea; try done. apply all_valued_ok in Ea. rewrite Hp in Ea. apply all_valued_ok in Ea as ->.
    cbn [mbind outcome_bind]. case_match; [done|]. destruct (key_values asserts cast ns (Some k0 :: kp) (o :: o2 :: l)) as [r| | |] eqn:Er; try done.
    destruct (key_values_perm _ _ _ _ _ Hp Er) as (r' & -> & Hr). cbn [mbind outcome_bind]. unfold HDBUtilKeyArray_toString.
    by rewrite (sort_unique r r') by (try done; by eapply key_values_apart).
Qed.
End KeyOrder.

(** ** Qualifiers that the class has as well *)

Section Qualifiers.
Context {bx : Blocxx} {sc : StringConv}.
(** [CIMValueImpl::equal] *)
Context (equal : CIMValueImpl -> CIMValueImpl -> outcome bool).
Abbreviation Qual := (QUALData CIMValueImpl).
Abbreviation Property := (PROPData CIMValueImpl).
Abbreviation Cls := (CLSData CIMValueImpl).

(** [look] finds the qualifier of the class. *)
Fixpoint own_quals (look : bytes -> outcome (option Qual)) (l : list (option Qual)) : outcome (list (option Qual)) :=
  match l with
  | [] => Ok []
  | x :: l =>
      iq ← present x;
      cq ← look (cq_name iq);
      keep ← match cq with
             | None => Ok true
             | Some cq => b ← value_equal equal (cq_qualifierValue iq) (cq_qualifierValue cq); Ok (negb b)
             end;
      r ← own_quals look l;
      Ok (if (keep : bool) then x :: r else r)
  end.

(** The qualifiers of a property that the class has not are asked of a null
   property. *)
Fixpoint own_props (c : Cls) (l : list (option Property)) : outcome (list (option Property)) :=
  match l with
  | [] => Ok []
  | x :: l =>
      p ← present x;
      clsp ← cls_getProperty c (p_name p);
      qs ← own_quals (fun n => cp ← present clsp; getQualifier cp n) (p_qualifiers p);
      r ← own_props c l;
      Ok (Some (with_quals p qs) :: r)
  end.

Definition _removeDuplicatedQualifiers (i : INSTData CIMValueImpl) (c : Cls) : outcome (INSTData CIMValueImpl) :=
  qs ← own_quals (cls_getQualifier c) (ci_qualifiers i);
  ps ← own_props c (ci_properties i);
  setProperties (with_inst_quals i qs) ps.
End Qualifiers.

(** ** The operations *)

Section Operations.
Context {F : Type} {fo : FileOps F} {I : Type} {io : IndexOps I}.
Context {so : StringOps} {bx : Blocxx} {ss : StringSearch} {sc : StringConv} (asserts fileOk : bool).
Context (castValueToDataType : CIMValueImpl -> DTData -> outcome CIMValue).
Context (value_toString : CIMValueImpl -> outcome bytes) (asKeyString : CIMValue -> outcome bytes).
Context (prop_lt : PROPData CIMValueImpl -> PROPData CIMValueImpl -> bool).
Context (equal : CIMValueImpl -> CIMValueImpl -> outcome bool).
Abbreviation Inst := (INSTData CIMValueImpl).
Abbreviation Property := (PROPData CIMValueImpl).
Abbreviation Cls := (CLSData CIMValueImpl).
#[local] Existing Instance Instance_base.
Abbreviation instanceKey := (makeInstanceKey asserts castValueToDataType value_toString asKeyString prop_lt).
Abbreviation sync := (syncWithClass asserts castValueToDataType).
Abbreviation removeDuplicated := (_removeDuplicatedQualifiers equal).

(** The object of a node that is there. *)
Definition node_instance (node : HDBNode) : Prog (St F I) Inst :=
  ci ← nodeToCIMObject (cb := Instance_base asserts) node; of_outcome (present ci).

(** Visit the instances of a class. *)
Definition class_instances {A} (ns className : bytes) (visit : Inst -> outcome A) : Prog (Repo F I) (list A) :=
  throwIfNotOpen ;;
  with_handle fileOk (on_st (
    clsNode ← getNode (makeClassKey ns className);
    match clsNode with
    | None => throw "CIMException::INVALID_CLASS"
    | Some n =>
        if negb (areAllFlagsOn n HDBCLSNODE_FLAG) then throw "Expected class name node for instances"
        else
          '(first, _) ← getFirstChild (Some n);
          s ← get;
          siblings_loop (file_fuel s) (fun n => ci ← node_instance (Some n); x ← of_outcome (visit ci); mret [x]) first
    end)).

Definition getInstanceNames (ns : bytes) (theClass : Cls) : Prog (Repo F I) (list CIMObjectPath) :=
  class_instances ns (cc_name theClass) (fun ci =>
    ci ← sync ci (Some theClass) true;
    d ← instance_path ns ci;
    Ok (Some d)).

Definition getCIMInstances (ns className : bytes) (requestedClass theClass : Cls)
    (deep localOnly includeQualifiers includeClassOrigin : bool) (propertyList : option (list bytes)) : Prog (Repo F I) (list Inst) :=
  class_instances ns className
    (clone_for asserts castValueToDataType localOnly deep includeQualifiers includeClassOrigin propertyList requestedClass theClass).

Definition getCIMInstance (ns : bytes) (instanceName : CIMObjectPath) (theClass : Cls)
    (localOnly includeQualifiers includeClassOrigin : bool) (propertyList : option (list bytes)) : Prog (Repo F I) Inst :=
  throwIfNotOpen ;;
  k ← of_outcome (instanceKey ns instanceName theClass);
  with_handle fileOk (on_st (
    node ← getNode k;
    match node with
    | None => throw "CIMException::NOT_FOUND"
    | Some n =>
        ci ← node_instance (Some n);
        ci ← of_outcome (sync ci (Some theClass) true);
        ci ← of_outcome (
          if bool_decide (is_Some propertyList) || localOnly || negb includeQualifiers || negb includeClassOrigin
          then clone localOnly includeQualifiers includeClassOrigin propertyList ci
          else Ok ci);
        mret (setNameSpace ci ns)
    end)).

(** The object is read before its node is removed. *)
Definition deleteInstance (ns : bytes) (cop : CIMObjectPath) (theClass : Cls) : Prog (Repo F I) () :=
  throwIfNotOpen ;;
  k ← of_outcome (instanceKey ns cop theClass);
  with_handle fileOk (on_st (
    node ← getNode k;
    match node with
    | None => throw "CIMException::NOT_FOUND"
    | Some n => _ ← node_instance (Some n); _ ← removeNode (Some n); mret ()
    end)).

Definition createInstance (ns : bytes) (theClass : Cls) (ci : Inst) : Prog (Repo F I) () :=
  throwIfNotOpen ;;
  with_handle fileOk (on_st (
    clsNode ← getNameSpaceNode (makeClassKey ns (ci_owningClassName ci));
    match clsNode with
    | None => throw "CIMException::INVALID_CLASS"
    | Some c =>
        icop ← of_outcome (instance_path ns ci);
        k ← of_outcome (instanceKey ns (Some icop) theClass);
        node ← getNode k;
        match node with
        | Some _ => throw "CIMException::ALREADY_EXISTS"
        | None =>
            ci ← of_outcome (removeDuplicated ci theClass);
            d ← of_outcome (writeObject (CIMBase := Instance_base asserts) ci);
            _ ← handle_addChild (Some c) (newNode k (zlen d) (Some d));
            mret ()
        end
    end)).

(** The values of the keys have to be those of the old instance. *)
Fixpoint same_keys (ci : Inst) (oldKeys : list (option Property)) : outcome () :=
  match oldKeys with
  | [] => Ok ()
  | x :: oldKeys =>
      ok ← present x;
      kprop ← getProperty ci (p_name ok);
      match kprop with
      | None => Throw INVALID_PARAMETER_
      | Some kprop =>
          match p_cimValue kprop, p_cimValue ok with
          | Some cv1, Some cv2 =>
              if negb ((value_type cv1 =? value_type cv2) && Bool.eqb (value_isArray cv1) (value_isArray cv2)) then Throw INVALID_PARAMETER_
              else b ← value_equal equal (Some cv1) (Some cv2); if (b : bool) then same_keys ci oldKeys else Throw "CIMException::FAILED"
          | _, _ => Throw INVALID_PARAMETER_
          end
      end
  end.

Definition modifyInstance (ns : bytes) (cop : CIMObjectPath) (theClass : Cls) (ci_ oldInst : Inst)
    (includeQualifiers : bool) (propertyList : option (list bytes)) : Prog (Repo F I) () :=
  throwIfNotOpen ;;
  with_handle fileOk (on_st (
    ci ← of_outcome (createModifiedInstance ci_ oldInst includeQualifiers propertyList theClass);
    ci ← of_outcome (sync ci (Some theClass) true);
    _ ← of_outcome (same_keys ci (ci_keys oldInst));
    ci ← of_outcome (removeDuplicated ci theClass);
    d ← of_outcome (writeObject (CIMBase := Instance_base asserts) ci);
    k ← of_outcome (instanceKey ns cop theClass);
    node ← getNode k;
    match node with
    | None => throw "CIMException::NOT_FOUND"
    | Some n =>
        '(ok, _, _) ← updateNode (Some n) None (zlen d) (Some d);
        if (ok : bool) then mret () else throw "Failed to update repository node"
    end)).
End Operations.

(** ** What is stored *)

Section Stripped.
Context {bx : Blocxx} {sc : StringConv} {nl : NameLaws} (asserts : bool).
Context (cast : CIMValueImpl -> DTData -> outcome CIMValue) (equal : CIMValueImpl -> CIMValueImpl -> outcome bool).
Abbreviation Inst := (INSTData CIMValueImpl).
Abbreviation Property := (PROPData CIMValueImpl).

(** The same property with other qualifiers. *)
Definition stripped (o o' : option Property) : Prop := exists p qs, o = Some p /\ o' = Some (with_quals p qs).

Lemma own_props_stripped c l l' : own_props equal c l = Ok l' -> Forall2 stripped l l'.
Proof.
  revert l'. induction l as [|[p|] l IH]; intros l' H; cbn in H; [by injection H as <-| |done].
  destruct (cls_getProperty c (p_name p)) as [clsp| | |]; try done. cbn in H.
  destruct (own_quals equal _ (p_qualifiers p)) as [qs| | |]; try done. cbn in H.
  destruct (own_props equal c l) as [r| | |]; try done. injection H as <-. constructor; [by exists p, qs|by apply IH].
Qed.

Lemma removeDuplicated_shape i c i' : _removeDuplicatedQualifiers equal i c = Ok i' ->
  Forall2 stripped (ci_properties i) (ci_properties i') /\ keys_ok i' /\
  ci_namespace i' = ci_namespace i /\ ci_owningClassName i' = ci_owningClassName i /\ ci_language i' = ci_language i.
Proof.
  unfold _removeDuplicatedQualifiers. destruct (own_quals equal _ _) as [qs| | |]; try done. cbn.
  destruct (own_props equal c (ci_properties i)) as [ps| | |] eqn:E; try done. cbn. intros H.
  pose proof (setProperties_keys _ _ _ H) as [Hk Hp]. rewrite Hp. split; [by eapply own_props_stripped|]. split; [done|].
  unfold setProperties, _buildKeys in H. cbn in H. destruct (key_props ps); try done. by injection H as <-.
Qed.

Lemma stripped_elem l l' p : Forall2 stripped l l' -> Some p ∈ l -> exists qs, Some (with_quals p qs) ∈ l'.
Proof.
  intros H [k Hk]%list_elem_of_lookup. destruct (Forall2_lookup_l _ _ _ _ _ H Hk) as (o & Ho & q & qs & [= <-] & ->).
  exists qs. by eapply list_elem_of_lookup_2.
Qed.

Lemma stripped_elem_inv l l' p' : Forall2 stripped l l' -> Some p' ∈ l' -> exists p qs, Some p ∈ l /\ p' = with_quals p qs.
Proof.
  intros H [k Hk]%list_elem_of_lookup. destruct (Forall2_lookup_r _ _ _ _ _ H Hk) as (o & Ho & p & qs & -> & [= ->]).
  exists p, qs. split; [|done]. by eapply list_elem_of_lookup_2.
Qed.

(** The key property of the old instance is in the instance, with an equal value
   of the same type. *)
Definition kept_key (i : Inst) (o : option Property) : Prop :=
  exists k p v w, o = Some k /\ Some p ∈ ci_properties i /\ equalsIgnoreCase (p_name k) (p_name p) = true /\
    p_cimValue p = Some v /\ p_cimValue k = Some w /\
    value_type v = value_type w /\ value_isArray v = value_isArray w /\ equal v w = Ok true.

Lemma same_keys_kept i l : same_keys equal i l = Ok () -> Forall (kept_key i) l.
Proof using.
  induction l as [|o l IH]; [constructor|]. cbn. destruct o as [k|]; [|done]. cbn.
  destruct (getProperty i (p_name k)) as [[p|]| | |] eqn:Ep; try done. cbn.
  destruct (p_cimValue p) as [v|] eqn:Ev; [|done]. destruct (p_cimValue k) as [w|] eqn:Ew; [|done].
  destruct (_ && _) eqn:Et; [|done]. cbn. destruct (equal v w) as [[]| | |] eqn:Ee; try done. cbn. intros H.
  apply andb_true_iff in Et as [Et Ea%eqb_prop]. zbool. constructor; [|by apply IH].
  unfold getProperty in Ep. destruct (locate _ _) as [[[j q]|]| | |] eqn:El; try done. injection Ep as ->.
  apply locate_some in El as (Hj & Hn & _). exists k, p, v, w. split_and!; try done. by eapply list_elem_of_lookup_2.
Qed.

Lemma kept_key_stripped i i' o : Forall2 stripped (ci_properties i) (ci_properties i') -> kept_key i o -> kept_key i' o.
Proof using.
  intros Hs (k & p & v & w & -> & Hp & Hrest). destruct (stripped_elem _ _ _ Hs Hp) as (qs & Hq).
  by exists k, (with_quals p qs), v, w.
Qed.

Lemma stripped_distinct l l' : Forall2 stripped l l' -> distinct l -> distinct l'.
Proof using.
  intros H [_ Hu]. split.
  - apply Forall_forall. intros o [k Hk]%list_elem_of_lookup. destruct (Forall2_lookup_r _ _ _ _ _ H Hk) as (? & _ & p & qs & _ & ->). by eexists.
  - intros j k a b Ha Hb Hs. destruct (Forall2_lookup_r _ _ _ _ _ H Ha) as (? & Hj & p & qs & -> & [= ->]).
    destruct (Forall2_lookup_r _ _ _ _ _ H Hb) as (? & Hk & q & qs' & -> & [= ->]). by eapply Hu.
Qed.

Lemma take_value_stripped cp p qs : take_value asserts cast cp (with_quals p qs) = take_value asserts cast cp p.
Proof. done. Qed.

(** Storing an instance and bringing it in line with its class again keeps its
   values; the rest of its properties is the class's. *)
Record restored (c : CLSData CIMValueImpl) (i i' : Inst) : Prop := {
  re_keys : keys_ok i';
  re_known : forall p, Some p ∈ ci_properties i' -> exists cp, Some cp ∈ cc_properties c /\ like p cp;
  re_complete : forall cp, Some cp ∈ cc_properties c -> exists p, Some p ∈ ci_properties i' /\ like p cp;
  re_values : forall p cp, Some p ∈ ci_properties i -> Some cp ∈ cc_properties c -> equalsIgnoreCase (p_name p) (p_name cp) = true ->
    exists p', Some p' ∈ ci_properties i' /\ take_value asserts cast cp p = Ok p';
  re_class : ci_owningClassName i' = ci_owningClassName i;
}.

Lemma stored_restored i c i1 : class_sound c -> distinct (ci_properties i) ->
  (forall p, Some p ∈ ci_properties i -> takes asserts cast (cc_properties c) p) ->
  _removeDuplicatedQualifiers equal i c = Ok i1 ->
  exists i2, syncWithClass asserts cast i1 (Some c) true = Ok i2 /\ restored c i i2.
Proof using nl.
  intros Hc Hd Ht Er. destruct (removeDuplicated_shape _ _ _ Er) as (Hs & _ & _ & Hcn & _).
  destruct (syncWithClass_spec asserts cast i1 c Hc) as (i2 & E2 & [H1 H2 H3 H4 H5 H6 H7]).
  - by eapply stripped_distinct.
  - intros p' Hp'. destruct (stripped_elem_inv _ _ _ Hs Hp') as (p & qs & Hp & ->). intros cp Hcp Hsame.
    rewrite take_value_stripped. by apply (Ht p Hp cp).
  - exists i2. split; [done|]. split; [done|done|done| |].
    + intros p cp Hp Hcp Hsame. destruct (stripped_elem _ _ _ Hs Hp) as (qs & Hq). by apply (H5 _ cp Hq).
    + rewrite <- Hcn. by injection H7 as _ ->.
Qed.
End Stripped.

(** ** The operations on every branch *)

Section Facts.
Context {F : Type} {fo : FileOps F} {fl : FileLaws F} {I : Type} {io : IndexOps I} {il : IndexLaws I}.
Context {so : StringOps} {sl : StringLaws} {bx : Blocxx} {ss : StringSearch} {sc : StringConv} (asserts : bool).
Context (cast : CIMValueImpl -> DTData -> outcome CIMValue).
Context (value_toString : CIMValueImpl -> outcome bytes) (asKeyString : CIMValue -> outcome bytes).
Context (prop_lt : PROPData CIMValueImpl -> PROPData CIMValueImpl -> bool).
Context (equal : CIMValueImpl -> CIMValueImpl -> outcome bool).
Implicit Types (s : St F I) (f : Forest) (r : Repo F I) (ci : INSTData CIMValueImpl) (c : CLSData CIMValueImpl).
#[local] Existing Instance Instance_base.
Abbreviation instanceKey := (makeInstanceKey asserts cast value_toString asKeyString prop_lt).
Abbreviation sync := (syncWithClass asserts cast).
Abbreviation removeDuplicated := (_removeDuplicatedQualifiers equal).
Abbreviation createInst := (createInstance asserts true cast value_toString asKeyString prop_lt equal).
Abbreviation getInst := (getCIMInstance asserts true cast value_toString asKeyString prop_lt).
Abbreviation deleteInst := (deleteInstance asserts true cast value_toString asKeyString prop_lt).
Abbreviation modifyInst := (modifyInstance asserts true cast value_toString asKeyString prop_lt equal).

Lemma wp_node_instance s v A f k nd ci :
  DbV s v A f -> Held v A k nd -> stores (cb := Instance_base asserts) f k ci ->
  wp (node_instance asserts (Some nd)) (fun i s' => i = ci /\ s' = s) s.
Proof using fl il.
  intros Hd Hh Hs. unfold node_instance. wstep. unfold wp at 1.
  by rewrite (nodeToCIMObject_spec (cb := Instance_base asserts) s v A f k nd ci Hd Hh Hs).
Qed.

(** The node of the class of an instance. *)
Definition class_node f ns ci : Prop :=
  exists n, f_nodes f !! makeClassKey ns (ci_owningClassName ci) = Some n /\ has_flags HDBNSNODE_FLAG n = true.

Lemma createInstance_new r f ns c ci icop k ci1 d :
  RepoOk r f -> key_ok ns -> text (ci_owningClassName ci) -> class_node f ns ci ->
  instance_path ns ci = Ok icop -> instanceKey ns (Some icop) c = Ok k -> key_ok k -> f_nodes f !! k = None ->
  removeDuplicated ci c = Ok ci1 -> writeObject (CIMBase := Instance_base asserts) ci1 = Ok d -> room (r_st r) k d ->
  wp (createInst ns c ci) (fun _ r' => RepoOk r' (f_attach (makeClassKey ns (ci_owningClassName ci)) k d 0 f)) r.
Proof using sl fl il.
  intros Hr Hns Hc (n & Hn & Hf) Ei Ek Hk Hnone Ed Ew Hroom. pose proof (makeClassKey_ok ns _ Hns Hc) as Hck.
  unfold createInstance. eapply wp_open_bind; [done|]. set (ck := makeClassKey _ _) in *.
  eapply wp_mono; [apply (wp_with_handle r f _ (fun _ f' => f' = f_attach ck k d 0 f) Hr)|].
  - intros s Hd Ec. pose proof (room_content _ _ _ _ Ec Hroom) as Hroom'.
    eapply wp_getNameSpaceNode; [done..|]. intros s1 v A p Hd1 Hp Hrm. specialize (Hrm _ _ Hroom').
    wstep. eapply wp_outcome; [exact Ei|]. wstep. eapply wp_outcome; [exact Ek|]. wstep.
    eapply hold_getNode; [done..|]. intros s2 [nd|] Hd2 Hg; simpl in Hg.
    { destruct (held_shows _ _ _ _ _ _ Hd2 Hg) as (n' & Hn' & _). congruence. }
    wstep. eapply wp_outcome; [exact Ed|]. wstep. eapply wp_outcome; [exact Ew|].
    pose proof (room_view _ _ _ _ _ _ _ _ _ Hd1 Hd2 Hrm) as Hrm2.
    destruct (newNode_newborn k d Hk) as (nn & -> & Hnn & H0); [by eapply room_small; [by eapply DbV_Db|]|].
    wstep. eapply wp_mono; [by apply (hold_addChild s2 v A f ck p k d nn)|].
    intros b s3 [_ Hd3]. wstep. eexists. split; [exact Hd3|]. by rewrite H0.
  - intros x r' ((f' & Hr' & ->) & _). done.
Qed.

(** An instance is refused when its class has no node, or its key is taken. *)
Lemma createInstance_no_class r f ns c ci :
  RepoOk r f -> key_ok ns -> text (ci_owningClassName ci) -> f_nodes f !! makeClassKey ns (ci_owningClassName ci) = None ->
  throws (createInst ns c ci) "CIMException::INVALID_CLASS" (fun r' => RepoOk r' f) r.
Proof using sl fl il.
  intros Hr Hns Hc Hn. pose proof (makeClassKey_ok ns _ Hns Hc) as Hck. unfold createInstance. eapply throws_open_bind; [done|].
  eapply throws_mono; [apply (throws_with_handle r f); [done|]|by intros r' []].
  intros s Hd _. apply throws_bind. unfold getNameSpaceNode. rewrite bool_decide_false by apply Hck. eapply wp_getNode_case; [done..| |].
  - intros s' v A Hd' _ _. wstep. split; [done|]. by eapply DbV_Db.
  - intros s' v A nd n0 _ E. congruence.
Qed.

Lemma createInstance_duplicate r f ns c ci icop k n :
  RepoOk r f -> key_ok ns -> text (ci_owningClassName ci) -> class_node f ns ci ->
  instance_path ns ci = Ok icop -> instanceKey ns (Some icop) c = Ok k -> key_ok k -> f_nodes f !! k = Some n ->
  throws (createInst ns c ci) "CIMException::ALREADY_EXISTS" (fun r' => RepoOk r' f) r.
Proof using sl fl il.
  intros Hr Hns Hc (n' & Hn & Hf) Ei Ek Hk Hsome. pose proof (makeClassKey_ok ns _ Hns Hc) as Hck.
  unfold createInstance. eapply throws_open_bind; [done|].
  eapply throws_mono; [apply (throws_with_handle r f); [done|]|by intros r' []].
  intros s Hd _. apply throws_bind. unfold getNameSpaceNode. rewrite bool_decide_false by apply Hck. eapply wp_getNode_case; [done..| |].
  { intros s' v A _ E. congruence. }
  intros s' v A nd n0 Hd' E Hh Hfl _. simplify_eq. rewrite (areAllFlagsOn_has _ _ _ Hfl), Hf. cbn [negb]. wstep.
  apply throws_bind. eapply wp_outcome; [exact Ei|]. apply throws_bind. eapply wp_outcome; [exact Ek|].
  eapply throws_getNode_case; [by eapply DbV_Db|done| |].
  - intros s2 v2 A2 _ E2. congruence.
  - intros s2 v2 A2 nd2 n2 Hd2 _ _ _. split; [done|]. by eapply DbV_Db.
Qed.

(** What [getCIMInstance] makes of the stored object. *)
Definition presented ns c (localOnly includeQualifiers includeClassOrigin : bool) (pl : option (list bytes)) ci : outcome (INSTData CIMValueImpl) :=
  ci ← sync ci (Some c) true;
  ci ← (if bool_decide (is_Some pl) || localOnly || negb includeQualifiers || negb includeClassOrigin
        then clone localOnly includeQualifiers includeClassOrigin pl ci else Ok ci);
  Ok (setNameSpace ci ns).

Lemma getCIMInstance_found r f ns path c k ci lo iq ic pl i :
  RepoOk r f -> instanceKey ns path c = Ok k -> key_ok k -> stores (cb := Instance_base asserts) f k ci ->
  presented ns c lo iq ic pl ci = Ok i ->
  wp (getInst ns path c lo iq ic pl) (fun x r' => x = i /\ RepoOk r' f) r.
Proof using fl il.
  intros Hr Ek Hk Hs Ep. unfold getCIMInstance. eapply wp_open_bind; [done|]. wstep. eapply wp_outcome; [exact Ek|].
  eapply wp_mono; [apply (wp_with_handle r f _ (fun x f' => x = i /\ f' = f) Hr)|].
  - intros s Hd _. eapply wp_getNode_case; [done..| |].
    { intros s1 v A _ E. destruct Hs as (n & Hn & _). congruence. }
    intros s1 v A nd n Hd1 _ Hh _ _. wstep. eapply wp_mono; [by eapply wp_node_instance|]. intros ? ? [-> ->].
    unfold presented in Ep. destruct (sync ci (Some c) true) as [ci2| | |] eqn:E2; try done. cbn in Ep.
    destruct (if _ || _ then _ else _) as [ci3| | |] eqn:E3 in Ep; try done. injection Ep as <-.
    wstep. eapply wp_outcome; [reflexivity|]. wstep. eapply wp_outcome; [exact E3|]. wstep. exists f. split; [by eapply DbV_Db|done].
  - intros x r' ((f' & Hr' & -> & ->) & _). done.
Qed.

Lemma getCIMInstance_absent r f ns path c k lo iq ic pl :
  RepoOk r f -> instanceKey ns path c = Ok k -> key_ok k -> f_nodes f !! k = None ->
  throws (getInst ns path c lo iq ic pl) "CIMException::NOT_FOUND" (fun r' => RepoOk r' f) r.
Proof using fl il.
  intros Hr Ek Hk Hn. unfold getCIMInstance. eapply throws_open_bind; [done|]. apply throws_bind. eapply wp_outcome; [exact Ek|].
  eapply throws_mono; [apply (throws_with_handle r f); [done|]|by intros r' []].
  intros s Hd _. eapply throws_getNode_case; [done..| |].
  - intros s1 v A Hd1 _. split; [done|]. by eapply DbV_Db.
  - intros s1 v A nd n _ E. congruence.
Qed.

Lemma deleteInstance_existing r f ns path c k ci :
  RepoOk r f -> instanceKey ns path c = Ok k -> key_ok k -> stores (cb := Instance_base asserts) f k ci ->
  wp (deleteInst ns path c) (fun _ r' => exists f', f_prune f f' k /\ RepoOk r' f') r.
Proof using fl il.
  intros Hr Ek Hk Hs. unfold deleteInstance. eapply wp_open_bind; [done|]. wstep. eapply wp_outcome; [exact Ek|].
  eapply wp_mono; [apply (wp_with_handle r f _ (fun _ f' => f_prune f f' k) Hr)|].
  - intros s Hd _. eapply wp_getNode_case; [done..| |].
    { intros s1 v A _ E. destruct Hs as (n & Hn & _). congruence. }
    intros s1 v A nd n Hd1 _ Hh _ _. wstep. eapply wp_mono; [by eapply wp_node_instance|]. intros ? ? [-> ->].
    wstep. eapply wp_mono; [by eapply hold_removeNode|]. intros b s2 (_ & f' & Hpr & Hd2). wstep. eauto.
  - intros x r' ((f' & Hr' & Hpr) & _). eauto.
Qed.

Lemma deleteInstance_absent r f ns path c k :
  RepoOk r f -> instanceKey ns path c = Ok k -> key_ok k -> f_nodes f !! k = None ->
  throws (deleteInst ns path c) "CIMException::NOT_FOUND" (fun r' => RepoOk r' f) r.
Proof using fl il.
  intros Hr Ek Hk Hn. unfold deleteInstance. eapply throws_open_bind; [done|]. apply throws_bind. eapply wp_outcome; [exact Ek|].
  eapply throws_mono; [apply (throws_with_handle r f); [done|]|by intros r' []].
  intros s Hd _. eapply throws_getNode_case; [done..| |].
  - intros s1 v A Hd1 _. split; [done|]. by eapply DbV_Db.
  - intros s1 v A nd n _ E. congruence.
Qed.
(** The object that [modifyInstance] stores. *)
Definition modified c ci_ oldInst includeQualifiers pl : outcome (INSTData CIMValueImpl) :=
  ci ← createModifiedInstance ci_ oldInst includeQualifiers pl c;
  ci ← sync ci (Some c) true;
  same_keys equal ci (ci_keys oldInst) ;;
  removeDuplicated ci c.

(** The steps before the database is asked. *)
Lemma wp_modified {B} c ci_ oldInst iq pl ci1 d (m : bytes -> Prog (St F I) B) Q s :
  modified c ci_ oldInst iq pl = Ok ci1 -> writeObject (CIMBase := Instance_base asserts) ci1 = Ok d -> wp (m d) Q s ->
  wp (ci ← of_outcome (createModifiedInstance ci_ oldInst iq pl c);
      ci ← of_outcome (sync ci (Some c) true);
      _ ← of_outcome (same_keys equal ci (ci_keys oldInst));
      ci ← of_outcome (removeDuplicated ci c);
      d ← of_outcome (writeObject (CIMBase := Instance_base asserts) ci); m d) Q s.
Proof using.
  intros (x & E1 & (y & E2 & (u & E3 & Em)%outcome_bind_ok)%outcome_bind_ok)%outcome_bind_ok Ew Hm.
  wstep. eapply wp_outcome; [exact E1|]. wstep. eapply wp_outcome; [exact E2|]. wstep. eapply wp_outcome; [exact E3|].
  wstep. eapply wp_outcome; [exact Em|]. wstep. by eapply wp_outcome; [exact Ew|].
Qed.

Lemma modifyInstance_existing r f ns path c ci_ oldInst iq pl k ci1 d n :
  RepoOk r f -> instanceKey ns path c = Ok k -> key_ok k -> f_nodes f !! k = Some n ->
  modified c ci_ oldInst iq pl = Ok ci1 -> writeObject (CIMBase := Instance_base asserts) ci1 = Ok d -> room (r_st r) k d ->
  wp (modifyInst ns path c ci_ oldInst iq pl) (fun _ r' => RepoOk r' (f_set k d (fn_flags n) f)) r.
Proof using fl il.
  intros Hr Ek Hk Hn Em Ew Hroom. unfold modifyInstance. eapply wp_open_bind; [done|].
  eapply wp_mono; [apply (wp_with_handle r f _ (fun _ f' => f' = f_set k d (fn_flags n) f) Hr)|].
  - intros s Hd Ec. pose proof (room_content _ _ _ _ Ec Hroom) as Hroom'. eapply wp_modified; [done..|].
    wstep. eapply wp_outcome; [exact Ek|]. eapply wp_getNode_case; [done..| |].
    { intros s1 v A _ E. congruence. }
    intros s1 v A nd n' Hd1 E Hh _ Hrm. simplify_eq. wstep. eapply wp_mono; [by eapply hold_updateNode; eauto|].
    intros [[ok nd1] nd2] s2 [Eok Hd2]. cbn in Eok. subst ok. wstep. eauto.
  - intros x r' ((f' & Hr' & ->) & _). done.
Qed.

Lemma modifyInstance_absent r f ns path c ci_ oldInst iq pl k ci1 d :
  RepoOk r f -> instanceKey ns path c = Ok k -> key_ok k -> f_nodes f !! k = None ->
  modified c ci_ oldInst iq pl = Ok ci1 -> writeObject (CIMBase := Instance_base asserts) ci1 = Ok d ->
  throws (modifyInst ns path c ci_ oldInst iq pl) "CIMException::NOT_FOUND" (fun r' => RepoOk r' f) r.
Proof using fl il.
  intros Hr Ek Hk Hn (x & E1 & (y & E2 & (u & E3 & Em)%outcome_bind_ok)%outcome_bind_ok)%outcome_bind_ok Ew.
  unfold modifyInstance. eapply throws_open_bind; [done|].
  eapply throws_mono; [apply (throws_with_handle r f); [done|]|by intros r' []].
  intros s Hd _. apply throws_bind; eapply wp_outcome; [exact E1|]. apply throws_bind; eapply wp_outcome; [exact E2|].
  apply throws_bind; eapply wp_outcome; [exact E3|]. apply throws_bind; eapply wp_outcome; [exact Em|].
  apply throws_bind; eapply wp_outcome; [exact Ew|]. apply throws_bind; eapply wp_outcome; [exact Ek|].
  eapply throws_getNode_case; [done..| |].
  - intros s1 v A Hd1 _. split; [done|]. by eapply DbV_Db.
  - intros s1 v A nd n _ E. congruence.
Qed.

(** A key that is named differently, has no value or another value is refused
   before the database is asked. *)
Lemma modifyInstance_keys_refused r f ns path c ci_ oldInst iq pl ci2 e :
  RepoOk r f -> (ci ← createModifiedInstance ci_ oldInst iq pl c; sync ci (Some c) true) = Ok ci2 ->
  same_keys equal ci2 (ci_keys oldInst) = Throw e ->
  throws (modifyInst ns path c ci_ oldInst iq pl) e (fun r' => RepoOk r' f) r.
Proof using fl il.
  intros Hr (x & E1 & E2)%outcome_bind_ok E3. unfold modifyInstance. eapply throws_open_bind; [done|].
  eapply throws_mono; [apply (throws_with_handle r f); [done|]|by intros r' []].
  intros s Hd _. apply throws_bind; eapply wp_outcome; [exact E1|]. apply throws_bind; eapply wp_outcome; [exact E2|].
  apply throws_bind_l. unfold throws, of_outcome. by rewrite E3.
Qed.

(** ** Enumerations *)

(** What the visitor makes of the object at a node. *)
Definition visited {B} (visit : INSTData CIMValueImpl -> outcome B) f (k : bytes) : list B :=
  match f_nodes f !! k with
  | Some n => match readObject (CIMBase := Instance_base asserts) (fn_data n) ≫= visit with Ok x => [x] | _ => [] end
  | None => []
  end.

Definition shows {B} (visit : INSTData CIMValueImpl -> outcome B) f (k : bytes) (x : B) : Prop :=
  exists ci, stores (cb := Instance_base asserts) f k ci /\ visit ci = Ok x.

Lemma visited_shows {B} (visit : INSTData CIMValueImpl -> outcome B) f k x : shows visit f k x -> visited visit f k = [x].
Proof using. intros (ci & (n & Hn & Hd) & Hv). unfold visited. by rewrite Hn, Hd; cbn; rewrite Hv. Qed.

Lemma visited_all {B} (visit : INSTData CIMValueImpl -> outcome B) f l xs :
  Forall2 (shows visit f) l xs -> concat (visited visit f <$> l) = xs.
Proof using. induction 1 as [|k x l xs Hx _ IH]; [done|]. rewrite fmap_cons. cbn [concat]. by rewrite (visited_shows _ _ _ _ Hx), IH. Qed.

Lemma class_instances_found {B} (visit : INSTData CIMValueImpl -> outcome B) r f ns cn n xs :
  RepoOk r f -> key_ok ns -> text cn -> f_nodes f !! makeClassKey ns cn = Some n -> has_flags HDBCLSNODE_FLAG n = true ->
  Forall2 (shows visit f) (fn_children n) xs ->
  wp (class_instances asserts true ns cn visit) (fun l r' => l = xs /\ RepoOk r' f) r.
Proof using fl il sl.
  intros Hr Hns Hc Hn Hf Hxs. pose proof (makeClassKey_ok ns cn Hns Hc) as Hck. unfold class_instances. eapply wp_open_bind; [done|].
  eapply wp_mono; [apply (wp_with_handle r f _ (fun l f' => l = xs /\ f' = f) Hr)|].
  - intros s Hd _. eapply wp_getNode_case; [done..| |]; [intros s1 v A _ E; congruence|].
    intros s1 v A nd n' Hd1 E Hh Hfl _. simplify_eq. rewrite (areAllFlagsOn_has _ _ _ Hfl), Hf. cbn [negb]. wstep.
    apply (hold_walk s1 v A f (makeClassKey ns cn) nd n ToFirstChild); [done..|]. intros s2 first nd' Hd2 Hfirst. cbn in Hfirst.
    wstep. wstep. pose proof (Db_forest_ok s2 f (DbV_Db _ _ _ _ Hd2)) as Hfo.
    eapply wp_mono; [apply (siblings_loop_spec _ (visited visit f) v A f (fn_children n) (row_children f _ n Hfo Hn)) with (l1 := []); auto|].
    + intros s3 k nd3 Hd3 Hk Hh3. apply list_elem_of_lookup in Hk as (i & Hi).
      destruct (Forall2_lookup_l _ _ _ _ _ Hxs Hi) as (x & _ & Hx). rewrite (visited_shows _ _ _ _ Hx). destruct Hx as (ci & Hs & Hv).
      wstep. eapply wp_mono; [by eapply wp_node_instance|]. intros ? ? [-> ->]. wstep. eapply wp_outcome; [exact Hv|]. by wstep.
    + eapply level_fuel; [by eapply DbV_Db|]. by apply (fo_children f Hfo _ _ Hn).
    + intros l s3 [-> Hd3]. exists f. split; [by eapply DbV_Db|]. split; [|done]. by apply visited_all.
  - intros l r' ((f' & Hr' & -> & ->) & _). done.
Qed.

Lemma class_instances_absent {B} (visit : INSTData CIMValueImpl -> outcome B) r f ns cn :
  RepoOk r f -> key_ok ns -> text cn -> f_nodes f !! makeClassKey ns cn = None ->
  throws (class_instances asserts true ns cn visit) "CIMException::INVALID_CLASS" (fun r' => RepoOk r' f) r.
Proof using fl il sl.
  intros Hr Hns Hc Hn. pose proof (makeClassKey_ok ns cn Hns Hc) as Hck. unfold class_instances. eapply throws_open_bind; [done|].
  eapply throws_mono; [apply (throws_with_handle r f); [done|]|by intros r' []].
  intros s Hd _. eapply throws_getNode_case; [done..| |].
  - intros s1 v A Hd1 _. split; [done|]. by eapply DbV_Db.
  - intros s1 v A nd n _ E. congruence.
Qed.
End Facts.
