(* ===== verification/CimRepoOps.v ===== *)
(** * The CIM repository: classes and instances

   The operations of src/src/repositories/hdb/OW_CIMRepository.cpp on qualifier
   types, classes and instances.  A class lives in the meta store, and has a node
   for its instances in the instance store; associations are also entered in an
   association index ([AssocIndex]), one for classes and one for instances.
   [createInstance] is the one without the check of referential integrity, which
   is off unless it is configured. *)

From S2P Require Import Prelude FileIO HdbCommon Index Hdb HdbNode Repo Cache Meta MetaClass.
From S2P Require Import Blocxx CimSerial CimData CimIO CimOps CimSync ClassOps CimStore InstRepo.
Import CIMDataType.

(** What the repository asks of an [AssocDb] with a handle of its own. *)
Class AssocIndex {bx : Blocxx} (D : Type) := {
  addClassEntries : bytes -> CLSData CIMValueImpl -> Prog D ();
  deleteClassEntries : bytes -> CLSData CIMValueImpl -> Prog D ();
  addInstEntries : bytes -> INSTData CIMValueImpl -> Prog D ();
  deleteInstEntries : bytes -> INSTData CIMValueImpl -> Prog D ();
  hasAssocEntries : bytes -> option (OPData CIMValueImpl) -> Prog D bool;
}.

(** ** Exceptions *)

Definition NOT_FOUND_ : string := "CIMException::NOT_FOUND".
Definition FAILED_ : string := "CIMException::FAILED".
Definition INVALID_CLASS_ : string := "CIMException::INVALID_CLASS".
Definition INVALID_NAMESPACE_ : string := "CIMException::INVALID_NAMESPACE".
Definition NO_SUCH_PROPERTY_ : string := "CIMException::NO_SUCH_PROPERTY".
Definition TYPE_MISMATCH_ : string := "CIMException::TYPE_MISMATCH".

(** The class of an exception. *)
Inductive Kind := KCim | KHdb | KIo | KOther.
#[export] Instance Kind_eq_dec : EqDecision Kind.
Proof. solve_decision. Defined.

Definition kind_of (e : string) : Kind :=
  if String.prefix "CIMException::" e then KCim
  else if bool_decide (e ∈ ["IOException"; "BadCIMSignatureException"; "Expected class name node for instances"; "Expected namespace node"; "Failed to open file: "])
  then KIo
  else if bool_decide (e ∈ [AssertionException; ValueCastException; "CIMDateTimeException: Invalid format for date time"]) then KOther
  else KHdb.

(** [catch (E& e) { OW_THROWCIM_SUBEX(CIMException::FAILED, e); }] for each [E] *)
Definition catching {S A} (ks : list Kind) (m : Prog S A) : Prog S A := fun s =>
  match m s with
  | (Throw e, s) => (Throw (if bool_decide (kind_of e ∈ ks) then FAILED_ else e), s)
  | r => r
  end.
Abbreviation guarded := (catching [KHdb; KIo]).

Section CimRepository.
Context {F : Type} {fo : FileOps F} {I : Type} {io : IndexOps I} {D : Type}.
Context {so : StringOps} {bx : Blocxx} {ss : StringSearch} {sc : StringConv} {ai : AssocIndex D} (asserts fileOk : bool).
Context (cast : CIMValueImpl -> DTData -> outcome CIMValue).
Context (value_toString : CIMValueImpl -> outcome bytes) (asKeyString : CIMValue -> outcome bytes).
Context (prop_lt : PROPData CIMValueImpl -> PROPData CIMValueImpl -> bool).
Context (equal : CIMValueImpl -> CIMValueImpl -> outcome bool).
Abbreviation QT := (QUALTData CIMValueImpl).
Abbreviation Cls := (CLSData CIMValueImpl).
Abbreviation Inst := (INSTData CIMValueImpl).
Abbreviation Property := (PROPData CIMValueImpl).
Abbreviation Path := (option (OPData CIMValueImpl)).
Abbreviation MR := (MetaRepository F I QT Cls).
#[local] Instance qualifier_types : CIMBase QT := QualifierType_base asserts.
#[local] Instance qualifier_names : QualifierType QT := {| qt_name := cqt_name |}.

Record CimRepo := mkCimRepo {
  c_stores : CIMRepository F I QT Cls;
  m_classAssocDb : D;
  m_instAssocDb : D;
}.

Definition on_stores {A} (m : Prog (CIMRepository F I QT Cls) A) : Prog CimRepo A := fun x =>
  let (o, s) := m (c_stores x) in (o, mkCimRepo s (m_classAssocDb x) (m_instAssocDb x)).
Definition on_names {A} (m : Prog (Repo F I) A) : Prog CimRepo A := on_stores (on_nStore m).
Definition on_instances {A} (m : Prog (Repo F I) A) : Prog CimRepo A := on_stores (on_iStore m).
Definition meta_of (x : CimRepo) : MR := m_mStore (c_stores x).
Definition set_meta (r : MR) (x : CimRepo) : CimRepo :=
  mkCimRepo (mkCIMRepo (m_nStore (c_stores x)) (m_iStore (c_stores x)) r) (m_classAssocDb x) (m_instAssocDb x).
Definition on_classes_ {A} (m : Prog MR A) : Prog CimRepo A := on_meta meta_of set_meta m.
Definition on_classAssoc {A} (m : Prog D A) : Prog CimRepo A := fun x =>
  let (o, d) := m (m_classAssocDb x) in (o, mkCimRepo (c_stores x) d (m_instAssocDb x)).
Definition on_instAssoc {A} (m : Prog D A) : Prog CimRepo A := fun x =>
  let (o, d) := m (m_instAssocDb x) in (o, mkCimRepo (c_stores x) (m_classAssocDb x) d).

(** ** Qualifier types *)

Definition cim_getQualifierType (ns name : bytes) : Prog CimRepo QT := on_classes_ (getQualifierType fileOk ns name).
Definition cim_enumQualifierTypes (ns : bytes) : Prog CimRepo (list QT) := on_classes_ (enumQualifierTypes fileOk ns).
Definition cim_setQualifierType (ns : bytes) (qt : QT) : Prog CimRepo () := on_classes_ (setQualifierType fileOk ns qt).
Definition cim_deleteQualifierType (ns name : bytes) : Prog CimRepo () :=
  ok ← on_classes_ (deleteQualifierType fileOk ns name);
  if ok : bool then mret ()
  else
    ex ← on_names (nameSpaceExists fileOk ns);
    if ex : bool then throw NOT_FOUND_ else throw INVALID_NAMESPACE_.

(** ** Classes *)

Definition checkGetClassRvalAndThrow (missing : string) (rval : ClassResult) (ns : bytes) : Prog CimRepo Cls :=
  match rval with
  | SUCCESS c => mret c
  | NOT_FOUND => ex ← on_names (nameSpaceExists fileOk ns); if ex : bool then throw missing else throw INVALID_NAMESPACE_
  | FAILED => throw FAILED_
  end.

Definition cim_getClass (ns className : bytes) (localOnly includeQualifiers includeClassOrigin : bool) (propertyList : option (list bytes)) : Prog CimRepo Cls :=
  guarded (
    rval ← on_classes_ (getCIMClass asserts fileOk ns className localOnly includeQualifiers includeClassOrigin propertyList);
    checkGetClassRvalAndThrow NOT_FOUND_ rval ns).

Definition _getClass (ns className : bytes) : Prog CimRepo Cls :=
  rval ← on_classes_ (getCIMClass asserts fileOk ns className false true true None); checkGetClassRvalAndThrow NOT_FOUND_ rval ns.
(** The class of an instance: a missing one is an invalid class. *)
Definition _instGetClass (ns className : bytes) : Prog CimRepo Cls :=
  rval ← on_classes_ (getCIMClass asserts fileOk ns className false true true None); checkGetClassRvalAndThrow INVALID_CLASS_ rval ns.

Definition enumClasses {A} (ns className : bytes) (handle : Cls -> Prog CimRepo A) (deep localOnly includeQualifiers includeClassOrigin : bool)
    : Prog CimRepo (list A) :=
  guarded (enumClass asserts fileOk meta_of set_meta ns className handle deep localOnly includeQualifiers includeClassOrigin).
Definition cim_enumClassNames {A} (ns className : bytes) (handle : bytes -> Prog CimRepo A) (deep : bool) : Prog CimRepo (list A) :=
  guarded (enumClassNames fileOk meta_of set_meta ns className handle deep).

(** [CIMClassDeleter::doHandle] *)
Definition deleter (ns : bytes) (c : Cls) : Prog CimRepo () :=
  ok ← on_classes_ (deleteClass asserts fileOk ns (cc_name c));
  if negb ok then throw NOT_FOUND_
  else
    on_instances (inst_deleteClass fileOk ns (cc_name c)) ;;
    if cc_associationFlag c then on_classAssoc (deleteClassEntries ns c) else mret ().

(** The sub-classes first, while they are enumerated. *)
Definition cim_deleteClass (ns className : bytes) : Prog CimRepo Cls :=
  guarded (
    cc ← _getClass ns className;
    enumClasses ns className (deleter ns) true true false false ;;
    deleter ns cc ;;
    mret cc).

(** The class that a reference property points to has to be there. *)
Definition reference_class (ns refClassName : bytes) : Prog CimRepo () := fun x =>
  match _getClass ns refClassName x with
  | (Ok _, x) => (Ok (), x)
  | (Throw e, x) => (Throw (if bool_decide (e = NOT_FOUND_) then CIM_INVALID_PARAMETER else e), x)
  | (Crash, x) => (Crash, x)
  | (Diverge, x) => (Diverge, x)
  end.
Definition check_reference (ns : bytes) (p : Property) : Prog CimRepo () :=
  dt ← of_outcome (present (p_propertyDataType p));
  if m_type dt =? REFERENCE then reference_class ns (m_reference dt) else mret ().
Fixpoint check_references (ns : bytes) (l : list (option Property)) : Prog CimRepo () :=
  match l with
  | [] => mret ()
  | x :: l => p ← of_outcome (present x); check_reference ns p ;; check_references ns l
  end.

Definition cim_createClass (ns : bytes) (cimClass : Cls) : Prog CimRepo () :=
  guarded (
    check_references ns (cc_properties cimClass) ;;
    c ← on_classes_ (createClass asserts fileOk equal ns cimClass);
    on_instances (inst_createClass fileOk ns (cc_name c)) ;;
    c ← _getClass ns (cc_name c);
    if cc_associationFlag c then on_classAssoc (addClassEntries ns c) else mret ()).

Definition cim_modifyClass (ns : bytes) (cc : Cls) : Prog CimRepo Cls :=
  guarded (
    origClass ← _getClass ns (cc_name cc);
    if bool_decide (cc_parentClassName cc = []) && negb (bool_decide (cc_parentClassName origClass = [])) then throw FAILED_
    else on_classes_ (modifyClass asserts fileOk equal ns cc) ;; mret origClass).

(** ** Instances *)

Definition getClassChildren (ns clsName : bytes) : Prog CimRepo (list bytes) :=
  enumClassNames fileOk meta_of set_meta ns clsName mret true.

(** [InstNameEnumerator::doHandle] *)
Definition instance_names (ns : bytes) (c : Cls) : Prog CimRepo (list Path) := on_instances (getInstanceNames asserts fileOk cast ns c).

Definition NAMESPACE_CLASS : bytes := txt "__Namespace".

Definition enumInstanceNames (ns className : bytes) (deep : bool) : Prog CimRepo (list Path) :=
  guarded (
    theClass ← _instGetClass ns className;
    l ← instance_names ns theClass;
    if equalsIgnoreCase className NAMESPACE_CLASS || negb deep then mret l
    else
      r ← enumClass asserts fileOk meta_of set_meta ns className (instance_names ns) deep false true true;
      mret (l ++ concat r)).

Definition enumInstances (ns className : bytes) (deep localOnly includeQualifiers includeClassOrigin : bool) (propertyList : option (list bytes))
    (enumSubclasses : bool) : Prog CimRepo (list Inst) :=
  guarded (
    theTopClass ← _instGetClass ns className;
    let instances c name := on_instances (getCIMInstances asserts fileOk cast ns name theTopClass c deep localOnly includeQualifiers includeClassOrigin propertyList) in
    l ← instances theTopClass className;
    if enumSubclasses then
      r ← enumClassNames fileOk meta_of set_meta ns className (fun name => c ← _instGetClass ns name; instances c name) true;
      mret (l ++ concat r)
    else mret l).

(** The instance and its class. *)
Definition cim_getInstance (ns : bytes) (instanceName : Path) (localOnly includeQualifiers includeClassOrigin : bool)
    (propertyList : option (list bytes)) : Prog CimRepo (Inst * Cls) :=
  d ← of_outcome (present instanceName);
  cc ← _instGetClass ns (op_objectName d);
  ci ← catching [KIo] (on_instances (getCIMInstance asserts fileOk cast value_toString asKeyString prop_lt ns instanceName cc
         localOnly includeQualifiers includeClassOrigin propertyList));
  mret (ci, cc).

Definition cim_deleteInstance (ns : bytes) (cop : Path) : Prog CimRepo Inst :=
  d ← of_outcome (present cop);
  cop ← of_outcome (present (path_setNameSpace d ns));
  guarded (
    '(oldInst, theClass) ← cim_getInstance ns (Some cop) false true true None;
    has ← on_instAssoc (hasAssocEntries ns (Some cop));
    if has : bool then throw FAILED_
    else
      (if cc_associationFlag theClass then on_instAssoc (deleteInstEntries ns oldInst) else mret ()) ;;
      on_instances (deleteInstance asserts fileOk cast value_toString asKeyString prop_lt ns (Some cop) theClass) ;;
      mret oldInst).

Definition cim_createInstance (ns : bytes) (ci : Inst) : Prog CimRepo (OPData CIMValueImpl) :=
  rval ← of_outcome (instance_path ns ci);
  guarded (
    theClass ← _instGetClass ns (ci_owningClassName ci);
    on_instances (createInstance asserts fileOk cast value_toString asKeyString prop_lt equal ns theClass ci) ;;
    (if cc_associationFlag theClass then on_instAssoc (addInstEntries ns ci) else mret ()) ;;
    mret rval).

Definition cim_modifyInstance (ns : bytes) (modifiedInstance : Inst) (includeQualifiers : bool) (propertyList : option (list bytes)) : Prog CimRepo Inst :=
  guarded (
    cop ← of_outcome (instance_path ns modifiedInstance);
    '(oldInst, theClass) ← cim_getInstance ns (Some cop) false true true None;
    on_instances (modifyInstance asserts fileOk cast value_toString asKeyString prop_lt equal ns (Some cop) theClass modifiedInstance oldInst includeQualifiers propertyList) ;;
    (if cc_associationFlag theClass then on_instAssoc (deleteInstEntries ns oldInst ;; addInstEntries ns modifiedInstance) else mret ()) ;;
    mret oldInst).

(** ** Properties *)

Definition class_property (ns : bytes) (name : Path) (propertyName : bytes) : Prog CimRepo Property :=
  d ← of_outcome (present name);
  theClass ← _instGetClass ns (op_objectName d);
  cp ← of_outcome (cls_getProperty theClass propertyName);
  match cp with None => throw NO_SUCH_PROPERTY_ | Some cp => mret cp end.

(** The value in the type of the property. *)
Definition typed_value (cp : Property) (v : CIMValue) : outcome CIMValue :=
  match v with
  | None => Ok None
  | Some x =>
      dt ← present (p_propertyDataType cp);
      if m_type dt =? value_type x then Ok v
      else match cast x dt with
           | Throw e => Throw (if bool_decide (e = FAILED_) then TYPE_MISMATCH_ else e)
           | r => r
           end
  end.

Definition cim_setProperty (ns : bytes) (name : Path) (propertyName : bytes) (valueArg : CIMValue) : Prog CimRepo () :=
  cp ← class_property ns name propertyName;
  cv ← of_outcome (typed_value cp valueArg);
  '(ci, _) ← cim_getInstance ns name false true true None;
  tcp ← of_outcome (getProperty ci propertyName);
  key ← of_outcome (isKey cp);
  changed ← of_outcome (
    if (key : bool) then
      tcp ← present tcp;
      match p_cimValue tcp with Some v => b ← value_equal equal (Some v) cv; Ok (negb b) | None => Ok false end
    else Ok false);
  if changed : bool then throw FAILED_
  else
    cp ← of_outcome (setValue asserts cast cp cv);
    ci ← of_outcome (setProperty ci (Some cp));
    _ ← cim_modifyInstance ns ci true None;
    mret ().

Definition cim_getProperty (ns : bytes) (name : Path) (propertyName : bytes) : Prog CimRepo CIMValue :=
  _ ← class_property ns name propertyName;
  '(ci, _) ← cim_getInstance ns name false true true None;
  prop ← of_outcome (getProperty ci propertyName);
  match prop with None => throw NO_SUCH_PROPERTY_ | Some p => mret (p_cimValue p) end.
End CimRepository.

Arguments CimRepo : clear implicits.
Arguments CimRepo F I D {bx}.
