(* ===== verification/CimRepo.v ===== *)
(** * Namespaces in three stores

   [CIMRepository] keeps every namespace in the namespace store, in the
   instance store and, as a class and a qualifier container, in the meta store.
   Creating one makes it in all of them, or is taken back. *)

From S2P Require Import Prelude FileIO HdbCommon Index Hdb HdbHeap Dll FreeList HdbNode HdbInv HdbAdd HdbUpdate HdbSpec HdbContract HdbHold HdbForest Repo RepoFacts RepoOps Cache Meta MetaOps MetaEnum.

Section Cim.
Context {F : Type} {fo : FileOps F} {fl : FileLaws F}.
Context {I : Type} {io : IndexOps I} {il : IndexLaws I}.
Context {so : StringOps} {sl : StringLaws}.
Context {Q : Type} {cb : CIMBase Q} {qc : QualifierType Q}.
Context {C : Type}.
Implicit Types (s : St F I) (f : Forest) (r : Repo F I) (c : CIMRepository F I Q C).

(** The three stores hold the forests [fn], [fi] and [fm]. *)
Record CimOk c fn fi fm : Prop := {
  co_names : RepoOk (m_nStore c) fn;
  co_inst : RepoOk (m_iStore c) fi;
  co_meta : MetaOk (m_mStore c) fm;
}.

Definition add_ns (ns : bytes) f : Forest := f_attach [] ns (name_data ns) HDBNSNODE_FLAG f.

(** ** Lifting *)

Lemma wp_on_nStore {A} (p : Prog (Repo F I) A) P c :
  wp p (fun a r => P a (mkCIMRepo r (m_iStore c) (m_mStore c))) (m_nStore c) -> wp (on_nStore p) P c.
Proof using. unfold wp, on_nStore. by destruct (p (m_nStore c)) as [[] r]. Qed.

Lemma wp_on_iStore {A} (p : Prog (Repo F I) A) P c :
  wp p (fun a r => P a (mkCIMRepo (m_nStore c) r (m_mStore c))) (m_iStore c) -> wp (on_iStore p) P c.
Proof using. unfold wp, on_iStore. by destruct (p (m_iStore c)) as [[] r]. Qed.

Lemma wp_on_mStore {A} (p : Prog (MetaRepository F I Q C) A) P c :
  wp p (fun a m => P a (mkCIMRepo (m_nStore c) (m_iStore c) m)) (m_mStore c) -> wp (on_mStore p) P c.
Proof using. unfold wp, on_mStore. by destruct (p (m_mStore c)) as [[] r]. Qed.

(** ** One store *)

Lemma createNameSpace_add r f ns P :
  RepoOk r f -> key_ok ns -> f_nodes f !! ns = None -> room (r_st r) ns (name_data ns) ->
  (forall r', RepoOk r' (add_ns ns f) -> P 0 r') -> wp (createNameSpace true ns) P r.
Proof using fl il.
  intros Hr Hk Hn Hroom HP. eapply wp_mono; [by apply (createNameSpace_new r f)|].
  intros x r' (-> & Hr' & _). by apply HP.
Qed.

Lemma createNameSpace_there r f ns n P :
  RepoOk r f -> key_ok ns -> f_nodes f !! ns = Some n -> has_flags HDBNSNODE_FLAG n = true ->
  (forall r', RepoOk r' f -> P (-1) r') -> wp (createNameSpace true ns) P r.
Proof using fl il.
  intros Hr Hk Hn Hf HP. pose proof (createNameSpace_existing r f ns n Hr Hk Hn) as Hw. rewrite Hf in Hw.
  eapply wp_mono; [done|]. intros x r' (-> & Hr' & _). by apply HP.
Qed.

(** Deleting the namespace just created gives back the forest. *)
Lemma deleteNameSpace_back r f ns P :
  RepoOk r (add_ns ns f) -> Forest_ok f -> key_ok ns -> ns <> root_name -> f_nodes f !! ns = None ->
  (forall r', RepoOk r' f -> P () r') -> wp (deleteNameSpace true ns) P r.
Proof using fl il.
  intros Hr Hf Hk Hne Hn HP.
  pose proof (deleteNameSpace_existing r (add_ns ns f) ns (mkFNode (name_data ns) HDBNSNODE_FLAG [] []) Hr Hk Hne) as Hw.
  eapply wp_mono; [apply Hw|].
  - unfold add_ns. by rewrite f_attach_nodes, decide_True.
  - intros [] r' ((f' & Hp & Hr') & _). apply HP. by rewrite <- (prune_attach [] f f' ns _ _ Hf Hk Hn Hp).
Qed.

(** ** Creating *)

Definition ns_ok (ns : bytes) : Prop := key_ok ns /\ existsb (Z.eqb NS_SEPARATOR_C) ns = false /\ ns <> root_name.

Lemma containers_ne ns ns' : qual_container ns <> class_container ns'.
Proof using. intros [=]. Qed.

Lemma cim_createNameSpace_new c fn fi fm ns :
  CimOk c fn fi fm -> ns_ok ns ->
  f_nodes fn !! ns = None -> f_nodes fi !! ns = None ->
  f_nodes fm !! class_container ns = None -> f_nodes fm !! qual_container ns = None ->
  room (r_st (m_nStore c)) ns (name_data ns) -> room (r_st (m_iStore c)) ns (name_data ns) ->
  let ck := class_container ns in let qk := qual_container ns in
  room (r_st (mr_repo (m_mStore c))) ck (name_data ck) ->
  (forall r', (createNameSpace true ck (mr_repo (m_mStore c))).2 = r' -> room (r_st r') qk (name_data qk)) ->
  wp (cim_createNameSpace true ns) (fun _ c' => CimOk c' (add_ns ns fn) (add_ns ns fi) (add_ns qk (add_ns ck fm))) c.
Proof using fl il.
  intros [Hn Hi [Hm Hc]] (Hk & Hsep & Hne) En Ei Ec Eq Rn Ri ck qk Rc Rq. unfold cim_createNameSpace.
  rewrite bool_decide_false by apply Hk. rewrite Hsep. wstep. apply wp_on_nStore.
  eapply createNameSpace_add; [done..|]. intros rn Hrn. change (0 =? -1) with false. cbv iota. wstep. apply wp_on_iStore.
  eapply createNameSpace_add; [done..|]. intros ri Hri. change (0 =? -1) with false. cbv iota. wstep. apply wp_on_mStore.
  apply wp_on_repo. simpl. unfold meta_createNameSpace. fold ck qk.
  assert (key_ok ck /\ key_ok qk) as [Hck Hqk] by (split; [apply class_container_ok|apply qual_container_ok]; apply Hk).
  destruct (wp_after _ _ _ (createNameSpace_new _ fm ck Hm Hck Ec Rc)) as (x & Ex & -> & Hm1 & _).
  wstep. unfold wp at 1. rewrite Ex. change (0 =? -1) with false. cbv iota.
  eapply createNameSpace_add; [exact Hm1|done| |by apply Rq|].
  { rewrite attach_root_nodes; [done|]. apply containers_ne. }
  intros rm Hrm. change (0 =? -1) with false. cbv iota. wstep. constructor; [done..|]. constructor; [done|]. simpl.
  destruct Hc as (l & Hl & Hs). exists l. split; [done|]. intros k q Hkq. specialize (Hs k q Hkq).
  assert (k <> ck /\ k <> qk) as [] by (destruct Hs as (n & Hkn & _); split; intros ->; subst ck qk; congruence).
  apply stores_attach_ne; [done|]. by apply stores_attach_ne.
Qed.

(** A namespace that the namespace store has is refused. *)
Lemma cim_createNameSpace_duplicate c fn fi fm ns n :
  CimOk c fn fi fm -> ns_ok ns -> f_nodes fn !! ns = Some n -> has_flags HDBNSNODE_FLAG n = true ->
  throws (cim_createNameSpace true ns) "CIMException::ALREADY_EXISTS" (fun c' => CimOk c' fn fi fm) c.
Proof using fl il.
  intros [Hn Hi Hm] (Hk & Hsep & Hne) En Hf. unfold cim_createNameSpace.
  rewrite bool_decide_false by apply Hk. rewrite Hsep. apply throws_bind, wp_on_nStore.
  eapply createNameSpace_there; [done..|]. intros r' Hr'. split; [done|]. by constructor.
Qed.

(** One that only the instance store has: the namespace store is put back. *)
Lemma cim_createNameSpace_rollback c fn fi fm ns n :
  CimOk c fn fi fm -> ns_ok ns -> f_nodes fn !! ns = None -> room (r_st (m_nStore c)) ns (name_data ns) ->
  f_nodes fi !! ns = Some n -> has_flags HDBNSNODE_FLAG n = true ->
  throws (cim_createNameSpace true ns) "CIMException::FAILED" (fun c' => CimOk c' fn fi fm) c.
Proof using fl il.
  intros [Hn Hi Hm] (Hk & Hsep & Hne) En Rn Ei Hf. unfold cim_createNameSpace.
  pose proof (Db_forest_ok _ _ (ro_db _ _ Hn)) as Hfn.
  rewrite bool_decide_false by apply Hk. rewrite Hsep. apply throws_bind, wp_on_nStore.
  eapply createNameSpace_add; [done..|]. intros rn Hrn. change (0 =? -1) with false. cbv iota. apply throws_bind, wp_on_iStore.
  eapply createNameSpace_there; [done..|]. intros ri Hri. change (-1 =? -1) with true. cbv iota.
  apply throws_bind, wp_on_nStore. simpl. eapply deleteNameSpace_back; [done..|]. intros rn' Hrn'.
  split; [done|]. by constructor.
Qed.

(** One of which the meta store has the classes: both stores are put back. *)
Lemma cim_createNameSpace_rollback_meta c fn fi fm ns n :
  CimOk c fn fi fm -> ns_ok ns -> f_nodes fn !! ns = None -> room (r_st (m_nStore c)) ns (name_data ns) ->
  f_nodes fi !! ns = None -> room (r_st (m_iStore c)) ns (name_data ns) ->
  f_nodes fm !! class_container ns = Some n -> has_flags HDBNSNODE_FLAG n = true ->
  throws (cim_createNameSpace true ns) "CIMException::FAILED" (fun c' => CimOk c' fn fi fm) c.
Proof using fl il.
  intros [Hn Hi Hm] (Hk & Hsep & Hne) En Rn Ei Ri Em Hf. unfold cim_createNameSpace.
  pose proof (Db_forest_ok _ _ (ro_db _ _ Hn)) as Hfn. pose proof (Db_forest_ok _ _ (ro_db _ _ Hi)) as Hfi.
  rewrite bool_decide_false by apply Hk. rewrite Hsep. apply throws_bind, wp_on_nStore.
  eapply createNameSpace_add; [done..|]. intros rn Hrn. change (0 =? -1) with false. cbv iota. apply throws_bind, wp_on_iStore.
  eapply createNameSpace_add; [done..|]. intros ri Hri. change (0 =? -1) with false. cbv iota.
  apply throws_bind, wp_on_mStore, wp_on_repo. unfold meta_createNameSpace. wstep. destruct Hm as [Hm Hc].
  eapply createNameSpace_there; [done|apply class_container_ok, Hk|done..|]. intros rm Hrm.
  change (-1 =? -1) with true. cbv iota. wstep. change (-1 =? -1) with true. cbv iota.
  apply throws_bind, wp_on_nStore. simpl. eapply deleteNameSpace_back; [done..|]. intros rn' Hrn'.
  apply throws_bind, wp_on_iStore. simpl. eapply deleteNameSpace_back; [done..|]. intros ri' Hri'.
  split; [done|]. by constructor.
Qed.

(** ** Enumerating *)

Lemma enumNameSpace_roots c fn fi fm :
  CimOk c fn fi fm -> wp (enumNameSpace true) (fun l c' => l = f_roots fn /\ CimOk c' fn fi fm) c.
Proof using fl il.
  intros [Hn Hi Hm]. unfold enumNameSpace. apply wp_on_nStore.
  eapply wp_mono; [by apply (roots_loop (m_nStore c) fn)|]. intros l r' [-> Hr']. split; [done|]. by constructor.
Qed.
End Cim.
