(* ===== verification/RepoMain.v ===== *)
(** * The theorems on the repositories

   The properties of the repositories on top of the hierarchical database,
   each with a witness on concrete repositories: in-memory files, an
   [IndexImpl] over the reference B-tree, ASCII lower case, and the qualifier
   types of the CIM object model in their binary form. *)

From S2P Require Import Prelude Blocxx CimSerial CimData CimIO CimTotal CimObjects CimRef.
From S2P Require Import FileIO HdbCommon Index Hdb HdbHeap Dll FreeList HdbNode HdbInv HdbAdd HdbUpdate HdbSpec HdbContract HdbHold HdbForest Repo CimStore RepoFacts RepoOps Cache Meta MetaOps MetaEnum CimRepo HdbMain.

Section Theorems.
Context {F : Type} {fo : FileOps F} {fl : FileLaws F}.
Context {I : Type} {io : IndexOps I} {il : IndexLaws I}.
Implicit Types (s : St F I) (f : Forest) (r : Repo F I).

(** C14: whatever calls a client makes on a new database, whether they succeed,
   are refused or throw, the nodes form a forest: keys are non-empty C strings,
   the children of a node are exactly the nodes that name it as their parent,
   in a list without duplicates, the roots are exactly the nodes without a
   parent, and every node is below a root.  The next call returns or throws and
   has done to the forest what it says, or nothing. *)
Theorem reachable_forest s :
  reach s -> exists f, Db s f /\ Forest_ok f /\
    forall c, call_ok c s -> settles (db_call c) (db_effect c f) f s.
Proof.
  intros [f Hd]%reach_db. exists f. split_and!; [done|by eapply Db_forest_ok|]. intros c Hc. by apply call_settles.
Qed.

(** C15: [createNameSpace] makes a new root node with the namespace flag and
   returns 0; it returns -1 for a namespace that is there and throws for a node
   that is not a namespace, and both leave the database as it is.
   [deleteNameSpace] removes the namespace with everything below it; a name that
   is not there, a node that is not a namespace and the namespace root are
   refused without a change. *)
Theorem namespaces_correct r f ns :
  RepoOk r f -> key_ok ns ->
  (room (r_st r) ns (name_data ns) ->
   match f_nodes f !! ns with
   | None => wp (createNameSpace true ns) (fun c r' => c = 0 /\ RepoOk r' (add_ns ns f)) r
   | Some n =>
       if has_flags HDBNSNODE_FLAG n
       then wp (createNameSpace true ns) (fun c r' => c = -1 /\ RepoOk r' f) r
       else throws (createNameSpace true ns) "logic error. read namespace node that is not a namespace"
              (fun r' => RepoOk r' f) r
   end) /\
  if bool_decide (ns = root_name)
  then throws (deleteNameSpace true ns) "cannot delete root namespace" (fun r' => r' = r) r
  else match f_nodes f !! ns with
  | None => throws (deleteNameSpace true ns) "Unable to delete namespace" (fun r' => RepoOk r' f) r
  | Some n =>
      if has_flags HDBNSNODE_FLAG n
      then wp (deleteNameSpace true ns) (fun _ r' => exists f', f_prune f f' ns /\ RepoOk r' f') r
      else throws (deleteNameSpace true ns) "logic error. deleting non-namespace node" (fun r' => RepoOk r' f) r
  end.
Proof.
  intros Hr Hk. split.
  - intros Hroom. destruct (f_nodes f !! ns) as [n|] eqn:E.
    + pose proof (createNameSpace_existing r f ns n Hr Hk E) as Hw. destruct (has_flags HDBNSNODE_FLAG n).
      * eapply wp_mono; [done|]. naive_solver.
      * eapply throws_mono; [done|]. naive_solver.
    + eapply wp_mono; [by apply createNameSpace_new|]. naive_solver.
  - case_bool_decide as Er; [subst; by eapply deleteNameSpace_root|].
    destruct (f_nodes f !! ns) as [n|] eqn:E.
    + pose proof (deleteNameSpace_existing r f ns n Hr Hk Er E) as Hw. destruct (has_flags HDBNSNODE_FLAG n).
      * eapply wp_mono; [done|]. naive_solver.
      * eapply throws_mono; [done|]. naive_solver.
    + eapply throws_mono; [by apply deleteNameSpace_absent|]. naive_solver.
Qed.

(** C16: a scope that takes a handle from the pool ends as its body ends, also
   when the body throws, with the handle back: a pool of idle handles is a pool
   of idle handles again, of at most MAXHANDLES. *)
Theorem handle_scope {A} r f (body : Prog (Repo F I) A) :
  RepoOk r f -> Forall idle (m_handles r) ->
  (forall r1, RepoOk r1 f -> exists f', RepoOk (body r1).2 f' /\ pool_step (m_handles r1) (m_handles (body r1).2)) ->
  exists r1 r', with_handle true body r = ((body r1).1, r') /\
    Forall idle (m_handles r') /\ zlen (m_handles r') <= MAXHANDLES.
Proof.
  intros Hr Hid Hb. destruct (with_handle_spec r f body Hr) as (r1 & Hr1 & _ & Hw).
  destruct (Hb r1 Hr1) as (f' & Hr2 & Hs). destruct (body r1) as [res r2] eqn:E. simpl in *.
  destruct (Hw res r2 f' eq_refl Hr2 Hs) as (r' & Er & [_ Hp _] & Hs' & _). exists r1, r'. rewrite E. simpl.
  split_and!; [done| |apply Hp]. destruct Hs' as (n & -> & _). apply Forall_app. split; [done|].
  apply Forall_replicate. done.
Qed.
End Theorems.

Section Classes.
Context {F : Type} {fo : FileOps F} {fl : FileLaws F}.
Context {I : Type} {io : IndexOps I} {il : IndexLaws I}.
Context {so : StringOps} {sl : StringLaws}.
Implicit Types (f : Forest) (r : Repo F I).

(** The instance repository makes a class a child of its namespace, and
   refuses a missing namespace, a node that is none and a class that is there;
   a class that was created has no instances, and deleting it gives back the
   database that there was. *)
Theorem createClass_correct r f ns c :
  RepoOk r f -> key_ok ns -> text c ->
  let ck := makeClassKey ns c in room (r_st r) ck (name_data ck) ->
  match f_nodes f !! ns with
  | None => throws (inst_createClass true ns c) "CIMException::INVALID_NAMESPACE" (fun r' => RepoOk r' f) r
  | Some n =>
      if has_flags HDBNSNODE_FLAG n then
        match f_nodes f !! ck with
        | Some _ => throws (inst_createClass true ns c) "CIMException::ALREADY_EXISTS" (fun r' => RepoOk r' f) r
        | None =>
            wp (inst_createClass true ns c) (fun _ r' => RepoOk r' (f_attach ns ck (name_data ck) class_flags f)) r /\
            wp (inst_createClass true ns c ;; b ← classHasInstances true ns c; inst_deleteClass true ns c ;; mret b)
              (fun b r' => b = false /\ RepoOk r' f) r
        end
      else throws (inst_createClass true ns c) "logic error. Expected namespace node" (fun r' => RepoOk r' f) r
  end.
Proof using sl il fl.
  intros Hr Hk Hc ck Hroom. destruct (f_nodes f !! ns) as [n|] eqn:En.
  - destruct (has_flags HDBNSNODE_FLAG n) eqn:Ef; [destruct (f_nodes f !! ck) as [n'|] eqn:Eck|].
    + eapply throws_mono; [by eapply createClass_duplicate|]. naive_solver.
    + split; [eapply wp_mono; [by eapply createClass_new|]; naive_solver|].
      wstep. eapply wp_mono; [by eapply createClass_new|]. intros _ r1 [Hr1 _].
      set (f1 := f_attach ns _ _ _ f) in *. pose proof (f_attach_nodes ns ck (name_data ck) class_flags f ck) as Hn1.
      rewrite decide_True in Hn1 by done. fold ck in f1. fold f1 in Hn1.
      wstep. eapply wp_mono; [by eapply (classHasInstances_spec r1 f1 ns c)|]. intros b r2 (-> & Hr2 & _). simpl.
      pose proof (deleteClass_spec r2 f1 ns c Hr2 Hk Hc) as Hd. cbv zeta in Hd. fold ck in Hd. rewrite Hn1 in Hd.
      wstep. eapply wp_mono; [apply Hd|]. intros _ r3 ((f' & Hp & Hr3) & _). wstep. split; [done|].
      rewrite <- (prune_attach ns f f' ck (name_data ck) class_flags); [done| |by apply makeClassKey_ok|done..].
      by eapply Db_forest_ok, ro_db.
    + eapply throws_mono; [by eapply createClass_not_namespace|]. naive_solver.
  - eapply throws_mono; [by eapply createClass_no_namespace|]. naive_solver.
Qed.
End Classes.

Section Objects.
Context {F : Type} {fo : FileOps F} {fl : FileLaws F}.
Context {I : Type} {io : IndexOps I} {il : IndexLaws I}.
Context {O : Type} {cb : CIMBase O} {cl : CIMBaseLaws O}.

(** A well-formed object written with [addCIMObject] under a new key, or with
   [updateCIMObject] over the one that is there, is read back by
   [getCIMObject]; the objects under all other keys stay what they were. *)
Theorem stored_object_roundtrip (s : St F I) f pk pn k (x : O) d flg :
  Db s f -> key_ok pk -> key_ok k -> f_nodes f !! pk = Some pn -> is_u32 flg ->
  storable x -> writeObject x = Ok d -> room s k d ->
  wp (node ← getNode k;
      match node with
      | None => p ← getNode pk; addCIMObject x k p flg
      | Some n => updateCIMObject x (Some n) None
      end ;; getCIMObject k)
    (fun o s' => o = Some x /\ exists f', Db s' f' /\ stores f' k x /\
      (forall k' (y : O), k' <> k -> stores f' k' y <-> stores f k' y)) s.
Proof using fl il cl.
  intros Hd Hpk Hk Hp Hfl Hx Hw Hr. destruct (read_written x Hx) as (d' & Hw' & Hrd). rewrite Hw in Hw'. injection Hw' as <-.
  assert (forall s' f', Db s' f' -> stores f' k x -> (forall k' (y : O), k' <> k -> stores f' k' y <-> stores f k' y) ->
    wp (getCIMObject k) (fun o s' => o = Some x /\ exists f', Db s' f' /\ stores f' k x /\
      (forall k' (y : O), k' <> k -> stores f' k' y <-> stores f k' y)) s') as Hget.
  { intros s' f' Hd' Hst Hs. eapply wp_mono; [by apply (getCIMObject_spec s' f' k x)|]. naive_solver. }
  apply Db_DbV in Hd as (v & A & Hd). wstep. eapply hold_getNode; [done..|]. intros s1 [nd|] Hd1 Hg; simpl in Hg.
  - destruct (held_shows _ _ _ _ _ _ Hd1 Hg) as (n & Hn & _). wstep.
    eapply wp_mono; [eapply updateCIMObject_spec; [done..|]; by eapply (room_view s s1)|]. intros [] s2 Hd2.
    eapply Hget; [done|by eapply stores_set|]. intros k' y. apply stores_set_ne.
  - wstep. wstep. eapply hold_getNode; [done..|]. intros s2 [p|] Hd2 Hg2; simpl in Hg2; [|congruence].
    eapply wp_mono; [eapply addCIMObject_spec; [done..|]; by eapply (room_view s s2)|]. intros [] s3 Hd3.
    eapply Hget; [done|by apply stores_attach|]. intros k' y. apply stores_attach_ne.
Qed.
End Objects.


Section Quals.
Context {F : Type} {fo : FileOps F} {fl : FileLaws F}.
Context {I : Type} {io : IndexOps I} {il : IndexLaws I}.
Context {so : StringOps} {sl : StringLaws}.
Context {Q : Type} {cb : CIMBase Q} {cl : CIMBaseLaws Q} {qc : QualifierType Q}.
Context {C : Type}.
Implicit Types (f : Forest) (m : MetaRepository F I Q C) (c : CIMRepository F I Q C).

(** [getQualifierType] answers from the database, whatever the cache
   holds: the stored qualifier type, or the exception that tells a missing
   qualifier type from a missing namespace. *)
Lemma getQualifierType_transparent m f ns q :
  MetaOk m f -> text ns -> text q ->
  (forall x : Q, stores f (_makeQualPath ns q) x -> wp (getQualifierType true ns q) (fun y m' => y = x /\ MetaOk m' f) m) /\
  (f_nodes f !! _makeQualPath ns q = None ->
     throws (getQualifierType true ns q)
       (match f_nodes f !! qual_container ns with
        | Some n => if has_flags HDBNSNODE_FLAG n then "CIMException::NOT_FOUND" else "CIMException::INVALID_NAMESPACE"
        | None => "CIMException::INVALID_NAMESPACE"
        end) (fun m' => MetaOk m' f) m).
Proof using fl il sl cl.
  intros Hm Hn Hq. split.
  - intros x Hx. by apply getQualifierType_found.
  - intros Hx. by apply getQualifierType_absent.
Qed.


(** The enumerations end: [enumQualifierTypes] hands the result handler
   the qualifier types of the namespace in the order of the nodes and leaves
   out the namespaces among them, [enumNameSpace] the names of all roots. *)
Theorem enumerations_complete c fn fi fm ns n xs :
  CimOk c fn fi fm -> text ns ->
  f_nodes fm !! qual_container ns = Some n -> has_flags HDBNSNODE_FLAG n = true ->
  Forall2 (stores fm) (filter (fun k => plain fm k = true) (fn_children n)) xs ->
  wp (a ← enumNameSpace true; b ← on_mStore (enumQualifierTypes true ns); mret (a, b))
    (fun r c' => r = (f_roots fn, xs) /\ CimOk c' fn fi fm) c.
Proof using fl il sl cl.
  intros Hc Hns Hn Hf Hxs. wstep. eapply wp_mono; [by eapply enumNameSpace_roots|]. intros a c1 [-> [Hn1 Hi1 Hm1]].
  wstep. apply wp_on_mStore. eapply wp_mono; [by eapply enumQualifierTypes_found|]. intros b m' [-> Hm']. by wstep.
Qed.

End Quals.

(** ** Concrete repositories *)

Module ExRepo.
Import Ref RefBlocxx.
Abbreviation File := MemFile.t.
Abbreviation Idx := (IndexImpl.t MemBTree.t).

#[export] Instance ascii_lower : StringOps :=
  {| toLowerCase := map (fun c => if (65 <=? c) && (c <=? 90) then c + 32 else c) |}.
#[export] Instance ascii_lower_laws : StringLaws.
Proof.
  constructor; simpl; intros s.
  - apply length_map.
  - intros Hs. apply Forall_forall. intros c Hc. apply list_elem_of_In, in_map_iff in Hc as (x & <- & Hx).
    rewrite Forall_forall in Hs. specialize (Hs x ltac:(by apply list_elem_of_In)).
    destruct ((65 <=? x) && (x <=? 90)) eqn:E; [|done]. apply andb_true_iff in E as [E _]. zbool. lia.
Qed.

(** Qualifier types as the CIM object model has them, over a concrete library of
   streams. *)
Abbreviation QT := (QUALTData CIMValueImpl).
#[export] Instance qt_base : CIMBase QT := QualifierType_base true.
#[export] Instance qt_laws : CIMBaseLaws QT := QualifierType_laws true.
#[export] Instance qt_type : QualifierType QT := {| qt_name := cqt_name |}.

(** A qualifier type of 8-bit numbers with a default value. *)
Definition mkQT (name : bytes) (v : Z) : QT :=
  mkQualT name (Some (mkDT CIMDataType.UINT8 1 CIMDataType.SIZE_SINGLE [])) [5; 6] [2; 4]
    (Some (mkValue CIMDataType.UINT8 false (V_int v))).
Abbreviation q_name := cqt_name.
Definition data_of (q : QT) : bytes := match writeObject q with Ok d => d | _ => [] end.

Lemma mkQT_storable name v : string_ok name -> 0 <= v < 256 -> storable (mkQT name v).
Proof.
  intros Hn Hv. split.
  - split; [exact Hn|]. split; [|split; (split; [|done])].
    + split; [by split|]. split; [by split|]. split; [by split|]. split; [constructor|done].
    + repeat constructor; lia.
    + repeat constructor; lia.
  - constructor; [|constructor]. apply value_ok_eq. split; [|constructor]. exists 1%nat, false. by split.
Qed.

(** A new repository, with the namespace root. *)
Definition r0 : Repo File Idx :=
  match repo_open (createNameSpace true) true true (Some MemFile.empty) (IndexImpl.mk true MemBTree.empty)
          (mkOpen initialHeader None) with
  | (_, Some r) => r
  | _ => mkRepo Ex.empty false []
  end.
Definition f0 : Forest := add_ns root_name f_empty.

Lemma r0_ok : RepoOk r0 f0.
Proof.
  destruct (repo_open_new MemFile.empty (IndexImpl.mk true MemBTree.empty) initialHeader) as (r & E & Hr);
    [reflexivity|reflexivity|]. unfold r0. rewrite E. exact Hr.
Qed.

(** The namespace "a", in it the class "B". *)
Definition na : bytes := [97].
Definition cB : bytes := [66].
Definition r1 : Repo File Idx := (createNameSpace true na r0).2.
Definition f1 : Forest := add_ns na f0.

Lemma after_ok {X} (p : Prog (Repo File Idx) X) (P : X -> Prop) f r :
  wp p (fun a r' => P a /\ RepoOk r' f) r -> RepoOk (p r).2 f.
Proof. intros H. by destruct (wp_after _ _ _ H) as (a & _ & _ & ?). Qed.

Lemma na_ok : key_ok na.
Proof. by apply Ex.key_of_list. Qed.

Lemma r1_ok : RepoOk r1 f1.
Proof.
  eapply (after_ok _ (fun c => c = 0)), createNameSpace_add; [apply r0_ok|apply na_ok|by vm_compute|by vm_compute|].
  intros r' Hr'. split; [done|exact Hr'].
Qed.

(** A meta repository with the containers of "a" and the qualifier type "Key". *)
Definition key_qt : QT := mkQT [75; 101; 121] 7.

Lemma small_name l : forallb (fun c => (0 <=? c) && (c <? 256)) l = true -> zlen l < 100 -> string_ok l.
Proof.
  intros H Hz. split; [|lia]. apply Forall_forall. intros c Hc. rewrite forallb_forall in H.
  apply list_elem_of_In, H in Hc. unfold is_byte. zbool. lia.
Qed.

Lemma key_storable : storable key_qt.
Proof. apply mkQT_storable; [by apply small_name|lia]. Qed.

Lemma key_stored f pk : stores (f_attach pk (_makeQualPath [97] [75; 101; 121]) (data_of key_qt) 0 f) (_makeQualPath [97] [75; 101; 121]) key_qt.
Proof.
  destruct (read_written key_qt key_storable) as (d & Hw & Hr). unfold data_of. rewrite Hw. by apply stores_attach.
Qed.

(** What a storable qualifier type is written as, and read from. *)
Lemma qt_written q : storable q -> writeObject q = Ok (data_of q) /\ readObject (data_of q) = Ok q.
Proof. intros H. unfold data_of. destruct (read_written q H) as (d & Hw & Hr). by rewrite Hw. Qed.

Definition rq : Repo File Idx := (createNameSpace true (qual_container na) r0).2.
Definition fq : Forest := add_ns (qual_container na) f0.
Definition m0 : MetaRepository File Idx QT () := mkMeta rq newCache newCache.
Definition kq : bytes := _makeQualPath na (q_name key_qt).
Definition m1 : MetaRepository File Idx QT () := (setQualifierType true na key_qt m0).2.
Definition fq1 : Forest := f_attach (qual_parent na) kq (data_of key_qt) 0 fq.

Lemma qual_na_ok : key_ok (qual_container na).
Proof. apply qual_container_ok. apply na_ok. Qed.

Lemma rq_ok : RepoOk rq fq.
Proof.
  eapply (after_ok _ (fun c => c = 0)), createNameSpace_add; [apply r0_ok|apply qual_na_ok|by vm_compute|by vm_compute|].
  intros r' Hr'. split; [done|exact Hr'].
Qed.

Lemma m0_ok : MetaOk m0 fq.
Proof. constructor; [apply rq_ok|]. exists []. split; [apply empty_ok|done]. Qed.

Lemma name_text : text (qt_name key_qt).
Proof. by apply Ex.key_of_list. Qed.

Lemma m1_ok : MetaOk m1 fq1.
Proof.
  destruct (wp_after _ _ _ (setQualifierType_new m0 fq na key_qt
    (mkFNode (name_data (qual_container na)) HDBNSNODE_FLAG [] []) (data_of key_qt) m0_ok (proj2 na_ok) name_text
    ltac:(by vm_compute) ltac:(by vm_compute) ltac:(by vm_compute) (proj1 (qt_written _ key_storable))
    (proj2 (qt_written _ key_storable)) ltac:(by vm_compute))) as (a & _ & H).
  exact H.
Qed.

(** A CIM repository over them. *)
Definition c1 : CIMRepository File Idx QT () := mkCIMRepo r1 r0 m1.

Lemma c1_ok : CimOk c1 f1 f0 fq1.
Proof. constructor; [apply r1_ok|apply r0_ok|apply m1_ok]. Qed.
End ExRepo.

(** ** Witnesses *)

Module RepoWitness.
Import Ref RefBlocxx ExRepo.

Lemma forest_witness :
  let s := (db_call (AddRoot Ex.kAB [1]) Ex.empty).2 in exists f, Db s f /\ Forest_ok f /\
    forall c, call_ok c s -> settles (db_call c) (db_effect c f) f s.
Proof.
  apply (reachable_forest (db_call (AddRoot Ex.kAB [1]) Ex.empty).2). apply reach_call.
  - apply (reach_new MemFile.empty Ex.file (IndexImpl.mk true MemBTree.empty) initialHeader);
      [reflexivity|reflexivity|vm_compute; reflexivity].
  - split; [by apply Ex.key_of_list|by vm_compute].
Defined.

Lemma namespaces_witness :
  wp (createNameSpace true na) (fun c r' => c = 0 /\ RepoOk r' f1) r0 /\
  wp (deleteNameSpace true na) (fun _ r' => exists f', f_prune f1 f' na /\ RepoOk r' f') r1.
Proof.
  split.
  - pose proof (namespaces_correct r0 f0 na r0_ok na_ok) as [H _]. specialize (H ltac:(by vm_compute)).
    replace (f_nodes f0 !! na) with (@None FNode) in H by (by vm_compute). exact H.
  - pose proof (namespaces_correct r1 f1 na r1_ok na_ok) as [_ H].
    replace (bool_decide (na = root_name)) with false in H by (by vm_compute).
    replace (f_nodes f1 !! na) with (Some (mkFNode (name_data na) HDBNSNODE_FLAG [] [])) in H by (by vm_compute).
    exact H.
Defined.

(** A body that throws. *)
Lemma scope_witness :
  exists (r1' r' : Repo File Idx), with_handle true (throw (A := ()) "x") r0 = ((throw (A := ()) "x" r1').1, r') /\
    Forall idle (m_handles r') /\ zlen (m_handles r') <= MAXHANDLES.
Proof.
  apply (handle_scope r0 f0 (throw "x")); [apply r0_ok| |].
  - apply (bool_decide_unpack _). by vm_compute.
  - intros r Hr. exists f0. split; [exact Hr|apply pool_step_refl].
Defined.

Lemma createClass_witness :
  wp (inst_createClass true na cB) (fun _ r' =>
    RepoOk r' (f_attach na (makeClassKey na cB) (name_data (makeClassKey na cB)) class_flags f1)) r1 /\
  wp (inst_createClass true na cB ;; b ← classHasInstances true na cB; inst_deleteClass true na cB ;; mret b)
    (fun b r' => b = false /\ RepoOk r' f1) r1.
Proof.
  pose proof (createClass_correct r1 f1 na cB r1_ok na_ok ltac:(by apply Ex.key_of_list) ltac:(by vm_compute)) as H.
  replace (f_nodes f1 !! na) with (Some (mkFNode (name_data na) HDBNSNODE_FLAG [] [])) in H by (by vm_compute).
  replace (f_nodes f1 !! makeClassKey na cB) with (@None FNode) in H by (by vm_compute). exact H.
Defined.

Lemma small_storable : storable (mkQT [1] 2).
Proof. apply mkQT_storable; [by apply small_name|lia]. Qed.

Lemma object_witness :
  wp (node ← getNode kq;
      match node with
      | None => p ← getNode (qual_container na); addCIMObject (mkQT [1] 2) kq p 0
      | Some n => updateCIMObject (mkQT [1] 2) (Some n) None
      end ;; getCIMObject kq)
    (fun o s' => o = Some (mkQT [1] 2) /\ exists f', Db s' f' /\ stores f' kq (mkQT [1] 2) /\
      (forall k' y, k' <> kq -> stores f' k' y <-> stores fq1 k' y)) (r_st (mr_repo m1)).
Proof.
  eapply (stored_object_roundtrip (r_st (mr_repo m1)) fq1 (qual_container na)
    (mkFNode (name_data (qual_container na)) HDBNSNODE_FLAG [] [kq]) kq (mkQT [1] 2) (data_of (mkQT [1] 2)) 0);
    [apply m1_ok|apply qual_na_ok|by apply Ex.key_of_list|by vm_compute|by unfold is_u32|
     apply small_storable|apply qt_written, small_storable|by vm_compute].
Defined.

Definition calls : list CacheOp :=
  [CMax 2; CAdd [1] 10; CGet [1]; CGet [2]; CAdd [2] 20; CMax 3; CAdd [3] 30; CGet [2]; CAdd [4] 40; CGet [2]; CGet [1];
   CRemove [2]; CGet [2]; CAdd [2] 21; CGet [2]; CClear; CGet [2]].


Lemma new_storable : storable (mkQT (q_name key_qt) 8).
Proof. apply mkQT_storable; [by apply small_name|lia]. Qed.


Lemma enumerations_witness :
  wp (a ← enumNameSpace true; b ← on_mStore (enumQualifierTypes true na); mret (a, b))
    (fun r c' => r = ([root_name; na], [key_qt]) /\ CimOk c' f1 f0 fq1) c1.
Proof.
  apply (enumerations_complete c1 f1 f0 fq1 na (mkFNode (name_data (qual_container na)) HDBNSNODE_FLAG [] [kq]) [key_qt]);
    [apply c1_ok|apply na_ok|by vm_compute|by vm_compute|].
  replace (filter _ _) with [kq] by (by vm_compute). constructor; [apply key_stored|constructor].
Defined.

Definition nb : bytes := [98].

Lemma nb_ok : ns_ok nb /\ ns_ok na.
Proof. split; (split; [by apply Ex.key_of_list|by split; vm_compute]). Qed.

End RepoWitness.

(** ** Where the code does not do what it means to *)

Module Stale.
Import Ref RefBlocxx ExRepo.

(** [MetaRepository::deleteNameSpace] clears the cache of classes and not
   the one of qualifier types: a qualifier type that was cached is still found
   after its namespace has been deleted, although neither the node nor its
   container exists, and the answer contradicts the database. *)
Theorem qualifier_outlives_namespace :
  let m := mkMeta (createNameSpace true (class_container na) (mr_repo m1)).2 (m_classCache m1) (m_qualCache m1) in
  let res := (meta_deleteNameSpace true na ;;
              a ← getQualifierType true na (q_name key_qt);
              b ← on_repo (nameSpaceExists true (qual_container na));
              o ← on_repo (with_handle true (on_st (getCIMObject (O := QT) kq)));
              mret (q_name a, b, match o with Some _ => true | None => false end)) m in
  res.1 = Ok (q_name key_qt, false, false).
Proof. vm_compute. reflexivity. Qed.
End Stale.
