(* ===== verification/InstMain.v ===== *)
(** * The theorems on stored instances

   Creating, reading, changing, listing and deleting instances in the instance
   repository, with witnesses on a concrete repository. *)

From S2P Require Import Prelude FileIO HdbCommon Index Hdb HdbHeap HdbNode HdbInv HdbAdd HdbUpdate HdbSpec HdbContract HdbHold HdbForest.
From S2P Require Import Repo RepoFacts RepoOps Cache Meta MetaOps MetaEnum HdbMain.
From S2P Require Import Blocxx CimSerial CimData CimDateTime CimIO CimTotal CimObjects CimOps CimSync CimStore CimRef CimMain InstRepo RepoMain.
Import CIMDataType.

Section Instances.
Context {F : Type} {fo : FileOps F} {fl : FileLaws F} {I : Type} {io : IndexOps I} {il : IndexLaws I}.
Context {so : StringOps} {sl : StringLaws} {bx : Blocxx} {ss : StringSearch} {sc : StringConv} {bl : BlocxxLaws} {nl : NameLaws}.
Context (asserts : bool) (cast : CIMValueImpl -> DTData -> outcome CIMValue).
Context (value_toString : CIMValueImpl -> outcome bytes) (asKeyString : CIMValue -> outcome bytes).
Context (prop_lt : PROPData CIMValueImpl -> PROPData CIMValueImpl -> bool) {po : PropOrder prop_lt}.
Context (equal : CIMValueImpl -> CIMValueImpl -> outcome bool).
Implicit Types (f : Forest) (r : Repo F I) (ci : INSTData CIMValueImpl) (c : CLSData CIMValueImpl).
#[local] Existing Instance Instance_base.
Abbreviation holds f k ci := (stores (cb := Instance_base asserts) f k ci).
Abbreviation instanceKey := (makeInstanceKey asserts cast value_toString asKeyString prop_lt).
Abbreviation createInst := (createInstance asserts true cast value_toString asKeyString prop_lt equal).
Abbreviation getInst := (getCIMInstance asserts true cast value_toString asKeyString prop_lt).
Abbreviation deleteInst := (deleteInstance asserts true cast value_toString asKeyString prop_lt).
Abbreviation modifyInst := (modifyInstance asserts true cast value_toString asKeyString prop_lt equal).
Abbreviation names_of := (getInstanceNames asserts true cast).

(** The instance may be stored in the repository: its class has a node, its path
   a key, and what is left of it without the qualifiers of the class can be
   written. *)
Record creatable r f ns c ci (icop : OPData CIMValueImpl) (k : bytes) ci1 : Prop := {
  cr_ns : key_ok ns;
  cr_class : text (ci_owningClassName ci);
  cr_node : class_node f ns ci;
  cr_path : instance_path ns ci = Ok icop;
  cr_key : instanceKey ns (Some icop) c = Ok k;
  cr_key_ok : key_ok k;
  cr_sound : class_sound c;
  cr_distinct : distinct (ci_properties ci);
  cr_takes : forall p, Some p ∈ ci_properties ci -> takes asserts cast (cc_properties c) p;
  cr_strip : _removeDuplicatedQualifiers equal ci c = Ok ci1;
  cr_fits : inst_ok ci1 /\ Forall value_ok (inst_values ci1);
  cr_room : forall d, writeObject (CIMBase := Instance_base asserts) ci1 = Ok d -> room (r_st r) k d;
}.

Lemma creatable_written r f ns c ci icop k ci1 : creatable r f ns c ci icop k ci1 ->
  exists d, writeObject (CIMBase := Instance_base asserts) ci1 = Ok d /\ readObject (CIMBase := Instance_base asserts) d = Ok ci1 /\ room (r_st r) k d.
Proof using bl.
  intros H. destruct (@read_written _ (Instance_base asserts) (Instance_laws asserts) ci1 (cr_fits _ _ _ _ _ _ _ _ H)) as (d & Hw & Hr).
  exists d. split_and!; [done..|]. by apply H.
Qed.

Lemma restored_setNameSpace c ci i ns : restored asserts cast c ci i -> restored asserts cast c ci (setNameSpace i ns).
Proof using. intros []. by constructor. Qed.

Lemma class_node_attach f ns ci k d : class_node f ns ci -> class_node (f_attach (makeClassKey ns (ci_owningClassName ci)) k d 0 f) ns ci \/
  k = makeClassKey ns (ci_owningClassName ci).
Proof using.
  intros (n & Hn & Hf). destruct (decide (makeClassKey ns (ci_owningClassName ci) = k)) as [->|Hne]; [by right|]. left.
  unfold class_node. rewrite f_attach_nodes, decide_False by done. case_decide; rewrite Hn; eauto.
Qed.

Lemma instance_path_keys ns ci : keys_ok ci -> exists d, instance_path ns ci = Ok d.
Proof using.
  intros Hk. assert (exists ks, path_keys (ci_keys ci) = Ok ks) as [ks E]; [|unfold instance_path; rewrite E; by eexists].
  unfold keys_ok in Hk. revert Hk. generalize (ci_keys ci) as ks. induction (ci_properties ci) as [|[p|] l IH]; intros ks Hk; [injection Hk as <-; by eexists| |done].
  cbn in Hk. destruct (isKey p) as [b| | |]; try done. cbn in Hk. destruct (key_props l) as [r| | |]; try done. injection Hk as <-.
  destruct (IH r eq_refl) as [ks' E]. destruct b; [|by exists ks']. cbn. rewrite E. by eexists.
Qed.
(** The path that [getInstanceNames] gives of a stored instance. *)
Definition path_of ns c ci : outcome CIMObjectPath :=
  ci ← syncWithClass asserts cast ci (Some c) true; d ← instance_path ns ci; Ok (Some d).

Lemma shows_attach {B} (visit : INSTData CIMValueImpl -> outcome B) pk k d f l xs :
  k ∉ l -> Forall2 (shows asserts visit f) l xs -> Forall2 (shows asserts visit (f_attach pk k d 0 f)) l xs.
Proof using.
  intros Hk H. induction H as [|k' x l xs (ci & Hs & Hv) _ IH]; [constructor|]. apply not_elem_of_cons in Hk as [Hk Hl].
  constructor; [|by apply IH]. exists ci. split; [|done]. by apply stores_attach_ne.
Qed.

(** The state after an instance was created. *)
Section Created.
Context r f ns c ci icop k ci1 (Hr : RepoOk r f) (H : creatable r f ns c ci icop k ci1) (Hk : f_nodes f !! k = None).
Abbreviation ck := (makeClassKey ns (ci_owningClassName ci)).
Context (d : bytes) (Hd : readObject (CIMBase := Instance_base asserts) d = Ok ci1).
Abbreviation f1 := (f_attach ck k d 0 f).

Lemma created_class : ck <> k /\ class_node f1 ns ci.
Proof using H Hk.
  destruct (cr_node _ _ _ _ _ _ _ _ H) as (n & Hn & Hf). assert (ck <> k) as Hne by congruence. split; [done|].
  destruct (class_node_attach f ns ci k d); [by exists n|done|congruence].
Qed.

Lemma created_restored : exists i, syncWithClass asserts cast ci1 (Some c) true = Ok i /\ restored asserts cast c ci i.
Proof using nl H. destruct H. by eapply stored_restored. Qed.

Lemma created_get r1 path : RepoOk r1 f1 -> instanceKey ns path c = Ok k ->
  wp (getInst ns path c false true true None) (fun i r2 => ci_namespace i = ns /\ restored asserts cast c ci i /\ RepoOk r2 f1) r1.
Proof using fl il nl H Hd.
  intros Hr1 Ek. destruct created_restored as (i & Es & Hi).
  eapply wp_mono; [apply (getCIMInstance_found asserts cast value_toString asKeyString prop_lt r1 f1 ns path c k ci1 false true true None (setNameSpace i ns));
    [done|done|apply H|by apply stores_attach|unfold presented; by rewrite Es]|].
  intros x r2 [-> Hr2]. split_and!; [done|by apply restored_setNameSpace|done].
Qed.

Lemma created_names r1 n xs : RepoOk r1 f1 -> cc_name c = ci_owningClassName ci -> f_nodes f !! ck = Some n -> has_flags HDBCLSNODE_FLAG n = true ->
  Forall2 (shows asserts (path_of ns c) f) (fn_children n) xs ->
  wp (names_of ns c) (fun l r2 => (exists i p, restored asserts cast c ci i /\ instance_path ns i = Ok p /\ l = xs ++ [Some p]) /\ RepoOk r2 f1) r1.
Proof using fl il sl nl Hr H Hk Hd.
  intros Hr1 Ec Hn Hf Hxs. destruct created_restored as (i & Es & Hi). destruct (instance_path_keys ns i) as [p Ep]; [apply Hi|].
  destruct created_class as [Hne _]. assert (k ∉ fn_children n) as Hout.
  { intros Hin. assert (Forest_ok f) as Hfo by (by eapply Db_forest_ok, Hr).
    apply (fo_children f Hfo _ _ Hn) in Hin as (? & ? & _). congruence. }
  unfold getInstanceNames. fold (path_of ns c).
  eapply wp_mono; [apply (class_instances_found asserts (path_of ns c) r1 f1 ns (cc_name c) (fn_add k n) (xs ++ [Some p]) Hr1)|].
  - apply H.
  - rewrite Ec. apply H.
  - rewrite Ec, f_attach_nodes, decide_False by done. rewrite decide_True, Hn; [done|]. split; [done|].
    by destruct (makeClassKey_ok ns _ (cr_ns _ _ _ _ _ _ _ _ H) (cr_class _ _ _ _ _ _ _ _ H)).
  - done.
  - cbn [fn_add fn_children]. apply Forall2_app; [by apply shows_attach|]. constructor; [|constructor].
    exists ci1. split; [by apply stores_attach|]. unfold path_of. rewrite Es. cbn. by rewrite Ep.
  - intros l r2 [-> Hr2]. split; [|done]. by exists i, p.
Qed.
End Created.

(** C20: [createInstance] refuses an instance whose key is taken.  Otherwise the
   path names no instance before, and after it [getCIMInstance] finds the instance
   under its path, whatever the order of the keys in it, as the class has it, with
   the values of the instance; [getInstanceNames] lists one path more, behind the
   others; a second [createInstance] is refused; and [deleteInstance] gives back
   the repository as it was.  Other nodes stay as they are. *)
Theorem instances_created r f ns c ci icop k ci1 :
  RepoOk r f -> creatable r f ns c ci icop k ci1 ->
  match f_nodes f !! k with
  | Some _ => throws (createInst ns c ci) "CIMException::ALREADY_EXISTS" (fun r1 => RepoOk r1 f) r
  | None =>
      throws (getInst ns (Some icop) c false true true None) "CIMException::NOT_FOUND" (fun r1 => RepoOk r1 f) r /\
      throws (deleteInst ns (Some icop) c) "CIMException::NOT_FOUND" (fun r1 => RepoOk r1 f) r /\
      wp (createInst ns c ci) (fun _ r1 => exists f1, RepoOk r1 f1 /\
        (forall k' x, k' <> k -> holds f1 k' x <-> holds f k' x) /\
        (forall l, op_keys icop ≡ₚ l -> (l = op_keys icop \/ distinct (op_keys icop)) ->
           wp (getInst ns (Some (mkOP (op_nameSpace icop) (op_objectName icop) l)) c false true true None)
             (fun i r2 => ci_namespace i = ns /\ restored asserts cast c ci i /\ RepoOk r2 f1) r1) /\
        (forall n xs, cc_name c = ci_owningClassName ci -> f_nodes f !! makeClassKey ns (ci_owningClassName ci) = Some n ->
           has_flags HDBCLSNODE_FLAG n = true -> Forall2 (shows asserts (path_of ns c) f) (fn_children n) xs ->
           wp (names_of ns c) (fun l r2 => (exists i p, restored asserts cast c ci i /\ instance_path ns i = Ok p /\
             l = xs ++ [Some p]) /\ RepoOk r2 f1) r1) /\
        throws (createInst ns c ci) "CIMException::ALREADY_EXISTS" (fun r2 => RepoOk r2 f1) r1 /\
        wp (deleteInst ns (Some icop) c) (fun _ r2 => RepoOk r2 f) r1) r
  end.
Proof using fl il sl bl nl po.
  intros Hr H. destruct (f_nodes f !! k) as [n|] eqn:Hk; [eapply createInstance_duplicate; try apply H; done|].
  destruct (creatable_written _ _ _ _ _ _ _ _ H) as (d & Hw & Hd & Hroom). split_and!.
  - eapply getCIMInstance_absent; try apply H; done.
  - eapply deleteInstance_absent; try apply H; done.
  - eapply wp_mono; [by apply (createInstance_new asserts cast value_toString asKeyString prop_lt equal r f ns c ci icop k ci1 d); try apply H|].
    intros u r1 Hr1. cbn beta in Hr1. exists (f_attach (makeClassKey ns (ci_owningClassName ci)) k d 0 f). split; [exact Hr1|].
    destruct (created_class _ _ _ _ _ _ _ _ H Hk d) as [Hne Hcn]. split_and!.
    + intros k' x Hk'. by apply stores_attach_ne.
    + intros l Hl Hdis. eapply created_get; [done..|]. destruct Hdis as [->|Hdis].
      * assert (mkOP (op_nameSpace icop) (op_objectName icop) (op_keys icop) = icop) as -> by (by destruct (icop)). apply H.
      * eapply makeInstanceKey_order; [done..|apply H].
    + intros m xs. by eapply created_names.
    + eapply createInstance_duplicate; try apply H; [done..|]. by rewrite f_attach_nodes, decide_True.
    + eapply wp_mono; [eapply deleteInstance_existing; [exact Hr1|apply H|apply H|by apply stores_attach]|].
      intros _ r2 (f2 & Hp & Hr2). apply prune_attach in Hp; [by subst| |apply H|done]. by eapply Db_forest_ok, Hr.
Qed.
(** C21: [modifyInstance] makes an instance in line with its class from the
   properties that are asked for and the others of the old instance.  An instance
   whose keys are not those of the old one is refused without a change, a path
   that names no instance as well; otherwise the instance under the path is the
   new one, with equal values of the same types in its keys, as [getCIMInstance]
   shows it, and other nodes stay as they are. *)
Theorem instances_modified r f ns path c ci_ old iq pl k cim :
  RepoOk r f -> instanceKey ns path c = Ok k -> key_ok k -> class_sound c ->
  createModifiedInstance ci_ old iq pl c = Ok cim -> distinct (ci_properties cim) ->
  (forall p, Some p ∈ ci_properties cim -> takes asserts cast (cc_properties c) p) ->
  (forall names name, pl = Some names -> Forall (fun n => equalsIgnoreCase n name = false) names ->
     getProperty cim name = getProperty old name) /\
  (forall names name n p, pl = Some names -> n ∈ names -> equalsIgnoreCase n name = true -> getProperty ci_ name = Ok (Some p) ->
     exists p', getProperty cim name = Ok (Some p') /\ p_cimValue p' = p_cimValue p) /\
  exists ci2, syncWithClass asserts cast cim (Some c) true = Ok ci2 /\ synced asserts cast c cim ci2 /\
    (forall e, same_keys equal ci2 (ci_keys old) = Throw e -> throws (modifyInst ns path c ci_ old iq pl) e (fun r1 => RepoOk r1 f) r) /\
    (forall ci1 d, same_keys equal ci2 (ci_keys old) = Ok () -> _removeDuplicatedQualifiers equal ci2 c = Ok ci1 ->
       inst_ok ci1 /\ Forall value_ok (inst_values ci1) -> writeObject (CIMBase := Instance_base asserts) ci1 = Ok d -> room (r_st r) k d ->
       Forall (kept_key equal ci1) (ci_keys old) /\
       match f_nodes f !! k with
       | None => throws (modifyInst ns path c ci_ old iq pl) "CIMException::NOT_FOUND" (fun r1 => RepoOk r1 f) r
       | Some _ => wp (modifyInst ns path c ci_ old iq pl) (fun _ r1 => exists f1, RepoOk r1 f1 /\
           holds f1 k ci1 /\ (forall k' x, k' <> k -> holds f1 k' x <-> holds f k' x) /\
           forall lo iq ic pl i, presented asserts cast ns c lo iq ic pl ci1 = Ok i ->
             wp (getInst ns path c lo iq ic pl) (fun x r2 => x = i /\ RepoOk r2 f1) r1) r
       end).
Proof using fl il bl nl.
  intros Hr Ek Hk Hc Em Hdis Ht. split_and!.
  - intros names name ->. by apply (createModifiedInstance_spec _ _ _ _ _ _ Em).
  - intros names name n p ->. by apply (createModifiedInstance_spec _ _ _ _ _ _ Em).
  - destruct (syncWithClass_spec asserts cast cim c Hc Hdis Ht) as (ci2 & Es & Hs). exists ci2. split; [done|]. split; [done|]. split.
    { intros e He. apply (modifyInstance_keys_refused asserts cast value_toString asKeyString prop_lt equal r f ns path c ci_ old iq pl ci2 e); [done| |done]. by rewrite Em. }
    intros ci1 d Hsame Hstrip Hst Hw Hroom.
    assert (modified asserts cast equal c ci_ old iq pl = Ok ci1) as Hm by (unfold modified; rewrite Em; cbn [mbind outcome_bind]; rewrite Es; cbn [mbind outcome_bind]; by rewrite Hsame).
    split. { eapply Forall_impl; [by apply same_keys_kept|]. intros o. apply kept_key_stripped. by eapply removeDuplicated_shape. }
    destruct (f_nodes f !! k) as [n|] eqn:Hn; [|by eapply modifyInstance_absent].
    eapply wp_mono; [by apply (modifyInstance_existing asserts cast value_toString asKeyString prop_lt equal r f ns path c ci_ old iq pl k ci1 d n)|].
    intros u r1 Hr1. cbn beta in Hr1. exists (f_set k d (fn_flags n) f). split; [done|].
    destruct (@read_written _ (Instance_base asserts) (Instance_laws asserts) ci1 Hst) as (d' & Hw' & Hrd). rewrite Hw in Hw'. injection Hw' as <-.
    assert (holds (f_set k d (fn_flags n) f) k ci1) as Hh by (by eapply stores_set). split_and!; [done|intros k' x Hne; by apply stores_set_ne|].
    intros lo iq' ic pl' i Hp. by eapply getCIMInstance_found.
Qed.
End Instances.

(** ** A concrete instance *)

Module InstEx.
Import Ref RefBlocxx ExRepo CimEx.

Definition same_type (v : CIMValueImpl) (_ : DTData) : outcome CIMValue := Ok (Some v).
Definition number_text (v : CIMValueImpl) : outcome bytes :=
  match v with mkValue _ _ (V_int x) => Ok [48 + x] | _ => Throw ValueCastException end.
Definition key_text (v : CIMValue) : outcome bytes := v ← present v; number_text v.
Definition equal_numbers (v w : CIMValueImpl) : outcome bool :=
  match v, w with mkValue t _ (V_int x), mkValue u _ (V_int y) => Ok ((t =? u) && (x =? y)) | _, _ => Ok false end.

Definition folded (s : bytes) : bytes := map (fun c => if (65 <=? c) && (c <=? 90) then c + 32 else c) s.
Definition by_name (x y : PROPData CIMValueImpl) : bool := (encode (folded (p_name x)) <? encode (folded (p_name y)))%positive.

#[export] Instance by_name_order : PropOrder by_name.
Proof.
  unfold by_name. split.
  - intros x y H%Pos.ltb_lt. apply Pos.ltb_ge. lia.
  - intros x y z H%Pos.ltb_lt. rewrite !Pos.ltb_lt. lia.
  - intros x y H. rewrite !Pos.ltb_lt. cbn in H. apply bool_decide_eq_false in H. fold (folded (p_name x)) in H. fold (folded (p_name y)) in H.
    assert (encode (folded (p_name x)) <> encode (folded (p_name y))) by (intros E%(inj _); congruence). lia.
Qed.

(** A class with two keys, and an instance of it. *)
Definition c2 : CLSData CIMValueImpl := mkCls (txt "A") [] [] [Some (prop (txt "Id") 0); Some (prop (txt "No") 0)] [] false true.
Definition keys2 (x y : Z) : list (option (PROPData CIMValueImpl)) := [Some (prop (txt "Id") x); Some (prop (txt "No") y)].
Definition i2 : INSTData CIMValueImpl := mkInst [] (txt "A") (keys2 7 8) (keys2 7 8) [] [].
Definition bare (name : bytes) (x : Z) : PROPData CIMValueImpl := with_quals (prop name x) [].
Definition p2 : OPData CIMValueImpl := mkOP (Some (mkNS na CIMUrl_default)) (txt "A") [Some (bare (txt "Id") 7); Some (bare (txt "No") 8)].
Definition k2 : bytes := txt "a:a:a.no=8,id=7".
Definition s2 : INSTData CIMValueImpl := mkInst [] (txt "A") [] [Some (bare (txt "Id") 7); Some (bare (txt "No") 8)] [] [].

Definition ck2 : bytes := makeClassKey na (txt "A").
Definition r2 : Repo File Idx := (inst_createClass true na (txt "A") r1).2.
Definition f2 : Forest := f_attach na ck2 (name_data ck2) class_flags f1.

Lemma r2_ok : RepoOk r2 f2.
Proof.
  eapply (after_ok _ (fun _ => True)). eapply wp_mono; [eapply (createClass_new r1 f1 na (txt "A")
    (mkFNode (name_data na) HDBNSNODE_FLAG [] [])); [apply r1_ok|apply na_ok|by apply Ex.key_of_list|by vm_compute|by vm_compute|by vm_compute|by vm_compute]|].
  intros x r' [H _]. split; [done|exact H].
Qed.

Lemma path2 : instance_path na i2 = Ok p2.
Proof. reflexivity. Qed.
Lemma key2 : makeInstanceKey true same_type number_text key_text by_name na (Some p2) c2 = Ok k2.
Proof. by vm_compute. Qed.
Lemma strip2 : _removeDuplicatedQualifiers equal_numbers i2 c2 = Ok s2.
Proof. reflexivity. Qed.

Lemma names2 x y : distinct [Some x; Some y] <-> equalsIgnoreCase (p_name x) (p_name y) = false.
Proof.
  split.
  - intros [_ H]. destruct (equalsIgnoreCase (p_name x) (p_name y)) eqn:E; [|done]. by specialize (H 0%nat 1%nat x y eq_refl eq_refl E).
  - intros E. apply distinct_intro; [apply distinct_intro; [apply distinct_nil|set_solver]|].
    intros q [= ->]%list_elem_of_singleton. by rewrite name_sym.
Qed.

Lemma props2 (p : PROPData CIMValueImpl) x y : Some p ∈ keys2 x y -> p = prop (txt "Id") x \/ p = prop (txt "No") y.
Proof. unfold keys2. rewrite !elem_of_cons. intros [[= ->]|[[= ->]|?%not_elem_of_nil]]; [by left|by right|done]. Qed.

Lemma sound2 : class_sound c2.
Proof.
  split.
  - by apply names2.
  - intros p [->| ->]%props2; done.
  - repeat (apply Forall_cons; split); [..|constructor]; eexists _, true; (split; [reflexivity|apply prop_key]).
Qed.

Lemma takes2 p x y : Some p ∈ keys2 x y -> takes true same_type (cc_properties c2) p.
Proof. intros [->| ->]%props2 cp [->| ->]%props2 H; try done; by eexists. Qed.

Lemma bare_ok name x : string_ok name -> prop_ok (bare name x).
Proof. intros Hn. split_and!; [done|by apply text_ok|by apply text_ok|by apply dt_fits|by unfold is_s32|by split]. Qed.

Lemma s2_ok : inst_ok s2 /\ Forall value_ok (inst_values s2).
Proof.
  split; [|cbn; values]. split_and!; try (by apply text_ok); try by split. split; [|done].
  repeat (constructor; [by apply bare_ok, text_ok|]). constructor.
Qed.

#[local] Existing Instance Instance_base.

Lemma s2_small d : writeObject (CIMBase := Instance_base true) s2 = Ok d -> zlen d < 1000.
Proof.
  intros E. assert (match writeObject (CIMBase := Instance_base true) s2 with Ok d => zlen d <? 1000 | _ => false end = true) as H by (by vm_compute).
  rewrite E in H. by apply Z.ltb_lt.
Qed.

Lemma content_small : zlen (content (r_st r2)) < 1000.
Proof. by vm_compute. Qed.

Lemma creatable2 : creatable true same_type number_text key_text by_name equal_numbers r2 f2 na c2 i2 p2 k2 s2.
Proof.
  split.
  - apply na_ok.
  - by apply Ex.key_of_list.
  - exists (mkFNode (name_data ck2) class_flags na []). split; by vm_compute.
  - apply path2.
  - apply key2.
  - by apply Ex.key_of_list.
  - apply sound2.
  - by apply names2.
  - intros p. apply takes2.
  - apply strip2.
  - apply s2_ok.
  - intros d Hd%s2_small. pose proof content_small. unfold room. change (zlen k2) with 15. lia.
Qed.

Lemma created_witness :
  wp (createInstance true true same_type number_text key_text by_name equal_numbers na c2 i2) (fun _ r' =>
    wp (getCIMInstance true true same_type number_text key_text by_name na (Some (mkOP (op_nameSpace p2) (op_objectName p2) (rev (op_keys p2)))) c2
          false true true None) (fun i _ => ci_namespace i = na /\ restored true same_type c2 i2 i) r' /\
    wp (getInstanceNames true true same_type na c2) (fun l _ => length l = 1%nat) r' /\
    wp (deleteInstance true true same_type number_text key_text by_name na (Some p2) c2) (fun _ r' => RepoOk r' f2) r') r2.
Proof.
  pose proof (instances_created true same_type number_text key_text by_name equal_numbers r2 f2 na c2 i2 p2 k2 s2 r2_ok creatable2) as H.
  replace (f_nodes f2 !! k2) with (@None FNode) in H by (by vm_compute).
  eapply wp_mono; [exact (proj2 (proj2 H))|]. intros u r' (f' & _ & _ & Hg & Hl & _ & Hd). split_and!; [| |exact Hd].
  - eapply wp_mono; [apply (Hg (rev (op_keys p2)))|].
    + apply Permutation_rev.
    + right. by apply names2.
    + intros i r3 (H1 & H2 & _). exact (conj H1 H2).
  - eapply wp_mono; [apply (Hl (mkFNode (name_data ck2) class_flags na []) [] eq_refl)|].
    + by vm_compute.
    + by vm_compute.
    + constructor.
    + intros l r3 ((i & p & _ & _ & ->) & _). reflexivity.
Defined.

(** A class with one key and a property that is none. *)
Definition plain (name : bytes) (x : Z) : PROPData CIMValueImpl := mkProp name [] (dt UINT8) 0 [] (txt "A") (Some (int8 x)) false.
Definition props3 (x : Z) : list (option (PROPData CIMValueImpl)) := [Some (prop (txt "Id") 7); Some (plain (txt "Val") x)].
Definition c3 : CLSData CIMValueImpl := mkCls (txt "A") [] [] (props3 0) [] false true.
Definition i3 (x : Z) : INSTData CIMValueImpl := mkInst [] (txt "A") [Some (prop (txt "Id") 7)] (props3 x) [] [].
Definition p3 : OPData CIMValueImpl := mkOP (Some (mkNS na CIMUrl_default)) (txt "A") [Some (bare (txt "Id") 7)].
Definition k3 : bytes := txt "a:a:a.id=7".
Definition s3 (x : Z) : INSTData CIMValueImpl := mkInst [] (txt "A") [] [Some (bare (txt "Id") 7); Some (plain (txt "Val") x)] [] [].

Lemma s3_ok x : 0 <= x < 256 -> inst_ok (s3 x) /\ Forall value_ok (inst_values (s3 x)).
Proof.
  intros Hx. split.
  - split_and!; try (by apply text_ok); try by split. split; [|done].
    constructor; [by apply bare_ok, text_ok|]. constructor; [|constructor].
    split_and!; try (by apply text_ok); [by apply dt_fits|by unfold is_s32|by split].
  - constructor; [by apply int8_fits|]. constructor; [by apply int8_fits|constructor].
Qed.

Definition d1 : bytes := match writeObject (CIMBase := Instance_base true) (s3 1) with Ok d => d | _ => [] end.
Definition r3 : Repo File Idx := (createInstance true true same_type number_text key_text by_name equal_numbers na c3 (i3 1) r2).2.
Definition f3 : Forest := f_attach ck2 k3 d1 0 f2.

Lemma key3 : makeInstanceKey true same_type number_text key_text by_name na (Some p3) c3 = Ok k3.
Proof. by vm_compute. Qed.

Lemma written3 x : 0 <= x < 256 -> exists d, writeObject (CIMBase := Instance_base true) (s3 x) = Ok d.
Proof. intros Hx. destruct (@read_written _ (Instance_base true) (Instance_laws true) (s3 x) (s3_ok x Hx)) as (d & Hd & _). by exists d. Qed.

Lemma r3_ok : RepoOk r3 f3.
Proof.
  eapply (after_ok _ (fun _ => True)). eapply wp_mono; [eapply (createInstance_new true same_type number_text key_text by_name equal_numbers
    r2 f2 na c3 (i3 1) p3 k3 (s3 1) d1); [apply r2_ok|apply na_ok|by apply Ex.key_of_list| |reflexivity|apply key3|by apply Ex.key_of_list|by vm_compute|reflexivity| |by vm_compute]|].
  - exists (mkFNode (name_data ck2) class_flags na []). split; by vm_compute.
  - unfold d1. destruct (written3 1 ltac:(lia)) as (d & Hd). by rewrite Hd.
  - intros u r' H. split; [done|exact H].
Qed.

Lemma props3_in (p : PROPData CIMValueImpl) x : Some p ∈ props3 x -> p = prop (txt "Id") 7 \/ p = plain (txt "Val") x.
Proof. unfold props3. rewrite !elem_of_cons. intros [[= ->]|[[= ->]|?%not_elem_of_nil]]; [by left|by right|done]. Qed.

Lemma sound3 : class_sound c3.
Proof.
  split.
  - by apply names2.
  - intros p [->| ->]%props3_in; done.
  - apply Forall_cons. split; [eexists _, true; split; [reflexivity|apply prop_key]|]. apply Forall_singleton. by eexists _, false.
Qed.

Lemma takes3 p x : Some p ∈ props3 x -> takes true same_type (cc_properties c3) p.
Proof. intros [->| ->]%props3_in cp [->| ->]%props3_in H; try done; by eexists. Qed.

Lemma modified_witness :
  wp (modifyInstance true true same_type number_text key_text by_name equal_numbers na (Some p3) c3 (i3 5) (i3 1) true (Some [txt "val"]))
    (fun _ r' => wp (getCIMInstance true true same_type number_text key_text by_name na (Some p3) c3 false true true None)
       (fun i _ => ci_properties i = props3 5) r') r3.
Proof.
  destruct (instances_modified true same_type number_text key_text by_name equal_numbers r3 f3 na (Some p3) c3 (i3 5) (i3 1) true (Some [txt "val"]) k3 (i3 5)
    r3_ok key3 ltac:(by apply Ex.key_of_list) sound3 eq_refl ltac:(by apply names2) (fun p => takes3 p 5)) as (_ & _ & ci2 & E2 & _ & _ & H).
  assert (ci2 = i3 5) as -> by (injection E2 as <-; reflexivity).
  destruct (written3 5 ltac:(lia)) as (d & Hd). destruct (H (s3 5) d) as [_ H'].
  - reflexivity.
  - reflexivity.
  - apply s3_ok. lia.
  - exact Hd.
  - assert (match writeObject (CIMBase := Instance_base true) (s3 5) with Ok d => zlen d <? 1000 | _ => false end = true) as Hs by (by vm_compute).
    rewrite Hd in Hs. apply Z.ltb_lt in Hs. assert (zlen (content (r_st r3)) < 1000) by (by vm_compute). unfold room. change (zlen k3) with 10. lia.
  - replace (f_nodes f3 !! k3) with (Some (mkFNode d1 0 ck2 [])) in H' by (unfold f3; rewrite f_attach_nodes; reflexivity).
    eapply wp_mono; [exact H'|]. intros u r' (f' & _ & _ & _ & Hg).
    eapply wp_mono; [apply (Hg false true true None (setNameSpace (i3 5) na)); reflexivity|]. intros i r'' [-> _]. reflexivity.
Defined.
End InstEx.
