(* ===== verification/ClassMain.v ===== *)
(** * The theorems on classes

   Creating, reading and deleting classes in the meta repository, and what a class
   takes over from its super classes, with witnesses on a concrete repository. *)

From S2P Require Import Prelude FileIO HdbCommon Index Hdb HdbHeap FreeList HdbNode HdbInv HdbAdd HdbUpdate HdbSpec HdbContract HdbHold HdbForest.
From S2P Require Import Repo RepoFacts RepoOps Cache Meta MetaOps MetaEnum MetaClass MetaClassFacts.
From S2P Require Import Blocxx CimSerial CimData CimDateTime CimIO CimTotal CimObjects CimOps CimSync ClassOps CimStore CimRef CimMain CimRepo HdbMain RepoMain InstMain.
Import CIMDataType.

Section Create.
Context {F : Type} {fo : FileOps F} {fl : FileLaws F} {I : Type} {io : IndexOps I} {il : IndexLaws I}.
Context {so : StringOps} {sl : StringLaws} {bx : Blocxx} {ss : StringSearch} {sc : StringConv} {bl : BlocxxLaws} {nl : NameLaws} (asserts : bool).
Abbreviation QT := (QUALTData CIMValueImpl).
Abbreviation Cls := (CLSData CIMValueImpl).
Abbreviation qualt_base := (QualifierType_base asserts).
Abbreviation class_base := (Class_base asserts).
Abbreviation resolved := (resolves asserts).
Abbreviation Live := (Live asserts).
Abbreviation Done := (Done asserts).
Abbreviation ClassOk := (ClassOk asserts).
Implicit Types (m : MetaRepository F I QT Cls) (f : Forest) (l : list (bytes * Cls)) (c full : Cls).
Context (equal : CIMValueImpl -> CIMValueImpl -> outcome bool).

(** ** Qualifiers of a new class *)

Lemma hold_getCIMObject {O} {cb : CIMBase O} s v A f k (x : O) :
  DbV s v A f -> key_ok k -> stores f k x -> wp (getCIMObject k) (fun o s' => o = Some x /\ DbV s' v A f) s.
Proof using fl il.
  intros Hd Hk Hs. unfold getCIMObject. wstep. eapply hold_getNode; [done..|]. intros s' [nd|] Hd' Hg; simpl in Hg.
  - unfold wp. by rewrite (nodeToCIMObject_spec s' v A f k nd x).
  - destruct Hs as (n & Hn & _). congruence.
Qed.

Lemma live_getQualifierType hs v A f l m ns q qt Q :
  Live hs v A f l m -> text ns -> text q -> stores (cb := qualt_base) f (_makeQualPath ns q) qt ->
  (forall m', Live hs v A f l m' -> Q qt m') -> wp (scoped_getQualifierType asserts true ns q) Q m.
Proof using fl il sl.
  intros Hm Hn Hq Hs HQ. unfold scoped_getQualifierType. wstep. apply wp_on_repo. eapply wp_throwIfNotOpen; [by eapply live_repo|].
  cbv zeta. pose proof (makeQualPath_ok ns q Hn Hq) as Hk. destruct (coherent_get (cb := qualt_base) _ f (_makeQualPath ns q) (lv_quals _ _ _ _ _ _ _ Hm)) as (c' & r & Eg & Hc' & Hr).
  wstep. unfold wp at 1, on_quals. cbn [m_qualCache]. rewrite Eg. set (m1 := mkMeta _ _ c').
  assert (Live hs v A f l m1) as Hm1 by (destruct Hm; by constructor). destruct r as [y|].
  - wstep. assert (y = qt) as -> by (by eapply (stores_inj (cb := qualt_base))). by apply HQ.
  - destruct Hr as (l1 & Hl1 & Hno & Hall). wstep. eapply live_reads; [exact Hm1|intros s Hd; by eapply hold_getCIMObject|].
    intros o m2 -> Hm2 Eq. wstep. unfold wp at 1, add_qual, on_quals. wstep. apply HQ. destruct Hm2. constructor; try done.
    cbn. rewrite Eq. by eapply (coherent_add (cb := qualt_base)).
Qed.

(** A type that is not there, or a namespace that is not there. *)
Lemma live_noQualifierType hs v A f l m ns q :
  Live hs v A f l m -> text ns -> text q -> f_nodes f !! _makeQualPath ns q = None ->
  throws (scoped_getQualifierType asserts true ns q)
    (match f_nodes f !! qual_container ns with
     | Some n => if has_flags HDBNSNODE_FLAG n then "CIMException::NOT_FOUND" else "CIMException::INVALID_NAMESPACE"
     | None => "CIMException::INVALID_NAMESPACE"
     end) (Done hs f) m.
Proof using fl il sl.
  intros Hm Hn Hq Hs. unfold scoped_getQualifierType. apply throws_bind, wp_on_repo. eapply wp_throwIfNotOpen; [by eapply live_repo|].
  cbv zeta. pose proof (makeQualPath_ok ns q Hn Hq) as Hk. destruct (coherent_get (cb := qualt_base) _ f (_makeQualPath ns q) (lv_quals _ _ _ _ _ _ _ Hm)) as (c' & r & Eg & Hc' & Hr).
  apply throws_bind. unfold wp at 1, on_quals. cbn [m_qualCache]. rewrite Eg. set (m1 := mkMeta _ _ c').
  assert (Live hs v A f l m1) as Hm1 by (destruct Hm; by constructor). destruct r as [y|].
  { destruct Hr as (n & Hn' & _). congruence. }
  apply throws_bind. eapply (live_on_node _ _ (fun o => o = None)); [exact Hm1| |].
  - intros s Hd. unfold getCIMObject. wstep. eapply hold_getNode; [done..|]. intros s' [nd|] Hd' Hg; simpl in Hg; [|done].
    destruct (held_shows _ _ _ _ _ _ Hd' Hg) as (n & Hn' & _). congruence.
  - intros o m2 -> Hm2. apply throws_bind, wp_on_repo.
    eapply wp_mono; [apply (nameSpaceExists_spec _ f); [by eapply live_repo|by apply qual_container_ok]|].
    intros b r2 (-> & Hr2 & Hst). assert (Done hs f (mkMeta r2 (m_classCache m2) (m_qualCache m2))) as HD.
    { destruct (live_done _ _ _ _ _ _ _ Hm2) as [[[_ Hq2] Hc2] Hp2]. split; [|by eapply pool_step_trans]. constructor; [by constructor|done]. }
    destruct (f_nodes f !! qual_container ns) as [n|]; [destruct (has_flags _ n)|]; done.
Qed.

(** The qualifier with the flavors of its type. *)
Definition flavored (f : Forest) (ns : bytes) (x y : option (QUALData CIMValueImpl)) : Prop :=
  exists q qt, x = Some q /\ text (cq_name q) /\ stores (cb := qualt_base) f (_makeQualPath ns (cq_name q)) qt /\ y = Some (add_flavors q qt).

Lemma live_resolveQualifiers hs v A f l ns qs qs' : text ns -> Forall2 (flavored f ns) qs qs' -> forall m Q,
  Live hs v A f l m -> (forall m', Live hs v A f l m' -> Q qs' m') -> wp (_resolveQualifiers asserts true ns qs) Q m.
Proof using fl il sl.
  intros Hn. induction 1 as [|x y qs qs' (q & qt & -> & Hq & Hs & ->) _ IH]; intros m Q Hm HQ; cbn [_resolveQualifiers]; [wstep; by apply HQ|].
  wstep. apply wp_ret. wstep. eapply live_getQualifierType; [done..|]. intros m1 Hm1. wstep. apply IH; [done|]. intros m2 Hm2. wstep. by apply HQ.
Qed.

(** ** Creating a class *)

(** The class as it is stored, and the node it is put below. *)
Inductive adjusted f ns c : Cls -> bytes -> Prop :=
| adj_base n c' :
    cc_parentClassName c = [] -> f_nodes f !! class_container ns = Some n -> has_flags HDBNSNODE_FLAG n = true ->
    adjust_base c = Ok c' -> adjusted f ns c c' (class_container ns)
| adj_child n p up c' :
    cc_parentClassName c <> [] -> text (cc_parentClassName c) ->
    let pk := _makeClassPath ns (cc_parentClassName c) in
    f_nodes f !! pk = Some n -> has_flags HDBNSNODE_FLAG n = false -> resolved f ns pk p up ->
    adjust_child equal p c = Ok c' -> adjusted f ns c c' pk.

Lemma adjusted_names f ns c c' pk : adjusted f ns c c' pk -> cc_name c' = cc_name c /\ cc_parentClassName c' = cc_parentClassName c.
Proof using.
  destruct 1 as [n c' _ _ _ E|n p up c' _ _ pk _ _ _ (_ & _ & _ & ? & ? & _)%adjust_child_spec]; [|done].
  apply outcome_bind_ok in E as (? & _ & (? & _ & (? & _ & [= <-])%outcome_bind_ok)%outcome_bind_ok). done.
Qed.

(** Where the class is put. *)
Lemma live_adjustClass hs v A f l ns c c' pk m (Q : HDBNode * Cls -> _ -> Prop) :
  Live hs v A f l m -> text ns -> adjusted f ns c c' pk ->
  (forall pnode l' m', Live hs v A f l' m' -> match pnode with Some p => Held v A pk p
       | None => pk = class_container ns /\ exists n, f_nodes f !! pk = Some n /\ has_flags HDBNSNODE_FLAG n = true end -> Q (pnode, c') m') ->
  wp (adjustClass asserts equal ns c) Q m.
Proof using fl il sl.
  intros Hm Hn Ha HQ. unfold adjustClass. cbv zeta. destruct Ha as [n c' Hp Hc Hf E|n p up c' Hp Ht pk Hk Hf Hr E].
  - rewrite bool_decide_true by done. wstep. eapply wp_outcome; [exact E|]. wstep. apply (HQ _ l); [done|]. eauto.
  - rewrite bool_decide_false by done. fold pk. wstep. eapply live_getNode; [done|by apply makeClassPath_ok|].
    intros [nd|] m1 Hg Hm1; simpl in Hg; [|congruence]. wstep. eapply wp_mono; [by eapply _getClassFromNode_spec|].
    intros p' m2 (-> & l2 & Hm2 & _). wstep. eapply wp_outcome; [exact E|]. wstep. by apply (HQ _ l2).
Qed.

Lemma live_class_parent hs v A f l ns pk pnode m Q :
  Live hs v A f l m -> text ns ->
  match pnode with Some p => Held v A pk p
  | None => pk = class_container ns /\ exists n, f_nodes f !! pk = Some n /\ has_flags HDBNSNODE_FLAG n = true end ->
  (forall p m', Live hs v A f l m' -> Held v A pk p -> Q p m') -> wp (class_parent ns pnode) Q m.
Proof using fl il.
  intros Hm Hn Hp HQ. destruct pnode as [p|]; cbn [class_parent]; [wstep; by apply HQ|]. destruct Hp as (-> & n & Hk & Hf).
  wstep. eapply (live_on_node _ _ (fun o => exists p, o = Some p /\ Held v A (class_container ns) p)); [done| |].
  - intros s Hd. unfold getNameSpaceNode. pose proof (class_container_ok ns Hn) as Hkk. rewrite bool_decide_false by apply Hkk.
    wstep. eapply hold_getNode; [done..|]. intros s' [nd|] Hd' Hg; simpl in Hg; [|congruence].
    rewrite (areAllFlagsOn_has nd n), Hf by (by eapply held_flags). cbn [negb]. wstep. eauto.
  - intros o m' (p & -> & Hh) Hm'. wstep. by apply HQ.
Qed.

Lemma coherent_attach (x : Cache (T := QT)) pk k d flg f :
  f_nodes f !! k = None -> coherent (cb := qualt_base) x f -> coherent (cb := qualt_base) x (f_attach pk k d flg f).
Proof using.
  intros Hk (l & Hl & Hs). exists l. split; [done|]. intros k' y Hy. specialize (Hs _ _ Hy). apply stores_attach_ne; [|done].
  intros ->. destruct Hs as (n & Hn & _). congruence.
Qed.

Lemma assoc_u32 c : is_u32 (HDBCLSASSOC c).
Proof using. unfold HDBCLSASSOC. destruct (cc_associationFlag c); by vm_compute. Qed.

Lemma createClass_stored ns c qs m f c' pk :
  ClassOk m f -> text ns -> text (cc_name c) -> Forall2 (flavored f ns) (cc_qualifiers c) qs -> adjusted f ns (cls_quals c qs) c' pk ->
  f_nodes f !! _makeClassPath ns (cc_name c) = None -> 
  forall d, writeObject (CIMBase := class_base) c' = Ok d -> room (r_st (mr_repo m)) (_makeClassPath ns (cc_name c)) d ->
  wp (createClass asserts true equal ns c) (fun r m' => exists f', ClassOk m' f' /\ r = c' /\
    f' = f_attach pk (_makeClassPath ns (cc_name c)) d (HDBCLSASSOC c') f) m.
Proof using fl il sl.
  intros Hm Hn Hc Hq Ha Hk d Hw Hroom. unfold createClass. eapply class_open; [done|]. destruct (class_at _ _ _ Hm) as (l & Hm0).
  apply (wp_meta_scope asserts m f l); [done|]. intros hs v A m1 Hm1 Hrm. wstep. eapply live_resolveQualifiers; [done..|]. intros m2 Hm2.
  wstep. eapply live_adjustClass; [done..|]. intros pnode l3 m3 Hm3 Hpn. cbv beta iota. wstep. eapply live_class_parent; [done..|].
  intros p m4 Hm4 Hh. cbv zeta. destruct (adjusted_names _ _ _ _ _ Ha) as [-> _]. cbn [cls_quals cc_name].
  pose proof (makeClassPath_ok ns (cc_name c) Hn Hc) as Hkk.
  wstep. eapply live_getNode; [done..|]. intros [nd|] m5 Hg Hm5; simpl in Hg.
  { destruct (held_shows _ _ _ _ _ _ (lv_db _ _ _ _ _ _ _ Hm5) Hg) as (n & Hn' & _). congruence. }
  wstep. apply Hrm in Hroom. assert (room (r_st (mr_repo m5)) (_makeClassPath ns (cc_name c)) d) as Hroom5.
  { eapply room_view; [apply Hm1|apply Hm5|done]. }
  pose proof (addCIMObject_spec (cb := class_base) _ _ _ _ pk p _ c' d (HDBCLSASSOC c') (lv_db _ _ _ _ _ _ _ Hm5) Hh Hkk Hk (assoc_u32 c') Hw Hroom5) as Hadd.
  apply wp_run in Hadd as ([] & s' & E & Hd'). unfold wp at 1, on_node, on_repo, on_st. rewrite E. wstep. eexists. split; [|done].
  destruct Hm5 as [Ho Hpl Hpok Hd Hqc Hl Hcl]. split; [|done]. constructor; cbn.
  - constructor; cbn; [by constructor|]. by apply coherent_attach.
  - exists l3. split; [done|]. intros k' y (ns' & up & Hr)%Hcl. exists ns', up. by apply resolves_attach.
Qed.

(** ** Refusals *)

Lemma throws_outcome {S B} (o : outcome B) e (Q : S -> Prop) x : o = Throw e -> Q x -> throws (of_outcome o) e Q x.
Proof using. by intros ->. Qed.

(** Why [createClass] refuses a class. *)
Inductive refused f ns c : string -> Prop :=
| ref_qualifier qs1 q qs2 qs1' :
    cc_qualifiers c = qs1 ++ Some q :: qs2 -> Forall2 (flavored f ns) qs1 qs1' -> text (cq_name q) -> f_nodes f !! _makeQualPath ns (cq_name q) = None ->
    refused f ns c (match f_nodes f !! qual_container ns with
      | Some n => if has_flags HDBNSNODE_FLAG n then "CIMException::NOT_FOUND" else "CIMException::INVALID_NAMESPACE"
      | None => "CIMException::INVALID_NAMESPACE"
      end)
| ref_superclass qs :
    Forall2 (flavored f ns) (cc_qualifiers c) qs -> cc_parentClassName c <> [] -> text (cc_parentClassName c) ->
    f_nodes f !! _makeClassPath ns (cc_parentClassName c) = None -> refused f ns c "CIMException::INVALID_SUPERCLASS"
| ref_rules qs p up e :
    Forall2 (flavored f ns) (cc_qualifiers c) qs -> cc_parentClassName c <> [] -> text (cc_parentClassName c) ->
    resolved f ns (_makeClassPath ns (cc_parentClassName c)) p up -> adjust_child equal p (cls_quals c qs) = Throw e -> refused f ns c e
| ref_namespace qs c' :
    Forall2 (flavored f ns) (cc_qualifiers c) qs -> cc_parentClassName c = [] -> adjust_base (cls_quals c qs) = Ok c' ->
    f_nodes f !! class_container ns = None -> refused f ns c "CIMException::INVALID_NAMESPACE"
| ref_exists qs c' pk n :
    Forall2 (flavored f ns) (cc_qualifiers c) qs -> adjusted f ns (cls_quals c qs) c' pk -> text (cc_name c) ->
    f_nodes f !! _makeClassPath ns (cc_name c) = Some n -> refused f ns c "CIMException::ALREADY_EXISTS".

Lemma live_qualifiers_refused hs v A f l ns qs1 qs1' q qs2 msg : text ns -> Forall2 (flavored f ns) qs1 qs1' ->
  (forall m, Live hs v A f l m -> throws (scoped_getQualifierType asserts true ns (cq_name q)) msg (Done hs f) m) ->
  forall m, Live hs v A f l m -> throws (_resolveQualifiers asserts true ns (qs1 ++ Some q :: qs2)) msg (Done hs f) m.
Proof using fl il sl.
  intros Hn H Hq. induction H as [|x y qs1 qs1' (q1 & qt & -> & Hq1 & Hs & ->) _ IH]; intros m Hm; cbn [_resolveQualifiers app].
  - apply throws_bind, wp_ret, throws_bind_l. by apply Hq.
  - apply throws_bind, wp_ret, throws_bind. eapply live_getQualifierType; [done..|]. intros m1 Hm1. apply throws_bind_l. by apply IH.
Qed.

Lemma live_createClass_refused hs v A f l ns c msg m : text ns -> refused f ns c msg -> Live hs v A f l m ->
  throws (qra ← _resolveQualifiers asserts true ns (cc_qualifiers c);
    '(pnode, cimClass) ← adjustClass asserts equal ns (cls_quals c qra);
    p ← class_parent ns pnode;
    let ckey := _makeClassPath ns (cc_name cimClass) in
    node ← on_node (getNode ckey);
    match node with
    | Some _ => throw "CIMException::ALREADY_EXISTS"
    | None => on_node (addCIMObject (cb := class_base) cimClass ckey (Some p) (HDBCLSASSOC cimClass)) ;; mret cimClass
    end) msg (Done hs f) m.
Proof using fl il sl.
  intros Hn Href Hm. destruct Href as [qs1 q qs2 qs1' E H1 Ht Hk|qs Hq Hp Ht Hk|qs p up e Hq Hp Ht Hr E|qs c' Hq Hp E Hk|qs c' pk n Hq Ha Ht Hk].
  { apply throws_bind_l. rewrite E. eapply live_qualifiers_refused; [done..| |done]. intros m1 Hm1. by eapply live_noQualifierType. }
  all: apply throws_bind; eapply live_resolveQualifiers; [done..|]; intros m1 Hm1.
  - apply throws_bind_l. unfold adjustClass. cbv zeta. cbn [cls_quals cc_parentClassName]. rewrite bool_decide_false by done. apply throws_bind.
    eapply live_getNode; [done|by apply makeClassPath_ok|]. intros [nd|] m2 Hg Hm2; simpl in Hg; [|split; [done|by eapply live_done]].
    destruct (held_shows _ _ _ _ _ _ (lv_db _ _ _ _ _ _ _ Hm2) Hg) as (n & Hn' & _). congruence.
  - apply throws_bind_l. unfold adjustClass. cbv zeta. cbn [cls_quals cc_parentClassName]. rewrite bool_decide_false by done. apply throws_bind.
    eapply live_getNode; [done|by apply makeClassPath_ok|]. intros [nd|] m2 Hg Hm2; simpl in Hg.
    2: { destruct (resolves_node _ _ _ _ _ _ Hr) as (n & x & Hn' & _). congruence. }
    apply throws_bind. eapply wp_mono; [by eapply _getClassFromNode_spec|]. intros p' m3 (-> & l3 & Hm3 & _).
    apply throws_bind_l, throws_outcome; [done|]. by eapply live_done.
  - apply throws_bind. unfold adjustClass. cbv zeta. cbn [cls_quals cc_parentClassName]. rewrite bool_decide_true by done. wstep.
    eapply wp_outcome; [exact E|]. wstep. cbv beta iota. apply throws_bind_l. cbn [class_parent]. apply throws_bind.
    eapply (live_on_node _ _ (fun o => o = None)); [done| |intros o m2 -> Hm2; split; [done|by eapply live_done]].
    intros s Hd. unfold getNameSpaceNode. pose proof (class_container_ok ns Hn) as Hkk. rewrite bool_decide_false by apply Hkk.
    wstep. eapply hold_getNode; [done..|]. intros s' [nd|] Hd' Hg; simpl in Hg; [|by wstep].
    destruct (held_shows _ _ _ _ _ _ Hd' Hg) as (n & Hn' & _). congruence.
  - apply throws_bind. eapply live_adjustClass; [done..|]. intros pnode l3 m3 Hm3 Hpn. cbv beta iota. apply throws_bind.
    eapply live_class_parent; [done..|]. intros p m4 Hm4 Hh. cbv zeta. destruct (adjusted_names _ _ _ _ _ Ha) as [-> _]. cbn [cls_quals cc_name].
    apply throws_bind. eapply live_getNode; [done|by apply makeClassPath_ok|]. intros [nd|] m5 Hg Hm5; simpl in Hg; [|congruence].
    split; [done|]. by eapply live_done.
Qed.

Lemma createClass_refused m f ns c msg : ClassOk m f -> text ns -> refused f ns c msg ->
  throws (createClass asserts true equal ns c) msg (fun m' => ClassOk m' f) m.
Proof using fl il sl.
  intros Hm Hn Href. unfold createClass. eapply class_open_throws; [done|]. apply throws_meta_scope; [done|].
  intros hs v A l m1 Hm1. by eapply live_createClass_refused.
Qed.

(** ** The theorems *)

(** The class that is shown for the stored class [c']. *)
Inductive completes f ns (c' : Cls) : Cls -> list bytes -> Prop :=
| cmp_base full : cc_parentClassName c' = [] -> mark_keyed c' = Ok full -> completes f ns c' full []
| cmp_child p up x full :
    cc_parentClassName c' <> [] -> let pk := _makeClassPath ns (cc_parentClassName c') in
    resolved f ns pk p up -> mark_keyed c' = Ok x -> propagate p x = Ok full -> completes f ns c' full (pk :: up).

Lemma flavored_attach f pk k d flg ns qs qs' : f_nodes f !! k = None -> Forall2 (flavored f ns) qs qs' -> Forall2 (flavored (f_attach pk k d flg f) ns) qs qs'.
Proof using.
  intros Hk H. eapply Forall2_impl; [exact H|]. intros x y (q & qt & -> & Ht & Hs & ->). exists q, qt. split_and!; try done. apply stores_attach_ne; [|done].
  intros E. destruct Hs as (n & Hn & _). congruence.
Qed.

Lemma node_attach f pk k d flg k' n : f_nodes f !! k = None -> f_nodes f !! k' = Some n ->
  exists n', f_nodes (f_attach pk k d flg f) !! k' = Some n' /\ forall b, has_flags b n' = has_flags b n.
Proof using. intros Hk Hn. rewrite f_attach_nodes, decide_False by congruence. case_decide; [|eauto]. rewrite Hn. by eexists. Qed.

Lemma adjusted_attach f pk k d flg ns c c' pk' : f_nodes f !! k = None -> adjusted f ns c c' pk' -> adjusted (f_attach pk k d flg f) ns c c' pk'.
Proof using.
  intros Hk [n c1 Hp Hc Hf E|n p up c1 Hp Ht pk1 Hpk Hf Hr E]; [destruct (node_attach f pk k d flg _ n Hk Hc) as (n' & Hn' & Hf')|
    destruct (node_attach f pk k d flg _ n Hk Hpk) as (n' & Hn' & Hf')]; rewrite <- Hf' in Hf.
  - by econstructor.
  - econstructor; try done. by apply resolves_attach.
Qed.

Lemma completed_attach f ns c c' pk full up k d flg : adjusted f ns c c' pk -> completes f ns c' full up -> f_nodes f !! k = None ->
  readObject (CIMBase := class_base) d = Ok c' -> resolved (f_attach pk k d flg f) ns k full up.
Proof using.
  intros Ha Hc Hk Hd. destruct (adjusted_names _ _ _ _ _ Ha) as [_ Ep]. destruct Hc as [full Hp Hm|p up x full Hp pk' Hr Hm Hpr].
  - eapply res_base; [by apply stores_attach|done..].
  - destruct Ha as [n c1 Hp0|n p1 up1 c1 _ _ pk1 Hpk Hf _ _]; [congruence|]. subst pk1. rewrite <- Ep in *. fold pk' in Hpk |- *.
    eapply (res_child _ _ _ _ (mkFNode d flg pk' [])); try done.
    + by rewrite f_attach_nodes, decide_True.
    + intros pn Hpn. cbn [fn_parent] in Hpn. destruct (node_attach f pk' k d flg _ n Hk Hpk) as (n' & Hn' & Hf'). rewrite Hpn in Hn'. injection Hn' as ->. by rewrite Hf'.
    + by apply resolves_attach.
Qed.

(** A class that can be stored is stored once.  [createClass] refuses a name
   that is taken.  Otherwise [getCIMClass] finds nothing before, and after it finds
   the class under any spelling of the name, completed by its super classes
   whatever the cache holds, and every other class as before; a second
   [createClass] is refused, and [deleteClass] gives back the repository as it was. *)
Theorem classes_created m f ns c qs c' pk :
  ClassOk m f -> text ns -> text (cc_name c) -> Forall2 (flavored f ns) (cc_qualifiers c) qs -> adjusted f ns (cls_quals c qs) c' pk ->
  cls_ok c' /\ Forall value_ok (cls_values c') ->
  let k := _makeClassPath ns (cc_name c) in
  (forall d, writeObject (CIMBase := class_base) c' = Ok d -> room (r_st (mr_repo m)) k d) ->
  match f_nodes f !! k with
  | Some _ => throws (createClass asserts true equal ns c) "CIMException::ALREADY_EXISTS" (fun m1 => ClassOk m1 f) m
  | None =>
      (forall lo iq ic pl, wp (getCIMClass asserts true ns (cc_name c) lo iq ic pl) (fun r m1 => r = NOT_FOUND /\ ClassOk m1 f) m) /\
      wp (deleteClass asserts true ns (cc_name c)) (fun b m1 => b = false /\ ClassOk m1 f) m /\
      wp (createClass asserts true equal ns c) (fun r m1 => r = c' /\ exists f1, ClassOk m1 f1 /\
        (forall ns' cn' x up lo iq ic pl shown, text ns' -> text cn' -> resolved f ns' (_makeClassPath ns' cn') x up -> filtered lo iq ic pl x = Ok shown ->
           wp (getCIMClass asserts true ns' cn' lo iq ic pl) (fun r m2 => r = SUCCESS shown /\ ClassOk m2 f1) m1) /\
        (forall cn full up lo iq ic pl shown, text cn -> toLowerCase cn = toLowerCase (cc_name c) -> completes f ns c' full up -> filtered lo iq ic pl full = Ok shown ->
           wp (getCIMClass asserts true ns cn lo iq ic pl) (fun r m2 => r = SUCCESS shown /\ ClassOk m2 f1) m1) /\
        throws (createClass asserts true equal ns c) "CIMException::ALREADY_EXISTS" (fun m2 => ClassOk m2 f1) m1 /\
        wp (deleteClass asserts true ns (cc_name c)) (fun b m2 => b = true /\ ClassOk m2 f) m1) m
  end.
Proof using fl il sl bl.
  intros Hm Hn Hc Hq Ha Hst k Hroom. destruct (f_nodes f !! k) as [n|] eqn:Hk; [eapply createClass_refused; [done..|]; by eapply ref_exists|].
  destruct (@read_written _ class_base (Class_laws asserts) c' Hst) as (d & Hw & Hrd). specialize (Hroom d Hw).
  assert (Forest_ok f) as Hf by (eapply Db_forest_ok, Hm). split_and!.
  - intros lo iq ic pl. by apply getCIMClass_absent.
  - eapply wp_mono; [by apply (deleteClass_absent asserts m f)|]. intros b m1 (f1 & Hm1 & -> & ->). done.
  - eapply wp_mono; [by apply (createClass_stored ns c qs m f c' pk)|]. intros r m1 (f1 & Hm1 & -> & Ef). cbn beta. fold k in Ef. split; [done|].
    exists f1. split; [done|]. subst f1. split_and!.
    + intros ns' cn' x up lo iq ic pl shown Hn' Hc' Hr Hs. eapply getCIMClass_found; [done..| |done]. by apply resolves_attach.
    + intros cn full up lo iq ic pl shown Hcn El Hcm Hs. eapply getCIMClass_found; [done..| |done].
      assert (_makeClassPath ns cn = k) as -> by (unfold k, _makeClassPath; by rewrite El). by eapply completed_attach.
    + eapply createClass_refused; [done..|]. eapply ref_exists; [by apply flavored_attach|by apply adjusted_attach|done|].
      fold k. by rewrite f_attach_nodes, decide_True.
    + eapply wp_mono; [eapply (deleteClass_leaf asserts m1); [done..| | |]; fold k; [by rewrite f_attach_nodes, decide_True|done|exact Hrd]|].
      intros b m2 (f2 & Hm2 & -> & Hp). split; [done|]. fold k in Hp. apply prune_attach in Hp; [by subst|done|by apply makeClassPath_ok|done].
Qed.

(** [createClass] stores nothing when it refuses a class: one with a qualifier
   whose type is not known, one below a class that is not there, one that breaks
   the rules of its super class (a second set of keys, an association below a
   class that is none, a qualifier that must not be overridden), one in a
   namespace that is not there, and one that exists. *)
Theorem classes_refused m f ns c msg :
  ClassOk m f -> text ns -> refused f ns c msg ->
  throws (createClass asserts true equal ns c) msg (fun m1 => ClassOk m1 f /\
    forall cn x up lo iq ic pl shown, text cn -> resolved f ns (_makeClassPath ns cn) x up -> filtered lo iq ic pl x = Ok shown ->
      wp (getCIMClass asserts true ns cn lo iq ic pl) (fun r m2 => r = SUCCESS shown /\ ClassOk m2 f) m1) m.
Proof using fl il sl.
  intros Hm Hn Href. eapply throws_mono; [by eapply createClass_refused|]. intros m1 Hm1. split; [done|]. intros. by eapply getCIMClass_found.
Qed.

(** C22: what a class is when it is stored below [p] and read again.  It has the
   properties and methods it declares, with type and value, and under every other
   name what [p] has, marked as propagated; a property that [p] has not comes from
   the class itself.  [p]'s qualifiers are added unless they are restricted to it.
   No class below a keyed class has keys of its own, only an association has
   associations below it, and a qualifier that must not be overridden is not. *)
Theorem class_inheritance p c c1 x full :
  adjust_child equal p c = Ok c1 -> mark_keyed c1 = Ok x -> propagate p x = Ok full ->
  cc_name full = cc_name c /\ (cc_isKeyed p = true -> cc_isKeyed full = true) /\
  (forall n r, cls_getProperty c n = Ok r -> exists r' pp, cls_getProperty full n = Ok r' /\ cls_getProperty p n = Ok pp /\
     match r, pp with
     | Some y, _ => exists y', r' = Some y' /\ declared y' = declared y /\ origin_of (cc_name c) pp y y'
     | None, Some q => exists y', r' = Some y' /\ more_prop (prop_setPropagated q true) y'
     | None, None => r' = None
     end) /\
  (forall n r, getMethod c n = Ok r -> exists r' pm, getMethod full n = Ok r' /\ getMethod p n = Ok pm /\
     match r, pm with
     | Some y, _ => exists y', r' = Some y' /\ mt_name y' = mt_name y /\ mt_returnDatatype y' = mt_returnDatatype y /\ mt_parameters y' = mt_parameters y
     | None, Some q => exists y', r' = Some y' /\ more_meth (meth_setPropagated q true) y'
     | None, None => r' = None
     end) /\
  (forall n r, cls_getQualifier c1 n = Ok r -> exists r' pq, cls_getQualifier full n = Ok r' /\
     named cq_name (List.filter unrestricted (cc_qualifiers p)) n = Ok pq /\
     r' = match r with Some q => Some q | None => option_map (fun q => qual_setPropagated q true) pq end) /\
  (forall y, Some y ∈ cc_properties c -> cc_isKeyed p = true -> isKey y = Ok true -> exists q, cls_getProperty p (p_name y) = Ok (Some q)) /\
  (cc_associationFlag c = true -> cc_associationFlag p = true) /\
  (forall q pq, Some q ∈ cc_qualifiers c -> cls_getQualifier p (cq_name q) = Ok (Some pq) -> hasFlavor pq DISABLEOVERRIDE = true ->
     value_equal equal (cq_qualifierValue pq) (cq_qualifierValue q) = Ok true).
Proof using nl.
  intros (Hp & Hm & Hq & En & _ & _ & Has)%adjust_child_spec Hx%mark_keyed_shape (Iq & Ip & Im & Enf & Hk)%propagate_spec.
  assert (cc_properties x = cc_properties c1 /\ cc_methods x = cc_methods c1 /\ cc_qualifiers x = cc_qualifiers c1 /\ cc_name x = cc_name c1) as (Ex1 & Ex2 & Ex3 & Ex4)
    by (rewrite Hx; done). rewrite Ex1 in Ip. rewrite Ex2 in Im. rewrite Ex3 in Iq. split_and!.
  - congruence.
  - intros Hkp. apply Hk. by rewrite Hkp.
  - intros n r Hr. destruct (each_named p_name _ _ _ n r (adjust_prop_name (cc_name c) p) Hp Hr) as (r1 & H1 & Hr1).
    destruct (Ip n r1 H1) as (r' & pp & H' & Hpp & Hm'). exists r', pp. split_and!; [done..|]. destruct r as [y|]; [|by subst r1].
    destruct Hr1 as (y1 & -> & Hy1). destruct Hm' as (y' & -> & qs & -> & _). eexists. split; [done|].
    apply adjust_prop_spec in Hy1 as (pp0 & E0 & Hd & Ho & _). destruct (named_present p_name _ _ _ Hr) as [_ Ey].
    assert (pp0 = pp) as -> by (change (named p_name (cc_properties p) (p_name y) = Ok pp0) in E0; rewrite (named_cong p_name _ _ _ Ey) in E0; congruence).
    split; [done|]. by destruct pp.
  - intros n r Hr. destruct (each_named mt_name _ _ _ n r signature_name Hm Hr) as (r1 & H1 & Hr1).
    destruct (Im n r1 H1) as (r' & pm & H' & Hpm & Hm'). exists r', pm. split_and!; [done..|]. destruct r as [y|]; [|by subst r1].
    destruct Hr1 as (y1 & -> & Hy1). destruct Hm' as (y' & -> & qs & -> & _). eexists. split; [done|]. unfold signature in Hy1. simplify_eq. done.
  - intros n r Hr. destruct (Iq n r Hr) as (r' & pq & H' & Hpq & Hm'). exists r', pq. split_and!; [done..|].
    destruct r as [q|]; [by destruct Hm' as (q' & -> & <-)|]. destruct pq; [by destruct Hm' as (q' & -> & <-)|done].
  - intros y Hy Hkp Hky. destruct (each_member _ _ _ y Hp Hy) as (y' & (pp & E & _ & _ & Hno)%adjust_prop_spec). destruct pp as [q|]; [eauto|].
    specialize (Hno eq_refl Hkp). congruence.
  - done.
  - intros q pq. by eapply adjust_quals_fixed.
Qed.
End Create.

(** ** Concrete classes *)

Module ClassEx.
Import Ref RefBlocxx ExRepo CimEx InstEx.
Abbreviation Cls := (CLSData CIMValueImpl).
Abbreviation MetaRepo := (MetaRepository File Idx QT Cls).

(** A namespace "a" for classes. *)
Definition rc : Repo File Idx := (createNameSpace true (class_container na) r0).2.
Definition fc : Forest := add_ns (class_container na) f0.
Definition mc : MetaRepo := mkMeta rc newCache newCache.

Lemma mc_ok : ClassOk true mc fc.
Proof.
  constructor; [constructor|].
  - eapply (after_ok _ (fun c => c = 0)), createNameSpace_add; [apply r0_ok|apply class_container_ok, na_ok|by vm_compute|by vm_compute|].
    intros r' Hr'. split; [done|exact Hr'].
  - exists []. split; [apply empty_ok|done].
  - exists []. split; [apply empty_ok|done].
Qed.

(** A class with a key. *)
Definition base_class : Cls := mkCls (txt "A") [] [] [Some (prop (txt "Id") 0)] [] false false.
Definition stored_base : Cls := mkCls (txt "A") [] [] [Some (prop (txt "Id") 0)] [] false false.
Definition shown_base : Cls := setIsKeyed stored_base true.
Definition base_key : bytes := _makeClassPath na (txt "A").
Definition base_data : bytes := match writeObject (CIMBase := Class_base true) stored_base with Ok d => d | _ => [] end.
Definition m_base : MetaRepo := (createClass true true equal_numbers na base_class mc).2.
Definition f_base : Forest := f_attach (class_container na) base_key base_data 0 fc.

Lemma stored_ok (c : Cls) p : c = mkCls (cc_name c) (cc_parentClassName c) [] [Some p] [] (cc_associationFlag c) (cc_isKeyed c) ->
  string_ok (cc_name c) -> string_ok (cc_parentClassName c) -> prop_ok p -> Forall value_ok (prop_values p) -> cls_ok c /\ Forall value_ok (cls_values c).
Proof.
  intros -> Hn Hp Hpr Hv. cbn in Hn, Hp. split; [split_and!; [done|done|by split|split; [|done]|by split]|]; [constructor; [done|constructor]|].
  unfold cls_values. cbn. rewrite !app_nil_r. exact Hv.
Qed.

Lemma base_written : writeObject (CIMBase := Class_base true) stored_base = Ok base_data /\ readObject (CIMBase := Class_base true) base_data = Ok stored_base.
Proof.
  destruct (@read_written _ (Class_base true) (Class_laws true) stored_base) as (d & Hw & Hr).
  { apply (stored_ok _ (prop (txt "Id") 0)); [done|by apply text_ok|by apply text_ok|by apply prop_ok', text_ok|cbn; values]. }
  unfold base_data. by rewrite Hw.
Qed.

Lemma container_node : exists n, f_nodes fc !! class_container na = Some n /\ has_flags HDBNSNODE_FLAG n = true.
Proof. eexists. split; [vm_compute; reflexivity|done]. Qed.

Lemma m_base_ok : ClassOk true m_base f_base.
Proof.
  destruct container_node as (n & Hn & Hf).
  destruct (wp_after _ _ _ (createClass_stored true equal_numbers na base_class [] mc fc stored_base (class_container na) mc_ok (proj2 na_ok)
    ltac:(by apply Ex.key_of_list) (List.Forall2_nil _) (adj_base true equal_numbers fc na base_class n stored_base eq_refl Hn Hf eq_refl)
    ltac:(by vm_compute) base_data (proj1 base_written) ltac:(by vm_compute))) as (a & _ & f' & H & _ & ->).
  exact H.
Qed.

Lemma base_resolved : resolves true f_base na base_key shown_base [].
Proof. eapply res_base; [apply stores_attach, base_written|reflexivity|done]. Qed.

(** A class below it, and one with a key of its own. *)
Definition sub_class (p : PROPData CIMValueImpl) : Cls := mkCls (txt "B") (txt "a") [] [Some p] [] false false.
Definition own : PROPData CIMValueImpl := prop_setOriginClass (plain (txt "Val") 1) (txt "B").
Definition stored_sub : Cls := mkCls (txt "B") (txt "a") [] [Some own] [] false true.
Definition shown_sub : Cls := mkCls (txt "B") (txt "a") [] [Some own; Some (prop_setPropagated (prop (txt "Id") 0) true)] [] false true.

Lemma base_node : exists n, f_nodes f_base !! base_key = Some n /\ has_flags HDBNSNODE_FLAG n = false.
Proof. unfold f_base. rewrite f_attach_nodes, decide_True by done. by eexists. Qed.

Lemma base_name : base_key = _makeClassPath na (cc_parentClassName (cls_quals (sub_class (plain (txt "Val") 1)) [])).
Proof. reflexivity. Qed.

Lemma sub_adjusted : adjusted true equal_numbers f_base na (cls_quals (sub_class (plain (txt "Val") 1)) []) stored_sub base_key.
Proof.
  destruct base_node as (n & Hn & Hf). rewrite base_name.
  apply (adj_child true equal_numbers f_base na (cls_quals (sub_class (plain (txt "Val") 1)) []) n shown_base [] stored_sub); [done|by apply Ex.key_of_list|exact Hn|exact Hf|exact base_resolved|reflexivity].
Qed.

Lemma sub_fits : cls_ok stored_sub /\ Forall value_ok (cls_values stored_sub).
Proof.
  apply (stored_ok _ own); [done|by apply text_ok|by apply text_ok| |].
  - split_and!; try (by apply text_ok); [by apply dt_fits|by unfold is_s32|by split].
  - cbn; values.
Qed.

Lemma sub_room d : writeObject (CIMBase := Class_base true) stored_sub = Ok d -> room (r_st (mr_repo m_base)) (_makeClassPath na (txt "B")) d.
Proof.
  intros E. assert (match writeObject (CIMBase := Class_base true) stored_sub with Ok d => zlen d <? 1000 | _ => false end = true) as H by (by vm_compute).
  rewrite E in H. apply Z.ltb_lt in H. assert (zlen (content (r_st (mr_repo m_base))) < 1000) by (by vm_compute). unfold room.
  change (zlen (_makeClassPath na (txt "B"))) with 5. lia.
Qed.

Lemma classes_created_witness :
  wp (createClass true true equal_numbers na (sub_class (plain (txt "Val") 1))) (fun _ m' =>
    wp (getCIMClass true true na (txt "b") false true true None) (fun r _ => r = SUCCESS shown_sub) m' /\
    wp (deleteClass true true na (txt "B")) (fun b m2 => b = true /\ ClassOk true m2 f_base) m') m_base.
Proof.
  pose proof (classes_created true equal_numbers m_base f_base na (sub_class (plain (txt "Val") 1)) [] stored_sub base_key m_base_ok (proj2 na_ok)
    ltac:(by apply Ex.key_of_list) (List.Forall2_nil _) sub_adjusted sub_fits sub_room) as H. cbv zeta in H.
  replace (f_nodes f_base !! _makeClassPath na (cc_name (sub_class (plain (txt "Val") 1)))) with (@None FNode) in H.
  2: { unfold f_base. rewrite f_attach_nodes, decide_False by done. by rewrite decide_False by (by intros []). }
  eapply wp_mono; [exact (proj2 (proj2 H))|]. intros r m' (_ & f1 & _ & _ & Hg & _ & Hd). split; [|exact Hd].
  eapply wp_mono; [apply (Hg (txt "b") shown_sub [_makeClassPath na (cc_parentClassName stored_sub)] false true true None shown_sub); [by apply Ex.key_of_list|reflexivity| |reflexivity]|].
  - apply (cmp_child true f_base na stored_sub shown_base [] stored_sub shown_sub); [done|exact base_resolved|reflexivity|reflexivity].
  - intros r2 m2 [-> _]. reflexivity.
Defined.

(** A second key below a class that has one. *)
Lemma classes_refused_witness :
  throws (createClass true true equal_numbers na (sub_class (prop (txt "No") 1))) "CIMException::INVALID_PARAMETER" (fun m' =>
    wp (getCIMClass true true na (txt "A") false true true None) (fun r _ => r = SUCCESS shown_base) m') m_base.
Proof.
  eapply throws_mono; [apply (classes_refused true equal_numbers m_base f_base na (sub_class (prop (txt "No") 1)) _ m_base_ok (proj2 na_ok))|].
  - apply (ref_rules true equal_numbers f_base na (sub_class (prop (txt "No") 1)) [] shown_base []); [constructor|done|by apply Ex.key_of_list|exact base_resolved|reflexivity].
  - intros m1 [_ H]. eapply wp_mono; [eapply (H (txt "A") shown_base [] false true true None shown_base); [by apply Ex.key_of_list|exact base_resolved|reflexivity]|].
    intros r m2 [-> _]. reflexivity.
Defined.

Lemma sub_steps : adjust_child equal_numbers shown_base (sub_class (plain (txt "Val") 1)) = Ok stored_sub /\ mark_keyed stored_sub = Ok stored_sub /\
  propagate shown_base stored_sub = Ok shown_sub.
Proof. split_and!; reflexivity. Qed.

Lemma inheritance_witness :
  exists y, cls_getProperty shown_sub (txt "ID") = Ok (Some y) /\ p_propagated y = true /\ p_cimValue y = Some (int8 0).
Proof.
  destruct (class_inheritance equal_numbers shown_base (sub_class (plain (txt "Val") 1)) stored_sub stored_sub shown_sub
    (proj1 sub_steps) (proj1 (proj2 sub_steps)) (proj2 (proj2 sub_steps)))
    as (_ & _ & Hp & _). destruct (Hp (txt "ID") None) as (r' & pp & E & Epp & H); [reflexivity|].
  assert (pp = Some (prop (txt "Id") 0)) as -> by (injection Epp as <-; reflexivity).
  destruct H as (y & -> & qs & -> & _). exists (with_quals (prop_setPropagated (prop (txt "Id") 0) true) (p_qualifiers (prop_setPropagated (prop (txt "Id") 0) true) ++ qs)).
  split; [exact E|split; reflexivity].
Defined.
End ClassEx.
