(* ===== verification/CimRepoMain.v ===== *)
(** * The theorems on the CIM repository

   Classes and instances through all stores: a class is created in the meta store
   and in the instance store, instances are reached through their class, and what
   is missing is reported without a change.  The walk over the sub-classes of a
   class reaches each of them once.  With witnesses on a concrete repository. *)

From S2P Require Import Prelude FileIO HdbCommon Index Hdb HdbHeap FreeList HdbNode HdbInv HdbAdd HdbUpdate HdbSpec HdbContract HdbHold HdbForest.
From S2P Require Import Repo RepoFacts RepoOps Cache Meta MetaOps MetaEnum MetaClass MetaClassFacts.
From S2P Require Import Blocxx CimSerial CimData CimDateTime CimIO CimTotal CimObjects CimOps CimSync ClassOps CimStore CimRef CimMain CimRepo HdbMain RepoMain InstRepo InstMain ClassMain CimRepoOps.
Import CIMDataType.

Section Repository.
Context {F : Type} {fo : FileOps F} {fl : FileLaws F} {I : Type} {io : IndexOps I} {il : IndexLaws I} {D : Type}.
Context {so : StringOps} {sl : StringLaws} {bx : Blocxx} {ss : StringSearch} {sc : StringConv} {bl : BlocxxLaws} {nl : NameLaws} {ai : AssocIndex D}.
Context (asserts : bool) (cast : CIMValueImpl -> DTData -> outcome CIMValue).
Context (value_toString : CIMValueImpl -> outcome bytes) (asKeyString : CIMValue -> outcome bytes).
Context (prop_lt : PROPData CIMValueImpl -> PROPData CIMValueImpl -> bool) {po : PropOrder prop_lt}.
Context (equal : CIMValueImpl -> CIMValueImpl -> outcome bool).
Abbreviation QT := (QUALTData CIMValueImpl).
Abbreviation Cls := (CLSData CIMValueImpl).
Abbreviation Inst := (INSTData CIMValueImpl).
Abbreviation CR := (CimRepo F I D).
Abbreviation resolved := (resolves asserts).
Implicit Types (x : CR) (fn fi fm : Forest) (c full : Cls) (ci : Inst) (dc di : D).

(** The stores hold the forests [fn], [fi] and [fm]; [dc] and [di] are the
   association indexes. *)
Record Stores fn fi fm dc di x : Prop := {
  st_names : RepoOk (m_nStore (c_stores x)) fn;
  st_inst : RepoOk (m_iStore (c_stores x)) fi;
  st_meta : ClassOk asserts (meta_of x) fm;
  st_classAssoc : m_classAssocDb x = dc;
  st_instAssoc : m_instAssocDb x = di;
}.

(** There is room for what there was room for. *)
Definition keeps x x' : Prop := roomy (meta_of x) (meta_of x') /\ m_iStore (c_stores x') = m_iStore (c_stores x).

Lemma keeps_refl x : keeps x x.
Proof using. by split; [intros k d|]. Qed.

Lemma keeps_trans x1 x2 x3 : keeps x1 x2 -> keeps x2 x3 -> keeps x1 x3.
Proof using. intros [H1 E1] [H2 E2]. split; [intros k d Hr; by apply H2, H1|congruence]. Qed.

(** ** One store of several *)

Lemma wp_classes {B} (m : Prog (MetaRepository F I QT Cls) B) Q x :
  wp m (fun a r => Q a (set_meta r x)) (meta_of x) -> wp (on_classes_ m) Q x.
Proof using. unfold wp, on_classes_, on_meta. by destruct (m (meta_of x)) as [[] r]. Qed.

Lemma throws_classes {B} (m : Prog (MetaRepository F I QT Cls) B) msg Q x :
  throws m msg (fun r => Q (set_meta r x)) (meta_of x) -> throws (on_classes_ m) msg Q x.
Proof using. unfold throws, on_classes_, on_meta. by destruct (m (meta_of x)) as [[] r]. Qed.

Definition set_inst (r : Repo F I) x : CR := mkCimRepo (mkCIMRepo (m_nStore (c_stores x)) r (m_mStore (c_stores x))) (m_classAssocDb x) (m_instAssocDb x).
Definition set_names (r : Repo F I) x : CR := mkCimRepo (mkCIMRepo r (m_iStore (c_stores x)) (m_mStore (c_stores x))) (m_classAssocDb x) (m_instAssocDb x).

Lemma wp_instances {B} (m : Prog (Repo F I) B) Q x :
  wp m (fun a r => Q a (set_inst r x)) (m_iStore (c_stores x)) -> wp (on_instances m) Q x.
Proof using. unfold wp, on_instances, on_stores, on_iStore. by destruct (m _) as [[] r]. Qed.

Lemma throws_instances {B} (m : Prog (Repo F I) B) msg Q x :
  throws m msg (fun r => Q (set_inst r x)) (m_iStore (c_stores x)) -> throws (on_instances m) msg Q x.
Proof using. unfold throws, on_instances, on_stores, on_iStore. by destruct (m _) as [[] r]. Qed.

Lemma wp_names {B} (m : Prog (Repo F I) B) Q x :
  wp m (fun a r => Q a (set_names r x)) (m_nStore (c_stores x)) -> wp (on_names m) Q x.
Proof using. unfold wp, on_names, on_stores, on_nStore. by destruct (m _) as [[] r]. Qed.

Lemma stores_meta fn fi fm fm' dc di x r : Stores fn fi fm dc di x -> ClassOk asserts r fm' -> Stores fn fi fm' dc di (set_meta r x).
Proof using. intros [] Hr. by constructor. Qed.

Lemma stores_inst fn fi fi' fm dc di x r : Stores fn fi fm dc di x -> RepoOk r fi' -> Stores fn fi' fm dc di (set_inst r x).
Proof using. intros [] Hr. by constructor. Qed.

Lemma stores_names fn fi fm dc di x r : Stores fn fi fm dc di x -> RepoOk r fn -> Stores fn fi fm dc di (set_names r x).
Proof using. intros [] Hr. by constructor. Qed.

(** ** Exceptions *)

Lemma wp_catching {B} ks (m : Prog CR B) Q x : wp m Q x -> wp (catching ks m) Q x.
Proof using. unfold wp, catching. by destruct (m x) as [[] x']. Qed.

(** Exceptions of the model pass. *)
Lemma throws_catching {B} ks (m : Prog CR B) e Q x : kind_of e ∉ ks -> throws m e Q x -> throws (catching ks m) e Q x.
Proof using.
  unfold throws, catching. intros Hk. destruct (m x) as [[a|e'| |] x']; try done. intros [-> HQ]. by rewrite bool_decide_false.
Qed.

Lemma throws_guarded {B} (m : Prog CR B) e Q x : kind_of e = KCim -> throws m e Q x -> throws (guarded m) e Q x.
Proof using. intros E. apply throws_catching. rewrite E. by intros [[=]|[[=]|[]%not_elem_of_nil]%elem_of_cons]%elem_of_cons. Qed.

(** ** Reading a class *)

Definition ns_in fn (ns : bytes) : bool := match f_nodes fn !! ns with Some n => has_flags HDBNSNODE_FLAG n | None => false end.

(** What is thrown when the class is missing. *)
Definition missing_class fn (ns : bytes) (e : string) : string := if ns_in fn ns then e else INVALID_NAMESPACE_.

Abbreviation find_class e ns cn lo iq ic pl :=
  (rval ← on_classes_ (getCIMClass asserts true ns cn lo iq ic pl); checkGetClassRvalAndThrow true e rval ns).

Lemma class_found fn fi fm dc di x e ns cn c up lo iq ic pl shown :
  Stores fn fi fm dc di x -> text ns -> text cn -> resolved fm ns (_makeClassPath ns cn) c up -> filtered lo iq ic pl c = Ok shown ->
  wp (find_class e ns cn lo iq ic pl) (fun r x' => r = shown /\ Stores fn fi fm dc di x' /\ keeps x x') x.
Proof using fl il sl.
  intros Hx Hn Hc Hr Hs. wstep. apply wp_classes. eapply wp_mono; [eapply (getCIMClass_reads asserts); [apply Hx|done..]|].
  intros r m (-> & Hm & Hroom). cbn [checkGetClassRvalAndThrow]. wstep. split_and!; [done|by eapply stores_meta|by split].
Qed.

Lemma class_missing fn fi fm dc di x e ns cn lo iq ic pl :
  Stores fn fi fm dc di x -> key_ok ns -> text cn -> f_nodes fm !! _makeClassPath ns cn = None ->
  throws (find_class e ns cn lo iq ic pl) (missing_class fn ns e) (Stores fn fi fm dc di) x.
Proof using fl il sl.
  intros Hx Hn Hc Hk. apply throws_bind, wp_classes. eapply wp_mono; [eapply (getCIMClass_absent asserts); [apply Hx|apply Hn|done..]|].
  intros r m [-> Hm]. cbn [checkGetClassRvalAndThrow]. apply (stores_meta _ _ _ fm _ _ _ m) in Hx; [|done].
  apply throws_bind, wp_names. eapply wp_mono; [eapply nameSpaceExists_spec; [apply Hx|done]|]. intros b r (-> & Hr & _).
  apply (stores_names _ _ _ _ _ _ r) in Hx; [|done]. unfold missing_class, ns_in.
  destruct (f_nodes fn !! ns) as [n|]; [destruct (has_flags _ n)|]; done.
Qed.

Lemma getClass_found fn fi fm dc di x ns cn c up :
  Stores fn fi fm dc di x -> text ns -> text cn -> resolved fm ns (_makeClassPath ns cn) c up ->
  wp (_getClass asserts true ns cn) (fun r x' => r = c /\ Stores fn fi fm dc di x' /\ keeps x x') x.
Proof using fl il sl. intros. by eapply class_found. Qed.

Lemma getClass_missing fn fi fm dc di x ns cn :
  Stores fn fi fm dc di x -> key_ok ns -> text cn -> f_nodes fm !! _makeClassPath ns cn = None ->
  throws (_getClass asserts true ns cn) (missing_class fn ns NOT_FOUND_) (Stores fn fi fm dc di) x.
Proof using fl il sl. apply class_missing. Qed.

Lemma instGetClass_found fn fi fm dc di x ns cn c up :
  Stores fn fi fm dc di x -> text ns -> text cn -> resolved fm ns (_makeClassPath ns cn) c up ->
  wp (_instGetClass asserts true ns cn) (fun r x' => r = c /\ Stores fn fi fm dc di x' /\ keeps x x') x.
Proof using fl il sl. intros. by eapply class_found. Qed.

Lemma instGetClass_missing fn fi fm dc di x ns cn :
  Stores fn fi fm dc di x -> key_ok ns -> text cn -> f_nodes fm !! _makeClassPath ns cn = None ->
  throws (_instGetClass asserts true ns cn) (missing_class fn ns INVALID_CLASS_) (Stores fn fi fm dc di) x.
Proof using fl il sl. apply class_missing. Qed.

Lemma getC_found fn fi fm dc di x ns cn c up lo iq ic pl shown :
  Stores fn fi fm dc di x -> text ns -> text cn -> resolved fm ns (_makeClassPath ns cn) c up -> filtered lo iq ic pl c = Ok shown ->
  wp (cim_getClass asserts true ns cn lo iq ic pl) (fun r x' => r = shown /\ Stores fn fi fm dc di x') x.
Proof using fl il sl. intros. apply wp_catching. eapply wp_mono; [by eapply class_found|]. by intros r x1 (-> & ? & _). Qed.

Lemma missing_kind fn ns e : kind_of e = KCim -> kind_of (missing_class fn ns e) = KCim.
Proof using. intros E. unfold missing_class. by destruct (ns_in fn ns). Qed.

Lemma getC_missing fn fi fm dc di x ns cn lo iq ic pl :
  Stores fn fi fm dc di x -> key_ok ns -> text cn -> f_nodes fm !! _makeClassPath ns cn = None ->
  throws (cim_getClass asserts true ns cn lo iq ic pl) (missing_class fn ns NOT_FOUND_) (Stores fn fi fm dc di) x.
Proof using fl il sl. intros. apply throws_guarded; [by apply missing_kind|]. by apply class_missing. Qed.

(** ** Creating a class *)

(** The property is no reference, or its class is there. *)
Definition sound_reference fm ns (o : option (PROPData CIMValueImpl)) : Prop :=
  exists p dt, o = Some p /\ p_propertyDataType p = Some dt /\
    (m_type dt = REFERENCE -> text (m_reference dt) /\ exists c up, resolved fm ns (_makeClassPath ns (m_reference dt)) c up).

(** It is a reference to a class that is not there. *)
Definition dangling_reference fm ns (o : option (PROPData CIMValueImpl)) : Prop :=
  exists p dt, o = Some p /\ p_propertyDataType p = Some dt /\
    m_type dt = REFERENCE /\ text (m_reference dt) /\ f_nodes fm !! _makeClassPath ns (m_reference dt) = None.

Lemma reference_found fn fi fm dc di ns p x : text ns -> sound_reference fm ns (Some p) -> Stores fn fi fm dc di x ->
  wp (check_reference asserts true ns p) (fun _ x' => Stores fn fi fm dc di x' /\ keeps x x') x.
Proof using fl il sl.
  intros Hn (p' & dt & [= <-] & Edt & Hr) Hx. unfold check_reference. rewrite Edt. wstep. apply wp_ret.
  destruct (m_type dt =? REFERENCE) eqn:E; [|wstep; split; [done|apply keeps_refl]].
  apply Z.eqb_eq in E. destruct (Hr E) as (Ht & c & up & Hc). pose proof (getClass_found _ _ _ _ _ _ _ _ _ _ Hx Hn Ht Hc) as H.
  apply wp_run in H as (c1 & x1 & E1 & _ & Hx1). unfold wp, reference_class. by rewrite E1.
Qed.

Lemma references_found fn fi fm dc di ns ps : text ns -> Forall (sound_reference fm ns) ps -> forall x, Stores fn fi fm dc di x ->
  wp (check_references asserts true ns ps) (fun _ x' => Stores fn fi fm dc di x' /\ keeps x x') x.
Proof using fl il sl.
  intros Hn. induction 1 as [|o ps Ho _ IH]; intros x Hx; cbn [check_references]; [wstep; split; [done|apply keeps_refl]|].
  pose proof Ho as (p & dt & -> & _). wstep. apply wp_ret. wstep. eapply wp_mono; [by eapply reference_found|]. intros u x1 [Hx1 Hk1].
  eapply wp_mono; [by apply IH|]. intros u2 x2 [Hx2 Hk2]. split; [done|by eapply keeps_trans].
Qed.

Lemma reference_missing fn fi fm dc di ns ps1 o ps2 : key_ok ns -> Forall (sound_reference fm ns) ps1 -> dangling_reference fm ns o -> forall x, Stores fn fi fm dc di x ->
  throws (check_references asserts true ns (ps1 ++ o :: ps2)) (missing_class fn ns CIM_INVALID_PARAMETER) (Stores fn fi fm dc di) x.
Proof using fl il sl.
  intros Hn. induction 1 as [|o1 ps1 Hs1 Hs IH]; intros Ho x Hx; cbn [check_references app].
  - destruct Ho as (p & dt & -> & Edt & E & Ht & Hk). apply throws_bind, wp_ret, throws_bind_l. unfold check_reference. rewrite Edt. apply throws_bind, wp_ret.
    rewrite E, Z.eqb_refl. pose proof (getClass_missing _ _ _ _ _ _ _ _ Hx Hn Ht Hk) as H. unfold throws, reference_class in *.
    destruct (_getClass asserts true ns (m_reference dt) x) as [[a|e'| |] x1]; try done.
    destruct H as [-> Hx1]. split; [|done]. unfold missing_class. by destruct (ns_in fn ns).
  - pose proof Hs1 as (p & dt & -> & _). apply throws_bind, wp_ret, throws_bind. eapply wp_mono; [eapply reference_found; [apply Hn|done..]|].
    intros u x1 [Hx1 _]. by apply IH.
Qed.

(** What the association index does for an association, and for another class. *)
Definition indexed (assoc : bool) (m : Prog D ()) (d d' : D) : Prop := if assoc then m d = (Ok (), d') else d' = d.

Lemma wp_classAssoc fn fi fm dc dc' di x (assoc : bool) (m : Prog D ()) :
  Stores fn fi fm dc di x -> indexed assoc m dc dc' ->
  wp (if assoc then on_classAssoc m else mret ()) (fun _ x' => Stores fn fi fm dc' di x') x.
Proof using. intros [] Hi. destruct assoc; simpl in Hi; [|by subst]. subst. unfold wp, on_classAssoc. rewrite Hi. by constructor. Qed.

Lemma wp_instAssoc fn fi fm dc di di' x (assoc : bool) (m : Prog D ()) :
  Stores fn fi fm dc di x -> indexed assoc m di di' ->
  wp (if assoc then on_instAssoc m else mret ()) (fun _ x' => Stores fn fi fm dc di' x') x.
Proof using. intros [] Hi. destruct assoc; simpl in Hi; [|by subst]. subst. unfold wp, on_instAssoc. rewrite Hi. by constructor. Qed.

Abbreviation class_data := (writeObject (CIMBase := Class_base asserts)).
Abbreviation createC := (cim_createClass asserts true equal).

(** The class can be stored as [c'] below the node [pk]; completed it is [full]. *)
Record class_fits x fi fm ns c qs c' pk full up : Prop := {
  cf_ns : key_ok ns;
  cf_name : text (cc_name c);
  cf_named : cc_name c <> [];
  cf_references : Forall (sound_reference fm ns) (cc_properties c);
  cf_qualifiers : Forall2 (flavored asserts fm ns) (cc_qualifiers c) qs;
  cf_adjusted : adjusted asserts equal fm ns (cls_quals c qs) c' pk;
  cf_full : completes asserts fm ns c' full up;
  cf_stored : cls_ok c' /\ Forall value_ok (cls_values c');
  cf_node : exists n, f_nodes fi !! ns = Some n /\ has_flags HDBNSNODE_FLAG n = true;
  cf_room : forall d, class_data c' = Ok d -> room (r_st (mr_repo (meta_of x))) (_makeClassPath ns (cc_name c)) d;
  cf_room_inst : let ck := makeClassKey ns (cc_name c) in room (r_st (m_iStore (c_stores x))) ck (name_data ck);
}.

Definition fi_with fi ns c : Forest := let ck := makeClassKey ns (cc_name c) in f_attach ns ck (name_data ck) class_flags fi.
Definition fm_with fm ns c c' pk (d : bytes) : Forest := f_attach pk (_makeClassPath ns (cc_name c)) d (HDBCLSASSOC c') fm.

Lemma adjusted_name fm ns c qs c' pk : adjusted asserts equal fm ns (cls_quals c qs) c' pk -> cc_name c' = cc_name c.
Proof using. intros H. by destruct (adjusted_names _ _ _ _ _ _ _ H). Qed.

Lemma completes_name fm ns c' full up : completes asserts fm ns c' full up -> cc_name full = cc_name c'.
Proof using nl.
  destruct 1 as [full _ ->%mark_keyed_shape|p up y full _ pk _ ->%mark_keyed_shape (_ & _ & _ & E & _)%propagate_spec]; done.
Qed.

(** The part in the meta store. *)
Lemma meta_created fn fi fm dc di x ns c qs c' pk full up d :
  Stores fn fi fm dc di x -> class_fits x fi fm ns c qs c' pk full up -> f_nodes fm !! _makeClassPath ns (cc_name c) = None -> class_data c' = Ok d ->
  wp (check_references asserts true ns (cc_properties c) ;; on_classes_ (createClass asserts true equal ns c))
    (fun r x' => r = c' /\ Stores fn fi (fm_with fm ns c c' pk d) dc di x' /\ m_iStore (c_stores x') = m_iStore (c_stores x)) x.
Proof using fl il sl.
  intros Hx [] Hk Hw. wstep. eapply wp_mono; [eapply references_found; [apply cf_ns0|done..]|]. intros _ x1 [Hx1 [Hroom Ei]].
  apply wp_classes. eapply wp_mono; [eapply (createClass_stored asserts equal); [apply Hx1|apply cf_ns0|done..|by apply Hroom, cf_room0]|].
  intros r m (f' & Hm & -> & ->). split_and!; [done| |done]. by eapply stores_meta.
Qed.

Lemma full_resolved fm ns c qs c' pk full up d :
  adjusted asserts equal fm ns (cls_quals c qs) c' pk -> completes asserts fm ns c' full up -> f_nodes fm !! _makeClassPath ns (cc_name c) = None ->
  readObject (CIMBase := Class_base asserts) d = Ok c' -> resolved (fm_with fm ns c c' pk d) ns (_makeClassPath ns (cc_name c)) full up.
Proof using. intros Ha Hc Hk Hd. by eapply (completed_attach asserts equal). Qed.

Lemma createC_new fn fi fm dc dc' di x ns c qs c' pk full up d :
  Stores fn fi fm dc di x -> class_fits x fi fm ns c qs c' pk full up ->
  f_nodes fm !! _makeClassPath ns (cc_name c) = None -> f_nodes fi !! makeClassKey ns (cc_name c) = None ->
  class_data c' = Ok d -> readObject (CIMBase := Class_base asserts) d = Ok c' ->
  indexed (cc_associationFlag full) (addClassEntries ns full) dc dc' ->
  wp (createC ns c) (fun _ x' => Stores fn (fi_with fi ns c) (fm_with fm ns c c' pk d) dc' di x') x.
Proof using fl il sl nl.
  intros Hx Hfit Hk Hck Hw Hrd Hi. pose proof (meta_created _ _ _ _ _ _ _ _ _ _ _ _ _ _ Hx Hfit Hk Hw) as H. destruct Hfit.
  unfold cim_createClass. apply wp_catching. apply wp_bind_inv in H. wstep. eapply wp_mono; [exact H|]. intros u x1 H1. wstep.
  eapply wp_mono; [exact H1|]. intros r x2 (-> & Hx2 & Ei). cbn beta. rewrite (adjusted_name _ _ _ _ _ _ cf_adjusted0). destruct cf_node0 as (n & Hn & Hf).
  wstep. apply wp_instances. eapply wp_mono; [eapply createClass_new; [apply Hx2|done..|by rewrite Ei]|]. intros _ r [Hr _].
  apply (stores_inst _ _ (fi_with fi ns c) _ _ _ _ r) in Hx2; [|done]. wstep.
  eapply wp_mono; [eapply getClass_found; [done|apply cf_ns0|done|by eapply full_resolved]|]. intros c1 x3 (-> & Hx3 & _). by eapply wp_classAssoc.
Qed.

(** The reasons of the repository to refuse a class; the meta store has others. *)
Inductive class_refused fn fi fm ns c : string -> Prop :=
| cr_reference ps1 o ps2 :
    cc_properties c = ps1 ++ o :: ps2 -> Forall (sound_reference fm ns) ps1 -> dangling_reference fm ns o ->
    class_refused fn fi fm ns c (missing_class fn ns CIM_INVALID_PARAMETER)
| cr_meta msg : Forall (sound_reference fm ns) (cc_properties c) -> refused asserts equal fm ns c msg -> kind_of msg = KCim -> class_refused fn fi fm ns c msg.

Lemma createC_refused fn fi fm dc di x ns c msg :
  Stores fn fi fm dc di x -> key_ok ns -> class_refused fn fi fm ns c msg -> throws (createC ns c) msg (Stores fn fi fm dc di) x.
Proof using fl il sl.
  intros Hx Hn Href. unfold cim_createClass. destruct Href as [ps1 o ps2 E H1 Ho|msg Hs Href Hk].
  - apply throws_guarded; [unfold missing_class; by destruct (ns_in fn ns)|]. apply throws_bind_l. rewrite E. by eapply reference_missing.
  - apply throws_guarded; [done|]. apply throws_bind. eapply wp_mono; [eapply references_found; [apply Hn|done..]|]. intros _ x1 [Hx1 _].
    apply throws_bind_l, throws_classes. eapply throws_mono; [eapply (createClass_refused asserts equal); [apply Hx1|apply Hn|done]|].
    intros m Hm. by eapply stores_meta.
Qed.

(** ** Enumerations *)

(** What holds inside the scope of a handle of the meta store. *)
Record Inside hs v A fn fi fm dc di x : Prop := {
  in_live : exists l, Live asserts hs v A fm l (meta_of x);
  in_names : RepoOk (m_nStore (c_stores x)) fn;
  in_inst : RepoOk (m_iStore (c_stores x)) fi;
  in_classAssoc : m_classAssocDb x = dc;
  in_instAssoc : m_instAssocDb x = di;
}.

Lemma inside_meta hs v A fn fi fm dc di x l m : Inside hs v A fn fi fm dc di x -> Live asserts hs v A fm l m -> Inside hs v A fn fi fm dc di (set_meta m x).
Proof using. intros [] Hm. constructor; [by exists l|done..]. Qed.

Lemma inside_db hs v A fn fi fm dc di x : Inside hs v A fn fi fm dc di x -> DbV (r_st (mr_repo (meta_of x))) v A fm.
Proof using. intros [[l Hl] _ _ _ _]. apply Hl. Qed.

Lemma inside_reads hs v A fn fi fm dc di B (p : Prog (St F I) B) (R : B -> Prop) x Q :
  Inside hs v A fn fi fm dc di x -> (forall s, DbV s v A fm -> wp p (fun a s' => R a /\ DbV s' v A fm) s) ->
  (forall a x', R a -> Inside hs v A fn fi fm dc di x' -> Q a x') -> wp (on_meta meta_of set_meta (on_node p)) Q x.
Proof using.
  intros Hx Hp HQ. destruct (in_live _ _ _ _ _ _ _ _ _ Hx) as [l Hl]. apply wp_classes. eapply (live_on_node asserts p R); [done..|].
  intros a m Ha Hm. apply HQ; [done|]. by eapply inside_meta.
Qed.

Lemma handler_scope_reads {B} fn fi fm dc di x (body : Prog CR B) (R : B -> Prop) :
  Stores fn fi fm dc di x ->
  (forall hs v A x1, Inside hs v A fn fi fm dc di x1 -> wp body (fun a x2 => R a /\ Inside hs v A fn fi fm dc di x2) x1) ->
  wp (handler_scope true meta_of set_meta body) (fun a x' => R a /\ Stores fn fi fm dc di x') x.
Proof using.
  intros [Hn Hi Hm Hc Ha] Hb. unfold wp, handler_scope. match goal with |- context [with_handle _ ?i _] => set (inner := i) end.
  destruct (class_at _ _ _ Hm) as (l & Hl). destruct (with_handle_spec (mr_repo (meta_of x)) fm inner (mo_repo _ _ (ca_meta _ _ _ _ Hl))) as (r1 & Hr1 & _ & Hw).
  destruct (scope_live asserts _ fm l r1 Hl Hr1) as (v & A & HL).
  set (x1 := set_meta (mkMeta r1 (m_classCache (meta_of x)) (m_qualCache (meta_of x))) x).
  assert (Inside (m_handles r1) v A fn fi fm dc di x1) as Hx1 by (constructor; [by exists l|done..]).
  specialize (Hb _ _ _ _ Hx1). apply wp_run in Hb as (a & x2 & E & HR & [[l2 HL2] Hn2 Hi2 Hc2 Ha2]). destruct (live_done _ _ _ _ _ _ _ HL2) as [[[Hr2 Hq] Hcl] Hs].
  destruct (Hw (Ok (Ok a, x2)) (mr_repo (meta_of x2)) fm) as (r' & Er & Hr' & _); [unfold inner; fold x1; by rewrite E|done..|].
  rewrite Er. split; [done|]. constructor; try done.
Qed.

(** The node whose children are enumerated. *)
Definition enum_key ns (cn : bytes) : bytes := if bool_decide (cn = []) then class_container ns else _makeClassPath ns cn.

Record enum_root fm ns cn (n : FNode) : Prop := {
  er_ns : text ns;
  er_name : text cn;
  er_node : f_nodes fm !! enum_key ns cn = Some n;
  er_container : cn = [] -> has_flags HDBNSNODE_FLAG n = true;
  er_classes : forall k m, k ∈ fn_children n -> f_nodes fm !! k = Some m -> has_flags HDBNSNODE_FLAG m = false;
}.

Lemma wp_enum_parent hs v A fn fi fm dc di x ns cn n (Q : HDBNodeData -> CR -> Prop) :
  Inside hs v A fn fi fm dc di x -> enum_root fm ns cn n ->
  (forall p x', Held v A (enum_key ns cn) p -> Inside hs v A fn fi fm dc di x' -> Q p x') ->
  wp (on_meta meta_of set_meta (enum_parent ns cn)) Q x.
Proof using fl il sl.
  intros Hx [Hn Hc Hk Hf _] HQ. destruct (in_live _ _ _ _ _ _ _ _ _ Hx) as [l Hl]. apply wp_classes. unfold enum_parent, enum_key in *. case_bool_decide as Ec.
  - wstep. eapply (live_on_node asserts _ (fun o => exists p, o = Some p /\ Held v A (class_container ns) p)); [done| |].
    + intros s Hd. unfold getNameSpaceNode. pose proof (class_container_ok ns Hn) as Hkk. rewrite bool_decide_false by apply Hkk.
      wstep. eapply hold_getNode; [done..|]. intros s' [nd|] Hd' Hg; simpl in Hg; [|congruence].
      rewrite (areAllFlagsOn_has nd n), (Hf Ec) by (by eapply held_flags). cbn [negb]. wstep. eauto.
    + intros o m' (p & -> & Hh) Hm'. wstep. apply HQ; [done|]. by eapply inside_meta.
  - wstep. eapply live_getNode; [done|by apply makeClassPath_ok|]. intros [nd|] m1 Hg Hm1; simpl in Hg; [|congruence].
    wstep. apply HQ; [done|]. by eapply inside_meta.
Qed.

(** An enumeration whose handler only reads gives the results of the listing. *)
Lemma enum_nodes_spec {B} fn fi fm dc di x ns cn n deep out (visit : HDBNodeData -> Prog CR B) (R : bytes -> B -> Prop) :
  Stores fn fi fm dc di x -> enum_root fm ns cn n -> listing fm deep (fn_children n) out ->
  (forall hs v A k nd x1, k ∈ out -> Held v A k nd -> Inside hs v A fn fi fm dc di x1 ->
     wp (visit nd) (fun a x2 => R k a /\ Inside hs v A fn fi fm dc di x2) x1) ->
  wp (enum_nodes true meta_of set_meta ns cn deep visit) (fun l x' => Forall2 R out l /\ Stores fn fi fm dc di x') x.
Proof using fl il sl.
  intros Hx Hroot Hlist Hv. unfold enum_nodes. wstep. apply wp_classes, wp_on_repo. eapply wp_throwIfNotOpen; [apply Hx|].
  assert (Stores fn fi fm dc di (set_meta (mkMeta (mr_repo (meta_of x)) (m_classCache (meta_of x)) (m_qualCache (meta_of x))) x)) as Hx0.
  { eapply stores_meta; [done|]. destruct (meta_of x) eqn:E. cbn. rewrite <- E. apply Hx. }
  apply (handler_scope_reads fn fi fm dc di); [done|]. intros hs v A x1 Hx1. wstep. eapply wp_enum_parent; [done..|]. intros p x2 Hp Hx2.
  pose proof (er_node _ _ _ _ Hroot) as Hn. wstep.
  apply (inv_walk meta_of set_meta v A fm (Inside hs v A fn fi fm dc di) (inside_reads hs v A fn fi fm dc di) ToFirstChild (enum_key ns cn) p n); [done..|].
  intros first nd' x3 Hfirst Hx3. cbn in Hfirst. cbv beta iota. wstep.
  assert (Forest_ok fm) as Hfo by (eapply Db_forest_ok, DbV_Db; by eapply inside_db). destruct (fo_children fm Hfo _ _ Hn) as [Hnd _].
  eapply (inside_reads _ _ _ _ _ _ _ _ _ _ (fun fuel => (length out <= fuel)%nat)); [done| |].
  - intros s Hd. split; [|done]. eapply nodes_fuel; [by eapply DbV_Db|by eapply listing_nodup; [..|by eapply siblings_children|]|].
    intros k Hk. by eapply (listing_in fm deep); [..|by eapply siblings_children|].
  - intros fuel x4 Hfuel Hx4.
    apply (class_nodes_spec meta_of set_meta v A fm (Inside hs v A fn fi fm dc di) (inside_db hs v A fn fi fm dc di) (inside_reads hs v A fn fi fm dc di)
      visit R deep (fn_children n) out Hlist fuel true (fn_children n) []); try done.
    + by eapply row_children.
    + intros _ k m. apply Hroot.
    + intros k nd x5 Hk Hh Hx5. by apply Hv.
Qed.

(** The name is the one of the whole object. *)
Lemma class_name_read b c : readObject (CIMBase := Class_base asserts) b = Ok c -> ((_ ← readSigV SIG_C SIG_Cv CIMClass_VERSION; readName) b).1 = Ok (cc_name c).
Proof using.
  cbn. unfold read_from, CIMClass_readObject, with_values, readClass. intros (o & Ho & Hc)%outcome_bind_ok. revert Ho.
  unfold mbind, Prog_bind. cbn. destruct (readSigV SIG_C SIG_Cv CIMClass_VERSION b) as [[vv| | |] b1]; try done.
  destruct (readName b1) as [[name| | |] b2]; try done. cbn.
  repeat match goal with |- context [match ?m with pair _ _ => _ end] => destruct m as [[?| | |] ?]; try done end.
  cbn. intros [= <-]. by injection Hc as <-.
Qed.

Abbreviation class_at fm k c := (stores (cb := Class_base asserts) fm k c).

Lemma visit_name hs v A fn fi fm dc di x k nd c :
  Inside hs v A fn fi fm dc di x -> Held v A k nd -> class_at fm k c -> _getClassNameFromNode nd = Ok (cc_name c).
Proof using fl il.
  intros Hx Hh (n & Hn & Hc). unfold _getClassNameFromNode. rewrite (held_data _ _ _ _ _ _ _ (inside_db _ _ _ _ _ _ _ _ _ Hx) Hh Hn). by apply class_name_read.
Qed.

Lemma visit_class {B} hs v A fn fi fm dc di x ns k nd c up c1 lo iq ic (handle : Cls -> Prog CR B) Q :
  Inside hs v A fn fi fm dc di x -> Held v A k nd -> resolved fm ns k c up -> cls_clone lo iq ic [] false c = Ok c1 ->
  (forall x1, Inside hs v A fn fi fm dc di x1 -> wp (handle c1) Q x1) ->
  wp (c ← on_meta meta_of set_meta (_getClassFromNode asserts nd ns); c ← of_outcome (cls_clone lo iq ic [] false c); handle c) Q x.
Proof using fl il.
  intros Hx Hh Hr Hc HQ. destruct (in_live _ _ _ _ _ _ _ _ _ Hx) as [l Hl]. wstep. apply wp_classes.
  eapply wp_mono; [by eapply _getClassFromNode_spec|]. intros c' m (-> & l' & Hm & _). wstep. eapply wp_outcome; [exact Hc|].
  apply HQ. by eapply inside_meta.
Qed.

(** The paths of the instances of the class itself. *)
Definition instances_of fi ns c (ps : list CIMObjectPath) : Prop :=
  text (cc_name c) /\ exists n, f_nodes fi !! makeClassKey ns (cc_name c) = Some n /\ has_flags HDBCLSNODE_FLAG n = true /\
    Forall2 (shows asserts (path_of asserts cast ns c) fi) (fn_children n) ps.

Lemma instance_names_found r fi ns c ps : RepoOk r fi -> key_ok ns -> instances_of fi ns c ps ->
  wp (getInstanceNames asserts true cast ns c) (fun l r' => l = ps /\ RepoOk r' fi) r.
Proof using fl il sl. intros Hr Hn (Ht & n & Hk & Hf & Hps). by apply (class_instances_found asserts (path_of asserts cast ns c) r fi ns (cc_name c) n ps). Qed.

(** The class at node [k] as an enumeration shows it. *)
Definition shown_class fm ns lo iq ic (k : bytes) c1 : Prop := exists c up, resolved fm ns k c up /\ cls_clone lo iq ic [] false c = Ok c1.

Definition listed fi fm ns (k : bytes) (ps : list CIMObjectPath) : Prop := exists c1, shown_class fm ns false true true k c1 /\ instances_of fi ns c1 ps.

Lemma listing_below fm p n deep out k : Forest_ok fm -> f_nodes fm !! p = Some n -> listing fm deep (fn_children n) out ->
  k ∈ out <-> is_Some (f_nodes fm !! k) /\ if deep then f_below fm p k /\ k <> p else k ∈ fn_children n.
Proof using.
  intros Hf Hn Hl. pose proof (siblings_children fm p n Hf Hn) as Hch. destruct deep.
  - split.
    + intros Hk. destruct (listing_in _ _ _ _ p k Hf Hl Hch Hk) as (Hs & c & Hc & Hb). split_and!; [done|eapply below_trans; [by eapply child_below|done]|].
      intros ->. by eapply not_below_child.
    + intros (_ & Hb & Hne). destruct (below_step fm p n k Hf Hn Hb) as [->|(c & Hc & Hbc)]; [done|]. by eapply listing_all.
  - assert (out = fn_children n) as ->. { clear Hn Hch. induction Hl as [|k' l out _ _ IH|? ? ? ? ? [=]]; [done|]. by f_equal. }
    split; [|naive_solver]. intros Hk. split; [|done]. destruct (Hch k Hk) as (m & Hm & _). eauto.
Qed.

(** ** Deleting a class *)

Lemma spelled ns cn cn' : toLowerCase cn = toLowerCase cn' -> _makeClassPath ns cn = _makeClassPath ns cn'.
Proof using. intros E. unfold _makeClassPath. by rewrite E. Qed.

Lemma deleteC_leaf fn fi fm dc dc' di x ns cn n n' full up :
  Stores fn fi fm dc di x -> key_ok ns -> text cn -> cn <> [] -> text (cc_name full) -> toLowerCase cn = toLowerCase (cc_name full) ->
  let k := _makeClassPath ns (cc_name full) in let ck := makeClassKey ns (cc_name full) in
  resolved fm ns k full up -> f_nodes fm !! k = Some n -> fn_children n = [] ->
  f_nodes fi !! ck = Some n' -> has_flags HDBCLSNODE_FLAG n' = true ->
  indexed (cc_associationFlag full) (deleteClassEntries ns full) dc dc' ->
  wp (cim_deleteClass asserts true ns cn) (fun r x' => r = full /\ exists fi' fm', f_prune fi fi' ck /\ f_prune fm fm' k /\ Stores fn fi' fm' dc' di x') x.
Proof using fl il sl.
  intros Hx Hns Hcn Hne Hfn El k ck Hr Hk Hch Hck Hf Hi. pose proof (spelled ns _ _ El) as Ek. fold k in Ek.
  unfold cim_deleteClass. apply wp_catching. wstep. eapply wp_mono; [eapply getClass_found; [done|apply Hns|done|by rewrite Ek]|].
  intros c x1 (-> & Hx1 & _). wstep. unfold enumClasses, enumClass. apply wp_catching.
  eapply wp_mono; [eapply (enum_nodes_spec _ _ _ _ _ _ _ _ n true [] _ (fun _ _ => True)); [done| | |]|].
  - constructor; [apply Hns|done| |done|]; unfold enum_key; [rewrite bool_decide_false by done; by rewrite Ek|]. rewrite Hch. by intros ? ? ?%not_elem_of_nil.
  - rewrite Hch. constructor.
  - by intros ? ? ? ? ? ? ?%not_elem_of_nil.
  - intros l x2 [_ Hx2]. wstep. unfold deleter. wstep. apply wp_classes. destruct (resolves_node _ _ _ _ _ _ Hr) as (n0 & y & Hn0 & Hy). assert (n0 = n) as -> by congruence.
    eapply wp_mono; [eapply (deleteClass_leaf asserts); [apply Hx2|apply Hns|done..]|]. intros b m (fm' & Hm & -> & Hp). cbn [negb].
    apply (stores_meta _ _ _ fm' _ _ _ m) in Hx2; [|done]. wstep. apply wp_instances.
    pose proof (deleteClass_spec _ fi ns (cc_name full) (st_inst _ _ _ _ _ _ Hx2) Hns Hfn) as Hd. cbv zeta in Hd. fold ck in Hd. rewrite Hck, Hf in Hd.
    eapply wp_mono; [exact Hd|]. intros u r [(fi' & Hpi & Hri) _]. apply (stores_inst _ _ fi' _ _ _ _ r) in Hx2; [|done].
    eapply wp_mono; [by eapply wp_classAssoc|]. intros u2 x3 Hx3. wstep. split; [done|]. by exists fi', fm'.
Qed.

Lemma instanceNames_spec fn fi fm dc di x ns cn n (deep : bool) out c up ps :
  Stores fn fi fm dc di x -> enum_root fm ns cn n -> listing fm deep (fn_children n) out ->
  key_ok ns -> cn <> [] -> equalsIgnoreCase cn NAMESPACE_CLASS = false -> resolved fm ns (_makeClassPath ns cn) c up ->
  instances_of fi ns c ps -> (forall k, k ∈ out -> exists ps, listed fi fm ns k ps) ->
  wp (enumInstanceNames asserts true cast ns cn deep)
    (fun l x' => (exists pss, Forall2 (listed fi fm ns) (if deep then out else []) pss /\ l = ps ++ concat pss) /\ Stores fn fi fm dc di x') x.
Proof using fl il sl.
  intros Hx Hroot Hl Hns Hcn Hnot Hr Hps Hc. apply wp_catching. wstep. eapply wp_mono; [by eapply instGetClass_found; [..|apply Hroot|apply Hroot|]|].
  intros c' x1 (-> & Hx1 & _). wstep. unfold instance_names. apply wp_instances. eapply wp_mono; [by eapply instance_names_found; [apply Hx1|..]|].
  intros l r [-> Hr1]. apply (stores_inst _ _ fi _ _ _ _ r) in Hx1; [|done]. rewrite Hnot. destruct deep; cbn [orb negb].
  - wstep. eapply wp_mono; [eapply (enum_nodes_spec _ _ _ _ _ _ _ _ _ _ _ _ (listed fi fm ns)); [done..|]|].
    + intros hs v A k nd x2 Hk Hh Hx2. destruct (Hc k Hk) as (qs & c1 & (c0 & up0 & Hr0 & E0) & Hq). eapply visit_class; [done..|]. intros x3 [Hl3 Hn3 Hi3 Hc3 Ha3].
      apply wp_instances. eapply wp_mono; [by eapply instance_names_found|]. intros l r3 [-> Hr3]. split; [exists c1; split; [by exists c0, up0|done]|]. by constructor.
    + intros pss x2 [Hpss Hx2]. wstep. split; [by exists pss|done].
  - wstep. split; [|done]. exists []. split; [constructor|by rewrite app_nil_r].
Qed.

(** C26: the enumerations walk over the classes below a class, or below a
   namespace, and end: each class is visited once, when [deep] all sub-classes
   and otherwise those right below.  [enumClassNames] gives their names,
   [enumClasses] the completed classes as the flags ask for them, and
   [enumInstanceNames] the paths of the instances of the class followed by those
   of its sub-classes; nothing is changed. *)
Theorem classes_enumerated fn fi fm dc di x ns cn n (deep : bool) :
  Stores fn fi fm dc di x -> enum_root fm ns cn n ->
  exists out, NoDup out /\
    (forall k, k ∈ out <-> is_Some (f_nodes fm !! k) /\ if deep then f_below fm (enum_key ns cn) k /\ k <> enum_key ns cn else k ∈ fn_children n) /\
    ((forall k, k ∈ out -> exists c, class_at fm k c) ->
       wp (cim_enumClassNames true ns cn (mret (M := Prog CR)) deep)
         (fun names x' => Forall2 (fun k name => exists c, class_at fm k c /\ name = cc_name c) out names /\ Stores fn fi fm dc di x') x) /\
    (forall lo iq ic, (forall k, k ∈ out -> exists c, shown_class fm ns lo iq ic k c) ->
       wp (enumClasses asserts true ns cn (mret (M := Prog CR)) deep lo iq ic)
         (fun cs x' => Forall2 (shown_class fm ns lo iq ic) out cs /\ Stores fn fi fm dc di x') x) /\
    (forall c up ps, key_ok ns -> cn <> [] -> equalsIgnoreCase cn NAMESPACE_CLASS = false -> resolved fm ns (_makeClassPath ns cn) c up ->
       instances_of fi ns c ps -> (forall k, k ∈ out -> exists ps, listed fi fm ns k ps) ->
       wp (enumInstanceNames asserts true cast ns cn deep)
         (fun l x' => (exists pss, Forall2 (listed fi fm ns) (if deep then out else []) pss /\ l = ps ++ concat pss) /\ Stores fn fi fm dc di x') x).
Proof using fl il sl.
  intros Hx Hroot. assert (Forest_ok fm) as Hf by (eapply Db_forest_ok, Hx). pose proof (er_node _ _ _ _ Hroot) as Hn.
  destruct (listing_exists fm deep (fn_children n) _ Hf (siblings_children fm _ n Hf Hn)) as (out & Hl). exists out. split_and!.
  - eapply listing_nodup; [done..|by eapply siblings_children|]. by destruct (fo_children fm Hf _ _ Hn).
  - intros k. by apply listing_below.
  - intros Hc. apply wp_catching. unfold enumClassNames. eapply enum_nodes_spec; [done..|]. intros hs v A k nd x1 Hk Hh Hx1.
    destruct (Hc k Hk) as (c & Hck). wstep. eapply wp_outcome; [by eapply visit_name|]. wstep. eauto.
  - intros lo iq ic Hc. apply wp_catching. unfold enumClass. eapply enum_nodes_spec; [done..|]. intros hs v A k nd x1 Hk Hh Hx1.
    destruct (Hc k Hk) as (c1 & c & up & Hr & E). eapply visit_class; [done..|]. intros x2 Hx2. wstep. split; [by exists c, up|done].
  - intros c up ps Hns Hcn Hnot Hr Hps Hc. by eapply instanceNames_spec.
Qed.

(** ** A class that was created *)

Lemma createC_half fn fi fm dc di x ns c qs c' pk full up d n :
  Stores fn fi fm dc di x -> class_fits x fi fm ns c qs c' pk full up ->
  f_nodes fm !! _makeClassPath ns (cc_name c) = None -> f_nodes fi !! makeClassKey ns (cc_name c) = Some n -> class_data c' = Ok d ->
  throws (createC ns c) "CIMException::ALREADY_EXISTS" (Stores fn fi (fm_with fm ns c c' pk d) dc di) x.
Proof using fl il sl.
  intros Hx Hfit Hk Hck Hw. pose proof (meta_created _ _ _ _ _ _ _ _ _ _ _ _ _ _ Hx Hfit Hk Hw) as H. destruct Hfit.
  unfold cim_createClass. apply throws_guarded; [done|]. apply wp_bind_inv in H. apply throws_bind. eapply wp_mono; [exact H|]. intros u x1 H1. apply throws_bind.
  eapply wp_mono; [exact H1|]. intros r x2 (-> & Hx2 & _). cbn beta. rewrite (adjusted_name _ _ _ _ _ _ cf_adjusted0). destruct cf_node0 as (n0 & Hn & Hf).
  apply throws_bind_l, throws_instances. eapply throws_mono; [eapply createClass_duplicate; [apply Hx2|done..]|]. intros r [Hr _]. by eapply stores_inst.
Qed.

Lemma sound_attach fm pk k d flg ns ps : f_nodes fm !! k = None -> Forall (sound_reference fm ns) ps -> Forall (sound_reference (f_attach pk k d flg fm) ns) ps.
Proof using.
  intros Hk H. eapply Forall_impl; [exact H|]. intros o (p & dt & -> & E & Hr). exists p, dt. split_and!; [done..|]. intros Ht. destruct (Hr Ht) as (Htx & c & up & Hc).
  split; [done|]. exists c, up. by apply resolves_attach.
Qed.

(** Nothing is below it in the two stores. *)
Lemma new_class_node fm ns c c' pk d : f_nodes (fm_with fm ns c c' pk d) !! _makeClassPath ns (cc_name c) = Some (mkFNode d (HDBCLSASSOC c') pk []).
Proof using. unfold fm_with. by rewrite f_attach_nodes, decide_True. Qed.

Lemma new_inst_node fi ns c :
  f_nodes (fi_with fi ns c) !! makeClassKey ns (cc_name c) = Some (mkFNode (name_data (makeClassKey ns (cc_name c))) class_flags ns []).
Proof using. unfold fi_with. by rewrite f_attach_nodes, decide_True. Qed.

Lemma new_enum_root fm ns c c' pk d cn : text ns -> text cn -> cc_name c <> [] -> toLowerCase cn = toLowerCase (cc_name c) ->
  cn <> [] /\ enum_root (fm_with fm ns c c' pk d) ns cn (mkFNode d (HDBCLSASSOC c') pk []).
Proof using sl.
  intros Hn Hc Hne El. assert (cn <> []) as Hcn.
  { intros ->. apply Hne. apply nil_length_inv. by rewrite <- (toLowerCase_length (cc_name c)), <- El, toLowerCase_length. }
  split; [done|]. constructor; [done..| |done|]; [unfold enum_key; rewrite bool_decide_false by done; rewrite (spelled ns _ _ El); apply new_class_node|].
  by intros ? ? ?%not_elem_of_nil.
Qed.


(** ** Instances *)

Abbreviation getInst := (getCIMInstance asserts true cast value_toString asKeyString prop_lt).
Abbreviation createI := (cim_createInstance asserts true cast value_toString asKeyString prop_lt equal).
Abbreviation getI := (cim_getInstance asserts true cast value_toString asKeyString prop_lt).
Abbreviation deleteI := (cim_deleteInstance asserts true cast value_toString asKeyString prop_lt).
Abbreviation Path := (OPData CIMValueImpl).

Lemma getI_spec fn fi fm dc di x ns (d : Path) c up lo iq ic pl (P : Inst -> Prop) :
  Stores fn fi fm dc di x -> text ns -> text (op_objectName d) -> resolved fm ns (_makeClassPath ns (op_objectName d)) c up ->
  wp (getInst ns (Some d) c lo iq ic pl) (fun i r => P i /\ RepoOk r fi) (m_iStore (c_stores x)) ->
  wp (getI ns (Some d) lo iq ic pl) (fun r x' => r.2 = c /\ P r.1 /\ Stores fn fi fm dc di x') x.
Proof using fl il sl.
  intros Hx Hn Hc Hr Hg. unfold cim_getInstance. wstep. apply wp_ret. wstep. eapply wp_mono; [by eapply instGetClass_found|].
  intros c1 x1 (-> & Hx1 & _ & Ei). wstep. apply wp_catching, wp_instances. rewrite Ei. eapply wp_mono; [exact Hg|]. intros i r [HP Hri]. wstep.
  split_and!; [done..|]. by eapply stores_inst.
Qed.

Lemma getI_throws fn fi fm dc di x ns (d : Path) c up lo iq ic pl e :
  Stores fn fi fm dc di x -> text ns -> text (op_objectName d) -> resolved fm ns (_makeClassPath ns (op_objectName d)) c up -> kind_of e = KCim ->
  throws (getInst ns (Some d) c lo iq ic pl) e (fun r => RepoOk r fi) (m_iStore (c_stores x)) ->
  throws (getI ns (Some d) lo iq ic pl) e (Stores fn fi fm dc di) x.
Proof using fl il sl.
  intros Hx Hn Hc Hr Hk Hg. unfold cim_getInstance. apply throws_bind, wp_ret, throws_bind. eapply wp_mono; [by eapply instGetClass_found|].
  intros c1 x1 (-> & Hx1 & _ & Ei). apply throws_bind_l, throws_catching; [rewrite Hk; by intros [=]%list_elem_of_singleton|]. apply throws_instances. rewrite Ei.
  eapply throws_mono; [exact Hg|]. intros r Hri. by eapply stores_inst.
Qed.

Lemma getI_missing fn fi fm dc di x ns (d : Path) lo iq ic pl :
  Stores fn fi fm dc di x -> key_ok ns -> text (op_objectName d) -> f_nodes fm !! _makeClassPath ns (op_objectName d) = None ->
  throws (getI ns (Some d) lo iq ic pl) (missing_class fn ns INVALID_CLASS_) (Stores fn fi fm dc di) x.
Proof using fl il sl. intros. unfold cim_getInstance. apply throws_bind, wp_ret, throws_bind_l. by apply instGetClass_missing. Qed.

Lemma instance_path_class ns ci icop : instance_path ns ci = Ok icop -> op_objectName icop = ci_owningClassName ci /\ path_setNameSpace icop ns = Some icop.
Proof using. intros (ks & _ & [= <-])%outcome_bind_ok. done. Qed.

Lemma createI_with fn fi fm dc di x ns ci icop c up Q :
  Stores fn fi fm dc di x -> text ns -> text (ci_owningClassName ci) -> resolved fm ns (_makeClassPath ns (ci_owningClassName ci)) c up ->
  instance_path ns ci = Ok icop ->
  wp (createInstance asserts true cast value_toString asKeyString prop_lt equal ns c ci) (fun _ r => exists fi1, RepoOk r fi1 /\ Q fi1) (m_iStore (c_stores x)) ->
  forall di1, indexed (cc_associationFlag c) (addInstEntries ns ci) di di1 ->
  wp (createI ns ci) (fun p x' => p = icop /\ exists fi1, Stores fn fi1 fm dc di1 x' /\ Q fi1) x.
Proof using fl il sl.
  intros Hx Hn Hc Hr Ei Hcr di1 Hi. unfold cim_createInstance. wstep. eapply wp_outcome; [exact Ei|]. apply wp_catching. wstep.
  eapply wp_mono; [by eapply instGetClass_found|]. intros c1 x1 (-> & Hx1 & _ & Est). wstep. apply wp_instances. rewrite Est.
  eapply wp_mono; [exact Hcr|]. intros u r (fi1 & Hr1 & HQ). apply (stores_inst _ _ fi1 _ _ _ _ r) in Hx1; [|done]. wstep.
  eapply wp_mono; [by eapply wp_instAssoc|]. intros u2 x2 Hx2. wstep. split; [done|]. by exists fi1.
Qed.

Lemma createI_throws fn fi fm dc di x ns ci icop c up e :
  Stores fn fi fm dc di x -> text ns -> text (ci_owningClassName ci) -> resolved fm ns (_makeClassPath ns (ci_owningClassName ci)) c up ->
  instance_path ns ci = Ok icop -> kind_of e = KCim ->
  throws (createInstance asserts true cast value_toString asKeyString prop_lt equal ns c ci) e (fun r => RepoOk r fi) (m_iStore (c_stores x)) ->
  throws (createI ns ci) e (Stores fn fi fm dc di) x.
Proof using fl il sl.
  intros Hx Hn Hc Hr Ei Hk Hcr. unfold cim_createInstance. apply throws_bind. eapply wp_outcome; [exact Ei|]. apply throws_guarded; [done|]. apply throws_bind.
  eapply wp_mono; [by eapply instGetClass_found|]. intros c1 x1 (-> & Hx1 & _ & Est). apply throws_bind_l, throws_instances. rewrite Est.
  eapply throws_mono; [exact Hcr|]. intros r Hr1. by eapply stores_inst.
Qed.

(** Deleting an instance starts by reading it. *)
Lemma deleteI_with fn fi fm dc di x ns (d : Path) c up (P : Inst -> Prop) Q :
  Stores fn fi fm dc di x -> text ns -> text (op_objectName d) -> path_setNameSpace d ns = Some d -> resolved fm ns (_makeClassPath ns (op_objectName d)) c up ->
  wp (getInst ns (Some d) c false true true None) (fun i r => P i /\ RepoOk r fi) (m_iStore (c_stores x)) ->
  (forall old x1, P old -> Stores fn fi fm dc di x1 ->
     wp (has ← on_instAssoc (hasAssocEntries ns (Some d));
         if has : bool then throw FAILED_
         else (if cc_associationFlag c then on_instAssoc (deleteInstEntries ns old) else mret ()) ;;
              on_instances (deleteInstance asserts true cast value_toString asKeyString prop_lt ns (Some d) c) ;; mret old) Q x1) ->
  wp (deleteI ns (Some d)) Q x.
Proof using fl il sl.
  intros Hx Hn Hc Ens Hr Hg HQ. unfold cim_deleteInstance. wstep. apply wp_ret. wstep. rewrite Ens. apply wp_ret. apply wp_catching. wstep.
  eapply wp_mono; [by eapply getI_spec|]. intros [i c1] x1 (E & HP & Hx1). cbn in E, HP. subst c1. by apply HQ.
Qed.

Lemma deleteI_throws fn fi fm dc di x ns (d : Path) c up (P : Inst -> Prop) Q e :
  Stores fn fi fm dc di x -> text ns -> text (op_objectName d) -> path_setNameSpace d ns = Some d -> resolved fm ns (_makeClassPath ns (op_objectName d)) c up -> kind_of e = KCim ->
  wp (getInst ns (Some d) c false true true None) (fun i r => P i /\ RepoOk r fi) (m_iStore (c_stores x)) ->
  (forall old x1, P old -> Stores fn fi fm dc di x1 ->
     throws (has ← on_instAssoc (hasAssocEntries ns (Some d));
         if has : bool then throw FAILED_
         else (if cc_associationFlag c then on_instAssoc (deleteInstEntries ns old) else mret ()) ;;
              on_instances (deleteInstance asserts true cast value_toString asKeyString prop_lt ns (Some d) c) ;; mret old) e Q x1) ->
  throws (deleteI ns (Some d)) e Q x.
Proof using fl il sl.
  intros Hx Hn Hc Ens Hr Hk Hg HQ. unfold cim_deleteInstance. apply throws_bind, wp_ret, throws_bind. rewrite Ens. apply wp_ret. apply throws_guarded; [done|].
  apply throws_bind. eapply wp_mono; [by eapply getI_spec|]. intros [i c1] x1 (E & HP & Hx1). cbn in E, HP. subst c1. by apply HQ.
Qed.

Lemma wp_hasAssoc {B} fn fi fm dc di di' x (m : Prog D bool) b (k : bool -> Prog CR B) Q :
  Stores fn fi fm dc di x -> m di = (Ok b, di') -> (forall x1, Stores fn fi fm dc di' x1 -> wp (k b) Q x1) -> wp (has ← on_instAssoc m; k has) Q x.
Proof using. intros Hx E HQ. wstep. unfold wp at 1, on_instAssoc. rewrite (st_instAssoc _ _ _ _ _ _ Hx), E. apply HQ. destruct Hx. by constructor. Qed.

Lemma throws_hasAssoc fn fi fm dc di di' x (m : Prog D bool) (k : bool -> Prog CR Inst) :
  Stores fn fi fm dc di x -> m di = (Ok true, di') -> k true = throw FAILED_ -> throws (has ← on_instAssoc m; k has) FAILED_ (Stores fn fi fm dc di') x.
Proof using.
  intros Hx E Ek. apply throws_bind. unfold wp, on_instAssoc. rewrite (st_instAssoc _ _ _ _ _ _ Hx), E, Ek. split; [done|]. destruct Hx. by constructor.
Qed.

(** C24: an instance is reached through its class.  [createInstance] refuses a key
   that is taken.  Otherwise the path names no instance before, and after it
   [getInstance] finds the instance with its class, as the class has it, with its
   values; other instances stay, and a second [createInstance] is refused.
   [deleteInstance] refuses an instance that takes part in associations, and
   otherwise gives back the instance and the stores as they were.  An instance of
   an association is entered in the index of associations and taken out again. *)
Theorem repository_instances fn fi fm dc di x ns ci c up icop k ci1 :
  Stores fn fi fm dc di x -> resolved fm ns (_makeClassPath ns (ci_owningClassName ci)) c up ->
  creatable asserts cast value_toString asKeyString prop_lt equal (m_iStore (c_stores x)) fi ns c ci icop k ci1 ->
  match f_nodes fi !! k with
  | Some _ => throws (createI ns ci) "CIMException::ALREADY_EXISTS" (Stores fn fi fm dc di) x
  | None =>
      throws (getI ns (Some icop) false true true None) NOT_FOUND_ (Stores fn fi fm dc di) x /\
      throws (deleteI ns (Some icop)) NOT_FOUND_ (Stores fn fi fm dc di) x /\
      forall di1, indexed (cc_associationFlag c) (addInstEntries ns ci) di di1 ->
      wp (createI ns ci) (fun p x1 => p = icop /\ exists fi1, Stores fn fi1 fm dc di1 x1 /\
        (forall k' i, k' <> k -> stores (cb := Instance_base asserts) fi1 k' i <-> stores (cb := Instance_base asserts) fi k' i) /\
        wp (getI ns (Some icop) false true true None)
          (fun r x2 => r.2 = c /\ (ci_namespace r.1 = ns /\ restored asserts cast c ci r.1) /\ Stores fn fi1 fm dc di1 x2) x1 /\
        throws (createI ns ci) "CIMException::ALREADY_EXISTS" (Stores fn fi1 fm dc di1) x1 /\
        (forall di2, hasAssocEntries ns (Some icop) di1 = (Ok true, di2) ->
           throws (deleteI ns (Some icop)) FAILED_ (Stores fn fi1 fm dc di2) x1) /\
        (forall di2 di3, hasAssocEntries ns (Some icop) di1 = (Ok false, di2) ->
           (forall old, restored asserts cast c ci old -> indexed (cc_associationFlag c) (deleteInstEntries ns old) di2 di3) ->
           wp (deleteI ns (Some icop)) (fun old x2 => restored asserts cast c ci old /\ Stores fn fi fm dc di3 x2) x1)) x
  end.
Proof using fl il sl bl nl.
  intros Hx Hr Hcr. pose proof Hcr as []. destruct (instance_path_class _ _ _ cr_path) as [Eo Ens].
  assert (text ns) as Hn by apply cr_ns. assert (Forest_ok fi) as Hfi by (eapply Db_forest_ok, Hx).
  assert (text (op_objectName icop)) as Hto by (by rewrite Eo). assert (resolved fm ns (_makeClassPath ns (op_objectName icop)) c up) as Hro by (by rewrite Eo).
  destruct (f_nodes fi !! k) as [n|] eqn:Hk; [eapply createI_throws; [done..|]; eapply createInstance_duplicate; [apply Hx|done..]|].
  assert (throws (getI ns (Some icop) false true true None) NOT_FOUND_ (Stores fn fi fm dc di) x) as Hno.
  { eapply getI_throws; [done..|]. eapply getCIMInstance_absent; [apply Hx|done..]. }
  split_and!; [done| |].
  - unfold cim_deleteInstance. apply throws_bind, wp_ret, throws_bind. rewrite Ens. apply wp_ret. apply throws_guarded; [done|]. by apply throws_bind_l.
  - intros di1 Hi. destruct (creatable_written _ _ _ _ _ _ _ _ _ _ _ _ _ _ Hcr) as (d & Hw & Hd & Hroom).
    set (f1 := f_attach (makeClassKey ns (ci_owningClassName ci)) k d 0 fi). eapply wp_mono; [eapply (createI_with _ _ _ _ _ _ _ _ _ _ _ (fun fi1 => fi1 = f1)); [done..| |done]|].
    { eapply wp_mono; [eapply (createInstance_new asserts cast); [apply Hx|done..]|]. intros u r Hr1. cbn beta in Hr1. by exists f1. }
    intros p x1 (-> & fi1 & Hx1 & ->). split; [done|]. exists f1. split; [done|].
    assert (wp (getInst ns (Some icop) c false true true None) (fun i r => (ci_namespace i = ns /\ restored asserts cast c ci i) /\ RepoOk r f1) (m_iStore (c_stores x1))) as Hget.
    { eapply wp_mono; [eapply (created_get asserts cast value_toString asKeyString prop_lt equal _ fi ns c ci icop k ci1 Hcr d Hd); [apply Hx1|done]|].
      intros i r (? & ? & ?). done. }
    split_and!.
    + intros k' i Hne. by apply stores_attach_ne.
    + by apply (getI_spec _ f1 _ _ _ _ _ _ _ up _ _ _ _ (fun i => ci_namespace i = ns /\ restored asserts cast c ci i)).
    + eapply createI_throws; [done..|]. destruct (created_class asserts cast value_toString asKeyString prop_lt equal _ _ _ _ _ _ _ _ Hcr Hk d) as [_ Hcn].
      eapply createInstance_duplicate; [apply Hx1|done..|]. unfold f1. by rewrite f_attach_nodes, decide_True.
    + intros di2 Hh. apply (deleteI_throws fn f1 fm dc di1 x1 ns icop c up (fun i => ci_namespace i = ns /\ restored asserts cast c ci i)); [done..|]. intros old x2 _ Hx2. by eapply throws_hasAssoc.
    + intros di2 di3 Hh Hdel. apply (deleteI_with fn f1 fm dc di1 x1 ns icop c up (fun i => ci_namespace i = ns /\ restored asserts cast c ci i)); [done..|]. intros old x2 [_ Hold] Hx2. eapply wp_hasAssoc; [done..|]. intros x3 Hx3. cbv beta iota. wstep.
      eapply wp_mono; [eapply wp_instAssoc; [done|by apply Hdel]|]. intros u x4 Hx4. wstep. apply wp_instances.
      eapply wp_mono; [eapply deleteInstance_existing; [apply Hx4|done|done|by apply stores_attach]|]. intros u2 r (f2 & Hp & Hr2). wstep. split; [done|].
      unfold f1 in Hp. apply prune_attach in Hp; [|done..]. subst f2. by apply (stores_inst fn f1).
Qed.

(** ** Refusals *)

Lemma of_class {B} fn fi fm dc di x ns cn (k : Cls -> Prog CR B) :
  Stores fn fi fm dc di x -> key_ok ns -> text cn -> f_nodes fm !! _makeClassPath ns cn = None ->
  throws (c ← _instGetClass asserts true ns cn; k c) (missing_class fn ns INVALID_CLASS_) (Stores fn fi fm dc di) x.
Proof using fl il sl. intros. apply throws_bind_l. by apply instGetClass_missing. Qed.


End Repository.

(** ** A concrete repository *)

Module CimRepoEx.
Import Ref RefBlocxx ExRepo CimEx InstEx ClassEx.

(** An index that counts what is entered. *)
#[export] Instance counter : AssocIndex Z := {|
  addClassEntries _ _ n := (Ok (), n + 1); deleteClassEntries _ _ n := (Ok (), n - 1);
  addInstEntries _ _ n := (Ok (), n + 1); deleteInstEntries _ _ n := (Ok (), n - 1);
  hasAssocEntries _ _ n := (Ok (0 <? n), n) |}.

(** The namespace "a" with the class "A". *)
Definition x1 : CimRepo File Idx Z := mkCimRepo (mkCIMRepo r1 r2 m_base) 0 0.

Lemma x1_ok : Stores true f1 f2 f_base 0 0 x1.
Proof. constructor; [apply r1_ok|apply r2_ok|apply m_base_ok|done..]. Qed.

Lemma val_reference : Forall (sound_reference true f_base na) (cc_properties (sub_class (plain (txt "Val") 1))).
Proof. constructor; [|constructor]. eexists _, _. split_and!; [reflexivity..|]. by intros H%(f_equal (fun z => z =? UINT8)). Qed.

Lemma sub_full : completes true f_base na stored_sub shown_sub [_makeClassPath na (cc_parentClassName stored_sub)].
Proof. apply (cmp_child true f_base na stored_sub shown_base [] stored_sub shown_sub); [done|exact base_resolved|reflexivity|reflexivity]. Qed.

Lemma sub_class_fits : class_fits true equal_numbers x1 f2 f_base na (sub_class (plain (txt "Val") 1)) [] stored_sub base_key shown_sub
  [_makeClassPath na (cc_parentClassName stored_sub)].
Proof.
  constructor.
  - apply na_ok.
  - by apply Ex.key_of_list.
  - done.
  - apply val_reference.
  - apply List.Forall2_nil.
  - apply sub_adjusted.
  - apply sub_full.
  - apply sub_fits.
  - exists (mkFNode (name_data na) HDBNSNODE_FLAG [] [ck2]). split; by vm_compute.
  - apply sub_room.
  - pose proof content_small. unfold room. change (zlen (makeClassKey na (cc_name (sub_class (plain (txt "Val") 1))))) with 3.
    change (zlen (name_data (makeClassKey na (cc_name (sub_class (plain (txt "Val") 1)))))) with 4. change (r_st (m_iStore (c_stores x1))) with (r_st r2). lia.
Qed.
Lemma sub_absent : f_nodes f_base !! _makeClassPath na (cc_name (sub_class (plain (txt "Val") 1))) = None.
Proof. unfold f_base. rewrite f_attach_nodes, decide_False by done. by rewrite decide_False by (by intros []). Qed.


(** An instance of "A". *)
Definition i1 : INSTData CIMValueImpl := mkInst [] (txt "A") [Some (prop (txt "Id") 7)] [Some (prop (txt "Id") 7)] [] [].
Definition s1 : INSTData CIMValueImpl := mkInst [] (txt "A") [] [Some (bare (txt "Id") 7)] [] [].

Lemma one_prop (p q : PROPData CIMValueImpl) : Some p ∈ [Some q] -> p = q.
Proof. by intros [= ->]%list_elem_of_singleton. Qed.

Lemma sound1 : class_sound shown_base.
Proof.
  split.
  - apply distinct_intro; [apply distinct_nil|]. by intros ? ?%not_elem_of_nil.
  - by intros p ->%one_prop.
  - apply Forall_singleton. eexists _, true. split; [reflexivity|apply prop_key].
Qed.

Lemma s1_ok : inst_ok s1 /\ Forall value_ok (inst_values s1).
Proof.
  split; [|cbn; values]. split_and!; try (by apply text_ok); try by split. split; [|done]. constructor; [by apply bare_ok, text_ok|constructor].
Qed.

Lemma s1_room d : writeObject (CIMBase := Instance_base true) s1 = Ok d -> room (r_st r2) k3 d.
Proof.
  intros E. assert (match writeObject (CIMBase := Instance_base true) s1 with Ok d => zlen d <? 1000 | _ => false end = true) as H by (by vm_compute).
  rewrite E in H. apply Z.ltb_lt in H. pose proof content_small. unfold room. change (zlen k3) with 10. lia.
Qed.

Lemma key1 : makeInstanceKey true same_type number_text key_text by_name na (Some p3) shown_base = Ok k3.
Proof. by vm_compute. Qed.

Lemma creatable1 : creatable true same_type number_text key_text by_name equal_numbers r2 f2 na shown_base i1 p3 k3 s1.
Proof.
  split.
  - apply na_ok.
  - by apply Ex.key_of_list.
  - exists (mkFNode (name_data ck2) class_flags na []). split; by vm_compute.
  - reflexivity.
  - apply key1.
  - by apply Ex.key_of_list.
  - apply sound1.
  - apply distinct_intro; [apply distinct_nil|]. by intros ? ?%not_elem_of_nil.
  - intros p ->%one_prop cp ->%one_prop _. by eexists.
  - reflexivity.
  - apply s1_ok.
  - apply s1_room.
Qed.

Lemma repository_instances_witness :
  wp (cim_createInstance true true same_type number_text key_text by_name equal_numbers na i1) (fun p x => p = p3 /\
    wp (cim_getInstance true true same_type number_text key_text by_name na (Some p3) false true true None) (fun r _ => r.2 = shown_base /\ restored true same_type shown_base i1 r.1) x /\
    wp (cim_deleteInstance true true same_type number_text key_text by_name na (Some p3)) (fun _ x' => Stores true f1 f2 f_base 0 0 x') x) x1.
Proof.
  pose proof (repository_instances true same_type number_text key_text by_name equal_numbers f1 f2 f_base 0 0 x1 na i1 shown_base [] p3 k3 s1 x1_ok base_resolved creatable1) as H.
  replace (f_nodes f2 !! k3) with (@None FNode) in H by (by vm_compute). destruct H as (_ & _ & H).
  eapply wp_mono; [apply (H 0 eq_refl)|]. intros p x (-> & fi1 & _ & _ & Hg & _ & _ & Hd). split_and!; [reflexivity| |].
  - eapply wp_mono; [exact Hg|]. intros r x' (-> & [_ Hr] & _). exact (conj eq_refl Hr).
  - eapply wp_mono; [apply (Hd 0 0 eq_refl)|]; [intros old _; reflexivity|]. intros old x' [_ Hx']. exact Hx'.
Defined.


Lemma f_base_container : f_nodes f_base !! class_container na = Some (mkFNode (name_data (class_container na)) HDBNSNODE_FLAG [] [base_key]).
Proof. unfold f_base. rewrite f_attach_nodes, decide_False by done. by vm_compute. Qed.

Lemma container_root : enum_root f_base na [] (mkFNode (name_data (class_container na)) HDBNSNODE_FLAG [] [base_key]).
Proof.
  constructor; [apply na_ok|by apply Forall_nil|exact f_base_container|done|].
  intros k m ->%list_elem_of_singleton Hm. destruct base_node as (n & Hn & Hf). congruence.
Qed.

Lemma classes_enumerated_witness : wp (cim_enumClassNames true na [] (mret (M := Prog (CimRepo File Idx Z))) false) (fun names _ => names = [txt "A"]) x1.
Proof.
  destruct (classes_enumerated true same_type f1 f2 f_base 0 0 x1 na [] _ false x1_ok container_root) as (out & Hnd & Hin & Hnames & _).
  assert (out = [base_key]) as ->.
  { apply Permutation_singleton_r, NoDup_Permutation; [done|apply NoDup_singleton|]. intros k. rewrite Hin. cbn [fn_children]. split; [by intros []|].
    intros Hk. split; [|done]. apply list_elem_of_singleton in Hk as ->. destruct base_node as (n & Hn & _). by exists n. }
  assert (stores (cb := Class_base true) f_base base_key stored_base) as Hb by apply stores_attach, base_written.
  eapply wp_mono; [apply Hnames; intros k ->%list_elem_of_singleton; by exists stored_base|]. intros names x' [H2 _].
  inversion H2 as [|? name ? ? (c & Hc & ->) H3]; subst. inversion H3; subst. by rewrite (stores_inj (cb := Class_base true) _ _ _ _ Hc Hb).
Defined.

(** ** Sub-classes that are deleted during the enumeration *)

Definition below_a (name : string) : Cls := mkCls (txt name) (txt "a") [] [Some (plain (txt "Val") 1)] [] false false.
Definition ends {S A} (m : Prog S A) (s : S) : string := match (m s).1 with Ok _ => "Ok" | Throw e => e | Crash => "Crash" | Diverge => "Diverge" end.
Definition create_below (name : string) : Prog (CimRepo File Idx Z) () := cim_createClass true true equal_numbers na (below_a name).
Definition deleted : CimRepo File Idx Z := ((create_below "B" ;; create_below "C" ;; cim_deleteClass true true na (txt "A")) x1).2.

(** [deleteClass] deletes the sub-classes while it walks over them: after "B" the
   walk ends, and "C" loses its node in the meta store with "A" but stays in the
   cache and in the instance store.  It is still found, and once "A" is there
   again "C" cannot be created. *)
Example deleteClass_strands_siblings :
  ends (create_below "B" ;; create_below "C" ;; cim_deleteClass true true na (txt "A")) x1 = "Ok"%string /\
  ends (_getClass true true na (txt "B")) deleted = NOT_FOUND_ /\ ends (_getClass true true na (txt "C")) deleted = "Ok"%string /\
  ends (cim_createClass true true equal_numbers na base_class ;; create_below "B") deleted = "Ok"%string /\
  ends (cim_createClass true true equal_numbers na base_class ;; create_below "C") deleted = "CIMException::ALREADY_EXISTS"%string.
Proof. split_and!; by vm_compute. Qed.

End CimRepoEx.
