(* ===== verification/Wql.v ===== *)
(** * WQL where clauses

   The data of a parsed WQL query and its direct evaluation:
   [WQLOperation], [WQLOperand] (src/src/common/OW_WQLOperand.hpp, .cpp),
   [WQLSelectStatement] with its postfix [_operStack]
   (OW_WQLSelectStatement.hpp, .cpp), the property source interface
   (OW_WQLPropertySource.hpp) and the comparison functions of both evaluators.
   Numbers with a fraction, the order of strings and the conversions to strings
   belong to blocxx and to the floating-point unit: they are the class
   [WqlLib]. *)

From S2P Require Import Prelude.

(** ** The library the evaluators call *)

Class WqlLib : Type := {
  Real64 : Type;
  real_eq : Real64 -> Real64 -> bool;
  real_lt : Real64 -> Real64 -> bool;
  real_of_int : Z -> Real64;
  str_lt : string -> string -> bool;         (* blocxx::String operator< *)
  str_of_int : Z -> string;                  (* blocxx::String(Int64) *)
  str_of_real : Real64 -> string;
  str_of_bool : bool -> string;
  assert_enabled : bool;                     (* is BLOCXX_ASSERT compiled in? *)
}.

(** Strings are totally ordered.  Reals follow IEEE 754: at most one of
   [x < y], [x == y], [y < x] holds, and none of them when one is not a
   number. *)
Class WqlLaws `{lib : WqlLib} : Prop := {
  real_eq_sym x y : real_eq x y = real_eq y x;
  real_lt_eq x y : real_lt x y = true -> real_eq x y = false;
  real_lt_asym x y : real_lt x y = true -> real_lt y x = false;
  str_lt_irrefl x : str_lt x x = false;
  str_lt_asym x y : str_lt x y = true -> str_lt y x = false;
  str_lt_total x y : x <> y -> str_lt x y = true \/ str_lt y x = true;
}.

Section WQL.
Context `{lib : WqlLib}.

(** [BLOCXX_ASSERT(c)] throws when assertions are compiled in. *)
Definition ASSERT (c : bool) : outcome () :=
  if assert_enabled && negb c then Throw "AssertionException" else Ok ().

(** ** Operations and operands *)

Inductive WQLOperation :=
| WQL_OR | WQL_AND | WQL_NOT | WQL_EQ | WQL_NE | WQL_LT | WQL_LE | WQL_GT | WQL_GE
| WQL_DO_NOTHING | WQL_ISA.

#[export] Instance WQLOperation_eq_dec : EqDecision WQLOperation.
Proof. solve_decision. Defined.

Inductive WQLOperand :=
| NULL_VALUE
| INTEGER_VALUE (_integerValue : Z)
| DOUBLE_VALUE (_doubleValue : Real64)
| BOOLEAN_VALUE (_booleanValue : bool)
| STRING_VALUE (_string : string)
| PROPERTY_NAME (_string : string).

Definition TypeMismatch {A} : outcome A := Throw "TypeMismatchException".

Definition getIntegerValue (o : WQLOperand) : outcome Z :=
  match o with INTEGER_VALUE x => Ok x | _ => TypeMismatch end.
Definition getDoubleValue (o : WQLOperand) : outcome Real64 :=
  match o with DOUBLE_VALUE x => Ok x | _ => TypeMismatch end.
Definition getBooleanValue (o : WQLOperand) : outcome bool :=
  match o with BOOLEAN_VALUE x => Ok x | _ => TypeMismatch end.
Definition getStringValue (o : WQLOperand) : outcome string :=
  match o with STRING_VALUE x => Ok x | _ => TypeMismatch end.
Definition getPropertyName (o : WQLOperand) : outcome string :=
  match o with PROPERTY_NAME x => Ok x | _ => TypeMismatch end.

Definition is_property (o : WQLOperand) : bool :=
  match o with PROPERTY_NAME _ => true | _ => false end.
Definition is_null (o : WQLOperand) : bool :=
  match o with NULL_VALUE => true | _ => false end.

(** [getType() ==] of two operands. *)
Definition same_type (x y : WQLOperand) : bool :=
  match x, y with
  | NULL_VALUE, NULL_VALUE | INTEGER_VALUE _, INTEGER_VALUE _ | DOUBLE_VALUE _, DOUBLE_VALUE _
  | BOOLEAN_VALUE _, BOOLEAN_VALUE _ | STRING_VALUE _, STRING_VALUE _
  | PROPERTY_NAME _, PROPERTY_NAME _ => true
  | _, _ => false
  end.

(** [operator==(WQLOperand, WQLOperand)] *)
Definition operand_eq (x y : WQLOperand) : bool :=
  match x, y with
  | NULL_VALUE, NULL_VALUE => true
  | INTEGER_VALUE a, INTEGER_VALUE b => a =? b
  | DOUBLE_VALUE a, DOUBLE_VALUE b => real_eq a b
  | BOOLEAN_VALUE a, BOOLEAN_VALUE b => Bool.eqb a b
  | STRING_VALUE a, STRING_VALUE b => String.eqb a b
  | PROPERTY_NAME a, PROPERTY_NAME b => String.eqb a b
  | _, _ => false
  end.

(** ** Comparisons *)

(** The comparison operators a C++ type offers. *)
Record Cmp (A : Type) := mkCmp { c_eq : A -> A -> bool; c_lt : A -> A -> bool }.

Definition int_cmp : Cmp Z := mkCmp _ Z.eqb Z.ltb.
Definition real_cmp : Cmp Real64 := mkCmp _ real_eq real_lt.
Definition str_cmp : Cmp string := mkCmp _ String.eqb str_lt.

(** [_Compare]: operators that are not comparisons hit an assertion. *)
Definition _Compare {A} (c : Cmp A) (x y : A) (op : WQLOperation) : outcome bool :=
  match op with
  | WQL_EQ => Ok (c_eq _ c x y)
  | WQL_NE => Ok (negb (c_eq _ c x y))
  | WQL_LT => Ok (c_lt _ c x y)
  | WQL_LE => Ok (c_lt _ c x y || c_eq _ c x y)
  | WQL_GT => Ok (c_lt _ c y x)
  | WQL_GE => Ok (c_lt _ c y x || c_eq _ c x y)
  | _ => ASSERT false ;; Ok false
  end.

(** A [bool] in a comparison with a number counts as 0 or 1. *)
Definition int_of_bool (b : bool) : Z := if b then 1 else 0.

Definition is_EQ (op : WQLOperation) : bool := bool_decide (op = WQL_EQ).

(** The template [_EvaluateRHS<T>] of OW_WQLCompile.cpp for T = Int64, Real64
   and bool, and its overload for String. *)
Definition _EvaluateRHS_int (lhs : Z) (rhs : WQLOperand) (op : WQLOperation) : outcome bool :=
  match rhs with
  | NULL_VALUE => Ok (negb (is_EQ op))
  | INTEGER_VALUE r => _Compare int_cmp lhs r op
  | DOUBLE_VALUE r => _Compare real_cmp (real_of_int lhs) r op
  | BOOLEAN_VALUE r => _Compare int_cmp lhs (int_of_bool r) op
  | STRING_VALUE r => _Compare str_cmp (str_of_int lhs) r op
  | PROPERTY_NAME _ => ASSERT false ;; Ok false
  end.

Definition _EvaluateRHS_real (lhs : Real64) (rhs : WQLOperand) (op : WQLOperation) : outcome bool :=
  match rhs with
  | NULL_VALUE => Ok (negb (is_EQ op))
  | INTEGER_VALUE r => _Compare real_cmp lhs (real_of_int r) op
  | DOUBLE_VALUE r => _Compare real_cmp lhs r op
  | BOOLEAN_VALUE r => _Compare real_cmp lhs (real_of_int (int_of_bool r)) op
  | STRING_VALUE r => _Compare str_cmp (str_of_real lhs) r op
  | PROPERTY_NAME _ => ASSERT false ;; Ok false
  end.

Definition _EvaluateRHS_bool (lhs : bool) (rhs : WQLOperand) (op : WQLOperation) : outcome bool :=
  match rhs with
  | NULL_VALUE => Ok (negb (is_EQ op))
  | INTEGER_VALUE r => _Compare int_cmp (int_of_bool lhs) r op
  | DOUBLE_VALUE r => _Compare real_cmp (real_of_int (int_of_bool lhs)) r op
  | BOOLEAN_VALUE r => _Compare int_cmp (int_of_bool lhs) (int_of_bool r) op
  | STRING_VALUE r => _Compare str_cmp (str_of_bool lhs) r op
  | PROPERTY_NAME _ => ASSERT false ;; Ok false
  end.

Definition _EvaluateRHS_string (lhs : string) (rhs : WQLOperand) (op : WQLOperation) : outcome bool :=
  match rhs with
  | NULL_VALUE => Ok (negb (is_EQ op))
  | INTEGER_VALUE r => _Compare str_cmp lhs (str_of_int r) op
  | DOUBLE_VALUE r => _Compare str_cmp lhs (str_of_real r) op
  | BOOLEAN_VALUE r => _Compare str_cmp lhs (str_of_bool r) op
  | STRING_VALUE r => _Compare str_cmp lhs r op
  | PROPERTY_NAME _ => ASSERT false ;; Ok false
  end.

(** [_Evaluate] of OW_WQLCompile.cpp *)
Definition _Evaluate (lhs rhs : WQLOperand) (op : WQLOperation) : outcome bool :=
  match lhs with
  | NULL_VALUE => Ok (xorb (negb (is_EQ op)) (is_null rhs))
  | INTEGER_VALUE l => _EvaluateRHS_int l rhs op
  | DOUBLE_VALUE l => _EvaluateRHS_real l rhs op
  | BOOLEAN_VALUE l => _EvaluateRHS_bool l rhs op
  | STRING_VALUE l => _EvaluateRHS_string l rhs op
  | PROPERTY_NAME _ => ASSERT false ;; Ok false
  end.

(** [_Evaluate] of OW_WQLSelectStatement.cpp: both operands have one type. *)
Definition stmt_Evaluate (lhs rhs : WQLOperand) (op : WQLOperation) : outcome bool :=
  match lhs with
  | NULL_VALUE => Ok (xorb (negb (is_EQ op)) (is_null rhs))
  | INTEGER_VALUE l => r ← getIntegerValue rhs; _Compare int_cmp l r op
  | DOUBLE_VALUE l => r ← getDoubleValue rhs; _Compare real_cmp l r op
  | BOOLEAN_VALUE l => r ← getBooleanValue rhs; _Compare int_cmp (int_of_bool l) (int_of_bool r) op
  | STRING_VALUE l => r ← getStringValue rhs; _Compare str_cmp l r op
  | PROPERTY_NAME _ => ASSERT false ;; Ok false
  end.

(** ** Where the values of properties come from *)

(** [WQLPropertySource]: [getValue] returns the value it assigns to its
   reference parameter, or [None] for [false]. *)
Record WQLPropertySource := mkSource {
  getValue : string -> outcome (option WQLOperand);
  evaluateISA : string -> string -> outcome bool;
}.

(** [_ResolveProperty] *)
Definition _ResolveProperty (op : WQLOperand) (source : WQLPropertySource) : outcome WQLOperand :=
  match op with
  | PROPERTY_NAME propertyName =>
      r ← getValue source propertyName;
      match r with
      | Some v => Ok v
      | None => Throw "NoSuchPropertyException"
      end
  | _ => Ok op
  end.

(** ** The select statement *)

Inductive OperandOrOperation :=
| OPERATION (m_operation : WQLOperation)
| OPERAND_ITEM (m_operand : WQLOperand).

Record WQLSelectStatement := mkStmt {
  _className : string;
  _selectPropertyNames : list string;
  _wherePropertyNames : list string;
  _operStack : list OperandOrOperation;
}.

Definition newStatement : WQLSelectStatement := mkStmt "" [] [] [].

(** [WQLSelectStatement::clear]: the names of the where clause stay. *)
Definition clear (s : WQLSelectStatement) : WQLSelectStatement :=
  mkStmt "" [] (_wherePropertyNames s) [].

Definition setClassName (c : string) (s : WQLSelectStatement) : WQLSelectStatement :=
  mkStmt c (_selectPropertyNames s) (_wherePropertyNames s) (_operStack s).
Definition appendSelectPropertyName (x : string) (s : WQLSelectStatement) : WQLSelectStatement :=
  mkStmt (_className s) (_selectPropertyNames s ++ [x]) (_wherePropertyNames s) (_operStack s).
Definition appendOper (x : OperandOrOperation) (s : WQLSelectStatement) : WQLSelectStatement :=
  mkStmt (_className s) (_selectPropertyNames s) (_wherePropertyNames s) (_operStack s ++ [x]).
Definition appendOperation (x : WQLOperation) : WQLSelectStatement -> WQLSelectStatement :=
  appendOper (OPERATION x).
Definition appendOperand (x : WQLOperand) : WQLSelectStatement -> WQLSelectStatement :=
  appendOper (OPERAND_ITEM x).

(** Returns [false] and leaves the statement alone when the name is there. *)
Definition appendWherePropertyName (x : string) (s : WQLSelectStatement)
    : bool * WQLSelectStatement :=
  if existsb (String.eqb x) (_wherePropertyNames s) then (false, s)
  else (true, mkStmt (_className s) (_selectPropertyNames s) (_wherePropertyNames s ++ [x])
                (_operStack s)).

Definition hasWhereClause (s : WQLSelectStatement) : bool :=
  negb (bool_decide (_operStack s = [])).

(** ** Direct evaluation

   One round of the loop of [evaluateWhereClause]; the stack has its top
   first.  The operand on top of the stack is taken as the left one. *)
Definition eval_step (source : WQLPropertySource) (stack : list WQLOperand)
    (curItem : OperandOrOperation) : outcome (list WQLOperand) :=
  match curItem with
  | OPERAND_ITEM o => Ok (o :: stack)
  | OPERATION op =>
      match op with
      | WQL_OR | WQL_AND =>
          ASSERT (2 <=? zlen stack) ;;
          match stack with
          | op1 :: op2 :: st =>
              b1 ← getBooleanValue op1;
              b2 ← getBooleanValue op2;
              Ok (BOOLEAN_VALUE (if bool_decide (op = WQL_OR) then b1 || b2 else b1 && b2) :: st)
          | _ => Crash
          end
      | WQL_NOT =>
          ASSERT (1 <=? zlen stack) ;;
          match stack with
          | op1 :: st => b1 ← getBooleanValue op1; Ok (BOOLEAN_VALUE (negb b1) :: st)
          | _ => Crash
          end
      | WQL_EQ | WQL_NE | WQL_LT | WQL_LE | WQL_GT | WQL_GE =>
          ASSERT (2 <=? zlen stack) ;;
          match stack with
          | lhs :: rhs :: st =>
              lhs ← _ResolveProperty lhs source;
              rhs ← _ResolveProperty rhs source;
              if negb (same_type rhs lhs) then TypeMismatch
              else b ← stmt_Evaluate lhs rhs op; Ok (BOOLEAN_VALUE b :: st)
          | _ => Crash
          end
      | WQL_ISA =>
          ASSERT (2 <=? zlen stack) ;;
          match stack with
          | lhs :: rhs :: st =>
              match lhs with
              | PROPERTY_NAME propertyName =>
                  className ← match rhs with
                              | PROPERTY_NAME c | STRING_VALUE c => Ok c
                              | _ => TypeMismatch
                              end;
                  b ← evaluateISA source propertyName className;
                  Ok (BOOLEAN_VALUE b :: st)
              | _ => TypeMismatch
              end
          | _ => Crash
          end
      | WQL_DO_NOTHING => ASSERT false ;; Ok stack
      end
  end.

Fixpoint eval_items (source : WQLPropertySource) (items : list OperandOrOperation)
    (stack : list WQLOperand) : outcome (list WQLOperand) :=
  match items with
  | [] => Ok stack
  | it :: items => stack ← eval_step source stack it; eval_items source items stack
  end.

(** [WQLSelectStatement::evaluateWhereClause] *)
Definition evaluateWhereClause (s : WQLSelectStatement) (source : WQLPropertySource)
    : outcome bool :=
  if negb (hasWhereClause s) then Ok true
  else
    stack ← eval_items source (_operStack s) [];
    ASSERT (zlen stack =? 1) ;;
    match stack with
    | top :: _ => getBooleanValue top
    | [] => Crash
    end.
End WQL.
