(* ===== verification/WqlCompile.v ===== *)
(** * The WQL compiler

   src/src/common/OW_WQLCompile.cpp: a where clause in postfix form is turned
   into a disjunction of conjunctions of comparisons (the tableau) in five
   passes over two arrays, [terminal_heap] and [eval_heap]: build, push NOT
   down, factor AND over OR, gather, sort.  Arrays are lists; an access outside
   an array is [Crash]; loops that change the array they run over carry fuel
   that [WqlFactor] and [WqlGather] prove sufficient. *)

From S2P Require Import Prelude Wql.

Section Compile.
Context `{lib : WqlLib}.

(** ** Elements *)

Record term_el := mkTerm {
  t_mark : bool;
  t_op : WQLOperation;
  t_opn1 : WQLOperand;
  t_opn2 : WQLOperand;
}.

(** [term_el::negate] *)
Definition negate_op (op : WQLOperation) : WQLOperation :=
  match op with
  | WQL_EQ => WQL_NE
  | WQL_NE => WQL_EQ
  | WQL_LT => WQL_GE
  | WQL_LE => WQL_GT
  | WQL_GT => WQL_LE
  | WQL_GE => WQL_LT
  | op => op
  end.

Definition negate (t : term_el) : term_el :=
  mkTerm (t_mark t) (negate_op (t_op t)) (t_opn1 t) (t_opn2 t).

(** [operator==(term_el, term_el)]: the mark is not compared. *)
Definition term_eq (x y : term_el) : bool :=
  bool_decide (t_op x = t_op y) && operand_eq (t_opn1 x) (t_opn1 y)
  && operand_eq (t_opn2 x) (t_opn2 y).

Inductive el_type := EVAL_HEAP | TERMINAL_HEAP | OPERAND.

#[export] Instance el_type_eq_dec : EqDecision el_type.
Proof. solve_decision. Defined.

Record stack_el := mkSel { opn : Z; type : el_type }.

#[export] Instance stack_el_eq_dec : EqDecision stack_el.
Proof. solve_decision. Defined.

Record eval_el := mkEval {
  mark : bool;
  op : WQLOperation;
  opn1 : Z;
  is_terminal1 : el_type;
  opn2 : Z;
  is_terminal2 : el_type;
}.

Definition getFirst (e : eval_el) : stack_el := mkSel (opn1 e) (is_terminal1 e).
Definition getSecond (e : eval_el) : stack_el := mkSel (opn2 e) (is_terminal2 e).
Definition setFirst (s : stack_el) (e : eval_el) : eval_el :=
  mkEval (mark e) (op e) (opn s) (type s) (opn2 e) (is_terminal2 e).
Definition setSecond (s : stack_el) (e : eval_el) : eval_el :=
  mkEval (mark e) (op e) (opn1 e) (is_terminal1 e) (opn s) (type s).
Definition assign_unary_to_first (assignee e : eval_el) : eval_el :=
  setFirst (getFirst assignee) e.
Definition assign_unary_to_second (assignee e : eval_el) : eval_el :=
  setSecond (getFirst assignee) e.
Definition set_op (o : WQLOperation) (e : eval_el) : eval_el :=
  mkEval (mark e) o (opn1 e) (is_terminal1 e) (opn2 e) (is_terminal2 e).
Definition set_mark (b : bool) (e : eval_el) : eval_el :=
  mkEval b (op e) (opn1 e) (is_terminal1 e) (opn2 e) (is_terminal2 e).

Definition is_EVAL (t : el_type) : bool := bool_decide (t = EVAL_HEAP).

(** [eval_el::order] *)
Definition order (e : eval_el) : eval_el :=
  if is_EVAL (is_terminal1 e) && is_EVAL (is_terminal2 e) then
    if opn1 e <? opn2 e
    then mkEval (mark e) (op e) (opn2 e) (is_terminal1 e) (opn1 e) (is_terminal2 e) else e
  else if negb (is_EVAL (is_terminal1 e)) && is_EVAL (is_terminal2 e) then
    if opn1 e <? opn2 e
    then mkEval (mark e) (op e) (opn2 e) (is_terminal2 e) (opn1 e) (is_terminal1 e) else e
  else e.

(** [a[i]] *)
Definition at_ {A} (l : list A) (i : Z) : outcome A :=
  if i <? 0 then Crash else present (l !! Z.to_nat i).

(** ** Building the heaps *)

Record Heaps := mkHeaps { terms : list term_el; evals : list eval_el }.

Definition operand_at (items : list OperandOrOperation) (i : Z) : outcome WQLOperand :=
  it ← at_ items i;
  match it with
  | OPERAND_ITEM o => Ok o
  | OPERATION _ => ASSERT false ;; Ok NULL_VALUE
  end.

(** One round of the loop of [_buildEvalHeap] over item [i]; the stack has its
   top first. *)
Definition build_step (items : list OperandOrOperation) (i : Z) (curItem : OperandOrOperation)
    (stack : list stack_el) (h : Heaps) : outcome (list stack_el * Heaps) :=
  match curItem with
  | OPERAND_ITEM _ => Ok (mkSel i OPERAND :: stack, h)
  | OPERATION o =>
      match o with
      | WQL_NOT =>
          ASSERT (1 <=? zlen stack) ;;
          match stack with
          | op1 :: st =>
              let evals' := evals h ++ [mkEval false o (opn op1) (type op1) (-1) TERMINAL_HEAP] in
              Ok (mkSel (zlen evals' - 1) EVAL_HEAP :: st, mkHeaps (terms h) evals')
          | [] => Crash
          end
      | WQL_DO_NOTHING => ASSERT false ;; Ok (stack, h)
      | _ =>
          ASSERT (2 <=? zlen stack) ;;
          match stack with
          | op2 :: op1 :: st =>
              if bool_decide (type op1 = OPERAND) && bool_decide (type op2 = OPERAND) then
                lhs ← operand_at items (opn op1);
                rhs ← operand_at items (opn op2);
                let terms' := terms h ++ [mkTerm false o lhs rhs] in
                Ok (mkSel (zlen terms' - 1) TERMINAL_HEAP :: st, mkHeaps terms' (evals h))
              else
                let evals' := evals h ++ [mkEval false o (opn op1) (type op1) (opn op2) (type op2)] in
                Ok (mkSel (zlen evals' - 1) EVAL_HEAP :: st, mkHeaps (terms h) evals')
          | _ => Crash
          end
      end
  end.

(** [rest] are the items from [i] on. *)
Fixpoint build_loop (items rest : list OperandOrOperation) (i : Z) (stack : list stack_el)
    (h : Heaps) : outcome (list stack_el * Heaps) :=
  match rest with
  | [] => Ok (stack, h)
  | it :: rest =>
      '(stack, h) ← build_step items i it stack h;
      build_loop items rest (i + 1) stack h
  end.

Definition _buildEvalHeap (items : list OperandOrOperation) (h : Heaps) : outcome Heaps :=
  '(stack, h) ← build_loop items items 0 [] h;
  ASSERT (zlen stack =? 1) ;;
  Ok h.

(** ** Pushing NOT down *)

(** Operands equal to element [i] become the operand of [ei]. *)
Definition subst_ref (i : Z) (ei e : eval_el) : eval_el :=
  let e := if is_EVAL (is_terminal1 e) && (opn1 e =? i) then assign_unary_to_first ei e else e in
  if is_EVAL (is_terminal2 e) && (opn2 e =? i) then assign_unary_to_second ei e else e.

Definition flip_op (o : WQLOperation) : WQLOperation :=
  match o with
  | WQL_OR => WQL_AND
  | WQL_AND => WQL_OR
  | o => o
  end.

(** Push a pending NOT into operand [s]. *)
Definition push_ref (s : stack_el) (h : Heaps) : outcome Heaps :=
  match type s with
  | TERMINAL_HEAP =>
      t ← at_ (terms h) (opn s);
      Ok (mkHeaps (<[Z.to_nat (opn s) := negate t]> (terms h)) (evals h))
  | EVAL_HEAP =>
      e ← at_ (evals h) (opn s);
      Ok (mkHeaps (terms h) (<[Z.to_nat (opn s) := set_mark (negb (mark e)) e]> (evals h)))
  | OPERAND => Ok h
  end.

(** The loop body of [_pushNOTDown] for element [i]. *)
Definition push_step (i : nat) (h : Heaps) : outcome Heaps :=
  e ← present (evals h !! i);
  let e := order e in
  let eh := <[i := e]> (evals h) in
  let '(e, eh, _found) :=
    if bool_decide (op e = WQL_NOT) then
      let e := set_op WQL_DO_NOTHING e in
      let eh := imap (fun j x => if (i <? j)%nat then subst_ref (Z.of_nat i) e x else x)
                     (<[i := e]> eh) in
      if mark e then (set_mark false e, <[i := set_mark false e]> eh, false) else (e, eh, true)
    else (e, eh, false) in
  let '(e, eh, _found) :=
    if mark e then
      let e := set_op (flip_op (op e)) (set_mark false e) in
      (e, <[i := e]> eh, true)
    else (e, eh, _found) in
  let h := mkHeaps (terms h) eh in
  if negb _found then Ok h
  else
    h ← push_ref (getFirst e) h;
    if 0 <=? opn2 e then push_ref (getSecond e) h else Ok h.

(** Elements [n-1] down to 0. *)
Fixpoint push_loop (n : nat) (h : Heaps) : outcome Heaps :=
  match n with
  | O => Ok h
  | S i => h ← push_step i h; push_loop i h
  end.

Definition _pushNOTDown (h : Heaps) : outcome Heaps := push_loop (length (evals h)) h.

(** ** Factoring *)

(** [Array::insert] *)
Definition array_insert {A} (i : nat) (x : A) (l : list A) : list A := take i l ++ x :: drop i l.

(** The operand of the AND at [i] that is an OR: which one, and its index. *)
Definition find_or (e : eval_el) (eh : list eval_el) : outcome (option (bool * Z)) :=
  first ← (if is_EVAL (is_terminal1 e) then
             x ← at_ eh (opn1 e); Ok (bool_decide (op x = WQL_OR))
           else Ok false);
  if (first : bool) then Ok (Some (true, opn1 e))
  else
    second ← (if is_EVAL (is_terminal2 e) then
                x ← at_ eh (opn2 e); Ok (bool_decide (op x = WQL_OR))
              else Ok false);
    if (second : bool) then Ok (Some (false, opn2 e)) else Ok None.

(** Make room for two elements: operands from [i] on move up by two. *)
Definition shift_ref (i : Z) (e : eval_el) : eval_el :=
  let e := if is_EVAL (is_terminal1 e) && (i <=? opn1 e)
           then setFirst (mkSel (opn1 e + 2) (is_terminal1 e)) e else e in
  if is_EVAL (is_terminal2 e) && (i <=? opn2 e)
  then setSecond (mkSel (opn2 e + 2) (is_terminal2 e)) e else e.

(** [(A | B) & C] at [i] becomes [C & B] at [i], [C & A] at [i + 1] and their
   OR at [i + 2]. *)
Definition split_at (i : nat) (isFirst : bool) (index : Z) (e : eval_el) (eh : list eval_el)
    : outcome (list eval_el) :=
  let zi := Z.of_nat i in
  let s := if isFirst then getSecond e else getFirst e in
  let evl := mkEval false WQL_OR (zi + 1) EVAL_HEAP zi EVAL_HEAP in
  let eh := if (i <? length eh - 1)%nat then array_insert (i + 1) evl eh else eh ++ [evl] in
  let eh := array_insert (i + 1) evl eh in
  let eh := imap (fun j x => if (i + 2 <? j)%nat then shift_ref zi x else x) eh in
  o ← at_ eh index;
  let and1 := order (mkEval false WQL_AND (opn s) (type s) (opn1 o) (is_terminal1 o)) in
  let eh := <[(i + 1)%nat := and1]> eh in
  o ← at_ eh index;
  let and2 := order (mkEval false WQL_AND (opn s) (type s) (opn2 o) (is_terminal2 o)) in
  Ok (<[i := and2]> eh).

Fixpoint factor_loop (fuel : nat) (i : nat) (eh : list eval_el) : outcome (list eval_el) :=
  match eh !! i with
  | None => Ok eh
  | Some e =>
      match fuel with
      | O => Diverge
      | S fuel =>
          if bool_decide (op e = WQL_AND) then
            found ← find_or e eh;
            match found with
            | Some (isFirst, index) =>
                eh ← split_at i isFirst index e eh;
                factor_loop fuel i eh
            | None => factor_loop fuel (i + 1) eh
            end
          else factor_loop fuel (i + 1) eh
      end
  end.

(** ** Folding over a heap

   Elements refer to earlier elements: a fold computes one value per element
   from the values of its operands, [leaf] for those that are not elements. *)
Section Fold.
Context {T : Type} (leaf : stack_el -> T) (node : eval_el -> T -> T -> T) (dflt : T).

Definition hval (vs : list T) (s : stack_el) : T :=
  if is_EVAL (type s) then nth (Z.to_nat (opn s)) vs dflt else leaf s.

Definition hfold (eh : list eval_el) : list T :=
  fold_left (fun vs e => vs ++ [node e (hval vs (getFirst e)) (hval vs (getSecond e))]) eh [].
End Fold.

(** The number of conjunctions an element stands for, and the rounds
   [_factoring] spends on it. *)
Definition disjuncts : list eval_el -> list nat :=
  hfold (fun _ => 1%nat)
    (fun e a b => match op e with WQL_AND => a * b | WQL_OR => a + b | _ => 1 end)%nat 1%nat.

Definition factor_fuel (eh : list eval_el) : nat :=
  sum_list (zip_with (fun e d => if bool_decide (op e = WQL_AND) then 3 * d - 2 else 1)%nat
              eh (disjuncts eh)).

Definition _factoring (eh : list eval_el) : outcome (list eval_el) :=
  factor_loop (factor_fuel eh) 0 eh.

(** ** Gathering *)

(** Remove trailing elements without an operation; [None] when nothing is left. *)
Fixpoint strip (i : nat) (eh : list eval_el) : option (list eval_el) :=
  match i with
  | O => None
  | S i =>
      match eh !! i with
      | Some e => if bool_decide (op e = WQL_DO_NOTHING) then strip i (take i eh) else Some eh
      | None => None
      end
  end.

(** The rounds of the loop of [_gather] below an element. *)
Definition tree_sizes (o : WQLOperation) : list eval_el -> list nat :=
  hfold (fun _ => 1%nat) (fun e a b => if bool_decide (op e = o) then 1 + a + b else 1)%nat 1%nat.

Fixpoint gather_loop (fuel : nat) (or_flag : bool) (i : nat) (stk : list stack_el)
    (eh : list eval_el) : outcome (list stack_el * list eval_el) :=
  match stk !! i with
  | None => Ok (stk, eh)
  | Some s =>
      match fuel with
      | O => Diverge
      | S fuel =>
          let k := opn s in
          if (k <? 0) || negb (is_EVAL (type s)) then gather_loop fuel or_flag (i + 1) stk eh
          else
            e ← at_ eh k;
            if (negb (bool_decide (op e = WQL_OR)) && or_flag)
               || (negb (bool_decide (op e = WQL_AND)) && negb or_flag)
            then gather_loop fuel or_flag (i + 1) stk eh
            else
              let stk := array_insert i (getFirst e) (<[i := getSecond e]> stk) in
              let eh := if or_flag then <[Z.to_nat k := set_op WQL_DO_NOTHING e]> eh else eh in
              gather_loop fuel or_flag i stk eh
      end
  end.

(** [_gather]; the array handed in is not emptied first. *)
Definition _gather (stk : list stack_el) (sel : stack_el) (or_flag : bool) (eh : list eval_el)
    : outcome (list stack_el * list eval_el) :=
  match strip (length eh) eh with
  | None => Ok (stk, [])
  | Some eh =>
      let start := if or_flag then Some (mkSel (zlen eh - 1) EVAL_HEAP)
                   else if is_EVAL (type sel) then Some sel else None in
      match start with
      | None => Ok (stk, eh)
      | Some s =>
          let stk := stk ++ [s] in
          let o := if or_flag then WQL_OR else WQL_AND in
          let fuel := sum_list (map (hval (fun _ => 1%nat) 1%nat (tree_sizes o eh)) stk) in
          gather_loop fuel or_flag 0 stk eh
      end
  end.

Definition _gatherDisj (stk : list stack_el) (eh : list eval_el)
    : outcome (list stack_el * list eval_el) := _gather stk (mkSel 0 TERMINAL_HEAP) true eh.
Definition _gatherConj (stk : list stack_el) (sel : stack_el) (eh : list eval_el)
    : outcome (list stack_el * list eval_el) := _gather stk sel false eh.

(** ** The tableau *)

Abbreviation TableauRow := (list term_el).
Abbreviation Tableau := (list TableauRow).

Definition terms_at (th : list term_el) (ss : list stack_el) : outcome TableauRow :=
  fold_right (fun s r => t ← at_ th (opn s); ts ← r; Ok (t :: ts)) (Ok []) ss.

(** The loop of [compile] over the disjunction. *)
Fixpoint rows_loop (th : list term_el) (disj : list stack_el) (eh : list eval_el)
    : outcome Tableau :=
  match disj with
  | [] => Ok []
  | d :: disj =>
      '(tr, eh) ← (if is_EVAL (type d) then
                     '(cj, eh) ← _gatherConj [] d eh;
                     tr ← terms_at th cj;
                     Ok (tr, eh)
                   else
                     t ← at_ th (opn d);
                     Ok ([t], eh));
      trs ← rows_loop th disj eh;
      Ok (tr :: trs)
  end.

(** ** Sorting the rows *)

Definition turn_op (o : WQLOperation) : WQLOperation :=
  match o with
  | WQL_LT => WQL_GT
  | WQL_GT => WQL_LT
  | WQL_LE => WQL_GE
  | WQL_GE => WQL_LE
  | o => o
  end.

(** A property on the right of a constant goes to the left. *)
Definition property_first (t : term_el) : term_el :=
  if is_property (t_opn2 t) && negb (is_property (t_opn1 t))
  then mkTerm (t_mark t) (turn_op (t_op t)) (t_opn2 t) (t_opn1 t)
  else t.

Definition sort_key (t : term_el) : string :=
  match t_opn1 t with
  | PROPERTY_NAME p => if is_property (t_opn2 t) then "" else p
  | _ => ""
  end%string.

(** Exchange the operands and operators of entries [j] and [k]. *)
Definition swap_terms (j k : nat) (tr : TableauRow) : TableauRow :=
  match tr !! j, tr !! k with
  | Some a, Some b =>
      let tr := <[j := mkTerm (t_mark a) (t_op b) (t_opn1 b) (t_opn2 b)]> tr in
      <[k := mkTerm (t_mark b) (t_op a) (t_opn1 a) (t_opn2 a)]> tr
  | _, _ => tr
  end.

(** The inner loop: [key1] is not read again after an exchange. *)
Definition sort_inner (key1 : string) (j : nat) (ks : list nat) (tr : TableauRow) : TableauRow :=
  fold_left (fun tr k =>
    match tr !! k with
    | Some b => if str_lt (sort_key b) key1 then swap_terms j k tr else tr
    | None => tr
    end) ks tr.

Definition sort_outer (tr : TableauRow) : TableauRow :=
  let m := length tr in
  fold_left (fun tr j =>
    match tr !! j with
    | Some a => sort_inner (sort_key a) j (seq j (m - j)) tr
    | None => tr
    end) (seq 0 m) tr.

(** [std::unique] *)
Fixpoint unique_after (x : term_el) (l : TableauRow) : TableauRow :=
  match l with
  | [] => []
  | y :: l => if term_eq x y then unique_after x l else y :: unique_after y l
  end.

Definition unique (l : TableauRow) : TableauRow :=
  match l with
  | [] => []
  | x :: l => x :: unique_after x l
  end.

Definition sort_row (tr : TableauRow) : TableauRow := unique (sort_outer (map property_first tr)).
Definition _sortTableau (t : Tableau) : Tableau := map sort_row t.

(** ** Compilation *)

Record WQLCompile := mkCompile {
  _tableau : Tableau;
  terminal_heap : list term_el;
  eval_heap : list eval_el;
}.

Definition newCompile : WQLCompile := mkCompile [] [] [].

(** [WQLCompile::compile]: without a where clause nothing is changed;
   [terminal_heap] is never emptied. *)
Definition compile (wqs : WQLSelectStatement) (c : WQLCompile) : outcome WQLCompile :=
  if negb (hasWhereClause wqs) then Ok c
  else
    h ← _buildEvalHeap (_operStack wqs) (mkHeaps (terminal_heap c) (eval_heap c));
    h ← _pushNOTDown h;
    eh ← _factoring (evals h);
    '(disj, eh) ← _gatherDisj [] eh;
    let disj := if bool_decide (disj = []) && negb (bool_decide (terms h = []))
                then [mkSel 0 TERMINAL_HEAP] else disj in
    rows ← rows_loop (terms h) disj eh;
    Ok (mkCompile (_sortTableau rows) (terms h) []).

(** ** Evaluation *)

(** The value of one entry of a row. *)
Definition eval_term (source : WQLPropertySource) (t : term_el) : outcome bool :=
  if bool_decide (t_op t = WQL_ISA) then
    propertyName ← getPropertyName (t_opn1 t);
    className ← match t_opn2 t with
                | PROPERTY_NAME c => Ok c
                | o => getStringValue o
                end;
    evaluateISA source propertyName className
  else
    lhs ← _ResolveProperty (t_opn1 t) source;
    rhs ← _ResolveProperty (t_opn2 t) source;
    _Evaluate lhs rhs (t_op t).

(** The inner loop stops at the first entry that is false, *)
Fixpoint eval_row (source : WQLPropertySource) (tr : TableauRow) : outcome bool :=
  match tr with
  | [] => Ok true
  | t :: tr => b ← eval_term source t; if (b : bool) then eval_row source tr else Ok false
  end.

(** the outer one at the first row that is true. *)
Fixpoint eval_rows (source : WQLPropertySource) (rows : Tableau) : outcome bool :=
  match rows with
  | [] => Ok false
  | tr :: rows => b ← eval_row source tr; if (b : bool) then Ok true else eval_rows source rows
  end.

(** [WQLCompile::evaluate] *)
Definition evaluate (c : WQLCompile) (source : WQLPropertySource) : outcome bool :=
  match _tableau c with
  | [] => Ok true
  | rows => eval_rows source rows
  end.
End Compile.
