(* ===== verification/WqlExpr.v ===== *)
(** * Where clauses as trees, and the heaps built from them

   [wexpr] is a where clause as the grammar nests it; [postfix] is the
   [_operStack] the parser leaves for it; [meaning] is its value.  A clause
   occupies a contiguous range of each heap ([lterms], [layout]), which
   [_buildEvalHeap] is proved to produce. *)

From S2P Require Import Prelude Wql WqlCompile.

Section Expr.
Context `{lib : WqlLib}.

Inductive wexpr :=
| WComp (o : WQLOperation) (a b : WQLOperand)
| WNot (e : wexpr)
| WBin (o : WQLOperation) (e1 e2 : wexpr).

(** The operations that compare two operands, *)
Definition is_comparison (o : WQLOperation) : bool :=
  match o with
  | WQL_EQ | WQL_NE | WQL_LT | WQL_LE | WQL_GT | WQL_GE | WQL_ISA => true
  | _ => false
  end.

(** and those that join two where clauses. *)
Definition is_connective (o : WQLOperation) : bool :=
  match o with
  | WQL_AND | WQL_OR => true
  | _ => false
  end.

Definition connect (o : WQLOperation) (b1 b2 : bool) : bool :=
  match o with
  | WQL_AND => b1 && b2
  | _ => b1 || b2
  end.

Fixpoint wf (e : wexpr) : bool :=
  match e with
  | WComp o _ _ => is_comparison o
  | WNot e => wf e
  | WBin o e1 e2 => is_connective o && wf e1 && wf e2
  end.

Fixpoint postfix (e : wexpr) : list OperandOrOperation :=
  match e with
  | WComp o a b => [OPERAND_ITEM a; OPERAND_ITEM b; OPERATION o]
  | WNot e => postfix e ++ [OPERATION WQL_NOT]
  | WBin o e1 e2 => postfix e1 ++ postfix e2 ++ [OPERATION o]
  end.

(** The value of a where clause: every comparison is evaluated. *)
Fixpoint meaning (src : WQLPropertySource) (e : wexpr) : outcome bool :=
  match e with
  | WComp o a b => eval_term src (mkTerm false o a b)
  | WNot e => negb <$> meaning src e
  | WBin o e1 e2 => b1 ← meaning src e1; b2 ← meaning src e2; Ok (connect o b1 b2)
  end.

(** ** Layout in the heaps *)

Fixpoint nev (e : wexpr) : nat :=
  match e with
  | WComp _ _ _ => 0
  | WNot e => nev e + 1
  | WBin _ e1 e2 => nev e1 + nev e2 + 1
  end%nat.

Fixpoint lterms (e : wexpr) : list term_el :=
  match e with
  | WComp o a b => [mkTerm false o a b]
  | WNot e => lterms e
  | WBin _ e1 e2 => lterms e1 ++ lterms e2
  end.

Definition nterm (e : wexpr) : nat := length (lterms e).

Definition eref (k : nat) : stack_el := mkSel (Z.of_nat k) EVAL_HEAP.
Definition tref (k : nat) : stack_el := mkSel (Z.of_nat k) TERMINAL_HEAP.

(** The element an expression laid out at [tb] (terminals) and [b] is
   referred to by. *)
Definition lref (tb b : nat) (e : wexpr) : stack_el :=
  match e with
  | WComp _ _ _ => tref tb
  | e => eref (b + nev e - 1)
  end.

Definition mkNode (m : bool) (o : WQLOperation) (s1 s2 : stack_el) : eval_el :=
  mkEval m o (opn s1) (type s1) (opn s2) (type s2).

Definition none_ref : stack_el := mkSel (-1) TERMINAL_HEAP.

Fixpoint layout (tb b : nat) (e : wexpr) : list eval_el :=
  match e with
  | WComp _ _ _ => []
  | WNot e => layout tb b e ++ [mkNode false WQL_NOT (lref tb b e) none_ref]
  | WBin o e1 e2 =>
      layout tb b e1 ++ layout (tb + nterm e1) (b + nev e1) e2 ++
      [mkNode false o (lref tb b e1) (lref (tb + nterm e1) (b + nev e1) e2)]
  end.

Lemma length_layout tb b e : length (layout tb b e) = nev e.
Proof.
  revert tb b; induction e as [| |]; intros; simpl; rewrite ?length_app; simpl;
    rewrite ?IHe, ?IHe1, ?IHe2; lia.
Qed.

Lemma lref_EVAL tb b e :
  type (lref tb b e) = EVAL_HEAP -> (0 < nev e)%nat /\ lref tb b e = eref (b + nev e - 1).
Proof. destruct e; simpl; intros; try done; split; done || lia. Qed.

Lemma lref_type tb b e : type (lref tb b e) <> OPERAND.
Proof. by destruct e. Qed.

(** ** [_buildEvalHeap] *)

Lemma ASSERT_true c : c = true -> ASSERT c = Ok ().
Proof. intros ->. unfold ASSERT. by rewrite andb_false_r. Qed.

Lemma at_Some {A} (l : list A) (i : nat) x : l !! i = Some x -> at_ l (Z.of_nat i) = Ok x.
Proof. intros H. unfold at_. rewrite (proj2 (Z.ltb_ge _ _)) by lia. by rewrite Nat2Z.id, H. Qed.

(** Building a comparison whose operands are the two items before it. *)
Lemma build_comparison items i o a b stack h :
  is_comparison o = true ->
  items !! i = Some (OPERAND_ITEM a) -> items !! S i = Some (OPERAND_ITEM b) ->
  build_step items (Z.of_nat (S (S i))) (OPERATION o)
    (mkSel (Z.of_nat (S i)) OPERAND :: mkSel (Z.of_nat i) OPERAND :: stack) h =
  Ok (tref (length (terms h)) :: stack,
      mkHeaps (terms h ++ [mkTerm false o a b]) (evals h)).
Proof.
  intros Ho Ha Hb. unfold build_step.
  destruct o; try done; (rewrite ASSERT_true by (apply Z.leb_le; unfold zlen; simpl length; lia));
    cbn [mbind outcome_bind opn type]; rewrite bool_decide_true by done; cbn [andb];
    unfold operand_at; rewrite (at_Some _ _ _ Ha), (at_Some _ _ _ Hb); cbn [mbind outcome_bind];
    repeat f_equal; unfold tref; f_equal; unfold zlen; rewrite length_app; simpl; lia.
Qed.

(** Building an AND or OR of two results on the stack. *)
Lemma build_binary items i o s1 s2 stack h :
  is_connective o = true -> type s1 <> OPERAND ->
  build_step items i (OPERATION o) (s2 :: s1 :: stack) h =
  Ok (eref (length (evals h)) :: stack,
      mkHeaps (terms h) (evals h ++ [mkNode false o s1 s2])).
Proof.
  intros Ho H1. unfold build_step.
  destruct o; try done; (rewrite ASSERT_true by (apply Z.leb_le; unfold zlen; simpl length; lia));
    cbn [mbind outcome_bind]; rewrite bool_decide_false by done; cbn [andb];
    repeat f_equal; unfold eref; f_equal; unfold zlen; rewrite length_app; simpl; lia.
Qed.

Lemma build_not items i s stack h :
  build_step items i (OPERATION WQL_NOT) (s :: stack) h =
  Ok (eref (length (evals h)) :: stack,
      mkHeaps (terms h) (evals h ++ [mkNode false WQL_NOT s none_ref])).
Proof.
  unfold build_step. rewrite ASSERT_true by (apply Z.leb_le; unfold zlen; simpl length; lia).
  cbn [mbind outcome_bind]. repeat f_equal. unfold eref; f_equal.
  unfold zlen; rewrite length_app; simpl; lia.
Qed.

(** The items of a subexpression push its reference and append its layout. *)
Lemma build_postfix e pre rest stack h :
  wf e = true ->
  build_loop (pre ++ postfix e ++ rest) (postfix e ++ rest) (zlen pre) stack h =
  build_loop (pre ++ postfix e ++ rest) rest (zlen pre + zlen (postfix e))
    (lref (length (terms h)) (length (evals h)) e :: stack)
    (mkHeaps (terms h ++ lterms e)
             (evals h ++ layout (length (terms h)) (length (evals h)) e)).
Proof.
  assert (Hstep : forall its it rest i st h st' h',
    build_step its i it st h = Ok (st', h') ->
    build_loop its (it :: rest) i st h = build_loop its rest (i + 1) st' h').
  { clear. intros * H. cbn [build_loop]. by rewrite H. }
  revert pre rest stack h.
  induction e as [o a b|e IH|o e1 IH1 e2 IH2]; intros pre rest stack h Hwf;
    cbn [wf postfix lterms layout] in *.
  - cbn [app].
    do 2 erewrite Hstep by reflexivity.
    replace (zlen pre + 1 + 1) with (Z.of_nat (S (S (length pre)))) by (unfold zlen; lia).
    replace (zlen pre + 1) with (Z.of_nat (S (length pre))) by (unfold zlen; lia).
    erewrite Hstep.
    2:{ apply (build_comparison _ (length pre) o a b); [done| |].
        - by apply list_lookup_middle.
        - rewrite lookup_app_r by lia.
          by replace (S (length pre) - length pre)%nat with 1%nat by lia. }
    rewrite app_nil_r. f_equal. unfold zlen. simpl. lia.
  - rewrite <- !app_assoc. rewrite IH by done. cbn [app].
    rewrite (Hstep _ _ _ _ _ _ _ _ (build_not _ _ _ _ _)).
    cbn [terms evals]. rewrite <- app_assoc. f_equal.
    + rewrite zlen_app. unfold zlen. simpl. lia.
    + f_equal. cbn [lref nev]. unfold eref. rewrite length_app, length_layout. repeat f_equal; lia.
  - apply andb_true_iff in Hwf as [Hwf Hw2]. apply andb_true_iff in Hwf as [Ho Hw1].
    rewrite <- !app_assoc. rewrite IH1 by done.
    set (h1 := mkHeaps _ _).
    pose proof (IH2 (pre ++ postfix e1) (OPERATION o :: rest)
      (lref (length (terms h)) (length (evals h)) e1 :: stack) h1 Hw2) as E.
    rewrite <- !app_assoc in E. rewrite zlen_app in E. cbn [app] in E |- *. rewrite E. clear E.
    erewrite Hstep by (apply build_binary; [done|apply lref_type]).
    cbn [h1 terms evals]. rewrite !length_app, !length_layout. rewrite <- !app_assoc. f_equal.
    + rewrite !zlen_app. unfold zlen. simpl. lia.
    + f_equal. cbn [lref nev]. unfold eref. repeat f_equal; lia.
Qed.

Lemma buildEvalHeap_layout e th :
  wf e = true ->
  _buildEvalHeap (postfix e) (mkHeaps th []) =
  Ok (mkHeaps (th ++ lterms e) (layout (length th) 0 e)).
Proof.
  intros Hwf. unfold _buildEvalHeap.
  pose proof (build_postfix e [] [] [] (mkHeaps th []) Hwf) as E.
  cbn [app] in E. rewrite app_nil_r in E. change (zlen []) with 0 in E. rewrite E.
  cbn [build_loop mbind outcome_bind terms evals length].
  by rewrite ASSERT_true by done.
Qed.
End Expr.
