(* ===== verification/WqlNot.v ===== *)
(** * Pushing NOT down to the comparisons

   [_pushNOTDown] turns the layout of a where clause into the layout of its
   negation normal form: [pterms] and [playout] describe the heaps it leaves,
   [pref] the element (or terminal) that stands for the clause. *)

From S2P Require Import Prelude Wql WqlCompile WqlExpr.

Section Not.
Context `{lib : WqlLib}.

(** ** Replacing a reference *)

Definition rsel (s s' x : stack_el) : stack_el := if decide (x = s) then s' else x.
Definition rsub (s s' : stack_el) (e : eval_el) : eval_el :=
  mkNode (mark e) (op e) (rsel s s' (getFirst e)) (rsel s s' (getSecond e)).

Lemma eval_eta e : mkNode (mark e) (op e) (getFirst e) (getSecond e) = e.
Proof. by destruct e. Qed.

Lemma rsel_id s x : rsel s s x = x.
Proof. unfold rsel. by case_decide. Qed.

Lemma rsub_id s e : rsub s s e = e.
Proof. unfold rsub. rewrite !rsel_id. apply eval_eta. Qed.

Lemma map_rsub_id s l : map (rsub s s) l = l.
Proof. rewrite <- (map_id l) at 2. apply map_ext. apply rsub_id. Qed.

Lemma sel_test s i : is_EVAL (type s) && (opn s =? i) = bool_decide (s = mkSel i EVAL_HEAP).
Proof.
  destruct s as [k t]; simpl. unfold is_EVAL.
  destruct (decide (t = EVAL_HEAP)) as [->|Ht].
  - rewrite bool_decide_true by done. simpl. destruct (Z.eqb_spec k i) as [->|Hk].
    + by rewrite bool_decide_true.
    + rewrite bool_decide_false; congruence.
  - rewrite bool_decide_false by done. rewrite bool_decide_false; [done|congruence].
Qed.

Lemma subst_ref_rsub i ei e : subst_ref i ei e = rsub (mkSel i EVAL_HEAP) (getFirst ei) e.
Proof.
  destruct e as [m o i1 t1 i2 t2]. unfold subst_ref, rsub, rsel, getFirst, getSecond.
  cbn [mark op opn1 opn2 is_terminal1 is_terminal2].
  pose proof (sel_test (mkSel i1 t1) i) as E1. cbn [type opn] in E1. rewrite E1. clear E1.
  pose proof (sel_test (mkSel i2 t2) i) as E2. cbn [type opn] in E2.
  unfold assign_unary_to_first, assign_unary_to_second, setFirst, setSecond, getFirst.
  cbv zeta. destruct (decide (mkSel i1 t1 = _)) as [H1|H1], (decide (mkSel i2 t2 = _)) as [H2|H2].
  all: rewrite ?(bool_decide_true _ H1), ?(bool_decide_false _ H1).
  all: cbn [mark op opn1 opn2 is_terminal1 is_terminal2].
  all: rewrite E2, ?(bool_decide_true _ H2), ?(bool_decide_false _ H2); done.
Qed.

(** ** Ordering *)

Definition swapped (s1 s2 : stack_el) : bool := is_EVAL (type s2) && (opn s1 <? opn s2).

Definition onode (o : WQLOperation) (swap : bool) (s1 s2 : stack_el) : eval_el :=
  if swap then mkNode false o s2 s1 else mkNode false o s1 s2.

Lemma order_mkNode m o s1 s2 :
  order (mkNode m o s1 s2) = set_mark m (onode o (swapped s1 s2) s1 s2).
Proof.
  destruct s1 as [k1 t1], s2 as [k2 t2]. unfold order, onode, swapped, mkNode, is_EVAL. simpl.
  destruct t1, t2; simpl; try done; by destruct (k1 <? k2).
Qed.

(** ** The layout after [_pushNOTDown]; [pol] tells whether the clause is
   under a pending NOT. *)

Fixpoint pref (tb b : nat) (e : wexpr) : stack_el :=
  match e with
  | WNot e => pref tb b e
  | e => lref tb b e
  end.

Fixpoint pterms (pol : bool) (e : wexpr) : list term_el :=
  match e with
  | WComp o a b => [if pol then negate (mkTerm false o a b) else mkTerm false o a b]
  | WNot e => pterms (negb pol) e
  | WBin _ e1 e2 => pterms pol e1 ++ pterms pol e2
  end.

Definition pol_op (pol : bool) (o : WQLOperation) : WQLOperation := if pol then flip_op o else o.

Fixpoint playout (tb b : nat) (pol : bool) (e : wexpr) : list eval_el :=
  match e with
  | WComp _ _ _ => []
  | WNot e => playout tb b (negb pol) e ++ [mkNode false WQL_DO_NOTHING (pref tb b e) none_ref]
  | WBin o e1 e2 =>
      let tb2 := (tb + nterm e1)%nat in
      let b2 := (b + nev e1)%nat in
      playout tb b pol e1 ++ playout tb2 b2 pol e2 ++
      [onode (pol_op pol o) (swapped (lref tb b e1) (lref tb2 b2 e2))
         (pref tb b e1) (pref tb2 b2 e2)]
  end.

(** The heaps before the clause is visited, with a NOT pending or not. *)
Definition mterms (pol : bool) (e : wexpr) : list term_el :=
  match e with
  | WComp _ _ _ => pterms pol e
  | e => lterms e
  end.

Definition mlayout (tb b : nat) (pol : bool) (e : wexpr) : list eval_el :=
  match e with
  | WComp _ _ _ => []
  | WNot e => layout tb b e ++ [mkNode pol WQL_NOT (lref tb b e) none_ref]
  | WBin o e1 e2 =>
      layout tb b e1 ++ layout (tb + nterm e1) (b + nev e1) e2 ++
      [mkNode pol o (lref tb b e1) (lref (tb + nterm e1) (b + nev e1) e2)]
  end.

Lemma mlayout_false tb b e : mlayout tb b false e = layout tb b e.
Proof. by destruct e. Qed.
Lemma mterms_false e : mterms false e = lterms e.
Proof. by destruct e. Qed.

Lemma length_pterms pol e : length (pterms pol e) = nterm e.
Proof.
  unfold nterm. revert pol; induction e; intros; simpl; rewrite ?length_app; auto.
Qed.
Lemma length_mterms pol e : length (mterms pol e) = nterm e.
Proof. destruct e; [by apply length_pterms|done..]. Qed.
Lemma length_playout tb b pol e : length (playout tb b pol e) = nev e.
Proof.
  revert tb b pol; induction e; intros; simpl; rewrite ?length_app; simpl;
    rewrite ?IHe, ?IHe1, ?IHe2; lia.
Qed.
Lemma length_mlayout tb b pol e : length (mlayout tb b pol e) = nev e.
Proof. destruct e; simpl; rewrite ?length_app, ?length_layout; simpl; lia. Qed.

Lemma push_ref_EVAL T A x S k :
  k = length A ->
  push_ref (eref k) (mkHeaps T (A ++ x :: S)) =
  Ok (mkHeaps T (A ++ set_mark (negb (mark x)) x :: S)).
Proof.
  intros ->. unfold push_ref. cbn [eref type opn evals terms].
  erewrite at_Some by (apply list_lookup_middle; reflexivity). cbn [mbind outcome_bind].
  by rewrite Nat2Z.id, insert_app_r_alt, Nat.sub_diag by lia.
Qed.

(** A pending NOT marks the root of a clause, or negates its comparison. *)
Lemma push_ref_pending TP TS P S tb b e :
  length TP = tb -> length P = b ->
  push_ref (lref tb b e) (mkHeaps (TP ++ lterms e ++ TS) (P ++ layout tb b e ++ S)) =
  Ok (mkHeaps (TP ++ mterms true e ++ TS) (P ++ mlayout tb b true e ++ S)).
Proof.
  intros <- <-. destruct e as [o x y|e|o e1 e2]; cbn [lref layout mlayout nev].
  - unfold push_ref. cbn [type tref opn terms evals].
    erewrite at_Some by (apply list_lookup_middle; reflexivity). cbn [mbind outcome_bind].
    rewrite Nat2Z.id. by rewrite insert_app_r_alt, Nat.sub_diag by lia.
  - rewrite <- !app_assoc. rewrite !(app_assoc P). cbn [app].
    apply push_ref_EVAL. rewrite length_app, length_layout. lia.
  - rewrite <- !app_assoc. rewrite !(app_assoc P). rewrite !(app_assoc (P ++ _)). cbn [app].
    apply push_ref_EVAL. rewrite !length_app, !length_layout. lia.
Qed.

(** ** One round *)

Lemma imap_after {A} (f : A -> A) (P : list A) x S :
  imap (fun j y => if (length P <? j)%nat then f y else y) (P ++ x :: S) = P ++ x :: map f S.
Proof.
  rewrite imap_app. f_equal.
  - apply list_eq. intros j.
    rewrite list_lookup_imap. destruct (P !! j) as [y|] eqn:E; [|done]. simpl.
    apply lookup_lt_Some in E. by rewrite (proj2 (Nat.ltb_ge _ _)) by lia.
  - cbn [imap]. unfold compose. rewrite Nat.add_0_r, Nat.ltb_irrefl. f_equal.
    apply list_eq. intros j. rewrite list_lookup_imap, list_lookup_fmap.
    destruct (S !! j); simpl; [|done]. by rewrite (proj2 (Nat.ltb_lt _ _)) by lia.
Qed.

Lemma push_step_not T P S pol s :
  push_step (length P) (mkHeaps T (P ++ mkNode pol WQL_NOT s none_ref :: S)) =
  let h := mkHeaps T (P ++ mkNode false WQL_DO_NOTHING s none_ref
                        :: map (rsub (eref (length P)) s) S) in
  if pol then Ok h else push_ref s h.
Proof.
  assert (Hins : forall x y, <[length P := x]> (P ++ y :: S) = P ++ x :: S).
  { intros. by rewrite insert_app_r_alt, Nat.sub_diag by lia. }
  assert (Himap : forall ei, imap (fun j x => if (length P <? j)%nat
                    then subst_ref (Z.of_nat (length P)) ei x else x) (P ++ ei :: S)
                  = P ++ ei :: map (rsub (eref (length P)) (getFirst ei)) S).
  { intros. rewrite imap_after. do 2 f_equal. apply map_ext. intros. apply subst_ref_rsub. }
  assert (Hins' : forall x y S, <[length P := x]> (P ++ y :: S) = P ++ x :: S).
  { intros. by rewrite insert_app_r_alt, Nat.sub_diag by lia. }
  unfold push_step. cbn [evals]. rewrite list_lookup_middle by done.
  cbn [present mbind outcome_bind].
  rewrite order_mkNode. unfold swapped, onode.
  change (is_EVAL (type none_ref)) with false. cbn [andb]. rewrite Hins.
  unfold set_mark, mkNode at 1 2 3. cbn [mark op opn1 opn2 is_terminal1 is_terminal2].
  rewrite bool_decide_true by done. rewrite Hins, Himap.
  unfold set_op. cbn [mark op opn1 opn2 is_terminal1 is_terminal2].
  destruct s as [k t]. destruct pol; cbn [mark set_mark negb].
  - by rewrite Hins'.
  - unfold mkNode, getFirst, none_ref. cbn [opn type opn1 opn2 is_terminal1 is_terminal2].
    destruct (push_ref _ _); done.
Qed.

Lemma push_step_bin T P S pol o s1 s2 :
  is_connective o = true -> 0 <= opn s1 -> 0 <= opn s2 ->
  push_step (length P) (mkHeaps T (P ++ mkNode pol o s1 s2 :: S)) =
  let h := mkHeaps T (P ++ onode (pol_op pol o) (swapped s1 s2) s1 s2 :: S) in
  if pol then
    if swapped s1 s2 then h ← push_ref s2 h; push_ref s1 h
    else h ← push_ref s1 h; push_ref s2 h
  else Ok h.
Proof.
  intros Ho H1 H2.
  assert (Hins : forall x y, <[length P := x]> (P ++ y :: S) = P ++ x :: S).
  { intros. by rewrite insert_app_r_alt, Nat.sub_diag by lia. }
  assert (Hnot : o <> WQL_NOT) by (by intros ->).
  unfold push_step. cbn [evals]. rewrite list_lookup_middle by done.
  cbn [present mbind outcome_bind]. rewrite order_mkNode, Hins.
  unfold onode. destruct (swapped s1 s2); unfold set_mark, mkNode, set_op;
    cbn [mark op opn1 opn2 is_terminal1 is_terminal2];
    (rewrite bool_decide_false by done); destruct pol;
    cbn [mark op opn1 opn2 is_terminal1 is_terminal2 negb]; try done; rewrite Hins;
    unfold getFirst, getSecond; cbn [opn1 opn2 is_terminal1 is_terminal2];
    rewrite (proj2 (Z.leb_le _ _)) by done; destruct s1, s2; done.
Qed.

(** ** References into a range *)

(** [s] does not point strictly inside the clause laid out at [b]: its root,
   the last element, is allowed. *)
Definition sel_avoids (b n : nat) (s : stack_el) : Prop :=
  type s = EVAL_HEAP -> opn s < Z.of_nat b \/ Z.of_nat b + Z.of_nat n - 1 <= opn s.
Definition avoids (b n : nat) (e : eval_el) : Prop :=
  sel_avoids b n (getFirst e) /\ sel_avoids b n (getSecond e).

Definition sel_within (b n : nat) (s : stack_el) : Prop :=
  type s = EVAL_HEAP -> Z.of_nat b <= opn s < Z.of_nat b + Z.of_nat n.
Definition within (b n : nat) (e : eval_el) : Prop :=
  sel_within b n (getFirst e) /\ sel_within b n (getSecond e).

Lemma lref_within tb b e : sel_within b (nev e) (lref tb b e).
Proof. destruct e; unfold sel_within; simpl; intros; try done; lia. Qed.

Lemma pref_within tb b e : sel_within b (nev e) (pref tb b e).
Proof.
  induction e as [|e IH|]; cbn [pref]; [apply lref_within| |apply lref_within].
  intros H. specialize (IH H). simpl. lia.
Qed.

Lemma sel_within_mono b n b' n' s :
  (b' <= b)%nat -> (b + n <= b' + n')%nat -> sel_within b n s -> sel_within b' n' s.
Proof. unfold sel_within. intros ?? H Ht. specialize (H Ht). lia. Qed.

Lemma within_mono b n b' n' l :
  (b' <= b)%nat -> (b + n <= b' + n')%nat -> Forall (within b n) l -> Forall (within b' n') l.
Proof.
  intros ?? Hl. eapply Forall_impl; [done|]. intros e [Hf Hs]. split; by eapply sel_within_mono.
Qed.

Lemma onode_within b n o sw s1 s2 :
  sel_within b n s1 -> sel_within b n s2 -> within b n (onode o sw s1 s2).
Proof. destruct sw, s1, s2; done. Qed.

Lemma playout_within tb b pol e : Forall (within b (nev e)) (playout tb b pol e).
Proof.
  revert tb b pol; induction e as [|e IH|o e1 IH1 e2 IH2]; intros; cbn [playout nev].
  - constructor.
  - apply Forall_app; split; [eapply within_mono; [..|apply IH]; lia|].
    apply Forall_singleton. split; [|done].
    replace (getFirst _) with (pref tb b e) by (by destruct (pref tb b e)).
    eapply sel_within_mono; [..|apply pref_within]; lia.
  - apply Forall_app; split; [eapply within_mono; [..|apply IH1]; lia|].
    apply Forall_app; split; [eapply within_mono; [..|apply IH2]; lia|].
    apply Forall_singleton, onode_within; (eapply sel_within_mono; [..|apply pref_within]); lia.
Qed.

Lemma within_avoids b n b' n' l :
  (b + n <= b' \/ b' + n' <= b + 1)%nat -> Forall (within b n) l -> Forall (avoids b' n') l.
Proof.
  intros Hd Hl. eapply Forall_impl; [done|]. intros e [Hf Hs].
  split; intros Ht; [specialize (Hf Ht)|specialize (Hs Ht)]; lia.
Qed.

Lemma rsel_avoids b n k s' x :
  sel_avoids b n x -> (b <= k)%nat -> (k + 1 < b + n)%nat -> rsel (eref k) s' x = x.
Proof.
  intros Ha Hb Hk. unfold rsel. case_decide as E; [|done]. subst x.
  specialize (Ha eq_refl). simpl in Ha. lia.
Qed.

(** Replacing the root of a clause changes nothing in elements that do not
   point inside a range the root is strictly inside of. *)
Lemma map_rsub_avoids b n tb' b' e s' l :
  s' = pref tb' b' e ->
  (b <= b')%nat -> (b' + nev e < b + n)%nat -> Forall (avoids b n) l ->
  map (rsub (lref tb' b' e) s') l = l.
Proof.
  intros -> Hb Hn Hl. destruct (decide (type (lref tb' b' e) = EVAL_HEAP)) as [Ht|Ht].
  - apply lref_EVAL in Ht as [Hpos ->]. rewrite <- (map_id l) at 2. apply map_ext_Forall.
    eapply Forall_impl; [done|]. intros x [Hf Hs]. unfold rsub.
    rewrite !(rsel_avoids b n) by (done || lia). apply eval_eta.
  - destruct e; simpl in *; [apply map_rsub_id|done..].
Qed.

Lemma avoids_shrink b n b' n' l :
  (b <= b')%nat -> (b' + n' <= b + n)%nat -> Forall (avoids b n) l -> Forall (avoids b' n') l.
Proof.
  intros ?? Hl. eapply Forall_impl; [done|]. intros e [Hf Hs].
  split; intros Ht; [specialize (Hf Ht)|specialize (Hs Ht)]; lia.
Qed.

(** ** All rounds *)

(** Elements [b + n - 1] down to [b]. *)
Fixpoint push_range (b n : nat) (h : Heaps) : outcome Heaps :=
  match n with
  | O => Ok h
  | S n => h ← push_step (b + n) h; push_range b n h
  end.

Lemma push_loop_range n h : push_loop n h = push_range 0 n h.
Proof.
  revert h; induction n as [|n IH]; intros; simpl; [done|].
  destruct (push_step n h); simpl; auto.
Qed.

Lemma push_range_app b n1 n2 h :
  push_range b (n1 + n2) h = (h ← push_range (b + n1) n2 h; push_range b n1 h).
Proof.
  revert h; induction n2 as [|n2 IH]; intros; [by rewrite Nat.add_0_r|].
  rewrite Nat.add_succ_r. cbn [push_range]. rewrite Nat.add_assoc.
  destruct (push_step _ h); cbn [mbind outcome_bind]; [apply IH|done..].
Qed.

Lemma rsub_mkNode s s' m o s1 s2 :
  rsub s s' (mkNode m o s1 s2) = mkNode m o (rsel s s' s1) (rsel s s' s2).
Proof. by destruct s1, s2. Qed.

Lemma rsel_hit s s' : rsel s s' s = s'.
Proof. unfold rsel. by rewrite decide_True. Qed.

Lemma rsel_lref_within b n tb' b' e s :
  sel_within b n s -> (b + n <= b' \/ b' + nev e <= b)%nat ->
  rsel (lref tb' b' e) (pref tb' b' e) s = s.
Proof.
  intros Hs Hd. unfold rsel. case_decide as E; [|done]. subst s.
  destruct (decide (type (lref tb' b' e) = EVAL_HEAP)) as [Ht|Ht].
  - specialize (Hs Ht). apply lref_EVAL in Ht as [Hpos E]. rewrite E in Hs. simpl in Hs. lia.
  - by destruct e.
Qed.

(** The references to the two operands of a binary node are replaced one
   after the other. *)
Lemma rsub_onode_second tb1 b1 e1 tb2 b2 e2 o sw :
  (b1 + nev e1 <= b2)%nat ->
  rsub (lref tb2 b2 e2) (pref tb2 b2 e2) (onode o sw (lref tb1 b1 e1) (lref tb2 b2 e2)) =
  onode o sw (lref tb1 b1 e1) (pref tb2 b2 e2).
Proof.
  intros Hb. pose proof (rsel_lref_within b1 (nev e1) tb2 b2 e2 _ (lref_within tb1 b1 e1)) as E.
  destruct sw; unfold onode; rewrite rsub_mkNode, rsel_hit, E by lia; done.
Qed.

Lemma rsub_onode_first tb1 b1 e1 tb2 b2 e2 o sw :
  (b1 + nev e1 <= b2)%nat ->
  rsub (lref tb1 b1 e1) (pref tb1 b1 e1) (onode o sw (lref tb1 b1 e1) (pref tb2 b2 e2)) =
  onode o sw (pref tb1 b1 e1) (pref tb2 b2 e2).
Proof.
  intros Hb. pose proof (rsel_lref_within b2 (nev e2) tb1 b1 e1 _ (pref_within tb2 b2 e2)) as E.
  destruct sw; unfold onode; rewrite rsub_mkNode, rsel_hit, E by lia; done.
Qed.

Lemma map_rsub_within b n tb' b' e l :
  (b' + nev e <= b)%nat -> Forall (within b n) l ->
  map (rsub (lref tb' b' e) (pref tb' b' e)) l = l.
Proof.
  intros Hd Hl. rewrite <- (map_id l) at 2. apply map_ext_Forall.
  eapply Forall_impl; [done|]. intros x [Hf Hs]. unfold rsub.
  rewrite !(rsel_lref_within b n) by (done || lia). apply eval_eta.
Qed.

Lemma opn_lref tb b e : 0 <= opn (lref tb b e).
Proof. destruct e; simpl; lia. Qed.

(** Visiting the root of a NOT leaves its operand to be visited with the
   opposite polarity. *)
Lemma push_root_not TP TS P S tb b pol e :
  length TP = tb -> length P = b ->
  push_step (b + nev e) (mkHeaps (TP ++ lterms e ++ TS) (P ++ mlayout tb b pol (WNot e) ++ S)) =
  Ok (mkHeaps (TP ++ mterms (negb pol) e ++ TS)
        (P ++ mlayout tb b (negb pol) e ++ mkNode false WQL_DO_NOTHING (lref tb b e) none_ref
           :: map (rsub (eref (b + nev e)) (lref tb b e)) S)).
Proof.
  intros HT HP. cbn [mlayout]. rewrite <- app_assoc, (app_assoc P). cbn [app].
  assert (b + nev e = length (P ++ layout tb b e))%nat as EL
    by (rewrite length_app, length_layout; lia).
  rewrite EL, push_step_not. destruct pol; cbv zeta; rewrite <- EL, <- app_assoc.
  - by rewrite mlayout_false, mterms_false.
  - by apply push_ref_pending.
Qed.

(** Visiting a binary root hands its polarity to both operands. *)
Lemma push_root_bin TP TS P S tb b pol o e1 e2 :
  is_connective o = true -> length TP = tb -> length P = b ->
  let tb2 := (tb + nterm e1)%nat in
  let b2 := (b + nev e1)%nat in
  push_step (b + (nev e1 + nev e2))
    (mkHeaps (TP ++ lterms (WBin o e1 e2) ++ TS) (P ++ mlayout tb b pol (WBin o e1 e2) ++ S)) =
  Ok (mkHeaps (TP ++ mterms pol e1 ++ mterms pol e2 ++ TS)
        (P ++ mlayout tb b pol e1 ++ mlayout tb2 b2 pol e2 ++
           onode (pol_op pol o) (swapped (lref tb b e1) (lref tb2 b2 e2))
             (lref tb b e1) (lref tb2 b2 e2) :: S)).
Proof.
  intros Ho HT HP tb2 b2. cbn [mlayout lterms]. fold tb2 b2.
  rewrite <- !app_assoc. rewrite (app_assoc P), (app_assoc (P ++ _)). cbn [app].
  assert (b + (nev e1 + nev e2) = length ((P ++ layout tb b e1) ++ layout tb2 b2 e2))%nat as EL
    by (rewrite !length_app, !length_layout; lia).
  rewrite EL, push_step_bin by (done || apply opn_lref). cbv zeta. rewrite <- !app_assoc.
  destruct pol; [|by rewrite !mlayout_false, !mterms_false].
  set (x := onode _ _ _ _).
  assert (Hfst : forall TS' S',
    push_ref (lref tb b e1) (mkHeaps (TP ++ lterms e1 ++ TS') (P ++ layout tb b e1 ++ S')) =
    Ok (mkHeaps (TP ++ mterms true e1 ++ TS') (P ++ mlayout tb b true e1 ++ S')))
    by (intros; by apply push_ref_pending).
  assert (Hsnd : forall TP' P' TS' S', length TP' = tb2 -> length P' = b2 ->
    push_ref (lref tb2 b2 e2) (mkHeaps (TP' ++ lterms e2 ++ TS') (P' ++ layout tb2 b2 e2 ++ S')) =
    Ok (mkHeaps (TP' ++ mterms true e2 ++ TS') (P' ++ mlayout tb2 b2 true e2 ++ S')))
    by (intros; by apply push_ref_pending).
  destruct (swapped _ _).
  - rewrite (app_assoc TP), (app_assoc P), Hsnd.
    + cbn [mbind outcome_bind]. by rewrite <- !app_assoc, Hfst.
    + rewrite length_app. unfold tb2, nterm. lia.
    + rewrite length_app, length_layout. unfold b2. lia.
  - rewrite Hfst. cbn [mbind outcome_bind]. rewrite (app_assoc TP), (app_assoc P), Hsnd.
    + by rewrite <- !app_assoc.
    + rewrite length_app, length_mterms. unfold tb2. lia.
    + rewrite length_app, length_mlayout. unfold b2. lia.
Qed.

(** Replacing a NOT by its operand and then the operand by what stands for
   it is one replacement. *)
Lemma rsel_compose tb b e s :
  sel_avoids b (nev e + 1) s ->
  rsel (lref tb b e) (pref tb b e) (rsel (eref (b + nev e)) (lref tb b e) s) =
  rsel (eref (b + nev e)) (pref tb b e) s.
Proof.
  intros Ha. unfold rsel at 2 3. case_decide as E; [apply rsel_hit|].
  destruct (decide (type (lref tb b e) = EVAL_HEAP)) as [Ht|Ht].
  - apply lref_EVAL in Ht as [Hpos ->]. eapply rsel_avoids; [done|lia..].
  - destruct e; simpl in *; [apply rsel_id|done..].
Qed.

Lemma rsub_compose tb b e S :
  Forall (avoids b (nev e + 1)) S ->
  map (rsub (lref tb b e) (pref tb b e)) (map (rsub (eref (b + nev e)) (lref tb b e)) S) =
  map (rsub (eref (b + nev e)) (pref tb b e)) S.
Proof.
  intros HS. rewrite map_map. apply map_ext_Forall. eapply Forall_impl; [done|].
  intros z [Hf Hs]. unfold rsub at 2 3. rewrite rsub_mkNode, !rsel_compose by done. done.
Qed.

Lemma getFirst_mkNode m o s1 s2 : getFirst (mkNode m o s1 s2) = s1.
Proof. by destruct s1. Qed.
Lemma getSecond_mkNode m o s1 s2 : getSecond (mkNode m o s1 s2) = s2.
Proof. by destruct s2. Qed.

Lemma avoids_mkNode b n m o s1 s2 :
  sel_avoids b n s1 -> sel_avoids b n s2 -> avoids b n (mkNode m o s1 s2).
Proof. unfold avoids. by rewrite getFirst_mkNode, getSecond_mkNode. Qed.

Lemma avoids_onode b n o sw s1 s2 :
  sel_avoids b n s1 -> sel_avoids b n s2 -> avoids b n (onode o sw s1 s2).
Proof. intros. destruct sw; by apply avoids_mkNode. Qed.

Lemma lref_avoids tb b e : sel_avoids b (nev e) (lref tb b e).
Proof. intros Ht. apply lref_EVAL in Ht as [Hpos ->]. simpl. lia. Qed.

Lemma within_sel_avoids b n b' n' s :
  (b + n <= b' \/ b' + n' <= b + 1)%nat -> sel_within b n s -> sel_avoids b' n' s.
Proof. intros Hd Hs Ht. specialize (Hs Ht). lia. Qed.

Lemma avoids_rsub_root tb b e S :
  Forall (avoids b (nev e + 1)) S ->
  Forall (avoids b (nev e)) (map (rsub (eref (b + nev e)) (lref tb b e)) S).
Proof.
  intros HS. apply Forall_map. eapply Forall_impl; [done|]. intros z [Hf Hs].
  apply avoids_mkNode; unfold rsel; case_decide; try apply lref_avoids; intros Ht;
    [specialize (Hf Ht)|specialize (Hs Ht)]; lia.
Qed.

(** The heaps after the rounds for one clause. *)
Lemma push_range_playout e : forall pol TP TS P S tb b,
  wf e = true -> length TP = tb -> length P = b -> Forall (avoids b (nev e)) S ->
  push_range b (nev e) (mkHeaps (TP ++ mterms pol e ++ TS) (P ++ mlayout tb b pol e ++ S)) =
  Ok (mkHeaps (TP ++ pterms pol e ++ TS)
        (P ++ playout tb b pol e ++ map (rsub (lref tb b e) (pref tb b e)) S)).
Proof.
  induction e as [o x y|e IH|o e1 IH1 e2 IH2]; intros pol TP TS P S tb b Hwf HT HP HS;
    cbn [nev wf] in *.
  - cbn [push_range mlayout playout app pref]. by rewrite map_rsub_id.
  - rewrite (Nat.add_comm (nev e)). cbn [push_range mterms lterms Nat.add].
    rewrite push_root_not by done. cbn [mbind outcome_bind].
    rewrite IH; [|done..|].
    + cbn [pterms playout pref lref map nev]. rewrite rsub_mkNode, rsel_hit, <- app_assoc. cbn [app].
      assert (rsel (lref tb b e) (pref tb b e) none_ref = none_ref) as ->.
      { unfold rsel. case_decide as E; [|done]. destruct e; simpl in E; done. }
      rewrite rsub_compose by done. by replace (b + (nev e + 1) - 1)%nat with (b + nev e)%nat by lia.
    + constructor; [|by apply avoids_rsub_root]. apply avoids_mkNode; [apply lref_avoids|done].
  - apply andb_true_iff in Hwf as [Hwf Hw2]. apply andb_true_iff in Hwf as [Ho Hw1].
    rewrite (Nat.add_comm (_ + _)%nat). cbn [push_range mterms Nat.add].
    rewrite push_root_bin by done. cbn [mbind outcome_bind].
    rewrite push_range_app, (app_assoc TP), (app_assoc P), IH2; [|done|..].
    2:{ rewrite length_app, length_mterms. lia. }
    2:{ rewrite length_app, length_mlayout. lia. }
    2:{ constructor; [|eapply avoids_shrink; [..|done]; lia].
        apply avoids_onode; [|apply lref_avoids].
        eapply within_sel_avoids; [|apply lref_within]. lia. }
    cbn [mbind outcome_bind map].
    rewrite (map_rsub_avoids b (nev e1 + nev e2 + 1) _ _ e2) by (done || lia).
    rewrite <- !app_assoc. rewrite IH1; [|done..|].
    2:{ apply Forall_app; split; [eapply within_avoids; [|apply playout_within]; lia|].
        constructor; [|eapply avoids_shrink; [..|done]; lia].
        rewrite rsub_onode_second by lia.
        apply avoids_onode; [apply lref_avoids|].
        eapply within_sel_avoids; [|apply pref_within]. lia. }
    cbn [pterms playout lref pref]. rewrite map_app. cbn [map].
    rewrite rsub_onode_second, rsub_onode_first by lia.
    rewrite (map_rsub_within (b + nev e1) (nev e2)) by (lia || apply playout_within).
    rewrite (map_rsub_avoids b (nev e1 + nev e2 + 1) _ _ e1) by (done || lia).
    rewrite map_rsub_id. by rewrite <- !app_assoc.
Qed.

Lemma pushNOTDown_playout e th :
  wf e = true ->
  _pushNOTDown (mkHeaps (th ++ lterms e) (layout (length th) 0 e)) =
  Ok (mkHeaps (th ++ pterms false e) (playout (length th) 0 false e)).
Proof.
  intros Hwf. unfold _pushNOTDown. cbn [evals]. rewrite length_layout, push_loop_range.
  pose proof (push_range_playout e false th [] [] [] (length th) 0 Hwf eq_refl eq_refl
    ltac:(constructor)) as E.
  rewrite mterms_false, mlayout_false in E. cbn [app map] in E. by rewrite !app_nil_r in E.
Qed.
End Not.
