(* ===== verification/WqlHeap.v ===== *)
(** * Values and shape of an evaluation heap

   After [_pushNOTDown] the heap holds ANDs, ORs and elements without an
   operation.  An algebra gives every element a value ([halg]); [heap_ok] is
   the shape the later passes rely on, [uniq] the absence of sharing among
   ORs. *)

From S2P Require Import Prelude Wql WqlCompile WqlExpr WqlNot.

Section Fold.
Context {T : Type} (leaf : stack_el -> T) (node : eval_el -> T -> T -> T) (dflt : T).
Let hf := hfold leaf node dflt.
Let hv := hval leaf dflt.

Lemma hfold_snoc eh e :
  hf (eh ++ [e]) = hf eh ++ [node e (hv (hf eh) (getFirst e)) (hv (hf eh) (getSecond e))].
Proof. unfold hf, hfold. by rewrite fold_left_app. Qed.

Lemma length_hfold eh : length (hf eh) = length eh.
Proof.
  induction eh as [|e eh IH] using rev_ind; [done|].
  rewrite hfold_snoc, !length_app, IH. done.
Qed.

Lemma hfold_app eh k : exists ts, hf (eh ++ k) = hf eh ++ ts.
Proof.
  induction k as [|e k [ts IH]] using rev_ind.
  - exists []. by rewrite !app_nil_r.
  - rewrite app_assoc, hfold_snoc, IH. eexists. by rewrite <- app_assoc.
Qed.

Lemma hval_prefix vs ts s :
  (type s = EVAL_HEAP -> 0 <= opn s < zlen vs) -> hv (vs ++ ts) s = hv vs s.
Proof.
  intros H. unfold hv, hval. destruct (type s); try done. unfold is_EVAL.
  rewrite bool_decide_true by done. specialize (H eq_refl). unfold zlen in H.
  rewrite app_nth1; [done|lia].
Qed.

Lemma hval_eref vs k : hv vs (eref k) = nth k vs dflt.
Proof. unfold hv, hval. simpl. by rewrite Nat2Z.id. Qed.

(** [s] refers to an element before [k], or to something else. *)
Definition sel_lt (k : nat) (s : stack_el) : Prop :=
  type s = EVAL_HEAP -> 0 <= opn s < Z.of_nat k.

(** The value of an element in terms of the values of its operands. *)
Lemma hfold_eq eh k e :
  eh !! k = Some e -> sel_lt k (getFirst e) -> sel_lt k (getSecond e) ->
  hv (hf eh) (eref k) = node e (hv (hf eh) (getFirst e)) (hv (hf eh) (getSecond e)).
Proof.
  intros Hk H1 H2. rewrite <- (take_drop_middle eh k e Hk).
  assert (length (take k eh) = k) as Hl.
  { apply lookup_lt_Some in Hk. rewrite length_take. lia. }
  destruct (hfold_app (take k eh ++ [e]) (drop (S k) eh)) as [ts E].
  rewrite <- app_assoc in E. cbn [app] in E. rewrite E, hfold_snoc.
  rewrite hval_eref, app_nth1 by (rewrite length_app, length_hfold; simpl; lia).
  rewrite app_nth2 by (rewrite length_hfold; lia). rewrite length_hfold, Hl, Nat.sub_diag.
  cbn [nth].
  rewrite <- !app_assoc, !hval_prefix; [done|intros Ht..].
  - unfold zlen. rewrite length_hfold, Hl. by apply H2.
  - unfold zlen. rewrite length_hfold, Hl. by apply H1.
Qed.
End Fold.

(** ** Algebras *)

Record Alg (T : Type) := mkAlg {
  a_leaf : stack_el -> T;
  a_and : T -> T -> T;
  a_or : T -> T -> T;
  a_none : T;
}.
Arguments a_leaf {T}. Arguments a_and {T}. Arguments a_or {T}. Arguments a_none {T}.

Definition a_node {T} (A : Alg T) (e : eval_el) (x y : T) : T :=
  match op e with
  | WQL_AND => a_and A x y
  | WQL_OR => a_or A x y
  | _ => a_none A
  end.

(** The values of all elements, and the value of an operand. *)
Definition vals {T} (A : Alg T) : list eval_el -> list T := hfold (a_leaf A) (a_node A) (a_none A).
Definition sval {T} (A : Alg T) (eh : list eval_el) (s : stack_el) : T :=
  hval (a_leaf A) (a_none A) (vals A eh) s.

Definition count_alg : Alg nat := mkAlg _ (fun _ => 1%nat) Nat.mul Nat.add 1%nat.

Lemma disjuncts_vals eh : disjuncts eh = vals count_alg eh.
Proof. done. Qed.

Section Shape.
Context `{lib : WqlLib}.

(** Truth: terminal [k] of [th] has the value [v] gives it. *)
Definition bool_alg (th : list term_el) (v : term_el -> bool) : Alg bool :=
  mkAlg _ (fun s => match th !! Z.to_nat (opn s) with Some t => v t | None => false end)
    andb orb false.

(** The algebras for which factoring preserves values. *)
Class Distributive {T} (A : Alg T) : Prop := {
  a_and_comm x y : a_and A x y = a_and A y x;
  a_distr x y z : a_and A (a_or A x y) z = a_or A (a_and A z x) (a_and A z y);
}.

#[export] Instance count_distr : Distributive count_alg.
Proof. split; simpl; intros; lia. Qed.
#[export] Instance bool_distr th v : Distributive (bool_alg th v).
Proof. split; simpl; intros; [apply andb_comm|]. destruct x, y, z; done. Qed.

(** ** Shape *)

Definition active (e : eval_el) : Prop := op e = WQL_AND \/ op e = WQL_OR.
Definition inert (e : eval_el) : Prop := op e = WQL_DO_NOTHING.

(** An operand of element [k]: an earlier element that has an operation, or
   one of [nt] terminals. *)
Definition sel_ok (nt : nat) (eh : list eval_el) (k : nat) (s : stack_el) : Prop :=
  (exists j x, s = eref j /\ (j < k)%nat /\ eh !! j = Some x /\ active x) \/
  (exists j, s = tref j /\ (j < nt)%nat).

Definition sel (e : eval_el) (b : bool) : stack_el := if b then getFirst e else getSecond e.

Definition heap_ok (nt : nat) (eh : list eval_el) : Prop :=
  forall k e, eh !! k = Some e ->
    inert e \/ (active e /\ forall b, sel_ok nt eh k (sel e b)).

Lemma sel_ok_lt nt eh k s : sel_ok nt eh k s -> sel_lt k s.
Proof. intros [(j & x & -> & Hj & _)|(j & -> & _)] Ht; [simpl; lia|done]. Qed.

Lemma sel_ok_mono nt eh k k' s : (k <= k')%nat -> sel_ok nt eh k s -> sel_ok nt eh k' s.
Proof.
  intros Hk [(j & x & -> & Hj & Hx)|Ht]; [left|by right]. exists j, x. repeat split; try apply Hx. lia.
Qed.

Lemma active_not_inert e : active e -> ~ inert e.
Proof. unfold inert. by intros [-> | ->]. Qed.

Lemma heap_ok_active nt eh k e :
  heap_ok nt eh -> eh !! k = Some e -> active e -> forall b, sel_ok nt eh k (sel e b).
Proof.
  intros H Hk Ha. destruct (H k e Hk) as [Hi|[_ Hs]]; [|done].
  by apply active_not_inert in Ha.
Qed.

(** The value of an element that has an operation. *)
Lemma sval_node {T} (A : Alg T) nt eh k e :
  heap_ok nt eh -> eh !! k = Some e -> active e ->
  sval A eh (eref k) = a_node A e (sval A eh (getFirst e)) (sval A eh (getSecond e)).
Proof.
  intros H Hk Ha. apply hfold_eq; [done|..].
  - apply (sel_ok_lt nt eh), (heap_ok_active nt eh k e H Hk Ha true).
  - apply (sel_ok_lt nt eh), (heap_ok_active nt eh k e H Hk Ha false).
Qed.

Lemma sval_tref {T} (A : Alg T) eh k : sval A eh (tref k) = a_leaf A (tref k).
Proof. done. Qed.

(** ** The shape of [playout] *)

(** [heap_ok] for a fragment laid out at [tb] and [b]. *)
Definition fsel (tb nt b : nat) (l : list eval_el) (k : nat) (s : stack_el) : Prop :=
  (exists j x, s = eref (b + j) /\ (j < k)%nat /\ l !! j = Some x /\ active x) \/
  (exists j, s = tref (tb + j) /\ (j < nt)%nat).
Definition frag (tb nt b : nat) (l : list eval_el) : Prop :=
  forall k e, l !! k = Some e -> inert e \/ (active e /\ forall c, fsel tb nt b l k (sel e c)).

Lemma fsel_app_l tb nt nt' b l1 l2 k k' s :
  (nt <= nt')%nat -> (k <= k')%nat -> fsel tb nt b l1 k s -> fsel tb nt' b (l1 ++ l2) k' s.
Proof.
  intros Hnt Hk [(j & x & -> & Hj & Hx & Ha)|(j & -> & Hj)]; [left|right].
  - exists j, x. split_and!; try done; [lia|by apply lookup_app_l_Some].
  - exists j. split; [done|lia].
Qed.

Lemma fsel_app_r tb t nt b l1 l2 k s :
  fsel (tb + t) nt (b + length l1) l2 k s -> fsel tb (t + nt) b (l1 ++ l2) (length l1 + k) s.
Proof.
  intros [(j & x & -> & Hj & Hx & Ha)|(j & -> & Hj)]; [left|right].
  - exists (length l1 + j)%nat, x. split_and!; try done; [f_equal; lia|lia|].
    rewrite lookup_app_r by lia. by replace (length l1 + j - length l1)%nat with j by lia.
  - exists (t + j)%nat. split; [f_equal|]; lia.
Qed.

Lemma frag_app tb t nt b l1 l2 :
  frag tb t b l1 -> frag (tb + t) nt (b + length l1) l2 -> frag tb (t + nt) b (l1 ++ l2).
Proof.
  intros H1 H2 k e [Hk|[Hl Hk]]%lookup_app_Some.
  - destruct (H1 k e Hk) as [|[Ha Hs]]; [by left|right]. split; [done|]. intros c.
    eapply fsel_app_l; [..|apply Hs]; lia.
  - destruct (H2 _ e Hk) as [|[Ha Hs]]; [by left|right]. split; [done|]. intros c.
    replace k with (length l1 + (k - length l1))%nat by lia. by apply fsel_app_r.
Qed.

Lemma frag_snoc tb nt b l x :
  frag tb nt b l -> (inert x \/ (active x /\ forall c, fsel tb nt b l (length l) (sel x c))) ->
  frag tb nt b (l ++ [x]).
Proof.
  intros H Hx k e [Hk|[Hl Hk]]%lookup_app_Some.
  - destruct (H k e Hk) as [|[Ha Hs]]; [by left|right]. split; [done|]. intros c.
    eapply fsel_app_l; [..|apply Hs]; lia.
  - apply list_lookup_singleton_Some in Hk as [Hk <-].
    destruct Hx as [|[Ha Hs]]; [by left|right]. split; [done|]. intros c.
    eapply fsel_app_l; [..|apply Hs]; lia.
Qed.

Lemma sel_onode o sw s1 s2 c :
  sel (onode o sw s1 s2) c = s1 \/ sel (onode o sw s1 s2) c = s2.
Proof.
  destruct sw, c; unfold onode, sel; rewrite ?getFirst_mkNode, ?getSecond_mkNode; auto.
Qed.

Lemma op_onode o sw s1 s2 : op (onode o sw s1 s2) = o.
Proof. by destruct sw. Qed.

Lemma active_pol pol o sw s1 s2 :
  is_connective o = true -> active (onode (pol_op pol o) sw s1 s2).
Proof. unfold active. rewrite op_onode. destruct o; try done; destruct pol; simpl; auto. Qed.

Lemma playout_frag e : forall tb b pol,
  wf e = true ->
  frag tb (nterm e) b (playout tb b pol e) /\
  fsel tb (nterm e) b (playout tb b pol e) (nev e) (pref tb b e).
Proof.
  induction e as [o x y|e IH|o e1 IH1 e2 IH2]; intros tb b pol Hwf; cbn [wf nev pref] in *.
  - split; [intros k e Hk; done|]. right. exists 0%nat. split; [|unfold nterm; simpl; lia].
    simpl. by rewrite Nat.add_0_r.
  - destruct (IH tb b (negb pol) Hwf) as [Hf Hs]. change (nterm (WNot e)) with (nterm e).
    cbn [playout]. split.
    + apply frag_snoc; [done|by left].
    + eapply fsel_app_l; [..|apply Hs]; lia.
  - apply andb_true_iff in Hwf as [Hwf Hw2]. apply andb_true_iff in Hwf as [Ho Hw1].
    destruct (IH1 tb b pol Hw1) as [Hf1 Hs1].
    destruct (IH2 (tb + nterm e1)%nat (b + nev e1)%nat pol Hw2) as [Hf2 Hs2].
    pose proof (length_playout tb b pol e1) as HL1.
    pose proof (length_playout (tb + nterm e1) (b + nev e1) pol e2) as HL2.
    assert (nterm (WBin o e1 e2) = nterm e1 + nterm e2)%nat as ->
      by (unfold nterm; simpl; by rewrite length_app).
    cbn [playout]. rewrite app_assoc. set (l1 := playout tb b pol e1) in *.
    set (l2 := playout _ _ pol e2) in *. set (x := onode _ _ _ _).
    assert (active x) as Hx by (by apply active_pol).
    rewrite <- HL1 in Hf2, Hs2. split.
    + apply frag_snoc; [by apply frag_app|right]. split; [done|]. intros c.
      rewrite length_app. destruct (sel_onode (pol_op pol o)
        (swapped (lref tb b e1) (lref (tb + nterm e1) (b + nev e1) e2))
        (pref tb b e1) (pref (tb + nterm e1) (b + nev e1) e2) c) as [E|E]; unfold x; rewrite E.
      * eapply fsel_app_l; [..|apply Hs1]; lia.
      * rewrite HL2, <- HL1. by apply fsel_app_r.
    + left. exists (nev e1 + nev e2)%nat, x. cbn [lref nev]. split_and!; [f_equal; lia|lia| |done].
      rewrite lookup_app_r by (rewrite length_app; lia). rewrite length_app, HL1, HL2.
      by rewrite Nat.sub_diag.
Qed.

Lemma playout_ok e pol :
  wf e = true ->
  heap_ok (nterm e) (playout 0 0 pol e) /\
  sel_ok (nterm e) (playout 0 0 pol e) (nev e) (pref 0 0 e).
Proof. intros Hwf. apply (playout_frag e 0 0 pol Hwf). Qed.

(** ** The value of [playout] *)

(** The value of a where clause under polarity [pol], given the values of
   its comparisons after negation. *)
Fixpoint psem (v : term_el -> bool) (pol : bool) (e : wexpr) : bool :=
  match e with
  | WComp o a b => v (if pol then negate (mkTerm false o a b) else mkTerm false o a b)
  | WNot e => psem v (negb pol) e
  | WBin o e1 e2 => connect (pol_op pol o) (psem v pol e1) (psem v pol e2)
  end.

Lemma sel_within_lt b n k s : (b + n <= k)%nat -> sel_within b n s -> sel_lt k s.
Proof. intros H Hs Ht. specialize (Hs Ht). lia. Qed.

Lemma a_node_onode th v pol o sw s1 s2 (f : stack_el -> bool) :
  is_connective o = true ->
  let x := onode (pol_op pol o) sw s1 s2 in
  a_node (bool_alg th v) x (f (getFirst x)) (f (getSecond x)) =
  connect (pol_op pol o) (f s1) (f s2).
Proof.
  intros Ho. unfold a_node. cbv zeta. rewrite op_onode. unfold onode.
  destruct sw; rewrite getFirst_mkNode, getSecond_mkNode;
    destruct o; try done; destruct pol; simpl; auto using andb_comm, orb_comm.
Qed.

Lemma playout_value v e : forall pol TP TS P S tb b,
  wf e = true -> length TP = tb -> length P = b ->
  sval (bool_alg (TP ++ pterms pol e ++ TS) v) (P ++ playout tb b pol e ++ S) (pref tb b e) =
  psem v pol e.
Proof.
  induction e as [o x y|e IH|o e1 IH1 e2 IH2]; intros pol TP TS P S tb b Hwf HT HP;
    cbn [wf nev pref psem] in *.
  - cbn [lref]. rewrite sval_tref. cbn [bool_alg a_leaf tref opn]. rewrite Nat2Z.id, <- HT.
    cbn [pterms app]. by rewrite list_lookup_middle.
  - cbn [playout pterms]. rewrite <- app_assoc. by apply IH.
  - apply andb_true_iff in Hwf as [Hwf Hw2]. apply andb_true_iff in Hwf as [Ho Hw1].
    pose proof (length_playout tb b pol e1) as HL1.
    pose proof (length_playout (tb + nterm e1) (b + nev e1) pol e2) as HL2.
    pose proof (length_pterms pol e1) as HT1.
    cbn [playout pterms lref nev]. set (x := onode _ _ _ _).
    set (l1 := playout tb b pol e1) in *. set (l2 := playout _ _ pol e2) in *.
    set (A := bool_alg _ v). set (eh := P ++ _).
    assert (eh !! (b + (nev e1 + nev e2 + 1) - 1)%nat = Some x) as Hx.
    { unfold eh. rewrite lookup_app_r, lookup_app_l by (rewrite ?length_app; simpl; lia).
      rewrite lookup_app_r, lookup_app_r by lia.
      by replace (b + (nev e1 + nev e2 + 1) - 1 - length P - length l1 - length l2)%nat
        with 0%nat by lia. }
    unfold sval, vals. rewrite (hfold_eq _ _ _ _ _ x Hx).
    + pose proof (a_node_onode (TP ++ (pterms pol e1 ++ pterms pol e2) ++ TS) v pol o
        (swapped (lref tb b e1) (lref (tb + nterm e1) (b + nev e1) e2))
        (pref tb b e1) (pref (tb + nterm e1) (b + nev e1) e2) (sval A eh) Ho) as E.
      etrans; [apply E|]. clear E. f_equal.
      * unfold A, eh. rewrite <- !app_assoc. by apply IH1.
      * unfold A, eh. rewrite <- !app_assoc, !(app_assoc TP), !(app_assoc P).
        apply IH2; [done|rewrite length_app; lia..].
    + destruct (onode_within b (nev e1 + nev e2) (pol_op pol o) (swapped (lref tb b e1)
        (lref (tb + nterm e1) (b + nev e1) e2)) (pref tb b e1)
        (pref (tb + nterm e1) (b + nev e1) e2)) as [Hf _];
        [eapply sel_within_mono; [..|apply pref_within]; lia..|].
      eapply sel_within_lt; [|apply Hf]. lia.
    + destruct (onode_within b (nev e1 + nev e2) (pol_op pol o) (swapped (lref tb b e1)
        (lref (tb + nterm e1) (b + nev e1) e2)) (pref tb b e1)
        (pref (tb + nterm e1) (b + nev e1) e2)) as [_ Hs];
        [eapply sel_within_mono; [..|apply pref_within]; lia..|].
      eapply sel_within_lt; [|apply Hs]. lia.
Qed.

(** ** The root *)

(** Every element after the root of a clause has lost its operation. *)
Lemma playout_root e : forall tb b pol,
  (exists r, pref tb b e = eref (b + r) /\ (r < nev e)%nat /\
     forall k x, playout tb b pol e !! k = Some x -> (r < k)%nat -> inert x) \/
  (pref tb b e = tref tb /\ nterm e = 1%nat /\ Forall inert (playout tb b pol e)).
Proof.
  induction e as [o x y|e IH|o e1 IH1 e2 IH2]; intros; cbn [pref nev playout].
  - right. split_and!; [done|done|constructor].
  - destruct (IH tb b (negb pol)) as [(r & E & Hr & Hi)|(E & Hn & Hi)]; [left|right].
    + exists r. split_and!; [done|lia|]. intros k x [Hk|[Hl Hk]]%lookup_app_Some ?; [eauto|].
      by apply list_lookup_singleton_Some in Hk as [_ <-].
    + split_and!; [done|done|]. apply Forall_app; split; [done|]. by apply Forall_singleton.
  - left. exists (nev e1 + nev e2)%nat. split_and!; [simpl; f_equal; lia|lia|].
    intros k x Hk%lookup_lt_Some ?. rewrite !length_app, !length_playout in Hk. simpl in Hk. lia.
Qed.

(** ** No sharing *)

(** Element [k] is an operand of at most one element, and once. *)
Definition tree_like (l : list eval_el) : Prop :=
  forall p q x y c d k, l !! p = Some x -> l !! q = Some y -> active x -> active y ->
    sel x c = eref k -> sel y d = eref k -> p = q /\ c = d.

Lemma sel_onode_two o sw s1 s2 c d :
  sel (onode o sw s1 s2) c = sel (onode o sw s1 s2) d -> s1 <> s2 -> c = d.
Proof.
  destruct sw, c, d; unfold onode, sel; rewrite ?getFirst_mkNode, ?getSecond_mkNode; congruence.
Qed.

Lemma within_sel b n l k x c :
  Forall (within b n) l -> l !! k = Some x -> sel_within b n (sel x c).
Proof. intros Hl Hk. destruct (Forall_lookup_1 _ _ _ _ Hl Hk). by destruct c. Qed.

Lemma eref_within b n k : sel_within b n (eref k) -> (b <= k < b + n)%nat.
Proof. intros H. specialize (H eq_refl). simpl in H. lia. Qed.

(** [e] at [p] refers to element [k]. *)
Definition refers (l : list eval_el) (p : nat) (e : eval_el) (c : bool) (k : nat) : Prop :=
  l !! p = Some e /\ active e /\ sel e c = eref k.

Lemma refers_app l1 l2 p e c k :
  refers (l1 ++ l2) p e c k ->
  refers l1 p e c k \/ ((length l1 <= p)%nat /\ refers l2 (p - length l1) e c k).
Proof. intros ([?|[? ?]]%lookup_app_Some & ? & ?); [left|right]; by repeat split. Qed.

Lemma refers_within b n l p e c k :
  Forall (within b n) l -> refers l p e c k -> (b <= k < b + n)%nat.
Proof. intros Hl (Hp & _ & E). apply eref_within. rewrite <- E. by eapply within_sel. Qed.

Lemma playout_tree e : forall tb b pol,
  tree_like (playout tb b pol e) /\
  (forall p x c k, refers (playout tb b pol e) p x c k -> eref k <> pref tb b e).
Proof.
  induction e as [o x y|e IH|o e1 IH1 e2 IH2]; intros tb b pol; cbn [pref playout].
  - split; [intros ????????; done|intros ???? [? _]; done].
  - destruct (IH tb b (negb pol)) as [Ht Hr].
    assert (Hin : forall p x c k, refers (playout tb b (negb pol) e ++
      [mkNode false WQL_DO_NOTHING (pref tb b e) none_ref]) p x c k ->
      refers (playout tb b (negb pol) e) p x c k).
    { intros p x c k [?|[_ (Hp & Ha & _)]]%refers_app; [done|].
      apply list_lookup_singleton_Some in Hp as [_ <-]. by destruct Ha. }
    split; [|eauto]. intros p q x y c d k Hp Hq Hx Hy Ec Ed.
    destruct (Hin p x c k) as (? & ? & ?); [done|]. destruct (Hin q y d k) as (? & ? & ?); [done|].
    eauto.
  - destruct (IH1 tb b pol) as [Ht1 Hr1].
    destruct (IH2 (tb + nterm e1)%nat (b + nev e1)%nat pol) as [Ht2 Hr2].
    pose proof (playout_within tb b pol e1) as Hw1.
    pose proof (playout_within (tb + nterm e1) (b + nev e1) pol e2) as Hw2.
    pose proof (pref_within tb b e1) as Hp1.
    pose proof (pref_within (tb + nterm e1) (b + nev e1) e2) as Hp2.
    set (l1 := playout tb b pol e1) in *. set (l2 := playout _ _ pol e2) in *.
    set (s1 := pref tb b e1) in *. set (s2 := pref _ _ e2) in *. set (t := onode _ _ s1 s2).
    assert (Hin : forall p x c k, refers (l1 ++ l2 ++ [t]) p x c k ->
      (refers l1 p x c k /\ (b <= k < b + nev e1)%nat /\ eref k <> s1) \/
      ((length l1 <= p)%nat /\ refers l2 (p - length l1) x c k /\
         (b + nev e1 <= k < b + nev e1 + nev e2)%nat /\ eref k <> s2) \/
      (p = (length l1 + length l2)%nat /\ x = t /\ sel t c = eref k /\
         ((eref k = s1 /\ (b <= k < b + nev e1)%nat) \/
          (eref k = s2 /\ (b + nev e1 <= k < b + nev e1 + nev e2)%nat)))).
    { intros p x c k [H|[Hl [H|[Hl' H]]%refers_app]]%refers_app.
      - left. split_and!; [done|by eapply refers_within..|by eapply Hr1].
      - right; left. split_and!; [done|done|by eapply refers_within..|by eapply Hr2].
      - right; right. destruct H as (Hp & Ha & Es). apply list_lookup_singleton_Some in Hp as [Hp <-].
        split_and!; [lia|done|done|].
        destruct (sel_onode (pol_op pol o) (swapped (lref tb b e1)
          (lref (tb + nterm e1) (b + nev e1) e2)) s1 s2 c) as [E|E]; fold t in E; rewrite Es in E.
        + left. split; [done|]. apply eref_within. by rewrite E.
        + right. split; [done|]. apply eref_within. by rewrite E. }
    split.
    + intros p q x y c d k Hp Hq Hx Hy Ec Ed.
      destruct (Hin p x c k) as [([? ?] & ? & ?)|[(? & [? ?] & ? & ?)|(-> & -> & ? & [[? ?]|[? ?]])]];
        [done|..];
      destruct (Hin q y d k) as [([? ?] & ? & ?)|[(? & [? ?] & ? & ?)|(-> & -> & ? & [[? ?]|[? ?]])]];
        try done; try (exfalso; (lia || congruence)).
      * by eapply Ht1.
      * destruct (Ht2 (p - length l1)%nat (q - length l1)%nat x y c d k) as [? ->]; try done.
        split; [lia|done].
      * split; [done|]. eapply sel_onode_two; [etrans; [exact Ec|symmetry; exact Ed]|]. intros E.
        assert (s2 = eref k) as E2 by congruence. rewrite E2 in Hp2. apply eref_within in Hp2. lia.
      * split; [done|]. eapply sel_onode_two; [etrans; [exact Ec|symmetry; exact Ed]|]. intros E.
        assert (s1 = eref k) as E1 by congruence. rewrite E1 in Hp1. apply eref_within in Hp1. lia.
    + intros p x c k H. apply Hin in H. cbn [lref]. intros [= E].
      cbn [nev] in E. destruct H as [(_ & ? & _)|[(_ & _ & ? & _)|(_ & _ & _ & [[_ ?]|[_ ?]])]]; lia.
Qed.
End Shape.
