(* ===== verification/WqlFactor.v ===== *)
(** * Factoring AND over OR

   [_factoring] terminates within [factor_fuel], keeps the value of the root
   for every distributive algebra, and leaves no AND with an OR operand and no
   OR that two ORs share. *)

From S2P Require Import Prelude Wql WqlCompile WqlExpr WqlNot WqlHeap.

(** ** The array after one split *)

Definition or_node (i : nat) : eval_el := mkNode false WQL_OR (eref (i + 1)) (eref i).
Definition and_node (s1 s2 : stack_el) : eval_el := order (mkNode false WQL_AND s1 s2).

Definition split_list (i : nat) (s a b : stack_el) (eh : list eval_el) : list eval_el :=
  take i eh ++ and_node s b :: and_node s a :: or_node i
    :: map (shift_ref (Z.of_nat i)) (drop (S i) eh).

Lemma array_insert_middle {A} (P : list A) e x R :
  array_insert (length P + 1) x (P ++ e :: R) = P ++ e :: x :: R.
Proof.
  unfold array_insert. rewrite take_app, drop_app, take_ge, drop_ge by lia.
  replace (length P + 1 - length P)%nat with 1%nat by lia. simpl. by rewrite <- app_assoc.
Qed.

Lemma or_node_eq i :
  mkEval false WQL_OR (Z.of_nat i + 1) EVAL_HEAP (Z.of_nat i) EVAL_HEAP = or_node i.
Proof. unfold or_node, mkNode. cbn [eref opn type]. f_equal. lia. Qed.

Lemma split_at_list i isFirst idx e o eh :
  eh !! i = Some e -> eh !! idx = Some o -> (idx < i)%nat ->
  split_at i isFirst (Z.of_nat idx) e eh =
  Ok (split_list i (sel e (negb isFirst)) (getFirst o) (getSecond o) eh).
Proof.
  intros He Ho Hidx. unfold split_at, split_list. set (R := drop (S i) eh). set (P := take i eh).
  assert (length P = i) as HP by (apply lookup_lt_Some in He; unfold P; rewrite length_take; lia).
  assert (eh = P ++ e :: R) as Heh by (symmetry; by apply take_drop_middle).
  assert (P !! idx = Some o) as HPo by (unfold P; by rewrite lookup_take_lt).
  assert ((length eh - 1 <= i)%nat -> R = []) as HR by (intros; unfold R; apply drop_ge; lia).
  clearbody P R. rewrite or_node_eq. replace (if isFirst then getSecond e else getFirst e)
    with (sel e (negb isFirst)) by (by destruct isFirst).
  set (s := sel e (negb isFirst)).
  assert (Hins : forall L, array_insert (i + 1) (or_node i) (P ++ e :: L) = P ++ e :: or_node i :: L)
    by (intros; rewrite <- array_insert_middle; by rewrite HP).
  assert ((if (i <? length eh - 1)%nat then array_insert (i + 1) (or_node i) eh
           else eh ++ [or_node i]) = P ++ e :: or_node i :: R) as ->.
  { destruct (Nat.ltb_spec i (length eh - 1)) as [Hlt|Hge].
    - by rewrite Heh.
    - rewrite HR in Heh |- * by done. rewrite Heh. by rewrite <- app_assoc. }
  rewrite Hins.
  assert (imap (fun j x => if (i + 2 <? j)%nat then shift_ref (Z.of_nat i) x else x)
            (P ++ e :: or_node i :: or_node i :: R) =
          P ++ e :: or_node i :: or_node i :: map (shift_ref (Z.of_nat i)) R) as ->.
  { pose proof (imap_after (shift_ref (Z.of_nat i)) (P ++ [e; or_node i]) (or_node i) R) as E.
    rewrite length_app, HP in E. rewrite <- !app_assoc in E. exact E. }
  erewrite at_Some by (rewrite lookup_app_l by lia; exact HPo). cbn [mbind outcome_bind].
  set (M := map _ R).
  assert (Hset : forall a, <[(i + 1)%nat := a]> (P ++ e :: or_node i :: or_node i :: M) =
          P ++ e :: a :: or_node i :: M).
  { intros a. rewrite insert_app_r_alt by lia.
    by replace (i + 1 - length P)%nat with 1%nat by lia. }
  rewrite Hset.
  erewrite at_Some by (rewrite lookup_app_l by lia; exact HPo). cbn [mbind outcome_bind].
  rewrite insert_app_r_alt by lia. replace (i - length P)%nat with 0%nat by lia. done.
Qed.

(** ** References after a split *)

Definition mv (i j : nat) : nat := if (j <? i)%nat then j else (j + 2)%nat.

Definition mvsel (i : Z) (s : stack_el) : stack_el :=
  if is_EVAL (type s) && (i <=? opn s) then mkSel (opn s + 2) (type s) else s.

Lemma shift_ref_mvsel i e :
  shift_ref i e = mkNode (mark e) (op e) (mvsel i (getFirst e)) (mvsel i (getSecond e)).
Proof.
  destruct e as [m o i1 t1 i2 t2]. unfold shift_ref, mvsel, getFirst, getSecond, setFirst, setSecond.
  cbn [mark op opn1 opn2 is_terminal1 is_terminal2 type opn].
  destruct (is_EVAL t1 && (i <=? i1));
    cbn [mark op opn1 opn2 is_terminal1 is_terminal2 type opn];
    destruct (is_EVAL t2 && (i <=? i2)); done.
Qed.

Lemma mvsel_eref i j : mvsel (Z.of_nat i) (eref j) = eref (mv i j).
Proof.
  unfold mvsel, mv, eref. cbn [type opn]. unfold is_EVAL. rewrite bool_decide_true by done. cbn [andb].
  destruct (Z.leb_spec (Z.of_nat i) (Z.of_nat j)), (Nat.ltb_spec j i); try lia; f_equal. lia.
Qed.

Lemma mvsel_tref i j : mvsel i (tref j) = tref j.
Proof. done. Qed.

Lemma sel_shift_ref i e b : sel (shift_ref i e) b = mvsel i (sel e b).
Proof. rewrite shift_ref_mvsel. destruct b; [apply getFirst_mkNode|apply getSecond_mkNode]. Qed.

Lemma op_shift_ref i e : op (shift_ref i e) = op e.
Proof. by rewrite shift_ref_mvsel. Qed.

Lemma op_and_node s1 s2 : op (and_node s1 s2) = WQL_AND.
Proof. unfold and_node. rewrite order_mkNode. by destruct (swapped s1 s2). Qed.

Lemma sel_and_node s1 s2 b : sel (and_node s1 s2) b = s1 \/ sel (and_node s1 s2) b = s2.
Proof.
  unfold and_node. rewrite order_mkNode. unfold onode.
  destruct (swapped s1 s2), b, s1, s2; simpl; auto.
Qed.

Lemma lookup_split_lt i s a b eh k :
  (i < length eh)%nat -> (k < i)%nat -> split_list i s a b eh !! k = eh !! k.
Proof.
  intros. unfold split_list. rewrite lookup_app_l by (rewrite length_take; lia).
  by rewrite lookup_take_lt.
Qed.

Lemma lookup_split_mid i s a b eh d :
  (i < length eh)%nat ->
  split_list i s a b eh !! (i + d)%nat =
  (and_node s b :: and_node s a :: or_node i :: map (shift_ref (Z.of_nat i)) (drop (S i) eh)) !! d.
Proof.
  intros. unfold split_list. rewrite lookup_app_r by (rewrite length_take; lia).
  f_equal. rewrite length_take. lia.
Qed.

Lemma lookup_split_gt i s a b eh k :
  (i < length eh)%nat -> (i < k)%nat ->
  split_list i s a b eh !! (k + 2)%nat = shift_ref (Z.of_nat i) <$> eh !! k.
Proof.
  intros. replace (k + 2)%nat with (i + (3 + (k - i - 1)))%nat by lia.
  rewrite lookup_split_mid by done.
  transitivity (map (shift_ref (Z.of_nat i)) (drop (S i) eh) !! (k - i - 1)%nat); [done|].
  rewrite list_lookup_fmap, lookup_drop. do 2 f_equal. lia.
Qed.

(** ** Values after a split *)

Section Values.
Context {T : Type} (A : Alg T) `{!Distributive A}.

Lemma nth_insert_two (vs ws : list T) x y z k :
  nth (mv (length vs) k) (vs ++ x :: y :: z :: ws) (a_none A) = nth k (vs ++ z :: ws) (a_none A).
Proof.
  unfold mv. destruct (Nat.ltb_spec k (length vs)).
  - by rewrite !app_nth1 by lia.
  - rewrite !app_nth2 by lia. by replace (k + 2 - length vs)%nat with (S (S (k - length vs))) by lia.
Qed.

Lemma hval_insert_two vs ws x y z s i :
  (0 < i)%nat -> length vs = i ->
  hval (a_leaf A) (a_none A) (vs ++ x :: y :: z :: ws) (mvsel (Z.of_nat i) s) =
  hval (a_leaf A) (a_none A) (vs ++ z :: ws) s.
Proof.
  intros Hi Hl. unfold hval, mvsel. destruct (is_EVAL (type s)) eqn:Et; cbn [andb]; [|by rewrite Et].
  rewrite <- (nth_insert_two vs ws x y z). unfold mv. rewrite Hl.
  destruct (Z.leb_spec (Z.of_nat i) (opn s)); cbn [type opn]; rewrite Et; f_equal.
  - destruct (Nat.ltb_spec (Z.to_nat (opn s)) i); lia.
  - destruct (Nat.ltb_spec (Z.to_nat (opn s)) i); lia.
Qed.

(** The values of the shifted elements are unchanged. *)
Lemma vals_shift_suffix S vs ws x y z i :
  (0 < i)%nat -> length vs = i ->
  let step := fun us e => us ++ [a_node A e (hval (a_leaf A) (a_none A) us (getFirst e))
                                   (hval (a_leaf A) (a_none A) us (getSecond e))] in
  exists rs, fold_left step S (vs ++ z :: ws) = vs ++ z :: ws ++ rs /\
    fold_left step (map (shift_ref (Z.of_nat i)) S) (vs ++ x :: y :: z :: ws) =
      vs ++ x :: y :: z :: ws ++ rs.
Proof.
  intros Hi Hl step. revert ws. induction S as [|e S IH]; intros ws.
  { exists []. by rewrite !app_nil_r. }
  cbn [map fold_left]. unfold step at 2 4.
  rewrite shift_ref_mvsel, getFirst_mkNode, getSecond_mkNode, !hval_insert_two by done.
  change (a_node A (mkNode _ (op e) _ _) ?a ?b) with (a_node A e a b).
  set (u := a_node A e _ _). rewrite <- !app_assoc. cbn [app].
  destruct (IH (ws ++ [u])) as (rs & E1 & E2). exists (u :: rs).
  rewrite <- !app_assoc in E1, E2. cbn [app] in E1, E2. by rewrite E1, E2.
Qed.

Lemma hval_and_node us s1 s2 :
  a_node A (and_node s1 s2) (hval (a_leaf A) (a_none A) us (getFirst (and_node s1 s2)))
    (hval (a_leaf A) (a_none A) us (getSecond (and_node s1 s2))) =
  a_and A (hval (a_leaf A) (a_none A) us s1) (hval (a_leaf A) (a_none A) us s2).
Proof.
  unfold a_node. rewrite op_and_node. unfold and_node. rewrite order_mkNode. unfold onode.
  destruct (swapped s1 s2), s1, s2; [apply a_and_comm|done].
Qed.

Lemma vals_app P S :
  vals A (P ++ S) = fold_left (fun us e => us ++
    [a_node A e (hval (a_leaf A) (a_none A) us (getFirst e))
       (hval (a_leaf A) (a_none A) us (getSecond e))]) S (vals A P).
Proof. unfold vals, hfold. by rewrite fold_left_app. Qed.

Lemma hval_grow us ws s :
  sel_lt (length us) s ->
  hval (a_leaf A) (a_none A) (us ++ ws) s = hval (a_leaf A) (a_none A) us s.
Proof. intros H. apply hval_prefix. exact H. Qed.

(** The two new conjunctions get values whose disjunction is the value of
   the element that was split; all other values stay. *)
Lemma vals_split nt eh i e idx o isFirst :
  heap_ok nt eh -> eh !! i = Some e -> op e = WQL_AND ->
  sel e isFirst = eref idx -> eh !! idx = Some o -> op o = WQL_OR -> (idx < i)%nat ->
  exists vs ws x y,
    vals A eh = vs ++ a_or A y x :: ws /\ length vs = i /\
    vals A (split_list i (sel e (negb isFirst)) (getFirst o) (getSecond o) eh) =
      vs ++ x :: y :: a_or A y x :: ws.
Proof.
  intros Hok He Hand Hsel Ho Hor Hidx.
  assert (length (take i eh) = i) as HP.
  { apply lookup_lt_Some in He. rewrite length_take. lia. }
  pose proof (heap_ok_active nt eh i e Hok He (or_introl Hand)) as Hse.
  pose proof (heap_ok_active nt eh idx o Hok Ho (or_intror Hor)) as Hso.
  assert (Hlt_e : forall b, sel_lt i (sel e b)) by (intros; by eapply sel_ok_lt).
  assert (Hlt_o : forall b, sel_lt idx (sel o b)) by (intros; by eapply sel_ok_lt).
  set (vs := vals A (take i eh)).
  assert (length vs = i) as Hvs by (unfold vs, vals; by rewrite length_hfold).
  set (hv := hval (a_leaf A) (a_none A)).
  set (s := sel e (negb isFirst)). set (a := getFirst o). set (b := getSecond o).
  set (x := a_and A (hv vs s) (hv vs b)). set (y := a_and A (hv vs s) (hv vs a)).
  assert (hv vs (eref idx) = a_or A (hv vs a) (hv vs b)) as Hidxv.
  { assert (hv vs (eref idx) = a_node A o (hv vs a) (hv vs b)) as ->.
    { apply hfold_eq; [by rewrite lookup_take_lt|apply (Hlt_o true)|apply (Hlt_o false)]. }
    unfold a_node. by rewrite Hor. }
  assert (a_node A e (hv vs (getFirst e)) (hv vs (getSecond e)) = a_or A y x) as HV.
  { unfold a_node. rewrite Hand. unfold x, y, s in *. destruct isFirst; simpl in *.
    - by rewrite Hsel, Hidxv, a_distr.
    - by rewrite Hsel, Hidxv, a_and_comm, a_distr. }
  assert (Hgrow : forall c ws, hv (vs ++ ws) (sel e c) = hv vs (sel e c)).
  { intros. apply hval_grow. by rewrite Hvs. }
  assert (Hgrow_o : forall c ws, hv (vs ++ ws) (sel o c) = hv vs (sel o c)).
  { intros. apply hval_grow. rewrite Hvs. intros Ht. specialize (Hlt_o c Ht). lia. }
  destruct (vals_shift_suffix (drop (S i) eh) vs [] x y (a_or A y x) i) as (ws & E1 & E2);
    [lia|done|].
  exists vs, ws, x, y. split_and!; [|done|].
  - rewrite <- (take_drop_middle eh i e He) at 1. rewrite vals_app. cbn [fold_left].
    fold vs hv. rewrite HV. exact E1.
  - unfold split_list. rewrite vals_app. cbn [fold_left]. fold vs s a b.
    rewrite !hval_and_node. change (hval (a_leaf A) (a_none A)) with hv.
    change (a_and A (hv vs s) (hv vs b)) with x.
    assert (hv (vs ++ [x]) s = hv vs s) as -> by apply Hgrow.
    assert (hv (vs ++ [x]) a = hv vs a) as -> by apply (Hgrow_o true).
    change (a_and A (hv vs s) (hv vs a)) with y.
    assert (a_node A (or_node i) (hv ((vs ++ [x]) ++ [y]) (getFirst (or_node i)))
              (hv ((vs ++ [x]) ++ [y]) (getSecond (or_node i))) = a_or A y x) as E.
    { unfold or_node. rewrite getFirst_mkNode, getSecond_mkNode. unfold hv. rewrite !hval_eref.
      rewrite <- app_assoc. cbn [app]. rewrite !app_nth2 by lia. rewrite Hvs, Nat.sub_diag.
      by replace (i + 1 - i)%nat with 1%nat by lia. }
    rewrite E. rewrite <- !app_assoc. exact E2.
Qed.
End Values.

(** ** Shape after a split *)

(** The operand at [idx] of [e] is the OR found by [find_or]. *)
Record splits (nt : nat) (eh : list eval_el) (i : nat) (e : eval_el) (isFirst : bool) (idx : nat)
    (o : eval_el) : Prop := {
  sp_ok : heap_ok nt eh;
  sp_e : eh !! i = Some e;
  sp_and : op e = WQL_AND;
  sp_sel : sel e isFirst = eref idx;
  sp_o : eh !! idx = Some o;
  sp_or : op o = WQL_OR;
  sp_lt : (idx < i)%nat;
}.

Definition split_of (i : nat) (e : eval_el) (isFirst : bool) (o : eval_el) : list eval_el ->
  list eval_el := split_list i (sel e (negb isFirst)) (getFirst o) (getSecond o).

Lemma eref_inj j k : eref j = eref k -> j = k.
Proof. unfold eref. intros [= E]. lia. Qed.
Lemma tref_eref j k : tref j <> eref k.
Proof. done. Qed.

(** [s] is an element that is an OR. *)
Definition or_ref (eh : list eval_el) (s : stack_el) : bool :=
  match s with
  | mkSel z EVAL_HEAP =>
      match eh !! Z.to_nat z with
      | Some x => bool_decide (op x = WQL_OR)
      | None => false
      end
  | _ => false
  end.

Lemma or_ref_eref eh j x : eh !! j = Some x -> or_ref eh (eref j) = bool_decide (op x = WQL_OR).
Proof. intros Hx. cbn [or_ref eref]. by rewrite Nat2Z.id, Hx. Qed.

Lemma or_test nt eh k s :
  sel_ok nt eh k s ->
  (if is_EVAL (type s) then x ← at_ eh (opn s); Ok (bool_decide (op x = WQL_OR)) else Ok false) =
  Ok (or_ref eh s).
Proof.
  intros [(j & x & -> & Hj & Hx & Ha)|(j & -> & Hj)]; [|done].
  rewrite (or_ref_eref _ _ _ Hx). cbn [eref type opn]. change (is_EVAL EVAL_HEAP) with true.
  cbv iota. by rewrite (at_Some _ _ _ Hx).
Qed.

Lemma or_ref_cases nt eh k s :
  sel_ok nt eh k s ->
  (or_ref eh s = true /\ exists j x, s = eref j /\ (j < k)%nat /\ eh !! j = Some x /\ op x = WQL_OR) \/
  (or_ref eh s = false /\ forall j x, s = eref j -> eh !! j = Some x -> op x <> WQL_OR).
Proof.
  intros [(j & x & -> & Hj & Hx & Ha)|(j & -> & Hj)].
  - rewrite (or_ref_eref _ _ _ Hx). case_bool_decide as Eo; [left|right]; (split; [done|]); [eauto 6|].
    intros j' x' <-%eref_inj Hx'. congruence.
  - right. split; [done|]. intros j' x' E. by apply tref_eref in E.
Qed.

Lemma find_or_spec nt eh i e :
  heap_ok nt eh -> eh !! i = Some e -> op e = WQL_AND ->
  (exists isFirst idx o, find_or e eh = Ok (Some (isFirst, Z.of_nat idx)) /\
     splits nt eh i e isFirst idx o) \/
  (find_or e eh = Ok None /\
   forall c j x, sel e c = eref j -> eh !! j = Some x -> op x <> WQL_OR).
Proof.
  intros Hok He Hand.
  pose proof (heap_ok_active nt eh i e Hok He (or_introl Hand)) as Hs.
  unfold find_or.
  change (is_terminal1 e) with (type (sel e true)). change (opn1 e) with (opn (sel e true)).
  change (is_terminal2 e) with (type (sel e false)). change (opn2 e) with (opn (sel e false)).
  rewrite (or_test nt eh i (sel e true) (Hs true)), (or_test nt eh i (sel e false) (Hs false)).
  cbn [mbind outcome_bind].
  destruct (or_ref_cases _ _ _ _ (Hs true)) as [(-> & j & x & Ej & Hj & Hx & Hox)|(-> & Hno)].
  { left. exists true, j, x. rewrite Ej. by split. }
  destruct (or_ref_cases _ _ _ _ (Hs false)) as [(-> & j & x & Ej & Hj & Hx & Hox)|(-> & Hno')].
  { left. exists false, j, x. rewrite Ej. by split. }
  right. split; [done|]. intros []; [apply Hno|apply Hno'].
Qed.

(** Lookup in the array after a split, by where the element came from. *)
Lemma split_cases nt eh i e isFirst idx o k x :
  splits nt eh i e isFirst idx o -> split_of i e isFirst o eh !! k = Some x ->
  ((k < i)%nat /\ eh !! k = Some x) \/
  (k = i /\ x = and_node (sel e (negb isFirst)) (getSecond o)) \/
  (k = (i + 1)%nat /\ x = and_node (sel e (negb isFirst)) (getFirst o)) \/
  (k = (i + 2)%nat /\ x = or_node i) \/
  (exists j y, k = (j + 2)%nat /\ (i < j)%nat /\ eh !! j = Some y /\ x = shift_ref (Z.of_nat i) y).
Proof.
  intros Hsp Hk. assert (i < length eh)%nat as Hi by (eapply lookup_lt_Some, Hsp).
  unfold split_of in Hk.
  destruct (decide (k < i)%nat) as [Hlt|Hge]; [left; by rewrite lookup_split_lt in Hk|right].
  destruct (decide (k <= i + 2)%nat) as [Hle|Hgt].
  - replace k with (i + (k - i))%nat in Hk by lia. rewrite lookup_split_mid in Hk by done.
    destruct (k - i)%nat as [|[|[|]]] eqn:Ek; simpl in Hk; try lia; simplify_eq.
    + left. split; [lia|done].
    + right; left. split; [lia|done].
    + right; right; left. split; [lia|done].
  - replace k with ((k - 2) + 2)%nat in Hk by lia. rewrite lookup_split_gt in Hk by lia.
    apply fmap_Some in Hk as (y & Hy & ->). do 3 right. exists (k - 2)%nat, y. split_and!; done || lia.
Qed.

(** Elements other than [i] move to [mv i]; [i + 2] stands for [i]. *)
Lemma split_active nt eh i e isFirst idx o j x :
  splits nt eh i e isFirst idx o -> eh !! j = Some x -> active x ->
  exists x', split_of i e isFirst o eh !! mv i j = Some x' /\ active x'.
Proof.
  intros Hsp Hx Ha. assert (i < length eh)%nat as Hi by (eapply lookup_lt_Some, Hsp).
  unfold mv, split_of. destruct (Nat.ltb_spec j i) as [Hlt|Hge].
  - exists x. by rewrite lookup_split_lt.
  - destruct (decide (j = i)) as [->|Hne].
    + exists (or_node i). rewrite lookup_split_mid by done. split; [done|by right].
    + exists (shift_ref (Z.of_nat i) x). rewrite lookup_split_gt, Hx by lia. split; [done|].
      unfold active. by rewrite op_shift_ref.
Qed.

Lemma heap_ok_split nt eh i e isFirst idx o :
  splits nt eh i e isFirst idx o -> heap_ok nt (split_of i e isFirst o eh).
Proof.
  intros Hsp. pose proof (sp_ok _ _ _ _ _ _ _ Hsp) as Hok. pose proof (sp_lt _ _ _ _ _ _ _ Hsp) as Hlt.
  assert (Hlow : forall k s, sel_ok nt eh k s -> (k <= i)%nat ->
            sel_ok nt (split_of i e isFirst o eh) k s).
  { intros k s [(j & x & -> & Hj & Hx & Ha)|Ht] Hk; [left|by right].
    destruct (split_active _ _ _ _ _ _ _ _ _ Hsp Hx Ha) as (x' & Hx' & Ha').
    exists j, x'. unfold mv in Hx'. rewrite (proj2 (Nat.ltb_lt _ _)) in Hx' by lia. done. }
  pose proof (heap_ok_active nt eh i e Hok (sp_e _ _ _ _ _ _ _ Hsp)
    (or_introl (sp_and _ _ _ _ _ _ _ Hsp))) as He.
  pose proof (heap_ok_active nt eh idx o Hok (sp_o _ _ _ _ _ _ _ Hsp)
    (or_intror (sp_or _ _ _ _ _ _ _ Hsp))) as Ho.
  assert (Hand : forall k c, (i <= k)%nat -> forall b,
    sel_ok nt (split_of i e isFirst o eh) k (sel (and_node (sel e (negb isFirst)) (sel o c)) b)).
  { intros k c Hk b. eapply sel_ok_mono; [exact Hk|]. apply Hlow; [|done].
    destruct (sel_and_node (sel e (negb isFirst)) (sel o c) b) as [-> | ->]; [done|].
    eapply sel_ok_mono; [|apply Ho]. lia. }
  intros k x Hk. destruct (split_cases _ _ _ _ _ _ _ _ _ Hsp Hk)
    as [[Hk' Hx]|[[-> ->]|[[-> ->]|[[-> ->]|(j & y & -> & Hj & Hy & ->)]]]].
  - destruct (Hok k x Hx) as [|[Ha Hs]]; [by left|right]. split; [done|]. intros b.
    apply Hlow; [done|lia].
  - right. split; [left; apply op_and_node|]. apply (Hand i false). lia.
  - right. split; [left; apply op_and_node|]. apply (Hand (i + 1)%nat true). lia.
  - right. split; [by right|]. intros b. left.
    assert (i < length eh)%nat as Hi by (eapply lookup_lt_Some, Hsp).
    destruct b; eexists _, _; (split; [reflexivity|]); (split; [lia|]);
      (split; [|left; apply op_and_node]); unfold split_of.
    + by rewrite lookup_split_mid.
    + pose proof (lookup_split_mid i (sel e (negb isFirst)) (getFirst o) (getSecond o) eh 0 Hi) as E.
      rewrite Nat.add_0_r in E. exact E.
  - destruct (Hok j y Hy) as [Hi|[Ha Hs]]; [left|right].
    + unfold inert. by rewrite op_shift_ref.
    + split; [unfold active; by rewrite op_shift_ref|]. intros b. rewrite sel_shift_ref.
      destruct (Hs b) as [(j' & z & -> & Hj' & Hz & Haz)|(j' & -> & Hj')]; [left|right; eauto].
      rewrite mvsel_eref.
      destruct (split_active _ _ _ _ _ _ _ _ _ Hsp Hz Haz) as (z' & Hz' & Haz').
      exists (mv i j'), z'. split_and!; try done. unfold mv. destruct (_ <? _)%nat; lia.
Qed.

(** ** Sharing after a split *)

(** The references that must be unique while element [i] is looked at: those
   among the elements still to be looked at, and those from an OR to an OR. *)
Definition link (eh : list eval_el) (i p : nat) (x : eval_el) (k : nat) : Prop :=
  (i <= p /\ i <= k)%nat \/ (op x = WQL_OR /\ exists y, eh !! k = Some y /\ op y = WQL_OR).

Definition uniq (eh : list eval_el) (i : nat) : Prop :=
  forall p q x y c d k, refers eh p x c k -> refers eh q y d k ->
    link eh i p x k -> link eh i q y k -> p = q /\ c = d.

Lemma tree_like_uniq eh i : tree_like eh -> uniq eh i.
Proof. intros H p q x y c d k (? & ? & ?) (? & ? & ?) _ _. by eapply H. Qed.

Lemma uniq_next eh i : uniq eh i -> uniq eh (S i).
Proof.
  intros H p q x y c d k Hp Hq Lp Lq. eapply H; try done.
  - destruct Lp as [[? ?]|?]; [left; lia|by right].
  - destruct Lq as [[? ?]|?]; [left; lia|by right].
Qed.

(** A linked reference after a split comes from a linked one before, or is
   one of the two of the new OR. *)
Lemma link_split nt eh i e isFirst idx o p x c k :
  splits nt eh i e isFirst idx o ->
  refers (split_of i e isFirst o eh) p x c k -> link (split_of i e isFirst o eh) i p x k ->
  (exists p0 x0 k0, p = mv i p0 /\ k = mv i k0 /\ refers eh p0 x0 c k0 /\ link eh i p0 x0 k0) \/
  (p = (i + 2)%nat /\ k = if c then (i + 1)%nat else i).
Proof.
  intros Hsp (Hp & Ha & Hc) HL.
  assert (i < length eh)%nat as Hi by (eapply lookup_lt_Some, Hsp).
  pose proof (sp_ok _ _ _ _ _ _ _ Hsp) as Hok. pose proof (sp_lt _ _ _ _ _ _ _ Hsp) as Hlt.
  assert (Hlow : forall j y b k', eh !! j = Some y -> active y -> (j <= i)%nat ->
            sel y b = eref k' -> (k' < i)%nat).
  { intros j y b k' Hj Hy Hle E. pose proof (heap_ok_active nt eh j y Hok Hj Hy b) as Hs.
    rewrite E in Hs. apply sel_ok_lt in Hs. specialize (Hs eq_refl). simpl in Hs. lia. }
  assert (Hand : forall b, sel (and_node (sel e (negb isFirst)) (sel o b)) c = eref k -> (k < i)%nat).
  { intros b E. destruct (sel_and_node (sel e (negb isFirst)) (sel o b) c) as [E'|E']; rewrite E' in E.
    - eapply (Hlow i e); [apply Hsp|left; apply Hsp|lia|exact E].
    - eapply (Hlow idx o); [apply Hsp|right; apply Hsp|lia|exact E]. }
  assert (Hno : forall s : Prop, (k < i)%nat -> op x = WQL_AND -> s).
  { intros s Hk Ho. exfalso. destruct HL as [[_ ?]|[? _]]; [lia|congruence]. }
  destruct (split_cases _ _ _ _ _ _ _ _ _ Hsp Hp)
    as [[Hk' Hx]|[[-> ->]|[[-> ->]|[[-> ->]|(j & y & -> & Hj & Hy & ->)]]]].
  - left. assert (k < i)%nat as Hk by (eapply Hlow; [exact Hx|done|lia|done]).
    exists p, x, k. unfold mv. rewrite !(proj2 (Nat.ltb_lt _ _)) by lia.
    split_and!; try done. destruct HL as [[? ?]|[Ho (z & Hz & Hoz)]]; [lia|right].
    split; [done|]. exists z. split; [|done]. unfold split_of in Hz. by rewrite lookup_split_lt in Hz.
  - eapply Hno; [by eapply (Hand false)|apply op_and_node].
  - eapply Hno; [by eapply (Hand true)|apply op_and_node].
  - right. split; [done|]. unfold or_node in Hc. destruct c; cbn [sel] in Hc;
      rewrite ?getFirst_mkNode, ?getSecond_mkNode in Hc; by apply eref_inj in Hc.
  - left. rewrite sel_shift_ref in Hc.
    assert (active y) as Hay by (unfold active in *; by rewrite op_shift_ref in Ha).
    destruct (heap_ok_active nt eh j y Hok Hy Hay c) as [(k0 & z & E & Hk0 & Hz & Haz)|(k0 & E & _)];
      rewrite E in Hc; [|done].
    rewrite mvsel_eref in Hc. apply eref_inj in Hc as <-.
    exists j, y, k0. split_and!; [|done|done|].
    + unfold mv. by rewrite (proj2 (Nat.ltb_ge _ _)) by lia.
    + destruct (decide (i <= k0)%nat) as [Hik|Hik]; [left; lia|right].
      destruct HL as [[_ ?]|[Ho (w & Hw & How)]].
      { unfold mv in *. rewrite (proj2 (Nat.ltb_lt _ _)) in * by lia. lia. }
      rewrite op_shift_ref in Ho. split; [done|]. exists w. split; [|done].
      unfold mv, split_of in Hw. rewrite (proj2 (Nat.ltb_lt _ _)) in Hw by lia.
      by rewrite lookup_split_lt in Hw by lia.
Qed.

Lemma mv_inj i a b : mv i a = mv i b -> a = b.
Proof. unfold mv. destruct (Nat.ltb_spec a i), (Nat.ltb_spec b i); lia. Qed.

Lemma mv_gap i a : mv i a <> i /\ mv i a <> (i + 1)%nat.
Proof. unfold mv. destruct (Nat.ltb_spec a i); lia. Qed.

Lemma uniq_split nt eh i e isFirst idx o :
  splits nt eh i e isFirst idx o -> uniq eh i -> uniq (split_of i e isFirst o eh) i.
Proof.
  intros Hsp Hu p q x y c d k Hp Hq Lp Lq.
  destruct (link_split _ _ _ _ _ _ _ _ _ _ _ Hsp Hp Lp)
    as [(p0 & x0 & k0 & -> & -> & Hp0 & Lp0)|[-> ->]];
  destruct (link_split _ _ _ _ _ _ _ _ _ _ _ Hsp Hq Lq)
    as [(q0 & y0 & k1 & -> & Ek & Hq0 & Lq0)|[-> Ek]].
  - apply mv_inj in Ek as <-. destruct (Hu _ _ _ _ _ _ _ Hp0 Hq0 Lp0 Lq0) as [<- <-]. done.
  - pose proof (mv_gap i k0). destruct d; lia.
  - pose proof (mv_gap i k1). destruct c; lia.
  - split; [done|]. destruct c, d; lia || done.
Qed.

(** ** Termination *)

Definition weight (e : eval_el) (d : nat) : nat :=
  if bool_decide (op e = WQL_AND) then (3 * d - 2)%nat else 1%nat.

(** The rounds left when element [i] is looked at. *)
Definition rounds (i : nat) (eh : list eval_el) : nat :=
  sum_list (drop i (zip_with weight eh (vals count_alg eh))).

Lemma factor_fuel_rounds eh : factor_fuel eh = rounds 0 eh.
Proof. done. Qed.

Lemma count_pos eh : Forall (fun d => 1 <= d)%nat (vals count_alg eh).
Proof.
  induction eh as [|e eh IH] using rev_ind; [constructor|].
  unfold vals. rewrite hfold_snoc. apply Forall_app; split; [done|]. apply Forall_singleton.
  assert (Hv : forall s, (1 <= hval (a_leaf count_alg) (a_none count_alg) (vals count_alg eh) s)%nat).
  { intros s. unfold hval. destruct (is_EVAL _); [|done].
    destruct (nth_in_or_default (Z.to_nat (opn s)) (vals count_alg eh) (a_none count_alg))
      as [Hin| ->]; [|done].
    rewrite Forall_forall in IH. apply IH. by apply list_elem_of_In. }
  generalize (Hv (getFirst e)), (Hv (getSecond e)). unfold vals.
  generalize (hval (a_leaf count_alg) (a_none count_alg)
    (hfold (a_leaf count_alg) (a_node count_alg) (a_none count_alg) eh)).
  intros f Hf Hs. unfold a_node. destruct (op e); simpl; nia.
Qed.

Lemma rounds_next eh i e : eh !! i = Some e -> (S (rounds (i + 1) eh) <= rounds i eh)%nat.
Proof.
  intros He. unfold rounds.
  destruct (lookup_lt_is_Some_2 (vals count_alg eh) i) as [d Hd].
  { unfold vals. rewrite length_hfold. by eapply lookup_lt_Some. }
  assert (zip_with weight eh (vals count_alg eh) !! i = Some (weight e d)) as Hw.
  { rewrite lookup_zip_with, He. simpl. by rewrite Hd. }
  rewrite (drop_S _ _ _ Hw). rewrite Nat.add_1_r. simpl.
  pose proof (Forall_lookup_1 _ _ _ _ (count_pos eh) Hd) as Hp. simpl in Hp.
  unfold weight. case_bool_decide; lia.
Qed.

Lemma zip_shift i R ws :
  zip_with weight (map (shift_ref i) R) ws = zip_with weight R ws.
Proof.
  revert ws; induction R as [|e R IH]; intros [|w ws]; simpl; f_equal; auto.
  unfold weight. by rewrite op_shift_ref.
Qed.

Lemma rounds_split nt eh i e isFirst idx o :
  splits nt eh i e isFirst idx o -> (S (rounds i (split_of i e isFirst o eh)) <= rounds i eh)%nat.
Proof.
  intros Hsp. destruct Hsp as [Hok He Hand Hsel Ho Hor Hlt].
  destruct (vals_split count_alg nt eh i e idx o isFirst) as (vs & ws & x & y & E1 & Hl & E2); try done.
  assert (length (take i eh) = i) as HP.
  { apply lookup_lt_Some in He. rewrite length_take. lia. }
  pose proof (count_pos (split_of i e isFirst o eh)) as Hpos. unfold split_of in *. rewrite E2 in Hpos.
  apply Forall_app in Hpos as [_ Hpos].
  apply Forall_cons in Hpos as [Hx Hpos]. apply Forall_cons in Hpos as [Hy _].
  assert (rounds i eh = weight e (y + x) + sum_list (zip_with weight (drop (S i) eh) ws))%nat as ->.
  { unfold rounds. rewrite E1. rewrite <- (take_drop_middle eh i e He) at 1.
    rewrite zip_with_app by lia. by rewrite drop_app_length' by (rewrite length_zip_with; lia). }
  unfold rounds. rewrite E2. unfold split_list. rewrite zip_with_app by lia. cbn [zip_with].
  rewrite drop_app_length' by (rewrite length_zip_with; lia).
  rewrite zip_shift. simpl. unfold weight. rewrite !op_and_node, Hand.
  simpl in *. lia.
Qed.

(** ** The whole loop *)

(** No AND before [i] has an OR operand. *)
Definition factored (eh : list eval_el) (i : nat) : Prop :=
  forall k x c j y, (k < i)%nat -> eh !! k = Some x -> op x = WQL_AND ->
    sel x c = eref j -> eh !! j = Some y -> op y <> WQL_OR.

(** [r] is the last element that has an operation. *)
Definition is_root (eh : list eval_el) (r : nat) : Prop :=
  (exists x, eh !! r = Some x /\ active x) /\
  forall k y, (r < k)%nat -> eh !! k = Some y -> inert y.

(** What [_factoring] establishes: an OR tree of AND trees without shared ORs. *)
Record dnf (nt : nat) (eh : list eval_el) : Prop := {
  dnf_ok : heap_ok nt eh;
  dnf_factored : forall i, factored eh i;
  dnf_uniq : forall p q x y c d k z, refers eh p x c k -> refers eh q y d k ->
    op x = WQL_OR -> op y = WQL_OR -> eh !! k = Some z -> op z = WQL_OR -> p = q /\ c = d;
}.

Lemma factored_next eh i e :
  factored eh i -> eh !! i = Some e ->
  (op e = WQL_AND -> forall c j x, sel e c = eref j -> eh !! j = Some x -> op x <> WQL_OR) ->
  factored eh (i + 1).
Proof.
  intros Hf He Hno k x c j y Hk Hx Ho. destruct (decide (k = i)) as [->|Hne].
  - simplify_eq. by apply Hno.
  - eapply Hf; [|done..]. lia.
Qed.

Lemma factored_split nt eh i e isFirst idx o :
  splits nt eh i e isFirst idx o -> factored eh i -> factored (split_of i e isFirst o eh) i.
Proof.
  intros Hsp Hf k x c j y Hk Hx Ho Hc Hy.
  assert (i < length eh)%nat as Hi by (eapply lookup_lt_Some, Hsp).
  unfold split_of in Hx, Hy. rewrite lookup_split_lt in Hx by done.
  pose proof (heap_ok_active nt eh k x (sp_ok _ _ _ _ _ _ _ Hsp) Hx (or_introl Ho) c) as Hs.
  rewrite Hc in Hs. apply sel_ok_lt in Hs. specialize (Hs eq_refl). simpl in Hs.
  rewrite lookup_split_lt in Hy by lia. by eapply Hf.
Qed.

(** The root moves up by two and keeps its value. *)
Lemma root_split nt eh i e isFirst idx o r :
  splits nt eh i e isFirst idx o -> is_root eh r ->
  is_root (split_of i e isFirst o eh) (r + 2) /\
  forall T (A : Alg T), Distributive A ->
    sval A (split_of i e isFirst o eh) (eref (r + 2)) = sval A eh (eref r).
Proof.
  intros Hsp [(x & Hx & Ha) Hafter].
  assert (i < length eh)%nat as Hi by (eapply lookup_lt_Some, Hsp).
  assert (i <= r)%nat as Hir.
  { destruct (decide (i <= r)%nat) as [|Hgt]; [done|]. exfalso.
    pose proof (Hafter i e ltac:(lia) (sp_e _ _ _ _ _ _ _ Hsp)) as Hin.
    unfold inert in Hin. rewrite (sp_and _ _ _ _ _ _ _ Hsp) in Hin. done. }
  assert (mv i r = r + 2)%nat as Hmv by (unfold mv; by rewrite (proj2 (Nat.ltb_ge _ _)) by lia).
  split; [split|].
  - destruct (split_active _ _ _ _ _ _ _ _ _ Hsp Hx Ha) as (x' & Hx' & Ha').
    rewrite Hmv in Hx'. eauto.
  - intros k y Hk Hy. replace k with ((k - 2) + 2)%nat in Hy by lia.
    unfold split_of in Hy. rewrite lookup_split_gt in Hy by lia.
    apply fmap_Some in Hy as (z & Hz & ->). unfold inert. rewrite op_shift_ref.
    eapply (Hafter (k - 2)%nat); [lia|done].
  - intros T A HA. destruct Hsp as [Hok He Hand Hsel Ho Hor Hlt].
    destruct (vals_split A nt eh i e idx o isFirst) as (vs & ws & u & v & E1 & Hl & E2); try done.
    unfold sval, split_of. rewrite E1, E2, !hval_eref. rewrite <- Hmv, <- Hl. apply nth_insert_two.
Qed.

Lemma factor_loop_spec nt fuel : forall i eh,
  heap_ok nt eh -> uniq eh i -> factored eh i -> (rounds i eh <= fuel)%nat ->
  exists eh', factor_loop fuel i eh = Ok eh' /\ dnf nt eh' /\
    (forall r, is_root eh r -> exists r', is_root eh' r' /\
       forall T (A : Alg T), Distributive A -> sval A eh' (eref r') = sval A eh (eref r)) /\
    (Forall inert eh -> eh' = eh).
Proof.
  induction fuel as [|fuel IH]; intros i eh Hok Hu Hf Hfuel;
    destruct (eh !! i) as [e|] eqn:He.
  - pose proof (rounds_next _ _ _ He). lia.
  - exists eh. cbn [factor_loop]. rewrite He. split_and!; [done| |eauto|done].
    apply lookup_ge_None in He. split; [done| |].
    + intros k' k x c j y _ Hx. apply (Hf k x c j y); [|done]. apply lookup_lt_Some in Hx. lia.
    + intros p q x y c d k z Hp Hq Ho Ho' Hz Hoz. apply (Hu p q x y c d k); try done; right; eauto.
  - cbn [factor_loop]. rewrite He.
    assert (Hgo : (op e = WQL_AND -> forall c j x, sel e c = eref j -> eh !! j = Some x ->
              op x <> WQL_OR) -> exists eh', factor_loop fuel (i + 1) eh = Ok eh' /\ dnf nt eh' /\
      (forall r, is_root eh r -> exists r', is_root eh' r' /\
         forall T (A : Alg T), Distributive A -> sval A eh' (eref r') = sval A eh (eref r)) /\
      (Forall inert eh -> eh' = eh)).
    { intros Hno. apply IH; [done|..].
      - rewrite Nat.add_1_r. by apply uniq_next.
      - by eapply factored_next.
      - pose proof (rounds_next _ _ _ He). lia. }
    case_bool_decide as Hand; [|by apply Hgo].
    destruct (find_or_spec nt eh i e Hok He Hand) as [(isF & idx & o & -> & Hsp)|[-> Hno]];
      cbn [mbind outcome_bind]; [|by apply Hgo].
    rewrite (split_at_list _ _ _ _ o) by apply Hsp. cbn [mbind outcome_bind].
    destruct (IH i (split_of i e isF o eh)) as (eh' & E & Hd & Hr & Hin).
    + by eapply heap_ok_split.
    + by eapply uniq_split.
    + by eapply factored_split.
    + pose proof (rounds_split _ _ _ _ _ _ _ Hsp). lia.
    + exists eh'. split_and!; [done|done| |].
      * intros r Hroot. destruct (root_split _ _ _ _ _ _ _ _ Hsp Hroot) as [Hroot' Hv].
        destruct (Hr _ Hroot') as (r' & Hr' & Hv'). exists r'. split; [done|].
        intros T A HA. by rewrite Hv', Hv.
      * intros Hall. exfalso. pose proof (Forall_lookup_1 _ _ _ _ Hall He) as Hi.
        unfold inert in Hi. congruence.
  - exists eh. cbn [factor_loop]. rewrite He. split_and!; [done| |eauto|done].
    apply lookup_ge_None in He. split; [done| |].
    + intros k' k x c j y _ Hx. apply (Hf k x c j y); [|done]. apply lookup_lt_Some in Hx. lia.
    + intros p q x y c d k z Hp Hq Ho Ho' Hz Hoz. apply (Hu p q x y c d k); try done; right; eauto.
Qed.

Lemma factoring_spec nt eh :
  heap_ok nt eh -> tree_like eh ->
  exists eh', _factoring eh = Ok eh' /\ dnf nt eh' /\
    (forall r, is_root eh r -> exists r', is_root eh' r' /\
       forall T (A : Alg T), Distributive A -> sval A eh' (eref r') = sval A eh (eref r)) /\
    (Forall inert eh -> eh' = eh).
Proof.
  intros Hok Ht. apply factor_loop_spec; [done|by apply tree_like_uniq| |done].
  intros k x c j y Hk. lia.
Qed.
