(* ===== verification/WqlGather.v ===== *)
(** * Gathering the disjunction and the conjunctions

   On a heap in the form [_factoring] leaves, [_gather] lists the operands of
   the OR tree under the root, and the comparisons of the AND tree under each
   of them. *)

From S2P Require Import Prelude Wql WqlCompile WqlExpr WqlNot WqlHeap WqlFactor.

(** ** Stripping trailing elements without an operation *)

Lemma strip_snoc eh x :
  strip (length (eh ++ [x])) (eh ++ [x]) =
  if bool_decide (op x = WQL_DO_NOTHING) then strip (length eh) eh else Some (eh ++ [x]).
Proof.
  rewrite length_app, Nat.add_1_r. cbn [strip]. rewrite list_lookup_middle by done.
  by rewrite take_app_length.
Qed.

Lemma strip_inert eh : Forall inert eh -> strip (length eh) eh = None.
Proof.
  induction eh as [|x eh IH] using rev_ind; intros H; [done|].
  rewrite Forall_app, Forall_singleton in H. destruct H as [H Hx]. rewrite strip_snoc.
  rewrite bool_decide_true by exact Hx. by apply IH.
Qed.

(** What is left ends with the last element that has an operation. *)
Lemma strip_last (eh : list eval_el) (r : nat) (x : eval_el) :
  eh !! r = Some x -> ~ inert x -> (forall k y, (r < k)%nat -> eh !! k = Some y -> inert y) ->
  strip (length eh) eh = Some (take (S r) eh).
Proof.
  induction eh as [|z eh IH] using rev_ind; intros Hr Hx Hafter; [done|].
  rewrite strip_snoc. pose proof (lookup_lt_Some _ _ _ Hr) as Hlen. rewrite length_app in Hlen.
  simpl in Hlen. destruct (decide (r = length eh)) as [->|Hne].
  - rewrite list_lookup_middle in Hr by done. simplify_eq. rewrite bool_decide_false by exact Hx.
    rewrite take_ge; [done|]. rewrite length_app. simpl. lia.
  - rewrite bool_decide_true.
    + rewrite lookup_app_l in Hr by lia. rewrite take_app_le by lia. apply IH; [done..|].
      intros k y Hk Hy. apply (Hafter k); [done|]. by apply lookup_app_l_Some.
    + apply (Hafter (length eh)); [lia|]. by apply list_lookup_middle.
Qed.

(** The last such element exists if there is any. *)
Lemma last_active (eh : list eval_el) (k : nat) (x : eval_el) :
  eh !! k = Some x -> ~ inert x ->
  exists r y, (k <= r)%nat /\ eh !! r = Some y /\ ~ inert y /\
    forall j z, (r < j)%nat -> eh !! j = Some z -> inert z.
Proof.
  induction eh as [|z eh IH] using rev_ind; intros Hk Hx; [done|].
  destruct (decide (op z = WQL_DO_NOTHING)) as [Hz|Hz].
  - apply lookup_app_Some in Hk as [Hk|[_ Hk]];
      [|apply list_lookup_singleton_Some in Hk as [_ <-]; done].
    destruct (IH Hk Hx) as (r & y & Hr & Hy & Hny & Hafter).
    exists r, y. split_and!; [done|by apply lookup_app_l_Some|done|].
    intros j w Hj [Hw|[_ Hw]]%lookup_app_Some; [eauto|].
    apply list_lookup_singleton_Some in Hw as [_ <-]. done.
  - exists (length eh), z. apply lookup_lt_Some in Hk. rewrite length_app in Hk. simpl in Hk.
    split_and!; [lia|by apply list_lookup_middle|done|].
    intros j w Hj Hw%lookup_lt_Some. rewrite length_app in Hw. simpl in Hw. lia.
Qed.

(** ** The loop *)

Lemma array_insert_stack {A} (l : list A) s f g p :
  array_insert (length l) f (<[length l := g]> (l ++ s :: p)) = l ++ f :: g :: p.
Proof.
  rewrite insert_app_r_alt, Nat.sub_diag by lia. unfold array_insert. cbn.
  by rewrite take_app_length, drop_app_length.
Qed.

Definition tsize (o : WQLOperation) (eh : list eval_el) (s : stack_el) : nat :=
  hval (fun _ => 1%nat) 1%nat (tree_sizes o eh) s.

Lemma tsize_node nt eh o k x :
  heap_ok nt eh -> eh !! k = Some x -> active x ->
  tsize o eh (eref k) =
  if bool_decide (op x = o) then (1 + tsize o eh (getFirst x) + tsize o eh (getSecond x))%nat else 1%nat.
Proof.
  intros Hok Hx Ha. pose proof (heap_ok_active nt eh k x Hok Hx Ha) as Hs.
  unfold tsize, tree_sizes. rewrite (hfold_eq _ _ _ _ _ x Hx); [done|..].
  - eapply sel_ok_lt, (Hs true).
  - eapply sel_ok_lt, (Hs false).
Qed.

Lemma tsize_tref eh o k : tsize o eh (tref k) = 1%nat.
Proof. done. Qed.

(** The heap with the ORs in [vis] emptied. *)
Definition mask (vis : list nat) (eh : list eval_el) : list eval_el :=
  imap (fun k x => if decide (k ∈ vis) then set_op WQL_DO_NOTHING x else x) eh.

Lemma lookup_mask vis eh k :
  mask vis eh !! k = (fun x => if decide (k ∈ vis) then set_op WQL_DO_NOTHING x else x) <$> eh !! k.
Proof. unfold mask. by rewrite list_lookup_imap. Qed.

Lemma lookup_mask_out vis eh k : (k ∉ vis) -> mask vis eh !! k = eh !! k.
Proof. intros H. rewrite lookup_mask. destruct (eh !! k); simpl; [|done]. by rewrite decide_False. Qed.

Lemma mask_nil eh : mask [] eh = eh.
Proof. apply list_eq. intros k. apply lookup_mask_out. set_solver. Qed.

Lemma mask_insert vis eh k x :
  eh !! k = Some x -> <[k := set_op WQL_DO_NOTHING x]> (mask vis eh) = mask (k :: vis) eh.
Proof.
  intros Hx. apply list_eq. intros j. destruct (decide (j = k)) as [->|Hne].
  - rewrite list_lookup_insert_eq by (unfold mask; rewrite length_imap; by eapply lookup_lt_Some).
    rewrite lookup_mask, Hx. simpl. rewrite decide_True by set_solver. done.
  - rewrite list_lookup_insert_ne by done. rewrite !lookup_mask. destruct (eh !! j); simpl; [|done].
    f_equal. do 2 case_decide; try done; set_solver.
Qed.

Definition ors (eh : list eval_el) (stk : list stack_el) : list nat :=
  omap (fun s => if or_ref eh s then Some (Z.to_nat (opn s)) else None) stk.

Lemma or_ref_true nt eh k s :
  sel_ok nt eh k s -> or_ref eh s = true ->
  exists j x, s = eref j /\ (j < k)%nat /\ eh !! j = Some x /\ op x = WQL_OR.
Proof. intros Hs Ho. destruct (or_ref_cases _ _ _ _ Hs) as [[_ ?]|[? _]]; [done|congruence]. Qed.

Lemma elem_of_ors nt eh k stk j :
  Forall (sel_ok nt eh k) stk -> j ∈ ors eh stk ->
  (j < k)%nat /\ eref j ∈ stk /\ exists x, eh !! j = Some x /\ op x = WQL_OR.
Proof.
  intros Hok Hj. unfold ors in Hj. apply list_elem_of_omap in Hj as (s & Hs & E).
  destruct (or_ref eh s) eqn:Ho; [|done]. simplify_eq.
  rewrite Forall_forall in Hok.
  destruct (or_ref_true _ _ _ _ (Hok s Hs) Ho) as (j & x & -> & Hj & Hx & Hox).
  cbn [eref opn]. rewrite Nat2Z.id. eauto 6.
Qed.

Section Gather.
Context `{lib : WqlLib} (nt : nat) (eh : list eval_el) (Hdnf : dnf nt eh).

Let Hok : heap_ok nt eh := dnf_ok nt eh Hdnf.

(** One round of the loop: an operand that is not expanded, *)
Lemma gather_skip fuel (or_flag : bool) (done pend : list stack_el) s (h : list eval_el) :
  (opn s <? 0) || negb (is_EVAL (type s)) = true \/
  (exists (k : nat) x, s = eref k /\ h !! k = Some x /\
     op x <> if or_flag then WQL_OR else WQL_AND) ->
  gather_loop (S fuel) or_flag (length done) (done ++ s :: pend) h =
  gather_loop fuel or_flag (length (done ++ [s])) ((done ++ [s]) ++ pend) h.
Proof.
  intros Hs. cbn [gather_loop]. rewrite list_lookup_middle by done.
  rewrite length_app. cbn [length]. rewrite <- app_assoc. cbn [app].
  destruct Hs as [-> |(k & x & -> & Hx & Ho)]; [done|].
  cbn [eref opn type]. rewrite (proj2 (Z.ltb_ge _ _)) by lia. change (is_EVAL EVAL_HEAP) with true.
  cbn [orb negb]. rewrite (at_Some _ _ _ Hx). cbn [mbind outcome_bind].
  destruct or_flag; cbv iota in Ho; rewrite (bool_decide_false _ Ho); [done|].
  by rewrite andb_false_r.
Qed.

(** and one that is replaced by its two operands. *)
Lemma gather_expand fuel (or_flag : bool) (done pend : list stack_el) (k : nat) x (h : list eval_el) :
  h !! k = Some x -> (op x = if or_flag then WQL_OR else WQL_AND) ->
  gather_loop (S fuel) or_flag (length done) (done ++ eref k :: pend) h =
  gather_loop fuel or_flag (length done) (done ++ getFirst x :: getSecond x :: pend)
    (if or_flag then <[k := set_op WQL_DO_NOTHING x]> h else h).
Proof.
  intros Hx Ho. cbn [gather_loop]. rewrite list_lookup_middle by done.
  cbn [eref opn type]. rewrite (proj2 (Z.ltb_ge _ _)) by lia. change (is_EVAL EVAL_HEAP) with true.
  cbn [orb negb]. rewrite (at_Some _ _ _ Hx). cbn [mbind outcome_bind].
  rewrite array_insert_stack, Nat2Z.id.
  destruct or_flag; rewrite Ho; simpl; done.
Qed.

Lemma sval_or th v k x :
  eh !! k = Some x -> op x = WQL_OR ->
  sval (bool_alg th v) eh (eref k) =
  sval (bool_alg th v) eh (getFirst x) || sval (bool_alg th v) eh (getSecond x).
Proof.
  intros Hx Ho. rewrite (sval_node _ nt _ _ x) by (done || by right).
  unfold a_node. by rewrite Ho.
Qed.

Lemma sval_and th v k x :
  eh !! k = Some x -> op x = WQL_AND ->
  sval (bool_alg th v) eh (eref k) =
  sval (bool_alg th v) eh (getFirst x) && sval (bool_alg th v) eh (getSecond x).
Proof.
  intros Hx Ho. rewrite (sval_node _ nt _ _ x) by (done || by left).
  unfold a_node. by rewrite Ho.
Qed.

(** ** The disjunction *)

(** The ORs seen so far ([vis]) and those on the stack: each is the root [r]
   or an operand of one that was seen, and none occurs twice. *)
Record or_inv (r : nat) (vis : list nat) (done pend : list stack_el) : Prop := {
  oi_sel : Forall (sel_ok nt eh (S r)) (done ++ pend);
  oi_done : Forall (fun s => or_ref eh s = false) done;
  oi_nodup : NoDup (vis ++ ors eh pend);
  oi_parent : forall k, k ∈ vis ++ ors eh pend ->
    k = r \/ exists p x b, p ∈ vis /\ eh !! p = Some x /\ op x = WQL_OR /\ sel x b = eref k;
  oi_vis : forall k, k ∈ vis -> exists x, eh !! k = Some x /\ op x = WQL_OR;
}.

Lemma or_inv_skip r vis done pend s :
  or_ref eh s = false -> or_inv r vis done (s :: pend) -> or_inv r vis (done ++ [s]) pend.
Proof.
  intros Ho [Hs Hd Hn Hp Hv]. assert (ors eh (s :: pend) = ors eh pend) as E
    by (unfold ors; cbn [omap list_omap]; by rewrite Ho).
  rewrite E in Hn, Hp. split; try done.
  - by rewrite <- app_assoc.
  - apply Forall_app. split; [done|]. by apply Forall_singleton.
Qed.

Lemma ors_cons s stk :
  ors eh (s :: stk) = (if or_ref eh s then [Z.to_nat (opn s)] else []) ++ ors eh stk.
Proof. unfold ors. cbn [omap list_omap]. by destruct (or_ref eh s). Qed.

(** An OR operand of [k] is new. *)
Lemma or_child_fresh r vis done pend k x b j :
  or_inv r vis done (eref k :: pend) -> eh !! k = Some x -> op x = WQL_OR ->
  sel x b = eref j -> or_ref eh (eref j) = true ->
  j ∉ k :: vis ++ ors eh pend.
Proof.
  intros [Hs Hd Hn Hp Hv] Hx Ho Hb Hj Hin.
  pose proof (heap_ok_active nt eh k x Hok Hx (or_intror Ho) b) as Hsb. rewrite Hb in Hsb.
  pose proof (sel_ok_lt _ _ _ _ Hsb eq_refl) as Hlt. simpl in Hlt.
  destruct (or_ref_true _ _ _ _ Hsb Hj) as (j' & y & <-%eref_inj & _ & Hy & Hoy).
  assert (k < S r)%nat as Hkr.
  { apply Forall_app in Hs as [_ Hs]. apply Forall_cons in Hs as [Hs _].
    pose proof (sel_ok_lt _ _ _ _ Hs eq_refl) as Hl. simpl in Hl. lia. }
  rewrite ors_cons, (or_ref_eref _ _ _ Hx), bool_decide_true in Hn, Hp by done.
  cbn [eref opn] in Hn, Hp. rewrite Nat2Z.id in Hn, Hp. cbn [app] in Hn, Hp.
  assert (k ∉ vis) as Hkv.
  { intros Hk. apply NoDup_app in Hn as (_ & Hn & _). apply (Hn k Hk). set_solver. }
  assert (j <> k) as Hjk by lia.
  destruct (Hp j) as [->|(p & z & c & Hpv & Hz & Hoz & Hc)]; [set_solver|lia|].
  destruct (dnf_uniq nt eh Hdnf p k z x c b j y) as [-> _]; try done; repeat split; try done; by right.
Qed.

Lemma or_inv_expand r vis done pend k x :
  or_inv r vis done (eref k :: pend) -> eh !! k = Some x -> op x = WQL_OR ->
  or_inv r (k :: vis) done (getFirst x :: getSecond x :: pend).
Proof.
  intros Hinv Hx Ho. pose proof Hinv as [Hs Hd Hn Hp Hv].
  pose proof (heap_ok_active nt eh k x Hok Hx (or_intror Ho)) as Hsx.
  assert (k < S r)%nat as Hkr.
  { apply Forall_app in Hs as [_ Hs]. apply Forall_cons in Hs as [Hs _].
    pose proof (sel_ok_lt _ _ _ _ Hs eq_refl) as Hl. simpl in Hl. lia. }
  assert (Hfresh : forall b, or_ref eh (sel x b) = true ->
            (Z.to_nat (opn (sel x b)) ∉ k :: vis ++ ors eh pend) /\
            sel x b = eref (Z.to_nat (opn (sel x b)))).
  { intros b Hb. destruct (or_ref_true _ _ _ _ (Hsx b) Hb) as (j & y & E & Hj & Hy & Hoy).
    rewrite E in Hb |- *. cbn [eref opn]. rewrite Nat2Z.id. split; [|done].
    by eapply or_child_fresh. }
  assert (Hdiff : or_ref eh (getFirst x) = true -> or_ref eh (getSecond x) = true ->
            Z.to_nat (opn (getFirst x)) <> Z.to_nat (opn (getSecond x))).
  { intros H1 H2 E. destruct (Hfresh true H1) as [_ E1]. destruct (Hfresh false H2) as [_ E2].
    cbn [sel] in E1, E2. rewrite E in E1.
    destruct (or_ref_true _ _ _ _ (Hsx false) H2) as (j & y & Ej & Hj & Hy & Hoy).
    cbn [sel] in Ej. rewrite Ej in E1. cbn [eref opn] in E1. rewrite Nat2Z.id in E1.
    destruct (dnf_uniq nt eh Hdnf k k x x true false j y) as [_ [=]]; try done;
      repeat split; try done; by right. }
  rewrite ors_cons, (or_ref_eref _ _ _ Hx), bool_decide_true in Hn, Hp by done.
  cbn [eref opn] in Hn, Hp. rewrite Nat2Z.id in Hn, Hp. cbn [app] in Hn, Hp.
  assert (NoDup (k :: vis ++ ors eh pend)) as Hn'.
  { rewrite Permutation_middle. done. }
  set (l1 := if or_ref eh (getFirst x) then [Z.to_nat (opn (getFirst x))] else []).
  set (l2 := if or_ref eh (getSecond x) then [Z.to_nat (opn (getSecond x))] else []).
  assert (Hnew : forall j, j ∈ l1 ++ l2 ->
            (j ∉ k :: vis ++ ors eh pend) /\ exists b, sel x b = eref j).
  { intros j [Hj|Hj]%elem_of_app; unfold l1, l2 in Hj.
    - destruct (or_ref eh (getFirst x)) eqn:E1; [|by apply not_elem_of_nil in Hj].
      apply list_elem_of_singleton in Hj as ->. destruct (Hfresh true E1). eauto.
    - destruct (or_ref eh (getSecond x)) eqn:E2; [|by apply not_elem_of_nil in Hj].
      apply list_elem_of_singleton in Hj as ->. destruct (Hfresh false E2). eauto. }
  split.
  - apply Forall_app in Hs as [Hs1 Hs2]. apply Forall_app; split; [done|].
    apply Forall_cons in Hs2 as [_ Hs2].
    constructor; [|constructor; [|done]]; eapply sel_ok_mono;
      [|apply (Hsx true)| |apply (Hsx false)]; lia.
  - done.
  - rewrite !ors_cons. fold l1 l2. rewrite (app_assoc l1). change (k :: vis) with ([k] ++ vis).
    rewrite (Permutation_app_swap_app ([k] ++ vis) (l1 ++ l2)). apply NoDup_app.
    split_and!; [|by intros j Hj; apply Hnew|done].
    unfold l1, l2. destruct (or_ref eh (getFirst x)), (or_ref eh (getSecond x)); cbn [app];
      rewrite ?NoDup_cons, ?list_elem_of_singleton; repeat split; try apply NoDup_nil;
      try apply not_elem_of_nil; try done. by apply Hdiff.
  - intros j Hj. rewrite !ors_cons in Hj. fold l1 l2 in Hj.
    rewrite (app_assoc l1), (Permutation_app_swap_app (k :: vis) (l1 ++ l2)) in Hj.
    apply elem_of_app in Hj as [Hj|Hj].
    + right. destruct (Hnew j Hj) as [_ [b Hb]]. exists k, x, b.
      split_and!; [by left|done|done|done].
    + destruct (Hp j) as [|(p & y & b & Hpv & Hy)]; [set_solver|by left|right].
      exists p, y, b. split; [by right|done].
  - intros j [->|Hj]%elem_of_cons; eauto.
Qed.

Lemma sel_ok_cases k s :
  sel_ok nt eh k s ->
  (exists j, s = tref j /\ (j < nt)%nat) \/
  (exists j x, s = eref j /\ (j < k)%nat /\ eh !! j = Some x /\ (op x = WQL_AND \/ op x = WQL_OR)).
Proof. intros [(j & x & ? & ? & ? & ?)|?]; [right; eauto 6|by left]. Qed.

Lemma gather_or_loop r fuel : forall vis done pend,
  or_inv r vis done pend -> (sum_list (map (tsize WQL_OR eh) pend) <= fuel)%nat ->
  exists D vis', gather_loop fuel true (length done) (done ++ pend) (mask vis eh)
                 = Ok (D, mask vis' eh) /\
    or_inv r vis' D [] /\ (done ++ pend <> [] -> D <> []) /\
    forall th v, existsb (sval (bool_alg th v) eh) D = existsb (sval (bool_alg th v) eh) (done ++ pend).
Proof.
  induction fuel as [|fuel IH]; intros vis done [|s pend] Hinv Hfuel.
  1,3: exists done, vis; rewrite app_nil_r; destruct fuel || idtac; cbn [gather_loop];
    rewrite lookup_ge_None_2 by done; done.
  all: pose proof (oi_sel _ _ _ _ Hinv) as Hs; apply Forall_app in Hs as [_ Hs];
    apply Forall_cons in Hs as [Hs _]; cbn [map sum_list_with id] in Hfuel.
  - destruct (sel_ok_cases _ _ Hs) as [(j & -> & _)|(j & x & -> & _ & Hx & Ho)].
    + rewrite tsize_tref in Hfuel. lia.
    + rewrite (tsize_node nt _ _ _ x) in Hfuel by done. case_bool_decide; lia.
  - destruct (sel_ok_cases _ _ Hs) as [(j & -> & Hj)|(j & x & -> & Hj & Hx & Ho)].
    + rewrite gather_skip by (by left; apply orb_true_r). rewrite tsize_tref in Hfuel.
      destruct (IH vis (done ++ [tref j]) pend) as (D & vis' & E & Hinv' & Hne & Hv); [by apply or_inv_skip|lia|].
      exists D, vis'. rewrite E. split_and!; [done|done|intros _; apply Hne; clear; by destruct done|]. intros th v. rewrite Hv.
      by rewrite <- app_assoc.
    + rewrite (tsize_node nt _ _ _ x) in Hfuel by done. destruct Ho as [Ho|Ho].
      * assert (or_ref eh (eref j) = false) as Hor
          by (rewrite (or_ref_eref _ _ _ Hx); apply bool_decide_false; congruence).
        assert (mask vis eh !! j = Some x) as Hm.
        { rewrite lookup_mask_out; [done|]. intros (y & Hy & Hoy)%(oi_vis _ _ _ _ Hinv). congruence. }
        rewrite gather_skip by (right; exists j, x; by rewrite Ho).
        rewrite bool_decide_false in Hfuel by congruence.
        destruct (IH vis (done ++ [eref j]) pend) as (D & vis' & E & Hinv' & Hne & Hv);
          [by apply or_inv_skip|lia|].
        exists D, vis'. rewrite E. split_and!; [done|done|intros _; apply Hne; clear; by destruct done|]. intros th v. rewrite Hv.
        by rewrite <- app_assoc.
      * assert (j ∉ vis) as Hjv.
        { pose proof (oi_nodup _ _ _ _ Hinv) as Hn.
          rewrite ors_cons, (or_ref_eref _ _ _ Hx), bool_decide_true in Hn by done.
          cbn [eref opn] in Hn. rewrite Nat2Z.id in Hn.
          apply NoDup_app in Hn as (_ & Hn & _). intros Hv. apply (Hn j Hv). by left. }
        rewrite (gather_expand _ true done pend j x) by (rewrite ?lookup_mask_out; done).
        cbv iota. rewrite mask_insert by done. rewrite bool_decide_true in Hfuel by done.
        destruct (IH (j :: vis) done (getFirst x :: getSecond x :: pend)) as (D & vis' & E & Hinv' & Hne & Hv).
        { by apply or_inv_expand. }
        { cbn [map sum_list_with id]. lia. }
        exists D, vis'. rewrite E. split_and!; [done|done|intros _; apply Hne; clear; by destruct done|]. intros th v. rewrite Hv.
        rewrite !existsb_app. cbn [existsb]. rewrite (sval_or _ _ _ _ Hx Ho).
        by rewrite !orb_assoc.
Qed.

(** ** The conjunctions *)

(** Every operand is an AND or a terminal. *)
Definition and_ok (m : nat) (s : stack_el) : Prop :=
  (exists j, s = tref j /\ (j < nt)%nat) \/
  (exists j x, s = eref j /\ (j < m)%nat /\ eh !! j = Some x /\ op x = WQL_AND).

Lemma and_ok_sel m j x c :
  eh !! j = Some x -> op x = WQL_AND -> (j < m)%nat -> and_ok m (sel x c).
Proof.
  intros Hx Ho Hj.
  destruct (sel_ok_cases _ _ (heap_ok_active nt eh j x Hok Hx (or_introl Ho) c))
    as [?|(k & y & E & Hk & Hy & Hoy)]; [by left|right].
  exists k, y. split_and!; [done|lia|done|]. destruct Hoy as [?|Hoy]; [done|].
  by eapply (dnf_factored nt eh Hdnf (S j) j x c k y) in Hoy; [|lia|..].
Qed.

(** [h] holds the ANDs of [eh] below [m]. *)
Definition keeps_ands (m : nat) (h : list eval_el) : Prop :=
  forall k x, (k < m)%nat -> eh !! k = Some x -> op x = WQL_AND -> h !! k = Some x.

Lemma gather_and_loop m h fuel : forall done pend,
  keeps_ands m h -> Forall (and_ok m) pend ->
  Forall (fun s => exists j, s = tref j /\ (j < nt)%nat) done ->
  (sum_list (map (tsize WQL_AND eh) pend) <= fuel)%nat ->
  exists D, gather_loop fuel false (length done) (done ++ pend) h = Ok (D, h) /\
    Forall (fun s => exists j, s = tref j /\ (j < nt)%nat) D /\
    forall th v, forallb (sval (bool_alg th v) eh) D = forallb (sval (bool_alg th v) eh) (done ++ pend).
Proof.
  induction fuel as [|fuel IH]; intros done [|s pend] Hh Hp Hd Hfuel.
  1,3: exists done; rewrite app_nil_r; cbn [gather_loop];
    rewrite lookup_ge_None_2 by done; done.
  all: apply Forall_cons in Hp as [Hs Hp]; cbn [map sum_list_with id] in Hfuel.
  - destruct Hs as [(j & -> & _)|(j & x & -> & _ & Hx & Ho)].
    + rewrite tsize_tref in Hfuel. lia.
    + rewrite (tsize_node nt _ _ _ x) in Hfuel by (done || by left). case_bool_decide; lia.
  - destruct Hs as [(j & -> & Hj)|(j & x & -> & Hj & Hx & Ho)].
    + rewrite gather_skip by (by left; apply orb_true_r). rewrite tsize_tref in Hfuel.
      destruct (IH (done ++ [tref j]) pend) as (D & E & HD & Hv); [done|done| |lia|].
      { apply Forall_app; split; [done|]. apply Forall_singleton. eauto. }
      exists D. rewrite E. split_and!; [done|done|]. intros th v. rewrite Hv.
      by rewrite <- app_assoc.
    + rewrite (tsize_node nt _ _ _ x) in Hfuel by (done || by left).
      rewrite bool_decide_true in Hfuel by done.
      rewrite (gather_expand _ false done pend j x) by (done || by apply Hh). cbv iota.
      destruct (IH done (getFirst x :: getSecond x :: pend)) as (D & E & HD & Hv); [done| |done|..].
      { constructor; [|constructor; [|done]]; [apply (and_ok_sel m j x true)|apply (and_ok_sel m j x false)];
          done. }
      { cbn [map sum_list_with id]. lia. }
      exists D. rewrite E. split_and!; [done|done|]. intros th v. rewrite Hv.
      rewrite !forallb_app. cbn [forallb]. rewrite (sval_and _ _ _ _ Hx Ho).
      by rewrite !andb_assoc.
Qed.

Lemma tsize_keeps h j : forall x,
  keeps_ands (length eh) h -> eh !! j = Some x -> op x = WQL_AND ->
  tsize WQL_AND h (eref j) = tsize WQL_AND eh (eref j).
Proof.
  induction j as [j IH] using lt_wf_ind. intros x Hh Hx Ho.
  pose proof (heap_ok_active nt eh j x Hok Hx (or_introl Ho)) as Hs.
  pose proof (lookup_lt_Some _ _ _ Hx) as Hlen.
  assert (Hsel : forall c, tsize WQL_AND h (sel x c) = tsize WQL_AND eh (sel x c)).
  { intros c. destruct (and_ok_sel (length eh) j x c Hx Ho Hlen) as [(k & -> & _)|(k & y & E & _ & Hy & Hoy)];
      [done|]. rewrite E. eapply IH; [|done..].
    pose proof (Hs c) as Hc. rewrite E in Hc. apply sel_ok_lt in Hc. specialize (Hc eq_refl).
    simpl in Hc. lia. }
  rewrite (tsize_node nt eh _ _ x) by (done || by left).
  unfold tsize at 1, tree_sizes. rewrite (hfold_eq _ _ _ _ _ x).
  - rewrite Ho, bool_decide_true by done. do 2 f_equal; [f_equal; apply (Hsel true)|apply (Hsel false)].
  - by apply Hh.
  - eapply sel_ok_lt, (Hs true).
  - eapply sel_ok_lt, (Hs false).
Qed.

Lemma keeps_ands_strip h j x :
  keeps_ands (length eh) h -> eh !! j = Some x -> op x = WQL_AND ->
  exists h', strip (length h) h = Some h' /\ keeps_ands (length eh) h'.
Proof.
  intros Hh Hx Ho. pose proof (lookup_lt_Some _ _ _ Hx) as Hlen.
  destruct (last_active h j x (Hh _ _ Hlen Hx Ho)) as (r & y & Hjr & Hy & Hny & Hafter).
  { unfold inert. by rewrite Ho. }
  exists (take (S r) h). split; [by eapply strip_last|].
  intros k z Hk Hz Hoz. pose proof (Hh _ _ Hk Hz Hoz) as Hkz.
  rewrite lookup_take_lt; [done|]. destruct (decide (k < S r)%nat) as [|Hge]; [done|].
  exfalso. assert (inert z) as Hin by (eapply (Hafter k); [lia|done]).
  unfold inert in Hin. congruence.
Qed.

(** [_gatherConj] lists the terminals of the AND tree under [j]. *)
Lemma gatherConj_spec h j x :
  keeps_ands (length eh) h -> eh !! j = Some x -> op x = WQL_AND ->
  exists D h', _gatherConj [] (eref j) h = Ok (D, h') /\ keeps_ands (length eh) h' /\
    Forall (fun s => exists k, s = tref k /\ (k < nt)%nat) D /\
    forall th v, forallb (sval (bool_alg th v) eh) D = sval (bool_alg th v) eh (eref j).
Proof.
  intros Hh Hx Ho. destruct (keeps_ands_strip h j x Hh Hx Ho) as (h' & Estrip & Hh').
  unfold _gatherConj, _gather. rewrite Estrip. cbn [eref type app].
  change (is_EVAL EVAL_HEAP) with true. cbv iota.
  change (hval (fun _ => 1%nat) 1%nat (tree_sizes WQL_AND h')) with (tsize WQL_AND h').
  destruct (gather_and_loop (length eh) h' (sum_list (map (tsize WQL_AND h') [eref j])) [] [eref j])
    as (D & E & HD & Hv); [done| |done| |].
  - apply Forall_singleton. right. exists j, x. pose proof (lookup_lt_Some _ _ _ Hx). done.
  - cbn [map sum_list_with id]. by rewrite (tsize_keeps h' j x Hh' Hx Ho).
  - exists D, h'. split_and!; [exact E|done|done|]. intros th v. rewrite Hv. cbn [app forallb].
    apply andb_true_r.
Qed.

(** ** The rows *)

Lemma terms_at_spec (th : list term_el) D :
  nt = length th -> Forall (fun s => exists k, s = tref k /\ (k < nt)%nat) D ->
  exists tr, terms_at th D = Ok tr /\ Forall (fun t => t ∈ th) tr /\
    forall v, forallb v tr = forallb (sval (bool_alg th v) eh) D.
Proof.
  intros Hnt. induction 1 as [|s D (k & -> & Hk) _ (tr & E & Hin & Hv)]; [by exists []|].
  destruct (lookup_lt_is_Some_2 th k) as [t Ht]; [lia|].
  exists (t :: tr). unfold terms_at in *. cbn [fold_right tref opn]. rewrite (at_Some _ _ _ Ht), E.
  split_and!; [done|constructor; [by eapply list_elem_of_lookup_2|done]|].
  intros v. cbn [forallb]. rewrite Hv, sval_tref. cbn [bool_alg a_leaf tref opn].
  by rewrite Nat2Z.id, Ht.
Qed.

Lemma rows_loop_spec (th : list term_el) D : forall h,
  nt = length th -> keeps_ands (length eh) h -> Forall (sel_ok nt eh (length eh)) D ->
  Forall (fun s => or_ref eh s = false) D ->
  exists rows, rows_loop th D h = Ok rows /\ length rows = length D /\
    Forall (Forall (fun t => t ∈ th)) rows /\
    forall v, existsb (forallb v) rows = existsb (sval (bool_alg th v) eh) D.
Proof.
  induction D as [|d D IH]; intros h Hnt Hh Hs Ho; [by exists []|].
  apply Forall_cons in Hs as [Hd Hs]. apply Forall_cons in Ho as [Hod Ho]. cbn [rows_loop].
  destruct (sel_ok_cases _ _ Hd) as [(j & -> & Hj)|(j & x & -> & Hj & Hx & Hax)].
  - destruct (lookup_lt_is_Some_2 th j) as [t Ht]; [lia|].
    destruct (IH h Hnt Hh Hs Ho) as (rows & E & Hl & Hin & Hv).
    exists ([t] :: rows). cbn [tref type opn]. change (is_EVAL TERMINAL_HEAP) with false. cbv iota.
    rewrite (at_Some _ _ _ Ht). cbn [mbind outcome_bind]. rewrite E.
    split_and!; [done|simpl; by rewrite Hl| |].
    + constructor; [|done]. apply Forall_singleton. by eapply list_elem_of_lookup_2.
    + intros v. cbn [existsb forallb]. rewrite Hv, sval_tref, andb_true_r.
      cbn [bool_alg a_leaf tref opn]. by rewrite Nat2Z.id, Ht.
  - assert (op x = WQL_AND) as Hox.
    { destruct Hax as [?|Hor]; [done|]. rewrite (or_ref_eref _ _ _ Hx) in Hod.
      apply bool_decide_eq_false in Hod. done. }
    destruct (gatherConj_spec h j x Hh Hx Hox) as (C & h' & E & Hh' & HC & HvC).
    destruct (terms_at_spec th C Hnt HC) as (tr & Etr & Hintr & Hvtr).
    destruct (IH h' Hnt Hh' Hs Ho) as (rows & Er & Hl & Hin & Hv).
    exists (tr :: rows). cbn [eref type]. change (is_EVAL EVAL_HEAP) with true. cbv iota.
    change (mkSel (Z.of_nat j) EVAL_HEAP) with (eref j). rewrite E.
    cbn [mbind outcome_bind]. rewrite Etr. cbn [mbind outcome_bind]. rewrite Er.
    split_and!; [done|simpl; by rewrite Hl|by constructor|].
    intros v. cbn [existsb]. by rewrite Hv, Hvtr, HvC.
Qed.
End Gather.

(** ** The heap cut after its root *)

Lemma sval_take {T} (A : Alg T) eh m s : sel_lt m s -> (m <= length eh)%nat ->
  sval A (take m eh) s = sval A eh s.
Proof.
  intros Hs Hm. unfold sval. rewrite <- (take_drop m eh) at 2.
  destruct (hfold_app (a_leaf A) (a_node A) (a_none A) (take m eh) (drop m eh)) as [ts E].
  unfold vals. rewrite E. symmetry. apply hval_prefix. intros Ht.
  unfold zlen. rewrite length_hfold, length_take. specialize (Hs Ht). lia.
Qed.

Lemma dnf_take nt eh m : dnf nt eh -> dnf nt (take m eh).
Proof.
  intros [Hok Hf Hu]. split.
  - intros k e [He Hk]%lookup_take_Some. destruct (Hok k e He) as [|[Ha Hs]]; [by left|right].
    split; [done|]. intros b. destruct (Hs b) as [(j & x & E & Hj & Hx & Hax)|?]; [left|by right].
    exists j, x. split_and!; try done. by rewrite lookup_take_lt by lia.
  - intros i k x c j y Hk [Hx _]%lookup_take_Some Ho Hc [Hy _]%lookup_take_Some. by eapply Hf.
  - intros p q x y c d k z ([Hp _]%lookup_take_Some & ? & ?) ([Hq _]%lookup_take_Some & ? & ?)
      Ho Ho' [Hz _]%lookup_take_Some Hoz.
    eapply Hu; [..|exact Hz|exact Hoz]; try done.
Qed.

(** [_gatherDisj] returns operands that are no ORs, whose disjunction is the
   value of the root; only ORs are emptied. *)
Lemma gatherDisj_spec `{lib : WqlLib} nt eh r :
  dnf nt eh -> is_root eh r ->
  let eh1 := take (S r) eh in
  dnf nt eh1 /\ length eh1 = S r /\
  exists D h, _gatherDisj [] eh = Ok (D, h) /\ D <> [] /\ keeps_ands eh1 (length eh1) h /\
    Forall (sel_ok nt eh1 (length eh1)) D /\ Forall (fun s => or_ref eh1 s = false) D /\
    forall th v, existsb (sval (bool_alg th v) eh1) D = sval (bool_alg th v) eh (eref r).
Proof.
  intros Hdnf [(x & Hx & Ha) Hafter] eh1.
  pose proof (lookup_lt_Some _ _ _ Hx) as Hlen.
  assert (length eh1 = S r) as HL by (unfold eh1; rewrite length_take; lia).
  assert (dnf nt eh1) as Hdnf1 by (by apply dnf_take).
  assert (eh1 !! r = Some x) as Hx1 by (unfold eh1; by rewrite lookup_take_lt by lia).
  split_and!; [done|done|]. unfold _gatherDisj, _gather.
  rewrite (strip_last eh r x Hx (active_not_inert x Ha) Hafter). fold eh1. cbn [app].
  replace (mkSel (zlen eh1 - 1) EVAL_HEAP) with (eref r)
    by (unfold eref, zlen; rewrite HL; f_equal; lia).
  change (hval (fun _ => 1%nat) 1%nat (tree_sizes WQL_OR eh1)) with (tsize WQL_OR eh1).
  destruct (gather_or_loop nt eh1 Hdnf1 r (sum_list (map (tsize WQL_OR eh1) [eref r])) [] [] [eref r])
    as (D & vis & E & Hinv & Hne & Hv); [|done|].
  { split.
    - apply Forall_singleton. left. exists r, x. split_and!; done || lia.
    - constructor.
    - rewrite ors_cons. cbn [app ors omap list_omap]. rewrite app_nil_r.
      destruct (or_ref _ _); [apply NoDup_singleton|apply NoDup_nil_2].
    - intros k Hk. left. rewrite ors_cons in Hk. cbn [app ors omap list_omap] in Hk.
      rewrite app_nil_r in Hk. destruct (or_ref _ _); [|by apply not_elem_of_nil in Hk].
      apply list_elem_of_singleton in Hk as ->. cbn [eref opn]. by rewrite Nat2Z.id.
    - intros k Hk. by apply not_elem_of_nil in Hk. }
  rewrite mask_nil in E. cbn [app length] in E. exists D, (mask vis eh1).
  pose proof (oi_sel _ _ _ _ _ _ Hinv) as Hs. rewrite app_nil_r in Hs.
  split_and!; [exact E|by apply Hne| |by rewrite HL|by apply Hinv|].
  - intros k y Hk Hy Ho. rewrite lookup_mask_out; [done|].
    intros (z & Hz & Hoz)%(oi_vis _ _ _ _ _ _ Hinv). congruence.
  - intros th v. rewrite Hv. cbn [app existsb]. rewrite orb_false_r. unfold eh1.
    apply sval_take; [|lia]. intros _. simpl. lia.
Qed.
