(* ===== verification/WqlEval.v ===== *)
(** * Evaluation of comparisons and of the tableau

   When swapping or negating a comparison keeps its meaning, that sorting a
   row keeps its value, and the value of a row whose comparisons are all
   defined. *)

From S2P Require Import Prelude Wql WqlCompile WqlExpr WqlNot WqlHeap.

Section Eval.
Context `{lib : WqlLib} `{laws : !WqlLaws}.

(** ** Swapping the operands *)

(** A comparison type whose equality is symmetric. *)
Definition cmp_sym {A} (c : Cmp A) : Prop := forall x y, c_eq _ c x y = c_eq _ c y x.

Lemma int_cmp_sym : cmp_sym int_cmp.
Proof. intros x y. apply Z.eqb_sym. Qed.
Lemma real_cmp_sym : cmp_sym real_cmp.
Proof. intros x y. apply real_eq_sym. Qed.
Lemma str_cmp_sym : cmp_sym str_cmp.
Proof. intros x y. apply String.eqb_sym. Qed.

Lemma Compare_turn {A} (c : Cmp A) x y o :
  cmp_sym c -> _Compare c y x (turn_op o) = _Compare c x y o.
Proof. intros Hc. destruct o; simpl; rewrite ?(Hc y x); done. Qed.

Lemma is_EQ_turn o : is_EQ (turn_op o) = is_EQ o.
Proof. by destruct o. Qed.

(** Swapping two values and turning the operator keeps the result. *)
Lemma Evaluate_turn a b o :
  is_property a = false -> is_property b = false -> _Evaluate b a (turn_op o) = _Evaluate a b o.
Proof.
  intros Ha Hb. destruct a, b; try done; simpl;
    rewrite ?is_EQ_turn, ?xorb_false_r;
    first [done | apply Compare_turn, int_cmp_sym | apply Compare_turn, real_cmp_sym
          | apply Compare_turn, str_cmp_sym].
Qed.

(** The values a source returns are not property names. *)
Definition values_only (src : WQLPropertySource) : Prop :=
  forall p v, getValue src p = Ok (Some v) -> is_property v = false.

Definition defined (src : WQLPropertySource) (t : term_el) : Prop :=
  exists b, eval_term src t = Ok b.

(** The truth value of a comparison that is defined. *)
Definition tv (src : WQLPropertySource) (t : term_el) : bool :=
  match eval_term src t with Ok b => b | _ => false end.

Lemma tv_defined src t b : eval_term src t = Ok b -> tv src t = b.
Proof. unfold tv. by intros ->. Qed.

Lemma resolve_literal src o : is_property o = false -> _ResolveProperty o src = Ok o.
Proof. by destruct o. Qed.

Lemma resolve_value src o v :
  values_only src -> _ResolveProperty o src = Ok v -> is_property v = false.
Proof.
  intros Hv. destruct o; simpl; try (by intros [= <-]).
  destruct (getValue src _) as [[w|]| | |] eqn:E; simpl; try done. intros [= <-]. by eapply Hv.
Qed.

(** [property_first] keeps the value of a comparison. *)
Lemma eval_property_first src t :
  values_only src -> defined src t -> eval_term src (property_first t) = eval_term src t.
Proof.
  intros Hv [r Hr]. unfold property_first.
  destruct (is_property (t_opn2 t)) eqn:H2; [|done].
  destruct (is_property (t_opn1 t)) eqn:H1; [done|]. cbn [andb negb].
  unfold eval_term in *. destruct t as [m o a b]. cbn [t_op t_opn1 t_opn2] in *.
  case_bool_decide as Ho.
  { exfalso. by destruct a. }
  rewrite bool_decide_false by (by destruct o).
  rewrite (resolve_literal src a H1) in Hr |- *. cbn [mbind outcome_bind] in *.
  destruct (_ResolveProperty b src) as [v| | |] eqn:E; cbn [mbind outcome_bind] in *; try done.
  by rewrite Evaluate_turn by (done || by eapply resolve_value).
Qed.

(** ** Negating a comparison *)

(** A comparison type in which exactly one of [<], [==], [>] holds for [x], [y]. *)
Definition ordered {A} (c : Cmp A) (x y : A) : Prop :=
  (c_lt _ c x y = true /\ c_eq _ c x y = false /\ c_lt _ c y x = false) \/
  (c_lt _ c x y = false /\ c_eq _ c x y = true /\ c_lt _ c y x = false) \/
  (c_lt _ c x y = false /\ c_eq _ c x y = false /\ c_lt _ c y x = true).

Definition is_order (o : WQLOperation) : bool :=
  match o with
  | WQL_EQ | WQL_NE | WQL_LT | WQL_LE | WQL_GT | WQL_GE => true
  | _ => false
  end.

Lemma Compare_negate {A} (c : Cmp A) x y o :
  is_order o = true -> ordered c x y ->
  _Compare c x y (negate_op o) = negb <$> _Compare c x y o.
Proof.
  intros Ho [(E1 & E2 & E3)|[(E1 & E2 & E3)|(E1 & E2 & E3)]];
    destruct o; try done; simpl; rewrite ?E1, ?E2, ?E3; done.
Qed.

Lemma int_ordered x y : ordered int_cmp x y.
Proof.
  unfold ordered, int_cmp; simpl.
  destruct (Z.ltb_spec x y), (Z.eqb_spec x y), (Z.ltb_spec y x); try lia; auto 6.
Qed.

Lemma str_ordered x y : ordered str_cmp x y.
Proof.
  unfold ordered, str_cmp; simpl. destruct (String.eqb_spec x y) as [->|Hne].
  - rewrite str_lt_irrefl. auto 6.
  - destruct (str_lt_total x y Hne) as [E|E]; rewrite E, (str_lt_asym _ _ E); auto 6.
Qed.

(** Reals are ordered unless one is not a number. *)
Definition comparable (x y : Real64) : bool := real_lt x y || real_eq x y || real_lt y x.

Lemma real_ordered x y : comparable x y = true -> ordered real_cmp x y.
Proof.
  unfold comparable, ordered, real_cmp; simpl. intros H.
  destruct (real_lt x y) eqn:E1.
  - rewrite (real_lt_eq _ _ E1), (real_lt_asym _ _ E1). auto 6.
  - destruct (real_lt y x) eqn:E3.
    + rewrite real_eq_sym, (real_lt_eq _ _ E3). auto 6.
    + simpl in H. rewrite orb_false_r in H. rewrite H. auto 6.
Qed.

(** Both sides of a comparison as reals, when it is made on reals. *)
Definition as_reals (a b : WQLOperand) : option (Real64 * Real64) :=
  match a, b with
  | DOUBLE_VALUE x, DOUBLE_VALUE y => Some (x, y)
  | DOUBLE_VALUE x, INTEGER_VALUE y => Some (x, real_of_int y)
  | INTEGER_VALUE x, DOUBLE_VALUE y => Some (real_of_int x, y)
  | DOUBLE_VALUE x, BOOLEAN_VALUE y => Some (x, real_of_int (int_of_bool y))
  | BOOLEAN_VALUE x, DOUBLE_VALUE y => Some (real_of_int (int_of_bool x), y)
  | _, _ => None
  end.

(** [=] and [<>] always negate each other, *)
Definition is_equality (o : WQLOperation) : bool :=
  match o with
  | WQL_EQ | WQL_NE => true
  | _ => false
  end.

(** the order operators do when neither side is NULL and no real side is a
   NaN. *)
Definition negation_safe (a b : WQLOperand) (o : WQLOperation) : bool :=
  is_equality o
  || is_order o && negb (is_null a || is_null b)
     && match as_reals a b with Some (x, y) => comparable x y | None => true end.

Lemma Compare_negate_eq {A} (c : Cmp A) x y o :
  is_equality o = true -> _Compare c x y (negate_op o) = negb <$> _Compare c x y o.
Proof. destruct o; try done; intros _; simpl; by rewrite ?negb_involutive. Qed.

Lemma Evaluate_negate a b o :
  negation_safe a b o = true -> is_property a = false -> is_property b = false ->
  _Evaluate a b (negate_op o) = negb <$> _Evaluate a b o.
Proof.
  unfold negation_safe. intros [Ho|H]%orb_true_iff Ha Hb.
  - destruct a, b; try done; cbn [_Evaluate];
      unfold _EvaluateRHS_int, _EvaluateRHS_real, _EvaluateRHS_bool, _EvaluateRHS_string;
      first [by apply Compare_negate_eq | by destruct o].
  - apply andb_true_iff in H as [H Hr]. apply andb_true_iff in H as [Ho Hn].
    destruct a, b; try done; cbn [_Evaluate is_null] in *;
      unfold _EvaluateRHS_int, _EvaluateRHS_real, _EvaluateRHS_bool, _EvaluateRHS_string;
      (apply Compare_negate; [done|];
       first [apply int_ordered | apply str_ordered | by apply real_ordered]).
Qed.

(** ** Sorting a row *)

Lemma swap_terms_perm j k tr :
  Forall (fun t => t_mark t = false) tr -> swap_terms j k tr ≡ₚ tr.
Proof.
  intros Hm. unfold swap_terms.
  destruct (tr !! j) as [a|] eqn:Ea; [|done]. destruct (tr !! k) as [b|] eqn:Eb; [|done].
  pose proof (Forall_lookup_1 _ _ _ _ Hm Ea) as Ha. pose proof (Forall_lookup_1 _ _ _ _ Hm Eb) as Hb.
  destruct a as [ma oa a1 a2], b as [mb ob b1 b2]. simpl in *. subst.
  by apply Permutation_insert_swap.
Qed.

Lemma sort_inner_perm key j ks : forall tr,
  Forall (fun t => t_mark t = false) tr -> sort_inner key j ks tr ≡ₚ tr.
Proof.
  unfold sort_inner. induction ks as [|k ks IH]; intros tr Hm; [done|]. cbn [fold_left].
  destruct (tr !! k) as [b|]; [|by apply IH]. destruct (str_lt _ _); [|by apply IH].
  pose proof (swap_terms_perm j k tr Hm) as Hp. rewrite IH; [done|]. by rewrite Hp.
Qed.

Lemma sort_outer_perm tr : Forall (fun t => t_mark t = false) tr -> sort_outer tr ≡ₚ tr.
Proof.
  unfold sort_outer. generalize (length tr) as m. intros m. generalize (seq 0 m) as js.
  intros js. revert tr. induction js as [|j js IH]; intros tr Hm; [done|]. cbn [fold_left].
  destruct (tr !! j) as [a|]; [|by apply IH].
  pose proof (sort_inner_perm (sort_key a) j (seq j (m - j)) tr Hm) as Hp.
  rewrite IH; [done|]. by rewrite Hp.
Qed.

(** The literals of a row that are reals. *)
Definition operand_reals (o : WQLOperand) : list Real64 :=
  match o with DOUBLE_VALUE x => [x] | _ => [] end.
Definition term_reals (t : term_el) : list Real64 :=
  operand_reals (t_opn1 t) ++ operand_reals (t_opn2 t).

(** [==] tells the reals of a list apart (0.0 and -0.0 do not both occur). *)
Definition reals_distinct (l : list Real64) : Prop :=
  forall x y, x ∈ l -> y ∈ l -> real_eq x y = true -> x = y.

Lemma operand_eq_sound (l : list Real64) x y :
  reals_distinct l -> (forall r, r ∈ operand_reals x -> r ∈ l) ->
  (forall r, r ∈ operand_reals y -> r ∈ l) -> operand_eq x y = true -> x = y.
Proof.
  intros Hl Hx Hy. destruct x, y; simpl; try done; intros E.
  - by apply Z.eqb_eq in E as ->.
  - f_equal. apply Hl; [apply Hx|apply Hy|done]; by left.
  - by apply eqb_prop in E as ->.
  - by apply String.eqb_eq in E as ->.
  - by apply String.eqb_eq in E as ->.
Qed.

Lemma term_eq_sound (l : list Real64) x y src :
  reals_distinct l -> (forall r, r ∈ term_reals x -> r ∈ l) ->
  (forall r, r ∈ term_reals y -> r ∈ l) -> term_eq x y = true -> eval_term src x = eval_term src y.
Proof.
  intros Hl Hx Hy. unfold term_eq. intros E.
  apply andb_true_iff in E as [E E2]. apply andb_true_iff in E as [E E1].
  apply bool_decide_eq_true in E. unfold term_reals in *.
  assert (t_opn1 x = t_opn1 y) as E1'.
  { eapply operand_eq_sound; [done| | |done]; intros r Hr; [apply Hx|apply Hy];
      apply elem_of_app; by left. }
  assert (t_opn2 x = t_opn2 y) as E2'.
  { eapply operand_eq_sound; [done| | |done]; intros r Hr; [apply Hx|apply Hy];
      apply elem_of_app; by right. }
  unfold eval_term. by rewrite E, E1', E2'.
Qed.

Lemma forallb_unique (l : list term_el) (v : term_el -> bool) tr :
  (forall x y, x ∈ l -> y ∈ l -> term_eq x y = true -> v x = v y) ->
  Forall (fun t => t ∈ l) tr -> forallb v (unique tr) = forallb v tr.
Proof.
  intros Hv Htr. destruct Htr as [|x tr Hx Htr]; [done|]. cbn [unique forallb].
  revert x Hx. induction Htr as [|y tr Hy _ IH]; intros x Hx; [done|]. cbn [unique_after].
  destruct (term_eq x y) eqn:E; cbn [forallb].
  - rewrite IH by done. rewrite <- (Hv x y) by done. by destruct (v x).
  - by rewrite IH.
Qed.

Lemma unique_subset tr t : t ∈ unique tr -> t ∈ tr.
Proof.
  destruct tr as [|x tr]; [done|]. cbn [unique].
  revert x. induction tr as [|y tr IH]; intros x; [done|]. cbn [unique_after].
  destruct (term_eq x y).
  - intros Ht. apply IH in Ht. set_solver.
  - intros [->|Ht]%elem_of_cons; [by left|]. right. by apply IH.
Qed.

Lemma forallb_perm {A} (v : A -> bool) l l' : l ≡ₚ l' -> forallb v l = forallb v l'.
Proof.
  induction 1 as [|x l l' _ IH|x y l|l l' l'' _ IH1 _ IH2]; simpl; [done|by rewrite IH| |congruence].
  by destruct (v x), (v y).
Qed.

Lemma term_reals_property_first t r : r ∈ term_reals (property_first t) -> r ∈ term_reals t.
Proof.
  unfold property_first, term_reals. destruct (_ && _); [|done]. simpl. set_solver.
Qed.

(** Sorting keeps the value of a row whose comparisons are defined. *)
Lemma sort_row_value src (l : list Real64) tr :
  values_only src -> reals_distinct l ->
  Forall (fun t => t_mark t = false /\ defined src t /\ forall r, r ∈ term_reals t -> r ∈ l) tr ->
  Forall (defined src) (sort_row tr) /\
  forallb (tv src) (sort_row tr) = forallb (tv src) tr.
Proof.
  intros Hsrc Hl Htr. unfold sort_row. set (tr1 := map property_first tr).
  assert (Forall (fun t => t_mark t = false /\ defined src t /\
            forall r, r ∈ term_reals t -> r ∈ l) tr1) as Htr1.
  { apply Forall_map. eapply Forall_impl; [done|]. intros t (Hm & Hd & Hr). split_and!.
    - unfold property_first. by destruct (_ && _).
    - unfold defined. by rewrite eval_property_first.
    - intros r Hin. by apply Hr, term_reals_property_first. }
  assert (Forall (fun t => t_mark t = false) tr1) as Hm1
    by (eapply Forall_impl; [exact Htr1|by intros ? [? ?]]).
  pose proof (sort_outer_perm tr1 Hm1) as Hp. set (tr2 := sort_outer tr1) in *.
  rewrite <- Hp in Htr1. split.
  - apply Forall_forall. intros t Ht%unique_subset. rewrite Forall_forall in Htr1. by apply Htr1.
  - rewrite (forallb_unique tr2).
    + rewrite (forallb_perm _ _ _ Hp). unfold tr1. clear -Htr Hsrc laws.
      induction Htr as [|t tr (_ & Hd & _) _ IH]; [done|]. cbn [map forallb]. rewrite IH.
      unfold tv at 1. by rewrite eval_property_first.
    + intros x y Hx Hy E. rewrite Forall_forall in Htr1. unfold tv.
      by rewrite (term_eq_sound l x y src) by (done || by apply Htr1).
    + by apply Forall_forall.
Qed.

(** ** Rows of defined comparisons *)

Lemma eval_row_value src tr :
  Forall (defined src) tr -> eval_row src tr = Ok (forallb (tv src) tr).
Proof.
  induction 1 as [|t tr [b Hb] _ IH]; [done|]. cbn [eval_row forallb].
  rewrite Hb, (tv_defined _ _ _ Hb), IH. by destruct b.
Qed.

Lemma eval_rows_value src rows :
  Forall (Forall (defined src)) rows ->
  eval_rows src rows = Ok (existsb (forallb (tv src)) rows).
Proof.
  induction 1 as [|tr rows Htr _ IH]; [done|]. cbn [eval_rows existsb].
  rewrite eval_row_value by done. cbn [mbind outcome_bind]. rewrite IH. by destruct (forallb _ _).
Qed.

Lemma sort_rows_value src (l : list Real64) rows :
  values_only src -> reals_distinct l ->
  Forall (Forall (fun t => t_mark t = false /\ defined src t /\
                    forall r, r ∈ term_reals t -> r ∈ l)) rows ->
  eval_rows src (_sortTableau rows) = Ok (existsb (forallb (tv src)) rows).
Proof.
  intros Hsrc Hl Hrows. unfold _sortTableau. rewrite eval_rows_value.
  - f_equal. induction Hrows as [|tr rows Htr _ IH]; [done|]. cbn [map existsb].
    destruct (sort_row_value src l tr Hsrc Hl Htr) as [_ ->]. by rewrite IH.
  - apply Forall_map. eapply Forall_impl; [exact Hrows|]. intros tr Htr.
    by apply (sort_row_value src l tr).
Qed.
End Eval.
