(* ===== verification/WqlCorrect.v ===== *)
(** * The compiled where clause has the value of the where clause *)

From S2P Require Import Prelude Wql WqlCompile WqlExpr WqlNot WqlHeap WqlFactor WqlGather WqlEval.

Section Correct.
Context `{lib : WqlLib} `{laws : !WqlLaws}.

(** Comparisons below an odd number of NOTs are ones that [negate] negates:
   no ISA, no order operator on NULL, no NaN. *)
Fixpoint not_safe (src : WQLPropertySource) (pol : bool) (e : wexpr) : bool :=
  match e with
  | WComp o a b =>
      if pol then
        match _ResolveProperty a src, _ResolveProperty b src with
        | Ok x, Ok y => negation_safe x y o
        | _, _ => false
        end
      else true
  | WNot e => not_safe src (negb pol) e
  | WBin _ e1 e2 => not_safe src pol e1 && not_safe src pol e2
  end.

Lemma eval_negate src o a b :
  values_only src -> not_safe src true (WComp o a b) = true ->
  eval_term src (negate (mkTerm false o a b)) = negb <$> eval_term src (mkTerm false o a b).
Proof.
  intros Hv. cbn [not_safe].
  destruct (_ResolveProperty a src) as [x| | |] eqn:Ea; try done.
  destruct (_ResolveProperty b src) as [y| | |] eqn:Eb; try done. intros Hs.
  assert (is_order o = true) as Ho.
  { unfold negation_safe in Hs. by destruct o. }
  unfold eval_term, negate. cbn [t_op t_opn1 t_opn2].
  rewrite !bool_decide_false by (by destruct o). rewrite Ea, Eb. cbn [mbind outcome_bind].
  apply Evaluate_negate; [done|by eapply resolve_value..].
Qed.

(** The comparisons left by [_pushNOTDown] are defined, and their normal form
   has the value of the clause (negated under [pol]). *)
Lemma psem_meaning src e : forall pol b,
  values_only src -> wf e = true -> meaning src e = Ok b -> not_safe src pol e = true ->
  Forall (defined src) (pterms pol e) /\ psem (tv src) pol e = xorb pol b.
Proof.
  intros pol b Hv. revert pol b.
  induction e as [o x y|e IH|o e1 IH1 e2 IH2]; intros pol b Hwf;
    cbn [meaning not_safe pterms psem wf] in *.
  - intros Hb Hs. destruct pol; cbn [xorb].
    + pose proof (eval_negate src o x y Hv Hs) as En. rewrite Hb in En. cbn in En.
      split; [apply Forall_singleton; by eexists|]. rewrite (tv_defined _ _ _ En). by destruct b.
    + split; [apply Forall_singleton; by eexists|]. rewrite (tv_defined _ _ _ Hb). by destruct b.
  - destruct (meaning src e) as [b'| | |] eqn:E; try done. intros [= <-] Hs.
    destruct (IH (negb pol) b' Hwf eq_refl Hs) as [Hd ->]. split; [done|]. by destruct pol, b'.
  - destruct (meaning src e1) as [b1| | |] eqn:E1; try done.
    destruct (meaning src e2) as [b2| | |] eqn:E2; try done. cbn [mbind outcome_bind].
    intros [= <-] [Hs1 Hs2]%andb_true_iff.
    apply andb_true_iff in Hwf as [Hwf Hw2]. apply andb_true_iff in Hwf as [Ho Hw1].
    destruct (IH1 pol b1 Hw1 eq_refl Hs1) as [Hd1 ->]. destruct (IH2 pol b2 Hw2 eq_refl Hs2) as [Hd2 ->].
    split; [by apply Forall_app|]. destruct pol, o, b1, b2; done.
Qed.

(** The real literals of a where clause. *)
Fixpoint wreals (e : wexpr) : list Real64 :=
  match e with
  | WComp _ a b => operand_reals a ++ operand_reals b
  | WNot e => wreals e
  | WBin _ e1 e2 => wreals e1 ++ wreals e2
  end.

Lemma pterms_plain e : forall pol,
  Forall (fun t => t_mark t = false /\ forall r, r ∈ term_reals t -> r ∈ wreals e) (pterms pol e).
Proof.
  induction e as [o x y|e IH|o e1 IH1 e2 IH2]; intros pol; cbn [pterms wreals].
  - apply Forall_singleton. by destruct pol.
  - apply IH.
  - apply Forall_app; split; eapply Forall_impl; [apply IH1| |apply IH2|];
      intros t [Hm Hr]; (split; [done|]); intros r ?; apply elem_of_app; auto.
Qed.

Lemma nterm_pos e : (0 < nterm e)%nat.
Proof. unfold nterm. induction e; simpl; rewrite ?length_app; lia. Qed.

(** The rows [compile] builds from a fresh compiler, before sorting: they
   have the value of the normal form, whatever the comparisons are worth. *)
Lemma compile_rows e cn sp wp :
  wf e = true ->
  exists rows, compile (mkStmt cn sp wp (postfix e)) newCompile =
      Ok (mkCompile (_sortTableau rows) (pterms false e) []) /\
    rows <> [] /\ Forall (Forall (fun t => t ∈ pterms false e)) rows /\
    forall v, existsb (forallb v) rows = psem v false e.
Proof.
  intros Hwf. unfold compile.
  assert (hasWhereClause (mkStmt cn sp wp (postfix e)) = true) as ->.
  { unfold hasWhereClause. cbn [_operStack]. rewrite bool_decide_false; [done|].
    clear. destruct e; simpl; [done|..]; intros E; apply (f_equal length) in E;
      rewrite !length_app in E; simpl in E; lia. }
  cbn [negb _operStack newCompile terminal_heap eval_heap].
  rewrite buildEvalHeap_layout by done. cbn [mbind outcome_bind app length].
  pose proof (pushNOTDown_playout e [] Hwf) as Ep. cbn [app length] in Ep. rewrite Ep. clear Ep.
  cbn [mbind outcome_bind evals terms].
  set (th := pterms false e). set (eh := playout 0 0 false e).
  destruct (playout_ok e false Hwf) as [Hok Hsel]. fold eh in Hok, Hsel.
  destruct (playout_tree e 0 0 false) as [Htree _]. fold eh in Htree.
  assert (nterm e = length th) as Hnt by (unfold th; by rewrite length_pterms).
  assert (Hval : forall v, sval (bool_alg th v) eh (pref 0 0 e) = psem v false e).
  { intros v. pose proof (playout_value v e false [] [] [] [] 0 0 Hwf eq_refl eq_refl) as E.
    cbn [app] in E. by rewrite !app_nil_r in E. }
  destruct (factoring_spec (nterm e) eh Hok Htree) as (eh' & -> & Hdnf & Hroots & Hinert).
  cbn [mbind outcome_bind].
  destruct (playout_root e 0 0 false) as [(r & Er & Hr & Hafter)|(Et & Hn1 & Hall)];
    [fold eh in Hafter|fold eh in Hall].
  - cbn [Nat.add] in Er.
    assert (is_root eh r) as Hroot.
    { split; [|intros k y; eauto]. rewrite Er in Hsel.
      destruct Hsel as [(j & x & E & _ & Hx & Ha)|(j & E & _)]; [|done].
      apply eref_inj in E as <-. eauto. }
    destruct (Hroots r Hroot) as (r' & Hroot' & Hv').
    destruct (gatherDisj_spec (nterm e) eh' r' Hdnf Hroot')
      as (Hdnf1 & _ & D & h & -> & Hne & Hkeep & HD & Hnor & HvD).
    cbn [mbind outcome_bind]. rewrite (bool_decide_false _ Hne). cbn [andb].
    destruct (rows_loop_spec (nterm e) _ Hdnf1 th D h Hnt Hkeep HD Hnor) as (rows & -> & Hl & Hin & Hv).
    exists rows. split_and!; [done| |done|].
    + intros ->. by destruct D.
    + intros v. rewrite Hv, HvD, Hv' by apply _. rewrite <- Er. apply Hval.
  - rewrite Hinert by done. unfold _gatherDisj, _gather. rewrite strip_inert by done.
    cbn [mbind outcome_bind]. rewrite bool_decide_true by done.
    destruct (lookup_lt_is_Some_2 th 0) as [t Ht]; [pose proof (nterm_pos e); lia|].
    rewrite bool_decide_false by (by intros E; rewrite E in Ht). cbn [andb negb rows_loop type].
    change (is_EVAL TERMINAL_HEAP) with false. cbv iota. cbn [opn].
    change 0 with (Z.of_nat 0). rewrite (at_Some _ _ _ Ht). cbn [mbind outcome_bind].
    exists [[t]]. split_and!; [done|done| |].
    + do 2 apply Forall_singleton. by eapply list_elem_of_lookup_2.
    + intros v. rewrite <- Hval, Et, sval_tref. cbn [bool_alg a_leaf tref opn].
      change (Z.to_nat (Z.of_nat 0)) with 0%nat. rewrite Ht. cbn [existsb forallb].
      by rewrite andb_true_r, orb_false_r.
Qed.

(** Compilation succeeds, and evaluation gives the meaning of the clause. *)
Lemma compile_evaluate e cn sp wp :
  wf e = true -> reals_distinct (wreals e) ->
  exists c, compile (mkStmt cn sp wp (postfix e)) newCompile = Ok c /\
    forall src b, values_only src -> meaning src e = Ok b -> not_safe src false e = true ->
      evaluate c src = Ok b.
Proof.
  intros Hwf Hreals. destruct (compile_rows e cn sp wp Hwf) as (rows & E & Hne & Hin & Hv).
  eexists. split; [exact E|]. intros src b Hsrc Hb Hsafe. unfold evaluate. cbn [_tableau].
  destruct (psem_meaning src e false b Hsrc Hwf Hb Hsafe) as [Hdef Hsem].
  assert (_sortTableau rows <> []) as Hne' by (by destruct rows).
  destruct (_sortTableau rows) as [|row rest] eqn:Es; [done|]. rewrite <- Es.
  rewrite (sort_rows_value src (wreals e)); [|done|done|].
  - rewrite Hv, Hsem. by destruct b.
  - eapply Forall_impl; [exact Hin|]. intros tr Htr. eapply Forall_impl; [exact Htr|].
    intros t Ht. pose proof (pterms_plain e false) as Hp. rewrite Forall_forall in Hp, Hdef.
    destruct (Hp t Ht) as [? ?]. auto.
Qed.
End Correct.
