(* ===== verification/WqlGen.v ===== *)
(** * From the parse tree to the select statement

   src/src/wql/OW_WQLSelectStatementGen.cpp visits the parse tree of a query
   (src/src/wql/OW_WQLAst.hpp) and leaves a [WQLSelectStatement] whose
   [_operStack] is the where clause in postfix form.  Alternatives of the
   grammar whose visitor throws INVALID_QUERY without looking at their parts are
   collected in the enumerations [...Unsupported]. *)

From S2P Require Import Prelude Wql WqlCompile WqlExpr.

(** ** Conversions of blocxx::String; [None] is a StringConversionException. *)
Class ScanLib `{lib : WqlLib} : Type := {
  toInt64 : Z -> string -> option Z;       (* base, digits *)
  toReal64 : string -> option Real64;
  end_char : Z;                            (* operator[] at the length of the string *)
}.

(** ** Escapes in string constants (OW_WQLScanUtils.cpp) *)

Section Escapes.
Context `{scan : ScanLib}.

(** The characters of a string as bytes. *)
Abbreviation chars := (list Z).

Definition QUOTE : Z := 39.
Definition BACKSLASH : Z := 92.
Definition is_octal (c : Z) : bool := (48 <=? c) && (c <=? 55).

(** [s[i]] for [i] up to the length of the string; further accesses are
   undefined. *)
Definition char_at (s : chars) (i : nat) : outcome Z :=
  if (i =? length s)%nat then Ok end_char else present (s !! i).

(** The digits of an octal escape from [i] on: at most three. *)
Fixpoint octal_loop (n : nat) (s : chars) (i : nat) (k : nat) (octVal : Z) : outcome (nat * Z) :=
  c ← char_at s (i + k);
  if is_octal c then
    match n with
    | O => Ok (k, octVal)
    | S n => octal_loop n s i (k + 1) (Z.shiftl octVal 3 + (c - 48))
    end
  else Ok (k, octVal).

(** The character an escape [\c] stands for; the digits of an octal number
   are handled by the caller. *)
Definition escaped (c : Z) : Z :=
  if c =? 98 then 8            (* b *)
  else if c =? 102 then 12     (* f *)
  else if c =? 110 then 10     (* n *)
  else if c =? 114 then 13     (* r *)
  else if c =? 116 then 9      (* t *)
  else c.

(** The loop of [WQLRemoveStringEscapes] from index [i] on. *)
Fixpoint unescape_loop (fuel : nat) (s : chars) (i : nat) : outcome chars :=
  if (length s <=? i)%nat then Ok []
  else match fuel with
  | O => Diverge
  | S fuel =>
      c ← char_at s i;
      if c =? QUOTE then
        c ← char_at s (i + 1);
        rest ← unescape_loop fuel s (i + 2);
        Ok (c :: rest)
      else if c =? BACKSLASH then
        c ← char_at s (i + 1);
        if is_octal c then
          '(k, octVal) ← octal_loop 3 s (i + 1) 0 0;
          rest ← unescape_loop fuel s (i + 1 + k);
          Ok (u8 octVal :: rest)
        else
          rest ← unescape_loop fuel s (i + 2);
          Ok (escaped c :: rest)
      else
        rest ← unescape_loop fuel s (i + 1);
        Ok (c :: rest)
  end.

Definition WQLRemoveStringEscapes (s : chars) : outcome chars := unescape_loop (length s) s 0.

Definition bytes_of_string (s : string) : chars :=
  map (fun a => Z.of_nat (Ascii.nat_of_ascii a)) (String.list_ascii_of_string s).
Definition string_of_bytes (l : chars) : string :=
  String.string_of_list_ascii (map (fun z => Ascii.ascii_of_nat (Z.to_nat z)) l).
End Escapes.

(** ** The parse tree *)

Inductive aExprConst :=
| aExprConst_ICONST (s : string)
| aExprConst_FCONST (s : string)
| aExprConst_SCONST (s : string)
| aExprConst_BITCONST (s : string)
| aExprConst_HEXCONST (s : string)
| aExprConst_TRUEP
| aExprConst_FALSEP
| aExprConst_NULLP.

Inductive attrs :=
| attrs_strAttrName (strAttrName1 : string)
| attrs_attrs_PERIOD_strAttrName (attrs1 : attrs) (strAttrName3 : string)
| attrs_attrs_PERIOD_ASTERISK (attrs1 : attrs).

Inductive optIndirection :=
| optIndirection_empty
| optIndirection_LEFTBRACKET_aExpr_RIGHTBRACKET
| optIndirection_LEFTBRACKET_aExpr_COLON_aExpr_RIGHTBRACKET.

(** Alternatives of [cExpr] and [aExpr] that are rejected as they are met. *)
Inductive cExprUnsupported :=
| cExpr_strFuncName_LEFTPAREN_RIGHTPAREN
| cExpr_strFuncName_LEFTPAREN_exprSeq_RIGHTPAREN
| cExpr_strFuncName_LEFTPAREN_ALL_exprSeq_RIGHTPAREN
| cExpr_strFuncName_LEFTPAREN_DISTINCT_exprSeq_RIGHTPAREN
| cExpr_strFuncName_LEFTPAREN_ASTERISK_RIGHTPAREN
| cExpr_CURRENTDATE | cExpr_CURRENTTIME | cExpr_CURRENTTIME_LEFTPAREN_ICONST_RIGHTPAREN
| cExpr_CURRENTTIMESTAMP | cExpr_CURRENTTIMESTAMP_LEFTPAREN_ICONST_RIGHTPAREN
| cExpr_CURRENTUSER | cExpr_SESSIONUSER | cExpr_USER
| cExpr_EXTRACT_LEFTPAREN_optExtract_RIGHTPAREN
| cExpr_POSITION_LEFTPAREN_positionExpr_RIGHTPAREN
| cExpr_SUBSTRING_LEFTPAREN_optSubstrExpr_RIGHTPAREN
| cExpr_TRIM_LEFTPAREN_LEADING_trimExpr_RIGHTPAREN
| cExpr_TRIM_LEFTPAREN_TRAILING_trimExpr_RIGHTPAREN
| cExpr_TRIM_LEFTPAREN_trimExpr_RIGHTPAREN.

Inductive aExprUnsupported :=
| aExpr_aExpr_AT_TIME_ZONE_cExpr | aExpr_PLUS_aExpr | aExpr_MINUS_aExpr | aExpr_BITINVERT_aExpr
| aExpr_aExpr_PLUS_aExpr | aExpr_aExpr_MINUS_aExpr | aExpr_aExpr_ASTERISK_aExpr
| aExpr_aExpr_SOLIDUS_aExpr | aExpr_aExpr_PERCENT_aExpr | aExpr_aExpr_BITAND_aExpr
| aExpr_aExpr_BITOR_aExpr | aExpr_aExpr_BITSHIFTLEFT_aExpr | aExpr_aExpr_BITSHIFTRIGHT_aExpr
| aExpr_aExpr_CONCATENATION_aExpr | aExpr_aExpr_LIKE_aExpr | aExpr_aExpr_LIKE_aExpr_ESCAPE_aExpr
| aExpr_aExpr_NOT_LIKE_aExpr | aExpr_aExpr_NOT_LIKE_aExpr_ESCAPE_aExpr | aExpr_rowExpr.

Inductive aExpr :=
| aExpr_cExpr (cExpr1 : cExpr)
| aExpr_aExpr_LESSTHAN_aExpr (aExpr1 aExpr3 : aExpr)
| aExpr_aExpr_LESSTHANOREQUALS_aExpr (aExpr1 aExpr3 : aExpr)
| aExpr_aExpr_GREATERTHAN_aExpr (aExpr1 aExpr3 : aExpr)
| aExpr_aExpr_GREATERTHANOREQUALS_aExpr (aExpr1 aExpr3 : aExpr)
| aExpr_aExpr_EQUALS_aExpr (aExpr1 aExpr3 : aExpr)
| aExpr_aExpr_NOTEQUALS_aExpr (aExpr1 aExpr3 : aExpr)
| aExpr_aExpr_AND_aExpr (aExpr1 aExpr3 : aExpr)
| aExpr_aExpr_OR_aExpr (aExpr1 aExpr3 : aExpr)
| aExpr_NOT_aExpr (aExpr2 : aExpr)
| aExpr_aExpr_ISNULL (aExpr1 : aExpr)
| aExpr_aExpr_IS_NULLP (aExpr1 : aExpr)
| aExpr_aExpr_NOTNULL (aExpr1 : aExpr)
| aExpr_aExpr_IS_NOT_NULLP (aExpr1 : aExpr)
| aExpr_aExpr_IS_TRUEP (aExpr1 : aExpr)
| aExpr_aExpr_IS_NOT_FALSEP (aExpr1 : aExpr)
| aExpr_aExpr_IS_FALSEP (aExpr1 : aExpr)
| aExpr_aExpr_IS_NOT_TRUEP (aExpr1 : aExpr)
| aExpr_aExpr_ISA_aExpr (aExpr1 aExpr3 : aExpr)
| aExpr_unsupported (u : aExprUnsupported)
with cExpr :=
| cExpr_attr (strRelationName1 : string) (attrs3 : attrs) (optIndirection4 : option optIndirection)
| cExpr_strColId_optIndirection (strColId1 : string) (optIndirection2 : option optIndirection)
| cExpr_aExprConst (aExprConst1 : aExprConst)
| cExpr_LEFTPAREN_aExpr_RIGHTPAREN (aExpr2 : aExpr)
| cExpr_unsupported (u : cExprUnsupported).

Inductive targetEl :=
| targetEl_aExpr_AS_strColLabel
| targetEl_aExpr (aExpr1 : aExpr)
| targetEl_strRelationName_PERIOD_ASTERISK (strRelationName1 : string)
| targetEl_ASTERISK.

(** [tableRef]: the relation, or something with an alias or a join. *)
Inductive tableRef :=
| tableRef_relationExpr_strRelationName (strRelationName1 : string)
| tableRef_relationExpr_strRelationName_ASTERISK
| tableRef_relationExpr_ONLY_strRelationName
| tableRef_relationExpr_aliasClause
| tableRef_joinedTable
| tableRef_LEFTPAREN_joinedTable_RIGHTPAREN_aliasClause.

Inductive optDistinct :=
| optDistinct_empty
| optDistinct_DISTINCT
| optDistinct_DISTINCT_ON_LEFTPAREN_exprSeq_RIGHTPAREN
| optDistinct_ALL.
Inductive optFromClause := optFromClause_empty | optFromClause_FROM_fromList (l : list tableRef).
Inductive optWhereClause := optWhereClause_empty | optWhereClause_WHERE_aExpr (a : aExpr).
Inductive optGroupClause := optGroupClause_empty | optGroupClause_GROUP_BY_exprSeq.
Inductive optHavingClause := optHavingClause_empty | optHavingClause_HAVING_aExpr.
Inductive optSortClause := optSortClause_empty | optSortClause_sortClause.

(** The parser leaves a null pointer for a clause that is absent. *)
Record selectStmt := mkSelect {
  m_poptDistinct2 : option optDistinct;
  m_ptargetList3 : list targetEl;
  m_poptFromClause4 : option optFromClause;
  m_poptWhereClause5 : option optWhereClause;
  m_poptGroupClause6 : option optGroupClause;
  m_poptHavingClause7 : option optHavingClause;
  m_poptSortClause8 : option optSortClause;
}.

Inductive stmt :=
| stmt_selectStmt_optSemicolon (s : selectStmt)
| stmt_updateStmt_optSemicolon
| stmt_insertStmt_optSemicolon
| stmt_deleteStmt_optSemicolon.

(** ** The visitor *)

Section Gen.
Context `{scan : ScanLib}.

Record WQLSelectStatementGen := mkGen {
  m_stmt : WQLSelectStatement;
  m_isPropertyList : bool;
  m_attrName : string;
}.
Abbreviation Gen := (Prog WQLSelectStatementGen).

Definition newGen : WQLSelectStatementGen := mkGen newStatement false "".

Definition INVALID_QUERY {A} : Gen A := throw "CIMException::INVALID_QUERY".

Definition on_stmt (f : WQLSelectStatement -> WQLSelectStatement) : Gen () := fun g =>
  (Ok (), mkGen (f (m_stmt g)) (m_isPropertyList g) (m_attrName g)).
Definition set_attrName (n : string) : Gen () := fun g =>
  (Ok (), mkGen (m_stmt g) (m_isPropertyList g) n).
Definition set_isPropertyList (b : bool) : Gen () := fun g =>
  (Ok (), mkGen (m_stmt g) b (m_attrName g)).

(** A property name goes to the select list or to the where clause. *)
Definition append_name (n : string) : Gen () :=
  g ← get;
  if m_isPropertyList g then on_stmt (appendSelectPropertyName n)
  else
    on_stmt (appendOperand (PROPERTY_NAME n)) ;;
    on_stmt (fun s => snd (appendWherePropertyName n s)).

Definition visit_optIndirection (o : optIndirection) : Gen () :=
  match o with
  | optIndirection_empty => mret ()
  | _ => INVALID_QUERY
  end.

Fixpoint visit_attrs (a : attrs) : Gen () :=
  match a with
  | attrs_strAttrName n => g ← get; set_attrName (m_attrName g ++ "." ++ n)
  | attrs_attrs_PERIOD_strAttrName a n =>
      visit_attrs a ;; g ← get; set_attrName (m_attrName g ++ "." ++ n)
  | attrs_attrs_PERIOD_ASTERISK a =>
      visit_attrs a ;; g ← get; set_attrName (m_attrName g ++ ".*")
  end%string.

Definition visit_attr (rel : string) (a : attrs) (ind : option optIndirection) : Gen () :=
  set_attrName rel ;;
  visit_attrs a ;;
  g ← get;
  append_name (m_attrName g) ;;
  match ind with Some o => visit_optIndirection o | None => mret () end.

(** A number that does not convert is an invalid query. *)
Definition append_int (r : option Z) : Gen () :=
  match r with
  | Some x => on_stmt (appendOperand (INTEGER_VALUE x))
  | None => INVALID_QUERY
  end.

Definition visit_aExprConst (c : aExprConst) : Gen () :=
  match c with
  | aExprConst_ICONST s => append_int (toInt64 10 s)
  | aExprConst_FCONST s =>
      match toReal64 s with
      | Some x => on_stmt (appendOperand (DOUBLE_VALUE x))
      | None => INVALID_QUERY
      end
  | aExprConst_SCONST s =>
      r ← (fun g => (WQLRemoveStringEscapes (bytes_of_string s), g));
      on_stmt (appendOperand (STRING_VALUE (string_of_bytes r)))
  | aExprConst_BITCONST s => append_int (toInt64 2 s)
  | aExprConst_HEXCONST s => append_int (toInt64 16 s)
  | aExprConst_TRUEP => on_stmt (appendOperand (BOOLEAN_VALUE true))
  | aExprConst_FALSEP => on_stmt (appendOperand (BOOLEAN_VALUE false))
  | aExprConst_NULLP => on_stmt (appendOperand NULL_VALUE)
  end.

Fixpoint visit_aExpr (a : aExpr) : Gen () :=
  match a with
  | aExpr_cExpr c => visit_cExpr c
  | aExpr_aExpr_LESSTHAN_aExpr a b =>
      visit_aExpr a ;; visit_aExpr b ;; on_stmt (appendOperation WQL_LT)
  | aExpr_aExpr_LESSTHANOREQUALS_aExpr a b =>
      visit_aExpr a ;; visit_aExpr b ;; on_stmt (appendOperation WQL_LE)
  | aExpr_aExpr_GREATERTHAN_aExpr a b =>
      visit_aExpr a ;; visit_aExpr b ;; on_stmt (appendOperation WQL_GT)
  | aExpr_aExpr_GREATERTHANOREQUALS_aExpr a b =>
      visit_aExpr a ;; visit_aExpr b ;; on_stmt (appendOperation WQL_GE)
  | aExpr_aExpr_EQUALS_aExpr a b =>
      visit_aExpr a ;; visit_aExpr b ;; on_stmt (appendOperation WQL_EQ)
  | aExpr_aExpr_NOTEQUALS_aExpr a b =>
      visit_aExpr a ;; visit_aExpr b ;; on_stmt (appendOperation WQL_NE)
  | aExpr_aExpr_AND_aExpr a b =>
      visit_aExpr a ;; visit_aExpr b ;; on_stmt (appendOperation WQL_AND)
  | aExpr_aExpr_OR_aExpr a b =>
      visit_aExpr a ;; visit_aExpr b ;; on_stmt (appendOperation WQL_OR)
  | aExpr_NOT_aExpr a => visit_aExpr a ;; on_stmt (appendOperation WQL_NOT)
  | aExpr_aExpr_ISNULL a | aExpr_aExpr_IS_NULLP a =>
      visit_aExpr a ;; on_stmt (appendOperand NULL_VALUE) ;; on_stmt (appendOperation WQL_EQ)
  | aExpr_aExpr_NOTNULL a | aExpr_aExpr_IS_NOT_NULLP a =>
      visit_aExpr a ;; on_stmt (appendOperand NULL_VALUE) ;; on_stmt (appendOperation WQL_NE)
  | aExpr_aExpr_IS_TRUEP a =>
      visit_aExpr a ;; on_stmt (appendOperand (BOOLEAN_VALUE true)) ;; on_stmt (appendOperation WQL_EQ)
  | aExpr_aExpr_IS_NOT_FALSEP a =>
      visit_aExpr a ;; on_stmt (appendOperand (BOOLEAN_VALUE false)) ;; on_stmt (appendOperation WQL_NE)
  | aExpr_aExpr_IS_FALSEP a =>
      visit_aExpr a ;; on_stmt (appendOperand (BOOLEAN_VALUE false)) ;; on_stmt (appendOperation WQL_EQ)
  | aExpr_aExpr_IS_NOT_TRUEP a =>
      visit_aExpr a ;; on_stmt (appendOperand (BOOLEAN_VALUE true)) ;; on_stmt (appendOperation WQL_NE)
  | aExpr_aExpr_ISA_aExpr a b =>
      visit_aExpr a ;; visit_aExpr b ;; on_stmt (appendOperation WQL_ISA)
  | aExpr_unsupported _ => INVALID_QUERY
  end
with visit_cExpr (c : cExpr) : Gen () :=
  match c with
  | cExpr_attr rel a ind => visit_attr rel a ind
  | cExpr_strColId_optIndirection n ind =>
      append_name n ;;
      match ind with Some o => visit_optIndirection o | None => mret () end
  | cExpr_aExprConst k => visit_aExprConst k
  | cExpr_LEFTPAREN_aExpr_RIGHTPAREN a => visit_aExpr a
  | cExpr_unsupported _ => INVALID_QUERY
  end.

(** After an exception [m_isPropertyList] stays set. *)
Definition visit_targetEl (t : targetEl) : Gen () :=
  match t with
  | targetEl_aExpr_AS_strColLabel => INVALID_QUERY
  | targetEl_aExpr a => set_isPropertyList true ;; visit_aExpr a ;; set_isPropertyList false
  | targetEl_strRelationName_PERIOD_ASTERISK r =>
      on_stmt (appendSelectPropertyName (r ++ ".*")%string)
  | targetEl_ASTERISK => on_stmt (appendSelectPropertyName "*")
  end.

Definition visit_tableRef (t : tableRef) : Gen () :=
  match t with
  | tableRef_relationExpr_strRelationName c => on_stmt (setClassName c)
  | _ => INVALID_QUERY
  end.

(** The list is visited up to and including its second entry. *)
Fixpoint visit_fromList (count : nat) (l : list tableRef) : Gen () :=
  match l with
  | [] => mret ()
  | t :: l =>
      visit_tableRef t ;;
      if (count =? 0)%nat then visit_fromList (S count) l else INVALID_QUERY
  end.

Definition visit_optDistinct (o : optDistinct) : Gen () :=
  match o with optDistinct_empty => mret () | _ => INVALID_QUERY end.
Definition visit_optGroupClause (o : optGroupClause) : Gen () :=
  match o with optGroupClause_empty => mret () | _ => INVALID_QUERY end.
Definition visit_optHavingClause (o : optHavingClause) : Gen () := INVALID_QUERY.
Definition visit_optSortClause (o : optSortClause) : Gen () :=
  match o with optSortClause_empty => mret () | _ => INVALID_QUERY end.
Definition visit_optFromClause (o : optFromClause) : Gen () :=
  match o with
  | optFromClause_empty => INVALID_QUERY
  | optFromClause_FROM_fromList l => visit_fromList 0 l
  end.
Definition visit_optWhereClause (o : optWhereClause) : Gen () :=
  match o with
  | optWhereClause_empty => mret ()
  | optWhereClause_WHERE_aExpr a => visit_aExpr a
  end.

(** A clause that is absent is not visited. *)
Definition if_present {A} (o : option A) (f : A -> Gen ()) : Gen () :=
  match o with Some a => f a | None => mret () end.

Fixpoint visit_targets (l : list targetEl) : Gen () :=
  match l with
  | [] => mret ()
  | t :: l => visit_targetEl t ;; visit_targets l
  end.

Definition visit_selectStmt (s : selectStmt) : Gen () :=
  if_present (m_poptDistinct2 s) visit_optDistinct ;;
  if_present (m_poptGroupClause6 s) visit_optGroupClause ;;
  if_present (m_poptHavingClause7 s) visit_optHavingClause ;;
  if_present (m_poptSortClause8 s) visit_optSortClause ;;
  on_stmt clear ;;
  if_present (m_poptFromClause4 s) visit_optFromClause ;;
  if_present (m_poptWhereClause5 s) visit_optWhereClause ;;
  visit_targets (m_ptargetList3 s).

Definition visit_stmt (s : stmt) : Gen () :=
  match s with
  | stmt_selectStmt_optSemicolon s => visit_selectStmt s
  | _ => INVALID_QUERY
  end.

(** [WQLImpl::createSelectStatement] once the query has been parsed. *)
Definition createSelectStatement (s : stmt) : outcome WQLSelectStatement :=
  match visit_stmt s newGen with
  | (Ok _, g) => Ok (m_stmt g)
  | (Throw e, _) => Throw e
  | (Crash, _) => Crash
  | (Diverge, _) => Diverge
  end.
End Gen.

(** * The statement generated from a parse tree

   [to_wexpr] reads a parse tree of the supported form as a where clause;
   the visitor is proved to append exactly its postfix form.  String
   constants are proved to survive quoting and unquoting. *)

Section GenFacts.
Context `{scan : ScanLib}.

(** ** The where clause a parse tree stands for *)

Fixpoint attrs_name (rel : string) (a : attrs) : string :=
  match a with
  | attrs_strAttrName n => rel ++ "." ++ n
  | attrs_attrs_PERIOD_strAttrName a n => attrs_name rel a ++ "." ++ n
  | attrs_attrs_PERIOD_ASTERISK a => attrs_name rel a ++ ".*"
  end%string.

(** No array index follows a name. *)
Definition no_index (ind : option optIndirection) : bool :=
  match ind with
  | None | Some optIndirection_empty => true
  | _ => false
  end.

Definition const_operand (c : aExprConst) : option WQLOperand :=
  match c with
  | aExprConst_ICONST s => INTEGER_VALUE <$> toInt64 10 s
  | aExprConst_FCONST s => DOUBLE_VALUE <$> toReal64 s
  | aExprConst_SCONST s =>
      match WQLRemoveStringEscapes (bytes_of_string s) with
      | Ok r => Some (STRING_VALUE (string_of_bytes r))
      | _ => None
      end
  | aExprConst_BITCONST s => INTEGER_VALUE <$> toInt64 2 s
  | aExprConst_HEXCONST s => INTEGER_VALUE <$> toInt64 16 s
  | aExprConst_TRUEP => Some (BOOLEAN_VALUE true)
  | aExprConst_FALSEP => Some (BOOLEAN_VALUE false)
  | aExprConst_NULLP => Some NULL_VALUE
  end.

Fixpoint a_operand (a : aExpr) : option WQLOperand :=
  match a with
  | aExpr_cExpr c => c_operand c
  | _ => None
  end
with c_operand (c : cExpr) : option WQLOperand :=
  match c with
  | cExpr_attr rel a ind => if no_index ind then Some (PROPERTY_NAME (attrs_name rel a)) else None
  | cExpr_strColId_optIndirection n ind => if no_index ind then Some (PROPERTY_NAME n) else None
  | cExpr_aExprConst k => const_operand k
  | cExpr_LEFTPAREN_aExpr_RIGHTPAREN a => a_operand a
  | cExpr_unsupported _ => None
  end.

Definition comp (o : WQLOperation) (x y : option WQLOperand) : option wexpr :=
  a ← x; b ← y; Some (WComp o a b).
Definition bin (o : WQLOperation) (x y : option wexpr) : option wexpr :=
  a ← x; b ← y; Some (WBin o a b).

Fixpoint to_wexpr (a : aExpr) : option wexpr :=
  match a with
  | aExpr_cExpr c => c_wexpr c
  | aExpr_aExpr_LESSTHAN_aExpr a b => comp WQL_LT (a_operand a) (a_operand b)
  | aExpr_aExpr_LESSTHANOREQUALS_aExpr a b => comp WQL_LE (a_operand a) (a_operand b)
  | aExpr_aExpr_GREATERTHAN_aExpr a b => comp WQL_GT (a_operand a) (a_operand b)
  | aExpr_aExpr_GREATERTHANOREQUALS_aExpr a b => comp WQL_GE (a_operand a) (a_operand b)
  | aExpr_aExpr_EQUALS_aExpr a b => comp WQL_EQ (a_operand a) (a_operand b)
  | aExpr_aExpr_NOTEQUALS_aExpr a b => comp WQL_NE (a_operand a) (a_operand b)
  | aExpr_aExpr_ISA_aExpr a b => comp WQL_ISA (a_operand a) (a_operand b)
  | aExpr_aExpr_AND_aExpr a b => bin WQL_AND (to_wexpr a) (to_wexpr b)
  | aExpr_aExpr_OR_aExpr a b => bin WQL_OR (to_wexpr a) (to_wexpr b)
  | aExpr_NOT_aExpr a => WNot <$> to_wexpr a
  | aExpr_aExpr_ISNULL a | aExpr_aExpr_IS_NULLP a => comp WQL_EQ (a_operand a) (Some NULL_VALUE)
  | aExpr_aExpr_NOTNULL a | aExpr_aExpr_IS_NOT_NULLP a => comp WQL_NE (a_operand a) (Some NULL_VALUE)
  | aExpr_aExpr_IS_TRUEP a => comp WQL_EQ (a_operand a) (Some (BOOLEAN_VALUE true))
  | aExpr_aExpr_IS_NOT_FALSEP a => comp WQL_NE (a_operand a) (Some (BOOLEAN_VALUE false))
  | aExpr_aExpr_IS_FALSEP a => comp WQL_EQ (a_operand a) (Some (BOOLEAN_VALUE false))
  | aExpr_aExpr_IS_NOT_TRUEP a => comp WQL_NE (a_operand a) (Some (BOOLEAN_VALUE true))
  | aExpr_unsupported _ => None
  end
with c_wexpr (c : cExpr) : option wexpr :=
  match c with
  | cExpr_LEFTPAREN_aExpr_RIGHTPAREN a => to_wexpr a
  | _ => None
  end.

(** ** What the visitor appends *)

(** From [g] to [g'] the items [its] were appended to the where clause, and
   nothing else but the list of its property names changed. *)
Record appended (g : WQLSelectStatementGen) (its : list OperandOrOperation)
    (g' : WQLSelectStatementGen) : Prop := {
  ap_list : m_isPropertyList g = false -> m_isPropertyList g' = false;
  ap_class : _className (m_stmt g') = _className (m_stmt g);
  ap_select : _selectPropertyNames (m_stmt g') = _selectPropertyNames (m_stmt g);
  ap_items : _operStack (m_stmt g') = _operStack (m_stmt g) ++ its;
  ap_where : NoDup (_wherePropertyNames (m_stmt g)) -> NoDup (_wherePropertyNames (m_stmt g'));
}.

(** [m] appends [its] whenever names go to the where clause. *)
Definition appends (m : Prog WQLSelectStatementGen ()) (its : list OperandOrOperation) : Prop :=
  forall g, m_isPropertyList g = false -> wp m (fun _ g' => appended g its g') g.

Lemma appends_seq m k its js : appends m its -> appends k js -> appends (m ;; k) (its ++ js).
Proof.
  intros Hm Hk g Hg. apply wp_bind. eapply wp_mono; [by apply Hm|]. intros _ g1 [H1 H2 H3 H4 H5].
  eapply wp_mono; [by apply Hk, H1|]. intros _ g2 [K1 K2 K3 K4 K5].
  split; [auto|congruence|congruence| |auto]. by rewrite K4, H4, app_assoc.
Qed.

Lemma appends_ret : appends (mret ()) [].
Proof. intros g Hg. apply wp_ret. split; auto. by rewrite app_nil_r. Qed.

Lemma appends_oper x : appends (on_stmt (appendOper x)) [x].
Proof. intros g Hg. split; auto. Qed.

Lemma appendWhere_nodup n s :
  NoDup (_wherePropertyNames s) -> NoDup (_wherePropertyNames (snd (appendWherePropertyName n s))).
Proof.
  intros Hn. unfold appendWherePropertyName. destruct (existsb _ _) eqn:E; [done|]. simpl.
  apply NoDup_app. split_and!; [done| |apply NoDup_singleton].
  intros x Hx ->%list_elem_of_singleton.
  assert (existsb (String.eqb n) (_wherePropertyNames s) = true) as E'; [|congruence].
  apply existsb_exists. exists n. rewrite String.eqb_refl. split; [by apply list_elem_of_In|done].
Qed.

Lemma appends_name n : appends (append_name n) [OPERAND_ITEM (PROPERTY_NAME n)].
Proof.
  intros g Hg. unfold append_name. apply wp_bind, wp_get. rewrite Hg.
  assert (forall s, _className (snd (appendWherePropertyName n s)) = _className s /\
    _selectPropertyNames (snd (appendWherePropertyName n s)) = _selectPropertyNames s /\
    _operStack (snd (appendWherePropertyName n s)) = _operStack s) as Hs.
  { intros s. unfold appendWherePropertyName. by destruct (existsb _ _). }
  destruct (Hs (appendOperand (PROPERTY_NAME n) (m_stmt g))) as (E1 & E2 & E3).
  split; simpl; [done|by rewrite E1|by rewrite E2|by rewrite E3|].
  intros Hn. by apply appendWhere_nodup.
Qed.

Lemma appends_indirection ind :
  no_index ind = true ->
  appends (match ind with Some o => visit_optIndirection o | None => mret () end) [].
Proof. destruct ind as [[]|]; try done; intros _; apply appends_ret. Qed.

Lemma visit_attrs_name a : forall g,
  wp (visit_attrs a) (fun _ g' => g' = mkGen (m_stmt g) (m_isPropertyList g)
                                         (attrs_name (m_attrName g) a)) g.
Proof.
  induction a as [n|a IH n|a IH]; intros g; cbn [visit_attrs attrs_name].
  - done.
  - apply wp_bind. eapply wp_mono; [apply IH|]. by intros _ g' ->.
  - apply wp_bind. eapply wp_mono; [apply IH|]. by intros _ g' ->.
Qed.

Lemma appends_attr rel a ind :
  no_index ind = true ->
  appends (visit_attr rel a ind) [OPERAND_ITEM (PROPERTY_NAME (attrs_name rel a))].
Proof.
  intros Hi g Hg. unfold visit_attr. apply wp_bind.
  change (wp (set_attrName rel) ?Q g) with
    (Q () (mkGen (m_stmt g) (m_isPropertyList g) rel)). cbv beta.
  apply wp_bind. eapply wp_mono; [apply visit_attrs_name|]. intros _ g1 ->. cbn [m_stmt m_isPropertyList m_attrName].
  apply wp_bind, wp_get. cbn [m_attrName].
  pose proof (appends_seq _ _ _ _ (appends_name (attrs_name rel a)) (appends_indirection ind Hi)) as H.
  cbn [app] in H. destruct g as [st b n]. simpl in Hg. subst b.
  eapply wp_mono; [by apply H|]. intros _ g' [H1 H2 H3 H4 H5]. by split.
Qed.

Lemma appends_const c x : const_operand c = Some x -> appends (visit_aExprConst c) [OPERAND_ITEM x].
Proof.
  destruct c as [s|s|s|s|s| | |]; cbn [const_operand visit_aExprConst]; unfold append_int.
  1,4,5: destruct (toInt64 _ s); [intros [= <-]; apply appends_oper|done].
  2: { destruct (WQLRemoveStringEscapes _) as [r| | |] eqn:E; try done. intros [= <-] g Hg.
       apply wp_bind. unfold wp. cbv beta.
       apply (appends_oper (OPERAND_ITEM (STRING_VALUE (string_of_bytes r))) g Hg). }
  1: destruct (toReal64 s); [intros [= <-]; apply appends_oper|done].
  all: intros [= <-]; apply appends_oper.
Qed.

Scheme aExpr_mut := Induction for aExpr Sort Prop
  with cExpr_mut := Induction for cExpr Sort Prop.
Combined Scheme tree_ind from aExpr_mut, cExpr_mut.

Lemma appends_operands :
  (forall a x, a_operand a = Some x -> appends (visit_aExpr a) [OPERAND_ITEM x]) /\
  (forall c x, c_operand c = Some x -> appends (visit_cExpr c) [OPERAND_ITEM x]).
Proof.
  apply tree_ind; try done.
  - intros rel a ind x. cbn [c_operand visit_cExpr]. destruct (no_index ind) eqn:E; [|done].
    intros [= <-]. by apply appends_attr.
  - intros n ind x. cbn [c_operand visit_cExpr]. destruct (no_index ind) eqn:E; [|done].
    intros [= <-]. apply (appends_seq _ _ _ _ (appends_name n) (appends_indirection ind E)).
  - intros k x. apply appends_const.
Qed.

Lemma comp_Some o x y e : comp o x y = Some e -> exists a b, x = Some a /\ y = Some b /\ e = WComp o a b.
Proof. unfold comp. destruct x, y; simpl; try done. intros [= <-]. eauto. Qed.
Lemma bin_Some o x y e : bin o x y = Some e -> exists a b, x = Some a /\ y = Some b /\ e = WBin o a b.
Proof. unfold bin. destruct x, y; simpl; try done. intros [= <-]. eauto. Qed.

Lemma appends_comp o a b e :
  comp o (a_operand a) (a_operand b) = Some e ->
  appends (visit_aExpr a ;; visit_aExpr b ;; on_stmt (appendOperation o)) (postfix e).
Proof.
  intros (x & y & Ha & Hb & ->)%comp_Some.
  apply (appends_seq _ _ [_] [_; _]); [by apply appends_operands|].
  apply (appends_seq _ _ [_] [_]); [by apply appends_operands|apply appends_oper].
Qed.

Lemma appends_is o a k e :
  comp o (a_operand a) (Some k) = Some e ->
  appends (visit_aExpr a ;; on_stmt (appendOperand k) ;; on_stmt (appendOperation o)) (postfix e).
Proof.
  intros (x & y & Ha & Hb & ->)%comp_Some. simplify_eq.
  apply (appends_seq _ _ [_] [_; _]); [by apply appends_operands|].
  apply (appends_seq _ _ [_] [_]); apply appends_oper.
Qed.

(** The visitor appends the postfix form of the where clause. *)
Lemma appends_wexpr :
  (forall a e, to_wexpr a = Some e -> appends (visit_aExpr a) (postfix e)) /\
  (forall c e, c_wexpr c = Some e -> appends (visit_cExpr c) (postfix e)).
Proof.
  apply tree_ind; try done; cbn [to_wexpr c_wexpr visit_aExpr visit_cExpr];
    try (intros; by apply appends_comp); try (intros; by apply appends_is).
  - intros a IHa b IHb e (x & y & Ha & Hb & ->)%bin_Some. cbn [postfix].
    apply appends_seq; [by apply IHa|]. apply appends_seq; [by apply IHb|apply appends_oper].
  - intros a IHa b IHb e (x & y & Ha & Hb & ->)%bin_Some. cbn [postfix].
    apply appends_seq; [by apply IHa|]. apply appends_seq; [by apply IHb|apply appends_oper].
  - intros a IHa e (x & Ha & ->)%fmap_Some. cbn [postfix].
    apply appends_seq; [by apply IHa|apply appends_oper].
Qed.

Lemma to_wexpr_wf :
  (forall a e, to_wexpr a = Some e -> wf e = true) /\ (forall c e, c_wexpr c = Some e -> wf e = true).
Proof.
  apply tree_ind; try done; cbn [to_wexpr c_wexpr];
    try (by intros; match goal with H : comp _ _ _ = Some _ |- _ =>
           apply comp_Some in H as (? & ? & _ & _ & ->) end).
  - intros a IHa b IHb e (x & y & Ha & Hb & ->)%bin_Some. cbn [wf]. by rewrite (IHa _ Ha), (IHb _ Hb).
  - intros a IHa b IHb e (x & y & Ha & Hb & ->)%bin_Some. cbn [wf]. by rewrite (IHa _ Ha), (IHb _ Hb).
  - intros a IHa e (x & Ha & ->)%fmap_Some. apply (IHa _ Ha).
Qed.

(** ** Whole statements *)

(** The select list of plain entries: names, [R.*] and [*]. *)
Definition target_name (t : targetEl) : option string :=
  match t with
  | targetEl_aExpr (aExpr_cExpr (cExpr_strColId_optIndirection n ind)) =>
      if no_index ind then Some n else None
  | targetEl_aExpr (aExpr_cExpr (cExpr_attr rel a ind)) =>
      if no_index ind then Some (attrs_name rel a) else None
  | targetEl_strRelationName_PERIOD_ASTERISK r => Some (r ++ ".*")%string
  | targetEl_ASTERISK => Some "*"%string
  | _ => None
  end.

(** What visiting the select list leaves. *)
Definition selected (g : WQLSelectStatementGen) (names : list string) (g' : WQLSelectStatementGen)
    : Prop :=
  m_isPropertyList g' = false /\
  m_stmt g' = mkStmt (_className (m_stmt g)) (_selectPropertyNames (m_stmt g) ++ names)
                (_wherePropertyNames (m_stmt g)) (_operStack (m_stmt g)).

Lemma visit_target t n g :
  target_name t = Some n -> m_isPropertyList g = false ->
  wp (visit_targetEl t) (fun _ g' => selected g [n] g') g.
Proof.
  intros Ht Hg. destruct t as [|a|r|]; simpl in Ht; try done.
  - destruct a as [c| | | | | | | | | | | | | | | | | | |]; try done. destruct c as [rel a ind|m ind|k|a|u]; try done;
      destruct (no_index ind) eqn:Hi; try done; injection Ht as <-.
    + cbn [visit_targetEl visit_aExpr visit_cExpr]. unfold visit_attr.
      apply wp_bind. change (wp (set_isPropertyList true) ?Q g) with
        (Q () (mkGen (m_stmt g) true (m_attrName g))). cbv beta. do 2 apply wp_bind.
      change (wp (set_attrName rel) ?Q (mkGen ?s ?b ?x)) with (Q () (mkGen s b rel)). cbv beta.
      apply wp_bind. eapply wp_mono; [apply visit_attrs_name|]. intros _ g1 ->.
      destruct ind as [[]|]; try done; by destruct (m_stmt g).
    + cbn [visit_targetEl visit_aExpr visit_cExpr]. destruct ind as [[]|]; try done; by destruct (m_stmt g).
  - injection Ht as <-. by destruct (m_stmt g).
  - injection Ht as <-. by destruct (m_stmt g).
Qed.

Lemma visit_targets_spec ts : forall ns g,
  mapM target_name ts = Some ns -> m_isPropertyList g = false ->
  wp (visit_targets ts) (fun _ g' => selected g ns g') g.
Proof.
  induction ts as [|t ts IH]; intros ns g Hn Hg; cbn [visit_targets].
  - injection Hn as <-. apply wp_ret. split; [done|]. rewrite app_nil_r. by destruct (m_stmt g).
  - apply mapM_Some in Hn. inversion Hn as [|? n ? ns' Ht Hts]; subst.
    apply wp_bind. eapply wp_mono; [by apply visit_target|]. intros _ g1 [H1 H2].
    eapply wp_mono; [apply IH; [by apply mapM_Some|done]|]. intros _ g2 [K1 K2].
    split; [done|]. rewrite K2, H2. cbn. by rewrite <- app_assoc.
Qed.

(** A query with one class, a plain select list and a where clause of the
   supported form. *)
Definition simple_select (ts : list targetEl) (c : string) (w : option optWhereClause) : stmt :=
  stmt_selectStmt_optSemicolon
    (mkSelect None ts (Some (optFromClause_FROM_fromList [tableRef_relationExpr_strRelationName c]))
       w None None None).

Lemma createSelectStatement_where ts ns c a e :
  mapM target_name ts = Some ns -> to_wexpr a = Some e ->
  exists wn, createSelectStatement (simple_select ts c (Some (optWhereClause_WHERE_aExpr a))) =
      Ok (mkStmt c ns wn (postfix e)) /\ NoDup wn.
Proof.
  intros Hts Ha. unfold createSelectStatement.
  pose proof (proj1 appends_wexpr a e Ha (mkGen (mkStmt c [] [] []) false "") eq_refl) as Hw.
  apply wp_run in Hw as ([] & g1 & E1 & [H1 H2 H3 H4 H5]).
  pose proof (visit_targets_spec ts ns g1 Hts (H1 eq_refl)) as Ht.
  apply wp_run in Ht as ([] & g2 & E2 & [_ K]).
  assert (visit_stmt (simple_select ts c (Some (optWhereClause_WHERE_aExpr a))) newGen = (Ok (), g2)) as ->.
  { cbn -[visit_aExpr visit_targets]. unfold mbind, Prog_bind. cbn -[visit_aExpr visit_targets].
    unfold newGen, on_stmt, clear, setClassName, newStatement. cbn -[visit_aExpr visit_targets].
    rewrite E1. exact E2. }
  exists (_wherePropertyNames (m_stmt g1)). split; [|apply H5, NoDup_nil_2].
  rewrite K, H2, H3, H4. done.
Qed.

(** ** What is rejected *)

(** Constructs every part of which the generator handles. *)
Definition const_supported (c : aExprConst) : bool :=
  match c with
  | aExprConst_ICONST s => bool_decide (is_Some (toInt64 10 s))
  | aExprConst_FCONST s => bool_decide (is_Some (toReal64 s))
  | aExprConst_BITCONST s => bool_decide (is_Some (toInt64 2 s))
  | aExprConst_HEXCONST s => bool_decide (is_Some (toInt64 16 s))
  | _ => true
  end.

Fixpoint a_supported (a : aExpr) : bool :=
  match a with
  | aExpr_cExpr c => c_supported c
  | aExpr_aExpr_LESSTHAN_aExpr a b | aExpr_aExpr_LESSTHANOREQUALS_aExpr a b
  | aExpr_aExpr_GREATERTHAN_aExpr a b | aExpr_aExpr_GREATERTHANOREQUALS_aExpr a b
  | aExpr_aExpr_EQUALS_aExpr a b | aExpr_aExpr_NOTEQUALS_aExpr a b
  | aExpr_aExpr_AND_aExpr a b | aExpr_aExpr_OR_aExpr a b | aExpr_aExpr_ISA_aExpr a b =>
      a_supported a && a_supported b
  | aExpr_NOT_aExpr a | aExpr_aExpr_ISNULL a | aExpr_aExpr_IS_NULLP a | aExpr_aExpr_NOTNULL a
  | aExpr_aExpr_IS_NOT_NULLP a | aExpr_aExpr_IS_TRUEP a | aExpr_aExpr_IS_NOT_FALSEP a
  | aExpr_aExpr_IS_FALSEP a | aExpr_aExpr_IS_NOT_TRUEP a => a_supported a
  | aExpr_unsupported _ => false
  end
with c_supported (c : cExpr) : bool :=
  match c with
  | cExpr_attr _ _ ind | cExpr_strColId_optIndirection _ ind => no_index ind
  | cExpr_aExprConst k => const_supported k
  | cExpr_LEFTPAREN_aExpr_RIGHTPAREN a => a_supported a
  | cExpr_unsupported _ => false
  end.

Definition target_supported (t : targetEl) : bool :=
  match t with
  | targetEl_aExpr_AS_strColLabel => false
  | targetEl_aExpr a => a_supported a
  | _ => true
  end.

(** At most one relation, without alias, join or scope. *)
Definition from_supported (l : list tableRef) : bool :=
  match l with
  | [] | [tableRef_relationExpr_strRelationName _] => true
  | _ => false
  end.

Definition select_supported (s : selectStmt) : bool :=
  match m_poptDistinct2 s with None | Some optDistinct_empty => true | _ => false end
  && match m_poptGroupClause6 s with None | Some optGroupClause_empty => true | _ => false end
  && match m_poptHavingClause7 s with None => true | _ => false end
  && match m_poptSortClause8 s with None | Some optSortClause_empty => true | _ => false end
  && match m_poptFromClause4 s with
     | None => true
     | Some optFromClause_empty => false
     | Some (optFromClause_FROM_fromList l) => from_supported l
     end
  && match m_poptWhereClause5 s with Some (optWhereClause_WHERE_aExpr a) => a_supported a | _ => true end
  && forallb target_supported (m_ptargetList3 s).

Definition stmt_supported (s : stmt) : bool :=
  match s with stmt_selectStmt_optSemicolon s => select_supported s | _ => false end.

(** A computation that only returns when [b] holds. *)
Definition only_if {A} (m : Prog WQLSelectStatementGen A) (b : bool) : Prop :=
  forall g a g', m g = (Ok a, g') -> b = true.

Lemma only_if_seq {A} (m : Prog WQLSelectStatementGen ()) (k : Prog WQLSelectStatementGen A) b c :
  only_if m b -> only_if k c -> only_if (m ;; k) (b && c).
Proof.
  intros Hm Hk g a g'. unfold mbind, Prog_bind. destruct (m g) as [[[]| | |] g1] eqn:E; try done.
  intros Ek. by rewrite (Hm _ _ _ E), (Hk _ _ _ Ek).
Qed.

Lemma only_if_left {A} (m : Prog WQLSelectStatementGen ()) (k : Prog WQLSelectStatementGen A) b :
  only_if m b -> only_if (m ;; k) b.
Proof.
  intros Hm g a g' E. assert (b && true = true) as Hb; [|by rewrite andb_true_r in Hb].
  eapply (only_if_seq m k b true); [done|by intros ???|done].
Qed.

Lemma only_if_right {A} (m : Prog WQLSelectStatementGen ()) (k : Prog WQLSelectStatementGen A) b :
  only_if k b -> only_if (m ;; k) b.
Proof. intros Hk. by apply (only_if_seq m k true b). Qed.

Lemma only_if_index ind :
  only_if (match ind with Some o => visit_optIndirection o | None => mret () end) (no_index ind).
Proof. intros g a g'. by destruct ind as [[]|]. Qed.

Lemma only_if_const c : only_if (visit_aExprConst c) (const_supported c).
Proof.
  intros g a g'. destruct c; simpl; unfold append_int;
    try (destruct (toInt64 _ _)); try (destruct (toReal64 _)); done.
Qed.

Lemma only_if_attr rel at_ ind : only_if (visit_attr rel at_ ind) (no_index ind).
Proof.
  unfold visit_attr. do 2 apply only_if_right. intros g a g'. unfold mbind at 1, Prog_bind at 1.
  cbn [get]. apply (only_if_right _ _ _ (only_if_index ind)).
Qed.

Lemma only_if_expr :
  (forall a, only_if (visit_aExpr a) (a_supported a)) /\
  (forall c, only_if (visit_cExpr c) (c_supported c)).
Proof.
  apply tree_ind; cbn [visit_aExpr visit_cExpr a_supported c_supported]; try done;
    try (intros a IHa b IHb; apply only_if_seq; [done|by apply only_if_left]);
    try (intros a IHa; by apply only_if_left).
  - intros. apply only_if_attr.
  - intros n ind. apply only_if_right, only_if_index.
  - apply only_if_const.
Qed.

Lemma only_if_targets ts : only_if (visit_targets ts) (forallb target_supported ts).
Proof.
  induction ts as [|t ts IH]; [done|]. cbn [visit_targets forallb]. apply only_if_seq; [|done].
  destruct t; try done. cbn [visit_targetEl target_supported]. apply only_if_right, only_if_left, only_if_expr.
Qed.

Lemma only_if_from l : only_if (visit_fromList 0 l) (from_supported l).
Proof.
  destruct l as [|[] [|t' l]]; try done. cbn [visit_fromList from_supported Nat.eqb].
  apply only_if_right. intros g a g'. destruct t'; done.
Qed.

Lemma only_if_select s : only_if (visit_selectStmt s) (select_supported s).
Proof.
  unfold visit_selectStmt, select_supported. rewrite <- !andb_assoc.
  apply only_if_seq; [by destruct (m_poptDistinct2 s) as [[]|]|].
  apply only_if_seq; [by destruct (m_poptGroupClause6 s) as [[]|]|].
  apply only_if_seq; [by destruct (m_poptHavingClause7 s) as [[]|]|].
  apply only_if_seq; [by destruct (m_poptSortClause8 s) as [[]|]|].
  apply only_if_right. apply only_if_seq.
  { destruct (m_poptFromClause4 s) as [[|l]|]; [done|apply only_if_from|done]. }
  apply only_if_seq; [|apply only_if_targets].
  destruct (m_poptWhereClause5 s) as [[|a]|]; [done|apply only_if_expr|done].
Qed.

(** A statement is only generated for a query of supported constructs. *)
Lemma createSelectStatement_supported s st :
  createSelectStatement s = Ok st -> stmt_supported s = true.
Proof.
  unfold createSelectStatement. destruct (visit_stmt s newGen) as [[[]| | |] g] eqn:E; try done.
  intros _. destruct s as [s| | |]; try done. by eapply only_if_select.
Qed.

(** ** Quoting *)

(** A string as it is written between quotes. *)
Fixpoint quoted (s : list Z) : list Z :=
  match s with
  | [] => []
  | c :: s => if (c =? QUOTE) || (c =? BACKSLASH) then c :: c :: quoted s else c :: quoted s
  end.

Lemma unescape_quoted s : forall pre fuel,
  (length (quoted s) <= fuel)%nat ->
  unescape_loop fuel (pre ++ quoted s) (length pre) = Ok s.
Proof.
  induction s as [|c s IH]; intros pre fuel Hf.
  { cbn [quoted]. rewrite app_nil_r. destruct fuel; cbn [unescape_loop];
      by rewrite (proj2 (Nat.leb_le _ _)) by lia. }
  assert (Hat : forall l k x, l !! k = Some x -> char_at (pre ++ l) (length pre + k) = Ok x).
  { intros l k x Hk. unfold char_at. pose proof (lookup_lt_Some _ _ _ Hk).
    rewrite (proj2 (Nat.eqb_neq _ _)) by (rewrite length_app; lia).
    rewrite lookup_app_r by lia. replace (length pre + k - length pre)%nat with k by lia.
    by rewrite Hk. }
  cbn [quoted] in *.
  destruct ((c =? QUOTE) || (c =? BACKSLASH)) eqn:Eq; cbn [length] in Hf;
    (destruct fuel as [|fuel]; [lia|]); cbn [unescape_loop];
    rewrite (proj2 (Nat.leb_gt _ _)) by (rewrite length_app; simpl; lia).
  - pose proof (Hat (c :: c :: quoted s) 0%nat c eq_refl) as E0. rewrite Nat.add_0_r in E0. rewrite E0.
    pose proof (Hat (c :: c :: quoted s) 1%nat c eq_refl) as E1.
    assert (unescape_loop fuel (pre ++ c :: c :: quoted s) (length pre + 2) = Ok s) as ER.
    { pose proof (IH (pre ++ [c; c]) fuel ltac:(lia)) as E. rewrite <- app_assoc, length_app in E. exact E. }
    cbn [mbind outcome_bind]. rewrite E1. cbn [mbind outcome_bind].
    apply orb_true_iff in Eq as [Eq|Eq]; apply Z.eqb_eq in Eq as ->; cbn; by rewrite ER.
  - apply orb_false_iff in Eq as [Eq1 Eq2].
    pose proof (Hat (c :: quoted s) 0%nat c eq_refl) as E0. rewrite Nat.add_0_r in E0. rewrite E0.
    cbn [mbind outcome_bind]. rewrite Eq1, Eq2.
    pose proof (IH (pre ++ [c]) fuel ltac:(lia)) as E. rewrite <- app_assoc, length_app in E.
    cbn [app length] in E. by rewrite E.
Qed.

Lemma WQLRemoveStringEscapes_quoted s : WQLRemoveStringEscapes (quoted s) = Ok s.
Proof. apply (unescape_quoted s [] (length (quoted s))). lia. Qed.
End GenFacts.
