(* ===== verification/WqlDirect.v ===== *)
(** * The direct evaluator of a where clause

   [WQLSelectStatement::evaluateWhereClause] runs the postfix form on a stack.
   [direct] is the same evaluation on the tree, errors included; [mirror]
   exchanges the operands of every comparison, because the evaluator takes the
   operand on top of the stack as the left one. *)

From S2P Require Import Prelude Wql WqlCompile WqlExpr WqlEval WqlCorrect.

Section Direct.
Context `{lib : WqlLib} `{laws : !WqlLaws}.

(** One comparison, with the operand pushed last on the left. *)
Definition direct_comp (src : WQLPropertySource) (o : WQLOperation) (a b : WQLOperand)
    : outcome bool :=
  if bool_decide (o = WQL_ISA) then
    match b with
    | PROPERTY_NAME propertyName =>
        className ← match a with
                    | PROPERTY_NAME c | STRING_VALUE c => Ok c
                    | _ => TypeMismatch
                    end;
        evaluateISA src propertyName className
    | _ => TypeMismatch
    end
  else
    lhs ← _ResolveProperty b src;
    rhs ← _ResolveProperty a src;
    if negb (same_type rhs lhs) then TypeMismatch else stmt_Evaluate lhs rhs o.

(** Both sides of a connective are evaluated, the left one first. *)
Fixpoint direct (src : WQLPropertySource) (e : wexpr) : outcome bool :=
  match e with
  | WComp o a b => direct_comp src o a b
  | WNot e => negb <$> direct src e
  | WBin o e1 e2 => b1 ← direct src e1; b2 ← direct src e2; Ok (connect o b1 b2)
  end.

Lemma bind_assoc {A B C} (m : outcome A) (f : A -> outcome B) (g : B -> outcome C) :
  (m ≫= f) ≫= g = m ≫= (fun x => f x ≫= g).
Proof. by destruct m. Qed.

Lemma bind_ext {A B} (m : outcome A) (f g : A -> outcome B) :
  (forall x, f x = g x) -> m ≫= f = m ≫= g.
Proof. intros H. destruct m; simpl; [apply H|done..]. Qed.

Lemma eval_items_app src its js st :
  eval_items src (its ++ js) st = eval_items src its st ≫= eval_items src js.
Proof.
  revert st. induction its as [|it its IH]; intros st; [done|]. cbn [app eval_items].
  rewrite bind_assoc. apply bind_ext. intros. apply IH.
Qed.

Lemma eval_step_comp src o a b st :
  is_comparison o = true ->
  eval_step src (b :: a :: st) (OPERATION o) = (fun r => BOOLEAN_VALUE r :: st) <$> direct_comp src o a b.
Proof.
  intros Ho. unfold direct_comp.
  destruct o; try done; cbn [eval_step]; rewrite ASSERT_true by (unfold zlen; simpl; apply Z.leb_le; lia);
    cbn [mbind outcome_bind].
  1-6: rewrite bool_decide_false by done;
    destruct (_ResolveProperty b src) as [x| | |]; try done;
    destruct (_ResolveProperty a src) as [y| | |]; try done; cbn [mbind outcome_bind];
    destruct (negb _); [done|]; by destruct (stmt_Evaluate _ _ _).
  rewrite bool_decide_true by done. destruct b; try done.
  destruct a; try done; cbn [mbind outcome_bind]; by destruct (evaluateISA _ _ _).
Qed.

(** Running the postfix form pushes the value of the clause. *)
Lemma eval_items_direct src e : forall st,
  wf e = true ->
  eval_items src (postfix e) st = (fun r => BOOLEAN_VALUE r :: st) <$> direct src e.
Proof.
  induction e as [o a b|e IH|o e1 IH1 e2 IH2]; intros st Hwf; cbn [postfix direct wf] in *.
  - change (eval_items src [OPERAND_ITEM a; OPERAND_ITEM b; OPERATION o] st) with
      (eval_step src (b :: a :: st) (OPERATION o) ≫= eval_items src []).
    rewrite eval_step_comp by done. by destruct (direct_comp _ _ _ _).
  - rewrite eval_items_app, IH by done. destruct (direct src e); try done. cbn.
    by rewrite ASSERT_true by (unfold zlen; simpl; apply Z.leb_le; lia).
  - apply andb_true_iff in Hwf as [Hwf Hw2]. apply andb_true_iff in Hwf as [Ho Hw1].
    rewrite eval_items_app, IH1 by done. destruct (direct src e1) as [b1| | |]; try done.
    cbn [mbind outcome_bind fmap outcome_fmap]. rewrite eval_items_app, IH2 by done.
    destruct (direct src e2) as [b2| | |]; try done.
    cbn [mbind outcome_bind fmap outcome_fmap eval_items].
    destruct o; try done; cbn [eval_step];
      rewrite ASSERT_true by (unfold zlen; simpl; apply Z.leb_le; lia); cbn;
      destruct b1, b2; done.
Qed.

Lemma postfix_nonempty e : postfix e <> [].
Proof.
  destruct e; simpl; [done|..]; intros E; apply (f_equal length) in E;
    rewrite !length_app in E; simpl in E; lia.
Qed.

Lemma evaluateWhereClause_direct e cn sp wp src :
  wf e = true -> evaluateWhereClause (mkStmt cn sp wp (postfix e)) src = direct src e.
Proof.
  intros Hwf. unfold evaluateWhereClause, hasWhereClause. cbn [_operStack].
  rewrite bool_decide_false by apply postfix_nonempty. cbn [negb].
  rewrite eval_items_direct by done. destruct (direct src e) as [b| | |]; try done.
  cbn [mbind outcome_bind fmap outcome_fmap]. by rewrite ASSERT_true.
Qed.

(** ** Agreement with the meaning *)

Fixpoint mirror (e : wexpr) : wexpr :=
  match e with
  | WComp o a b => WComp o b a
  | WNot e => WNot (mirror e)
  | WBin o e1 e2 => WBin o (mirror e1) (mirror e2)
  end.

(** On operands of one type both comparison functions agree. *)
Lemma stmt_Evaluate_same x y o : same_type y x = true -> stmt_Evaluate x y o = _Evaluate x y o.
Proof. by destruct x, y. Qed.

Lemma direct_comp_mirror src o a b r :
  direct_comp src o a b = Ok r -> eval_term src (mkTerm false o b a) = Ok r.
Proof.
  unfold direct_comp, eval_term. cbn [t_op t_opn1 t_opn2].
  case_bool_decide; [by destruct b, a|].
  destruct (_ResolveProperty b src) as [x| | |]; try done.
  destruct (_ResolveProperty a src) as [y| | |]; try done. cbn [mbind outcome_bind].
  destruct (same_type y x) eqn:Et; [|done]. cbn [negb]. by rewrite stmt_Evaluate_same.
Qed.

Lemma direct_mirror src e : forall r, direct src e = Ok r -> meaning src (mirror e) = Ok r.
Proof.
  induction e as [o a b|e IH|o e1 IH1 e2 IH2]; intros r; cbn [direct mirror meaning].
  - apply direct_comp_mirror.
  - destruct (direct src e) as [b| | |]; try done. by rewrite (IH b).
  - destruct (direct src e1) as [b1| | |]; try done. rewrite (IH1 b1) by done.
    destruct (direct src e2) as [b2| | |]; try done. by rewrite (IH2 b2).
Qed.

(** Clauses built from [=] and [<>] only. *)
Fixpoint equalities (e : wexpr) : bool :=
  match e with
  | WComp o _ _ => is_equality o
  | WNot e => equalities e
  | WBin _ e1 e2 => equalities e1 && equalities e2
  end.

(** Such a clause is its own mirror image, and its negation is safe. *)
Lemma equalities_mirror src e : forall r pol,
  values_only src -> equalities e = true -> meaning src (mirror e) = Ok r ->
  meaning src e = Ok r /\ not_safe src pol e = true.
Proof.
  intros r pol Hv. revert r pol. induction e as [o a b|e IH|o e1 IH1 e2 IH2]; intros r pol He;
    cbn [mirror meaning equalities not_safe] in *.
  - unfold eval_term. cbn [t_op t_opn1 t_opn2]. rewrite bool_decide_false by (by destruct o).
    destruct (_ResolveProperty b src) as [x| | |] eqn:Eb; try done.
    destruct (_ResolveProperty a src) as [y| | |] eqn:Ea; try done. cbn [mbind outcome_bind].
    intros <-. unfold negation_safe. rewrite He. split; [|by destruct pol].
    rewrite <- (Evaluate_turn y x) by (by eapply resolve_value). by destruct o.
  - destruct (meaning src (mirror e)) as [b| | |] eqn:E; try done. intros [= <-].
    destruct (IH b (negb pol) He eq_refl) as [-> ?]. done.
  - apply andb_true_iff in He as [He1 He2].
    destruct (meaning src (mirror e1)) as [b1| | |] eqn:E1; try done.
    destruct (meaning src (mirror e2)) as [b2| | |] eqn:E2; try done. intros [= <-].
    destruct (IH1 b1 pol He1 eq_refl) as [-> ->], (IH2 b2 pol He2 eq_refl) as [-> ->]. done.
Qed.
End Direct.
