(* ===== verification/WqlMain.v ===== *)
(** * The theorems on WQL queries

   The properties of the query generator, of the compiler of where clauses and
   of the two evaluators, with witnesses over a concrete library: reals are
   optional integers ([None] is the NaN), strings are ordered by their bytes. *)

From S2P Require Import Prelude Wql WqlCompile WqlExpr WqlNot WqlHeap WqlFactor WqlGather WqlEval WqlCorrect WqlGen WqlDirect.

Section Theorems.
Context `{lib : WqlLib} `{laws : !WqlLaws}.


(** C10: building the heaps of a where clause and pushing NOT down succeeds,
   leaves no NOT in the heap, and the element that stands for the clause has the
   value of its negation normal form.  On that heap the factoring loop terminates
   within its fuel and leaves a disjunctive normal form: no AND has an OR below
   it, and the element that stands for the clause has the same value as before
   under every assignment of truth values to the comparisons. *)
Theorem normal_forms e v :
  wf e = true ->
  exists h eh', (_buildEvalHeap (postfix e) (mkHeaps [] []) ≫= _pushNOTDown) = Ok h /\
    Forall (fun x => op x <> WQL_NOT) (evals h) /\
    sval (bool_alg (terms h) v) (evals h) (pref 0 0 e) = psem v false e /\
    _factoring (evals h) = Ok eh' /\ dnf (nterm e) eh' /\
    forall r, is_root (evals h) r -> exists r', is_root eh' r' /\
      sval (bool_alg (terms h) v) eh' (eref r') = sval (bool_alg (terms h) v) (evals h) (eref r).
Proof.
  intros Hwf. destruct (playout_ok e false Hwf) as [Hok _]. destruct (playout_tree e 0 0 false) as [Htree _].
  destruct (factoring_spec (nterm e) _ Hok Htree) as (eh' & E & Hd & Hr & _).
  rewrite buildEvalHeap_layout by done. cbn [mbind outcome_bind app length].
  pose proof (pushNOTDown_playout e [] Hwf) as Ep. cbn [app length] in Ep. rewrite Ep.
  eexists _, eh'. split; [done|]. cbn [evals terms]. split_and!; [| |done|done|].
  - apply Forall_lookup_2. intros k x Hk.
    destruct (Hok k x Hk) as [Ex|[[Ex|Ex] _]]; unfold inert in *; by rewrite Ex.
  - pose proof (playout_value v e false [] [] [] [] 0 0 Hwf eq_refl eq_refl) as Ev.
    cbn [app] in Ev. by rewrite !app_nil_r in Ev.
  - intros r Hroot. destruct (Hr r Hroot) as (r' & Hr' & Hv). exists r'. split; [done|]. apply Hv, _.
Qed.

(** The stack machine of the direct evaluator computes the tree-wise
   evaluation of the clause, in every case, errors included: both sides of a
   connective are evaluated, a missing property and operands of different types
   are errors.  What it returns is the value of the clause with the operands of
   every comparison exchanged. *)
Lemma evaluateWhereClause_mirror e cn sp wp src :
  wf e = true ->
  evaluateWhereClause (mkStmt cn sp wp (postfix e)) src = direct src e /\
  forall b, evaluateWhereClause (mkStmt cn sp wp (postfix e)) src = Ok b -> meaning src (mirror e) = Ok b.
Proof. intros Hwf. rewrite evaluateWhereClause_direct by done. split; [done|]. intros b. apply direct_mirror. Qed.

(** On where clauses built from = and <> the direct and the compiled
   evaluator are equivalent: when the direct one returns, so does the compiled
   one, with the same answer. *)
Lemma evaluators_agree e cn sp wp :
  wf e = true -> equalities e = true -> reals_distinct (wreals e) ->
  exists c, compile (mkStmt cn sp wp (postfix e)) newCompile = Ok c /\
    forall src b, values_only src ->
      evaluateWhereClause (mkStmt cn sp wp (postfix e)) src = Ok b -> evaluate c src = Ok b.
Proof.
  intros Hwf He Hr. destruct (compile_evaluate e cn sp wp Hwf Hr) as (c & Ec & Hc).
  exists c. split; [done|]. intros src b Hv. rewrite evaluateWhereClause_direct by done.
  intros Hb%direct_mirror. destruct (equalities_mirror src e b false Hv He Hb) as [? ?]. auto.
Qed.

(** C11: the stack machine of the direct evaluator computes the tree-wise
   evaluation of the clause, in every case, errors included, and what it returns
   is the value of the clause with the operands of every comparison exchanged; on
   clauses of = and <> the compiled evaluator returns what it returns. *)
Theorem direct_evaluator e cn sp wp :
  wf e = true ->
  (forall src, evaluateWhereClause (mkStmt cn sp wp (postfix e)) src = direct src e /\
   forall b, evaluateWhereClause (mkStmt cn sp wp (postfix e)) src = Ok b -> meaning src (mirror e) = Ok b) /\
  (equalities e = true -> reals_distinct (wreals e) ->
   exists c, compile (mkStmt cn sp wp (postfix e)) newCompile = Ok c /\
    forall src b, values_only src ->
      evaluateWhereClause (mkStmt cn sp wp (postfix e)) src = Ok b -> evaluate c src = Ok b).
Proof. intros Hwf. split; [intros src; by apply evaluateWhereClause_mirror|intros He Hr; by apply evaluators_agree]. Qed.

Context `{scan : !ScanLib}.


(** C13: a statement is generated only from a query without unsupported
   constructs: no DISTINCT, GROUP BY, HAVING or sort clause, at most one
   relation, no function call, arithmetic, LIKE, array index or constant that
   does not convert, anywhere in the select list or the where clause. *)
Theorem createSelectStatement_rejects s :
  stmt_supported s = false -> forall st, createSelectStatement s <> Ok st.
Proof. intros Hs st E. by rewrite (createSelectStatement_supported s st E) in Hs. Qed.

(** A string constant written with every quote and backslash doubled is
   read back unchanged. *)
Theorem string_escapes_roundtrip s : WQLRemoveStringEscapes (quoted s) = Ok s.
Proof. apply WQLRemoveStringEscapes_quoted. Qed.
End Theorems.

(** ** A concrete library *)

Module Ex.
Definition req (x y : option Z) : bool :=
  match x, y with Some a, Some b => a =? b | _, _ => false end.
Definition rlt (x y : option Z) : bool :=
  match x, y with Some a, Some b => a <? b | _, _ => false end.

#[export] Instance lib : WqlLib := {|
  Real64 := option Z; real_eq := req; real_lt := rlt; real_of_int := Some;
  str_lt := String.ltb; str_of_int := fun _ => "0"%string; str_of_real := fun _ => "0"%string;
  str_of_bool := fun b => if b then "true"%string else "false"%string;
  assert_enabled := true |}.

#[export] Instance laws : WqlLaws.
Proof.
  split; simpl.
  - intros [x|] [y|]; try done. apply Z.eqb_sym.
  - intros [x|] [y|]; try done. simpl. intros ?%Z.ltb_lt. apply Z.eqb_neq. lia.
  - intros [x|] [y|]; try done. simpl. intros ?%Z.ltb_lt. apply Z.ltb_ge. lia.
  - intros x. unfold String.ltb. pose proof (String.compare_antisym x x) as E.
    by destruct (String.compare x x).
  - intros x y. unfold String.ltb. rewrite (String.compare_antisym x y). by destruct (String.compare y x).
  - intros x y Hne. unfold String.ltb. rewrite (String.compare_antisym x y).
    destruct (String.compare y x) eqn:E; [|auto..]. by apply String.compare_eq_iff in E.
Qed.

#[export] Instance scan : ScanLib := {|
  toInt64 := fun _ s => if bool_decide (s = "5"%string) then Some 5 else None;
  toReal64 := fun _ => None;
  end_char := 0 |}.

(** An instance with x = 3 and name = 'disk'. *)
Definition src : WQLPropertySource := mkSource
  (fun p => Ok (if bool_decide (p = "x"%string) then Some (INTEGER_VALUE 3)
                else if bool_decide (p = "name"%string) then Some (STRING_VALUE "disk")
                else None))
  (fun _ c => Ok (bool_decide (c = "Disk"%string))).

Lemma src_values : values_only src.
Proof. intros p v. simpl. repeat case_bool_decide; intros [= <-]; done. Qed.

(** [NOT (x < 5 AND name = 'tape') OR name ISA 'Disk'] *)
Definition e : wexpr :=
  WBin WQL_OR
    (WNot (WBin WQL_AND (WComp WQL_LT (PROPERTY_NAME "x") (INTEGER_VALUE 5))
                        (WComp WQL_EQ (PROPERTY_NAME "name") (STRING_VALUE "tape"))))
    (WComp WQL_ISA (PROPERTY_NAME "name") (STRING_VALUE "Disk")).

(** [x = 3 AND NOT (name <> 'disk')] *)
Definition eq_e : wexpr :=
  WBin WQL_AND (WComp WQL_EQ (PROPERTY_NAME "x") (INTEGER_VALUE 3))
    (WNot (WComp WQL_NE (PROPERTY_NAME "name") (STRING_VALUE "disk"))).

(** [x < 5] *)
Definition lt_e : wexpr := WComp WQL_LT (PROPERTY_NAME "x") (INTEGER_VALUE 5).

Definition lt_tree : aExpr :=
  aExpr_aExpr_LESSTHAN_aExpr
    (aExpr_cExpr (cExpr_strColId_optIndirection "x" None))
    (aExpr_cExpr (cExpr_aExprConst (aExprConst_ICONST "5"))).
End Ex.

Module Witness.
Import Ex.

Lemma no_reals : reals_distinct (@nil Real64).
Proof. by intros x y ?%not_elem_of_nil. Qed.


Lemma normal_forms_witness :
  exists h eh', (_buildEvalHeap (postfix e) (mkHeaps [] []) ≫= _pushNOTDown) = Ok h /\
    Forall (fun x => op x <> WQL_NOT) (evals h) /\ _factoring (evals h) = Ok eh' /\ dnf 3 eh'.
Proof.
  destruct (normal_forms e (fun _ => true) eq_refl) as (h & eh' & E & N & _ & E' & D & _).
  exists h, eh'. split; [exact E|]. split; [exact N|]. split; [exact E'|exact D].
Defined.

Lemma direct_evaluator_witness :
  (evaluateWhereClause (mkStmt "C" [] [] (postfix lt_e)) src = Ok false /\ meaning src (mirror lt_e) = Ok false) /\
  exists c, compile (mkStmt "C" [] [] (postfix eq_e)) newCompile = Ok c /\ evaluate c src = Ok true.
Proof.
  split.
  - destruct (direct_evaluator lt_e "C" [] [] eq_refl) as [Hm _]. destruct (Hm src) as [E H].
    split; [rewrite E; reflexivity|]. apply H. reflexivity.
  - destruct (direct_evaluator eq_e "C" [] [] eq_refl) as [_ Ha]. destruct (Ha eq_refl no_reals) as (c & Ec & H).
    exists c. split; [exact Ec|]. apply H; [exact src_values|reflexivity].
Defined.


Lemma createSelectStatement_rejects_witness :
  createSelectStatement (simple_select [targetEl_ASTERISK] "C"
    (Some (optWhereClause_WHERE_aExpr
       (aExpr_NOT_aExpr (aExpr_unsupported aExpr_aExpr_LIKE_aExpr))))) <> Ok newStatement.
Proof. apply createSelectStatement_rejects. reflexivity. Defined.
End Witness.

(** ** Where the code differs from what a query means *)

Module Divergence.
Import Ex.

(** [NOT (name ISA 'Disk')] is compiled to [name ISA 'Disk']. *)
Lemma not_isa_is_isa :
  let e := WNot (WComp WQL_ISA (PROPERTY_NAME "name") (STRING_VALUE "Disk")) in
  (compile (mkStmt "C" [] [] (postfix e)) newCompile ≫= fun c => evaluate c src) = Ok true /\
  meaning src e = Ok false.
Proof. by vm_compute. Qed.

(** [NOT (y < 5)] and [y < 5] are both true of an instance whose y is NULL. *)
Definition null_src : WQLPropertySource :=
  mkSource (fun _ => Ok (Some NULL_VALUE)) (fun _ _ => Ok false).

Lemma not_less_null :
  let e := WComp WQL_LT (PROPERTY_NAME "y") (INTEGER_VALUE 5) in
  (compile (mkStmt "C" [] [] (postfix (WNot e))) newCompile ≫= fun c => evaluate c null_src) = Ok true /\
  meaning null_src e = Ok true.
Proof. by vm_compute. Qed.

(** [x < 5] is false of x = 3 in the direct evaluator. *)
Lemma direct_less_swapped :
  evaluateWhereClause (mkStmt "C" [] [] (postfix lt_e)) src = Ok false /\ meaning src lt_e = Ok true.
Proof. by vm_compute. Qed.

(** A row c, a, b is left as b, a, c: it is not sorted. *)
Definition name_term (n : string) : term_el := mkTerm false WQL_EQ (PROPERTY_NAME n) NULL_VALUE.

Lemma row_not_sorted :
  sort_row (map name_term ["c"; "a"; "b"]%string) = map name_term ["b"; "a"; "c"]%string.
Proof. by vm_compute. Qed.

(** A compiler that is used again for a clause of one comparison keeps
   answering the first one. *)
Lemma recompile_stale :
  let e1 := WComp WQL_EQ (PROPERTY_NAME "x") (INTEGER_VALUE 3) in
  let e2 := WComp WQL_EQ (PROPERTY_NAME "x") (INTEGER_VALUE 4) in
  (c ← compile (mkStmt "C" [] [] (postfix e1)) newCompile;
   c ← compile (mkStmt "C" [] [] (postfix e2)) c; evaluate c src) = Ok true /\
  meaning src e2 = Ok false.
Proof. by vm_compute. Qed.
End Divergence.
