(* ===== verification/XmlText.v ===== *)
(** * Escaping and unescaping XML text

   src/src/xml/OW_XMLEscape.cpp and OW_XMLUnescape.cpp, the scanners that re2c
   made, state by state.  Characters are bytes ([0..255]).  A [blocxx::String]
   is a C string: behind its last character there is one NUL that may be read;
   a read behind that NUL is undefined behaviour ([Crash]). *)

From S2P Require Import Prelude.

(** ** XMLEscape *)

(** The UTF-8 replacement character. *)
Definition REPLACEMENT : bytes := [0xEF; 0xBF; 0xBD].

(** The characters that the scanner replaces on their own, by yych. *)
Definition esc_char (c : Z) : bytes :=
  if c =? 62 then txt "&gt;"
  else if c =? 60 then txt "&lt;"
  else if c =? 38 then txt "&amp;"
  else if c =? 34 then txt "&quot;"
  else if c =? 39 then txt "&apos;"
  else if c =? 13 then txt "&#13;"
  else if c =? 10 then txt "&#10;"
  else if c =? 9 then txt "&#9;"
  else [c].

(** 0x00-0x08, 0x0B, 0x0C is not among them, 0x0E-0x1F: state yy18. *)
Definition esc_invalid (c : Z) : bool :=
  ((0 <=? c) && (c <=? 8)) || (c =? 11) || ((14 <=? c) && (c <=? 31)).

(** The character at the cursor: NUL at the end of the text. *)
Definition char_at (l : bytes) : Z := match l with [] => 0 | c :: _ => c end.

(** [rval += pre], then go on. *)
Definition emit (pre : bytes) (o : outcome bytes) : outcome bytes :=
  match o with Ok e => Ok (pre ++ e) | Throw x => Throw x | Crash => Crash | Diverge => Diverge end.

(** State yy26 reads the character behind the third one of a sequence, which
   [third] starts at: that is behind the NUL when the third one is the NUL. *)
Fixpoint XMLEscape (l : bytes) : outcome bytes :=
  match l with
  | [] => Ok []
  | c :: r =>
      if esc_invalid c then emit REPLACEMENT (XMLEscape r)
      else if c =? 0xED then
        match r with
        | [] => emit [c] (XMLEscape r)
        | c2 :: third =>
            let copy := emit [c] (XMLEscape r) in                                        (* yy25, yy21 *)
            let replace := match third with                                              (* yy26, yy19 *)
              | [] => Crash
              | _ :: r3 => emit REPLACEMENT (XMLEscape r3)
              end in
            if c2 =? 0xA0 then if char_at third <=? 0x7F then copy else replace          (* yy27 *)
            else if (0xA1 <=? c2) && (c2 <=? 0xBE) then
              if char_at third =? 10 then copy else replace                              (* yy28 *)
            else if c2 =? 0xBF then if char_at third <=? 0xBF then replace else copy     (* yy29 *)
            else copy
        end
      else if c =? 0xEF then
        match r with
        | [] => emit [c] (XMLEscape r)
        | c2 :: third =>
            let copy := emit [c] (XMLEscape r) in
            if c2 =? 0xBF then                                                           (* yy24 *)
              if (char_at third =? 0xBE) || (char_at third =? 0xBF) then
                match third with
                | [] => Crash
                | _ :: r3 => emit REPLACEMENT (XMLEscape r3)
                end
              else copy
            else copy
        end
      else emit (esc_char c) (XMLEscape r)
  end.

(** ** XMLUnescape *)

Definition MALFORMED_REFERENCE : string := "XMLParseException::MALFORMED_REFERENCE".

Definition is_digit (c : Z) : bool := (48 <=? c) && (c <=? 57).
Definition hex_value (c : Z) : option Z :=
  if is_digit c then Some (c - 48)
  else if (65 <=? c) && (c <=? 70) then Some (c - 55)
  else if (97 <=? c) && (c <=? 102) then Some (c - 87)
  else None.
Definition dec_value (c : Z) : option Z := if is_digit c then Some (c - 48) else None.

(** States yy34 and yy38/yy39: digits up to a semicolon; the value that
   [strtoul] reads (it saturates far above CHAR_MAX) and the rest. *)
Fixpoint digits (value : Z -> option Z) (base acc : Z) (l : bytes) : option (Z * bytes) :=
  match l with
  | [] => None
  | c :: r =>
      if c =? 59 then Some (acc, r)
      else match value c with
      | Some d => digits value base (acc * base + d) r
      | None => None
      end
  end.

(** The rest of [l] behind the constant [k]. *)
Fixpoint after (k l : bytes) : option bytes :=
  match k, l with
  | [], _ => Some l
  | a :: k, b :: l => if a =? b then after k l else None
  | _ :: _, [] => None
  end.

(** What an ampersand followed by [l] stands for: a character (or the exception
   for one that is out of range) and the rest; [None] is state yy8. *)
Definition reference (l : bytes) : option (outcome Z * bytes) :=
  let num o := match o with
    | Some (v, r) => Some (if 127 <? v then Throw MALFORMED_REFERENCE else Ok v, r)
    | None => None
    end in
  let named k (c : Z) := match after (txt k) l with Some r => Some (Ok c, r) | None => None end in
  match l with
  | c :: r =>
      if c =? 35 then
        match r with
        | d :: r' =>
            if is_digit d then num (digits dec_value 10 0 r)
            else if d =? 120 then
              match r' with
              | x :: _ => if x =? 59 then None else num (digits hex_value 16 0 r')
              | [] => None
              end
            else None
        | [] => None
        end
      else if c =? 103 then named "gt;" 62
      else if c =? 108 then named "lt;" 60
      else if c =? 113 then named "quot;" 34
      else if c =? 97 then
        match named "amp;" 38 with Some x => Some x | None => named "apos;" 39 end
      else None
  | [] => None
  end.

(** The loop; it ends at the first NUL. *)
Fixpoint unescape_from (fuel : nat) (l : bytes) : outcome bytes :=
  match fuel with
  | O => Diverge
  | S fuel =>
      match l with
      | [] => Ok []
      | c :: r =>
          if c =? 0 then Ok []
          else if c =? 38 then
            match reference r with
            | Some (Ok v, r') => emit [v] (unescape_from fuel r')
            | Some (Throw e, _) => Throw e
            | Some (Crash, _) => Crash
            | Some (Diverge, _) => Diverge
            | None => emit [c] (unescape_from fuel r)
            end
          else emit [c] (unescape_from fuel r)
      end
  end.

Definition XMLUnescape (l : bytes) : outcome bytes := unescape_from (S (length l)) l.

(** ** What escaping does to a text *)

(** The text with the sequences that XML does not allow replaced. *)
Fixpoint scrub (l : bytes) : outcome bytes :=
  match l with
  | [] => Ok []
  | c :: r =>
      if esc_invalid c then emit REPLACEMENT (scrub r)
      else if c =? 0xED then
        match r with
        | [] => emit [c] (scrub r)
        | c2 :: third =>
            let copy := emit [c] (scrub r) in
            let replace := match third with [] => Crash | _ :: r3 => emit REPLACEMENT (scrub r3) end in
            if c2 =? 0xA0 then if char_at third <=? 0x7F then copy else replace
            else if (0xA1 <=? c2) && (c2 <=? 0xBE) then if char_at third =? 10 then copy else replace
            else if c2 =? 0xBF then if char_at third <=? 0xBF then replace else copy
            else copy
        end
      else if c =? 0xEF then
        match r with
        | [] => emit [c] (scrub r)
        | c2 :: third =>
            let copy := emit [c] (scrub r) in
            if c2 =? 0xBF then
              if (char_at third =? 0xBE) || (char_at third =? 0xBF) then
                match third with [] => Crash | _ :: r3 => emit REPLACEMENT (scrub r3) end
              else copy
            else copy
        end
      else emit [c] (scrub r)
  end.

(** Text in which nothing is replaced: no control characters but tab, newline,
   form feed and return, no surrogates, no U+FFFE and U+FFFF. *)
Fixpoint clean (l : bytes) : bool :=
  match l with
  | [] => true
  | c :: r =>
      negb (esc_invalid c) &&
      negb ((c =? 0xED) && (0xA0 <=? char_at r) && (char_at r <=? 0xBF)) &&
      negb ((c =? 0xEF) && (char_at r =? 0xBF) && (0xBE <=? char_at (tail r)) && (char_at (tail r) <=? 0xBF)) &&
      clean r
  end.

(** The characters that have a meaning in XML, and control characters. *)
Definition is_markup (c : Z) : bool := (c =? 60) || (c =? 62) || (c =? 34) || (c =? 39) || (c =? 9) || (c =? 10) || (c =? 13) || esc_invalid c.

(** * Escaping is undone by unescaping

   [XMLEscape] scrubs the text and writes each character that is left on its
   own; [XMLUnescape] reads what it wrote. *)

(** ** Escaping, character by character *)

Definition esc_text (t : bytes) : bytes := concat (esc_char <$> t).

Lemma esc_text_cons c t : esc_text (c :: t) = esc_char c ++ esc_text t.
Proof. done. Qed.

Lemma esc_char_high c : 62 < c -> esc_char c = [c].
Proof. intros H. unfold esc_char. ztest. done. Qed.

Definition escaped (o : outcome bytes) : outcome bytes :=
  match o with Ok t => Ok (esc_text t) | Throw x => Throw x | Crash => Crash | Diverge => Diverge end.

Lemma escaped_emit c o : escaped (emit [c] o) = emit (esc_char c) (escaped o).
Proof. by destruct o. Qed.

Lemma escaped_replacement o : escaped (emit REPLACEMENT o) = emit REPLACEMENT (escaped o).
Proof. by destruct o. Qed.

Lemma XMLEscape_scrub l : XMLEscape l = escaped (scrub l).
Proof.
  remember (length l) as n eqn:En. revert l En. induction n as [n IH] using lt_wf_ind. intros l ->.
  destruct l as [|c r]; [done|]. simpl. pose proof (IH (length r) ltac:(simpl; lia) r eq_refl) as Hr.
  assert (forall r3 c3 c2, r = c2 :: c3 :: r3 -> XMLEscape r3 = escaped (scrub r3)) as Hr3.
  { intros r3 c3 c2 ->. apply (IH (length r3)); [simpl; lia|done]. }
  destruct (esc_invalid c); [by rewrite escaped_replacement, Hr|].
  destruct (c =? 0xED) eqn:Ec; zbool.
  { assert (emit [c] (XMLEscape r) = escaped (emit [c] (scrub r))) as Hcopy
      by (rewrite escaped_emit, esc_char_high, Hr by lia; done).
    destruct r as [|c2 third]; [done|]. cbv zeta. rewrite Hcopy.
    assert (match third with [] => Crash | _ :: r3 => emit REPLACEMENT (XMLEscape r3) end =
      escaped (match third with [] => Crash | _ :: r3 => emit REPLACEMENT (scrub r3) end)) as ->.
    { destruct third as [|c3 r3]; [done|]. by rewrite escaped_replacement, (Hr3 r3 c3 c2). }
    repeat case_match; done. }
  destruct (c =? 0xEF) eqn:Ec2; zbool; [|by rewrite escaped_emit, Hr].
  assert (emit [c] (XMLEscape r) = escaped (emit [c] (scrub r))) as Hcopy
    by (rewrite escaped_emit, esc_char_high, Hr by lia; done).
  destruct r as [|c2 third]; [done|]. cbv zeta. rewrite Hcopy.
  assert (match third with [] => Crash | _ :: r3 => emit REPLACEMENT (XMLEscape r3) end =
    escaped (match third with [] => Crash | _ :: r3 => emit REPLACEMENT (scrub r3) end)) as ->.
  { destruct third as [|c3 r3]; [done|]. by rewrite escaped_replacement, (Hr3 r3 c3 c2). }
  repeat case_match; done.
Qed.

(** ** Unescaping: enough fuel *)

Lemma digits_length value base acc l v r : digits value base acc l = Some (v, r) -> (length r < length l)%nat.
Proof.
  revert acc. induction l as [|c l IH]; intros acc; simpl; [done|].
  destruct (c =? 59); [by intros [= _ ->]; lia|]. destruct (value c); [|done]. intros H%IH. lia.
Qed.

Lemma after_length k l r : after k l = Some r -> (length r <= length l)%nat.
Proof.
  revert l. induction k as [|a k IH]; intros [|b l]; simpl; try by intros [= <-].
  destruct (a =? b); [|done]. intros H%IH. lia.
Qed.

Lemma reference_length l o r : reference l = Some (o, r) -> (length r <= length l)%nat.
Proof.
  unfold reference. destruct l as [|c l]; [done|]. intros H.
  repeat (case_match; simplify_eq; try done);
    repeat match goal with
    | H : after _ _ = Some _ |- _ => apply after_length in H
    | H : digits _ _ _ _ = Some _ |- _ => apply digits_length in H
    end; simpl in *; lia.
Qed.

Lemma unescape_enough fuel : forall l, (length l < fuel)%nat -> unescape_from fuel l = XMLUnescape l.
Proof.
  assert (forall f1 f2 l, (length l < f1)%nat -> (length l < f2)%nat -> unescape_from f1 l = unescape_from f2 l) as H.
  { induction f1 as [|f1 IH]; intros f2 l H1 H2; [lia|]. destruct f2 as [|f2]; [lia|]. destruct l as [|c r]; [done|].
    simpl in *. rewrite (IH f2 r) by lia. destruct (c =? 0); [done|]. destruct (c =? 38); [|done].
    destruct (reference r) as [[[] r']|] eqn:E; try done. apply reference_length in E. rewrite (IH f2 r') by lia. done. }
  intros l Hl. apply H; [done|lia].
Qed.

Lemma XMLUnescape_step l :
  XMLUnescape l = match l with
  | [] => Ok []
  | c :: r =>
      if c =? 0 then Ok []
      else if c =? 38 then
        match reference r with
        | Some (Ok v, r') => emit [v] (XMLUnescape r')
        | Some (Throw e, _) => Throw e
        | Some (Crash, _) => Crash
        | Some (Diverge, _) => Diverge
        | None => emit [c] (XMLUnescape r)
        end
      else emit [c] (XMLUnescape r)
  end.
Proof.
  unfold XMLUnescape at 1. cbn [unescape_from]. destruct l as [|c r]; [done|]. cbn [length].
  rewrite (unescape_enough (S (length r)) r) by lia. destruct (c =? 0); [done|]. destruct (c =? 38); [|done].
  destruct (reference r) as [[[] r']|] eqn:E; try done. apply reference_length in E.
  rewrite unescape_enough by lia. done.
Qed.

(** ** Round trip *)

Lemma unescape_char c e : c <> 0 -> XMLUnescape (esc_char c ++ e) = emit [c] (XMLUnescape e).
Proof.
  intros Hc. unfold esc_char.
  repeat match goal with |- context [c =? ?k] => destruct (c =? k) eqn:?; zbool; [subst c; by rewrite XMLUnescape_step|] end.
  rewrite XMLUnescape_step. simpl. ztest. done.
Qed.

Lemma unescape_esc_text t : Forall (fun c => c <> 0) t -> XMLUnescape (esc_text t) = Ok t.
Proof. induction 1 as [|c t Hc _ IH]; [done|]. by rewrite esc_text_cons, unescape_char, IH. Qed.

(** ** Scrubbing *)

Lemma emit_Ok pre o t : emit pre o = Ok t -> exists t', o = Ok t' /\ t = pre ++ t'.
Proof. destruct o; simpl; intros [=]; subst. eauto. Qed.

Lemma scrub_valid l : forall t, scrub l = Ok t -> Forall (fun c => esc_invalid c = false) t.
Proof.
  remember (length l) as n eqn:En. revert l En. induction n as [n IH] using lt_wf_ind. intros l -> t.
  destruct l as [|c r]; [by intros [= <-]|].
  assert (forall r' pre t, (length r' <= length r)%nat -> Forall (fun c => esc_invalid c = false) pre ->
    emit pre (scrub r') = Ok t -> Forall (fun c => esc_invalid c = false) t) as Hgo.
  { intros r' pre t' Hr Hpre (t2 & E & ->)%emit_Ok. apply Forall_app. split; [done|].
    apply (IH (length r') ltac:(simpl; lia) r' eq_refl t2 E). }
  assert (Forall (fun c => esc_invalid c = false) REPLACEMENT) as Hrep by (by repeat constructor).
  simpl. destruct (esc_invalid c) eqn:Ei; [by apply Hgo|].
  assert (Forall (fun c => esc_invalid c = false) [c]) as Hone by (by constructor).
  destruct (c =? 0xED); [|destruct (c =? 0xEF); [|by apply Hgo]];
    destruct r as [|c2 third]; try (by apply Hgo); cbv zeta;
    repeat (case_match; try done); intros Hs; (refine (Hgo _ _ _ _ _ Hs); [simpl; lia|done]).
Qed.

Lemma scrub_clean l : clean l = true -> scrub l = Ok l.
Proof.
  induction l as [|c r IH]; [done|]. simpl. intros H. zbool. rewrite IH by done.
  match goal with H : esc_invalid c = false |- _ => rewrite H end.
  destruct (c =? 0xED) eqn:Ec; simpl in *.
  - destruct r as [|c2 third]; [done|]. simpl in *.
    destruct (c2 =? 0xA0) eqn:?; zbool; [subst; done|].
    destruct ((0xA1 <=? c2) && (c2 <=? 0xBE)) eqn:?; zbool.
    { exfalso. match goal with H : (_ && _) = false |- _ => apply andb_false_iff in H as [?|?]; zbool; lia end. }
    destruct (c2 =? 0xBF) eqn:?; zbool; [subst; done|]. done.
  - destruct (c =? 0xEF) eqn:Ec2; simpl in *; [|done]. destruct r as [|c2 third]; [done|]. simpl in *.
    destruct (c2 =? 0xBF) eqn:?; simpl in *; [|done].
    destruct ((char_at third =? 0xBE) || (char_at third =? 0xBF)) eqn:E; [|done]. exfalso.
    apply orb_true_iff in E as [E|E]; zbool; rewrite E in *; done.
Qed.

(** ** Markup *)

Lemma esc_char_plain c : esc_invalid c = false -> Forall (fun x => is_markup x = false) (esc_char c).
Proof.
  intros Hc. unfold esc_char.
  repeat match goal with |- context [c =? ?k] => destruct (c =? k) eqn:?; [by repeat constructor|] end.
  constructor; [|done]. unfold is_markup. zbool. rewrite Hc. ztest. done.
Qed.

Lemma esc_text_plain t :
  Forall (fun c => esc_invalid c = false) t -> Forall (fun x => is_markup x = false) (esc_text t).
Proof. induction 1 as [|c t Hc _ IH]; [constructor|]. apply Forall_app. split; [by apply esc_char_plain|done]. Qed.

(** ** The read behind the end *)

(** The text ends inside a surrogate. *)
Definition cut_off (l : bytes) : Prop := exists p c, l = p ++ [0xED; c] /\ 0xA1 <= c <= 0xBF.

Lemma cut_off_cons c l : ~ cut_off (c :: l) -> ~ cut_off l.
Proof. intros H (p & x & -> & Hx). apply H. by exists (c :: p), x. Qed.

Lemma scrub_total l : ~ cut_off l -> exists t, scrub l = Ok t.
Proof.
  remember (length l) as n eqn:En. revert l En. induction n as [n IH] using lt_wf_ind. intros l -> Hl.
  destruct l as [|c r]; [by exists []|]. pose proof (cut_off_cons _ _ Hl) as Hr.
  destruct (IH (length r) ltac:(simpl; lia) r eq_refl Hr) as (t & Et).
  assert (forall c2 c3 r3, r = c2 :: c3 :: r3 -> exists t, scrub r3 = Ok t) as Hr3.
  { intros c2 c3 r3 ->. apply (IH (length r3)); [simpl; lia|done|]. by do 2 apply cut_off_cons in Hr. }
  simpl. rewrite Et. cbn [emit]. destruct (esc_invalid c); [eauto|].
  destruct (c =? 0xED) eqn:Ec; [zbool|destruct (c =? 0xEF); [|eauto]];
    (destruct r as [|c2 third]; [eauto|]); cbv zeta.
  - destruct third as [|c3 r3].
    + destruct (c2 =? 0xA0); [eauto|]. destruct ((0xA1 <=? c2) && (c2 <=? 0xBE)) eqn:E1; zbool.
      { destruct Hl. exists [], c2. split; [by subst|lia]. }
      destruct (c2 =? 0xBF) eqn:E2; [|eauto]. zbool. destruct Hl. exists [], c2. split; [by subst|lia].
    + destruct (Hr3 c2 c3 r3 eq_refl) as (t3 & ->). cbn [emit]. repeat case_match; eauto.
  - destruct third as [|c3 r3]; [destruct (c2 =? 0xBF); eauto|].
    destruct (Hr3 c2 c3 r3 eq_refl) as (t3 & ->). cbn [emit]. repeat case_match; eauto.
Qed.

(** ** Together *)

Lemma esc_valid_nonzero t : Forall (fun c => esc_invalid c = false) t -> Forall (fun c => c <> 0) t.
Proof. intros Ht. eapply Forall_impl; [exact Ht|]. simpl. intros c Hc ->. done. Qed.

Lemma XMLEscape_total l :
  ~ cut_off l -> exists t, scrub l = Ok t /\ XMLEscape l = Ok (esc_text t) /\ XMLUnescape (esc_text t) = Ok t /\
    Forall (fun x => is_markup x = false) (esc_text t).
Proof.
  intros (t & Et)%scrub_total. pose proof (scrub_valid l t Et) as Hv. exists t. rewrite XMLEscape_scrub, Et.
  split_and!; [done|done|by apply unescape_esc_text, esc_valid_nonzero|by apply esc_text_plain].
Qed.

Lemma clean_not_cut l : clean l = true -> ~ cut_off l.
Proof.
  intros Hc (p & c & -> & Hx). induction p as [|x p IH]; simpl in Hc; zbool.
  - assert ((0xA0 <=? c) && (c <=? 0xBF) = true) as E by (apply andb_true_iff; split; apply Z.leb_le; lia).
    simpl in *. zbool. lia.
  - auto.
Qed.
