(* ===== verification/XmlParser.v ===== *)
(** * The XML parser core

   [XMLParserCore] (src/src/xml/OW_XMLParserCore.cpp): a pull parser that
   reads characters through a [blocxx::IstreamBufIterator] and delivers one
   token at a time.  The stream is the list of the characters that are left;
   what the iterator reads at its end is a parameter ([eof_char]), and so
   advancing it there changes nothing.  Where the code loops on that character
   for ever, the model says [Diverge].

   Exceptions carry the name of the code; the line number, which is part of the
   message only, is counted as in the code.  The state of the parser after an
   exception is not used by any caller and not tracked. *)

From S2P Require Import Prelude XmlText.

(** ** Characters *)

(** What [IstreamBufIterator] reads at the end of the stream. *)
Class StreamEnd : Type := { eof_char : Z }.

(** The loops of the parser that look for a NUL rely on it. *)
Class StreamEndLaws {se : StreamEnd} : Prop := { eof_nul : eof_char = 0 }.

(** <cctype> in the C locale. *)
Definition isspace (c : Z) : bool := (c =? 32) || ((9 <=? c) && (c <=? 13)).
Definition isalpha (c : Z) : bool := ((65 <=? c) && (c <=? 90)) || ((97 <=? c) && (c <=? 122)).
Definition isalnum (c : Z) : bool := isalpha c || is_digit c.

Definition isNameChar (c : Z) : bool :=
  isalnum c || (c =? 95) || (c =? 45) || (c =? 58) || (c =? 46).
Definition isNameStart (c : Z) : bool := isalpha c || (c =? 95).

(** ** State *)

Inductive XMLType := INVALID | XML_DECLARATION | START_TAG | END_TAG | COMMENT | CDATA | DOCTYPE | CONTENT.

#[export] Instance XMLType_eq : EqDecision XMLType.
Proof. solve_decision. Defined.

Record Attribute := mkAttribute { at_name : bytes; at_value : bytes }.
Record XMLToken := mkToken { type : XMLType; text : bytes; attributes : list Attribute }.

Definition newToken : XMLToken := mkToken INVALID [] [].

(** [XMLParserCore] and the token that it fills, which the caller passes to
   every call of [next]. *)
Record XMLParser := mkParser {
  m_line : Z;
  m_current : bytes;
  m_stack : list bytes;
  m_foundRoot : bool;
  m_tagIsEmpty : bool;
  entry : XMLToken;
}.

Definition newParser (input : bytes) : XMLParser := mkParser 1 input [] false false newToken.

Definition set_pos (line : Z) (cur : bytes) (p : XMLParser) : XMLParser :=
  mkParser line cur (m_stack p) (m_foundRoot p) (m_tagIsEmpty p) (entry p).
Definition set_stack (l : list bytes) (p : XMLParser) : XMLParser :=
  mkParser (m_line p) (m_current p) l (m_foundRoot p) (m_tagIsEmpty p) (entry p).
Definition set_foundRoot (b : bool) (p : XMLParser) : XMLParser :=
  mkParser (m_line p) (m_current p) (m_stack p) b (m_tagIsEmpty p) (entry p).
Definition set_tagIsEmpty (b : bool) (p : XMLParser) : XMLParser :=
  mkParser (m_line p) (m_current p) (m_stack p) (m_foundRoot p) b (entry p).
Definition set_entry (e : XMLToken) (p : XMLParser) : XMLParser :=
  mkParser (m_line p) (m_current p) (m_stack p) (m_foundRoot p) (m_tagIsEmpty p) e.

Definition modify {S} (f : S -> S) : Prog S () := fun s => (Ok (), f s).

Definition set_type (t : XMLType) : Prog XMLParser () :=
  modify (fun p => set_entry (mkToken t (text (entry p)) (attributes (entry p))) p).
Definition set_text (s : bytes) : Prog XMLParser () :=
  modify (fun p => set_entry (mkToken (type (entry p)) s (attributes (entry p))) p).
Definition set_attributes (l : list Attribute) : Prog XMLParser () :=
  modify (fun p => set_entry (mkToken (type (entry p)) (text (entry p)) l) p).

Section Core.
Context {se : StreamEnd}.

(** [*it] and [++it] *)
Definition deref (l : bytes) : Z := match l with [] => eof_char | c :: _ => c end.
Definition incr (l : bytes) : bytes := match l with [] => l | _ :: r => r end.

Definition cur : Prog XMLParser Z := fun p => (Ok (deref (m_current p)), p).
Definition step : Prog XMLParser () := modify (fun p => set_pos (m_line p) (incr (m_current p)) p).

(** Run a scanner over the input: its result, the newlines it counted and what
   is left. *)
Definition scan {A} (f : bytes -> outcome (A * Z * bytes)) : Prog XMLParser A := fun p =>
  match f (m_current p) with
  | Ok (a, n, r) => (Ok a, set_pos (u32 (m_line p + n)) r p)
  | Throw e => (Throw e, p)
  | Crash => (Crash, p)
  | Diverge => (Diverge, p)
  end.

Definition newline (c : Z) : Z := if c =? 10 then 1 else 0.

(** ** Loops *)

(** [while (cond *it) { out += *it++ }] *)
Fixpoint take_while (cond : Z -> bool) (l : bytes) : outcome (bytes * Z * bytes) :=
  match l with
  | [] => if cond eof_char then Diverge else Ok ([], 0, [])
  | c :: r =>
      if cond c then
        match take_while cond r with
        | Ok (s, n, r') => Ok (c :: s, n, r')
        | o => o
        end
      else Ok ([], 0, l)
  end.

Fixpoint skip_spaces (l : bytes) : outcome (() * Z * bytes) :=
  match l with
  | [] => if isspace eof_char then Diverge else Ok ((), 0, [])
  | c :: r =>
      if isspace c then
        match skip_spaces r with
        | Ok (s, n, r') => Ok (s, n + newline c, r')
        | o => o
        end
      else Ok ((), 0, l)
  end.

Definition skipWhitespace : Prog XMLParser () := scan skip_spaces.

(** [getComment] *)
Fixpoint comment_loop (l : bytes) : outcome (() * Z * bytes) :=
  match l with
  | [] =>
      if eof_char =? 0 then Throw "XMLParseException::UNTERMINATED_COMMENT"
      else if eof_char =? 45 then Throw "XMLParseException::MINUS_MINUS_IN_COMMENT"
      else Diverge
  | c :: r =>
      if c =? 0 then Throw "XMLParseException::UNTERMINATED_COMMENT"
      else if c =? 45 then
        if deref r =? 45 then
          if deref (incr r) =? 62 then Ok ((), 0, incr (incr r))
          else Throw "XMLParseException::MINUS_MINUS_IN_COMMENT"
        else comment_loop (incr r)
      else comment_loop r
  end.

Definition getComment : Prog XMLParser () := scan comment_loop.

(** [getCData]: behind one or two brackets that do not end the section, the
   character at the cursor is appended without another look at it. *)
Definition cdata_char (pre : bytes) (c : Z) (o : outcome (bytes * Z * bytes)) : outcome (bytes * Z * bytes) :=
  match o with
  | Ok (s, n, r) => Ok (pre ++ c :: s, n + newline c, r)
  | o => o
  end.

Fixpoint cdata_loop (l : bytes) : outcome (bytes * Z * bytes) :=
  match l with
  | [] => if eof_char =? 0 then Throw "XMLParseException::UNTERMINATED_CDATA" else Diverge
  | c :: r =>
      if c =? 0 then Throw "XMLParseException::UNTERMINATED_CDATA"
      else if c =? 93 then
        if deref r =? 93 then
          if deref (incr r) =? 62 then Ok ([], 0, incr (incr r))
          else cdata_char [93; 93] (deref (incr r)) (cdata_loop (incr (incr r)))
        else cdata_char [93] (deref r) (cdata_loop (incr r))
      else cdata_char [] c (cdata_loop r)
  end.

Definition getCData : Prog XMLParser () := s ← scan cdata_loop; set_text s.

(** [getDocType]: [k] is closing_symbols_required. *)
Fixpoint doctype_loop (k : Z) (l : bytes) : outcome (() * Z * bytes) :=
  match l with
  | [] => if eof_char =? 0 then Throw "XMLParseException::UNTERMINATED_DOCTYPE" else Diverge
  | c :: r =>
      if c =? 0 then Throw "XMLParseException::UNTERMINATED_DOCTYPE"
      else if c =? 62 then if k =? 1 then Ok ((), 0, r) else doctype_loop (k - 1) r
      else
        match doctype_loop (if c =? 60 then k + 1 else k) r with
        | Ok (s, n, r') => Ok (s, n + newline c, r')
        | o => o
        end
  end.

Definition getDocType : Prog XMLParser () := scan (doctype_loop 1).

(** [getContent]: this loop asks whether the stream has ended. *)
Fixpoint content_loop (l : bytes) : outcome (bytes * Z * bytes) :=
  match l with
  | [] => Ok ([], 0, [])
  | c :: r =>
      if negb (c =? 0) && negb (c =? 60) then
        match content_loop r with
        | Ok (s, n, r') => Ok (c :: s, n + newline c, r')
        | o => o
        end
      else Ok ([], 0, l)
  end.

Definition getContent : Prog XMLParser () := s ← scan content_loop; set_text s.

(** ** Elements *)

Definition getElementName (errorCode : string) : Prog XMLParser bool :=
  c ← cur;
  if negb (isNameStart c) then throw errorCode
  else
    s ← scan (take_while isNameChar);
    set_text s ;;
    skipWhitespace ;;
    c ← cur;
    if c =? 62 then step ;; mret true else mret false.

(** Whether the tag ended, and openCloseElement. *)
Definition getOpenElementName : Prog XMLParser (bool * bool) :=
  b ← getElementName "XMLParseException::BAD_START_TAG";
  if b : bool then mret (true, false)
  else
    c ← cur;
    if c =? 47 then
      step ;;
      c ← cur;
      if c =? 62 then step ;; mret (true, true) else mret (false, false)
    else mret (false, false).

Definition getAttributeNameAndEqual : Prog XMLParser bytes :=
  c ← cur;
  if negb (isNameStart c) then throw "XMLParseException::BAD_ATTRIBUTE_NAME"
  else
    s ← scan (take_while isNameChar);
    skipWhitespace ;;
    c ← cur;
    if negb (c =? 61) then throw "XMLParseException::BAD_ATTRIBUTE_NAME"
    else step ;; skipWhitespace ;; mret s.

Definition getAttributeValue : Prog XMLParser bytes :=
  startChar ← cur;
  if negb (startChar =? 34) && negb (startChar =? 39) then throw "XMLParseException::BAD_ATTRIBUTE_VALUE"
  else
    step ;;
    s ← scan (take_while (fun c => negb (c =? 0) && negb (c =? startChar)));
    c ← cur;
    if negb (c =? startChar) then throw "XMLParseException::BAD_ATTRIBUTE_VALUE"
    else step ;; mret s.

(** One round of the loop over the attributes: whether the tag has ended. *)
Definition attribute_step : Prog XMLParser bool :=
  skipWhitespace ;;
  p ← get;
  c ← cur;
  let attribute :=
    n ← getAttributeNameAndEqual;
    v ← getAttributeValue;
    p ← get;
    set_attributes (attributes (entry p) ++ [mkAttribute n v]) ;;
    mret false in
  if bool_decide (type (entry p) = XML_DECLARATION) then
    if c =? 63 then
      step ;;
      c ← cur;
      if c =? 62 then step ;; mret true else throw "XMLParseException::BAD_ATTRIBUTE_VALUE"
    else attribute
  else if bool_decide (type (entry p) = START_TAG) && (c =? 47) then
    step ;;
    c ← cur;
    if c =? 62 then
      set_type START_TAG ;; modify (set_tagIsEmpty true) ;; step ;; mret true
    else throw "XMLParseException::BAD_ATTRIBUTE_VALUE"
  else if c =? 62 then step ;; mret true
  else attribute.

(** [for (;;)]; each round but the last reads a character or throws. *)
Fixpoint attribute_loop (fuel : nat) : Prog XMLParser () :=
  match fuel with
  | O => diverge
  | S fuel => b ← attribute_step; if b : bool then mret () else attribute_loop fuel
  end.

Definition attributes_rest : Prog XMLParser () :=
  p ← get; attribute_loop (S (length (m_current p))).

(** [while ( *curChar) if ( *curChar++ != *m_current++) throw] *)
Fixpoint expect (s : bytes) : Prog XMLParser () :=
  match s with
  | [] => mret ()
  | k :: s =>
      c ← cur;
      step ;;
      if negb (k =? c) then throw "XMLParseException::EXPECTED_COMMENT_OR_CDATA" else expect s
  end.

Definition getElement : Prog XMLParser () :=
  set_attributes [] ;;
  set_text [] ;;
  c ← cur;
  if c =? 63 then
    set_type XML_DECLARATION ;;
    step ;;
    b ← getElementName "XMLParseException::BAD_XML_DECLARATION";
    if b : bool then mret () else attributes_rest
  else if c =? 33 then
    step ;;
    c ← cur;
    if c =? 45 then
      step ;;
      c ← cur;
      if c =? 45 then step ;; set_type COMMENT ;; getComment
      else throw "XMLParseException::EXPECTED_COMMENT_OR_CDATA"
    else if c =? 91 then
      step ;; expect (txt "CDATA[") ;; set_type CDATA ;; getCData
    else if c =? 68 then
      step ;; expect (txt "OCTYPE") ;; set_type DOCTYPE ;; getDocType
    else throw "XMLParseException::EXPECTED_COMMENT_OR_CDATA"
  else if c =? 47 then
    set_type END_TAG ;;
    step ;;
    b ← getElementName "XMLParseException::BAD_END_TAG";
    if b : bool then mret () else throw "XMLParseException::BAD_END_TAG"
  else if isNameStart c then
    set_type START_TAG ;;
    '(b, openCloseElement) ← getOpenElementName;
    if b : bool then
      when openCloseElement (set_type START_TAG ;; modify (set_tagIsEmpty true))
    else attributes_rest
  else throw "XMLParseException::BAD_START_TAG".

(** ** The next token *)

(** [START_TAG]: a second root is refused; the name is remembered until its end
   tag. *)
Definition open_tag : Prog XMLParser () :=
  p ← get;
  if bool_decide (m_stack p = []) && m_foundRoot p then throw "XMLParseException::MULTIPLE_ROOTS"
  else
    modify (set_foundRoot true) ;;
    when (negb (m_tagIsEmpty p)) (modify (set_stack (text (entry p) :: m_stack p))).

(** [END_TAG]: it must match the last tag that is open. *)
Definition close_tag : Prog XMLParser () :=
  p ← get;
  match m_stack p with
  | [] => throw "XMLParseException::START_END_MISMATCH"
  | name :: rest =>
      if bool_decide (name = text (entry p)) then modify (set_stack rest)
      else throw "XMLParseException::START_END_MISMATCH"
  end.

Definition next : Prog XMLParser bool :=
  p ← get;
  if m_tagIsEmpty p then
    modify (set_tagIsEmpty false) ;; set_type END_TAG ;; set_attributes [] ;; mret true
  else if bool_decide (m_current p = []) || (deref (m_current p) =? 0) then
    if bool_decide (m_stack p = []) then mret false else throw "XMLParseException::UNCLOSED_TAGS"
  else if deref (m_current p) =? 60 then
    skipWhitespace ;;
    step ;;
    getElement ;;
    p ← get;
    match type (entry p) with
    | START_TAG => open_tag
    | END_TAG => close_tag
    | _ => mret ()
    end ;;
    mret true
  else
    set_type CONTENT ;; getContent ;; mret true.
End Core.

(** * The parser ends, and its tags match

   On any input [next] returns or throws, a token it returns has used up input,
   and the start and end tags that it delivers are properly nested. *)

(** [m] returns in a state that satisfies [Q], or throws. *)
Definition safe {S A} (m : Prog S A) (Q : A -> S -> Prop) (s : S) : Prop :=
  match m s with
  | (Ok a, s') => Q a s'
  | (Throw _, _) => True
  | _ => False
  end.

Section Safe.
Context {S : Type}.

Lemma safe_ret {A} (a : A) (Q : A -> S -> Prop) s : Q a s -> safe (mret a) Q s.
Proof. done. Qed.

Lemma safe_throw {A} e (Q : A -> S -> Prop) s : safe (throw e) Q s.
Proof. done. Qed.

Lemma safe_bind {A B} (m : Prog S A) (k : A -> Prog S B) Q s :
  safe m (fun a s' => safe (k a) Q s') s -> safe (m ≫= k) Q s.
Proof. unfold safe, mbind, Prog_bind. by destruct (m s) as [[] s']. Qed.

Lemma safe_mono {A} (m : Prog S A) (Q Q' : A -> S -> Prop) s :
  safe m Q s -> (forall a s', Q a s' -> Q' a s') -> safe m Q' s.
Proof. unfold safe. destruct (m s) as [[] s']; naive_solver. Qed.

Lemma safe_get (Q : S -> S -> Prop) s : Q s s -> safe get Q s.
Proof. done. Qed.

Lemma safe_modify f (Q : () -> S -> Prop) s : Q () (f s) -> safe (modify f) Q s.
Proof. done. Qed.

Lemma safe_when b m (Q : () -> S -> Prop) s :
  (b = true -> safe m Q s) -> (b = false -> Q () s) -> safe (when b m) Q s.
Proof. destruct b; unfold when; intros H1 H2; [by apply H1|by apply H2]. Qed.
End Safe.

Ltac sstep :=
  match goal with
  | |- safe (mbind _ _) _ _ => apply safe_bind
  | |- safe (mret _) _ _ => apply safe_ret
  | |- safe (throw _) _ _ => apply safe_throw
  | |- safe get _ _ => apply safe_get
  | |- safe (modify _) _ _ => apply safe_modify
  | |- safe step _ _ => apply safe_modify
  | |- safe (set_text _) _ _ => apply safe_modify
  | |- safe (set_type _) _ _ => apply safe_modify
  | |- safe (set_attributes _) _ _ => apply safe_modify
  end.

Section Facts.
Context {se : StreamEnd} {sl : StreamEndLaws}.
Implicit Types p q : XMLParser.

(** The input that is left. *)
Abbreviation left p := (length (m_current p)).

(** What no step inside a tag changes but the position and the token. *)
Definition same p q : Prop := m_stack q = m_stack p /\ m_foundRoot q = m_foundRoot p.

(** [q] is behind [p], at least [n] characters. *)
Record on (n : nat) p q : Prop := {
  on_left : (left q + n <= left p)%nat;
  on_same : same p q;
  on_empty : m_tagIsEmpty q = m_tagIsEmpty p;
  on_type : type (entry q) = type (entry p);
  on_attrs : attributes (entry q) = attributes (entry p);
}.

Lemma on_refl p : on 0 p p.
Proof. constructor; [lia|done..]. Qed.

Lemma on_trans n m p q r : on n p q -> on m q r -> on (n + m) p r.
Proof. intros [H1 [H2 H3] H4 H5 H6] [K1 [K2 K3] K4 K5 K6]. constructor; [lia|split; congruence|congruence..]. Qed.

Lemma on_weaken n m p q : (m <= n)%nat -> on n p q -> on m p q.
Proof. intros Hn [H1 H2 H3 H4 H5]. constructor; [lia|done..]. Qed.

(** ** Scanners *)

(** [f] scans every input without looping; what is left is not longer. *)
Definition scans {A} (f : bytes -> outcome (A * Z * bytes)) : Prop :=
  forall l, match f l with
  | Ok (_, _, r) => (length r <= length l)%nat
  | Throw _ => True
  | _ => False
  end.

Lemma deref_nil : deref [] = 0.
Proof. apply eof_nul. Qed.

Lemma incr_length l : (length (incr l) <= length l)%nat.
Proof using. destruct l; simpl; lia. Qed.

Lemma take_while_scans cond : cond 0 = false -> scans (take_while cond).
Proof.
  intros Hc l. induction l as [|c r IH]; simpl; [rewrite eof_nul, Hc; simpl; lia|].
  destruct (cond c); [|simpl; lia]. destruct (take_while cond r) as [[[s n] r']| | |]; simpl in *; try done; lia.
Qed.

Lemma skip_spaces_scans : scans skip_spaces.
Proof.
  intros l. induction l as [|c r IH]; simpl; [rewrite eof_nul; simpl; lia|].
  destruct (isspace c); [|simpl; lia]. destruct (skip_spaces r) as [[[s n] r']| | |]; simpl in *; try done; lia.
Qed.

Lemma comment_scans : scans comment_loop.
Proof.
  intros l. remember (length l) as n eqn:En. revert l En. induction n as [n IH] using lt_wf_ind. intros l ->.
  destruct l as [|c r]; simpl; [by rewrite eof_nul|]. destruct (c =? 0); [done|].
  assert (forall r', (length r' <= length r)%nat ->
    match comment_loop r' with Ok (_, _, x) => (length x <= S (length r))%nat | Throw _ => True | _ => False end) as Hgo.
  { intros r' Hr'. specialize (IH (length r') ltac:(simpl; lia) r' eq_refl).
    destruct (comment_loop r') as [[[? ?] x]| | |]; try done. lia. }
  destruct (c =? 45); [|by apply Hgo]. destruct (deref r =? 45); [|apply Hgo, incr_length].
  destruct (deref (incr r) =? 62); [|done]. pose proof (incr_length r). pose proof (incr_length (incr r)). lia.
Qed.

Lemma cdata_scans : scans cdata_loop.
Proof.
  intros l. remember (length l) as n eqn:En. revert l En. induction n as [n IH] using lt_wf_ind. intros l ->.
  destruct l as [|c r]; simpl; [by rewrite eof_nul|]. destruct (c =? 0); [done|].
  pose proof (incr_length r). pose proof (incr_length (incr r)).
  assert (forall pre x r', (length r' <= length r)%nat ->
    match cdata_char pre x (cdata_loop r') with Ok (_, _, x) => (length x <= S (length r))%nat | Throw _ => True | _ => False end) as Hgo.
  { intros pre x r' Hr'. specialize (IH (length r') ltac:(simpl; lia) r' eq_refl).
    destruct (cdata_loop r') as [[[? ?] y]| | |]; simpl in *; try done. lia. }
  destruct (c =? 93); [|by apply Hgo]. destruct (deref r =? 93); [|apply Hgo; lia].
  destruct (deref (incr r) =? 62); [lia|]. apply Hgo. lia.
Qed.

Lemma doctype_scans k : scans (doctype_loop k).
Proof.
  intros l. revert k. induction l as [|c r IH]; intros k; simpl; [by rewrite eof_nul|].
  destruct (c =? 0); [done|]. destruct (c =? 62).
  - destruct (k =? 1); [lia|]. specialize (IH (k - 1)). destruct (doctype_loop (k - 1) r) as [[[? ?] y]| | |]; try done. lia.
  - specialize (IH (if c =? 60 then k + 1 else k)). destruct (doctype_loop _ r) as [[[? ?] y]| | |]; simpl in *; try done; lia.
Qed.

Lemma content_scans : scans content_loop.
Proof.
  intros l. induction l as [|c r IH]; simpl; [lia|].
  destruct (negb (c =? 0) && negb (c =? 60)); [|simpl; lia].
  destruct (content_loop r) as [[[s n] r']| | |]; simpl in *; try done; lia.
Qed.

Lemma safe_scan {A} (f : bytes -> outcome (A * Z * bytes)) Q p :
  scans f -> (forall a q, on 0 p q -> entry q = entry p -> Q a q) -> safe (scan f) Q p.
Proof.
  intros Hf HQ. unfold safe, scan. specialize (Hf (m_current p)).
  destruct (f (m_current p)) as [[[a n] r]| | |]; try done. apply HQ; [|done]. constructor; simpl; [lia|done..].
Qed.

(** One character is read: the input was not at its end. *)
Lemma incr_on p : deref (m_current p) <> 0 -> on 1 p (set_pos (m_line p) (incr (m_current p)) p).
Proof.
  intros Hc. constructor; simpl; [|done..]. destruct (m_current p) as [|c r]; [|simpl; lia].
  by rewrite deref_nil in Hc.
Qed.

Lemma set_text_on p s : on 0 p (set_entry (mkToken (type (entry p)) s (attributes (entry p))) p).
Proof. constructor; simpl; [lia|done..]. Qed.

Lemma safe_skip Q p : (forall q, on 0 p q -> entry q = entry p -> Q () q) -> safe skipWhitespace Q p.
Proof. intros HQ. apply safe_scan; [apply skip_spaces_scans|]. intros [] q. apply HQ. Qed.

Lemma safe_cur (Q : Z -> XMLParser -> Prop) p : Q (deref (m_current p)) p -> safe cur Q p.
Proof. done. Qed.

(** A name has at least one character. *)
Lemma safe_name Q p :
  isNameStart (deref (m_current p)) = true ->
  (forall s q, on 1 p q -> entry q = entry p -> Q s q) -> safe (scan (take_while isNameChar)) Q p.
Proof.
  intros Hc HQ. unfold safe, scan. pose proof (take_while_scans isNameChar eq_refl) as Hs.
  destruct (m_current p) as [|c r] eqn:E; [by rewrite deref_nil in Hc|]. simpl in *.
  assert (isNameChar c = true) as ->.
  { unfold isNameChar, isalnum. unfold isNameStart in Hc. apply orb_true_iff in Hc as [->| ->]; [done|]. by rewrite orb_true_r. }
  specialize (Hs r). destruct (take_while isNameChar r) as [[[s n] r']| | |]; try done. apply HQ; [|done].
  constructor; simpl; [rewrite E; simpl; lia|done..].
Qed.

(** ** Elements *)

Lemma safe_getElementName code Q p :
  (forall b q, on 1 p q -> Q b q) -> safe (getElementName code) Q p.
Proof.
  intros HQ. unfold getElementName. sstep. apply safe_cur.
  destruct (isNameStart (deref (m_current p))) eqn:Ec; simpl; [|sstep].
  sstep. apply safe_name; [done|]. intros s q1 H1 _. sstep. sstep. sstep. apply safe_skip. intros q2 H2 _.
  assert (on 1 p q2) as H by exact (on_trans 1 0 _ _ _ H1 (on_trans 0 0 _ _ _ (set_text_on q1 s) H2)).
  sstep. apply safe_cur. destruct (deref (m_current q2) =? 62) eqn:E; zbool.
  - sstep. sstep. sstep. apply HQ. apply (on_weaken 2); [lia|]. apply (on_trans 1 1 _ _ _ H), incr_on. lia.
  - sstep. by apply HQ.
Qed.

Lemma safe_getOpenElementName Q p :
  (forall b q, on 1 p q -> Q b q) -> safe getOpenElementName Q p.
Proof.
  intros HQ. unfold getOpenElementName. sstep. apply safe_getElementName. intros b q H. destruct b; [sstep; by apply HQ|].
  sstep. apply safe_cur. destruct (deref (m_current q) =? 47) eqn:E; zbool; [|sstep; by apply HQ].
  sstep. sstep. set (q2 := set_pos _ _ _).
  assert (on 1 p q2) as H2 by (apply (on_weaken 2); [lia|]; apply (on_trans 1 1 _ _ _ H), incr_on; lia).
  sstep. apply safe_cur. destruct (deref (m_current q2) =? 62) eqn:E2; zbool; [|sstep; by apply HQ].
  sstep. sstep. sstep. apply HQ. apply (on_weaken 2); [lia|]. apply (on_trans 1 1 _ _ _ H2), incr_on. lia.
Qed.

Lemma safe_getAttributeNameAndEqual Q p :
  (forall s q, on 1 p q -> entry q = entry p -> Q s q) -> safe getAttributeNameAndEqual Q p.
Proof.
  intros HQ. unfold getAttributeNameAndEqual. sstep. apply safe_cur.
  destruct (isNameStart (deref (m_current p))) eqn:Ec; simpl; [|sstep].
  sstep. apply safe_name; [done|]. intros s q1 H1 E1. sstep. apply safe_skip. intros q2 H2 E2.
  sstep. apply safe_cur. destruct (deref (m_current q2) =? 61) eqn:E; zbool; simpl; [|sstep].
  sstep. sstep. sstep. apply safe_skip. intros q3 H3 E3. sstep. apply HQ; [|simpl in E3; congruence].
  apply (on_weaken 2); [lia|]. refine (on_trans 1 1 _ _ _ H1 (on_trans 0 1 _ _ _ H2 (on_trans 1 0 _ _ _ (incr_on q2 _) H3))). lia.
Qed.

Lemma safe_getAttributeValue Q p :
  (forall s q, on 1 p q -> entry q = entry p -> Q s q) -> safe getAttributeValue Q p.
Proof.
  intros HQ. unfold getAttributeValue. sstep. apply safe_cur.
  destruct (negb (deref (m_current p) =? 34) && negb (deref (m_current p) =? 39)) eqn:Ec; [sstep|].
  assert (deref (m_current p) <> 0) as Hc.
  { intros E. rewrite E in Ec. done. }
  sstep. sstep. sstep. apply safe_scan; [by apply take_while_scans|]. intros s q H1 E1. sstep. apply safe_cur.
  destruct (deref (m_current q) =? deref (m_current p)) eqn:E; zbool; simpl; [|sstep].
  sstep. sstep. sstep. apply HQ; [|done]. apply (on_weaken 2); [lia|].
  refine (on_trans 1 1 _ _ _ (incr_on p Hc) (on_trans 0 1 _ _ _ H1 (incr_on q _))). by rewrite E.
Qed.

(** Inside a tag: only an empty start tag is remembered as one. *)
Record inside (n : nat) p q : Prop := {
  in_left : (left q + n <= left p)%nat;
  in_same : same p q;
  in_type : type (entry q) = type (entry p);
  in_text : text (entry q) = text (entry p);
  in_empty : m_tagIsEmpty q = m_tagIsEmpty p \/ type (entry p) = START_TAG /\ m_tagIsEmpty q = true;
}.

Lemma on_inside n p q : on n p q -> entry q = entry p -> inside n p q.
Proof. intros [] E. constructor; [done..| |by left]. by rewrite E. Qed.

Lemma inside_trans n m p q r : inside n p q -> inside m q r -> inside (n + m) p r.
Proof.
  intros [H1 [H2 H3] H4 H5 H6] [K1 [K2 K3] K4 K5 K6]. constructor; [lia|split; congruence|congruence|congruence|].
  destruct K6 as [K6|[K6 K7]]; [rewrite K6; destruct H6 as [|[]]; tauto|]. right. split; congruence.
Qed.

Lemma inside_weaken n m p q : (m <= n)%nat -> inside n p q -> inside m p q.
Proof. intros Hn []. constructor; [lia|done..]. Qed.

Lemma safe_attribute_step p : safe attribute_step (fun _ q => inside 1 p q) p.
Proof.
  unfold attribute_step. sstep. apply safe_skip. intros q H E. sstep. sstep. sstep. apply safe_cur. cbv zeta.
  assert (inside 0 p q) as Hi by (by apply on_inside).
  assert (safe (n ← getAttributeNameAndEqual; v ← getAttributeValue; p ← get;
    set_attributes (attributes (entry p) ++ [mkAttribute n v]) ;; mret false) (fun _ q => inside 1 p q) q) as Hattr.
  { sstep. apply safe_getAttributeNameAndEqual. intros n q1 H1 E1. sstep. apply safe_getAttributeValue.
    intros v q2 H2 E2. sstep. sstep. sstep. sstep. sstep. apply (inside_trans 0 1 _ _ _ Hi).
    apply (inside_weaken 2); [lia|]. pose proof (on_inside _ _ _ (on_trans 1 1 _ _ _ H1 H2) ltac:(congruence)) as [].
    by constructor. }
  assert (forall q', inside 0 p q' -> deref (m_current q') = 62 ->
    inside 1 p (set_pos (m_line q') (incr (m_current q')) q')) as Hend.
  { intros q' H' E'. apply (inside_trans 0 1 _ _ _ H'), on_inside; [|done]. apply incr_on. lia. }
  case_bool_decide as Et.
  - destruct (deref (m_current q) =? 63) eqn:E3; zbool; [|done]. sstep. sstep. sstep. apply safe_cur.
    set (q2 := set_pos _ _ _). destruct (deref (m_current q2) =? 62) eqn:E4; zbool; [|sstep].
    sstep. sstep. sstep. apply Hend; [|done]. apply (inside_weaken 1); [lia|].
    apply (inside_trans 0 1 _ _ _ Hi), on_inside; [|done]. apply incr_on. lia.
  - destruct (bool_decide (type (entry q) = START_TAG) && (deref (m_current q) =? 47)) eqn:E3.
    + apply andb_true_iff in E3 as [Es E3]. apply bool_decide_eq_true in Es. zbool.
      sstep. sstep. sstep. apply safe_cur. set (q2 := set_pos _ _ _).
      destruct (deref (m_current q2) =? 62) eqn:E4; zbool; [|sstep].
      sstep. sstep. sstep. sstep. sstep. sstep. sstep.
      assert (inside 1 p q2) as [K1 K2 K3 K4 K5].
      { apply (inside_trans 0 1 _ _ _ Hi), on_inside; [|done]. apply incr_on. lia. }
      constructor; simpl; [|done| |done|].
      * pose proof (incr_length (m_current q2)). simpl in *. lia.
      * by rewrite <- (in_type _ _ _ Hi).
      * right. split; [|done]. by rewrite <- (in_type _ _ _ Hi).
    + destruct (deref (m_current q) =? 62) eqn:E4; zbool; [|done]. sstep. sstep. sstep. by apply Hend.
Qed.

Lemma safe_attribute_loop fuel : forall p, (left p < fuel)%nat -> safe (attribute_loop fuel) (fun _ q => inside 1 p q) p.
Proof.
  induction fuel as [|fuel IH]; intros p Hf; [lia|]. simpl. sstep.
  eapply safe_mono; [apply safe_attribute_step|]. intros b q H. destruct b; [by sstep|].
  eapply safe_mono; [apply IH; destruct H; lia|]. intros [] r H'. apply (inside_weaken 2); [lia|]. by apply (inside_trans 1 1 _ q).
Qed.

(** ** Nesting *)

(** The tags that are open as the caller sees it: an empty tag is open until
   its end has been delivered. *)
Definition vstack p : list bytes := if m_tagIsEmpty p then text (entry p) :: m_stack p else m_stack p.

(** What a token does to them. *)
Definition track (st : list bytes) (t : XMLToken) : option (list bytes) :=
  match type t with
  | START_TAG => Some (text t :: st)
  | END_TAG => match st with n :: st => if bool_decide (n = text t) then Some st else None | [] => None end
  | _ => Some st
  end.

(** The input that is left, and the end of an empty tag. *)
Definition pending p : nat := 2 * left p + (if m_tagIsEmpty p then 1 else 0).

(** Behind [p] in the same tag, whatever the token says. *)
Definition aft p q : Prop := same p q /\ (left q <= left p)%nat /\ m_tagIsEmpty q = false.

Lemma aft_on n p q r : aft p q -> on n q r -> aft p r.
Proof. intros ([] & ? & ?) [? [] ? _ _]. split_and!; [split; congruence|lia|congruence]. Qed.

Lemma aft_entry p q e : aft p q -> aft p (set_entry e q).
Proof. done. Qed.

Lemma aft_step p q : aft p q -> aft p (set_pos (m_line q) (incr (m_current q)) q).
Proof. intros (Hs & Hl & He). split_and!; [done| |done]. simpl. pose proof (incr_length (m_current q)). lia. Qed.

Lemma safe_scan_aft {A} (f : bytes -> outcome (A * Z * bytes)) (Q : A -> XMLParser -> Prop) p q :
  aft p q -> scans f -> (forall a r, aft p r -> Q a r) -> safe (scan f) Q q.
Proof. intros Ha Hf HQ. apply safe_scan; [done|]. intros a r Hr _. apply HQ. by eapply aft_on. Qed.

Lemma safe_expect s Q p q : aft p q -> (forall r, aft p r -> Q () r) -> safe (expect s) Q q.
Proof.
  revert q. induction s as [|k s IH]; intros q Ha HQ; simpl; [sstep; by apply HQ|].
  sstep. apply safe_cur. sstep. sstep. destruct (negb _); [sstep|]. apply IH; [by apply aft_step|done].
Qed.

(** Behind the [<] of a tag. *)
Definition element_post p (_ : ()) q : Prop :=
  same p q /\ (left q <= left p)%nat /\ (m_tagIsEmpty q = true -> type (entry q) = START_TAG).

Lemma aft_post p q : aft p q -> element_post p () q.
Proof. intros (? & ? & E). split_and!; [done..|]. by rewrite E. Qed.

Lemma safe_attributes_rest p q : aft p q -> safe attributes_rest (element_post p) q.
Proof.
  intros ([Q1 Q2] & Hq & Eq). unfold attributes_rest. sstep. sstep. eapply safe_mono; [apply safe_attribute_loop; lia|].
  intros [] r [H1 [H2 H3] H4 H5 H6]. split_and!; [split; congruence|lia|]. intros Et.
  destruct H6 as [H6|[H6 _]]; congruence.
Qed.

Lemma safe_markup p q : aft p q ->
  safe (c ← cur;
    if c =? 45 then
      step ;; c ← cur;
      if c =? 45 then step ;; set_type COMMENT ;; getComment
      else throw "XMLParseException::EXPECTED_COMMENT_OR_CDATA"
    else if c =? 91 then step ;; expect (txt "CDATA[") ;; set_type CDATA ;; getCData
    else if c =? 68 then step ;; expect (txt "OCTYPE") ;; set_type DOCTYPE ;; getDocType
    else throw "XMLParseException::EXPECTED_COMMENT_OR_CDATA") (element_post p) q.
Proof.
  intros Ha. sstep. apply safe_cur. destruct (_ =? 45).
  - do 3 sstep. apply safe_cur. destruct (_ =? 45); [|sstep]. do 4 sstep.
    eapply safe_scan_aft; [|apply comment_scans|intros [] r; apply aft_post]. by do 2 apply aft_step.
  - destruct (_ =? 91).
    + do 3 sstep. eapply safe_expect; [by apply aft_step|]. intros r Hr. do 2 sstep. unfold getCData. sstep.
      eapply safe_scan_aft; [by apply aft_entry|apply cdata_scans|]. intros s r' Hr'. sstep. by apply aft_post.
    + destruct (_ =? 68); [|sstep]. do 3 sstep. eapply safe_expect; [by apply aft_step|]. intros r Hr. do 2 sstep.
      eapply safe_scan_aft; [by apply aft_entry|apply doctype_scans|intros [] r'; apply aft_post].
Qed.

Lemma safe_getElement p : m_tagIsEmpty p = false -> safe getElement (element_post p) p.
Proof.
  intros Hp. unfold getElement. do 4 sstep. set (p1 := set_entry _ _). assert (aft p p1) as H1 by (split_and!; [done|simpl; lia|done]).
  clearbody p1. sstep. apply safe_cur. destruct (_ =? 63).
  { do 5 sstep. apply safe_getElementName. intros b q Hq.
    assert (aft p q) as H2 by (eapply aft_on; [|exact Hq]; by apply aft_step). destruct b.
    - sstep. by apply aft_post.
    - by apply safe_attributes_rest. }
  destruct (_ =? 33).
  { do 2 sstep. apply safe_markup. by apply aft_step. }
  destruct (_ =? 47).
  { do 5 sstep. apply safe_getElementName. intros b q Hq.
    assert (aft p q) as H2 by (eapply aft_on; [|exact Hq]; by apply aft_step). destruct b; [|sstep].
    sstep. by apply aft_post. }
  destruct (isNameStart _); [|sstep]. do 3 sstep. apply safe_getOpenElementName. intros [b oc] q Hq.
  assert (aft p q) as H2 by (eapply aft_on; [|exact Hq]; done). destruct b; [|by apply safe_attributes_rest].
  apply safe_when; intros Eoc; [|by apply aft_post]. do 3 sstep. destruct H2 as (? & ? & ?). by split_and!.
Qed.

(** ** Tokens *)

(** What [next] does with the token of a tag. *)
Lemma safe_token p q :
  (pending q < pending p)%nat -> (m_tagIsEmpty q = true -> type (entry q) = START_TAG) -> m_stack q = vstack p ->
  safe (match type (entry q) with START_TAG => open_tag | END_TAG => close_tag | _ => mret () end)
    (fun _ r => safe (mret true) (fun b r => if b : bool
      then (pending r < pending p)%nat /\ track (vstack p) (entry r) = Some (vstack r)
      else r = p /\ vstack p = []) r) q.
Proof.
  intros Hp He Hs. destruct (type (entry q)) eqn:Et.
  all: try (destruct (m_tagIsEmpty q) eqn:Em; [by specialize (He eq_refl)|]; sstep; sstep;
    unfold track, vstack; rewrite Et, Em; by rewrite Hs).
  - unfold open_tag. do 2 sstep. destruct (_ && _); [sstep|]. do 2 sstep. apply safe_when; intros Em; zbool; repeat sstep.
    + unfold pending, track, vstack in *. simpl. rewrite Et, Em, Hs in *. done.
    + unfold pending, track, vstack in *. simpl. rewrite Et, Em, Hs in *. done.
  - destruct (m_tagIsEmpty q) eqn:Em; [by specialize (He eq_refl)|]. unfold close_tag. do 2 sstep.
    destruct (m_stack q) as [|n st] eqn:Est; [sstep|]. destruct (bool_decide (n = text (entry q))) eqn:En; [|sstep].
    repeat sstep. unfold pending, track, vstack in *. simpl. rewrite Et, Em in *. rewrite <- Hs, En. done.
Qed.

Lemma safe_next p :
  safe next (fun b q => if b : bool
    then (pending q < pending p)%nat /\ track (vstack p) (entry q) = Some (vstack q)
    else q = p /\ vstack p = []) p.
Proof.
  unfold next. do 2 sstep. destruct (m_tagIsEmpty p) eqn:Ee.
  { do 7 sstep. unfold pending, track, vstack. simpl. rewrite Ee. split; [lia|]. by rewrite bool_decide_true. }
  assert (vstack p = m_stack p) as Ev by (unfold vstack; by rewrite Ee).
  assert (pending p = 2 * left p)%nat as Ep by (unfold pending; rewrite Ee; lia).
  destruct (bool_decide (m_current p = []) || (deref (m_current p) =? 0)) eqn:Ed.
  { destruct (bool_decide (m_stack p = [])) eqn:Es; [|sstep]. apply bool_decide_eq_true in Es. sstep. by rewrite Ev. }
  apply orb_false_iff in Ed as [Ed E0]. apply bool_decide_eq_false in Ed. zbool.
  destruct (deref (m_current p) =? 60) eqn:E1; zbool.
  - destruct (m_current p) as [|c r] eqn:Ec; [done|]. simpl in E1. subst c.
    sstep. unfold safe at 1, skipWhitespace, scan. rewrite Ec. simpl. do 2 sstep.
    set (p1 := set_pos _ _ _).
    assert (m_tagIsEmpty p1 = false /\ same p p1 /\ m_current p1 = r) as (Ee1 & Hs1 & Ec1) by done. clearbody p1.
    sstep. eapply safe_mono; [by apply safe_getElement|]. intros [] q (Hsq & Hlq & Heq). rewrite Ec1 in Hlq.
    assert (m_stack q = m_stack p) as Eq by (destruct Hsq, Hs1; congruence).
    assert (pending q < pending p)%nat as Hpq.
    { unfold pending. rewrite Ee, Ec. simpl. destruct (m_tagIsEmpty q); lia. }
    do 3 sstep. apply (safe_token p q); [done|done|congruence].
  - sstep. sstep. sstep. unfold getContent. sstep.
    destruct (m_current p) as [|c r] eqn:Ec; [done|]. simpl in E0, E1.
    unfold safe, scan. simpl. rewrite Ec. simpl. replace (c =? 0) with false by (symmetry; by apply Z.eqb_neq).
    replace (c =? 60) with false by (symmetry; by apply Z.eqb_neq). simpl.
    pose proof (content_scans r) as Hs. destruct (content_loop r) as [[[s n] r']| | |]; try done.
    unfold pending, track, vstack. simpl. rewrite Ee, Ec. simpl. split; [lia|done].
Qed.
End Facts.
