(* ===== verification/XmlDom.v ===== *)
(** * Documents: SAX events, the DOM and printing

   [XMLParserSAX::parse] (src/src/xml/OW_XMLParserSAX.cpp) turns tokens into
   calls of a document handler; [DOMDocumentBuilder] (OW_XMLParserDOM.cpp) is
   the handler that builds [XMLNode]s (OW_XMLNode.cpp), which are objects on a
   heap linked by reference: a node knows its first and its last child and the
   node next to it.  [printNode] writes a node as XML. *)

From S2P Require Import Prelude XmlText XmlParser.

(** ** SAX *)

(** [SAXDocumentHandler] over the state [H]. *)
Class SAXDocumentHandler (H : Type) : Type := {
  startDocument : H -> outcome H;
  endDocument : H -> outcome H;
  startElement : XMLToken -> H -> outcome H;
  endElement : bytes -> H -> outcome H;
  characters : bytes -> H -> outcome H;
}.

(** [XMLUnescape] of every attribute value. *)
Fixpoint unescape_attributes (l : list Attribute) : outcome (list Attribute) :=
  match l with
  | [] => mret []
  | a :: l =>
      v ← XMLUnescape (at_value a);
      l ← unescape_attributes l;
      mret (mkAttribute (at_name a) v :: l)
  end.

Section Sax.
Context {se : StreamEnd}.
Context {H : Type} {hd : SAXDocumentHandler H}.

(** What the handler is told of a token. *)
Definition sax_event (e : XMLToken) (h : H) : outcome H :=
  match type e with
  | START_TAG => l ← unescape_attributes (attributes e); startElement (mkToken (type e) (text e) l) h
  | END_TAG => n ← XMLUnescape (text e); endElement n h
  | CDATA => characters (text e) h
  | CONTENT => s ← XMLUnescape (text e); characters s h
  | INVALID | XML_DECLARATION | COMMENT | DOCTYPE => mret h
  end.

(** [while (parser.next(entry))] *)
Fixpoint sax_loop (fuel : nat) (p : XMLParser) (h : H) : outcome H :=
  match fuel with
  | O => Diverge
  | S fuel =>
      match next p with
      | (Ok true, p) => h ← sax_event (entry p) h; sax_loop fuel p h
      | (Ok false, _) => mret h
      | (Throw e, _) => Throw e
      | (Crash, _) => Crash
      | (Diverge, _) => Diverge
      end
  end.

(** [fatalError]: the exception that the error handler makes of the parser's;
   the handlers of the sources throw. *)
Definition sax_parse (fatalError : string -> string) (input : bytes) (h : H) : outcome H :=
  h ← startDocument h;
  match sax_loop (S (2 * length input)) (newParser input) h with
  | Throw e => Throw (fatalError e)
  | o => h ← o; endDocument h
  end.
End Sax.

(** ** Nodes *)

(** [XMLNodeImpl]; references are positions on the heap. *)
Record XMLNodeImpl := mkNode {
  m_nextNode : option nat;
  m_childNode : option nat;
  m_lastChildNode : option nat;
  m_XMLAttributeArray : list Attribute;
  m_strName : bytes;
  m_strText : bytes;
}.

Definition newXMLNode (name : bytes) (attrs : list Attribute) : XMLNodeImpl := mkNode None None None attrs name [].

Definition set_next (o : option nat) (n : XMLNodeImpl) : XMLNodeImpl :=
  mkNode o (m_childNode n) (m_lastChildNode n) (m_XMLAttributeArray n) (m_strName n) (m_strText n).
Definition set_children (c l : option nat) (n : XMLNodeImpl) : XMLNodeImpl :=
  mkNode (m_nextNode n) c l (m_XMLAttributeArray n) (m_strName n) (m_strText n).
Definition appendText (s : bytes) (n : XMLNodeImpl) : XMLNodeImpl :=
  mkNode (m_nextNode n) (m_childNode n) (m_lastChildNode n) (m_XMLAttributeArray n) (m_strName n) (m_strText n ++ s).

Abbreviation Heap := (list XMLNodeImpl).

(** [XMLNodeImpl::addChild] *)
Definition addChild (parent node : nat) (h : Heap) : outcome Heap :=
  match h !! parent with
  | None => Crash
  | Some p =>
      match m_childNode p, m_lastChildNode p with
      | None, _ => Ok (<[parent := set_children (Some node) (Some node) p]> h)
      | Some c, Some l =>
          match h !! l with
          | None => Crash
          | Some _ =>
              let h := alter (set_next (Some node)) l h in
              Ok (alter (set_children (Some c) (Some node)) parent h)
          end
      | Some _, None => Crash
      end
  end.

(** [DOMDocumentBuilder]; the last element of m_nodeArray comes first. *)
Record DOMDocumentBuilder := mkBuilder {
  b_heap : Heap;
  m_topNode : option nat;
  m_nodeArray : list nat;
}.

Definition newBuilder : DOMDocumentBuilder := mkBuilder [] None [].

Definition dom_startElement (e : XMLToken) (b : DOMDocumentBuilder) : outcome DOMDocumentBuilder :=
  let i := length (b_heap b) in
  let h := b_heap b ++ [newXMLNode (text e) (attributes e)] in
  let top := match m_topNode b with Some t => Some t | None => Some i end in
  match m_nodeArray b with
  | [] => Ok (mkBuilder h top [i])
  | p :: st => h ← addChild p i h; Ok (mkBuilder h top (i :: p :: st))
  end.

(** [m_nodeArray.pop_back()] of an empty array is undefined. *)
Definition dom_endElement (_ : bytes) (b : DOMDocumentBuilder) : outcome DOMDocumentBuilder :=
  match m_nodeArray b with
  | [] => Crash
  | _ :: st => Ok (mkBuilder (b_heap b) (m_topNode b) st)
  end.

Definition dom_characters (s : bytes) (b : DOMDocumentBuilder) : outcome DOMDocumentBuilder :=
  match m_nodeArray b with
  | [] => Ok b
  | i :: _ => Ok (mkBuilder (alter (appendText s) i (b_heap b)) (m_topNode b) (m_nodeArray b))
  end.

#[export] Instance DOM : SAXDocumentHandler DOMDocumentBuilder := {|
  startDocument := Ok; endDocument := Ok;
  startElement := dom_startElement; endElement := dom_endElement; characters := dom_characters |}.

(** [XMLParserDOM::parse]: the heap and the top node. *)
Definition dom_parse {se : StreamEnd} (input : bytes) : outcome (Heap * nat) :=
  b ← sax_parse (fun _ => "DOMException: Fatal error in XML") input newBuilder;
  match m_topNode b with
  | Some i => Ok (b_heap b, i)
  | None => Throw "DOMException: No document found"
  end.

(** ** Printing *)

Fixpoint print_attributes (l : list Attribute) : outcome bytes :=
  match l with
  | [] => mret []
  | a :: l =>
      v ← XMLEscape (at_value a);
      r ← print_attributes l;
      mret ([32] ++ at_name a ++ [61; 34] ++ v ++ [34] ++ r)
  end.

(** [printNode] of one node, given how its children are printed. *)
Definition print_one (children : option nat -> outcome bytes) (n : XMLNodeImpl) : outcome bytes :=
  a ← print_attributes (m_XMLAttributeArray n);
  let start := [60] ++ m_strName n ++ a in
  if bool_decide (m_strText n = []) && bool_decide (m_childNode n = None) then mret (start ++ [47; 62])
  else
    t ← XMLEscape (m_strText n);
    cs ← children (m_childNode n);
    mret (start ++ [62] ++ t ++ cs ++ [60; 47] ++ m_strName n ++ [62]).

(** A node and the ones next to it. *)
Fixpoint printNodes (fuel : nat) (h : Heap) (o : option nat) : outcome bytes :=
  match o with
  | None => mret []
  | Some i =>
      match fuel with
      | O => Diverge
      | S fuel =>
          n ← present (h !! i);
          s ← print_one (printNodes fuel h) n;
          r ← printNodes fuel h (m_nextNode n);
          mret (s ++ r)
      end
  end.

Definition printNode (fuel : nat) (h : Heap) (i : nat) : outcome bytes :=
  n ← present (h !! i); print_one (printNodes fuel h) n.

(** ** Trees *)

Inductive XTree := XNode (name : bytes) (attrs : list Attribute) (t : bytes) (children : list XTree).

(** The nodes from [o] on, with what is below them, are the trees. *)
Inductive reps (h : Heap) : option nat -> list XTree -> Prop :=
| reps_nil : reps h None []
| reps_cons i n cs ts :
    h !! i = Some n -> reps h (m_childNode n) cs -> reps h (m_nextNode n) ts ->
    reps h (Some i) (XNode (m_strName n) (m_XMLAttributeArray n) (m_strText n) cs :: ts).

(** Names as the parser accepts them; text that escaping does not change. *)
Definition name_ok (n : bytes) : bool :=
  match n with c :: _ => isNameStart c && forallb isNameChar n | [] => false end.
Definition attr_ok (a : Attribute) : bool := name_ok (at_name a) && clean (at_value a).
Fixpoint tree_ok (t : XTree) : bool :=
  let 'XNode n a s cs := t in name_ok n && forallb attr_ok a && clean s && forallb tree_ok cs.

(** * Every input is a document or an error

   The builder follows the parser: it has one open node for every tag that is
   open, so that it never takes a node from an empty stack, and its references
   stay on the heap.  Parsing therefore ends in a document or an exception. *)

(** [o] is a value that satisfies [P], or an exception. *)
Definition fine {A} (o : outcome A) (P : A -> Prop) : Prop :=
  match o with Ok a => P a | Throw _ => True | _ => False end.

Lemma fine_bind {A B} (o : outcome A) (k : A -> outcome B) P : fine o (fun a => fine (k a) P) -> fine (o ≫= k) P.
Proof. by destruct o. Qed.

Lemma fine_mono {A} (o : outcome A) (P Q : A -> Prop) : fine o P -> (forall a, P a -> Q a) -> fine o Q.
Proof. destruct o; simpl; auto. Qed.

(** ** Unescaping *)

Lemma fine_emit pre o P : fine o (fun t => P (pre ++ t)) -> fine (emit pre o) P.
Proof. by destruct o. Qed.

Lemma reference_fine l o r : reference l = Some (o, r) -> fine o (fun _ => True).
Proof. unfold reference. intros H. repeat (case_match; simplify_eq; try done). Qed.

Lemma XMLUnescape_fine l : fine (XMLUnescape l) (fun _ => True).
Proof.
  remember (length l) as n eqn:En. revert l En. induction n as [n IH] using lt_wf_ind. intros l ->.
  rewrite XMLUnescape_step. destruct l as [|c r]; [done|]. destruct (c =? 0); [done|].
  assert (forall pre r', (length r' <= length r)%nat -> fine (emit pre (XMLUnescape r')) (fun _ => True)) as Hgo.
  { intros pre r' Hr. apply fine_emit, (IH (length r')); [simpl; lia|done]. }
  destruct (c =? 38); [|by apply Hgo]. destruct (reference r) as [[o r']|] eqn:E; [|by apply Hgo].
  pose proof (reference_fine _ _ _ E). apply reference_length in E. destruct o; try done. by apply Hgo.
Qed.

Lemma unescape_attributes_fine l : fine (unescape_attributes l) (fun _ => True).
Proof.
  induction l as [|a l IH]; [done|]. simpl. apply fine_bind. eapply fine_mono; [apply XMLUnescape_fine|]. intros v _.
  apply fine_bind. eapply fine_mono; [apply IH|]. done.
Qed.

(** ** The builder *)

(** A reference to a node of the heap. *)
Definition valid (h : Heap) (o : option nat) : Prop := forall i, o = Some i -> (i < length h)%nat.

Record node_ok (h : Heap) (n : XMLNodeImpl) : Prop := {
  nk_child : valid h (m_childNode n);
  nk_last : valid h (m_lastChildNode n);
  nk_next : valid h (m_nextNode n);
  nk_both : m_childNode n = None <-> m_lastChildNode n = None;
}.

Record builder_ok (b : DOMDocumentBuilder) : Prop := {
  bo_nodes : Forall (node_ok (b_heap b)) (b_heap b);
  bo_top : valid (b_heap b) (m_topNode b);
  bo_stack : Forall (fun i => (i < length (b_heap b))%nat) (m_nodeArray b);
}.

Lemma valid_le h h' o : (length h <= length h')%nat -> valid h o -> valid h' o.
Proof. intros Hl Hv i E. specialize (Hv i E). lia. Qed.

Lemma node_ok_le h h' n : (length h <= length h')%nat -> node_ok h n -> node_ok h' n.
Proof. intros Hl []. constructor; [by eapply valid_le..|done]. Qed.

Lemma alter_ok h f i :
  Forall (node_ok h) h -> (forall n, node_ok h n -> node_ok h (f n)) -> Forall (node_ok (alter f i h)) (alter f i h).
Proof.
  intros Hh Hf. apply Forall_lookup. intros j n. rewrite list_lookup_alter. intros Hj.
  apply (node_ok_le h); [by rewrite length_alter|]. rewrite Forall_lookup in Hh. case_decide; [|by eapply Hh].
  apply fmap_Some in Hj as (n0 & Hn0 & ->). eauto.
Qed.

Lemma push_ok h name attrs :
  Forall (node_ok h) h -> Forall (node_ok (h ++ [newXMLNode name attrs])) (h ++ [newXMLNode name attrs]).
Proof.
  intros Hh. apply Forall_app. split.
  - eapply Forall_impl; [exact Hh|]. simpl. intros n. apply node_ok_le. rewrite length_app. lia.
  - constructor; [|done]. by constructor.
Qed.

Lemma addChild_ok h p i :
  Forall (node_ok h) h -> (p < length h)%nat -> (i < length h)%nat ->
  exists h', addChild p i h = Ok h' /\ length h' = length h /\ Forall (node_ok h') h'.
Proof.
  intros Hh Hp Hi. unfold addChild. apply lookup_lt_is_Some_2 in Hp as [n Hn].
  pose proof Hh as Hh'. rewrite Forall_lookup in Hh'. pose proof (Hh' _ _ Hn) as Hk.
  assert (forall c, valid h (Some c) -> forall x, node_ok h x -> node_ok h (set_children (Some c) (Some i) x)) as Hset.
  { intros c Hc x []. constructor; [done|by intros j [= <-]|done|done]. }
  rewrite Hn. destruct (m_childNode n) as [c|] eqn:Ec.
  - destruct (m_lastChildNode n) as [l|] eqn:El; [|apply (nk_both _ _ Hk) in El; congruence].
    assert (l < length h)%nat as Hl by (by apply (nk_last _ _ Hk)). apply lookup_lt_is_Some_2 in Hl as [nl ->].
    eexists. split; [done|]. rewrite !length_alter. split; [done|].
    set (h1 := alter (set_next (Some i)) l h).
    assert (length h1 = length h) as El1 by apply length_alter.
    assert (Forall (node_ok h1) h1) as Hh1.
    { apply alter_ok; [done|]. intros x []. constructor; [done|done|by intros j [= <-]|done]. }
    apply alter_ok; [done|]. intros x Hx. apply (node_ok_le h); [lia|]. apply Hset; [|by eapply node_ok_le; [|exact Hx]; lia].
    rewrite <- Ec. apply Hk.
  - eexists. split; [done|]. rewrite length_insert. split; [done|].
    apply Forall_lookup. intros j x Hj. apply (node_ok_le h); [by rewrite length_insert|].
    apply list_lookup_insert_Some in Hj as [(-> & <- & _)|[_ Hj]]; [|by eapply Hh'].
    apply Hset; [by intros k [= <-]|done].
Qed.

(** ** One event *)

Lemma sax_event_fine st st' e b :
  track st e = Some st' -> builder_ok b -> length (m_nodeArray b) = length st ->
  fine (sax_event e b) (fun b' => builder_ok b' /\ length (m_nodeArray b') = length st').
Proof.
  intros Ht Hb Hl. pose proof Hb as [Hn Htop Hst]. unfold sax_event. unfold track in Ht.
  assert (forall s, fine (characters s b) (fun b' => builder_ok b' /\ length (m_nodeArray b') = length st)) as Hchars.
  { intros s. simpl. unfold dom_characters. destruct (m_nodeArray b) as [|i r] eqn:Er; simpl; [by rewrite Er|]. split; [|done].
    constructor; simpl.
    - apply alter_ok; [done|]. by intros n [].
    - eapply valid_le; [|done]. by rewrite length_alter.
    - by rewrite length_alter. }
  destruct (type e) eqn:Et; simplify_eq; try done.
  - apply fine_bind. eapply fine_mono; [apply unescape_attributes_fine|]. intros l _. simpl. unfold dom_startElement. simpl.
    set (h := b_heap b ++ _). assert (length h = S (length (b_heap b))) as Eh by (unfold h; rewrite length_app; simpl; lia).
    assert (Forall (node_ok h) h) as Hh by (by apply push_ok).
    assert (valid h (match m_topNode b with Some t => Some t | None => Some (length (b_heap b)) end)) as Hv.
    { destruct (m_topNode b) as [t|]; [eapply valid_le; [|done]; lia|]. intros j [= <-]. lia. }
    assert (Forall (fun i => (i < length h)%nat) (m_nodeArray b)) as Hst'.
    { eapply Forall_impl; [exact Hst|]. simpl. intros; lia. }
    destruct (m_nodeArray b) as [|p r] eqn:Er; simpl.
    + split; [|simpl in *; congruence]. constructor; simpl; [done..|]. constructor; [lia|done].
    + destruct (addChild_ok h p (length (b_heap b)) Hh) as (h' & -> & Eh' & Hh').
      * by apply Forall_cons in Hst' as [? _].
      * lia.
      * simpl. split; [|simpl in *; congruence]. constructor; simpl; [done|eapply valid_le; [|exact Hv]; lia|].
        rewrite Eh'. constructor; [lia|done].
  - destruct st as [|n st]; [done|]. destruct (bool_decide _); simplify_eq.
    apply fine_bind. eapply fine_mono; [apply XMLUnescape_fine|]. intros s _. simpl. unfold dom_endElement.
    destruct (m_nodeArray b) as [|i r] eqn:Er; [done|]. simpl in *. split; [|congruence].
    constructor; simpl; [done..|]. by apply Forall_cons in Hst as [_ ?].
  - apply fine_bind. eapply fine_mono; [apply XMLUnescape_fine|]. intros s _. apply Hchars.
Qed.

Section Total.
Context {se : StreamEnd} {sl : StreamEndLaws}.

Lemma sax_loop_fine fuel : forall p b,
  (pending p < fuel)%nat -> builder_ok b -> length (m_nodeArray b) = length (vstack p) ->
  fine (sax_loop fuel p b) (fun b' => builder_ok b' /\ m_nodeArray b' = []).
Proof.
  induction fuel as [|fuel IH]; intros p b Hf Hb Hl; [lia|]. simpl. pose proof (safe_next p) as Hs. unfold safe in Hs.
  destruct (next p) as [[[]| | |] q]; try done.
  - destruct Hs as [Hp Ht]. apply fine_bind. eapply fine_mono; [by eapply sax_event_fine|]. intros b' [Hb' Hl'].
    apply IH; [lia|done..].
  - destruct Hs as [-> Ev]. split; [done|]. rewrite Ev in Hl. by apply nil_length_inv.
Qed.

Lemma dom_parse_fine input :
  fine (dom_parse input) (fun hi => Forall (node_ok hi.1) hi.1 /\ (hi.2 < length hi.1)%nat).
Proof.
  unfold dom_parse. apply fine_bind. unfold sax_parse.
  pose proof (sax_loop_fine (S (2 * length input)) (newParser input) newBuilder) as Hf.
  assert (builder_ok newBuilder) as Hb by (constructor; simpl; [constructor|by intros i|constructor]).
  specialize (Hf ltac:(unfold pending; simpl; lia) Hb eq_refl). change (startDocument newBuilder) with (Ok newBuilder).
  unfold mbind at 1, outcome_bind at 1. set (o := sax_loop _ _ newBuilder) in *. clearbody o.
  destruct o as [b| | |]; try done. destruct Hf as [[Hn Ht _] _].
  simpl. destruct (m_topNode b) as [i|] eqn:E; simpl; [|done]. split; [done|]. by apply Ht.
Qed.
End Total.
