(* ===== verification/XmlPrint.v ===== *)
(** * Reading what was printed: the events

   The parser, given a printed tree, tells a document handler exactly the
   tree: its elements with their attributes, its text and its end tags, in
   order, whatever the handler is. *)

From S2P Require Import Prelude XmlText XmlParser XmlDom.

(** ** Trees as text and as events *)

Definition esc_attr (a : Attribute) : Attribute := mkAttribute (at_name a) (esc_text (at_value a)).
Definition print_attr (a : Attribute) : bytes := 32 :: at_name a ++ 61 :: 34 :: esc_text (at_value a) ++ [34].
Definition print_attrs (l : list Attribute) : bytes := concat (print_attr <$> l).

Lemma print_attrs_cons a l r : print_attrs (a :: l) ++ r = print_attr a ++ print_attrs l ++ r.
Proof. unfold print_attrs. simpl. f_equal. by rewrite <- !app_assoc. Qed.

Definition leaf (s : bytes) (cs : list XTree) : bool := bool_decide (s = []) && match cs with [] => true | _ => false end.

Fixpoint print_tree (t : XTree) : bytes :=
  let 'XNode n a s cs := t in
  60 :: n ++ print_attrs a ++
  if leaf s cs then [47; 62]
  else 62 :: esc_text s ++ concat (map print_tree cs) ++ 60 :: 47 :: n ++ [62].

Inductive Event := EStart (n : bytes) (a : list Attribute) | EChars (s : bytes) | EEnd (n : bytes).

Fixpoint events (t : XTree) : list Event :=
  let 'XNode n a s cs := t in
  EStart n a :: (if bool_decide (s = []) then [] else [EChars s]) ++ concat (map events cs) ++ [EEnd n].

Section Play.
Context {H : Type} {hd : SAXDocumentHandler H}.

Definition tell (e : Event) (h : H) : outcome H :=
  match e with
  | EStart n a => startElement (mkToken START_TAG n a) h
  | EChars s => characters s h
  | EEnd n => endElement n h
  end.

Fixpoint play (l : list Event) (h : H) : outcome H :=
  match l with
  | [] => Ok h
  | e :: l => h ← tell e h; play l h
  end.

Lemma obind_assoc {A B C} (o : outcome A) (f : A -> outcome B) (g : B -> outcome C) :
  (o ≫= f) ≫= g = o ≫= (fun a => f a ≫= g).
Proof. by destruct o. Qed.

Lemma play_app l1 l2 h : play (l1 ++ l2) h = play l1 h ≫= play l2.
Proof.
  revert h. induction l1 as [|e l1 IH]; intros h; [done|]. simpl. rewrite obind_assoc.
  by destruct (tell e h); simpl; rewrite ?IH.
Qed.
End Play.

(** ** Scanners on what they are meant to find *)

Section Runs.
Context {se : StreamEnd} {sl : StreamEndLaws}.

Lemma take_while_run cond s r :
  Forall (fun c => cond c = true) s -> cond (deref r) = false -> take_while cond (s ++ r) = Ok (s, 0, r).
Proof using.
  intros Hs Hr. induction Hs as [|c s Hc _ IH]; simpl.
  - destruct r as [|c r]; simpl in *; by rewrite Hr.
  - by rewrite Hc, IH.
Qed.

Lemma skip_none r : isspace (deref r) = false -> skip_spaces r = Ok ((), 0, r).
Proof using. intros Hr. destruct r as [|c r]; simpl in *; by rewrite Hr. Qed.

Lemma skip_one r : isspace (deref r) = false -> skip_spaces (32 :: r) = Ok ((), 0, r).
Proof using. intros Hr. simpl. by rewrite skip_none. Qed.

Lemma content_run s r : Forall (fun c => c <> 0 /\ c <> 60) s ->
  exists n, content_loop (s ++ 60 :: r) = Ok (s, n, 60 :: r).
Proof using.
  induction 1 as [|c s [Hc H60] _ [n IH]]; simpl; [by exists 0|].
  replace (c =? 0) with false by (symmetry; by apply Z.eqb_neq).
  replace (c =? 60) with false by (symmetry; by apply Z.eqb_neq). simpl. rewrite IH. eauto.
Qed.

(** Everything but the line number. *)
Definition at_ cur st fr te e (p : XMLParser) : Prop := exists n, p = mkParser n cur st fr te e.

Lemma name_chars n : name_ok n = true -> Forall (fun c => isNameChar c = true) n /\ n <> [].
Proof using.
  destruct n as [|c n]; [done|]. simpl. intros H. apply andb_true_iff in H as [_ H]. split; [|done].
  apply Forall_forall. intros x Hx. apply list_elem_of_In in Hx. revert x Hx. by apply forallb_forall.
Qed.

Lemma name_start n r : name_ok n = true -> isNameStart (deref (n ++ r)) = true.
Proof using. destruct n as [|c n]; [done|]. simpl. intros H. by apply andb_true_iff in H as [? _]. Qed.

Lemma start_facts c : isNameStart c = true -> isspace c = false /\ c <> 62 /\ c <> 47 /\ c <> 63.
Proof using.
  unfold isNameStart, isalpha, isspace. intros H.
  assert (65 <= c) as Hc.
  { apply orb_true_iff in H as [H|H]; [|zbool; lia]. apply orb_true_iff in H as [H|H]; zbool; lia. }
  split_and!; [ztest; done|lia..].
Qed.

Lemma getElementName_run code ln n r r' k st fr te e :
  name_ok n = true -> isNameChar (deref r) = false -> skip_spaces r = Ok ((), k, r') ->
  wp (getElementName code) (fun b q => b = (deref r' =? 62) /\
    at_ (if deref r' =? 62 then incr r' else r') st fr te (mkToken (type e) n (attributes e)) q)
    (mkParser ln (n ++ r) st fr te e).
Proof using.
  intros Hn Hr Hk. destruct (name_chars n Hn) as [Hc _]. unfold getElementName. wstep. unfold wp at 1, cur. simpl.
  rewrite (name_start n r Hn). simpl. wstep. unfold wp at 1, scan. simpl. rewrite take_while_run by done. simpl.
  wstep. unfold wp at 1, set_text, modify. simpl. wstep. unfold wp at 1, skipWhitespace, scan. simpl. rewrite Hk. simpl.
  wstep. unfold wp at 1, cur. simpl. destruct (deref r' =? 62).
  - wstep. unfold wp at 1, step, modify. simpl. wstep. split; [done|]. by eexists.
  - wstep. split; [done|]. by eexists.
Qed.

(** ** Attributes *)

Lemma esc_text_value s : clean s = true ->
  Forall (fun c => c <> 0 /\ c <> 60 /\ c <> 34) (esc_text s) /\ Forall (fun c => c <> 0) s.
Proof using.
  intros Hs. pose proof (scrub_valid s s (scrub_clean s Hs)) as Hv. split; [|by apply esc_valid_nonzero].
  eapply Forall_impl; [by apply esc_text_plain|]. simpl. intros c Hc. split_and!; intros ->; done.
Qed.

Lemma attribute_run ln a r st fr te e :
  attr_ok a = true ->
  wp (n ← getAttributeNameAndEqual; v ← getAttributeValue; p ← get;
      set_attributes (attributes (entry p) ++ [mkAttribute n v]) ;; mret false)
    (fun b q => b = false /\ at_ r st fr te (mkToken (type e) (text e) (attributes e ++ [esc_attr a])) q)
    (mkParser ln (at_name a ++ 61 :: 34 :: esc_text (at_value a) ++ 34 :: r) st fr te e).
Proof using.
  intros Ha. unfold attr_ok in Ha. apply andb_true_iff in Ha as [Hn Hv]. destruct (name_chars _ Hn) as [Hc _].
  destruct (esc_text_value _ Hv) as [Hev _]. wstep. unfold getAttributeNameAndEqual. wstep. unfold wp at 1, cur. simpl.
  rewrite (name_start _ _ Hn). simpl. wstep. unfold wp at 1, scan. simpl. rewrite take_while_run by done. simpl.
  wstep. unfold wp at 1, skipWhitespace, scan. simpl. wstep. unfold wp at 1, cur. simpl.
  wstep. unfold wp at 1, step, modify. simpl. wstep. unfold wp at 1, skipWhitespace, scan. simpl. wstep.
  wstep. unfold getAttributeValue. wstep. unfold wp at 1, cur. simpl. wstep. unfold wp at 1, step, modify. simpl.
  wstep. unfold wp at 1, scan. simpl. rewrite take_while_run.
  - simpl. wstep. unfold wp at 1, cur. simpl. wstep. unfold wp at 1, step, modify. simpl. wstep. wstep. wstep.
    wstep. unfold wp at 1, set_attributes, modify. simpl. wstep. split; [done|]. by eexists.
  - eapply Forall_impl; [exact Hev|]. simpl. intros c (H0 & _ & H34). ztest. done.
  - done.
Qed.

(** The end of a start tag. *)
Definition closer (empty : bool) : bytes := if empty then [47; 62] else [62].

Lemma attribute_step_more ln a r st fr te e :
  type e = START_TAG -> attr_ok a = true ->
  wp attribute_step (fun b q => b = false /\ at_ r st fr te (mkToken START_TAG (text e) (attributes e ++ [esc_attr a])) q)
    (mkParser ln (print_attr a ++ r) st fr te e).
Proof using.
  intros He Ha. unfold print_attr. pose proof Ha as Ha'. unfold attr_ok in Ha'. apply andb_true_iff in Ha' as [Hn _].
  replace ((32 :: at_name a ++ 61 :: 34 :: esc_text (at_value a) ++ [34]) ++ r)
    with (32 :: at_name a ++ 61 :: 34 :: esc_text (at_value a) ++ 34 :: r)
    by (simpl; rewrite <- app_assoc; simpl; by rewrite <- app_assoc).
  set (l := at_name a ++ 61 :: 34 :: esc_text (at_value a) ++ 34 :: r).
  destruct (start_facts _ (name_start _ (61 :: 34 :: esc_text (at_value a) ++ 34 :: r) Hn)) as (Hsp & H62 & H47 & _). fold l in Hsp, H62, H47.
  unfold attribute_step. wstep. unfold wp at 1, skipWhitespace, scan. cbn [m_current]. rewrite skip_one by done.
  wstep. wstep. wstep. unfold wp at 1, cur. cbn [m_current set_pos entry m_stack m_foundRoot m_tagIsEmpty].
  cbv zeta. rewrite He. rewrite bool_decide_false by done. rewrite bool_decide_true by done.
  replace (deref l =? 47) with false by (symmetry; by apply Z.eqb_neq).
  replace (deref l =? 62) with false by (symmetry; by apply Z.eqb_neq). cbv iota beta delta [andb].
  rewrite <- He. apply attribute_run. done.
Qed.

Lemma attribute_step_close ln empty r st fr e :
  type e = START_TAG ->
  wp attribute_step (fun b q => b = true /\ at_ r st fr empty (mkToken START_TAG (text e) (attributes e)) q)
    (mkParser ln (closer empty ++ r) st fr false e).
Proof using.
  intros He. unfold attribute_step. wstep. unfold wp at 1, skipWhitespace, scan.
  assert (skip_spaces (closer empty ++ r) = Ok ((), 0, closer empty ++ r)) as Es by (by destruct empty).
  cbn [m_current]. rewrite Es. wstep. wstep. wstep. unfold wp at 1, cur.
  cbn [m_current set_pos entry m_stack m_foundRoot m_tagIsEmpty]. cbv zeta. rewrite He.
  rewrite bool_decide_false by done. rewrite bool_decide_true by done. destruct empty; simpl.
  - wstep. unfold wp at 1, step, modify. simpl. wstep. unfold wp at 1, cur. simpl.
    wstep. unfold wp at 1, set_type, modify. simpl. wstep. unfold wp at 1, modify. simpl.
    wstep. unfold wp at 1, step, modify. simpl. wstep. split; [done|]. by eexists.
  - wstep. unfold wp at 1, step, modify. simpl. wstep. split; [done|]. destruct e. simpl in *. subst. by eexists.
Qed.

Lemma attribute_loop_run l : forall fuel ln empty r st fr e,
  type e = START_TAG -> forallb attr_ok l = true -> (length l < fuel)%nat ->
  wp (attribute_loop fuel) (fun _ q => at_ r st fr empty (mkToken START_TAG (text e) (attributes e ++ (esc_attr <$> l))) q)
    (mkParser ln (print_attrs l ++ closer empty ++ r) st fr false e).
Proof using.
  induction l as [|a l IH]; intros [|fuel] ln empty r st fr e He Hl Hf; simpl in Hf; try lia; cbn [attribute_loop]; wstep.
  - eapply wp_mono; [by apply attribute_step_close|]. intros b q (-> & Hq). wstep. by rewrite app_nil_r.
  - simpl in Hl. apply andb_true_iff in Hl as [Ha Hl]. rewrite print_attrs_cons.
    eapply wp_mono; [by apply attribute_step_more|]. intros b q (-> & n & ->).
    eapply wp_mono; [apply IH; [done|done|lia]|]. simpl. intros _ q Hq. rewrite <- app_assoc in Hq. exact Hq.
Qed.

Lemma print_attrs_length l : (length l <= length (print_attrs l))%nat.
Proof using.
  induction l as [|a l IH]; [done|]. pose proof (print_attrs_cons a l []) as E. rewrite !app_nil_r in E. rewrite E.
  rewrite length_app. simpl. lia.
Qed.

(** ** Tags *)

(** A space before the attributes makes no difference. *)
Lemma attribute_loop_space fuel ln r st fr te e :
  isspace (deref r) = false ->
  attribute_loop (S fuel) (mkParser ln (32 :: r) st fr te e) = attribute_loop (S fuel) (mkParser ln r st fr te e).
Proof using.
  intros Hr. cbn [attribute_loop]. unfold attribute_step, skipWhitespace, scan, mbind, Prog_bind. cbn [m_current m_line].
  rewrite (skip_one r Hr), (skip_none r Hr). reflexivity.
Qed.

(** Behind the name of a start tag. *)
Lemma behind_name l empty r : forallb attr_ok l = true ->
  let x := print_attrs l ++ closer empty ++ r in
  isNameChar (deref x) = false /\ exists x', skip_spaces x = Ok ((), 0, x') /\
    match l with
    | [] => x' = closer empty ++ r
    | a :: l => isNameStart (deref x') = true /\ x = 32 :: x'
    end.
Proof using.
  intros Hl. cbv zeta. destruct l as [|a l].
  - split; [by destruct empty|]. exists (closer empty ++ r). by destruct empty.
  - simpl in Hl. apply andb_true_iff in Hl as [Ha _]. unfold attr_ok in Ha. apply andb_true_iff in Ha as [Hn _].
    rewrite print_attrs_cons. unfold print_attr. split; [done|]. rewrite <- app_comm_cons, <- app_assoc.
    pose proof (name_start _ ((61 :: 34 :: esc_text (at_value a) ++ [34]) ++ print_attrs l ++ closer empty ++ r) Hn) as Hs.
    eexists. split; [apply skip_one; by apply start_facts|]. done.
Qed.

Lemma getElement_start ln n l empty r st fr e :
  name_ok n = true -> forallb attr_ok l = true ->
  wp getElement (fun _ q => at_ r st fr empty (mkToken START_TAG n (esc_attr <$> l)) q)
    (mkParser ln (n ++ print_attrs l ++ closer empty ++ r) st fr false e).
Proof using.
  intros Hn Hl. destruct (behind_name l empty r Hl) as (Hr & x' & Hx & Hcase). set (x := print_attrs l ++ closer empty ++ r) in *.
  pose proof (name_start n x Hn) as Hs. destruct (start_facts _ Hs) as (_ & _ & H47 & H63).
  unfold getElement. wstep. unfold wp at 1, set_attributes, modify. simpl. wstep. unfold wp at 1, set_text, modify. simpl.
  wstep. unfold wp at 1, cur. cbn [m_current set_entry].
  assert (deref (n ++ x) <> 33) as H33 by (intros E; rewrite E in Hs; done).
  replace (deref (n ++ x) =? 63) with false by (symmetry; by apply Z.eqb_neq).
  replace (deref (n ++ x) =? 33) with false by (symmetry; by apply Z.eqb_neq).
  replace (deref (n ++ x) =? 47) with false by (symmetry; by apply Z.eqb_neq). rewrite Hs.
  wstep. unfold wp at 1, set_type, modify. simpl. wstep. unfold getOpenElementName. wstep.
  eapply wp_mono; [by apply (getElementName_run _ _ _ x x' 0)|]. intros b q (-> & k & ->). simpl.
  destruct l as [|a l].
  - rewrite Hcase. destruct empty; simpl.
    + wstep. unfold wp at 1, cur. simpl. wstep. unfold wp at 1, step, modify. simpl. wstep. unfold wp at 1, cur. simpl.
      wstep. unfold wp at 1, step, modify. simpl. wstep. unfold when. wstep. unfold wp at 1, set_type, modify. simpl.
      unfold wp, modify. simpl. by eexists.
    + wstep. by eexists.
  - destruct Hcase as [Hs' Ex]. destruct (start_facts _ Hs') as (Hsp & H62 & H47' & _).
    replace (deref x' =? 62) with false by (symmetry; by apply Z.eqb_neq). wstep. unfold wp at 1, cur. cbn [m_current].
    replace (deref x' =? 47) with false by (symmetry; by apply Z.eqb_neq). wstep. unfold attributes_rest. wstep. wstep.
    cbn [m_current]. unfold wp. rewrite <- attribute_loop_space by done. rewrite <- Ex.
    apply (attribute_loop_run (a :: l) (S (length x')) k empty r st fr (mkToken START_TAG n [])); [done|done|].
    pose proof (print_attrs_length (a :: l)). apply (f_equal length) in Ex. unfold x in Ex. rewrite length_app in Ex.
    simpl in Ex. destruct (closer empty ++ r) eqn:E0; [by destruct empty|]. simpl in *. lia.
Qed.

(** ** Tokens *)

Lemma next_start ln n l empty r st fr e :
  name_ok n = true -> forallb attr_ok l = true -> (st = [] -> fr = false) ->
  wp next (fun b q => b = true /\
      at_ r (if empty : bool then st else n :: st) true empty (mkToken START_TAG n (esc_attr <$> l)) q)
    (mkParser ln (60 :: n ++ print_attrs l ++ closer empty ++ r) st fr false e).
Proof using.
  intros Hn Hl Hst. unfold next. wstep. wstep. cbn [m_tagIsEmpty m_current]. rewrite bool_decide_false by done.
  simpl. wstep. unfold wp at 1, skipWhitespace, scan. simpl. wstep. unfold wp at 1, step, modify. simpl. wstep.
  unfold set_pos. simpl. eapply wp_mono; [by apply getElement_start|]. intros _ q (k & ->). wstep. wstep. simpl. wstep.
  unfold open_tag. wstep. wstep. simpl. replace (bool_decide (st = []) && fr) with false.
  2:{ case_bool_decide as E; [|done]. by rewrite (Hst E). }
  wstep. unfold wp at 1, modify. simpl. unfold when. destruct empty; simpl.
  - wstep. wstep. split; [done|]. by eexists.
  - unfold wp at 1, modify. simpl. wstep. split; [done|]. by eexists.
Qed.

Lemma next_content ln s r st fr e :
  s <> [] -> Forall (fun c => c <> 0 /\ c <> 60) s ->
  wp next (fun b q => b = true /\ at_ (60 :: r) st fr false (mkToken CONTENT s (attributes e)) q)
    (mkParser ln (s ++ 60 :: r) st fr false e).
Proof using.
  intros Hs Hc. destruct (content_run s r Hc) as (k & Hk). destruct s as [|c s]; [done|].
  apply Forall_cons in Hc as [[H0 H60] _]. unfold next. wstep. wstep. cbn [m_tagIsEmpty m_current].
  rewrite bool_decide_false by done. cbn [app deref orb].
  replace (c =? 0) with false by (symmetry; by apply Z.eqb_neq).
  replace (c =? 60) with false by (symmetry; by apply Z.eqb_neq).
  wstep. unfold wp at 1, set_type, modify. simpl. wstep. unfold getContent. wstep. unfold wp at 1, scan.
  cbn [m_current set_entry]. change (c :: s ++ 60 :: r) with ((c :: s) ++ 60 :: r). rewrite Hk. cbv iota beta.
  unfold wp at 1, set_text, modify. simpl. wstep. split; [done|]. by eexists.
Qed.

Lemma next_end ln n r st fr e :
  name_ok n = true ->
  wp next (fun b q => b = true /\ at_ r st fr false (mkToken END_TAG n []) q)
    (mkParser ln (60 :: 47 :: n ++ 62 :: r) (n :: st) fr false e).
Proof using.
  intros Hn. unfold next. wstep. wstep. cbn [m_tagIsEmpty m_current]. rewrite bool_decide_false by done.
  simpl. wstep. unfold wp at 1, skipWhitespace, scan. simpl. wstep. unfold wp at 1, step, modify. simpl. wstep.
  unfold getElement. wstep. unfold wp at 1, set_attributes, modify. simpl. wstep. unfold wp at 1, set_text, modify. simpl.
  wstep. unfold wp at 1, cur. simpl. wstep. unfold wp at 1, set_type, modify. simpl.
  wstep. unfold wp at 1, step, modify. simpl. wstep. unfold set_entry, set_pos. simpl.
  eapply wp_mono; [by apply (getElementName_run _ _ _ (62 :: r) (62 :: r) 0)|]. intros b q (-> & k & ->). simpl. wstep.
  wstep. wstep. simpl. wstep. unfold close_tag. wstep. wstep. simpl. rewrite bool_decide_true by done.
  unfold wp at 1, modify. simpl. wstep. split; [done|]. by eexists.
Qed.

Lemma next_empty_end ln r st fr e :
  wp next (fun b q => b = true /\ at_ r st fr false (mkToken END_TAG (text e) []) q) (mkParser ln r st fr true e).
Proof using.
  unfold next. wstep. wstep. cbn [m_tagIsEmpty]. wstep. unfold wp at 1, modify. simpl.
  wstep. unfold wp at 1, set_type, modify. simpl. wstep. unfold wp at 1, set_attributes, modify. simpl.
  wstep. split; [done|]. by eexists.
Qed.
End Runs.
