(* ===== verification/XmlSax.v ===== *)
(** * Reading what was printed: the document

   The loop of the SAX parser, free of fuel, over a printed tree tells a
   handler the events of the tree and goes on behind it. *)

From S2P Require Import Prelude XmlText XmlParser XmlDom XmlPrint.

(** Induction over trees and their children. *)
Lemma XTree_all (P : XTree -> Prop) :
  (forall n a s cs, Forall P cs -> P (XNode n a s cs)) -> forall t, P t.
Proof.
  intros H. fix IH 1. intros [n a s cs]. apply H. induction cs as [|t cs IHcs]; [constructor|].
  constructor; [apply IH|apply IHcs].
Qed.

Lemma tree_ok_node n a s cs :
  tree_ok (XNode n a s cs) = true ->
  name_ok n = true /\ forallb attr_ok a = true /\ clean s = true /\ Forall (fun t => tree_ok t = true) cs.
Proof.
  simpl. intros H. zbool. split_and!; [done..|]. apply Forall_forall. intros t Ht. apply list_elem_of_In in Ht.
  by eapply forallb_forall in Ht.
Qed.

(** ** What is read is what was escaped *)

Lemma name_plain n : name_ok n = true -> esc_text n = n /\ Forall (fun c => c <> 0) n.
Proof.
  intros Hn. destruct (name_chars n Hn) as [Hc _]. clear Hn. induction Hc as [|c n Hc _ [IH1 IH2]]; [by split|].
  assert (esc_char c = [c] /\ c <> 0) as [Ec H0].
  { unfold isNameChar, isalnum, isalpha, is_digit in Hc. split; [|by intros ->]. unfold esc_char.
    repeat match goal with |- context [c =? ?k] => destruct (Z.eqb_spec c k) as [->|]; [done|] end. done. }
  rewrite esc_text_cons, Ec, IH1. split; [done|]. by constructor.
Qed.

Lemma unescape_name n : name_ok n = true -> XMLUnescape n = Ok n.
Proof. intros [E H]%name_plain. rewrite <- E at 1. by apply unescape_esc_text. Qed.

Lemma unescape_clean s : clean s = true -> XMLUnescape (esc_text s) = Ok s.
Proof. intros H. apply unescape_esc_text. by apply esc_text_value. Qed.

Lemma unescape_attrs l : forallb attr_ok l = true -> unescape_attributes (esc_attr <$> l) = Ok l.
Proof.
  induction l as [|a l IH]; [done|]. cbn [forallb]. intros [Ha Hl]%andb_true_iff. unfold attr_ok in Ha.
  apply andb_true_iff in Ha as [_ Hv]. change (esc_attr <$> a :: l) with (esc_attr a :: (esc_attr <$> l)).
  cbn [unescape_attributes]. change (at_value (esc_attr a)) with (esc_text (at_value a)).
  rewrite unescape_clean by done. rewrite IH by done. by destruct a.
Qed.

(** ** The loop without fuel *)

Section Run.
Context {se : StreamEnd} {sl : StreamEndLaws}.
Context {H : Type} {hd : SAXDocumentHandler H}.

Definition sax_run (p : XMLParser) (h : H) : outcome H := sax_loop (S (pending p)) p h.

Lemma sax_loop_enough fuel : forall p h, (pending p < fuel)%nat -> sax_loop fuel p h = sax_run p h.
Proof.
  assert (forall f1 f2 p (h : H), (pending p < f1)%nat -> (pending p < f2)%nat -> sax_loop f1 p h = sax_loop f2 p h) as E.
  { induction f1 as [|f1 IH]; intros [|f2] p h H1 H2; [lia..|]. cbn [sax_loop]. pose proof (safe_next p) as Hs.
    unfold safe in Hs. destruct (next p) as [[[]| | |] q]; try done. destruct Hs as [Hp _].
    destruct (sax_event (entry q) h); [|done..]. simpl. apply IH; lia. }
  intros p h Hf. apply E; [done|lia].
Qed.

(** A token is told, then the loop goes on. *)
Lemma sax_run_next p (Q : XMLParser -> Prop) :
  wp next (fun b q => b = true /\ Q q) p ->
  exists q, Q q /\ forall h, sax_run p h = sax_event (entry q) h ≫= sax_run q.
Proof.
  unfold wp. pose proof (safe_next p) as Hs. unfold safe in Hs. destruct (next p) as [[b| | |] q] eqn:E; try done.
  intros [-> Hq]. exists q. split; [done|]. intros h. unfold sax_run at 1. cbn [sax_loop]. rewrite E.
  destruct Hs as [Hp _]. destruct (sax_event (entry q) h); [|done..]. simpl. apply sax_loop_enough. lia.
Qed.

Lemma sax_run_end p h : next p = (Ok false, p) -> sax_run p h = Ok h.
Proof. intros E. unfold sax_run. cbn [sax_loop]. by rewrite E. Qed.

(** ** A tree *)

(** Between two tokens at [r], with the tags [st] open and a root found. *)
Definition between (r : bytes) (st : list bytes) (p : XMLParser) : Prop := exists e, at_ r st true false e p.

(** From every parser that satisfies [P] the loop tells [l] and arrives at [Q]. *)
Definition tells (P : XMLParser -> Prop) (l : list Event) (Q : XMLParser -> Prop) : Prop :=
  forall p, P p -> exists q, Q q /\ forall h, sax_run p h = play l h ≫= sax_run q.

Lemma tells_nil P : tells P [] P.
Proof. intros p Hp. exists p. split; [done|]. intros h. done. Qed.

Lemma tells_app P Q R l1 l2 : tells P l1 Q -> tells Q l2 R -> tells P (l1 ++ l2) R.
Proof.
  intros H1 H2 p (q & Hq & E1)%H1. apply H2 in Hq as (r & Hr & E2). exists r. split; [done|]. intros h.
  rewrite E1, play_app, obind_assoc. destruct (play l1 h); [|done..]. simpl. apply E2.
Qed.

Lemma tells_one (P : XMLParser -> Prop) v Q :
  (forall p, P p -> wp next (fun b q => b = true /\ Q q /\ forall h, sax_event (entry q) h = tell v h) p) -> tells P [v] Q.
Proof.
  intros Hn p (q & [Hq He] & E)%Hn%sax_run_next. exists q. split; [done|]. intros h. rewrite E, He. cbn [play].
  rewrite obind_assoc. done.
Qed.

Lemma tells_start n a empty r st (P : XMLParser -> Prop) :
  (forall p, P p -> exists fr e, (st = [] -> fr = false) /\ at_ (60 :: n ++ print_attrs a ++ closer empty ++ r) st fr false e p) ->
  name_ok n = true -> forallb attr_ok a = true ->
  tells P [EStart n a] (at_ r (if empty : bool then st else n :: st) true empty (mkToken START_TAG n (esc_attr <$> a))).
Proof.
  intros HP Hn Ha. apply tells_one. intros p (fr & e & Hst & k & ->)%HP. eapply wp_mono; [by apply next_start|].
  intros b q [-> Hq]. split_and!; [done..|]. intros h. destruct Hq as (k' & ->). unfold sax_event. cbn [entry type attributes text].
  by rewrite unescape_attrs.
Qed.

Lemma tells_chars s r st : clean s = true -> s <> [] ->
  tells (between (esc_text s ++ 60 :: r) st) [EChars s] (between (60 :: r) st).
Proof.
  intros Hs Hne. apply tells_one. intros p (e & k & ->). destruct (esc_text_value s Hs) as [He _]. eapply wp_mono.
  - apply next_content.
    + intros E. apply Hne. pose proof (unescape_clean s Hs) as Hu. rewrite E in Hu. by injection Hu as <-.
    + eapply Forall_impl; [exact He|]. simpl. tauto.
  - intros b q [-> Hq]. split; [done|]. split; [by eexists|]. intros h. destruct Hq as (k' & ->).
    unfold sax_event. cbn [entry type text]. by rewrite unescape_clean.
Qed.

Lemma end_told n h : name_ok n = true -> sax_event (mkToken END_TAG n []) h = tell (EEnd n) h.
Proof. intros Hn. unfold sax_event. cbn [type text]. by rewrite unescape_name. Qed.

Lemma tells_end n r st : name_ok n = true ->
  tells (between (60 :: 47 :: n ++ 62 :: r) (n :: st)) [EEnd n] (between r st).
Proof.
  intros Hn. apply tells_one. intros p (e & k & ->). eapply wp_mono; [by apply next_end|].
  intros b q [-> Hq]. split; [done|]. split; [by eexists|]. intros h. destruct Hq as (k' & ->). by apply end_told.
Qed.

Lemma tells_empty n a r st : name_ok n = true ->
  tells (at_ r st true true (mkToken START_TAG n a)) [EEnd n] (between r st).
Proof.
  intros Hn. apply tells_one. intros p (k & ->). eapply wp_mono; [apply next_empty_end|].
  intros b q [-> Hq]. split; [done|]. split; [by eexists|]. intros h. destruct Hq as (k' & ->). by apply end_told.
Qed.

Lemma tells_weaken (P P' : XMLParser -> Prop) l Q : (forall p, P p -> P' p) -> tells P' l Q -> tells P l Q.
Proof. intros HP Ht p Hp. apply Ht, HP, Hp. Qed.

(** Where the tree [t] may start. *)
Definition before (t : XTree) (r : bytes) (st : list bytes) (p : XMLParser) : Prop :=
  exists fr e, (st = [] -> fr = false) /\ at_ (print_tree t ++ r) st fr false e p.

Definition tree_told (t : XTree) : Prop := forall r st, tells (before t r st) (events t) (between r st).

Lemma tells_forest cs n st r :
  Forall tree_told cs ->
  tells (between (concat (map print_tree cs) ++ r) (n :: st)) (concat (map events cs)) (between r (n :: st)).
Proof.
  induction 1 as [|t cs Ht _ IH]; [apply tells_nil|]. cbn [map concat]. rewrite <- app_assoc.
  eapply tells_app; [|apply IH]. eapply tells_weaken; [|apply Ht]. intros p (e & Hp). exists true, e. done.
Qed.

Lemma forest_head cs z : exists y, concat (map print_tree cs) ++ 60 :: z = 60 :: y.
Proof using. destruct cs as [|[n a s ds] cs]; simpl; eauto. Qed.

(** The text of an element, when there is any. *)
Lemma tells_text s r st : clean s = true ->
  tells (between (esc_text s ++ 60 :: r) st) (if bool_decide (s = []) then [] else [EChars s]) (between (60 :: r) st).
Proof.
  intros Hs. destruct (bool_decide (s = [])) eqn:E.
  - apply bool_decide_eq_true in E as ->. apply tells_nil.
  - apply bool_decide_eq_false in E. by apply tells_chars.
Qed.

Lemma print_tree_app n a s cs r :
  print_tree (XNode n a s cs) ++ r =
  60 :: n ++ print_attrs a ++ closer (leaf s cs) ++
  (if leaf s cs then r else esc_text s ++ concat (map print_tree cs) ++ 60 :: 47 :: n ++ 62 :: r).
Proof using.
  cbn [print_tree]. destruct (leaf s cs); simpl; repeat (rewrite <- ?app_assoc; simpl); done.
Qed.

Lemma tells_tree t : tree_ok t = true -> tree_told t.
Proof.
  induction t as [n a s cs IH] using XTree_all. intros (Hn & Ha & Hs & Hcs)%tree_ok_node r st.
  assert (Forall tree_told cs) as Htold.
  { clear -IH Hcs sl. induction IH as [|t cs Ht _ IHcs]; [constructor|]. apply Forall_cons in Hcs as [H1 H2].
    constructor; [by apply Ht|by apply IHcs]. }
  cbn [events]. apply (tells_app _ (at_ (if leaf s cs then r else esc_text s ++ concat (map print_tree cs) ++ 60 :: 47 :: n ++ 62 :: r)
    (if leaf s cs then st else n :: st) true (leaf s cs) (mkToken START_TAG n (esc_attr <$> a))) _ [EStart n a]).
  { apply tells_start; [|done|done]. intros p (fr & e & Hst & Hp). exists fr, e. by rewrite <- print_tree_app. }
  destruct (leaf s cs) eqn:El.
  - unfold leaf in El. apply andb_true_iff in El as [Es Ec]. apply bool_decide_eq_true in Es as ->.
    destruct cs; [|done]. by apply tells_empty.
  - destruct (forest_head cs (47 :: n ++ 62 :: r)) as [y Ey].
    eapply (tells_weaken _ (between (esc_text s ++ concat (map print_tree cs) ++ 60 :: 47 :: n ++ 62 :: r) (n :: st)));
      [by eexists|]. rewrite Ey. eapply tells_app; [by apply tells_text|]. rewrite <- Ey.
    eapply tells_app; [by apply tells_forest|]. by apply tells_end.
Qed.

(** A whole document. *)
Lemma sax_parse_tree err t h0 h1 h2 :
  tree_ok t = true -> startDocument h0 = Ok h1 -> play (events t) h1 = Ok h2 ->
  sax_parse err (print_tree t) h0 = endDocument h2.
Proof.
  intros Ht E0 E1. unfold sax_parse. rewrite E0. cbn [mbind outcome_bind].
  rewrite sax_loop_enough by (unfold pending; simpl; lia).
  destruct (tells_tree t Ht [] [] (newParser (print_tree t))) as (q & (e & k & ->) & E).
  { exists false, newToken. split; [done|]. rewrite app_nil_r. by eexists. }
  rewrite E, E1. cbn [mbind outcome_bind]. by rewrite sax_run_end.
Qed.
End Run.
