(* ===== verification/XmlRoundtrip.v ===== *)
(** * Documents survive printing and parsing

   Printing a node writes its tree; the builder, told the events of a tree, lays
   its nodes out on the heap in document order ([lay]), which represents the
   tree again. *)

From S2P Require Import Prelude XmlText XmlParser XmlDom XmlPrint XmlSax.

(** ** Printing *)

Fixpoint size (t : XTree) : nat := let 'XNode _ _ _ cs := t in S (sum_list (map size cs)).
Abbreviation sizes ts := (sum_list (map size ts)).

Lemma XMLEscape_clean s : clean s = true -> XMLEscape s = Ok (esc_text s).
Proof. intros H. rewrite XMLEscape_scrub, scrub_clean; done. Qed.

Lemma print_attributes_ok l : forallb attr_ok l = true -> print_attributes l = Ok (print_attrs l).
Proof.
  induction l as [|a l IH]; [done|]. cbn [forallb]. intros [Ha Hl]%andb_true_iff. unfold attr_ok in Ha.
  apply andb_true_iff in Ha as [_ Hv]. cbn [print_attributes]. rewrite XMLEscape_clean, IH by done.
  unfold mbind, outcome_bind, mret, outcome_ret. f_equal. pose proof (print_attrs_cons a l []) as E. rewrite !app_nil_r in E.
  rewrite E. unfold print_attr. simpl. repeat (rewrite <- ?app_assoc; simpl). done.
Qed.

Lemma reps_nonempty h o ts : reps h o ts -> bool_decide (o = None) = match ts with [] => true | _ => false end.
Proof. by destruct 1. Qed.

(** One node, given its children. *)
Lemma print_one_ok children n cs h :
  reps h (m_childNode n) cs ->
  tree_ok (XNode (m_strName n) (m_XMLAttributeArray n) (m_strText n) cs) = true ->
  children (m_childNode n) = Ok (concat (map print_tree cs)) ->
  print_one children n = Ok (print_tree (XNode (m_strName n) (m_XMLAttributeArray n) (m_strText n) cs)).
Proof.
  intros Hr (Hn & Ha & Hs & _)%tree_ok_node Hc. unfold print_one. rewrite print_attributes_ok by done.
  rewrite (reps_nonempty _ _ _ Hr). cbn [mbind outcome_bind print_tree]. fold (leaf (m_strText n) cs).
  destruct (leaf (m_strText n) cs); unfold mret, outcome_ret.
  - simpl. by rewrite <- app_assoc.
  - rewrite XMLEscape_clean, Hc by done. cbn [mbind outcome_bind]. f_equal. simpl.
    repeat (rewrite <- ?app_assoc; simpl). done.
Qed.

Lemma printNodes_ok h o ts : reps h o ts -> forall fuel,
  (sizes ts <= fuel)%nat -> Forall (fun t => tree_ok t = true) ts ->
  printNodes fuel h o = Ok (concat (map print_tree ts)).
Proof.
  induction 1 as [|i n cs ts Hi Hcs IHcs _ IHts]; intros fuel Hf Hok; [by destruct fuel|].
  apply Forall_cons in Hok as [Ht Hts]. destruct fuel as [|fuel]; simpl in Hf; [lia|]. cbn [printNodes]. rewrite Hi.
  cbn [present mbind outcome_bind]. rewrite (print_one_ok _ _ cs h); [|done|done|].
  - cbn [mbind outcome_bind]. rewrite IHts by (done || lia). done.
  - apply IHcs; [lia|]. by apply tree_ok_node in Ht as (_ & _ & _ & ?).
Qed.

Lemma printNode_ok h i t ts fuel :
  reps h (Some i) (t :: ts) -> (size t <= fuel)%nat -> tree_ok t = true -> printNode fuel h i = Ok (print_tree t).
Proof.
  intros Hr Hf Ht. inversion Hr as [|? n cs ? Hi Hcs _]; subst. unfold printNode. rewrite Hi.
  cbn [present mbind outcome_bind]. simpl in Hf. apply (print_one_ok _ _ cs h); [done..|].
  apply printNodes_ok; [done|lia|]. by apply tree_ok_node in Ht as (_ & _ & _ & ?).
Qed.

(** ** Nodes in document order *)

Definition first_pos (b : nat) (ts : list XTree) (nx : option nat) : option nat :=
  match ts with [] => nx | _ => Some b end.
Definition last_pos (b : nat) (ts : list XTree) : option nat :=
  match ts with [] => None | _ => Some (b + sizes (removelast ts))%nat end.

(** The trees from position [b] on; the last one's next node is [nx]. *)
Section Lays.
Variable lay : nat -> XTree -> option nat -> Heap.
Fixpoint lays_with (b : nat) (ts : list XTree) (nx : option nat) : Heap :=
  match ts with
  | [] => []
  | t :: ts => lay b t (first_pos (b + size t) ts nx) ++ lays_with (b + size t) ts nx
  end.
End Lays.

Fixpoint lay (b : nat) (t : XTree) (nx : option nat) : Heap :=
  let 'XNode n a s cs := t in
  mkNode nx (first_pos (S b) cs None) (last_pos (S b) cs) a n s :: lays_with lay (S b) cs None.
Abbreviation lays := (lays_with lay).

Lemma lays_length b ts nx : Forall (fun t => forall b nx, length (lay b t nx) = size t) ts -> length (lays b ts nx) = sizes ts.
Proof.
  intros H. revert b. induction H as [|t ts Ht _ IH]; intros b; [done|]. simpl. by rewrite length_app, Ht, IH.
Qed.

Lemma lay_length b t nx : length (lay b t nx) = size t.
Proof. revert b nx. induction t as [n a s cs IH] using XTree_all. intros b nx. simpl. by rewrite lays_length. Qed.

Lemma lays_size b ts nx : length (lays b ts nx) = sizes ts.
Proof. apply lays_length, Forall_true. intros t b' nx'. apply lay_length. Qed.

Lemma lays_snoc b ts t nx : lays b (ts ++ [t]) nx = lays b ts (Some (b + sizes ts)%nat) ++ lay (b + sizes ts) t nx.
Proof.
  revert b. induction ts as [|u ts IH]; intros b; simpl; [by rewrite app_nil_r, Nat.add_0_r|].
  rewrite IH, <- app_assoc, Nat.add_assoc. f_equal. by destruct ts; simpl; rewrite ?Nat.add_0_r.
Qed.

Lemma sizes_snoc ts t : sizes (ts ++ [t]) = (sizes ts + size t)%nat.
Proof. induction ts as [|u ts IH]; simpl; lia. Qed.

(** What is laid out is what is represented. *)
Lemma reps_lay t : forall h1 h2 nx us,
  let h := h1 ++ lay (length h1) t nx ++ h2 in reps h nx us -> reps h (Some (length h1)) (t :: us).
Proof.
  induction t as [n a s cs IH] using XTree_all. intros h1 h2 nx us h Hus.
  assert (forall g1 g2 nx us, let g := g1 ++ lays (length g1) cs nx ++ g2 in
    reps g nx us -> reps g (first_pos (length g1) cs nx) (cs ++ us)) as Hcs.
  { clear -IH. induction IH as [|t cs Ht _ IHcs]; intros g1 g2 nx us g Hg; [done|]. simpl in *. subst g.
    rewrite <- app_assoc. apply Ht. specialize (IHcs (g1 ++ lay (length g1) t (first_pos (length g1 + size t) cs nx)) g2 nx us).
    rewrite length_app, lay_length, <- !app_assoc in IHcs. apply IHcs. by rewrite <- !app_assoc in Hg. }
  eapply (reps_cons h _ (mkNode nx (first_pos (S (length h1)) cs None) (last_pos (S (length h1)) cs) a n s) cs us); simpl.
  - unfold h. by rewrite lookup_app_r, Nat.sub_diag by lia.
  - specialize (Hcs (h1 ++ [mkNode nx (first_pos (S (length h1)) cs None) (last_pos (S (length h1)) cs) a n s]) h2 None []).
    simpl in Hcs. rewrite length_app, Nat.add_1_r, app_nil_r, <- app_assoc in Hcs. apply Hcs. constructor.
  - exact Hus.
Qed.

(** ** The builder *)

(** The node at [i] that is open, with the children [cs] so far. *)
Definition open_node (i : nat) (n : bytes) (a : list Attribute) (s : bytes) (cs : list XTree) : XMLNodeImpl :=
  mkNode None (first_pos (S i) cs None) (last_pos (S i) cs) a n s.

(** The last of the trees gets a node next to it. *)
Lemma alter_last h1 ts t j h2 :
  alter (set_next (Some j)) (length h1 + sizes ts)%nat (h1 ++ lays (length h1) (ts ++ [t]) None ++ h2) =
  h1 ++ lays (length h1) (ts ++ [t]) (Some j) ++ h2.
Proof.
  rewrite !lays_snoc, <- !app_assoc. rewrite alter_app_r. f_equal. rewrite alter_app_r_alt by (rewrite lays_size; lia).
  rewrite lays_size, Nat.sub_diag. f_equal. destruct t as [n a s cs]. done.
Qed.

Lemma last_pos_snoc b ts t : last_pos b (ts ++ [t]) = Some (b + sizes ts)%nat.
Proof. unfold last_pos. rewrite removelast_last. by destruct ts. Qed.

Lemma first_pos_snoc b ts t nx : first_pos b (ts ++ [t]) nx = Some b.
Proof. by destruct ts. Qed.

(** A new child of the open node. *)
Lemma addChild_open h1 n a s cs x t :
  let i := length h1 in let j := (S i + sizes cs)%nat in
  addChild i j ((h1 ++ open_node i n a s cs :: lays (S i) cs None) ++ [x]) =
  Ok (h1 ++ open_node i n a s (cs ++ [t]) :: lays (S i) cs (Some j) ++ [x]).
Proof.
  intros i j. unfold addChild. rewrite <- app_assoc. simpl.
  rewrite lookup_app_r, Nat.sub_diag by lia. simpl. subst j. induction cs as [|t0 cs0 _] using rev_ind.
  - simpl. f_equal. unfold i. rewrite insert_app_r_alt, Nat.sub_diag by lia. simpl. unfold open_node. simpl.
    unfold set_children. simpl. by rewrite Nat.add_0_r.
  - set (j := (S i + sizes (cs0 ++ [t0]))%nat). rewrite first_pos_snoc, last_pos_snoc.
    set (o := open_node i n a s (cs0 ++ [t0])).
    assert (length (h1 ++ [o]) = S i) as Ei by (rewrite length_app; simpl; lia).
    pose proof (alter_last (h1 ++ [o]) cs0 t0 j [x]) as Ha. rewrite Ei, <- !app_assoc in Ha. simpl in Ha.
    change (S (i + sizes cs0)) with (S i + sizes cs0)%nat in Ha.
    destruct (_ !! (S i + sizes cs0)%nat) eqn:El.
    + rewrite Ha. f_equal. unfold i. rewrite alter_app_r_alt, Nat.sub_diag by lia. simpl. f_equal.
      unfold o, open_node, set_children. simpl. rewrite !first_pos_snoc, last_pos_snoc. done.
    + exfalso. apply lookup_ge_None in El. rewrite length_app in El. simpl in El. rewrite length_app, lays_size, sizes_snoc in El.
      simpl in El. lia.
Qed.

(** The events of a tree behind its start tag. *)
Definition body (t : XTree) : list Event :=
  let 'XNode n a s cs := t in
  (if bool_decide (s = []) then [] else [EChars s]) ++ concat (map events cs) ++ [EEnd n].
Definition root_name (t : XTree) : bytes := let 'XNode n _ _ _ := t in n.
Definition root_attrs (t : XTree) : list Attribute := let 'XNode _ a _ _ := t in a.

Lemma events_body t : events t = EStart (root_name t) (root_attrs t) :: body t.
Proof. by destruct t. Qed.

Definition built (t : XTree) : Prop := forall h top st,
  play (body t) (mkBuilder (h ++ [newXMLNode (root_name t) (root_attrs t)]) (Some top) (length h :: st)) =
  Ok (mkBuilder (h ++ lay (length h) t None) (Some top) st).

Lemma build_children h n a s top st cs : Forall built cs -> forall ds,
  let b ds := mkBuilder (h ++ open_node (length h) n a s ds :: lays (S (length h)) ds None) (Some top) (length h :: st) in
  play (concat (map events cs)) (b ds) = Ok (b (ds ++ cs)).
Proof.
  induction 1 as [|t cs Ht _ IH]; intros ds b; [by rewrite app_nil_r|]. cbn [map concat]. rewrite play_app, events_body.
  cbn [play tell startElement DOM]. unfold dom_startElement at 1. cbn [b_heap m_topNode m_nodeArray b].
  replace (length (h ++ open_node (length h) n a s ds :: lays (S (length h)) ds None)) with (S (length h) + sizes ds)%nat
    by (rewrite length_app; simpl; rewrite lays_size; lia).
  rewrite (addChild_open h n a s ds _ t). cbn [mbind outcome_bind text attributes].
  pose proof (Ht (h ++ open_node (length h) n a s (ds ++ [t]) :: lays (S (length h)) ds (Some (S (length h) + sizes ds)%nat))
    top (length h :: st)) as E.
  rewrite length_app in E. cbn [length] in E. rewrite lays_size in E.
  replace (length h + S (sizes ds))%nat with (S (length h) + sizes ds)%nat in E by lia.
  rewrite <- !app_assoc, <- app_comm_cons in E. rewrite E. rewrite <- app_comm_cons, <- lays_snoc.
  specialize (IH (ds ++ [t])). cbv zeta in IH. rewrite <- app_assoc in IH. exact IH.
Qed.

Lemma build_body t : built t.
Proof.
  induction t as [n a s cs IH] using XTree_all. intros h top st. cbn [body root_name root_attrs]. rewrite !play_app.
  assert (play (if bool_decide (s = []) then [] else [EChars s])
    (mkBuilder (h ++ [newXMLNode n a]) (Some top) (length h :: st)) =
    Ok (mkBuilder (h ++ [open_node (length h) n a s []]) (Some top) (length h :: st))) as ->.
  { destruct (bool_decide (s = [])) eqn:Es; [by apply bool_decide_eq_true in Es as ->|].
    cbn [play tell characters DOM]. unfold dom_characters. cbn [b_heap m_topNode m_nodeArray mbind outcome_bind].
    rewrite alter_app_r_alt, Nat.sub_diag by lia. done. }
  cbn [mbind outcome_bind]. rewrite play_app. pose proof (build_children h n a s top st cs IH []) as E. cbv zeta in E. simpl in E.
  rewrite E. done.
Qed.

Lemma build_tree t :
  play (events t) newBuilder = Ok (mkBuilder (lay 0 t None) (Some 0%nat) []).
Proof. rewrite events_body. cbn [play]. exact (build_body t [] 0%nat []). Qed.

Lemma dom_parse_print {se : StreamEnd} {sl : StreamEndLaws} t :
  tree_ok t = true -> exists h, dom_parse (print_tree t) = Ok (h, 0%nat) /\ reps h (Some 0%nat) [t].
Proof.
  intros Ht. exists (lay 0 t None). split.
  - unfold dom_parse. erewrite sax_parse_tree; [|done|reflexivity|apply build_tree]. done.
  - pose proof (reps_lay t [] [] None []) as Hr. simpl in Hr. rewrite app_nil_r in Hr. apply Hr. constructor.
Qed.
