(* ===== verification/XmlPull.v ===== *)
(** * The pull parser and the elements of CIM-XML

   [XMLPullParser] (src/src/xml/OW_XMLPullParser.cpp) steps over the tokens of
   [XMLParserCore] one by one, [CIMXMLParser] (OW_CIMXMLParser.cpp) asks for the
   elements of CIM-XML, which it finds by binary search in a sorted table.

   [parser]'s token is the current one ([m_curTok]).  [BLOCXX_ASSERT] is a
   matter of how blocxx was built ([asserts]); a failed one throws. *)

From S2P Require Import Prelude XmlText XmlParser.

Record XMLPullParser := mkPull { m_parser : XMLParser; m_good : bool }.

Abbreviation m_curTok s := (entry (m_parser s)).

Section Pull.
Context {se : StreamEnd}.
Variable asserts : bool.

Definition BLOCXX_ASSERT (b : bool) : Prog XMLPullParser () :=
  if asserts && negb b then throw "AssertionException" else mret ().

(** [m_good = m_parser.next(m_curTok)] *)
Definition advance : Prog XMLPullParser () := fun s =>
  match next (m_parser s) with
  | (Ok b, p) => (Ok (), mkPull p b)
  | (Throw e, p) => (Throw e, mkPull p (m_good s))
  | (Crash, p) => (Crash, mkPull p (m_good s))
  | (Diverge, p) => (Diverge, mkPull p (m_good s))
  end.

Definition set_good (b : bool) : Prog XMLPullParser () := modify (fun s => mkPull (m_parser s) b).

Definition semantic_error : string := "XMLParseException::SEMANTIC_ERROR".

Definition of_outcome {A} (o : outcome A) : Prog XMLPullParser A := fun s => (o, s).

(** A round of the loops below has read a token, or finds that there is none:
   then one more round sees it. *)
Definition pull_fuel (s : XMLPullParser) : nat := S (S (pending (m_parser s))).

Definition is_type (t : XMLType) (s : XMLPullParser) : bool := bool_decide (type (m_curTok s) = t).

(** [do m_good = next while (COMMENT && m_good)] *)
Fixpoint nextToken_loop (fuel : nat) : Prog XMLPullParser () :=
  match fuel with
  | O => diverge
  | S fuel =>
      advance ;;
      s ← get;
      if is_type COMMENT s && m_good s then nextToken_loop fuel else mret ()
  end.
Definition nextToken : Prog XMLPullParser () := s ← get; nextToken_loop (pull_fuel s).

Definition isData (s : XMLPullParser) : bool := is_type CONTENT s || is_type CDATA s.

Fixpoint skipData_loop (fuel : nat) : Prog XMLPullParser () :=
  match fuel with
  | O => diverge
  | S fuel =>
      s ← get;
      if isData s && m_good s then nextToken ;; skipData_loop fuel else mret ()
  end.
Definition skipData : Prog XMLPullParser () := s ← get; skipData_loop (pull_fuel s).

(** The constructors: [prime] on a new parser. *)
Definition prime : Prog XMLPullParser () :=
  let must_advance := advance ;; s ← get; if m_good s then mret () else throw semantic_error in
  must_advance ;;
  s ← get;
  when (is_type XML_DECLARATION s) (must_advance ;; skipData) ;;
  s ← get;
  when (is_type DOCTYPE s) (must_advance ;; skipData).

Definition newPull (input : bytes) : XMLPullParser := mkPull (newParser input) true.

(** The first attribute of the name. *)
Definition getAttribute (attrId : bytes) (throwIfError : bool) : Prog XMLPullParser bytes :=
  s ← get;
  BLOCXX_ASSERT (is_type START_TAG s) ;;
  match list_find (fun a => at_name a = attrId) (attributes (m_curTok s)) with
  | Some (_, a) => of_outcome (XMLUnescape (at_value a))
  | None => if throwIfError then throw "XMLParseException::BAD_ATTRIBUTE_NAME" else mret []
  end.

(** The loop of [getChild]: an end tag is not good, and falls through. *)
Fixpoint getChild_loop (fuel : nat) : Prog XMLPullParser () :=
  match fuel with
  | O => diverge
  | S fuel =>
      nextToken ;;
      s ← get;
      if negb (m_good s) then mret ()
      else match type (m_curTok s) with
      | END_TAG => set_good false
      | START_TAG => mret ()
      | _ => getChild_loop fuel
      end
  end.
Definition getChild : Prog XMLPullParser () :=
  s ← get; if m_good s then getChild_loop (pull_fuel s) else mret ().

Definition mustGetChild : Prog XMLPullParser () :=
  s ← get;
  if negb (m_good s) then set_good false ;; throw semantic_error
  else
    getChild ;;
    s ← get;
    if negb (m_good s) then set_good false ;; throw semantic_error else mret ().

Definition check_good (throwIfError : bool) : Prog XMLPullParser () :=
  s ← get; if negb (m_good s) && throwIfError then throw semantic_error else mret ().

Definition getNextTag (throwIfError : bool) : Prog XMLPullParser () := nextToken ;; skipData ;; check_good throwIfError.
Definition getNext (throwIfError : bool) : Prog XMLPullParser () := nextToken ;; check_good throwIfError.

Definition mustGetEndTag : Prog XMLPullParser () :=
  skipData ;;
  s ← get;
  if is_type END_TAG s then getNext false ;; skipData else throw semantic_error.

Definition getName : Prog XMLPullParser bytes :=
  s ← get;
  BLOCXX_ASSERT (is_type START_TAG s || is_type END_TAG s) ;;
  of_outcome (XMLUnescape (text (m_curTok s))).

Definition getData : Prog XMLPullParser bytes :=
  s ← get;
  BLOCXX_ASSERT (isData s) ;;
  of_outcome (XMLUnescape (text (m_curTok s))).

Definition tokenIs (arg : bytes) (s : XMLPullParser) : bool := bool_decide (text (m_curTok s) = arg).
End Pull.

(** ** CIM-XML *)

Inductive tokenId :=
  | E_CIM | E_CLASS | E_CLASSNAME | E_CLASSPATH | E_DECLARATION | E_DECLGROUP | E_DECLGROUP_WITHNAME
  | E_DECLGROUP_WITHPATH | E_ERROR | E_EXPMETHODCALL | E_EXPMETHODRESPONSE | E_EXPPARAMVALUE | E_HOST
  | E_IMETHODCALL | E_IMETHODRESPONSE | E_IMPLICITKEY | E_INSTANCE | E_INSTANCENAME | E_INSTANCEPATH
  | E_IPARAMVALUE | E_IRETURNVALUE | E_KEYBINDING | E_KEYVALUE | E_LOCALCLASSPATH | E_LOCALINSTANCEPATH
  | E_LOCALNAMESPACEPATH | E_MESSAGE | E_METHOD | E_METHODCALL | E_METHODRESPONSE | E_MULTIEXPREQ
  | E_MULTIEXPRSP | E_MULTIREQ | E_MULTIRSP | E_NAMESPACE | E_NAMESPACEPATH | E_OBJECTPATH | E_PARAMETER
  | E_PARAMETER_ARRAY | E_PARAMETER_REFARRAY | E_PARAMETER_REFERENCE | E_PARAMVALUE | E_PROPERTY
  | E_PROPERTY_ARRAY | E_PROPERTY_REFERENCE | E_QUALIFIER | E_QUALIFIER_DECLARATION | E_RETURNVALUE
  | E_SCOPE | E_SIMPLEEXPREQ | E_SIMPLEEXPRSP | E_SIMPLEREQ | E_SIMPLERSP | E_VALUE | E_VALUE_ARRAY
  | E_VALUE_NAMEDINSTANCE | E_VALUE_NAMEDOBJECT | E_VALUE_OBJECT | E_VALUE_OBJECTWITHLOCALPATH
  | E_VALUE_OBJECTWITHPATH | E_VALUE_REFARRAY | E_VALUE_REFERENCE | E_UNKNOWN.

(** The value of an enumerator, by which the table is indexed. *)
Definition enum_value (t : tokenId) : nat :=
  match t with
  | E_CIM => 0 | E_CLASS => 1 | E_CLASSNAME => 2 | E_CLASSPATH => 3 | E_DECLARATION => 4 | E_DECLGROUP => 5
  | E_DECLGROUP_WITHNAME => 6 | E_DECLGROUP_WITHPATH => 7 | E_ERROR => 8 | E_EXPMETHODCALL => 9
  | E_EXPMETHODRESPONSE => 10 | E_EXPPARAMVALUE => 11 | E_HOST => 12 | E_IMETHODCALL => 13
  | E_IMETHODRESPONSE => 14 | E_IMPLICITKEY => 15 | E_INSTANCE => 16 | E_INSTANCENAME => 17
  | E_INSTANCEPATH => 18 | E_IPARAMVALUE => 19 | E_IRETURNVALUE => 20 | E_KEYBINDING => 21
  | E_KEYVALUE => 22 | E_LOCALCLASSPATH => 23 | E_LOCALINSTANCEPATH => 24 | E_LOCALNAMESPACEPATH => 25
  | E_MESSAGE => 26 | E_METHOD => 27 | E_METHODCALL => 28 | E_METHODRESPONSE => 29 | E_MULTIEXPREQ => 30
  | E_MULTIEXPRSP => 31 | E_MULTIREQ => 32 | E_MULTIRSP => 33 | E_NAMESPACE => 34 | E_NAMESPACEPATH => 35
  | E_OBJECTPATH => 36 | E_PARAMETER => 37 | E_PARAMETER_ARRAY => 38 | E_PARAMETER_REFARRAY => 39
  | E_PARAMETER_REFERENCE => 40 | E_PARAMVALUE => 41 | E_PROPERTY => 42 | E_PROPERTY_ARRAY => 43
  | E_PROPERTY_REFERENCE => 44 | E_QUALIFIER => 45 | E_QUALIFIER_DECLARATION => 46 | E_RETURNVALUE => 47
  | E_SCOPE => 48 | E_SIMPLEEXPREQ => 49 | E_SIMPLEEXPRSP => 50 | E_SIMPLEREQ => 51 | E_SIMPLERSP => 52
  | E_VALUE => 53 | E_VALUE_ARRAY => 54 | E_VALUE_NAMEDINSTANCE => 55 | E_VALUE_NAMEDOBJECT => 56
  | E_VALUE_OBJECT => 57 | E_VALUE_OBJECTWITHLOCALPATH => 58 | E_VALUE_OBJECTWITHPATH => 59
  | E_VALUE_REFARRAY => 60 | E_VALUE_REFERENCE => 61 | E_UNKNOWN => 62
  end%nat.

Definition g_elems : list (bytes * tokenId) :=
  [(txt "CIM", E_CIM); (txt "CLASS", E_CLASS); (txt "CLASSNAME", E_CLASSNAME);
   (txt "CLASSPATH", E_CLASSPATH); (txt "DECLARATION", E_DECLARATION); (txt "DECLGROUP", E_DECLGROUP);
   (txt "DECLGROUP.WITHNAME", E_DECLGROUP_WITHNAME); (txt "DECLGROUP.WITHPATH", E_DECLGROUP_WITHPATH);
   (txt "ERROR", E_ERROR); (txt "EXPMETHODCALL", E_EXPMETHODCALL);
   (txt "EXPMETHODRESPONSE", E_EXPMETHODRESPONSE); (txt "EXPPARAMVALUE", E_EXPPARAMVALUE);
   (txt "HOST", E_HOST); (txt "IMETHODCALL", E_IMETHODCALL); (txt "IMETHODRESPONSE", E_IMETHODRESPONSE);
   (txt "IMPLICITKEY", E_IMPLICITKEY); (txt "INSTANCE", E_INSTANCE); (txt "INSTANCENAME", E_INSTANCENAME);
   (txt "INSTANCEPATH", E_INSTANCEPATH); (txt "IPARAMVALUE", E_IPARAMVALUE);
   (txt "IRETURNVALUE", E_IRETURNVALUE); (txt "KEYBINDING", E_KEYBINDING); (txt "KEYVALUE", E_KEYVALUE);
   (txt "LOCALCLASSPATH", E_LOCALCLASSPATH); (txt "LOCALINSTANCEPATH", E_LOCALINSTANCEPATH);
   (txt "LOCALNAMESPACEPATH", E_LOCALNAMESPACEPATH); (txt "MESSAGE", E_MESSAGE); (txt "METHOD", E_METHOD);
   (txt "METHODCALL", E_METHODCALL); (txt "METHODRESPONSE", E_METHODRESPONSE);
   (txt "MULTIEXPREQ", E_MULTIEXPREQ); (txt "MULTIEXPRSP", E_MULTIEXPRSP); (txt "MULTIREQ", E_MULTIREQ);
   (txt "MULTIRSP", E_MULTIRSP); (txt "NAMESPACE", E_NAMESPACE); (txt "NAMESPACEPATH", E_NAMESPACEPATH);
   (txt "OBJECTPATH", E_OBJECTPATH); (txt "PARAMETER", E_PARAMETER);
   (txt "PARAMETER.ARRAY", E_PARAMETER_ARRAY); (txt "PARAMETER.REFARRAY", E_PARAMETER_REFARRAY);
   (txt "PARAMETER.REFERENCE", E_PARAMETER_REFERENCE); (txt "PARAMVALUE", E_PARAMVALUE);
   (txt "PROPERTY", E_PROPERTY); (txt "PROPERTY.ARRAY", E_PROPERTY_ARRAY);
   (txt "PROPERTY.REFERENCE", E_PROPERTY_REFERENCE); (txt "QUALIFIER", E_QUALIFIER);
   (txt "QUALIFIER.DECLARATION", E_QUALIFIER_DECLARATION); (txt "RETURNVALUE", E_RETURNVALUE);
   (txt "SCOPE", E_SCOPE); (txt "SIMPLEEXPREQ", E_SIMPLEEXPREQ); (txt "SIMPLEEXPRSP", E_SIMPLEEXPRSP);
   (txt "SIMPLEREQ", E_SIMPLEREQ); (txt "SIMPLERSP", E_SIMPLERSP); (txt "VALUE", E_VALUE);
   (txt "VALUE.ARRAY", E_VALUE_ARRAY); (txt "VALUE.NAMEDINSTANCE", E_VALUE_NAMEDINSTANCE);
   (txt "VALUE.NAMEDOBJECT", E_VALUE_NAMEDOBJECT); (txt "VALUE.OBJECT", E_VALUE_OBJECT);
   (txt "VALUE.OBJECTWITHLOCALPATH", E_VALUE_OBJECTWITHLOCALPATH);
   (txt "VALUE.OBJECTWITHPATH", E_VALUE_OBJECTWITHPATH); (txt "VALUE.REFARRAY", E_VALUE_REFARRAY);
   (txt "VALUE.REFERENCE", E_VALUE_REFERENCE); (txt "garbage", E_UNKNOWN)].

(** [strcmp] of texts without NUL. *)
Fixpoint strcmp (a b : bytes) : comparison :=
  match a, b with
  | [], [] => Eq
  | [], _ :: _ => Lt
  | _ :: _, [] => Gt
  | x :: a, y :: b => match x ?= y with Eq => strcmp a b | c => c end
  end.
Definition str_less (a b : bytes) : bool := match strcmp a b with Lt => true | _ => false end.

(** [std::lower_bound] on [len] entries from [first]. *)
Fixpoint lower_bound (l : list (bytes * tokenId)) (key : bytes) (fuel first len : nat) : nat :=
  match fuel with
  | O => first
  | S fuel =>
      if (len =? 0)%nat then first
      else
        let half := (len / 2)%nat in
        let middle := (first + half)%nat in
        match l !! middle with
        | Some e =>
            if str_less e.1 key then lower_bound l key fuel (S middle) (len - half - 1)
            else lower_bound l key fuel first half
        | None => first
        end
  end.

(** [g_elemsEnd] is the entry of E_UNKNOWN. *)
Definition elems_count : nat := (length g_elems - 1)%nat.

Definition getTokenFromName (name : bytes) : tokenId :=
  let i := lower_bound g_elems name (S elems_count) 0 elems_count in
  if (i =? elems_count)%nat then E_UNKNOWN
  else match g_elems !! i with
  | Some e => match strcmp e.1 name with Eq => e.2 | _ => E_UNKNOWN end
  | None => E_UNKNOWN
  end.

(** [g_elems[tId].name] *)
Definition elem_name (t : tokenId) : bytes :=
  match g_elems !! enum_value t with Some e => e.1 | None => [] end.

Section CIMXML.
Context {se : StreamEnd}.

Definition getToken (s : XMLPullParser) : tokenId := getTokenFromName (text (m_curTok s)).
Definition tokenIsId (t : tokenId) (s : XMLPullParser) : bool := tokenIs (elem_name t) s.

Definition invalid_parameter : string := "CIMException::INVALID_PARAMETER".

Definition mustGetChildId (t : tokenId) : Prog XMLPullParser () :=
  s ← get;
  if negb (m_good s) then set_good false ;; throw invalid_parameter
  else
    getChild ;;
    s ← get;
    if negb (m_good s) || negb (tokenIsId t s) then set_good false ;; throw invalid_parameter else mret ().

Definition mustTokenIsId (t : tokenId) : Prog XMLPullParser () :=
  s ← get; if tokenIsId t s then mret () else throw invalid_parameter.

Fixpoint getNextId_loop (fuel : nat) (t : tokenId) : Prog XMLPullParser () :=
  match fuel with
  | O => diverge
  | S fuel =>
      s ← get;
      if m_good s then
        if is_type START_TAG s && tokenIsId t s then mret ()
        else nextToken ;; getNextId_loop fuel t
      else mret ()
  end.
Definition getNextId (t : tokenId) (throwIfError : bool) : Prog XMLPullParser () :=
  s ← get;
  getNextId_loop (pull_fuel s) t ;;
  s ← get;
  if negb (m_good s) && throwIfError then throw invalid_parameter else mret ().
End CIMXML.

(** * The pull parser moves on

   Every operation returns or throws; what it passes over is not read again,
   and where it stops is what it promises. *)

(** What is left of the input, and the tags that are open. *)
Abbreviation rest s := (pending (m_parser s)).
Abbreviation opened s := (vstack (m_parser s)).

Section Facts.
Context {se : StreamEnd} {sl : StreamEndLaws}.
Implicit Types s : XMLPullParser.

(** A token has been read, or there was none and no tag is open. *)
Definition read s s' : Prop :=
  if m_good s' then (rest s' < rest s)%nat /\ track (opened s) (m_curTok s') = Some (opened s')
  else m_parser s' = m_parser s /\ opened s = [].

Lemma safe_advance s : safe advance (fun _ s' => read s s') s.
Proof.
  unfold safe, advance, read. pose proof (safe_next (m_parser s)) as H. unfold safe in H.
  destruct (next (m_parser s)) as [[[]| | |] q]; try done; naive_solver.
Qed.

(** Tokens that are not tags leave the open tags alone. *)
Lemma track_plain st t : type t <> START_TAG -> type t <> END_TAG -> track st t = Some st.
Proof using. unfold track. by destruct (type t). Qed.

(** Like [read], over tokens that are not tags. *)
Definition reads s s' : Prop :=
  if m_good s' then (rest s' < rest s)%nat /\ track (opened s) (m_curTok s') = Some (opened s')
  else (rest s' <= rest s)%nat /\ opened s' = [] /\ opened s = [].

Lemma read_reads s s' : read s s' -> reads s s'.
Proof using. unfold read, reads. destruct (m_good s'); [done|]. intros [-> E]. by split_and!. Qed.

Lemma reads_trans s s1 s2 :
  m_good s1 = true -> type (m_curTok s1) <> START_TAG -> type (m_curTok s1) <> END_TAG ->
  reads s s1 -> reads s1 s2 -> reads s s2.
Proof using.
  unfold reads. intros -> H1 H2 [Hr Ht]. rewrite track_plain in Ht by done. injection Ht as ->.
  destruct (m_good s2); [|by intros (? & ? & ?); split_and!; [lia|..]]. intros [? ?]. split; [lia|done].
Qed.

Lemma reads_rest s s' : reads s s' -> (rest s' <= rest s)%nat.
Proof using. unfold reads. destruct (m_good s'); lia || naive_solver. Qed.

Lemma safe_nextToken_loop fuel : forall s, (rest s < fuel)%nat ->
  safe (nextToken_loop fuel) (fun _ s' => reads s s' /\ (m_good s' = true -> type (m_curTok s') <> COMMENT)) s.
Proof.
  induction fuel as [|fuel IH]; intros s Hf; [lia|]. cbn [nextToken_loop]. sstep. eapply safe_mono; [apply safe_advance|].
  intros [] s1 H1. do 2 sstep. pose proof (read_reads _ _ H1) as H1'. unfold is_type.
  destruct (bool_decide (type (m_curTok s1) = COMMENT)) eqn:Ec; [apply bool_decide_eq_true in Ec|apply bool_decide_eq_false in Ec].
  - destruct (m_good s1) eqn:Eg; simpl; [|sstep; by rewrite Eg].
    eapply safe_mono; [apply IH; unfold read in H1; rewrite Eg in H1; lia|]. intros [] s2 [H2 H3]. split; [|done].
    eapply reads_trans; [done|by rewrite Ec..|done|done].
  - simpl. sstep. done.
Qed.

Lemma safe_nextToken s :
  safe nextToken (fun _ s' => reads s s' /\ (m_good s' = true -> type (m_curTok s') <> COMMENT)) s.
Proof. unfold nextToken. do 2 sstep. apply safe_nextToken_loop. unfold pull_fuel. lia. Qed.

(** ** Data *)

Lemma isData_type s : isData s = true <-> type (m_curTok s) = CONTENT \/ type (m_curTok s) = CDATA.
Proof using. unfold isData, is_type. rewrite orb_true_iff, !bool_decide_eq_true. done. Qed.

(** Behind data there is something else or nothing more. *)
Definition skipped s s' : Prop :=
  (isData s' = false \/ m_good s' = false) /\
  (s' = s /\ isData s && m_good s = false \/ isData s = true /\ reads s s').

Lemma skipped_rest s s' : skipped s s' -> (rest s' <= rest s)%nat.
Proof using. intros [_ [[-> _]|[_ H]]]; [done|by apply reads_rest]. Qed.

Lemma safe_skipData_loop fuel : forall s, (S (rest s) < fuel)%nat -> safe (skipData_loop fuel) (fun _ s' => skipped s s') s.
Proof.
  induction fuel as [|fuel IH]; intros s Hf; [lia|]. cbn [skipData_loop]. do 2 sstep.
  destruct (isData s && m_good s) eqn:E; [|sstep; split; [by apply andb_false_iff in E|by left]].
  apply andb_true_iff in E as [Ed Eg].
  sstep. eapply safe_mono; [apply safe_nextToken|]. intros [] s1 [H1 _]. destruct (m_good s1) eqn:Eg1.
  - eapply safe_mono; [apply IH; unfold reads in H1; rewrite Eg1 in H1; lia|]. intros [] s2 [H2 [[-> _]|[Ed1 H3]]].
    + split; [done|]. by right.
    + split; [done|]. right. split; [done|]. apply isData_type in Ed1.
      eapply (reads_trans s s1); [done|by destruct Ed1 as [->| ->]..|done|done].
  - destruct fuel as [|fuel']; [lia|]. cbn [skipData_loop]. do 2 sstep. rewrite Eg1, andb_false_r. sstep.
    split; [by right|by right].
Qed.

Lemma safe_skipData s : safe skipData (fun _ s' => skipped s s') s.
Proof. unfold skipData. do 2 sstep. apply safe_skipData_loop. unfold pull_fuel. lia. Qed.

(** ** Children *)

(** At a start tag one level below [s]; or at the end tag that closes what was
   open at [s], or at the end of the document. *)
Definition child s s' : Prop :=
  if m_good s' then (rest s' < rest s)%nat /\ type (m_curTok s') = START_TAG /\ opened s' = text (m_curTok s') :: opened s
  else (rest s' <= rest s)%nat /\
    (type (m_curTok s') = END_TAG /\ opened s = text (m_curTok s') :: opened s' \/ opened s' = [] /\ opened s = []).

Lemma child_trans s s1 s2 :
  m_good s1 = true -> type (m_curTok s1) <> START_TAG -> type (m_curTok s1) <> END_TAG ->
  reads s s1 -> child s1 s2 -> child s s2.
Proof using.
  unfold reads, child. intros -> H1 H2 [Hr Ht]. rewrite track_plain in Ht by done. injection Ht as ->.
  destruct (m_good s2); intros [? ?]; (split; [lia|done]).
Qed.

Lemma safe_getChild_loop fuel : forall s, (rest s < fuel)%nat -> safe (getChild_loop fuel) (fun _ s' => child s s') s.
Proof.
  induction fuel as [|fuel IH]; intros s Hf; [lia|]. cbn [getChild_loop]. sstep. eapply safe_mono; [apply safe_nextToken|].
  intros [] s1 [H1 _]. do 2 sstep. destruct (m_good s1) eqn:Eg; simpl.
  - pose proof H1 as H1'. unfold reads in H1'. rewrite Eg in H1'. destruct H1' as [Hr Ht].
    assert (type (m_curTok s1) <> START_TAG -> type (m_curTok s1) <> END_TAG ->
      safe (getChild_loop fuel) (fun _ s' => child s s') s1) as Hgo.
    { intros N1 N2. eapply safe_mono; [apply IH; lia|]. intros [] s2. by apply child_trans. }
    destruct (type (m_curTok s1)) eqn:Et; try (by apply Hgo).
    + sstep. unfold child. rewrite Eg. split_and!; [done|done|]. unfold track in Ht. rewrite Et in Ht. by injection Ht.
    + apply safe_modify. unfold child. simpl. split; [lia|]. left. split; [done|]. unfold track in Ht. rewrite Et in Ht.
      destruct (opened s) as [|n st]; [done|]. destruct (bool_decide _) eqn:En; [|done]. apply bool_decide_eq_true in En as ->.
      by injection Ht as ->.
  - sstep. unfold reads in H1. unfold child. rewrite Eg in *. naive_solver.
Qed.

Lemma safe_getChild s : m_good s = true -> safe getChild (fun _ s' => child s s') s.
Proof. intros E. unfold getChild. do 2 sstep. rewrite E. apply safe_getChild_loop. unfold pull_fuel. lia. Qed.

(** ** Elements of CIM-XML *)

Lemma safe_mustGetChildId t s :
  safe (mustGetChildId t) (fun _ s' => m_good s = true /\ m_good s' = true /\ (rest s' < rest s)%nat /\
    type (m_curTok s') = START_TAG /\ text (m_curTok s') = elem_name t /\ opened s' = elem_name t :: opened s) s.
Proof.
  unfold mustGetChildId, set_good. do 2 sstep. destruct (m_good s) eqn:Eg; simpl; [|repeat sstep].
  sstep. eapply safe_mono; [by apply safe_getChild|]. intros [] s1 H1. do 2 sstep. unfold tokenIsId, tokenIs.
  destruct (m_good s1) eqn:Eg1; simpl; [|do 3 sstep]. unfold child in H1. rewrite Eg1 in H1. destruct H1 as (Hr & Ht & Ho).
  destruct (bool_decide _) eqn:En; simpl; [|do 3 sstep]. apply bool_decide_eq_true in En. sstep. rewrite En in Ho. done.
Qed.

Lemma safe_getNextId_loop fuel t : forall s, (S (rest s) < fuel)%nat ->
  safe (getNextId_loop fuel t) (fun _ s' => (rest s' <= rest s)%nat /\
    (m_good s' = true -> type (m_curTok s') = START_TAG /\ text (m_curTok s') = elem_name t)) s.
Proof.
  induction fuel as [|fuel IH]; intros s Hf; [lia|]. cbn [getNextId_loop]. do 2 sstep.
  destruct (m_good s) eqn:Eg; [|sstep; by rewrite Eg]. unfold is_type, tokenIsId, tokenIs.
  destruct (bool_decide (type _ = START_TAG) && _) eqn:E.
  - apply andb_true_iff in E as [E1%bool_decide_eq_true E2%bool_decide_eq_true]. by sstep.
  - sstep. eapply safe_mono; [apply safe_nextToken|]. intros [] s1 [H1 _]. pose proof (reads_rest _ _ H1) as Hr.
    destruct (m_good s1) eqn:Eg1.
    + eapply safe_mono; [apply IH; unfold reads in H1; rewrite Eg1 in H1; lia|]. intros [] s2 [H2 H3]. split; [lia|done].
    + destruct fuel as [|fuel']; [lia|]. cbn [getNextId_loop]. do 2 sstep. rewrite Eg1. sstep. by rewrite Eg1.
Qed.

Lemma safe_getNextId t b s :
  safe (getNextId t b) (fun _ s' => (rest s' <= rest s)%nat /\ (b = true -> m_good s' = true) /\
    (m_good s' = true -> type (m_curTok s') = START_TAG /\ text (m_curTok s') = elem_name t)) s.
Proof.
  unfold getNextId. do 3 sstep. eapply safe_mono; [apply safe_getNextId_loop; unfold pull_fuel; lia|].
  intros [] s1 [H1 H2]. do 2 sstep. destruct (m_good s1) eqn:Eg; simpl; [|destruct b]; sstep; rewrite ?Eg; naive_solver.
Qed.

Lemma safe_mustGetEndTag s : safe mustGetEndTag (fun _ s' => (rest s' <= rest s)%nat /\ (isData s' = false \/ m_good s' = false)) s.
Proof.
  unfold mustGetEndTag. sstep. eapply safe_mono; [apply safe_skipData|]. intros [] s1 H1%skipped_rest. do 2 sstep.
  destruct (is_type END_TAG s1); [|sstep]. sstep. unfold getNext. sstep. eapply safe_mono; [apply safe_nextToken|].
  intros [] s2 [H2%reads_rest _]. unfold check_good. do 2 sstep. rewrite andb_false_r. sstep.
  eapply safe_mono; [apply safe_skipData|]. intros [] s3 H3. pose proof (skipped_rest _ _ H3). split; [lia|apply H3].
Qed.

Lemma safe_must_advance s :
  safe (advance ;; s ← get; if m_good s then mret () else throw semantic_error) (fun _ s' => m_good s' = true /\ reads s s') s.
Proof.
  sstep. eapply safe_mono; [apply safe_advance|]. intros [] s1 H1%read_reads. do 2 sstep.
  destruct (m_good s1) eqn:Eg; sstep. by rewrite Eg.
Qed.

Lemma safe_prime s : safe prime (fun _ s' => (rest s' <= rest s)%nat) s.
Proof.
  unfold prime. cbv zeta. sstep. eapply safe_mono; [apply safe_must_advance|]. intros [] s1 [_ H1%reads_rest]. do 3 sstep.
  assert (forall s0 (b : bool) (Q : () -> XMLPullParser -> Prop), (rest s0 <= rest s)%nat ->
    (forall s', (rest s' <= rest s)%nat -> Q () s') ->
    safe (when b ((advance ;; s ← get; if m_good s then mret () else throw semantic_error) ;; skipData)) Q s0) as Hw.
  { intros s0 b Q H0 HQ. apply safe_when; intros _; [|by apply HQ]. sstep. eapply safe_mono; [apply safe_must_advance|].
    intros [] s2 [_ H2%reads_rest]. eapply safe_mono; [apply safe_skipData|]. intros [] s3 H3%skipped_rest. apply HQ. lia. }
  apply Hw; [lia|]. intros s2 H2. do 2 sstep. apply Hw; [lia|]. intros s3 H3. done.
Qed.
End Facts.
