(* ===== verification/XmlTokens.v ===== *)
(** * The table of element names

   [std::lower_bound] on a sorted table finds the place of a name, so that
   [getTokenFromName] is a look-up of the name in the table. *)

From S2P Require Import Prelude XmlText XmlPull.

(** ** strcmp is a total order *)

Lemma strcmp_eq a : forall b, strcmp a b = Eq <-> a = b.
Proof.
  induction a as [|x a IH]; intros [|y b]; simpl; try done. destruct (Z.compare_spec x y) as [->|H|H].
  - rewrite IH. split; [by intros ->|by intros [= ->]].
  - split; [done|]. intros [= -> _]. lia.
  - split; [done|]. intros [= -> _]. lia.
Qed.

Lemma str_less_trans a : forall b c, str_less a b = true -> str_less b c = true -> str_less a c = true.
Proof.
  unfold str_less. induction a as [|x a IH]; intros [|y b] [|z c]; simpl; try done.
  destruct (Z.compare_spec x y) as [->|H|H]; [|intros _|done].
  - destruct (y ?= z); [apply IH|done..].
  - destruct (Z.compare_spec y z) as [->|H'|H']; [|intros _|done].
    + intros _. by rewrite (proj2 (Z.compare_lt_iff x z) H).
    + by rewrite (proj2 (Z.compare_lt_iff x z)) by lia.
Qed.

Lemma str_less_irrefl a : str_less a a = false.
Proof. unfold str_less. by rewrite (proj2 (strcmp_eq a a) eq_refl). Qed.

(** ** Binary search *)

Definition sorted_names (l : list (bytes * tokenId)) : Prop :=
  forall i j x y, (i < j)%nat -> l !! i = Some x -> l !! j = Some y -> str_less x.1 y.1 = true.

(** The place of [key]: what is before it is less, what is behind is not. *)
Definition place (l : list (bytes * tokenId)) (key : bytes) (n r : nat) : Prop :=
  (r <= n)%nat /\
  (forall i x, (i < r)%nat -> l !! i = Some x -> str_less x.1 key = true) /\
  (forall i x, (r <= i < n)%nat -> l !! i = Some x -> str_less x.1 key = false).

Lemma lower_bound_place l key n : (n <= length l)%nat -> sorted_names l -> forall fuel first len,
  (len < fuel)%nat -> (first + len <= n)%nat ->
  (forall i x, (i < first)%nat -> l !! i = Some x -> str_less x.1 key = true) ->
  (forall i x, (first + len <= i < n)%nat -> l !! i = Some x -> str_less x.1 key = false) ->
  place l key n (lower_bound l key fuel first len).
Proof.
  intros Hn Hs. induction fuel as [|fuel IH]; intros first len Hf Hl H1 H2; [lia|]. cbn [lower_bound].
  destruct (Nat.eqb_spec len 0) as [->|Hlen].
  { split_and!; [lia|done|]. intros i x Hi. apply H2. lia. }
  pose proof (Nat.div_lt len 2 ltac:(lia) ltac:(lia)) as Hh. set (half := (len / 2)%nat) in *. cbv zeta.
  destruct (lookup_lt_is_Some_2 l (first + half)) as [e He]; [lia|]. rewrite He.
  destruct (str_less e.1 key) eqn:Ee.
  - apply IH; [lia|lia| |].
    + intros i x Hi Hx. destruct (decide (i = first + half)%nat) as [->|Hne]; [by simplify_eq|].
      eapply str_less_trans; [|exact Ee]. eapply Hs; [|exact Hx|exact He]. lia.
    + intros i x Hi. apply H2. lia.
  - apply IH; [lia|lia|done|]. intros i x Hi Hx. destruct (decide (i = first + half)%nat) as [->|Hne]; [by simplify_eq|].
    destruct (str_less x.1 key) eqn:Ex; [|done].
    assert (str_less e.1 key = true); [|congruence]. eapply str_less_trans; [|exact Ex]. eapply Hs; [|exact He|exact Hx]. lia.
Qed.

(** ** The table *)

Fixpoint sortedb (l : list (bytes * tokenId)) : bool :=
  match l with
  | x :: (y :: _) as r => str_less x.1 y.1 && sortedb r
  | _ => true
  end.

Lemma sortedb_sorted l : sortedb l = true -> sorted_names l.
Proof.
  induction l as [|x [|y r] IH]; intros H; [by intros [|i] j| by intros [|i] [|j]; simpl; lia || done|].
  simpl in H. apply andb_true_iff in H as [Hxy H]. specialize (IH H). intros i j a b Hij Ha Hb.
  destruct j as [|j]; [lia|]. destruct i as [|i]; simpl in *; [|eapply IH; [|exact Ha|exact Hb]; lia]. injection Ha as <-.
  destruct j as [|j]; [by injection Hb as <-|]. eapply str_less_trans; [exact Hxy|]. apply (IH 0%nat (S j) y b); [lia|done|done].
Qed.

Abbreviation known := (take elems_count g_elems).

Lemma known_sorted : sorted_names known.
Proof. apply sortedb_sorted. by vm_compute. Qed.

Lemma known_lookup i : (i < elems_count)%nat -> g_elems !! i = known !! i.
Proof. intros H. by rewrite lookup_take_lt. Qed.

(** The search only looks at the entries before [g_elemsEnd]. *)
Lemma lower_bound_known key fuel : forall first len, (first + len <= elems_count)%nat ->
  lower_bound g_elems key fuel first len = lower_bound known key fuel first len.
Proof.
  induction fuel as [|fuel IH]; intros first len Hl; [done|]. cbn [lower_bound].
  destruct (Nat.eqb_spec len 0) as [->|Hlen]; [done|]. cbv zeta.
  pose proof (Nat.div_lt len 2 ltac:(lia) ltac:(lia)). rewrite known_lookup by lia.
  destruct (known !! _); [|done]. destruct (str_less _ _); apply IH; lia.
Qed.

Lemma getTokenFromName_found i e : known !! i = Some e -> getTokenFromName e.1 = e.2.
Proof.
  intros He. assert (i < elems_count)%nat as Hi by (apply lookup_lt_Some in He; rewrite length_take in He; lia).
  assert (elems_count = length known) as Hn by (by vm_compute).
  unfold getTokenFromName. rewrite lower_bound_known by lia.
  destruct (lower_bound_place known e.1 elems_count ltac:(lia) known_sorted (S elems_count) 0 elems_count)
    as (H0 & H1 & H2); [lia|lia|lia|lia|]. set (r := lower_bound _ _ _ _ _) in *. clearbody r.
  assert (r = i) as ->.
  { destruct (Nat.lt_trichotomy r i) as [Hr|[Hr|Hr]]; [|done|].
    - destruct (lookup_lt_is_Some_2 known r) as [x Hx]; [lia|].
      pose proof (H2 r x ltac:(lia) Hx) as E. by rewrite (known_sorted r i x e Hr Hx He) in E.
    - pose proof (H1 i e Hr He) as E. by rewrite str_less_irrefl in E. }
  destruct (Nat.eqb_spec i elems_count); [lia|]. rewrite known_lookup, He by lia. by rewrite (proj2 (strcmp_eq _ _) eq_refl).
Qed.

Lemma getTokenFromName_unknown n : (forall e, e ∈ known -> e.1 <> n) -> getTokenFromName n = E_UNKNOWN.
Proof.
  intros Hn. unfold getTokenFromName. cbv zeta. destruct (Nat.eqb_spec (lower_bound g_elems n (S elems_count) 0 elems_count) elems_count) as [|Hne]; [done|].
  set (r := lower_bound _ _ _ _ _) in *.
  assert (r <= elems_count)%nat as Hr.
  { unfold r. rewrite lower_bound_known by lia.
    apply (lower_bound_place known n elems_count); [by vm_compute|apply known_sorted|lia|lia|lia|lia]. }
  clearbody r. destruct (g_elems !! r) as [e|] eqn:He; [|done]. destruct (strcmp e.1 n) eqn:Ec; [|done..].
  apply strcmp_eq in Ec. destruct (Hn e); [|done]. rewrite known_lookup in He by lia. by eapply list_elem_of_lookup_2.
Qed.

(** The table is indexed by the enumerators. *)
Lemma g_elems_index t : g_elems !! enum_value t = Some (elem_name t, t).
Proof. by destruct t. Qed.

Lemma getTokenFromName_name t : t <> E_UNKNOWN -> getTokenFromName (elem_name t) = t.
Proof.
  intros Ht. apply (getTokenFromName_found (enum_value t) (elem_name t, t)). rewrite <- known_lookup, g_elems_index; [done|].
  by destruct t; try (vm_compute; lia).
Qed.

Lemma getTokenFromName_spec n t : t <> E_UNKNOWN -> getTokenFromName n = t <-> n = elem_name t.
Proof.
  intros Ht. split; [|intros ->; by apply getTokenFromName_name].
  destruct (list_find (fun e : bytes * tokenId => e.1 = n) known) as [[i e]|] eqn:E.
  - apply list_find_Some in E as (He & <- & _). rewrite (getTokenFromName_found i e He). intros <-.
    assert (i < elems_count)%nat as Hi by (apply lookup_lt_Some in He; rewrite length_take in He; lia).
    rewrite <- known_lookup in He by done. destruct e as [m t]. simpl in *.
    assert (forallb (fun e : bytes * tokenId => bool_decide (e.1 = elem_name e.2)) g_elems = true) as Hall by (by vm_compute).
    rewrite forallb_forall in Hall. apply list_elem_of_lookup_2, list_elem_of_In in He.
    apply Hall in He. by apply bool_decide_eq_true in He.
  - apply list_find_None in E. rewrite getTokenFromName_unknown; [by intros <-|]. by apply Forall_forall.
Qed.
