(* ===== verification/XmlMain.v ===== *)
(** * The theorems on XML

   The properties of the escaping functions, of the parser and of documents,
   with witnesses over a stream that reads NUL at its end. *)

From S2P Require Import Prelude XmlText XmlParser XmlDom XmlPrint XmlSax XmlRoundtrip XmlPull XmlTokens.

(** C27: for every text but one that ends inside a surrogate, [XMLEscape]
   returns a text without the characters that have a meaning in XML and without
   control characters that XML forbids (but form feed), and [XMLUnescape] reads
   it back as the text with the forbidden sequences replaced by U+FFFD: the very
   same text when there are none. *)
Theorem escape_roundtrip l :
  ~ cut_off l ->
  exists e t, XMLEscape l = Ok e /\ Forall (fun c => is_markup c = false) e /\
    XMLUnescape e = Ok t /\ scrub l = Ok t /\ (clean l = true -> t = l).
Proof.
  intros (t & Et & Ee & Eu & Hm)%XMLEscape_total. exists (esc_text t), t. split_and!; [done..|].
  intros Hc%scrub_clean. congruence.
Qed.

Section Theorems.
Context {se : StreamEnd} {sl : StreamEndLaws}.

(** [while (parser.next(token))]: the tokens and how the loop ended. *)
Fixpoint read_tokens (fuel : nat) (p : XMLParser) : list XMLToken * outcome () :=
  match fuel with
  | O => ([], Diverge)
  | S fuel =>
      match next p with
      | (Ok true, q) => let '(l, o) := read_tokens fuel q in (entry q :: l, o)
      | (Ok false, _) => ([], Ok ())
      | (Throw e, _) => ([], Throw e)
      | (Crash, _) => ([], Crash)
      | (Diverge, _) => ([], Diverge)
      end
  end.

(** The tags that the tokens leave open; [None] when an end tag does not match. *)
Definition track_all (st : list bytes) (l : list XMLToken) : option (list bytes) :=
  foldl (fun o t => o ≫= fun st => track st t) (Some st) l.

Lemma track_all_cons st t l : track_all st (t :: l) = track st t ≫= fun st => track_all st l.
Proof using.
  unfold track_all. simpl. destruct (track st t); simpl; [done|]. by induction l.
Qed.

Lemma read_tokens_nested fuel : forall p, (pending p < fuel)%nat ->
  let '(l, o) := read_tokens fuel p in
  exists st, track_all (vstack p) l = Some st /\ (length l <= pending p)%nat /\
    match o with Ok _ => st = [] | Throw _ => True | _ => False end.
Proof.
  induction fuel as [|fuel IH]; intros p Hf; [lia|]. cbn [read_tokens]. pose proof (safe_next p) as Hs. unfold safe in Hs.
  destruct (next p) as [[[]| | |] q]; try done.
  - destruct Hs as [Hp Ht]. specialize (IH q ltac:(lia)). destruct (read_tokens fuel q) as [l o].
    destruct IH as (st & Et & Hl & Ho). exists st. rewrite track_all_cons, Ht. split_and!; [done|simpl; lia|done].
  - destruct Hs as [_ Ev]. exists []. rewrite Ev. split_and!; [done|simpl; lia|done].
  - exists (vstack p). split_and!; [done|simpl; lia|done].
Qed.

(** C28: on every input the parser ends, with an exception or at the end of the
   document, after at most twice as many tokens as there are characters; the
   end tags it delivered match the start tags (an empty tag delivers both), and
   at the end of a document no tag is open. *)
Theorem parser_nests input :
  let '(l, o) := read_tokens (S (2 * length input)) (newParser input) in
  exists st, track_all [] l = Some st /\ (length l <= 2 * length input)%nat /\
    match o with Ok _ => st = [] | Throw _ => True | _ => False end.
Proof.
  pose proof (read_tokens_nested (S (2 * length input)) (newParser input)) as H.
  unfold pending in H. cbn [newParser m_current m_tagIsEmpty] in H. rewrite Nat.add_0_r in H. apply H. lia.
Qed.

(** C29: parsing any input into a document ends in a document or an exception:
   the builder never takes a node from an empty stack, never follows a
   reference that is null, and all references of the document are nodes of
   it. *)
Theorem dom_parse_total input :
  match dom_parse input with
  | Ok (h, i) => (i < length h)%nat /\ Forall (node_ok h) h
  | Throw _ => True
  | _ => False
  end.
Proof. pose proof (dom_parse_fine input) as H. unfold fine in H. destruct (dom_parse input) as [[h i]| | |]; naive_solver. Qed.

(** C30: a node whose names are names and whose text has no forbidden characters
   is printed as XML that parses to a document with the same tree: names,
   attributes in order, text and children. *)
Theorem document_roundtrip h i t ts fuel :
  reps h (Some i) (t :: ts) -> tree_ok t = true -> (size t <= fuel)%nat ->
  exists s h' i', printNode fuel h i = Ok s /\ dom_parse s = Ok (h', i') /\ reps h' (Some i') [t].
Proof.
  intros Hr Ht Hf. destruct (dom_parse_print t Ht) as (h' & Ep & Hr'). exists (print_tree t), h', 0%nat.
  split_and!; [|done..]. by eapply printNode_ok.
Qed.

End Theorems.

(** The binary search in the table of element names is a look-up: a name
   gives the enumerator whose entry has that name, and E_UNKNOWN when there is
   none; the table is indexed by the enumerators, as [tokenIsId] relies on. *)
Theorem element_lookup n t :
  g_elems !! enum_value t = Some (elem_name t, t) /\
  (t <> E_UNKNOWN -> getTokenFromName n = t <-> n = elem_name t) /\
  ((forall u, u <> E_UNKNOWN -> n <> elem_name u) -> getTokenFromName n = E_UNKNOWN).
Proof.
  split_and!; [apply g_elems_index|apply getTokenFromName_spec|]. intros Hn.
  destruct (getTokenFromName n) eqn:E; try done; (apply getTokenFromName_spec in E; [|done]; by eapply Hn in E).
Qed.

Module XmlEx.
#[export] Instance nul_end : StreamEnd := {| eof_char := 0 |}.
#[export] Instance nul_end_laws : StreamEndLaws.
Proof. split. reflexivity. Defined.

Definition text1 : bytes := txt "a<b & c" ++ [1; 0xED; 0xA1; 0x80].

Lemma escape_witness :
  exists e t, XMLEscape text1 = Ok e /\ XMLUnescape e = Ok t /\ t = txt "a<b & c" ++ REPLACEMENT ++ REPLACEMENT.
Proof.
  destruct (escape_roundtrip text1) as (e & t & H1 & _ & H2 & H3 & _).
  - intros (p & c & E & Hc). destruct (app_inj_2 (take 9 text1) p [0xA1; 0x80] [0xED; c] eq_refl E) as [_ [= <- <-]].
  - exists e, t. split; [exact H1|]. split; [exact H2|]. injection H3 as <-. vm_compute. reflexivity.
Defined.

Definition doc : bytes := txt "<a x='1'>t<b/></a>".

Lemma parser_witness :
  map (fun t => (type t, text t)) (read_tokens (S (2 * length doc)) (newParser doc)).1 =
    [(START_TAG, txt "a"); (CONTENT, txt "t"); (START_TAG, txt "b"); (END_TAG, txt "b"); (END_TAG, txt "a")] /\
  exists st, track_all [] (read_tokens (S (2 * length doc)) (newParser doc)).1 = Some st.
Proof.
  split; [vm_compute; reflexivity|]. pose proof (parser_nests doc) as H.
  destruct (read_tokens (S (2 * length doc)) (newParser doc)) as [l o]. destruct H as (st & H & _). exists st. exact H.
Defined.

Lemma dom_witness : match dom_parse doc with Ok (h, i) => (i < length h)%nat | _ => False end.
Proof.
  pose proof (dom_parse_total doc) as H. replace (dom_parse doc) with
    (Ok ([mkNode None (Some 1%nat) (Some 1%nat) [mkAttribute (txt "x") (txt "1")] (txt "a") (txt "t");
         newXMLNode (txt "b") []], 0%nat)) in * by (vm_compute; reflexivity). exact (proj1 H).
Defined.

Definition heap1 : Heap :=
  [mkNode None (Some 1%nat) (Some 2%nat) [mkAttribute (txt "x") (txt "<1>")] (txt "a") (txt "t & u");
   set_next (Some 2%nat) (newXMLNode (txt "b") []); newXMLNode (txt "c") [mkAttribute (txt "y") []]].
Definition tree1 : XTree :=
  XNode (txt "a") [mkAttribute (txt "x") (txt "<1>")] (txt "t & u")
    [XNode (txt "b") [] [] []; XNode (txt "c") [mkAttribute (txt "y") []] [] []].

Lemma tree1_reps : reps heap1 (Some 0%nat) [tree1].
Proof.
  apply (reps_cons heap1 0 (mkNode None (Some 1%nat) (Some 2%nat) [mkAttribute (txt "x") (txt "<1>")] (txt "a") (txt "t & u"))
    [XNode (txt "b") [] [] []; XNode (txt "c") [mkAttribute (txt "y") []] [] []] []); [reflexivity| |constructor].
  apply (reps_cons heap1 1 (set_next (Some 2%nat) (newXMLNode (txt "b") [])) [] [XNode (txt "c") [mkAttribute (txt "y") []] [] []]);
    [reflexivity|constructor|].
  apply (reps_cons heap1 2 (newXMLNode (txt "c") [mkAttribute (txt "y") []]) [] []); [reflexivity|constructor..].
Qed.

Lemma document_witness :
  exists s h' i', printNode 4 heap1 0 = Ok s /\ dom_parse s = Ok (h', i') /\ reps h' (Some i') [tree1].
Proof.
  apply (document_roundtrip heap1 0 tree1 [] 4); [exact tree1_reps|vm_compute; reflexivity|vm_compute; lia].
Defined.


Lemma lookup_witness : getTokenFromName (txt "VALUE.ARRAY") = E_VALUE_ARRAY.
Proof.
  destruct (element_lookup (txt "VALUE.ARRAY") E_VALUE_ARRAY) as (_ & H & _). apply H; [discriminate|vm_compute; reflexivity].
Defined.
End XmlEx.
