(* ===== verification/HttpBase64.v ===== *)
(** * Base64

   [base64Encode] and [base64Decode] of src/src/http/common/OW_HTTPUtils.cpp,
   with their buffers: an access outside of a buffer is undefined behaviour
   ([Crash]), and sizes are the [int]s of the code.  A [BLOCXX_ASSERT] that
   fails throws when assertions are compiled in ([asserts]). *)

From S2P Require Import Prelude XmlText XmlParser.

Definition Base64 : bytes := txt "ABCDEFGHIJKLMNOPQRSTUVWXYZabcdefghijklmnopqrstuvwxyz0123456789+/".
Definition Pad64 : Z := 61.

(** ** Encoding *)

(** [Base64[size_t(a)]] *)
Definition b64char (a : Z) : outcome Z := present (Base64 !! Z.to_nat a).

(** [sprintf(dst, ...)] of the characters and the terminating NUL. *)
Definition put_chars (dst : nat) (cs dest : bytes) : outcome bytes :=
  if (dst + length cs + 1 <=? length dest)%nat
  then Ok (take dst dest ++ cs ++ 0 :: drop (dst + length cs + 1) dest)
  else Crash.

Section Encode.
Variable asserts : bool.

Definition check_room (dst : nat) (dest : bytes) : outcome () :=
  if asserts && negb (dst + 5 <=? length dest)%nat then Throw "AssertionException" else Ok ().

(** One group of four characters. *)
Definition put_group (sextets : list Z) (pad : bytes) (dst : nat) (dest : bytes) : outcome (nat * bytes) :=
  check_room dst dest ≫= fun _ =>
  mapM b64char sextets ≫= fun cs =>
  put_chars dst (cs ++ pad) dest ≫= fun dest => Ok ((dst + 4)%nat, dest).

(** The loop over [enclen] groups: three bytes from [cp] become four characters. *)
Fixpoint encode_loop (enclen : nat) (cp : bytes) (dst : nat) (dest : bytes) : outcome (bytes * nat * bytes) :=
  match enclen with
  | O => Ok (cp, dst, dest)
  | S enclen =>
      match cp with
      | c0 :: c1 :: c2 :: cp =>
          let a := Z.shiftr c0 2 in
          let b := Z.lor (Z.land (Z.shiftl c0 4) 0x30) (Z.shiftr c1 4) in
          let c := Z.lor (Z.land (Z.shiftl c1 2) 0x3c) (Z.shiftr c2 6) in
          let d := Z.land c2 0x3f in
          put_group [a; b; c; d] [] dst dest ≫= fun '(dst, dest) => encode_loop enclen cp dst dest
      | _ => Crash
      end
  end.

(** The one or two bytes that are left. *)
Definition encode_rest (remlen : Z) (cp : bytes) (dst : nat) (dest : bytes) : outcome (nat * bytes) :=
  if remlen =? 1 then
    match cp with
    | c0 :: _ => put_group [Z.shiftr c0 2; Z.land (Z.shiftl c0 4) 0x30] [Pad64; Pad64] dst dest
    | [] => Crash
    end
  else if remlen =? 2 then
    match cp with
    | c0 :: c1 :: _ =>
        put_group [Z.shiftr c0 2; Z.lor (Z.land (Z.shiftl c0 4) 0x30) (Z.shiftr c1 4); Z.land (Z.shiftl c1 2) 0x3c]
          [Pad64] dst dest
    | _ => Crash
    end
  else Ok (dst, dest).

Definition base64Encode (src : bytes) : outcome bytes :=
  let len := zlen src in
  let szdest := s32 (len / 3 * 4 + 1 + (if len mod 3 =? 0 then 0 else 4)) in
  if szdest <? 0 then Throw "std::bad_array_new_length"
  else if szdest =? 0 then Crash
  else
    let dest := replicate (Z.to_nat szdest) 0 in
    let srclen := s32 len in
    let enclen := Z.quot srclen 3 in
    let remlen := srclen - 3 * enclen in
    encode_loop (Z.to_nat enclen) src 0 dest ≫= fun '(cp, dst, dest) =>
    encode_rest remlen cp dst dest ≫= fun '(dst, dest) =>
    Ok (take dst dest).
End Encode.

(** ** Decoding *)

Definition char2val (c : Z) : Z :=
  if (65 <=? c) && (c <=? 90) then c - 65
  else if (97 <=? c) && (c <=? 122) then c - 97 + 26
  else if (48 <=? c) && (c <=? 57) then c - 48 + 52
  else if c =? 43 then 62
  else if c =? 47 then 63
  else -1.

Definition Base64FormatException : string := "Base64FormatException: non-base64 char".

Record Decoder := mkDecoder { dest : bytes; destidx : nat; dstate : Z }.

(** [dest[i] = v] and [dest[i] |= v], in a char. *)
Definition set_char (i : nat) (v : Z) (l : bytes) : outcome bytes :=
  if (i <? length l)%nat then Ok (<[i := u8 v]> l) else Crash.
Definition or_char (i : nat) (v : Z) (l : bytes) : outcome bytes :=
  present (l !! i) ≫= fun x => set_char i (Z.lor x v) l.

(** The [switch] on the state, with its checks against the size. *)
Definition decode_digit (v : Z) (d : Decoder) : outcome Decoder :=
  let i := destidx d in
  let l := dest d in
  let s := dstate d in
  if s =? 0 then
    if (length l <=? i)%nat then Throw Base64FormatException
    else set_char i (Z.shiftl v 2) l ≫= fun l => Ok (mkDecoder l i 1)
  else if s =? 1 then
    if (length l <=? i + 1)%nat then Throw Base64FormatException
    else
      or_char i (Z.shiftr v 4) l ≫= fun l =>
      set_char (i + 1) (Z.shiftl (Z.land v 0x0f) 4) l ≫= fun l => Ok (mkDecoder l (i + 1) 2)
  else if s =? 2 then
    if (length l <=? i + 1)%nat then Throw Base64FormatException
    else
      or_char i (Z.shiftr v 2) l ≫= fun l =>
      set_char (i + 1) (Z.shiftl (Z.land v 0x03) 6) l ≫= fun l => Ok (mkDecoder l (i + 1) 3)
  else
    if (length l <=? i)%nat then Throw Base64FormatException
    else or_char i v l ≫= fun l => Ok (mkDecoder l (i + 1) 0).

(** The loop: how it ended ([Some r]: at a pad, before [r]). *)
Fixpoint decode_loop (src : bytes) (d : Decoder) : outcome (option bytes * Decoder) :=
  match src with
  | [] => Ok (None, d)
  | ch :: src =>
      if ch =? 0 then Ok (None, d)
      else if isspace ch then decode_loop src d
      else if ch =? Pad64 then Ok (Some src, d)
      else if char2val ch =? -1 then Throw Base64FormatException
      else decode_digit (char2val ch) d ≫= fun d => decode_loop src d
  end.

(** [for (; ch != 0; ch = *src++) if (!isspace(ch)) break]: at the character
   that is not a space; [None] at the end. *)
Fixpoint skip_pad_spaces (src : bytes) : option (Z * bytes) :=
  match src with
  | [] => None
  | ch :: src => if ch =? 0 then None else if isspace ch then skip_pad_spaces src else Some (ch, src)
  end.

(** Behind a pad character. *)
Definition decode_pad (src : bytes) (d : Decoder) : outcome () :=
  let last src :=
    match skip_pad_spaces src with
    | Some _ => Throw Base64FormatException
    | None => present (dest d !! destidx d) ≫= fun x => if x =? 0 then Ok () else Throw Base64FormatException
    end in
  if (dstate d =? 0) || (dstate d =? 1) then Throw Base64FormatException
  else if dstate d =? 2 then
    match skip_pad_spaces src with
    | Some (ch, src) => if ch =? Pad64 then last src else Throw Base64FormatException
    | None => Throw Base64FormatException
    end
  else last src.

(** [strlen] *)
Fixpoint strlen (src : bytes) : Z := match src with [] => 0 | c :: r => if c =? 0 then 0 else 1 + strlen r end.

Definition base64Decode (src : bytes) : outcome bytes :=
  let szdest := s32 (strlen src * 3 / 4 + 3) in
  if szdest <? 0 then Throw "std::bad_array_new_length"
  else
    decode_loop src (mkDecoder (replicate (Z.to_nat szdest) 0) 0 0) ≫= fun '(o, d) =>
    match o with
    | Some r => decode_pad r d
    | None => if dstate d =? 0 then Ok () else Throw Base64FormatException
    end ≫= fun _ =>
    Ok (take (destidx d) (dest d)).

(** * Base64 is a bijection

   Encoding fills its buffer exactly and writes the characters of [enc_spec];
   decoding never leaves its buffer and accepts exactly what encoding writes, up
   to white space: the bits behind the last byte have to be zero. *)

(** Division and remainder by constants in [lia]. *)
Ltac Zify.zify_post_hook ::= Z.to_euclidean_division_equations.

Abbreviation zeros n := (replicate n 0).
Definition is_octet (b : Z) : Prop := 0 <= b < 256.
Definition is_sextet (v : Z) : Prop := 0 <= v < 64.

(** ** Bits *)

Lemma land_shift a b k : 0 <= k -> 0 <= b < 2 ^ k -> Z.land (a * 2 ^ k) b = 0.
Proof.
  intros Hk Hb. apply Z.bits_inj'. intros n Hn. rewrite Z.land_spec, Z.bits_0. destruct (Z.lt_ge_cases n k) as [H|H].
  - by rewrite Z.mul_pow2_bits_low.
  - replace b with (b mod 2 ^ k) by (by apply Z.mod_small). by rewrite Z.mod_pow2_bits_high, andb_false_r by lia.
Qed.

Lemma lor_add a b k : 0 <= k -> 0 <= b < 2 ^ k -> Z.lor (a * 2 ^ k) b = a * 2 ^ k + b.
Proof.
  intros Hk Hb. rewrite Z.add_nocarry_lxor by (by apply land_shift). symmetry. apply Z.lxor_lor. by apply land_shift.
Qed.

Lemma low_bits b k : 0 <= k -> Z.land b (2 ^ k - 1) = b mod 2 ^ k.
Proof. intros Hk. rewrite <- Z.land_ones by done. f_equal. rewrite Z.ones_equiv. lia. Qed.

(** The four sextets of the code in arithmetic. *)
Lemma shl_30 c : is_octet c -> Z.land (Z.shiftl c 4) 0x30 = c mod 4 * 16.
Proof.
  intros Hc. assert (forallb (fun c => Z.land (Z.shiftl c 4) 0x30 =? c mod 4 * 16) (seqZ 0 256) = true) as H by (by vm_compute).
  rewrite forallb_forall in H. apply Z.eqb_eq, H, list_elem_of_In, elem_of_seqZ. unfold is_octet in Hc. lia.
Qed.

Lemma shl_3c c : is_octet c -> Z.land (Z.shiftl c 2) 0x3c = c mod 16 * 4.
Proof.
  intros Hc. assert (forallb (fun c => Z.land (Z.shiftl c 2) 0x3c =? c mod 16 * 4) (seqZ 0 256) = true) as H by (by vm_compute).
  rewrite forallb_forall in H. apply Z.eqb_eq, H, list_elem_of_In, elem_of_seqZ. unfold is_octet in Hc. lia.
Qed.

Lemma sextet_b c0 c1 : is_octet c0 -> is_octet c1 ->
  Z.lor (Z.land (Z.shiftl c0 4) 0x30) (Z.shiftr c1 4) = c0 mod 4 * 16 + c1 / 16.
Proof.
  intros H0 H1. rewrite shl_30, Z.shiftr_div_pow2 by (done || lia). change (2 ^ 4) with 16.
  apply (lor_add _ _ 4); [lia|]. unfold is_octet in H1. change (2 ^ 4) with 16. lia.
Qed.

Lemma sextet_c c1 c2 : is_octet c1 -> is_octet c2 ->
  Z.lor (Z.land (Z.shiftl c1 2) 0x3c) (Z.shiftr c2 6) = c1 mod 16 * 4 + c2 / 64.
Proof.
  intros H0 H1. rewrite shl_3c, Z.shiftr_div_pow2 by (done || lia). change (2 ^ 6) with 64.
  apply (lor_add _ _ 2); [lia|]. unfold is_octet in H1. change (2 ^ 2) with 4. lia.
Qed.

(** ** What encoding writes *)

Definition ch (v : Z) : Z := default 0 (Base64 !! Z.to_nat v).

(** Sextets and padding of a text. *)
Fixpoint sextets (l : bytes) : list Z :=
  match l with
  | c0 :: c1 :: c2 :: r => c0 / 4 :: c0 mod 4 * 16 + c1 / 16 :: c1 mod 16 * 4 + c2 / 64 :: c2 mod 64 :: sextets r
  | [c0; c1] => [c0 / 4; c0 mod 4 * 16 + c1 / 16; c1 mod 16 * 4]
  | [c0] => [c0 / 4; c0 mod 4 * 16]
  | [] => []
  end.
Fixpoint padding (l : bytes) : bytes :=
  match l with _ :: _ :: _ :: r => padding r | [_; _] => [Pad64] | [_] => [Pad64; Pad64] | [] => [] end.
Definition enc_spec (l : bytes) : bytes := (ch <$> sextets l) ++ padding l.

(** Induction in steps of three and of four. *)
Lemma list_ind3 {A} (P : list A -> Prop) :
  P [] -> (forall a, P [a]) -> (forall a b, P [a; b]) -> (forall a b c r, P r -> P (a :: b :: c :: r)) -> forall l, P l.
Proof. intros H0 H1 H2 H3. fix IH 1. intros [|a [|b [|c r]]]; [done|apply H1|apply H2|apply H3, IH]. Qed.

Lemma list_ind4 {A} (P : list A -> Prop) :
  P [] -> (forall a, P [a]) -> (forall a b, P [a; b]) -> (forall a b c, P [a; b; c]) ->
  (forall a b c d r, P r -> P (a :: b :: c :: d :: r)) -> forall l, P l.
Proof. intros H0 H1 H2 H3 H4. fix IH 1. intros [|a [|b [|c [|d r]]]]; [done|apply H1|apply H2|apply H3|apply H4, IH]. Qed.

Lemma sextets_range l : Forall is_octet l -> Forall is_sextet (sextets l).
Proof.
  induction l as [|a|a b|a b c r IH] using list_ind3; intros H; simpl; rewrite ?Forall_cons in *; unfold is_octet, is_sextet in *.
  all: split_and?; lia || constructor || (apply IH; tauto).
Qed.

Lemma enc_spec_length l : length (enc_spec l) = (4 * ((length l + 2) / 3))%nat.
Proof.
  unfold enc_spec. rewrite length_app, length_fmap.
  induction l as [|a|a b|a b c r IH] using list_ind3; [done..|]. cbn [sextets padding length].
  replace (S (S (S (length r))) + 2)%nat with ((length r + 2) + 1 * 3)%nat by lia. rewrite Nat.div_add by lia. lia.
Qed.

(** ** Encoding *)

Lemma b64char_ok v : is_sextet v -> b64char v = Ok (ch v).
Proof.
  intros H. unfold b64char, ch. destruct (lookup_lt_is_Some_2 Base64 (Z.to_nat v)) as [x Hx].
  - unfold is_sextet in H. change (length Base64) with 64%nat. lia.
  - by rewrite Hx.
Qed.

Lemma mapM_b64char vs : Forall is_sextet vs -> mapM b64char vs = Ok (ch <$> vs).
Proof.
  induction 1 as [|v vs Hv _ IH]; [done|]. cbn [mapM]. rewrite b64char_ok by done. cbn [mbind outcome_bind]. rewrite IH. done.
Qed.

Section Encoding.
Variable asserts : bool.

Lemma put_group_ok vs pad pre m :
  Forall is_sextet vs -> (length vs + length pad = 4)%nat -> (5 <= m)%nat ->
  put_group asserts vs pad (length pre) (pre ++ zeros m) =
  Ok ((length pre + 4)%nat, pre ++ ((ch <$> vs) ++ pad) ++ zeros (m - 4)).
Proof.
  intros Hv Hl Hm. unfold put_group, check_room. rewrite length_app, length_replicate.
  replace (length pre + 5 <=? length pre + m)%nat with true by (symmetry; apply Nat.leb_le; lia).
  rewrite andb_false_r. cbn [mbind outcome_bind]. rewrite mapM_b64char by done. cbn [mbind outcome_bind].
  unfold put_chars. set (cs := (ch <$> vs) ++ pad).
  assert (length cs = 4%nat) as Hcs by (unfold cs; rewrite length_app, length_fmap; lia).
  rewrite Hcs, length_app, length_replicate.
  replace (length pre + 4 + 1 <=? length pre + m)%nat with true by (symmetry; apply Nat.leb_le; lia).
  rewrite take_app_length. replace (length pre + 4 + 1)%nat with (length pre + 5)%nat by lia.
  rewrite drop_app_add. rewrite drop_replicate. replace (m - 4)%nat with (S (m - 5)) by lia. done.
Qed.

Lemma encode_all n : forall src pre m,
  Forall is_octet src -> (length src / 3 = n)%nat -> (length (enc_spec src) < m)%nat ->
  (encode_loop asserts n src (length pre) (pre ++ zeros m) ≫= fun '(cp, dst, dest) =>
   encode_rest asserts (Z.of_nat (length src mod 3)) cp dst dest) =
  Ok ((length pre + length (enc_spec src))%nat, pre ++ enc_spec src ++ zeros (m - length (enc_spec src))).
Proof.
  induction n as [|n IH]; intros src pre m Hs Hn Hm.
  - assert (length src < 3)%nat as Hlt by (apply Nat.div_small_iff in Hn; lia). rewrite Nat.mod_small by done.
    pose proof (sextets_range src Hs) as Hr. unfold enc_spec in *.
    destruct src as [|a [|b [|c r]]]; simpl in Hlt; [| | |lia]; cbn [encode_loop mbind outcome_bind length] in *; unfold encode_rest.
    + simpl. by rewrite Nat.add_0_r, Nat.sub_0_r.
    + apply Forall_cons in Hs as [Ha _]. cbn [Z.of_nat]. simpl (1 =? 1). cbv iota.
      replace (Z.shiftr a 2) with (a / 4) by (by rewrite Z.shiftr_div_pow2). rewrite shl_30 by done. rewrite put_group_ok.
      * done.
      * done.
      * done.
      * simpl in Hm. lia.
    + apply Forall_cons in Hs as [Ha Hs]. apply Forall_cons in Hs as [Hb _].
      change (Z.of_nat 2 =? 1) with false. change (Z.of_nat 2 =? 2) with true. cbv iota.
      replace (Z.shiftr a 2) with (a / 4) by (by rewrite Z.shiftr_div_pow2). rewrite sextet_b, shl_3c by done. rewrite put_group_ok.
      * done.
      * done.
      * done.
      * simpl in Hm. lia.
  - destruct src as [|a [|b [|c r]]]; [done..|]. pose proof (sextets_range _ Hs) as Hr. cbn [sextets] in Hr.
    do 4 apply Forall_cons in Hr as [? Hr].
    do 3 (apply Forall_cons in Hs as [? Hs]).
    assert (length (enc_spec (a :: b :: c :: r)) = 4 + length (enc_spec r))%nat as El.
    { unfold enc_spec. rewrite !length_app, !length_fmap. simpl. lia. }
    rewrite El in Hm. cbn [encode_loop]. cbv zeta.
    replace (Z.shiftr a 2) with (a / 4) by (by rewrite Z.shiftr_div_pow2).
    rewrite sextet_b, sextet_c by done. change 0x3f with (2 ^ 6 - 1). rewrite low_bits by lia. change (2 ^ 6) with 64.
    rewrite put_group_ok; [|by repeat first [apply Forall_nil_2|apply Forall_cons_2; [done|]]|done|lia]. cbn [mbind outcome_bind].
    set (g := (ch <$> _) ++ []).
    assert (length g = 4%nat) as Eg by done.
    pose proof (IH r (pre ++ g) (m - 4)%nat Hs) as E. rewrite length_app, Eg, <- app_assoc in E.
    replace (length (a :: b :: c :: r) mod 3)%nat with (length r mod 3)%nat.
    2:{ cbn [length]. replace (S (S (S (length r)))) with (length r + 1 * 3)%nat by lia. symmetry. apply Nat.Div0.mod_add. }
    rewrite E; [|..].
    + rewrite El. f_equal. f_equal; [lia|]. unfold enc_spec, g. cbn [sextets padding fmap list_fmap]. simpl.
      rewrite <- !app_assoc. simpl. replace (m - S (S (S (S (length ((ch <$> sextets r) ++ padding r))))))%nat
        with (m - 4 - length ((ch <$> sextets r) ++ padding r))%nat by lia. done.
    + cbn [length] in Hn. replace (S (S (S (length r)))) with (length r + 1 * 3)%nat in Hn by lia. rewrite Nat.div_add in Hn by done. lia.
    + lia.
Qed.
End Encoding.

Lemma base64Encode_ok asserts src :
  Forall is_octet src -> zlen src < 2 ^ 30 -> base64Encode asserts src = Ok (enc_spec src).
Proof.
  intros Hs Hl. unfold base64Encode, zlen in *. set (n := length src) in *.
  assert (Z.of_nat (length (enc_spec src)) = Z.of_nat n / 3 * 4 + (if Z.of_nat n mod 3 =? 0 then 0 else 4)) as El.
  { rewrite enc_spec_length. fold n. rewrite Nat2Z.inj_mul, Nat2Z.inj_div, Nat2Z.inj_add.
    change (Z.of_nat 4) with 4. change (Z.of_nat 2) with 2. change (Z.of_nat 3) with 3.
    destruct (Z.of_nat n mod 3 =? 0) eqn:E; zbool; lia. }
  cbv zeta. replace (Z.of_nat n / 3 * 4 + 1 + (if Z.of_nat n mod 3 =? 0 then 0 else 4))
    with (Z.of_nat (length (enc_spec src)) + 1) by lia.
  assert (Z.of_nat (length (enc_spec src)) <= Z.of_nat n / 3 * 4 + 4) as Hle by (destruct (_ =? 0); lia).
  change (2 ^ 30) with 1073741824 in Hl.
  rewrite !s32_id by lia.
  replace (Z.of_nat (length (enc_spec src)) + 1 <? 0) with false by (symmetry; apply Z.ltb_ge; lia).
  replace (Z.of_nat (length (enc_spec src)) + 1 =? 0) with false by (symmetry; apply Z.eqb_neq; lia).
  rewrite Z.quot_div_nonneg by lia.
  replace (Z.of_nat n - 3 * (Z.of_nat n / 3)) with (Z.of_nat (n mod 3)) by (rewrite Nat2Z.inj_mod; change (Z.of_nat 3) with 3; lia).
  replace (Z.to_nat (Z.of_nat n / 3)) with (n / 3)%nat by (change 3 with (Z.of_nat 3); rewrite <- Nat2Z.inj_div, Nat2Z.id; done).
  pose proof (encode_all asserts (n / 3) src [] (Z.to_nat (Z.of_nat (length (enc_spec src)) + 1)) Hs eq_refl ltac:(lia)) as E.
  cbn [app length] in E. fold n in E. destruct (encode_loop _ _ _ _ _) as [[[cp dst] dest]| | |]; [|done..].
  cbn [mbind outcome_bind] in *. rewrite E. cbn [mbind outcome_bind]. f_equal. by rewrite Nat.add_0_l, take_app_length.
Qed.

(** ** Decoding: digit by digit *)

Fixpoint run (vs : list Z) (d : Decoder) : outcome Decoder :=
  match vs with
  | [] => Ok d
  | v :: vs => decode_digit v d ≫= run vs
  end.

Lemma run_app vs ws d : run (vs ++ ws) d = run vs d ≫= run ws.
Proof. revert d. induction vs as [|v vs IH]; intros d; [done|]. simpl. destruct (decode_digit v d); simpl; done. Qed.

(** The bytes that are complete, and the one that is not. *)
Fixpoint full (vs : list Z) : bytes :=
  match vs with
  | a :: b :: c :: d :: r => a * 4 + b / 16 :: b mod 16 * 16 + c / 4 :: c mod 4 * 64 + d :: full r
  | [a; b; c] => [a * 4 + b / 16; b mod 16 * 16 + c / 4]
  | [a; b] => [a * 4 + b / 16]
  | _ => []
  end.
Fixpoint part (vs : list Z) : bytes :=
  match vs with
  | _ :: _ :: _ :: _ :: r => part r
  | [a; b; c] => [c mod 4 * 64]
  | [a; b] => [b mod 16 * 16]
  | [a] => [a * 4]
  | [] => []
  end.

Lemma set_char_at pre x r v :
  is_octet v -> set_char (length pre) v (pre ++ x :: r) = Ok (pre ++ v :: r).
Proof.
  intros Hv. unfold set_char. rewrite length_app. simpl.
  replace (length pre <? length pre + S (length r))%nat with true by (symmetry; apply Nat.ltb_lt; lia).
  rewrite insert_app_r_alt, Nat.sub_diag by lia. simpl. unfold u8, uwrap. rewrite Z.mod_small; [done|].
  unfold is_octet in Hv. change (2 ^ 8) with 256. lia.
Qed.

Lemma or_char_at pre x r v :
  is_octet (Z.lor x v) -> or_char (length pre) v (pre ++ x :: r) = Ok (pre ++ Z.lor x v :: r).
Proof.
  intros Hv. unfold or_char. rewrite lookup_app_r, Nat.sub_diag by lia. cbn [lookup list_lookup present mbind outcome_bind].
  by apply set_char_at.
Qed.

Section Digits.
Variables (pre : bytes) (m : nat) (v : Z).
Hypothesis Hv : is_sextet v.

Lemma digit_0 : decode_digit v (mkDecoder (pre ++ zeros (S m)) (length pre) 0) =
  Ok (mkDecoder (pre ++ v * 4 :: zeros m) (length pre) 1).
Proof.
  unfold decode_digit. cbn [dest destidx dstate]. cbv zeta. simpl (0 =? 0). cbv iota. rewrite length_app, length_replicate.
  replace (length pre + S m <=? length pre)%nat with false by (symmetry; apply Nat.leb_gt; lia).
  rewrite Z.shiftl_mul_pow2 by lia. cbn [replicate]. change (2 ^ 2) with 4. rewrite set_char_at; [done|].
  unfold is_octet, is_sextet in *. lia.
Qed.

Lemma digit_1 a : is_sextet a ->
  decode_digit v (mkDecoder (pre ++ a * 4 :: zeros (S m)) (length pre) 1) =
  Ok (mkDecoder (pre ++ a * 4 + v / 16 :: v mod 16 * 16 :: zeros m) (length pre + 1) 2).
Proof.
  intros Ha. unfold decode_digit. cbn [dest destidx dstate]. cbv zeta. simpl (1 =? 0). simpl (1 =? 1). cbv iota.
  rewrite length_app. cbn [length]. rewrite length_replicate.
  replace (length pre + S (S m) <=? length pre + 1)%nat with false by (symmetry; apply Nat.leb_gt; lia).
  rewrite Z.shiftr_div_pow2 by lia. change (2 ^ 4) with 16. unfold is_octet, is_sextet in *.
  assert (Z.lor (a * 4) (v / 16) = a * 4 + v / 16) as El by (apply (lor_add a _ 2); [lia|change (2 ^ 2) with 4; lia]).
  rewrite or_char_at by (unfold is_octet; rewrite El; lia). cbn [mbind outcome_bind]. rewrite El.
  change 0x0f with (2 ^ 4 - 1). rewrite low_bits, Z.shiftl_mul_pow2 by lia. change (2 ^ 4) with 16.
  replace (pre ++ a * 4 + v / 16 :: zeros (S m)) with ((pre ++ [a * 4 + v / 16]) ++ 0 :: zeros m) by (by rewrite <- app_assoc).
  replace (length pre + 1)%nat with (length (pre ++ [a * 4 + v / 16])) by (rewrite length_app; simpl; lia).
  rewrite set_char_at by (unfold is_octet; lia). cbn [mbind outcome_bind]. by rewrite <- app_assoc.
Qed.

Lemma digit_2 b : is_octet (b * 16) ->
  decode_digit v (mkDecoder (pre ++ b * 16 :: zeros (S m)) (length pre) 2) =
  Ok (mkDecoder (pre ++ b * 16 + v / 4 :: v mod 4 * 64 :: zeros m) (length pre + 1) 3).
Proof.
  intros Ha. unfold decode_digit. cbn [dest destidx dstate]. cbv zeta. simpl (2 =? 0). simpl (2 =? 1). simpl (2 =? 2). cbv iota.
  rewrite length_app. cbn [length]. rewrite length_replicate.
  replace (length pre + S (S m) <=? length pre + 1)%nat with false by (symmetry; apply Nat.leb_gt; lia).
  rewrite Z.shiftr_div_pow2 by lia. change (2 ^ 2) with 4. unfold is_octet, is_sextet in *.
  assert (Z.lor (b * 16) (v / 4) = b * 16 + v / 4) as El by (apply (lor_add b _ 4); [lia|change (2 ^ 4) with 16; lia]).
  rewrite or_char_at by (unfold is_octet; rewrite El; lia). cbn [mbind outcome_bind]. rewrite El.
  change 0x03 with (2 ^ 2 - 1). rewrite low_bits, Z.shiftl_mul_pow2 by lia. change (2 ^ 2) with 4. change (2 ^ 6) with 64.
  replace (pre ++ b * 16 + v / 4 :: zeros (S m)) with ((pre ++ [b * 16 + v / 4]) ++ 0 :: zeros m) by (by rewrite <- app_assoc).
  replace (length pre + 1)%nat with (length (pre ++ [b * 16 + v / 4])) by (rewrite length_app; simpl; lia).
  rewrite set_char_at by (unfold is_octet; lia). cbn [mbind outcome_bind]. by rewrite <- app_assoc.
Qed.

Lemma digit_3 c : is_octet (c * 64) ->
  decode_digit v (mkDecoder (pre ++ c * 64 :: zeros m) (length pre) 3) =
  Ok (mkDecoder (pre ++ c * 64 + v :: zeros m) (length pre + 1) 0).
Proof.
  intros Ha. unfold decode_digit. cbn [dest destidx dstate]. cbv zeta. simpl (3 =? 0). simpl (3 =? 1). simpl (3 =? 2). cbv iota.
  rewrite length_app. cbn [length]. rewrite length_replicate.
  replace (length pre + S m <=? length pre)%nat with false by (symmetry; apply Nat.leb_gt; lia).
  unfold is_octet, is_sextet in *.
  assert (Z.lor (c * 64) v = c * 64 + v) as El by (apply (lor_add c _ 6); [lia|change (2 ^ 6) with 64; lia]).
  rewrite or_char_at by (unfold is_octet; rewrite El; lia). cbn [mbind outcome_bind]. by rewrite El.
Qed.
End Digits.

(** ** Decoding: groups *)

Section Groups.
Variables (pre : bytes) (m : nat).

Lemma run_1 a : is_sextet a ->
  run [a] (mkDecoder (pre ++ zeros (S m)) (length pre) 0) = Ok (mkDecoder (pre ++ a * 4 :: zeros m) (length pre) 1).
Proof. intros Ha. cbn [run]. by rewrite digit_0. Qed.

Lemma run_2 a b : is_sextet a -> is_sextet b ->
  run [a; b] (mkDecoder (pre ++ zeros (S (S m))) (length pre) 0) =
  Ok (mkDecoder (pre ++ a * 4 + b / 16 :: b mod 16 * 16 :: zeros m) (length pre + 1) 2).
Proof.
  intros Ha Hb. cbn [run]. rewrite digit_0 by done. cbn [mbind outcome_bind]. by rewrite digit_1.
Qed.

Lemma run_3 a b c : is_sextet a -> is_sextet b -> is_sextet c ->
  run [a; b; c] (mkDecoder (pre ++ zeros (S (S (S m)))) (length pre) 0) =
  Ok (mkDecoder (pre ++ a * 4 + b / 16 :: b mod 16 * 16 + c / 4 :: c mod 4 * 64 :: zeros m) (length pre + 2) 3).
Proof.
  intros Ha Hb Hc. cbn [run]. rewrite digit_0 by done. cbn [mbind outcome_bind]. rewrite digit_1 by done. cbn [mbind outcome_bind].
  set (x := a * 4 + b / 16). pose proof (digit_2 (pre ++ [x]) m c Hc (b mod 16)) as E.
  rewrite length_app, <- !app_assoc in E. cbn [app length] in E. rewrite E by (unfold is_octet, is_sextet in *; lia).
  cbn [mbind outcome_bind]. by replace (length pre + 1 + 1)%nat with (length pre + 2)%nat by lia.
Qed.

Lemma run_4 a b c d : is_sextet a -> is_sextet b -> is_sextet c -> is_sextet d ->
  run [a; b; c; d] (mkDecoder (pre ++ zeros (S (S (S m)))) (length pre) 0) =
  Ok (mkDecoder (pre ++ a * 4 + b / 16 :: b mod 16 * 16 + c / 4 :: c mod 4 * 64 + d :: zeros m) (length pre + 3) 0).
Proof.
  intros Ha Hb Hc Hd. change [a; b; c; d] with ([a; b; c] ++ [d]). rewrite run_app, run_3 by done. cbn [mbind outcome_bind run].
  set (x := a * 4 + b / 16). set (y := b mod 16 * 16 + c / 4). pose proof (digit_3 (pre ++ [x; y]) m d Hd (c mod 4)) as E.
  rewrite length_app, <- !app_assoc in E. cbn [app length] in E. rewrite E by (unfold is_octet, is_sextet in *; lia).
  cbn [mbind outcome_bind]. by replace (length pre + 2 + 1)%nat with (length pre + 3)%nat by lia.
Qed.
End Groups.

Lemma run_all vs : forall pre m,
  Forall is_sextet vs -> (3 * length vs + 9 <= 4 * m)%nat ->
  run vs (mkDecoder (pre ++ zeros m) (length pre) 0) =
  Ok (mkDecoder (pre ++ full vs ++ part vs ++ zeros (m - length (full vs) - length (part vs)))
    (length pre + length (full vs)) (Z.of_nat (length vs) mod 4)).
Proof.
  induction vs as [|a|a b|a b c|a b c d r IH] using list_ind4; intros pre m Hv Hm; rewrite ?Forall_cons in Hv; cbn [length] in Hm;
    (destruct m as [|[|[|m]]]; [lia|lia|lia|]); cbn [full part length].
  - simpl. by rewrite Nat.add_0_r.
  - rewrite run_1 by tauto. simpl. by rewrite Nat.add_0_r.
  - rewrite run_2 by tauto. simpl. done.
  - rewrite run_3 by tauto. simpl. by rewrite Nat.sub_0_r.
  - change (a :: b :: c :: d :: r) with ([a; b; c; d] ++ r). rewrite run_app, run_4 by tauto. cbn [mbind outcome_bind].
    set (x := a * 4 + b / 16). set (y := b mod 16 * 16 + c / 4). set (z := c mod 4 * 64 + d).
    pose proof (IH (pre ++ [x; y; z]) m ltac:(tauto) ltac:(lia)) as E. rewrite length_app, <- !app_assoc in E.
    cbn [app length] in E. rewrite E. f_equal. f_equal.
    + lia.
    + cbn [app length]. lia.
Qed.

(** ** Decoding: the text *)

Inductive Tail := TEnd | TPad (r : bytes) | TBad.

(** The digits of a text and how they end. *)
Fixpoint digits_of (src : bytes) : list Z * Tail :=
  match src with
  | [] => ([], TEnd)
  | c :: r =>
      if c =? 0 then ([], TEnd)
      else if isspace c then digits_of r
      else if c =? Pad64 then ([], TPad r)
      else if char2val c =? -1 then ([], TBad)
      else (char2val c :: (digits_of r).1, (digits_of r).2)
  end.

Lemma decode_loop_run src : forall d,
  decode_loop src d = run (digits_of src).1 d ≫= fun d =>
    match (digits_of src).2 with
    | TEnd => Ok (None, d) | TPad r => Ok (Some r, d) | TBad => Throw Base64FormatException
    end.
Proof.
  induction src as [|c r IH]; intros d; [done|]. cbn [decode_loop digits_of].
  destruct (c =? 0); [done|]. destruct (isspace c); [apply IH|]. destruct (c =? Pad64); [done|].
  destruct (char2val c =? -1); [done|]. cbn [fst snd run]. destruct (decode_digit (char2val c) d); [|done..].
  cbn [mbind outcome_bind]. apply IH.
Qed.

Lemma char2val_range c : char2val c = -1 \/ is_sextet (char2val c).
Proof.
  unfold char2val, is_sextet.
  destruct ((65 <=? c) && (c <=? 90)) eqn:E1; [zbool; lia|]. destruct ((97 <=? c) && (c <=? 122)) eqn:E2; [zbool; lia|].
  destruct ((48 <=? c) && (c <=? 57)) eqn:E3; [zbool; lia|]. destruct (c =? 43); [lia|]. destruct (c =? 47); lia.
Qed.

Lemma digits_range src : Forall is_sextet (digits_of src).1.
Proof.
  induction src as [|c r IH]; simpl; [constructor|]. destruct (c =? 0); [constructor|]. destruct (isspace c); [done|].
  destruct (c =? Pad64); [constructor|]. destruct (char2val c =? -1) eqn:E; [constructor|]. constructor; [|done].
  zbool. by destruct (char2val_range c).
Qed.

Lemma digits_strlen src : Z.of_nat (length (digits_of src).1) <= strlen src.
Proof.
  induction src as [|c r IH]; simpl; [lia|]. destruct (c =? 0); [simpl; lia|]. destruct (isspace c); [lia|].
  destruct (c =? Pad64); [simpl; lia|]. destruct (char2val c =? -1); simpl; lia.
Qed.

Lemma strlen_range src : 0 <= strlen src <= zlen src.
Proof.
  unfold zlen. induction src as [|c r IH]; simpl; [lia|]. destruct (c =? 0); lia.
Qed.

(** The result of decoding, by digits and tail. *)
Definition dec_spec (vs : list Z) (t : Tail) : outcome bytes :=
  let ok := if bool_decide (part vs = [0]) then Ok (full vs) else Throw Base64FormatException in
  let n := (length vs mod 4)%nat in
  match t with
  | TBad => Throw Base64FormatException
  | TEnd => if (n =? 0)%nat then Ok (full vs) else Throw Base64FormatException
  | TPad r =>
      if (n =? 2)%nat then
        match skip_pad_spaces r with
        | Some (c, r) => if (c =? Pad64) && bool_decide (skip_pad_spaces r = None) then ok else Throw Base64FormatException
        | None => Throw Base64FormatException
        end
      else if (n =? 3)%nat then if bool_decide (skip_pad_spaces r = None) then ok else Throw Base64FormatException
      else Throw Base64FormatException
  end.

Lemma part_length vs : length (part vs) = if (length vs mod 4 =? 0)%nat then 0%nat else 1%nat.
Proof.
  induction vs as [|a|a b|a b c|a b c d r IH] using list_ind4; [done..|]. cbn [part length].
  replace (S (S (S (S (length r))))) with (length r + 1 * 4)%nat by lia. by rewrite Nat.Div0.mod_add.
Qed.

Lemma base64Decode_spec src :
  zlen src < 2 ^ 30 -> base64Decode src = dec_spec (digits_of src).1 (digits_of src).2.
Proof.
  intros Hl. pose proof (strlen_range src). pose proof (digits_strlen src) as Hd. pose proof (digits_range src) as Hr.
  change (2 ^ 30) with 1073741824 in Hl. unfold base64Decode. cbv zeta. rewrite s32_id by lia.
  replace (strlen src * 3 / 4 + 3 <? 0) with false by (symmetry; apply Z.ltb_ge; lia). rewrite decode_loop_run.
  set (vs := (digits_of src).1) in *. set (m := Z.to_nat (strlen src * 3 / 4 + 3)).
  pose proof (run_all vs [] m Hr ltac:(lia)) as E. cbn [app length] in E. rewrite E. cbn [mbind outcome_bind].
  pose proof (part_length vs) as Hp. remember (part vs) as p eqn:Epv. set (n := (length vs mod 4)%nat) in *.
  assert (Z.of_nat (length vs) mod 4 = Z.of_nat n) as En by (unfold n; by rewrite Nat2Z.inj_mod).
  assert (n < 4)%nat as Hn by (apply Nat.mod_upper_bound; lia).
  rewrite En, Nat.add_0_l. destruct (digits_of src).2 as [|r|]; cbn [mbind outcome_bind dec_spec]; fold n; rewrite <- ?Epv; [| |done].
  - cbn [dstate destidx dest]. destruct n as [|n']; simpl; [by rewrite take_app_length|].
    replace (Z.pos (Pos.of_succ_nat n') =? 0) with false by (symmetry; apply Z.eqb_neq; lia). done.
  - assert (forall k, n = k -> k <> 0%nat -> exists x, p = [x] /\
      (full vs ++ p ++ zeros (m - length (full vs) - length p)) !! length (full vs) = Some x) as Hx.
    { intros k -> Hk. destruct (Nat.eqb_spec k 0); [done|]. destruct p as [|x [|]]; try done. exists x. split; [done|].
      by rewrite lookup_app_r, Nat.sub_diag by lia. }
    unfold decode_pad. cbn [dstate destidx dest].
    destruct (decide (n = 2%nat)) as [E2|N2]; [|destruct (decide (n = 3%nat)) as [E3|N3]].
    + destruct (Hx 2%nat E2 ltac:(done)) as (x & Epx & Ex). rewrite E2, Ex. simpl (Z.of_nat 2). simpl.
      destruct (skip_pad_spaces r) as [[c r']|]; [|done]. destruct (c =? Pad64); [|done]. simpl.
      destruct (skip_pad_spaces r') as [|]; [done|]. rewrite (bool_decide_true (None = None)) by done.
      rewrite Epx. destruct (x =? 0) eqn:Exz; zbool.
      * subst x. rewrite bool_decide_true by done. simpl. by rewrite take_app_length.
      * rewrite bool_decide_false by (intros [=]; done). done.
    + destruct (Hx 3%nat E3 ltac:(done)) as (x & Epx & Ex). rewrite E3, Ex. simpl (Z.of_nat 3). simpl.
      destruct (skip_pad_spaces r) as [|]; [done|]. rewrite (bool_decide_true (None = None)) by done.
      rewrite Epx. destruct (x =? 0) eqn:Exz; zbool.
      * subst x. rewrite bool_decide_true by done. simpl. by rewrite take_app_length.
      * rewrite bool_decide_false by (intros [=]; done). done.
    + assert (n = 0%nat \/ n = 1%nat) as [-> | ->] by lia; done.
Qed.

(** ** There and back *)

Lemma ch_facts v : is_sextet v -> char2val (ch v) = v /\ ch v <> 0 /\ isspace (ch v) = false /\ ch v <> Pad64.
Proof.
  intros Hv. assert (forallb (fun v => (char2val (ch v) =? v) && negb (ch v =? 0) && negb (isspace (ch v)) && negb (ch v =? Pad64))
    (seqZ 0 64) = true) as H by (by vm_compute).
  rewrite forallb_forall in H. specialize (H v). rewrite !andb_true_iff, !negb_true_iff, !Z.eqb_neq, Z.eqb_eq in H.
  destruct H as [[[? ?] ?] ?]; [|done]. apply list_elem_of_In, elem_of_seqZ. unfold is_sextet in Hv. lia.
Qed.

Lemma digits_of_chars vs s : Forall is_sextet vs ->
  digits_of ((ch <$> vs) ++ s) = (vs ++ (digits_of s).1, (digits_of s).2).
Proof.
  induction 1 as [|v vs Hv _ IH]; [simpl; by destruct (digits_of s)|]. destruct (ch_facts v Hv) as (E & H0 & Hs & Hp).
  cbn [fmap list_fmap app digits_of]. change (list_fmap _ _ ch vs) with (ch <$> vs). rewrite IH.
  replace (ch v =? 0) with false by (symmetry; by apply Z.eqb_neq). rewrite Hs.
  replace (ch v =? Pad64) with false by (symmetry; by apply Z.eqb_neq). rewrite E.
  replace (v =? -1) with false by (symmetry; apply Z.eqb_neq; unfold is_sextet in Hv; lia). done.
Qed.

Lemma digits_enc l : Forall is_octet l ->
  digits_of (enc_spec l) = (sextets l, match padding l with [] => TEnd | _ :: r => TPad r end).
Proof.
  intros Hl. unfold enc_spec. rewrite digits_of_chars by (by apply sextets_range).
  assert (padding l = [] \/ padding l = [Pad64] \/ padding l = [Pad64; Pad64]) as [->|[->| ->]]; simpl; rewrite ?app_nil_r; try done.
  clear Hl. induction l as [|a|a b|a b c r IH] using list_ind3; simpl; tauto.
Qed.

(** Full bytes and padding agree with the digits. *)
Lemma full_sextets l : Forall is_octet l -> full (sextets l) = l /\
  part (sextets l) = (match padding l with [] => [] | _ => [0] end) /\
  (length (sextets l) mod 4)%nat = (match padding l with [] => 0 | [_] => 3 | _ => 2 end)%nat.
Proof.
  induction l as [|a|a b|a b c r IH] using list_ind3; intros H; rewrite ?Forall_cons in H; unfold is_octet in H;
    cbn [sextets full part padding length]; [done|..].
  - split_and!; [f_equal; lia|f_equal; lia|done].
  - split_and!; [f_equal; [lia|f_equal; lia]|f_equal; lia|done].
  - destruct IH as (IH1 & IH2 & IH3); [tauto|]. rewrite IH1, IH2. split_and!; [|done|].
    + f_equal; [lia|]. f_equal; [lia|]. f_equal. lia.
    + rewrite <- IH3. replace (S (S (S (S (length (sextets r)))))) with (length (sextets r) + 1 * 4)%nat by lia.
      by rewrite Nat.Div0.mod_add.
Qed.

Lemma padding_cases l : padding l = [] \/ padding l = [Pad64] \/ padding l = [Pad64; Pad64].
Proof. induction l as [|a|a b|a b c r IH] using list_ind3; simpl; tauto. Qed.

Lemma base64Decode_enc l : Forall is_octet l -> zlen (enc_spec l) < 2 ^ 30 -> base64Decode (enc_spec l) = Ok l.
Proof.
  intros Hl Hn. rewrite base64Decode_spec, digits_enc by done. cbn [fst snd]. destruct (full_sextets l Hl) as (Ef & Ep & En).
  unfold dec_spec. rewrite En, Ef, Ep. destruct (padding_cases l) as [->|[->| ->]]; done.
Qed.

(** The characters of a C string that are not white space. *)
Fixpoint strip (src : bytes) : bytes :=
  match src with
  | [] => []
  | c :: r => if c =? 0 then [] else if isspace c then strip r else c :: strip r
  end.

Lemma ch_char2val c : char2val c <> -1 -> ch (char2val c) = c.
Proof.
  intros Hc. assert (0 <= c < 128) as Hr.
  { unfold char2val in Hc. destruct ((65 <=? c) && (c <=? 90)) eqn:E1; [zbool; lia|].
    destruct ((97 <=? c) && (c <=? 122)) eqn:E2; [zbool; lia|]. destruct ((48 <=? c) && (c <=? 57)) eqn:E3; [zbool; lia|].
    destruct (c =? 43) eqn:?; [zbool; lia|]. destruct (c =? 47) eqn:?; zbool; lia. }
  assert (forallb (fun c => (char2val c =? -1) || (ch (char2val c) =? c)) (seqZ 0 128) = true) as H by (by vm_compute).
  rewrite forallb_forall in H. specialize (H c). rewrite orb_true_iff, !Z.eqb_eq in H.
  destruct H; [|done|done]. apply list_elem_of_In, elem_of_seqZ. lia.
Qed.

Lemma strip_digits src :
  (digits_of src).2 <> TBad ->
  strip src = (ch <$> (digits_of src).1) ++ match (digits_of src).2 with TPad r => Pad64 :: strip r | _ => [] end.
Proof.
  induction src as [|c r IH]; [done|]. cbn [digits_of strip]. destruct (c =? 0); [done|]. destruct (isspace c); [done|].
  destruct (c =? Pad64) eqn:Ep; [zbool; by subst|]. destruct (char2val c =? -1) eqn:Ec; [done|]. zbool. cbn [fst snd].
  intros Ht. rewrite IH by done. cbn [fmap list_fmap app]. by rewrite ch_char2val.
Qed.

Lemma strip_skip r : strip r = match skip_pad_spaces r with Some (c, r') => c :: strip r' | None => [] end.
Proof. induction r as [|c r IH]; [done|]. simpl. destruct (c =? 0); [done|]. destruct (isspace c); done. Qed.

Lemma enc_full vs : Forall is_sextet vs -> part vs = [] \/ part vs = [0] -> (length vs mod 4 <> 1)%nat ->
  enc_spec (full vs) = (ch <$> vs) ++ match (length vs mod 4)%nat with 2%nat => [Pad64; Pad64] | 3%nat => [Pad64] | _ => [] end.
Proof.
  unfold enc_spec. induction vs as [|a|a b|a b c|a b c d r IH] using list_ind4; intros Hv Hp Hn; rewrite ?Forall_cons in Hv;
    unfold is_sextet in Hv; cbn [full part] in *; [done|done|..].
  - destruct Hp as [Hp|[= Hp]]; [done|]. cbn [sextets padding fmap list_fmap]. simpl.
    replace ((a * 4 + b / 16) / 4) with a by lia. replace ((a * 4 + b / 16) mod 4 * 16) with b by lia. done.
  - destruct Hp as [Hp|[= Hp]]; [done|]. cbn [sextets padding fmap list_fmap]. simpl.
    replace ((a * 4 + b / 16) / 4) with a by lia.
    replace ((a * 4 + b / 16) mod 4 * 16 + (b mod 16 * 16 + c / 4) / 16) with b by lia.
    replace ((b mod 16 * 16 + c / 4) mod 16 * 4) with c by lia. done.
  - assert (length (a :: b :: c :: d :: r) mod 4 = length r mod 4)%nat as En.
    { cbn [length]. replace (S (S (S (S (length r))))) with (length r + 1 * 4)%nat by lia. apply Nat.Div0.mod_add. }
    rewrite En in *. cbn [sextets padding fmap list_fmap app]. rewrite IH; [|tauto|done|done].
    replace ((a * 4 + b / 16) / 4) with a by lia.
    replace ((a * 4 + b / 16) mod 4 * 16 + (b mod 16 * 16 + c / 4) / 16) with b by lia.
    replace ((b mod 16 * 16 + c / 4) mod 16 * 4 + (c mod 4 * 64 + d) / 64) with c by lia.
    replace ((c mod 4 * 64 + d) mod 64) with d by lia. done.
Qed.

Lemma part_nil vs : (length vs mod 4)%nat = 0%nat -> part vs = [].
Proof. intros E. apply nil_length_inv. by rewrite part_length, E. Qed.

Lemma base64Decode_canonical src l : zlen src < 2 ^ 30 -> base64Decode src = Ok l -> enc_spec l = strip src.
Proof.
  intros Hn. rewrite base64Decode_spec by done. pose proof (digits_range src) as Hr. pose proof (strip_digits src) as Hs.
  destruct (digits_of src) as [vs t]. cbn [fst snd] in *. unfold dec_spec. destruct t as [|r|]; [| |done]; rewrite Hs by done.
  - destruct (Nat.eqb_spec (length vs mod 4) 0) as [E|]; [|done]. intros [= <-].
    rewrite enc_full; [by rewrite E|done|left; by apply part_nil|lia].
  - rewrite strip_skip. destruct (Nat.eqb_spec (length vs mod 4) 2) as [E|].
    + destruct (skip_pad_spaces r) as [[c r']|]; [|done]. destruct (c =? Pad64) eqn:Ec; [|done]. zbool. subst c. cbn [andb].
      destruct (bool_decide (skip_pad_spaces r' = None)) eqn:Er; [|done]. apply bool_decide_eq_true in Er.
      destruct (bool_decide (part vs = [0])) eqn:Ep; [|done]. apply bool_decide_eq_true in Ep. intros [= <-].
      rewrite strip_skip, Er, enc_full; [by rewrite E|done|by right|lia].
    + destruct (Nat.eqb_spec (length vs mod 4) 3) as [E|]; [|done].
      destruct (bool_decide (skip_pad_spaces r = None)) eqn:Er; [|done]. apply bool_decide_eq_true in Er.
      destruct (bool_decide (part vs = [0])) eqn:Ep; [|done]. apply bool_decide_eq_true in Ep. intros [= <-].
      rewrite Er, enc_full; [by rewrite E|done|by right|lia].
Qed.

Lemma dec_spec_safe vs t : match dec_spec vs t with Ok _ | Throw _ => True | _ => False end.
Proof. unfold dec_spec. repeat (case_match; try done). Qed.

Lemma full_octets vs : Forall is_sextet vs -> Forall is_octet (full vs).
Proof.
  induction vs as [|a|a b|a b c|a b c d r IH] using list_ind4; intros Hv; rewrite ?Forall_cons in Hv; unfold is_sextet in Hv;
    cbn [full]; rewrite ?Forall_cons; unfold is_octet in *; split_and?; lia || constructor || (apply IH; tauto).
Qed.

Lemma dec_spec_full vs t l : dec_spec vs t = Ok l -> l = full vs.
Proof. unfold dec_spec. intros H. repeat (case_match; try done); by injection H. Qed.

Lemma full_length vs : (length (full vs) <= length vs)%nat.
Proof.
  induction vs as [|a|a b|a b c|a b c d r IH] using list_ind4; simpl; lia.
Qed.
