(* ===== verification/HttpUrl.v ===== *)
(** * URL escaping and basic credentials

   [escapeForURL], [unescapeForURL] and [decodeBasicCreds] of
   src/src/http/common/OW_HTTPUtils.cpp.  What [blocxx::String] does is a
   parameter ([StringSearch]). *)

From S2P Require Import Prelude Blocxx XmlText XmlParser HttpBase64.

(** ** Escaping *)

(** [hi >= 10 ? hi - 10 + 'A' : hi + '0'] *)
Definition hex_digit (h : Z) : Z := if 10 <=? h then h - 10 + 65 else h + 48.

Definition escapeCharForURL (c : Z) : bytes := [37; hex_digit (Z.shiftr c 4); hex_digit (Z.land c 0xF)].

(** The characters that are copied: letters, digits and - _ . ! ~ * ' ( ) *)
Definition unreserved (c : Z) : bool :=
  isalnum c || (c =? 45) || (c =? 95) || (c =? 46) || (c =? 33) || (c =? 126) || (c =? 42) || (c =? 39) ||
  (c =? 40) || (c =? 41).

Definition escapeForURL (input : bytes) : bytes :=
  concat ((fun c => if unreserved c then [c] else escapeCharForURL c) <$> input).

(** ** Unescaping *)

Definition isxdigit (c : Z) : bool :=
  is_digit c || ((65 <=? c) && (c <=? 70)) || ((97 <=? c) && (c <=? 102)).
Definition toupper (c : Z) : Z := if (97 <=? c) && (c <=? 122) then c - 32 else c.
Definition digitToVal (c : Z) : Z := if is_digit c then c - 48 else toupper c - 65 + 10.

Definition UnescapeCharForURLException : string := "UnescapeCharForURLException".

(** [unescapeCharForURL] of the text behind a percent sign: the character and
   what is behind it.  A text that is too short has its NUL where a digit is
   expected. *)
Definition unescapeCharForURL (r : bytes) : outcome (Z * bytes) :=
  match r with
  | a :: b :: r' =>
      if isxdigit a && isxdigit b then Ok (u8 (Z.lor (Z.shiftl (digitToVal a) 4) (digitToVal b)), r')
      else Throw UnescapeCharForURLException
  | _ => Throw UnescapeCharForURLException
  end.

(** The loop over the C string. *)
Fixpoint unescape_loop (fuel : nat) (pos : bytes) : outcome bytes :=
  match fuel with
  | O => Diverge
  | S fuel =>
      match pos with
      | [] => Ok []
      | c :: r =>
          if c =? 0 then Ok []
          else if c =? 37 then unescapeCharForURL r ≫= fun '(v, r') => emit [v] (unescape_loop fuel r')
          else emit [c] (unescape_loop fuel r)
      end
  end.
Definition unescapeForURL (input : bytes) : outcome bytes := unescape_loop (S (length input)) input.

(** ** There and back *)

Lemma hex_digit_back h : 0 <= h < 16 -> isxdigit (hex_digit h) = true /\ digitToVal (hex_digit h) = h.
Proof.
  intros Hh. assert (forallb (fun h => isxdigit (hex_digit h) && (digitToVal (hex_digit h) =? h)) (seqZ 0 16) = true) as H by (by vm_compute).
  rewrite forallb_forall in H. specialize (H h). rewrite andb_true_iff, Z.eqb_eq in H. apply H.
  apply list_elem_of_In, elem_of_seqZ. lia.
Qed.

Lemma unescape_escaped c r : is_octet c ->
  unescapeCharForURL (hex_digit (Z.shiftr c 4) :: hex_digit (Z.land c 0xF) :: r) = Ok (c, r).
Proof.
  intros Hc. unfold is_octet in Hc. rewrite Z.shiftr_div_pow2 by lia. change (2 ^ 4) with 16.
  change 0xF with (2 ^ 4 - 1). rewrite low_bits by lia. change (2 ^ 4) with 16.
  destruct (hex_digit_back (c / 16)) as [E1 V1]; [lia|]. destruct (hex_digit_back (c mod 16)) as [E2 V2]; [lia|].
  unfold unescapeCharForURL. rewrite E1, E2, V1, V2. cbn [andb]. rewrite Z.shiftl_mul_pow2 by lia.
  rewrite (lor_add _ _ 4) by (change (2 ^ 4) with 16; lia). change (2 ^ 4) with 16.
  unfold u8, uwrap. rewrite Z.mod_small by (change (2 ^ 8) with 256; lia). f_equal. f_equal. lia.
Qed.

Lemma escape_cons c s :
  escapeForURL (c :: s) = (if unreserved c then [c] else escapeCharForURL c) ++ escapeForURL s.
Proof. done. Qed.

Lemma unescape_loop_escape s : Forall (fun c => is_octet c /\ c <> 0) s -> forall fuel,
  (length (escapeForURL s) < fuel)%nat -> unescape_loop fuel (escapeForURL s) = Ok s.
Proof.
  induction 1 as [|c s [Ho H0] _ IH]; intros fuel Hf; [destruct fuel; [simpl in Hf; lia|done]|]. destruct fuel as [|fuel]; [lia|].
  rewrite escape_cons in *. rewrite length_app in Hf. destruct (unreserved c) eqn:Eu; cbn [app length unescape_loop] in *.
  - destruct (c =? 0) eqn:E0; [by zbool|].
    destruct (c =? 37) eqn:Ec; [zbool; subst; by vm_compute in Eu|]. rewrite IH by lia. done.
  - unfold escapeCharForURL in *. cbn [app length unescape_loop] in *. simpl (37 =? 0). simpl (37 =? 37). cbv iota.
    rewrite unescape_escaped by done. cbn [mbind outcome_bind]. rewrite IH by lia. done.
Qed.

(** What escaping writes: unreserved characters, percent signs and digits. *)
Lemma escape_plain s : Forall is_octet s -> Forall (fun c => unreserved c = true \/ c = 37) (escapeForURL s).
Proof.
  induction 1 as [|c s Hc _ IH]; [constructor|]. rewrite escape_cons. apply Forall_app. split; [|done].
  destruct (unreserved c) eqn:Eu; [constructor; [by left|constructor]|].
  assert (forall h, 0 <= h < 16 -> unreserved (hex_digit h) = true) as Hh.
  { intros h Hh. assert (forallb (fun h => unreserved (hex_digit h)) (seqZ 0 16) = true) as H by (by vm_compute).
    rewrite forallb_forall in H. apply H, list_elem_of_In, elem_of_seqZ. lia. }
  unfold is_octet in Hc. constructor; [by right|]. constructor; [left; apply Hh; rewrite Z.shiftr_div_pow2 by lia; change (2 ^ 4) with 16; lia|].
  constructor; [|constructor]. left. apply Hh. change 0xF with (2 ^ 4 - 1). rewrite low_bits by lia. change (2 ^ 4) with 16. lia.
Qed.

(** ** Basic credentials *)

Section Creds.
Context {so : StringSearch}.

Definition AuthenticationException (m : string) : string := ("AuthenticationException: " ++ m)%string.

Definition decodeBasicCreds (info : bytes) : outcome (bytes * bytes) :=
  match indexOf (txt "Basic") info with
  | None => Throw (AuthenticationException "Authentication info is not type Basic")
  | Some idx =>
      let decoded := substring_from (idx + 6) info in
      match base64Decode decoded with
      | Ok decoded =>
          match indexOfChar 58 decoded with
          | None => Throw (AuthenticationException "invalid credentials syntax")
          | Some icolon => Ok (substring_to icolon decoded, substring_from (icolon + 1) decoded)
          end
      | Throw _ => Throw (AuthenticationException "invalid BASE64 encoding of credentials")
      | Crash => Crash
      | Diverge => Diverge
      end
  end.

(** What a client sends for a name and a password. *)
Definition basic_creds (asserts : bool) (name password : bytes) : outcome bytes :=
  base64Encode asserts (name ++ [58] ++ password) ≫= fun e => Ok (txt "Basic " ++ e).
End Creds.

Lemma zlen_enc_spec l : zlen l < 2 ^ 29 -> zlen (enc_spec l) < 2 ^ 30.
Proof.
  unfold zlen. rewrite enc_spec_length, Nat2Z.inj_mul, Nat2Z.inj_div, Nat2Z.inj_add.
  change (Z.of_nat 4) with 4. change (Z.of_nat 2) with 2. change (Z.of_nat 3) with 3.
  change (2 ^ 29) with 536870912. change (2 ^ 30) with 1073741824. lia.
Qed.

Lemma creds_roundtrip {so : StringSearch} {sl : StringSearchLaws} asserts name password :
  Forall is_octet (name ++ password) -> 58 ∉ name -> zlen (name ++ password) < 2 ^ 28 ->
  exists info, basic_creds asserts name password = Ok info /\ decodeBasicCreds info = Ok (name, password).
Proof.
  intros Ho Hc Hl. apply Forall_app in Ho as [H1 H2].
  assert (Forall is_octet (name ++ [58] ++ password)) as H.
  { apply Forall_app. split; [done|]. constructor; [|done]. unfold is_octet. lia. }
  assert (zlen (name ++ [58] ++ password) < 2 ^ 29) as Hn.
  { unfold zlen in *. rewrite !length_app in *. cbn [length]. change (2 ^ 28) with 268435456 in Hl. change (2 ^ 29) with 536870912. lia. }
  exists (txt "Basic " ++ enc_spec (name ++ [58] ++ password)). unfold basic_creds. rewrite base64Encode_ok; [|done|].
  2:{ change (2 ^ 30) with 1073741824. change (2 ^ 29) with 536870912 in Hn. lia. }
  split; [done|]. unfold decodeBasicCreds. set (e := enc_spec _).
  change (indexOf (txt "Basic") (txt "Basic " ++ e)) with (indexOf (txt "Basic") (txt "Basic" ++ (32 :: e))).
  rewrite (indexOf_first 66 (txt "asic") [] (32 :: e)) by set_solver. rewrite substring_from_drop. cbv zeta. cbn [length]. change (drop (0 + 6) (txt "Basic " ++ e)) with e. unfold e.
  rewrite base64Decode_enc by (done || by apply zlen_enc_spec). cbn [app]. rewrite indexOfChar_first by done.
  rewrite substring_to_take, substring_from_drop, take_app_length. by rewrite drop_past.
Qed.
