(* ===== verification/HttpStreams.v ===== *)
(** * Bodies of HTTP messages

   The stream buffers of src/src/http/common: [HTTPChunkedOStreamBuffer] and
   [HTTPChunkedOStream::termOutput] write a body in chunks,
   [HTTPChunkedIStreamBuffer] reads it back, [HTTPLengthLimitStreamBuffer] reads
   a body of known length.  The [blocxx::BaseStreamBuffer] above them decides how
   large the pieces are that it hands down or asks for; so these are arbitrary.

   A [std::istream] is the characters that are left and its state bits; what
   [>>] accepts as a hexadecimal number is that of the C++ library. *)

From S2P Require Import Prelude XmlText XmlParser HttpBase64.

(** ** Input streams *)

Record IStream := mkIn { in_data : bytes; in_eof : bool; in_fail : bool }.

Definition good (s : IStream) : bool := negb (in_eof s) && negb (in_fail s).

(** [get], without its result: behind the end it sets eof and fail.  The loop
   [while (get() != '\n' && good())] on a good stream. *)
Fixpoint skip_line (l : bytes) : IStream :=
  match l with
  | [] => mkIn [] true true
  | c :: r => if c =? 10 then mkIn r false false else skip_line r
  end.
Definition skipLine (s : IStream) : IStream :=
  if good s then skip_line (in_data s) else mkIn (in_data s) (in_eof s) true.

(** [read] and [gcount] *)
Definition read (n : Z) (s : IStream) : bytes * IStream :=
  if good s then
    if n <=? zlen (in_data s) then (take (Z.to_nat n) (in_data s), mkIn (drop (Z.to_nat n) (in_data s)) false false)
    else (in_data s, mkIn [] true true)
  else ([], mkIn (in_data s) (in_eof s) true).

Definition UINT_MAX : Z := 4294967295.

(** The digits of a number: its value, whether it overflowed, whether there
   were any, and what is left. *)
Fixpoint hex_loop (l : bytes) (acc : Z) (over any : bool) : Z * bool * bool * bytes :=
  match l with
  | [] => (acc, over, any, [])
  | c :: r =>
      match hex_value c with
      | Some d =>
          if UINT_MAX / 16 <? acc then hex_loop r acc true any
          else hex_loop r (acc * 16 + d) (over || (UINT_MAX - d <? acc * 16)) true
      | None => (acc, over, any, l)
      end
  end.

(** The number at the start of [l]: an optional sign and an optional 0x; the
   value, whether it failed, and what is left. *)
Definition parse_hex (l : bytes) : Z * bool * bytes :=
  let '(neg, l) := match l with
    | c :: r => if c =? 43 then (false, r) else if c =? 45 then (true, r) else (false, l)
    | [] => (false, l)
    end in
  let '(zero, l) := match l with
    | z :: x :: r => if (z =? 48) && ((x =? 120) || (x =? 88)) then (false, r) else (z =? 48, l)
    | [z] => (z =? 48, l)
    | [] => (false, l)
    end in
  let '(v, over, any, l) := hex_loop l 0 false false in
  if negb any && negb zero then (0, true, l)
  else if over then (UINT_MAX, true, l)
  else (if neg : bool then u32 (- v) else v, false, l).

Fixpoint drop_spaces (l : bytes) : bytes :=
  match l with c :: r => if isspace c then drop_spaces r else l | [] => [] end.

(** [m_istr >> std::hex >> n >> std::dec]: the value that [n] has afterwards. *)
Definition extract_hex (n : Z) (s : IStream) : Z * IStream :=
  if good s then
    match drop_spaces (in_data s) with
    | [] => (n, mkIn [] true true)
    | l => let '(v, fail, r) := parse_hex l in (v, mkIn r (bool_decide (r = [])) fail)
    end
  else (n, mkIn (in_data s) (in_eof s) true).

(** ** Reading chunks *)

Record HTTPChunkedIStreamBuffer := mkChunked {
  m_istr : IStream;
  m_inLen : Z;
  m_inPos : Z;
  m_isEOF : bool;
}.

Definition newChunked (s : IStream) : HTTPChunkedIStreamBuffer := mkChunked s 0 0 false.

(** What the loop of [buffer_from_device] does next: return a value, or go on. *)
Inductive Next := Return (v : Z) | Go.

(** The line with the length of a chunk. *)
Definition chunk_header (offset : Z) (b : HTTPChunkedIStreamBuffer) : Next * HTTPChunkedIStreamBuffer :=
  if m_inLen b =? 0 then
    let '(len, s) := extract_hex (m_inLen b) (m_istr b) in
    if in_fail s then (Return (-1), mkChunked s len (m_inPos b) (m_isEOF b))
    else
      let s := skipLine s in
      if len =? 0 then (Return offset, mkChunked s len 0 true)
      else (Go, mkChunked s len 0 (m_isEOF b))
  else (Go, b).

(** [buffer_from_device]: the value returned and the bytes stored from [c] on. *)
Fixpoint chunk_loop (fuel : nat) (un offset : Z) (c : bytes) (b : HTTPChunkedIStreamBuffer) :
    outcome (Z * bytes * HTTPChunkedIStreamBuffer) :=
  match fuel with
  | O => Diverge
  | S fuel =>
      if (offset <? un) && good (m_istr b) then
        match chunk_header offset b with
        | (Return v, b) => Ok (v, c, b)
        | (Go, b) =>
            let tmpInLen := Z.min (u32 (un - offset)) (u32 (m_inLen b - m_inPos b)) in
            let '(d, s) := read tmpInLen (m_istr b) in
            let lastRead := zlen d in
            let offset := offset + lastRead in
            let pos := m_inPos b + lastRead in
            let b := if pos =? m_inLen b then mkChunked s 0 0 (m_isEOF b) else mkChunked s (m_inLen b) pos (m_isEOF b) in
            if lastRead <? tmpInLen then Ok (offset, c ++ d, b) else chunk_loop fuel un offset (c ++ d) b
        end
      else Ok (offset, c, b)
  end.

Definition buffer_from_device (n : Z) (b : HTTPChunkedIStreamBuffer) : outcome (Z * bytes * HTTPChunkedIStreamBuffer) :=
  if m_isEOF b || (n <? 0) then Ok (-1, [], b) else chunk_loop (S (Z.to_nat n)) n 0 [] b.

Definition resetInput (b : HTTPChunkedIStreamBuffer) : HTTPChunkedIStreamBuffer := newChunked (m_istr b).

(** ** Writing chunks *)

Record OStream := mkOut { out_data : bytes; out_good : bool }.

Definition put_out (s : bytes) (o : OStream) : OStream :=
  if out_good o then mkOut (out_data o ++ s) true else o.

(** [std::hex << n] *)
Definition lower_digit (d : Z) : Z := if d <? 10 then d + 48 else d - 10 + 97.
Fixpoint to_hex (fuel : nat) (n : Z) : bytes :=
  match fuel with
  | O => []
  | S fuel => if n <? 16 then [lower_digit n] else to_hex fuel (n / 16) ++ [lower_digit (n mod 16)]
  end.

Definition CRLF : bytes := [13; 10].

Definition buffer_to_device (c : bytes) (o : OStream) : Z * OStream :=
  if zlen c <=? 0 then (0, o)
  else
    let o := put_out (to_hex 8 (zlen c) ++ CRLF) o in
    let o := put_out c o in
    let o := put_out CRLF o in
    (if out_good o then 0 else -1, o).

(** [termOutput]: [buffered] is what the stream buffer still holds. *)
Definition termOutput (discard : bool) (buffered : bytes) (o : OStream) : OStream :=
  let o := if discard then o else (buffer_to_device buffered o).2 in
  put_out (txt "0" ++ CRLF) o.

(** ** Reading a body of known length *)

Record HTTPLengthLimitStreamBuffer := mkLimit {
  l_istr : IStream;
  m_length : Z;
  m_pos : Z;
  m_isEnd : bool;
}.

Definition newLimit (s : IStream) (length : Z) : HTTPLengthLimitStreamBuffer := mkLimit s length 0 false.

Definition limit_from_device (n : Z) (b : HTTPLengthLimitStreamBuffer) : Z * bytes * HTTPLengthLimitStreamBuffer :=
  if m_isEnd b || (n <? 0) then (-1, [], b)
  else
    let tmpInLen := if n <? uwrap 64 (m_length b - m_pos b) then n else uwrap 64 (m_length b - m_pos b) in
    let '(d, s) := read tmpInLen (l_istr b) in
    let lastRead := zlen d in
    let pos := uwrap 64 (m_pos b + lastRead) in
    (lastRead, d, mkLimit s (m_length b) pos (m_isEnd b || (pos =? m_length b))).

Definition resetLen (len : Z) (b : HTTPLengthLimitStreamBuffer) : HTTPLengthLimitStreamBuffer := newLimit (l_istr b) len.

(** * Bodies are read as they were written

   What the chunked writer writes, the chunked reader reads, whatever the sizes
   of the pieces on both sides, and it leaves what is behind the last chunk; the
   length-limited reader reads exactly the length. *)

(** ** Numbers *)

Lemma lower_digit_value d : 0 <= d < 16 -> hex_value (lower_digit d) = Some d /\ isspace (lower_digit d) = false /\
  lower_digit d <> 43 /\ lower_digit d <> 45 /\ (lower_digit d = 48 -> d = 0) /\ lower_digit d <> 120 /\ lower_digit d <> 88.
Proof.
  intros Hd. assert (forallb (fun d => bool_decide (hex_value (lower_digit d) = Some d) && negb (isspace (lower_digit d)) &&
    negb (lower_digit d =? 43) && negb (lower_digit d =? 45) && (negb (lower_digit d =? 48) || (d =? 0)) &&
    negb (lower_digit d =? 120) && negb (lower_digit d =? 88)) (seqZ 0 16) = true) as H by (by vm_compute).
  rewrite forallb_forall in H. specialize (H d ltac:(apply list_elem_of_In, elem_of_seqZ; lia)). zbool.
  match goal with H : bool_decide _ = true |- _ => apply bool_decide_eq_true in H end.
  match goal with H : _ || _ = true |- _ => apply orb_true_iff in H as [H|H] end; zbool; split_and!; done.
Qed.

Lemma hex_loop_digits fuel : forall n b any, 0 <= n < 16 ^ Z.of_nat fuel -> n <= UINT_MAX -> fuel <> O ->
  hex_loop (to_hex fuel n ++ b) 0 false any = hex_loop b n false true.
Proof.
  unfold UINT_MAX. induction fuel as [|fuel IH]; intros n b any Hn Hu H0; [done|]. cbn [to_hex].
  destruct (n <? 16) eqn:E; zbool.
  - destruct (lower_digit_value n) as [Ev _]; [lia|]. cbn [app hex_loop]. rewrite Ev. unfold UINT_MAX.
    replace (4294967295 / 16 <? 0) with false by done. replace (4294967295 - n <? 0 * 16) with false by (symmetry; apply Z.ltb_ge; lia).
    done.
  - rewrite <- app_assoc, IH; [|..].
    + destruct (lower_digit_value (n mod 16)) as [Ev _]; [lia|]. cbn [app hex_loop]. rewrite Ev. unfold UINT_MAX.
      replace (4294967295 / 16 <? n / 16) with false by (symmetry; apply Z.ltb_ge; apply Z.div_le_mono; lia).
      replace (4294967295 - n mod 16 <? n / 16 * 16) with false by (symmetry; apply Z.ltb_ge; lia).
      f_equal. lia.
    + rewrite Nat2Z.inj_succ, Z.pow_succ_r in Hn by lia. lia.
    + lia.
    + intros ->. simpl in Hn. lia.
Qed.

(** The first digit is not a zero. *)
Lemma to_hex_head fuel n : 0 < n -> n < 16 ^ Z.of_nat fuel -> exists d r, to_hex fuel n = lower_digit d :: r /\ 0 < d < 16.
Proof.
  revert n. induction fuel as [|fuel IH]; intros n H0 Hn; [simpl in Hn; lia|]. cbn [to_hex].
  destruct (n <? 16) eqn:E; zbool; [by exists n, []|].
  destruct (IH (n / 16)) as (d & r & -> & Hd); [lia| |by exists d, (r ++ [lower_digit (n mod 16)])].
  rewrite Nat2Z.inj_succ, Z.pow_succ_r in Hn by lia. lia.
Qed.

Lemma parse_hex_written n r : 0 < n <= UINT_MAX -> parse_hex (to_hex 8 n ++ 13 :: r) = (n, false, 13 :: r).
Proof.
  unfold UINT_MAX. intros Hn.
  assert (hex_loop (to_hex 8 n ++ 13 :: r) 0 false false = (n, false, true, 13 :: r)) as E.
  { rewrite hex_loop_digits by (unfold UINT_MAX; simpl Z.of_nat; (lia || done)). done. }
  destruct (to_hex_head 8 n) as (d & s & Es & Hd); [lia|simpl Z.of_nat; lia|]. rewrite Es in *. cbn [app] in *.
  destruct (lower_digit_value d) as (_ & _ & N1 & N2 & N3 & _); [lia|]. unfold parse_hex.
  replace (lower_digit d =? 43) with false by (symmetry; by apply Z.eqb_neq).
  replace (lower_digit d =? 45) with false by (symmetry; by apply Z.eqb_neq).
  replace (lower_digit d =? 48) with false by (symmetry; apply Z.eqb_neq; intros H; apply N3 in H; lia).
  destruct (s ++ 13 :: r) as [|x y] eqn:Ex; [by destruct s|]. cbn [andb]. rewrite E. done.
Qed.

(** ** The header of a chunk *)

Lemma drop_spaces_none d r : isspace d = false -> drop_spaces (d :: r) = d :: r.
Proof. intros H. simpl. by rewrite H. Qed.

(** The white space before the length. *)
Definition gap (w : bytes) : Prop := w = [] \/ w = CRLF.

Lemma drop_gap w d r : gap w -> isspace d = false -> drop_spaces (w ++ d :: r) = d :: r.
Proof. intros [->| ->] H; simpl; by rewrite H. Qed.

Abbreviation live l := (mkIn l false false).

Lemma extract_written w n r k : gap w -> 0 < n <= UINT_MAX ->
  extract_hex k (live (w ++ to_hex 8 n ++ CRLF ++ r)) = (n, live (CRLF ++ r)).
Proof.
  intros Hw Hn. unfold extract_hex. cbn [good in_eof in_fail in_data negb andb].
  pose proof (parse_hex_written n (10 :: r) Hn) as E. change (13 :: 10 :: r) with (CRLF ++ r) in E.
  destruct (to_hex_head 8 n) as (d & s & Es & Hd); [lia|unfold UINT_MAX in Hn; simpl Z.of_nat; lia|]. rewrite Es in *.
  cbn [app] in *. destruct (lower_digit_value d) as (_ & Hsp & _); [lia|]. rewrite drop_gap by done.
  cbn [app] in E. rewrite E. done.
Qed.

Lemma extract_last w r k : gap w -> extract_hex k (live (w ++ txt "0" ++ CRLF ++ r)) = (0, live (CRLF ++ r)).
Proof.
  intros Hw. unfold extract_hex. cbn [good in_eof in_fail in_data negb andb].
  change (txt "0" ++ CRLF ++ r) with (48 :: CRLF ++ r). rewrite drop_gap by done. done.
Qed.

Lemma skip_crlf r : skipLine (live (CRLF ++ r)) = live r.
Proof. done. Qed.

(** ** What is left to read *)

Definition chunk (c : bytes) : bytes := to_hex 8 (zlen c) ++ CRLF ++ c ++ CRLF.
Definition chunk_ok (c : bytes) : Prop := c <> [] /\ zlen c < 2147483648.
Definition last_chunk : bytes := txt "0" ++ CRLF.

(** The reader has the body [rem] before it, and [rest] behind the body. *)
Inductive ahead (rest : bytes) : bytes -> HTTPChunkedIStreamBuffer -> Prop :=
| ahead_between w ps :
    gap w -> Forall chunk_ok ps ->
    ahead rest (concat ps) (mkChunked (live (w ++ concat (map chunk ps) ++ last_chunk ++ rest)) 0 0 false)
| ahead_inside c ps len pos :
    c <> [] -> Forall chunk_ok ps -> 0 <= pos -> len = pos + zlen c -> len < 2147483648 ->
    ahead rest (c ++ concat ps) (mkChunked (live (c ++ CRLF ++ concat (map chunk ps) ++ last_chunk ++ rest)) len pos false).

(** The body has been read. *)
Definition done_at (rest : bytes) (b : HTTPChunkedIStreamBuffer) : Prop := m_istr b = live rest /\ m_isEOF b = true.

Lemma zlen_pos (a : bytes) : a <> [] -> 0 < zlen a.
Proof. destruct a; [done|]. unfold zlen. simpl. lia. Qed.

(** Reading part of a text. *)
Lemma read_part n c r : 0 <= n <= zlen c -> read n (live (c ++ r)) = (take (Z.to_nat n) c, live (drop (Z.to_nat n) c ++ r)).
Proof.
  intros Hn. unfold read. cbn [good in_eof in_fail in_data negb andb]. rewrite zlen_app. pose proof (zlen_nonneg r).
  replace (n <=? zlen c + zlen r) with true by (symmetry; apply Z.leb_le; lia). unfold zlen in Hn.
  rewrite take_app_le, drop_app_le by lia. done.
Qed.

(** ** The loop of the reader *)

Lemma header_step rest rem b off : ahead rest rem b ->
  (rem = [] /\ exists b', chunk_header off b = (Return off, b') /\ done_at rest b') \/
  (exists c ps len pos, rem = c ++ concat ps /\ c <> [] /\ Forall chunk_ok ps /\ 0 <= pos /\ len = pos + zlen c /\
    len < 2147483648 /\
    chunk_header off b = (Go, mkChunked (live (c ++ CRLF ++ concat (map chunk ps) ++ last_chunk ++ rest)) len pos false)).
Proof.
  intros [w ps Hw Hps|c ps len pos Hc Hps Hp Hl Hlt].
  - destruct Hps as [|c ps [Hc Hcl] Hps].
    + left. split; [done|]. unfold chunk_header. cbn [m_inLen m_istr]. simpl (0 =? 0). cbv iota.
      cbn [map concat app]. unfold last_chunk. rewrite <- app_assoc, extract_last by done. cbn [in_fail].
      rewrite skip_crlf. simpl. eexists. split; [done|]. done.
    + right. exists c, ps, (zlen c), 0. pose proof (zlen_pos c Hc). split_and!; [done|done|done|lia|lia|lia|].
      unfold chunk_header. cbn [m_inLen m_istr]. simpl (0 =? 0). cbv iota.
      assert (concat (map chunk (c :: ps)) ++ last_chunk ++ rest =
        to_hex 8 (zlen c) ++ CRLF ++ (c ++ CRLF ++ concat (map chunk ps) ++ last_chunk ++ rest)) as ->.
      { cbn [map concat]. unfold chunk. rewrite <- !app_assoc. done. }
      rewrite extract_written by (done || unfold UINT_MAX; lia). cbn [in_fail]. rewrite skip_crlf.
      replace (zlen c =? 0) with false by (symmetry; apply Z.eqb_neq; lia). done.
  - right. exists c, ps, len, pos. split_and!; [done..|]. unfold chunk_header. cbn [m_inLen].
    pose proof (zlen_pos c Hc). replace (len =? 0) with false by (symmetry; apply Z.eqb_neq; lia). done.
Qed.

Lemma chunk_loop_reads rest fuel : forall un off c0 rem b,
  ahead rest rem b -> 0 <= off <= un -> un < 2147483648 -> (Z.to_nat (un - off) < fuel)%nat ->
  exists b', chunk_loop fuel un off c0 b =
      Ok (off + Z.min (un - off) (zlen rem), c0 ++ take (Z.to_nat (un - off)) rem, b') /\
    if zlen rem <? un - off then done_at rest b' else ahead rest (drop (Z.to_nat (un - off)) rem) b'.
Proof.
  induction fuel as [|fuel IH]; intros un off c0 rem b Hb Ho Hu Hf; [lia|]. cbn [chunk_loop].
  assert (good (m_istr b) = true) as -> by (by destruct Hb). rewrite andb_true_r.
  destruct (off <? un) eqn:E; zbool.
  2:{ exists b. replace (un - off) with 0 by lia. pose proof (zlen_nonneg rem). rewrite Z.min_l by lia. simpl.
      rewrite Z.add_0_r, app_nil_r. split; [done|]. by replace (zlen rem <? 0) with false by (symmetry; apply Z.ltb_ge; lia). }
  destruct (header_step rest rem b off Hb) as [(-> & b' & -> & Hd)|(c & ps & len & pos & -> & Hc & Hps & Hp & Hlen & Hlt & ->)].
  { exists b'. change (zlen []) with 0. rewrite Z.min_r, Z.add_0_r, take_nil, app_nil_r by lia. split; [done|].
    by replace (0 <? un - off) with true by (symmetry; apply Z.ltb_lt; lia). }
  cbn [m_inLen m_inPos m_istr m_isEOF]. pose proof (zlen_pos c Hc) as Hcp.
  unfold uwrap. rewrite !Z.mod_small by (change (2 ^ 32) with 4294967296; lia).
  replace (len - pos) with (zlen c) by lia. set (k := Z.min (un - off) (zlen c)).
  rewrite read_part by lia. assert (zlen (take (Z.to_nat k) c) = k) as Hk.
  { unfold zlen in *. rewrite length_take. lia. }
  rewrite Hk. replace (k <? k) with false by (symmetry; apply Z.ltb_irrefl). rewrite zlen_app. pose proof (zlen_nonneg (concat ps)).
  assert (c ++ concat ps = take (Z.to_nat k) c ++ drop (Z.to_nat k) c ++ concat ps) as Ec by (by rewrite app_assoc, take_drop).
  assert (length (take (Z.to_nat k) c) = Z.to_nat k) as Hkn by (unfold zlen in Hk; lia).
  set (b1 := if pos + k =? len then _ else _).
  assert (ahead rest (drop (Z.to_nat k) c ++ concat ps) b1) as Hb1.
  { unfold b1. destruct (pos + k =? len) eqn:Epos; zbool.
    - replace (Z.to_nat k) with (length c) by (unfold zlen in *; lia). rewrite drop_all. cbn [app].
      apply (ahead_between rest CRLF ps); [by right|done].
    - apply ahead_inside; [|done|lia| |done].
      + intros En. apply (f_equal length) in En. rewrite length_drop in En. simpl in En. unfold zlen in *. lia.
      + unfold zlen in *. rewrite length_drop. lia. }
  clearbody b1. destruct (IH un (off + k) (c0 ++ take (Z.to_nat k) c) (drop (Z.to_nat k) c ++ concat ps) b1 Hb1) as (b' & -> & Hr);
    [lia|lia|lia|]. exists b'. rewrite Ec, <- app_assoc.
  assert (zlen (drop (Z.to_nat k) c) = zlen c - k) as Hd by (unfold zlen in *; rewrite length_drop; lia).
  rewrite zlen_app, Hd in Hr. replace (Z.to_nat (un - off)) with (length (take (Z.to_nat k) c) + Z.to_nat (un - (off + k)))%nat by lia.
  rewrite take_app_add, drop_app_add. rewrite ?zlen_app, ?Hk, ?Hd. split.
  - f_equal. f_equal. f_equal. lia.
  - replace (zlen c + zlen (concat ps) <? un - off) with (zlen c - k + zlen (concat ps) <? un - (off + k)); [done|].
    destruct (Z.ltb_spec (zlen c - k + zlen (concat ps)) (un - (off + k)));
      destruct (Z.ltb_spec (zlen c + zlen (concat ps)) (un - off)); (done || lia).
Qed.

(** ** Sequences of calls *)

Definition size_ok (n : Z) : Prop := 0 <= n < 2147483648.
Definition total (ns : list Z) : Z := foldr Z.add 0 ns.

Fixpoint read_calls (ns : list Z) (b : HTTPChunkedIStreamBuffer) : outcome (list (Z * bytes) * HTTPChunkedIStreamBuffer) :=
  match ns with
  | [] => Ok ([], b)
  | n :: ns =>
      buffer_from_device n b ≫= fun '(v, d, b) =>
      read_calls ns b ≫= fun '(l, b) => Ok ((v, d) :: l, b)
  end.

Lemma total_nonneg ns : Forall size_ok ns -> 0 <= total ns.
Proof. induction 1 as [|n ns Hn _ IH]; simpl; [lia|]. unfold size_ok in Hn. lia. Qed.

Lemma read_done rest ns : forall b, Forall size_ok ns -> done_at rest b ->
  exists l, read_calls ns b = Ok (l, b) /\ concat (snd <$> l) = [].
Proof.
  induction ns as [|n ns IH]; intros b Hns Hb; [by exists []|]. apply Forall_cons in Hns as [_ Hns]. cbn [read_calls].
  unfold buffer_from_device. rewrite (proj2 Hb). cbn [orb mbind outcome_bind]. destruct (IH b Hns Hb) as (l & -> & El).
  exists ((-1, []) :: l). split; [done|]. simpl. done.
Qed.

Lemma read_calls_ahead rest ns : forall rem b, Forall size_ok ns -> ahead rest rem b ->
  exists l b', read_calls ns b = Ok (l, b') /\ concat (snd <$> l) = take (Z.to_nat (total ns)) rem /\
    if zlen rem <? total ns then done_at rest b' else ahead rest (drop (Z.to_nat (total ns)) rem) b'.
Proof.
  induction ns as [|n ns IH]; intros rem b Hns Hb.
  - exists [], b. split_and!; [done|done|]. simpl. pose proof (zlen_nonneg rem).
    by replace (zlen rem <? 0) with false by (symmetry; apply Z.ltb_ge; lia).
  - apply Forall_cons in Hns as [Hn Hns]. pose proof (total_nonneg ns Hns) as Ht. unfold size_ok in Hn. cbn [read_calls].
    unfold buffer_from_device. assert (m_isEOF b = false) as -> by (by destruct Hb).
    replace (n <? 0) with false by (symmetry; apply Z.ltb_ge; lia). cbn [orb].
    destruct (chunk_loop_reads rest (S (Z.to_nat n)) n 0 [] rem b Hb) as (b1 & -> & Hb1); [lia..|].
    rewrite Z.sub_0_r in *. cbn [app mbind outcome_bind]. change (total (n :: ns)) with (n + total ns).
    pose proof (zlen_nonneg rem). destruct (zlen rem <? n) eqn:E; zbool.
    + destruct (read_done rest ns b1 Hns Hb1) as (l & -> & El). cbn [mbind outcome_bind].
      eexists _, b1. split; [done|]. cbn [fmap list_fmap snd concat]. split.
      * change (list_fmap _ _ snd l) with (snd <$> l). rewrite El, app_nil_r. unfold zlen in *. by rewrite !take_ge by lia.
      * by replace (zlen rem <? n + total ns) with true by (symmetry; apply Z.ltb_lt; lia).
    + destruct (IH _ b1 Hns Hb1) as (l & b2 & -> & El & Hb2). cbn [mbind outcome_bind]. eexists _, b2. split; [done|].
      cbn [fmap list_fmap snd concat]. change (list_fmap _ _ snd l) with (snd <$> l).
      replace (Z.to_nat (n + total ns)) with (Z.to_nat n + Z.to_nat (total ns))%nat by lia. split.
      * rewrite El. by rewrite take_take_drop.
      * rewrite drop_drop in Hb2. assert (zlen (drop (Z.to_nat n) rem) = zlen rem - n) as Hd by (unfold zlen in *; rewrite length_drop; lia).
        rewrite Hd in Hb2. replace (zlen rem <? n + total ns) with (zlen rem - n <? total ns); [done|].
        destruct (Z.ltb_spec (zlen rem - n) (total ns)); destruct (Z.ltb_spec (zlen rem) (n + total ns)); (done || lia).
Qed.

(** ** Writing *)

Definition write_calls (ps : list bytes) (o : OStream) : OStream := foldl (fun o c => (buffer_to_device c o).2) o ps.

Lemma buffer_to_device_good c d : zlen c < 2147483648 ->
  buffer_to_device c (mkOut d true) = (0, mkOut (d ++ (if bool_decide (c = []) then [] else chunk c)) true).
Proof.
  intros Hc. unfold buffer_to_device. destruct (bool_decide (c = [])) eqn:E.
  - apply bool_decide_eq_true in E as ->. simpl. by rewrite app_nil_r.
  - apply bool_decide_eq_false in E. pose proof (zlen_pos c E).
    replace (zlen c <=? 0) with false by (symmetry; apply Z.leb_gt; lia). unfold put_out. simpl. unfold chunk.
    by rewrite <- !app_assoc.
Qed.

Definition pieces (ps : list bytes) : list bytes := filter (fun c => c <> []) ps.

Lemma write_calls_good ps : forall d, Forall (fun c => zlen c < 2147483648) ps ->
  write_calls ps (mkOut d true) = mkOut (d ++ concat (map chunk (pieces ps))) true.
Proof.
  induction ps as [|c ps IH]; intros d Hps; [simpl; by rewrite app_nil_r|]. apply Forall_cons in Hps as [Hc Hps].
  unfold write_calls in *. cbn [foldl]. rewrite buffer_to_device_good by done. cbn [snd]. rewrite IH by done.
  unfold pieces. destruct (decide (c = [])) as [->|Hne].
  - rewrite bool_decide_true by done. rewrite filter_cons_False by (intros H; by apply H). by rewrite app_nil_r.
  - rewrite bool_decide_false by done. rewrite filter_cons_True by done. cbn [map concat]. by rewrite <- app_assoc.
Qed.

Lemma pieces_ok ps : Forall (fun c => zlen c < 2147483648) ps -> Forall chunk_ok (pieces ps) /\ concat (pieces ps) = concat ps.
Proof.
  unfold pieces. induction 1 as [|c ps Hc _ [IH1 IH2]]; [by split; [constructor|]|]. destruct (decide (c = [])) as [->|Hne].
  - rewrite filter_cons_False by (intros H; by apply H). by split.
  - rewrite filter_cons_True by done. cbn [concat]. rewrite IH2. split; [|done]. by constructor.
Qed.

Lemma chunked_written ps bf rest :
  Forall (fun c => zlen c < 2147483648) (ps ++ [bf]) ->
  exists o, termOutput false bf (write_calls ps (mkOut [] true)) = mkOut o true /\
    ahead rest (concat (ps ++ [bf])) (newChunked (live (o ++ rest))).
Proof.
  intros Hps. pose proof Hps as [H1 H2]%Forall_app. apply Forall_cons in H2 as [H2 _]. unfold termOutput. rewrite write_calls_good by done. cbn [app].
  exists (concat (map chunk (pieces (ps ++ [bf]))) ++ last_chunk). split.
  - rewrite buffer_to_device_good by done. cbn [snd]. unfold put_out, last_chunk. simpl. unfold pieces.
    rewrite filter_app, map_app, concat_app. destruct (decide (bf = [])) as [->|Hne].
    + rewrite bool_decide_true by done. rewrite filter_cons_False by (intros H; by apply H). simpl. by rewrite !app_nil_r.
    + rewrite bool_decide_false by done. rewrite filter_cons_True by done. simpl. by rewrite app_nil_r, <- !app_assoc.
  - destruct (pieces_ok _ Hps) as [Hok <-]. rewrite <- app_assoc. apply (ahead_between rest [] (pieces (ps ++ [bf]))); [by left|done].
Qed.

(** ** The length limit *)

(** What can still be read of a stream. *)
Definition content_of (s : IStream) : bytes := if good s then in_data s else [].

Lemma read_content n s : 0 <= n ->
  (read n s).1 = take (Z.to_nat n) (content_of s) /\ content_of (read n s).2 = drop (Z.to_nat n) (content_of s).
Proof.
  intros Hn. unfold read, content_of. destruct (good s) eqn:Eg; [|unfold good; simpl; rewrite take_nil, drop_nil, andb_false_r; done].
  destruct (n <=? zlen (in_data s)) eqn:E; zbool; cbn [fst snd].
  - done.
  - unfold zlen in E. rewrite take_ge, drop_ge by lia. done.
Qed.

Fixpoint limit_calls (ns : list Z) (b : HTTPLengthLimitStreamBuffer) : list (Z * bytes) * HTTPLengthLimitStreamBuffer :=
  match ns with
  | [] => ([], b)
  | n :: ns =>
      let '(v, d, b) := limit_from_device n b in
      let '(l, b) := limit_calls ns b in
      ((v, d) :: l, b)
  end.

(** [k] bytes of the body are left. *)
Definition limited (k : Z) (b : HTTPLengthLimitStreamBuffer) : Prop :=
  0 <= k /\ 0 <= m_pos b /\ m_length b = m_pos b + k /\ m_length b < 2 ^ 64 /\ (m_isEnd b = true -> k = 0).

Lemma limit_step n k b : size_ok n -> limited k b ->
  let '(v, d, b') := limit_from_device n b in
  d = take (Z.to_nat (Z.min n k)) (content_of (l_istr b)) /\
  content_of (l_istr b') = drop (Z.to_nat (Z.min n k)) (content_of (l_istr b)) /\ limited (k - zlen d) b'.
Proof.
  intros Hn (Hk & Hp & Hl & Hu & He). unfold size_ok in Hn. unfold limit_from_device.
  change (2 ^ 64) with 18446744073709551616 in *.
  replace (n <? 0) with false by (symmetry; apply Z.ltb_ge; lia). rewrite orb_false_r. destruct (m_isEnd b) eqn:Ee.
  - specialize (He eq_refl) as ->. rewrite Z.min_r by lia. simpl. rewrite Z.sub_0_r. split_and!; [done|done|].
    split_and!; [lia|done..|]. done.
  - unfold uwrap. change (2 ^ 64) with 18446744073709551616. rewrite (Z.mod_small (m_length b - m_pos b)) by lia.
    replace (if n <? m_length b - m_pos b then n else m_length b - m_pos b) with (Z.min n k)
      by (destruct (Z.ltb_spec n (m_length b - m_pos b)); lia).
    pose proof (read_content (Z.min n k) (l_istr b) ltac:(lia)) as [Ed Es].
    destruct (read (Z.min n k) (l_istr b)) as [d s]. cbn [fst snd] in *. cbn [l_istr].
    assert (zlen d <= Z.min n k) as Hd by (rewrite Ed; unfold zlen; rewrite length_take; lia). pose proof (zlen_nonneg d).
    split_and!; [done|done|]. unfold limited. cbn [m_length m_pos m_isEnd]. rewrite (Z.mod_small (m_pos b + zlen d)) by lia.
    split_and!; [lia|lia|lia|lia|]. cbn [orb]. intros E. zbool. lia.
Qed.

Lemma limit_calls_reads ns : forall k b, Forall size_ok ns -> limited k b ->
  let '(l, b') := limit_calls ns b in
  concat (snd <$> l) = take (Z.to_nat (Z.min (total ns) k)) (content_of (l_istr b)) /\
  content_of (l_istr b') = drop (Z.to_nat (Z.min (total ns) k)) (content_of (l_istr b)).
Proof.
  induction ns as [|n ns IH]; intros k b Hns Hb; cbn [limit_calls].
  - unfold total. cbn [foldr]. destruct Hb as [Hk _]. rewrite Z.min_l by lia. done.
  - apply Forall_cons in Hns as [Hn Hns]. pose proof (limit_step n k b Hn Hb) as Hs. pose proof (total_nonneg ns Hns) as Ht.
    unfold size_ok in Hn. destruct (limit_from_device n b) as [[v d] b1]. destruct Hs as (Ed & Es & Hb1).
    specialize (IH _ b1 Hns Hb1). destruct (limit_calls ns b1) as [l b2]. destruct IH as [El Es2].
    change (total (n :: ns)) with (n + total ns). cbn [fmap list_fmap snd concat]. change (list_fmap _ _ snd l) with (snd <$> l).
    rewrite El, Es2, Es. set (s := content_of (l_istr b)) in *. destruct Hb as [Hk _].
    destruct (Z.le_gt_cases (Z.min n k) (zlen s)) as [Hle|Hgt].
    + assert (zlen d = Z.min n k) as Hd by (rewrite Ed; unfold zlen in *; rewrite length_take; lia). rewrite Hd.
      replace (Z.to_nat (Z.min (n + total ns) k)) with (Z.to_nat (Z.min n k) + Z.to_nat (Z.min (total ns) (k - Z.min n k)))%nat by lia.
      rewrite Ed, take_take_drop, drop_drop. done.
    + unfold zlen in *. rewrite (drop_ge s (Z.to_nat (Z.min n k))) by lia. rewrite take_nil, drop_nil, app_nil_r, Ed.
      rewrite !take_ge, drop_ge by lia. done.
Qed.
