(* ===== verification/HttpMain.v ===== *)
(** * The theorems on HTTP

   The properties of base64, URL escaping, basic credentials and message
   bodies, with witnesses on concrete texts and streams. *)

From S2P Require Import Prelude Blocxx XmlText XmlParser HttpBase64 HttpUrl HttpStreams.

(** Every sequence of bytes is encoded without leaving the buffer, which
   holds exactly the characters and their NUL, and decoded back. *)
Lemma base64_roundtrip asserts l :
  Forall is_octet l -> zlen l < 2 ^ 29 ->
  exists e, base64Encode asserts l = Ok e /\ zlen e = 4 * ((zlen l + 2) / 3) /\ base64Decode e = Ok l.
Proof.
  intros Ho Hl. exists (enc_spec l). split_and!.
  - apply base64Encode_ok; [done|]. change (2 ^ 29) with 536870912 in Hl. change (2 ^ 30) with 1073741824. lia.
  - unfold zlen. by rewrite enc_spec_length, Nat2Z.inj_mul, Nat2Z.inj_div, Nat2Z.inj_add.
  - apply base64Decode_enc; [done|]. by apply zlen_enc_spec.
Qed.

(** Decoding any text returns or throws without leaving the buffer, and
   what it accepts is, up to white space, exactly what encoding the result
   writes: no second text hides in the unused bits or in the padding. *)
Lemma base64Decode_canonical_only asserts src :
  zlen src < 2 ^ 30 ->
  match base64Decode src with
  | Ok l => base64Encode asserts l = Ok (strip src)
  | Throw _ => True
  | _ => False
  end.
Proof.
  intros Hl. pose proof (base64Decode_canonical src) as Hc. rewrite base64Decode_spec in * by done.
  pose proof (dec_spec_safe (digits_of src).1 (digits_of src).2) as Hs. pose proof (digits_range src) as Hr.
  destruct (dec_spec (digits_of src).1 (digits_of src).2) as [l| | |] eqn:E; try done.
  rewrite <- (Hc l Hl eq_refl). apply dec_spec_full in E as ->.
  apply base64Encode_ok; [by apply full_octets|]. pose proof (full_length (digits_of src).1).
  pose proof (digits_strlen src). pose proof (strlen_range src). unfold zlen in *. lia.
Qed.

(** C32: every sequence of bytes is base64-encoded without leaving the buffer,
   which holds exactly the characters and their NUL, and decoded back; decoding
   any text returns or throws without leaving its buffer, and what it accepts
   is, up to white space, exactly what encoding the result writes: no second
   text hides in the unused bits or in the padding. *)
Theorem base64_codec asserts :
  (forall l, Forall is_octet l -> zlen l < 2 ^ 29 ->
   exists e, base64Encode asserts l = Ok e /\ zlen e = 4 * ((zlen l + 2) / 3) /\ base64Decode e = Ok l) /\
  (forall src, zlen src < 2 ^ 30 ->
   match base64Decode src with
   | Ok l => base64Encode asserts l = Ok (strip src)
   | Throw _ => True
   | _ => False
   end).
Proof. split; [apply base64_roundtrip|apply base64Decode_canonical_only]. Qed.

(** A text without NUL, escaped for a URL, consists of unreserved
   characters and percent signs and is unescaped to the same text. *)
Lemma url_roundtrip s :
  Forall (fun c => is_octet c /\ c <> 0) s ->
  Forall (fun c => unreserved c = true \/ c = 37) (escapeForURL s) /\ unescapeForURL (escapeForURL s) = Ok s.
Proof.
  intros Hs. split; [|apply unescape_loop_escape; [done|lia]]. apply escape_plain.
  eapply Forall_impl; [exact Hs|]. simpl. tauto.
Qed.


Lemma chunked_roundtrip ps buffered ns rest :
  Forall (fun c => zlen c < 2147483648) (ps ++ [buffered]) -> Forall size_ok ns ->
  exists o l b, termOutput false buffered (write_calls ps (mkOut [] true)) = mkOut o true /\
    read_calls ns (newChunked (live (o ++ rest))) = Ok (l, b) /\
    concat (snd <$> l) = take (Z.to_nat (total ns)) (concat (ps ++ [buffered])) /\
    (zlen (concat (ps ++ [buffered])) < total ns -> m_istr b = live rest /\ m_isEOF b = true).
Proof.
  intros Hps Hns. destruct (chunked_written ps buffered rest Hps) as (o & Eo & Ha).
  destruct (read_calls_ahead rest ns _ _ Hns Ha) as (l & b & El & Ed & Hb). exists o, l, b. split_and!; [done..|].
  intros Hlt. by replace (_ <? _) with true in Hb by (symmetry; by apply Z.ltb_lt).
Qed.

Lemma length_limit_exact s len ns :
  0 <= len < 2 ^ 64 -> Forall size_ok ns ->
  let '(l, b) := limit_calls ns (newLimit s len) in
  let n := Z.to_nat (Z.min (total ns) len) in
  concat (snd <$> l) = take n (content_of s) /\ content_of (l_istr b) = drop n (content_of s).
Proof.
  intros Hl Hns. apply (limit_calls_reads ns len (newLimit s len) Hns). unfold limited. cbn [newLimit m_length m_pos m_isEnd].
  split_and!; [lia|lia|lia|lia|done].
Qed.

(** C34: a body written in pieces of any size through the chunked stream and
   terminated is read back through the chunked stream in reads of any size, each
   byte once and in order; a read behind the end leaves the stream right behind
   the last chunk, at what follows the body.  Whatever the reader asks for, the
   length-limited stream delivers the first bytes of the stream, at most the
   length of the body, each once and in order, and takes nothing else. *)
Theorem message_bodies ns :
  Forall size_ok ns ->
  (forall ps buffered rest, Forall (fun c => zlen c < 2147483648) (ps ++ [buffered]) ->
     exists o l b, termOutput false buffered (write_calls ps (mkOut [] true)) = mkOut o true /\
       read_calls ns (newChunked (live (o ++ rest))) = Ok (l, b) /\
       concat (snd <$> l) = take (Z.to_nat (total ns)) (concat (ps ++ [buffered])) /\
       (zlen (concat (ps ++ [buffered])) < total ns -> m_istr b = live rest /\ m_isEOF b = true)) /\
  (forall s len, 0 <= len < 2 ^ 64 ->
     let '(l, b) := limit_calls ns (newLimit s len) in
     let n := Z.to_nat (Z.min (total ns) len) in
     concat (snd <$> l) = take n (content_of s) /\ content_of (l_istr b) = drop n (content_of s)).
Proof. intros Hns. split; [intros ps b rest Hp; by apply chunked_roundtrip|intros s len Hl; by apply length_limit_exact]. Qed.

Module HttpEx.
Import Ref.
Definition data : bytes := [0; 255; 16; 131; 77].

Lemma base64_witness :
  (exists e, base64Encode true data = Ok e /\ e = txt "AP8Qg00=" /\ base64Decode e = Ok data) /\
  base64Encode true data = Ok (strip (txt "AP8Q  g00 =")).
Proof.
  destruct (base64_codec true) as [He Hd]. split.
  - destruct (He data) as (e & H1 & _ & H2).
    + repeat constructor; unfold is_octet; lia.
    + vm_compute. reflexivity.
    + exists e. split; [exact H1|]. split; [|exact H2]. vm_compute in H1. injection H1 as <-. vm_compute. reflexivity.
  - pose proof (Hd (txt "AP8Q  g00 =") ltac:(vm_compute; reflexivity)) as H.
    replace (base64Decode (txt "AP8Q  g00 =")) with (Ok data) in H by (vm_compute; reflexivity). exact H.
Defined.


Lemma bodies_witness : (exists o l b,
  termOutput false (txt "c") (write_calls [txt "hello"; []; txt "ab"] (mkOut [] true)) = mkOut o true /\
  read_calls [3; 0; 20] (newChunked (live (o ++ txt "POST"))) = Ok (l, b) /\ concat (snd <$> l) = txt "helloabc" /\
  m_istr b = live (txt "POST") /\ m_isEOF b = true) /\
  concat (snd <$> (limit_calls [3; 0; 20] (newLimit (live (txt "bodyxPOST")) 5)).1) = txt "bodyx".
Proof.
  destruct (message_bodies [3; 0; 20]) as [Hc Hl]; [repeat constructor; vm_compute; discriminate || reflexivity|]. split.
  - destruct (Hc [txt "hello"; []; txt "ab"] (txt "c") (txt "POST")) as (o & l & b & H1 & H2 & H3 & H4).
    + repeat constructor.
    + exists o, l, b. split; [exact H1|]. split; [exact H2|]. split; [exact H3|]. apply H4. vm_compute. reflexivity.
  - pose proof (Hl (live (txt "bodyxPOST")) 5 ltac:(lia)) as H.
    destruct (limit_calls [3; 0; 20] (newLimit (live (txt "bodyxPOST")) 5)) as [l b]. exact (proj1 H).
Defined.
End HttpEx.
